(* ===== verification/_CoqProject ===== *)
-Q . S2P
Prelude.v
Text.v
Command.v
Lexer.v
Parser.v
Wire.v
Opcode.v
Request.v
Response.v
EngineError.v
Store.v
State.v
Wildcard.v
Crypto.v
Frame.v
PayloadFacts.v
FrameFacts.v
Negotiation.v
ServerError.v
ReadIndex.v
Consensus.v
Auth.v
AuthFacts.v
Access.v
Status.v
BackupFiles.v
AuditLog.v
Elections.v
ElectionFacts.v
Wal.v
WalFacts.v
WalLayout.v
Engine.v
AccessFacts.v
Transaction.v
TxFacts.v
BatchFacts.v
StorageFacts.v
Backup.v
Replication.v
History.v
ReplicaFacts.v
DiskLog.v
Storage.v
DiskEngine.v
EngineWorker.v
WorkerQueue.v
Node.v
WritePath.v
Recovery.v
SnapshotFacts.v
ReplicaDisk.v
DiskHandle.v
Dispatch.v
Connection.v
Loops.v
Process.v
Bench.v
Client.v
ClientFacts.v
Samples.v
Runs.v
NodeFacts.v
NodeRuns.v
AccessRuns.v
EngineTheorems.v
RecoveryTheorems.v
ReplicationTheorems.v
TransportTheorems.v
Serving.v
NodeTheorems.v
Confinement.v
AccessTheorems.v
AuditTheorems.v
ServerTheorems.v
ClientTheorems.v
ProcessTheorems.v
ConsensusTheorems.v
CommandTheorems.v
BenchTheorems.v
