(* ===== verification/Prelude.v ===== *)
(** * A verification library for Vaylix

    Vaylix is a key-value server.  Its source is a Rust workspace under
    [src/crates]; this library models it as Rocq functions and proves what makes it
    correct.  Definitions keep the names of the source and are executable.

    ** The program and its model

    A client turns a line of text into a command ([command] crate), encodes it as a
    framed request ([transport] crate) and sends it to a server, which executes it
    on a storage engine ([engine] crate).  The engine holds the keyspace in memory,
    writes every change to an encrypted write-ahead log before it is acknowledged,
    takes snapshots, recovers from both after a restart, and ships its log to
    followers.  Inside a server ([server] crate) one thread owns the engine and works
    off a queue; several servers form a cluster that elects a leader, which sends its
    log to the others, counts what they hold and serves reads from an index of
    committed entries.

    - [command/src]: [Command] (commands, options, errors), [Lexer], [Parser].
      [CommandTheorems] begins with a printer of commands, the specification the
      parser is compared with.
    - [client/src]: [Client] (configuration, the session, rendering, and what the line
      editor is told about a line).
    - [engine/src/engine/store.rs], [state.rs]: [Store] (entries with version and
      deadline, and the store), [State] (log operations and entries,
      [apply_operation], [apply_entry] with its rollback).
    - [engine/src/engine/core.rs], split by concern: [Wildcard] (glob matching),
      [Engine] (the storage-trait operations; the log writer behind them is the
      class [WalWriter]), [Transaction] (MULTI/EXEC and command batches),
      [Replication] (serving and applying log entries), [Backup] (logical dumps),
      [DiskEngine] (opening, recovery, snapshots, migration, restore).
    - [engine/src/store]: [Crypto] (the storage envelope), [Wal] (segments, frames,
      replay, and the writer on a disk that can fill up), [Storage]
      (snapshot, manifest and keyring files with atomic replacement).
    - [transport/src]: [Wire] (integers, strings and byte strings on a buffer),
      [Opcode], [Request], [Response], [Frame] (header, compression, bodies, the
      readers and writers on a stream), [Negotiation] (the handshake).
    - [server/src/replication]: [Consensus] (roles, terms, votes, members, the commit
      rule, the state file: one function per method of [ReplicationRuntime]).
    - [server/src/server]: [EngineWorker] and [WorkerQueue] (the engine thread and its
      queue; [commands.rs] and [engine_worker.rs]), [ReadIndex] ([read_index.rs]),
      [Node] (the handlers of [mod.rs] and [ha_write_coordinator.rs] on an engine, a
      runtime and an index), [Elections] (a cluster as a transition system).  Rounds
      between a leader and one follower are in [NodeFacts].  [Node] is written
      against the class [EngineWorker.EngineHandle] of engine operations; [DiskHandle]
      shows that [DiskEngine] satisfies its laws.  [WritePath] is the way from a write
      to its acknowledgement.
    - [server/src/server], commands of clients: [Access] (sessions, the rate limiter
      with its floating point numbers, authorization, size limits, maintenance mode,
      lockouts), [Status] (the status listings, the texts of [metrics.rs] and the
      manifest of a backup), [BackupFiles] (the paths and files of [backup.rs] on a
      tree with symbolic links), [Dispatch] ([process_command] with logins,
      transactions and every command, on a node, the users, the files and a session).
    - [server/src/server], connections and tasks: [Connection] ([handle_client] from
      the hello to the end of a connection with its audit records, the requests of
      other servers, and the pool of [replication_client.rs] that sends them), [Loops]
      (the accept loop, the tasks of [lifecycle.rs], [tls.rs], the fetching follower,
      and the consensus loop with its elections).
    - [server/src], the program: [Process] ([args.rs], [bootstrap.rs], the start of a
      server on its directory, [admin.rs], [healthcheck.rs], [init.rs]).
    - [server/src/auth]: [Auth] (users, roles, grants and their file).
      [server/src/audit.rs]: [AuditLog] (the hash-chained log and its events).
    - [bench/src]: [Bench] (the load generator: profiles, connections with pipelines,
      workloads, workers, reports, and the servers it starts), against a record
      [Outside] of what it asks of its surroundings.

    [Text] models what the source uses of the Rust library: UTF-8, number parsing and
    printing, bytes and big- and little-endian integers; [Store] has its ordered maps.

    ** Conventions

    A [String] is a [string] of its UTF-8 bytes, with [str_ok] as validity; a
    [Vec<u8>] is a [list byte]; a machine integer is a [Z] with its width written
    out where it wraps, saturates or is checked.  [Result] is [result]; code that
    changes its receiver and can fail is [fallible], which returns the state on the
    error path too.  Panics are values: [outcome] distinguishes errors the code
    raises from panics and from loops that do not end.  Clock readings and random
    bytes are arguments.  The disk is the record of the files of a directory with a
    bound on what still fits on it, so that a write can stop half way.

    The sharded hash maps of the store are one finite map: the shards only spread
    keys over locks, and every operation of the engine runs under one lock.

    Third-party code is a parameter with the laws the code relies on, as the classes
    [CryptoLib] (ChaCha20-Poly1305 and Argon2id), [Crc32], [EntryChecksum], [Binary]
    and [SnapshotCodec] (MessagePack), [BackupJson], [ReplicationJson], [AuthJson],
    [AuditJson], [DumpJson], [EntriesJson] and [ReplicationWire] (serde_json),
    [PasswordHash] (Argon2), [Sha256], [Base64], [Zstd], [Tls] and [TlsClient]
    (rustls and its readers), [SmallRng] (rand), [Histogram] (hdrhistogram) and
    [UrlParser]; [NonceSource] stands for the random nonces.  The network between
    servers is the record [Network] of what connecting, greeting and an exchange do.
    [Samples], [NodeRuns], [AccessRuns] and the theorem files have the instances that
    the witnesses use.

    ** What is proved

    - [CommandTheorems]: the parser returns on every input, yields well-typed
      commands, and inverts the printer; tokens can be written out and read again.
    - [EngineTheorems]: transactions are atomic and logged as one entry; batches log
      one entry for each command that writes, answer with its sequence, and roll back; the two implementations of an operation
      (storage trait and transaction evaluator) agree, but for the commands the theorem
      names; compare-and-set; SCAN visits
      every live key once; reads answer from the live view; the sweep of expired keys
      is exact; the glob matcher has its declarative meaning.
    - [RecoveryTheorems]: whatever an engine acknowledged is there after a restart,
      over the sequences of commands, transactions, batches, snapshots, replicated
      entries and earlier restarts that [ReplicaDisk.history] collects: entries of at
      most 4 MiB, no torn append, no counter applied to a lapsed key, and no counters
      in segments kept behind a snapshot.  The other theorems show histories outside of
      these limits for which the code loses or blocks data.  The theorems on followers,
      restores and restarted servers have the same limits.
    - [ReplicationTheorems]: a follower that replayed a prefix of the leader's log and
      applies what the leader serves reaches its keyspace; shipped entries are applied
      exactly when they continue the log, replay and are taken by it; replacing a suffix,
      installing a snapshot, restoring to a point in time and restoring a dump give
      the states they promise and survive a restart.
    - [TransportTheorems]: requests and responses written to a stream are read back;
      both ends of a handshake agree; payloads are canonical; the decoders return on
      every input, with the two exceptions the theorems describe.
    - [ConsensusTheorems]: at most one node is elected per term, over all runs of a
      cluster with lost, late and repeated messages and restarts; the commit position
      is the largest one enough voters hold.
    - [NodeTheorems]: an accepted append makes the logs agree; a leader finds where a
      follower agrees within a bounded number of rounds, unless the follower has one of
      four faults; reads from the index are those of the engine as long as no counter
      lapses in the index; an acknowledged write is committed; and runs of three
      servers outside their hypotheses in which acknowledged writes are lost or not
      seen.
    - [ServerTheorems]: the engine thread answers every request once, and a batch of
      writes that it forms fails exactly when the log does not take its entries.
    - [AccessTheorems]: a session changes only the keys its user has grants for; some
      administrator can always log in; SCAN shows readable keys; lockouts follow the
      windows of failed logins;
      the rate limiter loses no token to rounding when requests come at whole seconds;
      paths of clients do not lead out of the backup directory; a backup that was
      written is verified and restored from its files; and what INFO, grants with
      question marks, PROMOTE FOLLOWER and rejected backups do instead.
    - [AuditTheorems]: an audit log is opened as it was left, and its events cannot be
      changed under the same end of the chain unless SHA-256 collides on the texts that
      are hashed; a record that was cut off blocks it.
    - [ClientTheorems]: the client can show every answer of the server; an append that
      travels through the pool and a connection does what the handler does; and what
      values that are not UTF-8, appends above the quota of clients and responses that
      cannot be written do instead.
    - [ProcessTheorems]: the limit on connections and their gauge, which keeps
      connections that panicked; the election rounds
      that servers run refine the cluster of [Elections]; a restarted server answers
      reads as before; the probes tell what they are for; when certificates are
      accepted and that a failed reload changes nothing; the entry point of the
      container runs the server without the rights of root; and the effects of binding
      to every address, of the interval of heartbeats, of a full server on its
      shutdown, and of a restore onto its own source.
    - [BenchTheorems]: a report of the load generator counts every operation once, and
      pipelined responses are matched with their commands in whatever order they come;
      seeded keys are never read, and a launch that fails half way leaves servers
      behind.

    The lemmas they rest on are in the [...Facts] files ([PayloadFacts], [FrameFacts],
    [WalFacts], [TxFacts], [BatchFacts], [StorageFacts], [ReplicaFacts],
    [SnapshotFacts], [ElectionFacts], [NodeFacts], [AuthFacts], [AccessFacts],
    [ClientFacts]), in [ConsensusTheorems] itself (the invariant of clusters), in
    [Serving] (servers whose index follows the log), in [Confinement] (what a session can
    touch), and in [History], [DiskLog], [WalLayout], [Recovery] and
    [ReplicaDisk]: the relation between an engine, its log and its directory that
    every operation keeps.  [Runs], [NodeRuns] and [AccessRuns] are concrete runs.

    ** Fuel

    Loops of the source over data are structural recursions.  The lexer and the
    reader of log segments are given the length of the input as fuel, and each round
    consumes at least one element; [CommandTheorems.parse_total] and the recovery theorems
    are about results, so running out of fuel does not satisfy them.  The SCAN client
    of [EngineTheorems.scan_complete] is given the number of live keys plus one.  The
    loop that advances the read index is given the distance to its target, which
    every round shortens ([Serving.advance_loop_reaches]).  Waiting for
    acknowledgements is a recursion over the rounds and answers the network gives.
    The loops of the load generator that wait for a server are given the number of
    their turns, and its tasks the order of theirs; the theorems hold for all of them.

    ** Not modelled

    - Sockets, the TLS handshake and the scheduler: what is read from a connection,
      what wakes a task up and whether a response can be written are arguments, and
      tasks interleave only as the events they are given.
    - The counters behind METRICS that requests increase are an argument of INFO and
      METRICS; those of the listener, the tasks and the pool are state.
    - Parsing of the command line (the argument parser), the line editor with its
      history, and the TLS connection of the client.
    - The tests, the micro-benchmarks and the fuzz targets.
    - The worker thread of the log and the group commit are synchronous steps; the
      cache of derived keys and capacity hints are left out, since they change no
      result.
*)

From stdpp Require Export base tactics option list list_numbers gmap strings
  fin_maps sorting.
From Stdlib Require Export ZArith Lia.
From Stdlib Require Export Strings.Byte Strings.Ascii.
From Stdlib Require Strings.String.

#[global] Set Default Goal Selector "!".

Open Scope Z_scope.

(** ** Fallible computations

    [Result<T, E>] of the source.  Every operation that mutates its receiver
    before it can fail is a [fallible] state transformer: the state is returned
    on the error path too, exactly as [&mut self] leaves it. *)

Inductive result (E A : Type) : Type :=
| Ok (a : A)
| Err (e : E).
Arguments Ok {E A} a.
Arguments Err {E A} e.

#[export] Instance result_ret {E} : MRet (result E) := fun A a => Ok a.
#[export] Instance result_bind {E} : MBind (result E) :=
  fun A B k m => match m with Ok a => k a | Err e => Err e end.
#[export] Instance result_fmap {E} : FMap (result E) :=
  fun A B f m => match m with Ok a => Ok (f a) | Err e => Err e end.

Definition is_ok {E A} (r : result E A) : bool :=
  match r with Ok _ => true | Err _ => false end.

Definition is_some {A} (o : option A) : bool :=
  match o with Some _ => true | None => false end.

Definition map_err {E F A} (f : E -> F) (r : result E A) : result F A :=
  match r with Ok a => Ok a | Err e => Err (f e) end.

Definition ok_or {E A} (o : option A) (e : E) : result E A :=
  match o with Some a => Ok a | None => Err e end.

(** What interrupts a computation: an error value the code returns, a panic
    (an index out of range, a read past the end of a buffer), or a loop that has
    used up the fuel its model was given.  The last two are values so that
    theorems can rule them out. *)
Inductive fault (E : Type) : Type :=
| Raised (e : E)
| Panicked
| Diverged.
Arguments Raised {E} e.
Arguments Panicked {E}.
Arguments Diverged {E}.

Notation outcome E := (result (fault E)).

Definition fail {E A} (e : E) : outcome E A := Err (Raised e).
Definition panic {E A} : outcome E A := Err Panicked.
Definition diverge {E A} : outcome E A := Err Diverged.

(** [v[i]]. *)
Definition index {E A} (xs : list A) (i : nat) : outcome E A :=
  match xs !! i with Some x => Ok x | None => panic end.

(** A computation that returns a value or an error of its own. *)
Definition returns {E A} (r : outcome E A) : Prop :=
  match r with Ok _ | Err (Raised _) => True | _ => False end.

Lemma returns_bind {E A B} (r : outcome E A) (k : A -> outcome E B) :
  returns r -> (forall a, r = Ok a -> returns (k a)) -> returns (r ≫= k).
Proof. destruct r as [a|[e| |]]; cbn; eauto. Qed.

(** A state transformer that may fail ([&mut self -> Result<A, E>]). *)
Definition fallible (S E A : Type) : Type := S -> S * result E A.

Definition mfail {S E A} (e : E) : fallible S E A := fun s => (s, Err e).
Definition mget {S E} : fallible S E S := fun s => (s, Ok s).
Definition mput {S E} (s : S) : fallible S E unit := fun _ => (s, Ok tt).
Definition mmodify {S E} (f : S -> S) : fallible S E unit := fun s => (f s, Ok tt).
Definition mpure {S E A} (r : result E A) : fallible S E A := fun s => (s, r).

#[export] Instance fallible_ret {S E} : MRet (fallible S E) := fun A a s => (s, Ok a).
#[export] Instance fallible_bind {S E} : MBind (fallible S E) :=
  fun A B k m s =>
    match m s with
    | (s', Ok a) => k a s'
    | (s', Err e) => (s', Err e)
    end.

(** [for x in xs { f(x)?; }] over a fallible state transformer. *)
Fixpoint mfor {S E A} (f : A -> fallible S E unit) (xs : list A) : fallible S E unit :=
  match xs with
  | [] => mret tt
  | x :: xs' => f x ≫= fun _ => mfor f xs'
  end.

(** [xs.iter().map(f).collect::<Result<Vec<_>>>()]. *)
Fixpoint collect {E A B} (f : A -> result E B) (xs : list A) : result E (list B) :=
  match xs with
  | [] => Ok []
  | x :: xs' => y ← f x; ys ← collect f xs'; Ok (y :: ys)
  end.

Lemma result_bind_ok {E A B} (r : result E A) (k : A -> result E B) b :
  (r ≫= k) = Ok b <-> exists a, r = Ok a /\ k a = Ok b.
Proof.
  split.
  - destruct r as [a|e]; cbn; [eauto | discriminate].
  - intros (a & -> & H). exact H.
Qed.

Lemma fallible_bind_ok {S E A B} (m : fallible S E A) (k : A -> fallible S E B) s s' b :
  (m ≫= k) s = (s', Ok b) <-> exists s1 a, m s = (s1, Ok a) /\ k a s1 = (s', Ok b).
Proof.
  unfold mbind, fallible_bind. split.
  - destruct (m s) as [s1 [a|e]]; [eauto | intros [=]].
  - intros (s1 & a & -> & H). exact H.
Qed.

(** ** Machine integers

    [u64], [u32], [u16] and [usize] are [Z] values; the width is written out at
    every operation that depends on it. *)

Definition u8_max : Z := 2 ^ 8 - 1.
Definition u16_max : Z := 2 ^ 16 - 1.
Definition u32_max : Z := 2 ^ 32 - 1.
Definition u64_max : Z := 2 ^ 64 - 1.
Definition i64_max : Z := 2 ^ 63 - 1.
Definition i64_min : Z := - 2 ^ 63.

Definition is_u64 (z : Z) : Prop := 0 <= z <= u64_max.
Definition is_u32 (z : Z) : Prop := 0 <= z <= u32_max.
Definition is_u16 (z : Z) : Prop := 0 <= z <= u16_max.
Definition is_i64 (z : Z) : Prop := i64_min <= z <= i64_max.

#[export] Instance is_u64_dec z : Decision (is_u64 z).
Proof. unfold is_u64. apply _. Defined.
#[export] Instance is_u32_dec z : Decision (is_u32 z).
Proof. unfold is_u32. apply _. Defined.
#[export] Instance is_u16_dec z : Decision (is_u16 z).
Proof. unfold is_u16. apply _. Defined.
#[export] Instance is_i64_dec z : Decision (is_i64 z).
Proof. unfold is_i64. apply _. Defined.

Definition saturating_add (a b : Z) : Z := Z.min (a + b) u64_max.
Definition saturating_mul (a b : Z) : Z := Z.min (a * b) u64_max.
Definition saturating_sub (a b : Z) : Z := Z.max 0 (a - b).
Definition wrapping_add (a b : Z) : Z := (a + b) mod 2 ^ 64.
Definition wrapping_sub (a b : Z) : Z := (a - b) mod 2 ^ 64.

(** [i64::checked_add] / [checked_sub]. *)
Definition checked_i64 (z : Z) : option Z :=
  if (i64_min <=? z) && (z <=? i64_max) then Some z else None.

(** [z as i64] of a [u64]: two's complement reinterpretation. *)
Definition as_i64 (z : Z) : Z := if z <=? i64_max then z else z - 2 ^ 64.

(** ** Automation *)

Create HintDb vaylix.

Ltac unfold_widths :=
  unfold is_u64, is_u32, is_u16, is_i64, u64_max, u32_max, u16_max, u8_max,
    i64_max, i64_min in *.

(** Arithmetic on machine integers: unfold the widths, then [lia]. *)
Ltac width_lia :=
  unfold saturating_add, saturating_sub, saturating_mul in *; unfold_widths; lia.

(** Runs the steps of a [fallible] computation that are known. *)
Ltac run_fallible :=
  unfold mbind, fallible_bind, mget, mput, mmodify, mpure, mfail, mret, fallible_ret.

(** Inverts every monadic success hypothesis into its steps. *)
Ltac inv_ok :=
  repeat match goal with
  | H : Ok _ = Ok _ |- _ => injection H as H; subst
  | H : Err _ = Err _ |- _ => injection H as H; subst
  | H : Ok _ = Err _ |- _ => discriminate H
  | H : Err _ = Ok _ |- _ => discriminate H
  | H : mret _ = Ok _ |- _ => injection H as H; subst
  | H : mbind _ _ = Ok _ |- _ =>
      apply result_bind_ok in H; destruct H as (? & ? & H)
  end.

Lemma saturating_add_u64 a b : 0 <= a -> 0 <= b -> is_u64 (saturating_add a b).
Proof. width_lia. Qed.

Lemma saturating_add_ge a b : is_u64 a -> 0 <= b -> a <= saturating_add a b.
Proof. width_lia. Qed.

Lemma saturating_mul_u64 a b : 0 <= a -> 0 <= b -> is_u64 (saturating_mul a b).
Proof. intros. assert (0 <= a * b) by nia. width_lia. Qed.

Lemma checked_i64_Some z y : checked_i64 z = Some y <-> y = z /\ is_i64 z.
Proof.
  unfold checked_i64, is_i64.
  destruct (Z.leb_spec i64_min z), (Z.leb_spec z i64_max); cbn;
    split; intros; simplify_eq; naive_solver lia.
Qed.

#[export] Hint Resolve saturating_add_u64 saturating_mul_u64 saturating_add_ge : vaylix.

(** ** Lists *)

(** [leaves f P m]: [m] leaves [f] of the state as it is and returns something with
    [P], or an error. *)
Definition leaves {S T E A} (f : S -> T) (P : A -> Prop) (m : fallible S E A) : Prop :=
  forall s, f (m s).1 = f s /\ forall a, (m s).2 = Ok a -> P a.

Section leaves.
Context {S T E : Type} (f : S -> T).

Lemma leaves_bind {A B} (P : A -> Prop) (Q : B -> Prop) (m : fallible S E A) (k : A -> fallible S E B) :
  leaves f P m -> (forall a, P a -> leaves f Q (k a)) -> leaves f Q (m ≫= k).
Proof.
  intros Hm Hk s. run_fallible. destruct (Hm s) as [Hs Ha]. destruct (m s) as [s' [a|e]]; cbn in *; [|done].
  rewrite <- Hs. by apply Hk, Ha.
Qed.

Lemma leaves_pure {A} (P : A -> Prop) (r : result E A) :
  (forall a, r = Ok a -> P a) -> leaves f P (mpure r : fallible S E A).
Proof. intros Hr s. by split; [|apply Hr]. Qed.

Lemma leaves_ret {A} (P : A -> Prop) (a : A) : P a -> leaves f P (mret a : fallible S E A).
Proof. intros Ha s. by split; [|intros ? [= <-]]. Qed.

Lemma leaves_weaken {A} (P Q : A -> Prop) (m : fallible S E A) :
  leaves f P m -> (forall a, P a -> Q a) -> leaves f Q m.
Proof. intros Hm HPQ s. destruct (Hm s) as [Hs Ha]. split; [exact Hs|]. auto. Qed.

Lemma leaves_get : leaves f (fun _ => True) (mget : fallible S E S).
Proof. intros s. by split. Qed.

Lemma leaves_modify g : (forall s, f (g s) = f s) -> leaves f (fun _ => True) (mmodify g : fallible S E unit).
Proof. intros Hg s. by split; [apply Hg|]. Qed.

End leaves.

(** Left fold of a fallible function ([for x in xs { acc = f(acc, x)?; }]). *)
Fixpoint foldM {E A B} (f : B -> A -> result E B) (acc : B) (xs : list A) : result E B :=
  match xs with
  | [] => Ok acc
  | x :: xs' => acc' ← f acc x; foldM f acc' xs'
  end.

Lemma foldM_app {E A B} (f : B -> A -> result E B) acc xs ys :
  foldM f acc (xs ++ ys) = acc' ← foldM f acc xs; foldM f acc' ys.
Proof.
  revert acc. induction xs as [|x xs IH]; intros acc; [done|]. cbn.
  destruct (f acc x); cbn; [apply IH | done].
Qed.

Lemma foldM_snoc_ok {E A B} (f : B -> A -> result E B) acc xs x b b' :
  foldM f acc xs = Ok b -> f b x = Ok b' -> foldM f acc (xs ++ [x]) = Ok b'.
Proof. intros H1 H2. rewrite foldM_app, H1. cbn. by rewrite H2. Qed.

Lemma filter_all {A} (f : A -> bool) l : (forall x, x ∈ l -> f x = true) -> List.filter f l = l.
Proof.
  induction l as [|x l IH]; intros Hf; [done|]. cbn. rewrite Hf by left. f_equal.
  apply IH. intros y Hy. apply Hf. by right.
Qed.

Lemma filter_none {A} (f : A -> bool) l : (forall x, x ∈ l -> f x = false) -> List.filter f l = [].
Proof.
  induction l as [|x l IH]; intros Hf; [done|]. cbn. rewrite Hf by left.
  apply IH. intros y Hy. apply Hf. by right.
Qed.

#[export] Instance byte_eq_dec : EqDecision byte := Byte.byte_eq_dec.
#[export] Instance byte_countable : Countable byte.
Proof. refine (inj_countable Byte.to_N Byte.of_N _). intros b. apply Byte.of_to_N. Defined.
