(* ===== verification/Text.v ===== *)
(** * Text: the parts of Rust's [str], [char] and integer text the code uses

    A Rust [String] is the [string] of its UTF-8 bytes and a [Vec<u8>] is a
    [list byte].  [utf8_items] follows the standard library's UTF-8 chunk
    decoder, so [str::chars], [String::from_utf8] and
    [String::from_utf8_lossy] are all projections of it. *)

From Stdlib Require Import DecimalString DecimalFacts DecimalN DecimalZ DecimalPos.
From S2P Require Import Prelude.

(** ** Bytes *)

Definition bval (b : byte) : Z := Z.of_N (Byte.to_N b).

Definition byte_of_Z (z : Z) : byte :=
  match Byte.of_N (Z.to_N (z mod 256)) with Some b => b | None => x00 end.

(** [str::as_bytes] and its inverse on valid text. *)
Definition as_bytes (s : string) : list byte := String.list_byte_of_string s.
Definition of_bytes (bs : list byte) : string := String.string_of_list_byte bs.

#[global] Arguments as_bytes : simpl never.
#[global] Arguments of_bytes : simpl never.

Lemma as_bytes_of_bytes bs : as_bytes (of_bytes bs) = bs.
Proof. apply String.list_byte_of_string_of_list_byte. Qed.

Lemma of_bytes_as_bytes s : of_bytes (as_bytes s) = s.
Proof. apply String.string_of_list_byte_of_string. Qed.

#[export] Instance as_bytes_inj : Inj (=) (=) as_bytes.
Proof. intros s t H. by rewrite <- (of_bytes_as_bytes s), H, of_bytes_as_bytes. Qed.

(** [str::len]. *)
Definition str_len (s : string) : Z := Z.of_nat (String.length s).

Lemma bval_range b : 0 <= bval b < 256.
Proof. unfold bval. pose proof (Byte.to_N_bounded b). lia. Qed.

Lemma byte_of_Z_bval b : byte_of_Z (bval b) = b.
Proof.
  unfold byte_of_Z. pose proof (bval_range b).
  rewrite Z.mod_small by lia. unfold bval.
  rewrite N2Z.id, Byte.of_to_N. done.
Qed.

Lemma bval_byte_of_Z z : bval (byte_of_Z z) = z mod 256.
Proof.
  unfold byte_of_Z, bval.
  pose proof (Z.mod_pos_bound z 256 ltac:(lia)).
  destruct (Byte.of_N (Z.to_N (z mod 256))) as [b|] eqn:E.
  - apply Byte.to_of_N in E. rewrite E. lia.
  - apply Byte.of_N_None_iff in E. lia.
Qed.

#[export] Instance bval_inj : Inj (=) (=) bval.
Proof. intros a b H. by rewrite <- (byte_of_Z_bval a), H, byte_of_Z_bval. Qed.

(** ** UTF-8 *)

Inductive utf8_item := Char (c : Z) | Invalid.

#[export] Instance utf8_item_eq_dec : EqDecision utf8_item.
Proof. solve_decision. Defined.

Definition in_range (lo hi z : Z) : bool := (lo <=? z) && (z <=? hi).
Definition is_cont (b : byte) : bool := in_range 0x80 0xBF (bval b).

(** Second byte of a three-byte sequence led by [c1]. *)
Definition second_of_three (c1 c2 : Z) : bool :=
  if c1 =? 0xE0 then in_range 0xA0 0xBF c2
  else if c1 =? 0xED then in_range 0x80 0x9F c2
  else in_range 0x80 0xBF c2.

(** Second byte of a four-byte sequence led by [c1]. *)
Definition second_of_four (c1 c2 : Z) : bool :=
  if c1 =? 0xF0 then in_range 0x90 0xBF c2
  else if c1 =? 0xF4 then in_range 0x80 0x8F c2
  else in_range 0x80 0xBF c2.

Fixpoint utf8_items (bs : list byte) : list utf8_item :=
  match bs with
  | [] => []
  | b1 :: r1 =>
      let c1 := bval b1 in
      if c1 <? 0x80 then Char c1 :: utf8_items r1
      else if in_range 0xC2 0xDF c1 then
        match r1 with
        | b2 :: r2 =>
            if is_cont b2
            then Char ((c1 - 0xC0) * 64 + (bval b2 - 0x80)) :: utf8_items r2
            else Invalid :: utf8_items r1
        | [] => [Invalid]
        end
      else if in_range 0xE0 0xEF c1 then
        match r1 with
        | b2 :: r2 =>
            if second_of_three c1 (bval b2) then
              match r2 with
              | b3 :: r3 =>
                  if is_cont b3
                  then Char ((c1 - 0xE0) * 4096 + (bval b2 - 0x80) * 64 + (bval b3 - 0x80))
                         :: utf8_items r3
                  else Invalid :: utf8_items r2
              | [] => [Invalid]
              end
            else Invalid :: utf8_items r1
        | [] => [Invalid]
        end
      else if in_range 0xF0 0xF4 c1 then
        match r1 with
        | b2 :: r2 =>
            if second_of_four c1 (bval b2) then
              match r2 with
              | b3 :: r3 =>
                  if is_cont b3 then
                    match r3 with
                    | b4 :: r4 =>
                        if is_cont b4
                        then Char ((c1 - 0xF0) * 262144 + (bval b2 - 0x80) * 4096
                                     + (bval b3 - 0x80) * 64 + (bval b4 - 0x80))
                               :: utf8_items r4
                        else Invalid :: utf8_items r3
                    | [] => [Invalid]
                    end
                  else Invalid :: utf8_items r2
              | [] => [Invalid]
              end
            else Invalid :: utf8_items r1
        | [] => [Invalid]
        end
      else Invalid :: utf8_items r1
  end.

(** [char::encode_utf8]. *)
Definition encode_char (c : Z) : list byte :=
  if c <? 0x80 then [byte_of_Z c]
  else if c <? 0x800 then [byte_of_Z (0xC0 + c / 64); byte_of_Z (0x80 + c mod 64)]
  else if c <? 0x10000 then
    [byte_of_Z (0xE0 + c / 4096); byte_of_Z (0x80 + (c / 64) mod 64);
     byte_of_Z (0x80 + c mod 64)]
  else
    [byte_of_Z (0xF0 + c / 262144); byte_of_Z (0x80 + (c / 4096) mod 64);
     byte_of_Z (0x80 + (c / 64) mod 64); byte_of_Z (0x80 + c mod 64)].

Definition encode_chars (cs : list Z) : list byte := mjoin (encode_char <$> cs).

(** [char::len_utf8]. *)
Definition len_utf8 (c : Z) : Z := Z.of_nat (length (encode_char c)).

(** A Unicode scalar value, the domain of [char]. *)
Definition is_scalar (c : Z) : Prop := 0 <= c < 0xD800 \/ 0xE000 <= c <= 0x10FFFF.

Fixpoint item_chars (items : list utf8_item) : list Z :=
  match items with
  | [] => []
  | Char c :: r => c :: item_chars r
  | Invalid :: r => item_chars r
  end.

Definition utf8_valid (bs : list byte) : bool :=
  forallb (fun i => match i with Char _ => true | Invalid => false end) (utf8_items bs).

(** [String::from_utf8] / [std::str::from_utf8]. *)
Definition from_utf8 (bs : list byte) : option string :=
  if utf8_valid bs then Some (of_bytes bs) else None.

(** [String::from_utf8_lossy]: every invalid chunk becomes U+FFFD. *)
Definition from_utf8_lossy (bs : list byte) : string :=
  of_bytes (mjoin ((fun i => match i with
                              | Char c => encode_char c
                              | Invalid => encode_char 0xFFFD
                              end) <$> utf8_items bs)).

(** [str::chars]. *)
Definition chars (s : string) : list Z := item_chars (utf8_items (as_bytes s)).

(** [chars.collect::<String>()]. *)
Definition string_of_chars (cs : list Z) : string := of_bytes (encode_chars cs).

(** The type invariant of Rust's [String]. *)
Definition str_ok (s : string) : Prop := utf8_valid (as_bytes s) = true.

#[export] Instance str_ok_dec s : Decision (str_ok s).
Proof. unfold str_ok. apply _. Defined.

(** ** ASCII case *)

Definition lower_byte (a : ascii) : ascii :=
  let n := N_of_ascii a in
  if ((65 <=? n) && (n <=? 90))%N then ascii_of_N (n + 32) else a.

(** [str::to_ascii_lowercase]. *)
Fixpoint to_ascii_lowercase (s : string) : string :=
  match s with
  | String.EmptyString => String.EmptyString
  | String.String a s' => String.String (lower_byte a) (to_ascii_lowercase s')
  end.

(** [str::eq_ignore_ascii_case]. *)
Definition eq_ignore_ascii_case (a b : string) : bool :=
  String.eqb (to_ascii_lowercase a) (to_ascii_lowercase b).

(** ** White space *)

(** [char::is_whitespace]. *)
Definition is_whitespace (c : Z) : bool :=
  in_range 0x9 0xD c || (c =? 0x20) || (c =? 0x85) || (c =? 0xA0) || (c =? 0x1680) ||
  in_range 0x2000 0x200A c || (c =? 0x2028) || (c =? 0x2029) || (c =? 0x202F) || (c =? 0x205F) || (c =? 0x3000).

(** [str::trim]. *)
Fixpoint skip_blanks (cs : list Z) : list Z :=
  match cs with
  | [] => []
  | c :: rest => if is_whitespace c then skip_blanks rest else cs
  end.
Definition trim_end_chars (cs : list Z) : list Z := reverse (skip_blanks (reverse cs)).
Definition trim (s : string) : string := string_of_chars (trim_end_chars (skip_blanks (chars s))).
Definition trim_end (s : string) : string := string_of_chars (trim_end_chars (chars s)).

(** [str::split_whitespace]; [word] is what was read of the current word. *)
Fixpoint split_blanks (cs word : list Z) : list (list Z) :=
  let done := match word with [] => [] | _ => [word] end in
  match cs with
  | [] => done
  | c :: rest => if is_whitespace c then done ++ split_blanks rest [] else split_blanks rest (word ++ [c])
  end.
Definition split_whitespace (s : string) : list string := string_of_chars <$> split_blanks (chars s) [].

(** ** Lemmas on UTF-8 *)

Lemma in_range_spec lo hi z : in_range lo hi z = true <-> lo <= z <= hi.
Proof. unfold in_range. rewrite andb_true_iff, !Z.leb_le. done. Qed.

Lemma in_range_false lo hi z : in_range lo hi z = false <-> z < lo \/ hi < z.
Proof. unfold in_range. rewrite andb_false_iff, !Z.leb_gt. done. Qed.

(** Normalises the value of a byte built from an in-range integer. *)
Lemma bval_small z : 0 <= z < 256 -> bval (byte_of_Z z) = z.
Proof. intros. rewrite bval_byte_of_Z. by apply Z.mod_small. Qed.

Ltac decide_ranges :=
  repeat match goal with
  | |- context [Z.ltb ?a ?b] => destruct (Z.ltb_spec a b); try lia
  | |- context [Z.eqb ?a ?b] => destruct (Z.eqb_spec a b); try lia
  | |- context [in_range ?a ?b ?c] =>
      let E := fresh "E" in
      destruct (in_range a b c) eqn:E;
      [apply in_range_spec in E | apply in_range_false in E]; try lia
  end.

(** [c] written in base 64, the digits an encoder emits. *)
Lemma base64_digits c :
  0 <= c ->
  exists q1 q2 q3 r0 r1 r2,
    c / 64 = q1 /\ c / 4096 = q2 /\ c / 262144 = q3 /\
    c mod 64 = r0 /\ (c / 64) mod 64 = r1 /\ (c / 4096) mod 64 = r2 /\
    c = q1 * 64 + r0 /\ q1 = q2 * 64 + r1 /\ q2 = q3 * 64 + r2 /\
    0 <= r0 < 64 /\ 0 <= r1 < 64 /\ 0 <= r2 < 64 /\ 0 <= q3.
Proof.
  intros Hc. exists (c / 64), (c / 4096), (c / 262144), (c mod 64), ((c / 64) mod 64),
    ((c / 4096) mod 64).
  replace (c / 262144) with (c / 4096 / 64) by (rewrite Z.div_div by lia; done).
  replace (c / 4096) with (c / 64 / 64) by (rewrite Z.div_div by lia; done).
  repeat split; try (apply Z.mod_pos_bound; lia);
    try (rewrite Z.mul_comm; apply Z.div_mod; lia).
  repeat (apply Z.div_pos; [|lia]). done.
Qed.

Lemma utf8_items_1 b1 bs :
  bval b1 < 0x80 -> utf8_items (b1 :: bs) = Char (bval b1) :: utf8_items bs.
Proof. intros H. cbn [utf8_items]. by destruct (Z.ltb_spec (bval b1) 0x80); [|lia]. Qed.

Lemma utf8_items_2 b1 b2 bs :
  0xC2 <= bval b1 <= 0xDF -> 0x80 <= bval b2 <= 0xBF ->
  utf8_items (b1 :: b2 :: bs) =
    Char ((bval b1 - 0xC0) * 64 + (bval b2 - 0x80)) :: utf8_items bs.
Proof. intros H1 H2. cbn [utf8_items]. unfold is_cont. decide_ranges; done. Qed.

Lemma utf8_items_3 b1 b2 b3 bs :
  0xE0 <= bval b1 <= 0xEF -> second_of_three (bval b1) (bval b2) = true ->
  0x80 <= bval b3 <= 0xBF ->
  utf8_items (b1 :: b2 :: b3 :: bs) =
    Char ((bval b1 - 0xE0) * 4096 + (bval b2 - 0x80) * 64 + (bval b3 - 0x80))
      :: utf8_items bs.
Proof. intros H1 H2 H3. cbn [utf8_items]. rewrite H2. unfold is_cont. decide_ranges; done. Qed.

Lemma utf8_items_4 b1 b2 b3 b4 bs :
  0xF0 <= bval b1 <= 0xF4 -> second_of_four (bval b1) (bval b2) = true ->
  0x80 <= bval b3 <= 0xBF -> 0x80 <= bval b4 <= 0xBF ->
  utf8_items (b1 :: b2 :: b3 :: b4 :: bs) =
    Char ((bval b1 - 0xF0) * 262144 + (bval b2 - 0x80) * 4096
            + (bval b3 - 0x80) * 64 + (bval b4 - 0x80)) :: utf8_items bs.
Proof.
  intros H1 H2 H3 H4. cbn [utf8_items]. rewrite H2. unfold is_cont. decide_ranges; done.
Qed.

Lemma utf8_items_encode_char c bs :
  is_scalar c -> utf8_items (encode_char c ++ bs) = Char c :: utf8_items bs.
Proof.
  intros Hc. unfold is_scalar in Hc. unfold encode_char.
  destruct (base64_digits c ltac:(lia)) as
    (q1 & q2 & q3 & r0 & r1 & r2 & -> & -> & -> & -> & -> & -> & E0 & E1 & E2 & ? & ? & ? & ?).
  destruct (Z.ltb_spec c 0x80); [|destruct (Z.ltb_spec c 0x800);
    [|destruct (Z.ltb_spec c 0x10000)]]; cbn [app].
  - rewrite utf8_items_1; rewrite !bval_small by lia; [done | lia].
  - rewrite utf8_items_2; rewrite !bval_small by lia; [do 2 f_equal; lia | lia | lia].
  - rewrite utf8_items_3; rewrite !bval_small by lia; [do 2 f_equal; lia | lia | | lia].
    unfold second_of_three. decide_ranges; done.
  - rewrite utf8_items_4; rewrite !bval_small by lia; [do 2 f_equal; lia | lia | | lia | lia].
    unfold second_of_four. decide_ranges; done.
Qed.

Lemma utf8_items_encode_chars cs :
  Forall is_scalar cs -> utf8_items (encode_chars cs) = Char <$> cs.
Proof.
  unfold encode_chars. induction 1 as [|c cs Hc _ IH]; [done|]. cbn.
  rewrite utf8_items_encode_char by done. f_equal. apply IH.
Qed.

Lemma item_chars_Char cs : item_chars (Char <$> cs) = cs.
Proof. induction cs; cbn; congruence. Qed.

Lemma chars_string_of_chars cs :
  Forall is_scalar cs -> chars (string_of_chars cs) = cs.
Proof.
  intros H. unfold chars, string_of_chars.
  rewrite as_bytes_of_bytes, utf8_items_encode_chars by done. apply item_chars_Char.
Qed.

Lemma string_of_chars_ok cs : Forall is_scalar cs -> str_ok (string_of_chars cs).
Proof.
  intros H. unfold str_ok, utf8_valid, string_of_chars.
  rewrite as_bytes_of_bytes, utf8_items_encode_chars by done.
  apply forallb_forall. intros i Hi.
  apply list_elem_of_In, list_elem_of_fmap in Hi as (c & -> & _). done.
Qed.

Lemma encode_chars_app a b : encode_chars (a ++ b) = encode_chars a ++ encode_chars b.
Proof. unfold encode_chars. rewrite fmap_app, join_app. done. Qed.

Lemma encode_chars_cons c cs : encode_chars (c :: cs) = encode_char c ++ encode_chars cs.
Proof. done. Qed.

(** The bytes of a decoded character re-encode to the same bytes. *)
Lemma byte_of_Z_eq b z : z = bval b -> byte_of_Z z = b.
Proof. intros ->. apply byte_of_Z_bval. Qed.

Lemma base64_unique q r : 0 <= r < 64 -> (q * 64 + r) / 64 = q /\ (q * 64 + r) mod 64 = r.
Proof.
  intros Hr. split.
  - rewrite Z.div_add_l, Z.div_small by lia. lia.
  - rewrite Z.add_comm, Z.mod_add, Z.mod_small by lia. done.
Qed.

Lemma encode_decoded_2 b1 b2 :
  in_range 0xC2 0xDF (bval b1) = true -> is_cont b2 = true ->
  encode_char ((bval b1 - 0xC0) * 64 + (bval b2 - 0x80)) = [b1; b2].
Proof.
  unfold is_cont. rewrite !in_range_spec. intros H1 H2. unfold encode_char.
  destruct (base64_unique (bval b1 - 0xC0) (bval b2 - 0x80) ltac:(lia)) as [-> ->].
  decide_ranges; repeat f_equal; apply byte_of_Z_eq; lia.
Qed.

Lemma encode_decoded_3 b1 b2 b3 :
  in_range 0xE0 0xEF (bval b1) = true -> second_of_three (bval b1) (bval b2) = true ->
  is_cont b3 = true ->
  encode_char ((bval b1 - 0xE0) * 4096 + (bval b2 - 0x80) * 64 + (bval b3 - 0x80)) = [b1; b2; b3].
Proof.
  unfold is_cont. rewrite !in_range_spec. intros H1 H2 H3.
  assert (0x80 <= bval b2 <= 0xBF /\ (bval b1 = 0xE0 -> 0xA0 <= bval b2)) as [Hb Hb'].
  { unfold second_of_three in H2. revert H2. decide_ranges; done. }
  unfold encode_char.
  replace ((bval b1 - 0xE0) * 4096 + (bval b2 - 0x80) * 64 + (bval b3 - 0x80))
    with (((bval b1 - 0xE0) * 64 + (bval b2 - 0x80)) * 64 + (bval b3 - 0x80)) by lia.
  rewrite <- (Z.div_div _ 64 64) by lia.
  destruct (base64_unique ((bval b1 - 0xE0) * 64 + (bval b2 - 0x80)) (bval b3 - 0x80)
    ltac:(lia)) as [-> ->].
  destruct (base64_unique (bval b1 - 0xE0) (bval b2 - 0x80) ltac:(lia)) as [-> ->].
  decide_ranges; repeat f_equal; apply byte_of_Z_eq; lia.
Qed.

Lemma encode_decoded_4 b1 b2 b3 b4 :
  in_range 0xF0 0xF4 (bval b1) = true -> second_of_four (bval b1) (bval b2) = true ->
  is_cont b3 = true -> is_cont b4 = true ->
  encode_char ((bval b1 - 0xF0) * 262144 + (bval b2 - 0x80) * 4096
             + (bval b3 - 0x80) * 64 + (bval b4 - 0x80)) = [b1; b2; b3; b4].
Proof.
  unfold is_cont. rewrite !in_range_spec. intros H1 H2 H3 H4.
  assert (0x80 <= bval b2 <= 0xBF /\ (bval b1 = 0xF0 -> 0x90 <= bval b2)) as [Hb Hb'].
  { unfold second_of_four in H2. revert H2. decide_ranges; done. }
  unfold encode_char.
  set (d1 := bval b1 - 0xF0). set (d2 := bval b2 - 0x80).
  replace (d1 * 262144 + d2 * 4096 + (bval b3 - 0x80) * 64 + (bval b4 - 0x80))
    with (((d1 * 64 + d2) * 64 + (bval b3 - 0x80)) * 64 + (bval b4 - 0x80)) by lia.
  change 262144 with (64 * (64 * 64)). change 4096 with (64 * 64).
  rewrite <- !(Z.div_div _ 64) by lia.
  destruct (base64_unique ((d1 * 64 + d2) * 64 + (bval b3 - 0x80)) (bval b4 - 0x80)
    ltac:(lia)) as [-> ->].
  destruct (base64_unique (d1 * 64 + d2) (bval b3 - 0x80) ltac:(lia)) as [-> ->].
  destruct (base64_unique d1 d2 ltac:(unfold d2; lia)) as [-> ->].
  unfold d1, d2 in *. decide_ranges; repeat f_equal; apply byte_of_Z_eq; lia.
Qed.

(** One decoding step on valid input: the leading character, its bytes and the rest. *)
Lemma utf8_valid_step b bs :
  utf8_valid (b :: bs) = true ->
  exists c rest, b :: bs = encode_char c ++ rest /\ is_scalar c /\
    utf8_items (b :: bs) = Char c :: utf8_items rest /\ (length rest < length (b :: bs))%nat.
Proof.
  unfold utf8_valid. cbn [utf8_items].
  assert (forall i r, forallb (fun i => match i with Char _ => true | Invalid => false end)
            (i :: r) = true -> i <> Invalid) as HI by (intros [] r; cbn; congruence).
  destruct (Z.ltb_spec (bval b) 0x80).
  { intros _. exists (bval b), bs. pose proof (bval_range b).
    unfold encode_char, is_scalar. destruct (Z.ltb_spec (bval b) 0x80); [|lia].
    rewrite byte_of_Z_bval. repeat split; [lia | cbn; lia]. }
  destruct (in_range 0xC2 0xDF (bval b)) eqn:E2.
  { destruct bs as [|b2 bs]; [by intros []%HI|].
    destruct (is_cont b2) eqn:C2; [|by intros []%HI]. intros _.
    eexists _, bs. rewrite (encode_decoded_2 b b2) by done. unfold is_cont in C2.
    rewrite in_range_spec in C2, E2. unfold is_scalar. repeat split; [lia | cbn; lia]. }
  destruct (in_range 0xE0 0xEF (bval b)) eqn:E3.
  { destruct bs as [|b2 bs]; [by intros []%HI|].
    destruct (second_of_three (bval b) (bval b2)) eqn:S2; [|by intros []%HI].
    destruct bs as [|b3 bs]; [by intros []%HI|].
    destruct (is_cont b3) eqn:C3; [|by intros []%HI]. intros _.
    eexists _, bs. rewrite (encode_decoded_3 b b2 b3) by done. unfold is_cont in C3.
    rewrite in_range_spec in C3, E3. repeat split; [|cbn; lia].
    unfold second_of_three in S2. unfold is_scalar. revert S2. decide_ranges; intros ?; done || lia. }
  destruct (in_range 0xF0 0xF4 (bval b)) eqn:E4; [|by intros []%HI].
  destruct bs as [|b2 bs]; [by intros []%HI|].
  destruct (second_of_four (bval b) (bval b2)) eqn:S2; [|by intros []%HI].
  destruct bs as [|b3 bs]; [by intros []%HI|].
  destruct (is_cont b3) eqn:C3; [|by intros []%HI].
  destruct bs as [|b4 bs]; [by intros []%HI|].
  destruct (is_cont b4) eqn:C4; [|by intros []%HI]. intros _.
  eexists _, bs. rewrite (encode_decoded_4 b b2 b3 b4) by done. unfold is_cont in C3, C4.
  rewrite in_range_spec in C3, C4, E4. repeat split; [|cbn; lia].
  unfold second_of_four in S2. unfold is_scalar. revert S2. decide_ranges; intros ?; done || lia.
Qed.

Lemma utf8_valid_decode bs :
  utf8_valid bs = true ->
  encode_chars (item_chars (utf8_items bs)) = bs /\
  Forall is_scalar (item_chars (utf8_items bs)).
Proof.
  induction bs as [[|b bs] IH] using (induction_ltof1 _ (@length byte)); [done|].
  intros Hv. destruct (utf8_valid_step b bs Hv) as (c & rest & Hb & Hc & Hi & Hlen).
  unfold utf8_valid in Hv. rewrite Hi in Hv. cbn in Hv.
  destruct (IH rest Hlen Hv) as [H1 H2]. rewrite Hi. cbn [item_chars].
  rewrite encode_chars_cons, H1. split; [done | by constructor].
Qed.

Lemma string_of_chars_chars s : str_ok s -> string_of_chars (chars s) = s.
Proof.
  intros [H _]%utf8_valid_decode. unfold string_of_chars, chars.
  rewrite H. apply of_bytes_as_bytes.
Qed.

Lemma chars_scalar s : str_ok s -> Forall is_scalar (chars s).
Proof. by intros [_ H]%utf8_valid_decode. Qed.

Lemma from_utf8_ok bs s : from_utf8 bs = Some s <-> s = of_bytes bs /\ utf8_valid bs = true.
Proof. unfold from_utf8. destruct (utf8_valid bs); naive_solver. Qed.

Lemma from_utf8_as_bytes s : str_ok s -> from_utf8 (as_bytes s) = Some s.
Proof. unfold str_ok, from_utf8. intros ->. by rewrite of_bytes_as_bytes. Qed.

#[export] Hint Resolve string_of_chars_ok chars_scalar from_utf8_as_bytes : vaylix.

(** ** Integer text *)

Definition digit_of (a : ascii) : option Z :=
  let n := Z.of_N (N_of_ascii a) in
  if (48 <=? n) && (n <=? 57) then Some (n - 48) else None.

(** The digits of [s] folded into [acc]; [None] on a non-digit. *)
Fixpoint parse_digits (acc : Z) (s : string) : option Z :=
  match s with
  | String.EmptyString => Some acc
  | String.String a s' => d ← digit_of a; parse_digits (acc * 10 + d) s'
  end.

(** One or more digits. *)
Definition parse_unsigned (s : string) : option Z :=
  match s with
  | String.EmptyString => None
  | _ => parse_digits 0 s
  end.

(** [str::parse::<uN>()]: an optional [+], one or more digits, at most [max]. *)
Definition parse_uint (max : Z) (s : string) : option Z :=
  let body := match s with
              | String.String "+"%char s' => s'
              | _ => s
              end in
  z ← parse_unsigned body; if z <=? max then Some z else None.

(** [str::parse::<i64>()]: an optional sign, one or more digits, in range. *)
Definition parse_i64 (s : string) : option Z :=
  match s with
  | String.String "+"%char s' => z ← parse_unsigned s'; checked_i64 z
  | String.String "-"%char s' => z ← parse_unsigned s'; checked_i64 (- z)
  | _ => z ← parse_unsigned s; checked_i64 z
  end.

(** [i64::to_string] and [u64::to_string]. *)
Definition int_to_string (z : Z) : string := NilZero.string_of_int (Z.to_int z).

(** [bool::to_string]. *)
Definition bool_to_string (b : bool) : string := if b then "true" else "false".

(** [{byte:02x}] and [{byte:02X}] of each byte. *)
Definition hex_digit (n : Z) : byte := default x30 (as_bytes "0123456789abcdef" !! Z.to_nat n).
Definition hex (bytes : list byte) : string :=
  of_bytes (bytes ≫= fun b => [hex_digit (bval b / 16); hex_digit (bval b mod 16)]).
Definition upper_hex_digit (n : Z) : byte := default x30 (as_bytes "0123456789ABCDEF" !! Z.to_nat n).
Definition upper_hex (bytes : list byte) : string :=
  of_bytes (bytes ≫= fun b => [upper_hex_digit (bval b / 16); upper_hex_digit (bval b mod 16)]).

(** The value of a digit sequence read after [acc]. *)
Fixpoint uint_value (acc : Z) (d : Decimal.uint) : Z :=
  match d with
  | Decimal.Nil => acc
  | Decimal.D0 d => uint_value (acc * 10) d
  | Decimal.D1 d => uint_value (acc * 10 + 1) d
  | Decimal.D2 d => uint_value (acc * 10 + 2) d
  | Decimal.D3 d => uint_value (acc * 10 + 3) d
  | Decimal.D4 d => uint_value (acc * 10 + 4) d
  | Decimal.D5 d => uint_value (acc * 10 + 5) d
  | Decimal.D6 d => uint_value (acc * 10 + 6) d
  | Decimal.D7 d => uint_value (acc * 10 + 7) d
  | Decimal.D8 d => uint_value (acc * 10 + 8) d
  | Decimal.D9 d => uint_value (acc * 10 + 9) d
  end.

Lemma uint_value_pos d p : uint_value (Zpos p) d = Zpos (Pos.of_uint_acc d p).
Proof.
  revert p. induction d; intros p; cbn [uint_value Pos.of_uint_acc]; [done|..];
    rewrite <- IHd; f_equal; lia.
Qed.

Lemma uint_value_of_uint d : uint_value 0 d = Z.of_uint d.
Proof.
  unfold Z.of_uint. induction d; cbn [uint_value Pos.of_uint]; [done | exact IHd | ..];
    exact (uint_value_pos d _).
Qed.

Lemma parse_digits_cons a s acc d :
  digit_of a = Some d -> parse_digits acc (String.String a s) = parse_digits (acc * 10 + d) s.
Proof. intros H. cbn [parse_digits]. by rewrite H. Qed.

Lemma parse_digits_uint d acc :
  parse_digits acc (NilEmpty.string_of_uint d) = Some (uint_value acc d).
Proof.
  revert acc. induction d; intros acc; [done|..];
    cbn [NilEmpty.string_of_uint uint_value]; (erewrite parse_digits_cons by reflexivity);
    rewrite IHd; do 2 f_equal; apply Z.add_0_r || done.
Qed.

Lemma parse_unsigned_uint d :
  parse_unsigned (NilZero.string_of_uint d) = Some (Z.of_uint d).
Proof.
  rewrite <- uint_value_of_uint.
  destruct d; [done|..]; unfold parse_unsigned, NilZero.string_of_uint;
    rewrite <- parse_digits_uint; done.
Qed.

(** The printed form of a non-negative integer starts with a digit. *)
Lemma string_of_uint_head d :
  exists a s, NilZero.string_of_uint d = String.String a s /\ a <> "+"%char /\ a <> "-"%char.
Proof. destruct d; eexists _, _; (split; [reflexivity|]); split; discriminate. Qed.

Lemma parse_i64_to_string z : is_i64 z -> parse_i64 (int_to_string z) = Some z.
Proof.
  intros Hz. rewrite <- (DecimalZ.of_to z) at 2. unfold int_to_string.
  rewrite <- (DecimalZ.of_to z) in Hz.
  destruct (Z.to_int z) as [d|d]; cbn [NilZero.string_of_int Z.of_int] in *.
  - destruct (string_of_uint_head d) as (a & s & E & Hp & Hm).
    assert (parse_i64 (NilZero.string_of_uint d) =
              z ← parse_unsigned (NilZero.string_of_uint d); checked_i64 z) as ->.
    { rewrite E. unfold parse_i64. repeat (case_match; try done). }
    rewrite parse_unsigned_uint. cbn. by apply checked_i64_Some.
  - cbn [parse_i64]. rewrite parse_unsigned_uint. cbn. by apply checked_i64_Some.
Qed.

Lemma int_to_string_inj a b : is_i64 a -> is_i64 b -> int_to_string a = int_to_string b -> a = b.
Proof.
  intros Ha Hb E. apply parse_i64_to_string in Ha, Hb. rewrite E in Ha. congruence.
Qed.

Lemma digit_of_range a d : digit_of a = Some d -> 0 <= d <= 9.
Proof. unfold digit_of. case_match eqn:H; [|done]. intros [= <-]. lia. Qed.

Lemma parse_digits_nonneg acc s z : 0 <= acc -> parse_digits acc s = Some z -> 0 <= z.
Proof.
  revert acc. induction s as [|a s IH]; intros acc Hacc H; [cbn in H; congruence|].
  cbn [parse_digits] in H. apply bind_Some in H as (d & Hd%digit_of_range & H).
  eapply IH; [|exact H]. lia.
Qed.

(** What [str::parse] accepts fits the type. *)
Lemma parse_uint_range max s z : parse_uint max s = Some z -> 0 <= z <= max.
Proof.
  unfold parse_uint. cbv zeta. generalize (match s with String.String "+" s' => s' | _ => s end).
  intros body (n & Hn & H)%bind_Some. assert (0 <= n).
  { destruct body; [done|]. by eapply parse_digits_nonneg in Hn. }
  destruct (Z.leb_spec n max); [|done]. injection H as ->. lia.
Qed.

(** Printing an unsigned integer and parsing it back. *)
Lemma parse_uint_to_string max z :
  0 <= z <= max -> parse_uint max (int_to_string z) = Some z.
Proof.
  intros Hz. rewrite <- (DecimalZ.of_to z) at 2. unfold int_to_string.
  assert (exists d, Z.to_int z = Decimal.Pos d) as [d Ed]
    by (destruct z; [by eexists | by eexists | lia]).
  rewrite <- (DecimalZ.of_to z) in Hz. rewrite Ed in *.
  cbn [NilZero.string_of_int Z.of_int] in *.
  destruct (string_of_uint_head d) as (a & s & E & Hp & Hm).
  assert (parse_uint max (NilZero.string_of_uint d) =
            z ← parse_unsigned (NilZero.string_of_uint d);
            if z <=? max then Some z else None) as ->.
  { rewrite E. unfold parse_uint. repeat (case_match; try done). }
  rewrite parse_unsigned_uint. cbn. by rewrite (proj2 (Z.leb_le _ _)) by lia.
Qed.

(** Printed integers are ASCII, hence valid UTF-8. *)
Definition ascii_string (s : string) : Prop := Forall (fun b => bval b < 128) (as_bytes s).

Lemma ascii_string_ok s : ascii_string s -> str_ok s.
Proof.
  unfold ascii_string, str_ok, utf8_valid. induction 1 as [|b bs Hb _ IH]; [done|].
  rewrite utf8_items_1 by done. exact IH.
Qed.

Lemma string_of_uint_ascii d : ascii_string (NilEmpty.string_of_uint d).
Proof. unfold ascii_string. induction d; cbn; [constructor|..]; by constructor. Qed.

Lemma int_to_string_ok z : str_ok (int_to_string z).
Proof.
  apply ascii_string_ok. unfold int_to_string, NilZero.string_of_int, NilZero.string_of_uint.
  destruct (Z.to_int z) as [d|d]; [|apply (Forall_cons_2 _ x2d); [done|]];
    destruct d; try apply string_of_uint_ascii; by apply (Forall_cons_2 _ x30).
Qed.
#[export] Hint Resolve int_to_string_ok : vaylix.

(** * Fixed-width integers in byte buffers

    [to_le_bytes]/[from_le_bytes] for the storage files and their big-endian
    counterparts for the wire; [n] is the width in bytes. *)

(** [uN::to_le_bytes]. *)
Fixpoint to_le (n : nat) (z : Z) : list byte :=
  match n with
  | O => []
  | S n => byte_of_Z z :: to_le n (z / 256)
  end.

(** [uN::from_le_bytes]. *)
Fixpoint from_le (bs : list byte) : Z :=
  match bs with
  | [] => 0
  | b :: bs => bval b + 256 * from_le bs
  end.

Definition to_be (n : nat) (z : Z) : list byte := reverse (to_le n z).
Definition from_be (bs : list byte) : Z := from_le (reverse bs).

Lemma to_le_length n z : length (to_le n z) = n.
Proof. revert z. induction n; intros z; cbn; auto. Qed.

Lemma to_be_length n z : length (to_be n z) = n.
Proof. unfold to_be. by rewrite length_reverse, to_le_length. Qed.

Lemma from_to_le n z : 0 <= z < 256 ^ Z.of_nat n -> from_le (to_le n z) = z.
Proof.
  revert z. induction n as [|n IH]; intros z Hz; [cbn in *; lia|].
  rewrite Nat2Z.inj_succ, Z.pow_succ_r in Hz by lia. cbn [to_le from_le].
  rewrite IH, bval_byte_of_Z; [pose proof (Z.div_mod z 256); lia|].
  split; [apply Z.div_pos; lia | apply Z.div_lt_upper_bound; lia].
Qed.

Lemma from_to_be n z : 0 <= z < 256 ^ Z.of_nat n -> from_be (to_be n z) = z.
Proof. intros H. unfold from_be, to_be. rewrite reverse_involutive. by apply from_to_le. Qed.

Lemma from_le_range bs : 0 <= from_le bs < 256 ^ Z.of_nat (length bs).
Proof.
  induction bs as [|b bs IH]; [cbn; lia|]. cbn [from_le length].
  rewrite Nat2Z.inj_succ, Z.pow_succ_r by lia. pose proof (bval_range b). lia.
Qed.

Lemma from_be_range bs : 0 <= from_be bs < 256 ^ Z.of_nat (length bs).
Proof. unfold from_be. rewrite <- (length_reverse bs). apply from_le_range. Qed.

Lemma to_from_le bs : to_le (length bs) (from_le bs) = bs.
Proof.
  induction bs as [|b bs IH]; [done|]. cbn [from_le length to_le]. pose proof (bval_range b).
  f_equal.
  - rewrite <- (byte_of_Z_bval b) at 2. unfold byte_of_Z. rewrite (Z.mul_comm 256), Z_mod_plus_full. done.
  - rewrite (Z.mul_comm 256), Z.div_add, Z.div_small by lia. exact IH.
Qed.

Lemma to_le_range n z : Forall (fun b => 0 <= bval b < 256) (to_le n z).
Proof. apply Forall_true. intros. apply bval_range. Qed.

(** Splitting a buffer made of a known prefix. *)
Lemma take_app_exact {A} n (l k : list A) : length l = n -> take n (l ++ k) = l.
Proof. intros <-. apply take_app_length. Qed.

Lemma drop_app_exact {A} n (l k : list A) : length l = n -> drop n (l ++ k) = k.
Proof. intros <-. apply drop_app_length. Qed.

(** Walks a buffer field by field. *)
Lemma drop_next {A} a n (l field rest : list A) :
  drop a l = field ++ rest -> length field = n -> drop (a + n) l = rest.
Proof. intros H <-. by rewrite <- drop_drop, H, drop_app_length. Qed.
