(* ===== verification/Command.v ===== *)
(** * Command: the command language's data (crates/command/src/command.rs, error.rs)

    [Command] has one constructor per variant of [enum Command], [SetOptions]
    the modifiers of SET, [COMMANDS] the table of the client's help, and
    [CommandError] the parser's errors with their stable codes. *)

From S2P Require Import Prelude Text.

Record CommandInfo := mkCommandInfo { info_name : string; info_usage : string }.

Inductive SetCondition := Nx | Xx.

Inductive Expiration :=
| Ex (seconds : Z)
| Px (millis : Z).

Record SetOptions := mkSetOptions {
  so_condition : option SetCondition;
  so_if_version : option Z;
  so_expiration : option Expiration;
  so_keep_ttl : bool;
  so_return_previous : bool;
}.

Definition SetOptions_default : SetOptions := mkSetOptions None None None false false.

#[export] Instance SetCondition_eq_dec : EqDecision SetCondition.
Proof. solve_decision. Defined.
#[export] Instance Expiration_eq_dec : EqDecision Expiration.
Proof. solve_decision. Defined.
#[export] Instance SetOptions_eq_dec : EqDecision SetOptions.
Proof. solve_decision. Defined.

Definition COMMANDS : list CommandInfo :=
  [mkCommandInfo "auth" "auth <username> <password>";
   mkCommandInfo "ping" "ping [message]";
   mkCommandInfo "get" "get <key>";
   mkCommandInfo "set"
     "set <key> <value> [nx|xx] [if version <version>] [ex <seconds>|px <millis>] [keepttl] [get]";
   mkCommandInfo "setnx" "setnx <key> <value>";
   mkCommandInfo "getdel" "getdel <key>";
   mkCommandInfo "getex" "getex <key> [ex <seconds>|px <millis>|persist]";
   mkCommandInfo "mget" "mget <key> [key ...]";
   mkCommandInfo "mset" "mset <key> <value> [key value ...]";
   mkCommandInfo "del" "del <key> [key ...]";
   mkCommandInfo "delete" "delete <key> [key ...]";
   mkCommandInfo "exists" "exists <key>";
   mkCommandInfo "incr" "incr <key>";
   mkCommandInfo "decr" "decr <key>";
   mkCommandInfo "expire" "expire <key> <seconds>";
   mkCommandInfo "ttl" "ttl <key>";
   mkCommandInfo "persist" "persist <key>";
   mkCommandInfo "rename" "rename <source> <destination>";
   mkCommandInfo "renamenx" "renamenx <source> <destination>";
   mkCommandInfo "scan" "scan <cursor> [match <pattern>] [count <n>]";
   mkCommandInfo "dbsize" "dbsize";
   mkCommandInfo "count" "count";
   mkCommandInfo "info" "info";
   mkCommandInfo "metrics" "metrics";
   mkCommandInfo "metrics prom" "metrics prom";
   mkCommandInfo "list" "list";
   mkCommandInfo "clear" "clear";
   mkCommandInfo "flushdb" "flushdb";
   mkCommandInfo "save" "save";
   mkCommandInfo "snapshot" "snapshot";
   mkCommandInfo "backup" "backup";
   mkCommandInfo "backup to" "backup to <path>";
   mkCommandInfo "backup verify" "backup verify <logical-dump-json>";
   mkCommandInfo "backup verify from" "backup verify from <path>";
   mkCommandInfo "restore" "restore <logical-dump-json>";
   mkCommandInfo "restore from" "restore from <path>";
   mkCommandInfo "restore check" "restore check <logical-dump-json>";
   mkCommandInfo "restore check from" "restore check from <path>";
   mkCommandInfo "alter user" "alter user <username> password <password>";
   mkCommandInfo "create user" "create user <username> password <password>";
   mkCommandInfo "create role" "create role <role>";
   mkCommandInfo "drop user" "drop user <username>";
   mkCommandInfo "drop role" "drop role <role>";
   mkCommandInfo "grant role" "grant role <role> to <username>";
   mkCommandInfo "grant permission" "grant permission <permission> [on <pattern>] to <role>";
   mkCommandInfo "revoke role" "revoke role <role> from <username>";
   mkCommandInfo "revoke permission"
     "revoke permission <permission> [on <pattern>] from <role>";
   mkCommandInfo "show users" "show users";
   mkCommandInfo "show roles" "show roles";
   mkCommandInfo "show grants" "show grants";
   mkCommandInfo "show grants for user" "show grants for user <username>";
   mkCommandInfo "show grants for role" "show grants for role <role>";
   mkCommandInfo "whoami" "whoami";
   mkCommandInfo "multi" "multi";
   mkCommandInfo "exec" "exec";
   mkCommandInfo "discard" "discard";
   mkCommandInfo "maintenance on" "maintenance on";
   mkCommandInfo "maintenance off" "maintenance off";
   mkCommandInfo "maintenance status" "maintenance status";
   mkCommandInfo "health" "health";
   mkCommandInfo "show cluster" "show cluster";
   mkCommandInfo "cluster join" "cluster join <node-id> <host:port>";
   mkCommandInfo "cluster remove" "cluster remove <node-id>";
   mkCommandInfo "show replication" "show replication";
   mkCommandInfo "promote follower" "promote follower";
   mkCommandInfo "pause replication" "pause replication";
   mkCommandInfo "resume replication" "resume replication";
   mkCommandInfo "help" "help";
   mkCommandInfo "exit" "exit";
   mkCommandInfo "quit" "quit"].

Definition command_info (name : string) : option CommandInfo :=
  List.find (fun command => eq_ignore_ascii_case (info_name command) name) COMMANDS.

Inductive Command :=
| CmdAuth (username : string) (password : string)
| CmdPing (message : option string)
| CmdGet (key : string)
| CmdSet (key : string) (value : list byte) (options : SetOptions)
| CmdSetNx (key : string) (value : list byte)
| CmdGetDel (key : string)
| CmdGetEx (key : string) (expiration : option Expiration) (persist : bool)
| CmdMGet (keys : list string)
| CmdMSet (entries : list (string * list byte))
| CmdDelete (keys : list string)
| CmdExists (key : string)
| CmdIncr (key : string)
| CmdDecr (key : string)
| CmdExpire (key : string) (seconds : Z)
| CmdTtl (key : string)
| CmdPersist (key : string)
| CmdRename (source : string) (destination : string)
| CmdRenameNx (source : string) (destination : string)
| CmdScan (cursor : Z) (pattern : option string) (count : option Z)
| CmdDbSize
| CmdInfo
| CmdMetrics
| CmdMetricsProm
| CmdList
| CmdClear
| CmdCount
| CmdSave
| CmdBackup
| CmdBackupTo (path : string)
| CmdBackupVerify (dump : string)
| CmdBackupVerifyFrom (path : string)
| CmdRestore (dump : string)
| CmdRestoreFrom (path : string)
| CmdRestoreCheck (dump : string)
| CmdRestoreCheckFrom (path : string)
| CmdAlterUserPassword (username : string) (password : string)
| CmdCreateUser (username : string) (password : string)
| CmdDropUser (username : string)
| CmdCreateRole (role : string)
| CmdDropRole (role : string)
| CmdGrantRole (role : string) (username : string)
| CmdRevokeRole (role : string) (username : string)
| CmdGrantPermission (permission : string) (pattern : string) (role : string)
| CmdRevokePermission (permission : string) (pattern : string) (role : string)
| CmdShowUsers
| CmdShowRoles
| CmdShowGrants
| CmdShowGrantsForUser (username : string)
| CmdShowGrantsForRole (role : string)
| CmdWhoAmI
| CmdMulti
| CmdExec
| CmdDiscard
| CmdMaintenanceOn
| CmdMaintenanceOff
| CmdMaintenanceStatus
| CmdHealth
| CmdShowCluster
| CmdClusterJoin (node_id : string) (address : string)
| CmdClusterRemove (node_id : string)
| CmdShowReplication
| CmdPromoteFollower
| CmdPauseReplication
| CmdResumeReplication
| CmdHelp
| CmdExit
| CmdSnapshot.

(** ** Errors *)

Inductive CommandError :=
| EmptyCommand
| UnknownCommand (command : string)
| InvalidArity (usage : string)
| InvalidInteger (field value : string)
| InvalidOption (command option : string)
| ConflictingOptions (command detail : string)
| ExpectedOpeningQuote
| UnterminatedQuotedString (start : Z).

#[export] Instance CommandError_eq_dec : EqDecision CommandError.
Proof. solve_decision. Defined.

Definition CommandError_code (e : CommandError) : string :=
  match e with
  | EmptyCommand => "CMD-001"
  | UnknownCommand _ => "CMD-002"
  | InvalidArity _ => "CMD-003"
  | InvalidInteger _ _ => "CMD-004"
  | InvalidOption _ _ => "CMD-005"
  | ConflictingOptions _ _ => "CMD-006"
  | ExpectedOpeningQuote => "CMD-007"
  | UnterminatedQuotedString _ => "CMD-008"
  end.

Definition CommandError_name (e : CommandError) : string :=
  match e with
  | EmptyCommand => "Empty Command"
  | UnknownCommand _ => "Unknown Command"
  | InvalidArity _ => "Invalid Command Arity"
  | InvalidInteger _ _ => "Invalid Integer Argument"
  | InvalidOption _ _ => "Invalid Command Option"
  | ConflictingOptions _ _ => "Conflicting Command Options"
  | ExpectedOpeningQuote => "Expected Opening Quote"
  | UnterminatedQuotedString _ => "Unterminated Quoted String"
  end.

(** [Display]. *)
Definition CommandError_text (e : CommandError) : string :=
  match e with
  | EmptyCommand => "empty command"
  | UnknownCommand command => "unknown command: " +:+ command
  | InvalidArity usage => "usage: " +:+ usage
  | InvalidInteger field value => "invalid integer for " +:+ field +:+ ": " +:+ value
  | InvalidOption command option => "invalid option for " +:+ command +:+ ": " +:+ option
  | ConflictingOptions command detail => "conflicting options for " +:+ command +:+ ": " +:+ detail
  | ExpectedOpeningQuote => "expected opening quote"
  | UnterminatedQuotedString start =>
      "unterminated quoted string starting at byte " +:+ int_to_string start
  end.

(** ** Type invariants

    [command_typed] is what Rust's types say of a [Command]: its strings are
    UTF-8 and its integers fit their width.  [command_consistent] is what the
    parser promises beyond that: no contradictory modifiers and no empty key
    list. *)

Definition option_ok {A} (P : A -> Prop) (o : option A) : Prop :=
  match o with Some a => P a | None => True end.

Definition expiration_typed (e : Expiration) : Prop :=
  match e with Ex z | Px z => is_u64 z end.

Definition SetOptions_typed (o : SetOptions) : Prop :=
  option_ok is_u64 (so_if_version o) /\ option_ok expiration_typed (so_expiration o).

Definition SetOptions_consistent (o : SetOptions) : Prop :=
  is_some (so_condition o) && is_some (so_if_version o) = false /\
  so_keep_ttl o && is_some (so_expiration o) = false.

Definition command_typed (c : Command) : Prop :=
  match c with
  | CmdAuth a b | CmdRename a b | CmdRenameNx a b | CmdAlterUserPassword a b
  | CmdCreateUser a b | CmdGrantRole a b | CmdRevokeRole a b | CmdClusterJoin a b =>
      str_ok a /\ str_ok b
  | CmdPing m => option_ok str_ok m
  | CmdSet k _ o => str_ok k /\ SetOptions_typed o
  | CmdGetEx k e _ => str_ok k /\ option_ok expiration_typed e
  | CmdMGet ks | CmdDelete ks => Forall str_ok ks
  | CmdMSet es => Forall str_ok (es.*1)
  | CmdExpire k s => str_ok k /\ is_u64 s
  | CmdScan c p n => is_u64 c /\ option_ok str_ok p /\ option_ok is_u16 n
  | CmdGrantPermission a b c | CmdRevokePermission a b c => str_ok a /\ str_ok b /\ str_ok c
  | CmdGet k | CmdSetNx k _ | CmdGetDel k | CmdExists k | CmdIncr k | CmdDecr k | CmdTtl k
  | CmdPersist k | CmdBackupTo k | CmdBackupVerify k | CmdBackupVerifyFrom k | CmdRestore k
  | CmdRestoreFrom k | CmdRestoreCheck k | CmdRestoreCheckFrom k | CmdDropUser k
  | CmdCreateRole k | CmdDropRole k | CmdShowGrantsForUser k | CmdShowGrantsForRole k
  | CmdClusterRemove k => str_ok k
  | CmdDbSize | CmdInfo | CmdMetrics | CmdMetricsProm | CmdList | CmdClear | CmdCount
  | CmdSave | CmdBackup | CmdShowUsers | CmdShowRoles | CmdShowGrants | CmdWhoAmI | CmdMulti
  | CmdExec | CmdDiscard | CmdMaintenanceOn | CmdMaintenanceOff | CmdMaintenanceStatus
  | CmdHealth | CmdShowCluster | CmdShowReplication | CmdPromoteFollower
  | CmdPauseReplication | CmdResumeReplication | CmdHelp | CmdExit | CmdSnapshot => True
  end.

Definition command_consistent (c : Command) : Prop :=
  match c with
  | CmdSet _ _ o => SetOptions_consistent o
  | CmdGetEx _ e p => p && is_some e = false
  | CmdMGet ks | CmdDelete ks => ks <> []
  | CmdMSet es => es <> []
  | _ => True
  end.
