(* ===== verification/Lexer.v ===== *)
(** * Lexer: tokens of a command line (crates/command/src/lexer.rs)

    The lexer walks the characters of its input with their byte offsets, as the
    [Peekable<CharIndices>] of the source does.  The loop of [tokenize] takes
    fuel, and [tokenize_returns] shows that one unit per character is enough. *)

From S2P Require Import Prelude Text Command.

Inductive Token :=
| Word (text : string)
| QuotedString (text : string).

#[export] Instance Token_eq_dec : EqDecision Token.
Proof. solve_decision. Defined.

(** [str::char_indices]. *)
Fixpoint char_indices_from (offset : Z) (cs : list Z) : list (Z * Z) :=
  match cs with
  | [] => []
  | c :: cs' => (offset, c) :: char_indices_from (offset + len_utf8 c) cs'
  end.
Definition char_indices (s : string) : list (Z * Z) := char_indices_from 0 (chars s).

(** The characters the source matches on. *)
Notation TAB := 9.
Notation LF := 10.
Notation CR := 13.
Notation SPACE := 32.
Notation QUOTE := 34.
Notation BACKSLASH := 92.
Notation LOWER_N := 110.
Notation LOWER_T := 116.

Definition is_blank (c : Z) : bool :=
  (c =? SPACE) || (c =? TAB) || (c =? LF) || (c =? CR).

(** [Lexer::read_word]: the word pushed so far, and the characters left. *)
Fixpoint read_word (cs : list (Z * Z)) (word : list Z) : list Z * list (Z * Z) :=
  match cs with
  | [] => (word, cs)
  | (_, ch) :: cs' =>
      if is_blank ch || (ch =? QUOTE) then (word, cs)
      else read_word cs' (word ++ [ch])
  end.

Definition unescape (ch : Z) : Z :=
  if ch =? QUOTE then QUOTE
  else if ch =? BACKSLASH then BACKSLASH
  else if ch =? LOWER_N then LF
  else if ch =? LOWER_T then TAB
  else ch.

(** The [for] loop of [Lexer::read_quoted_string]; [None] when it runs out. *)
Fixpoint read_quoted_body (cs : list (Z * Z)) (value : list Z) (escaped : bool)
    : option (list Z * list (Z * Z)) :=
  match cs with
  | [] => None
  | (_, ch) :: cs' =>
      if escaped then read_quoted_body cs' (value ++ [unescape ch]) false
      else if ch =? BACKSLASH then read_quoted_body cs' value true
      else if ch =? QUOTE then Some (value, cs')
      else read_quoted_body cs' (value ++ [ch]) false
  end.

Definition read_quoted_string (cs : list (Z * Z))
    : outcome CommandError (list Z * list (Z * Z)) :=
  match cs with
  | (start, ch) :: cs' =>
      if ch =? QUOTE then
        match read_quoted_body cs' [] false with
        | Some r => Ok r
        | None => fail (UnterminatedQuotedString start)
        end
      else fail ExpectedOpeningQuote
  | [] => fail ExpectedOpeningQuote
  end.

Fixpoint tokenize_loop (fuel : nat) (cs : list (Z * Z)) (tokens : list Token)
    : outcome CommandError (list Token) :=
  match fuel with
  | O => diverge
  | S fuel =>
      match cs with
      | [] => Ok tokens
      | (_, ch) :: cs' =>
          if is_blank ch then tokenize_loop fuel cs' tokens
          else if ch =? QUOTE then
            '(value, rest) ← read_quoted_string cs;
            tokenize_loop fuel rest (tokens ++ [QuotedString (string_of_chars value)])
          else
            let '(word, rest) := read_word cs [] in
            tokenize_loop fuel rest (tokens ++ [Word (string_of_chars word)])
      end
  end.

Definition tokenize (input : string) : outcome CommandError (list Token) :=
  let cs := char_indices input in tokenize_loop (S (length cs)) cs [].

(** ** Well-formed tokens and their printed form *)

(** A character a bare word may hold. *)
Definition is_plain (c : Z) : bool := negb (is_blank c || (c =? QUOTE)).

Definition token_ok (t : Token) : Prop :=
  match t with
  | Word s => str_ok s /\ chars s <> [] /\ forallb is_plain (chars s) = true
  | QuotedString s => str_ok s
  end.

#[export] Instance token_ok_dec t : Decision (token_ok t).
Proof. destruct t; apply _. Defined.

Definition escape (c : Z) : list Z :=
  if (c =? QUOTE) || (c =? BACKSLASH) then [BACKSLASH; c] else [c].

Definition render_token (t : Token) : list Z :=
  match t with
  | Word s => chars s
  | QuotedString s => QUOTE :: mjoin (escape <$> chars s) ++ [QUOTE]
  end.

(** A command line: every token followed by one space. *)
Definition render_chars (ts : list Token) : list Z :=
  mjoin ((fun t => render_token t ++ [SPACE]) <$> ts).
Definition render (ts : list Token) : string := string_of_chars (render_chars ts).

(** ** The lexer returns *)

Lemma read_word_length cs word : (length (read_word cs word).2 <= length cs)%nat.
Proof.
  revert word. induction cs as [|[o c] cs IH]; intros word; [done|]. cbn.
  case_match; cbn; [done|]. specialize (IH (word ++ [c])). lia.
Qed.

Lemma read_quoted_body_length cs value escaped v rest :
  read_quoted_body cs value escaped = Some (v, rest) -> (length rest < length cs)%nat.
Proof.
  revert value escaped. induction cs as [|[o c] cs IH]; intros value escaped; [done|]. cbn.
  intros Hr. repeat case_match; simplify_eq; cbn; try lia; apply IH in Hr; lia.
Qed.

Lemma tokenize_loop_returns fuel cs tokens :
  (length cs < fuel)%nat -> returns (tokenize_loop fuel cs tokens).
Proof.
  revert cs tokens. induction fuel as [|fuel IH]; intros cs tokens Hf; [lia|]. cbn.
  destruct cs as [|[o c] cs]; [done|]. cbn in Hf.
  destruct (is_blank c) eqn:Hb; [apply IH; lia|].
  destruct (c =? QUOTE) eqn:Hq.
  - cbn. rewrite Hq. destruct (read_quoted_body cs [] false) as [[v rest]|] eqn:E; cbn; [|done].
    apply read_quoted_body_length in E. apply IH. lia.
  - cbn. rewrite Hb, Hq. cbn. pose proof (read_word_length cs ([] ++ [c])).
    destruct (read_word cs _) as [w rest]. apply IH. cbn in *. lia.
Qed.

Lemma tokenize_returns input : returns (tokenize input).
Proof. apply tokenize_loop_returns. lia. Qed.
#[export] Hint Resolve tokenize_returns : vaylix.

(** ** Reading back what was printed *)

Lemma char_indices_from_app o a b :
  exists o', char_indices_from o (a ++ b) = char_indices_from o a ++ char_indices_from o' b.
Proof.
  revert o. induction a as [|c a IH]; intros o; [by exists o|]. cbn.
  destruct (IH (o + len_utf8 c)) as [o' ->]. by exists o'.
Qed.

Lemma read_word_plain o ws c rest word :
  forallb is_plain ws = true -> is_plain c = false ->
  exists o', read_word (char_indices_from o (ws ++ c :: rest)) word =
    (word ++ ws, char_indices_from o' (c :: rest)).
Proof.
  revert o word. induction ws as [|w ws IH]; intros o word Hws Hc; cbn in *.
  - exists o. unfold is_plain in Hc. apply negb_false_iff in Hc. rewrite Hc.
    by rewrite app_nil_r.
  - apply andb_prop in Hws as [Hw Hws]. unfold is_plain in Hw. apply negb_true_iff in Hw.
    rewrite Hw. destruct (IH (o + len_utf8 w) (word ++ [w]) Hws Hc) as [o' ->].
    exists o'. by rewrite <- app_assoc.
Qed.

Lemma read_quoted_body_escaped o cs rest value :
  exists o', read_quoted_body (char_indices_from o (mjoin (escape <$> cs) ++ QUOTE :: rest))
               value false = Some (value ++ cs, char_indices_from o' rest).
Proof.
  revert o value. induction cs as [|c cs IH]; intros o value; cbn.
  - eexists. by rewrite app_nil_r.
  - replace (value ++ c :: cs) with ((value ++ [c]) ++ cs) by (by rewrite <- app_assoc).
    unfold escape at 1. destruct (Z.eqb_spec c QUOTE) as [->|Hq]; cbn.
    { apply IH. }
    destruct (Z.eqb_spec c BACKSLASH) as [->|Hb]; cbn.
    { apply IH. }
    rewrite (proj2 (Z.eqb_neq c QUOTE) Hq), (proj2 (Z.eqb_neq c BACKSLASH) Hb).
    apply IH.
Qed.

Lemma is_plain_spec c : is_plain c = true -> is_blank c = false /\ (c =? QUOTE) = false.
Proof. unfold is_plain. rewrite negb_true_iff, orb_false_iff. done. Qed.

Lemma render_chars_cons t ts :
  render_chars (t :: ts) = render_token t ++ SPACE :: render_chars ts.
Proof. unfold render_chars. cbn. by rewrite <- app_assoc. Qed.

Lemma tokenize_loop_blank fuel o rest acc :
  tokenize_loop (S fuel) (char_indices_from o (SPACE :: rest)) acc =
    tokenize_loop fuel (char_indices_from (o + len_utf8 SPACE) rest) acc.
Proof. done. Qed.

Lemma tokenize_loop_word fuel o s rest acc :
  token_ok (Word s) ->
  exists o', tokenize_loop (S fuel) (char_indices_from o (chars s ++ SPACE :: rest)) acc =
    tokenize_loop fuel (char_indices_from o' (SPACE :: rest)) (acc ++ [Word s]).
Proof.
  intros (Hs & Hne & Hpl). destruct (read_word_plain o _ SPACE rest [] Hpl eq_refl) as [o' R].
  exists o'. destruct (chars s) as [|c cs] eqn:E; [done|]. cbn [app char_indices_from] in *.
  cbn [tokenize_loop]. cbn in Hpl. apply andb_prop in Hpl as [[Hb Hq]%is_plain_spec _].
  rewrite Hb, Hq, R. cbn [app]. by rewrite <- E, string_of_chars_chars.
Qed.

Lemma tokenize_loop_quoted fuel o s rest acc :
  token_ok (QuotedString s) ->
  exists o', tokenize_loop (S fuel)
      (char_indices_from o (render_token (QuotedString s) ++ SPACE :: rest)) acc =
    tokenize_loop fuel (char_indices_from o' (SPACE :: rest)) (acc ++ [QuotedString s]).
Proof.
  intros Hs. destruct (read_quoted_body_escaped (o + len_utf8 QUOTE) (chars s) (SPACE :: rest) [])
    as [o' R]. exists o'. cbn [render_token app]. rewrite <- app_assoc. cbn [app char_indices_from].
  cbn [tokenize_loop read_quoted_string is_blank Z.eqb Pos.eqb orb]. rewrite R. cbn [mbind result_bind app].
  by rewrite string_of_chars_chars.
Qed.

Lemma tokenize_loop_render fuel o ts acc :
  Forall token_ok ts -> (length (render_chars ts) < fuel)%nat ->
  tokenize_loop fuel (char_indices_from o (render_chars ts)) acc = Ok (acc ++ ts).
Proof.
  revert fuel o acc. induction ts as [|t ts IH]; intros fuel o acc Hok Hf.
  { destruct fuel; [cbn in Hf; lia|]. cbn. by rewrite app_nil_r. }
  apply Forall_cons in Hok as [Ht Hts]. rewrite render_chars_cons in *.
  rewrite length_app in Hf. cbn in Hf.
  assert (1 <= length (render_token t))%nat.
  { destruct t as [s|s]; cbn; [|lia]. destruct Ht as (_ & Hne & _).
    destruct (chars s); cbn; [done|lia]. }
  destruct fuel as [|[|fuel]]; [lia|lia|].
  replace (acc ++ t :: ts) with ((acc ++ [t]) ++ ts) by (by rewrite <- app_assoc).
  destruct t as [s|s];
    [destruct (tokenize_loop_word (S fuel) o s (render_chars ts) acc Ht) as [o' R]
    |destruct (tokenize_loop_quoted (S fuel) o s (render_chars ts) acc Ht) as [o' R]];
    etrans; [apply R| |apply R|]; rewrite tokenize_loop_blank; apply IH; done || lia.
Qed.

Lemma ascii_scalar c : 0 <= c < 128 -> is_scalar c.
Proof. unfold is_scalar. lia. Qed.

Lemma escape_scalar cs : Forall is_scalar cs -> Forall is_scalar (mjoin (escape <$> cs)).
Proof.
  induction 1 as [|c cs Hc _ IH]; [constructor|]. cbn. apply Forall_app. split; [|done].
  unfold escape. case_match; repeat apply Forall_cons_2; auto; apply ascii_scalar; lia.
Qed.

Lemma render_scalar ts : Forall token_ok ts -> Forall is_scalar (render_chars ts).
Proof.
  induction 1 as [|t ts Ht _ IH]; [constructor|]. rewrite render_chars_cons.
  apply Forall_app. split; [|constructor; [apply ascii_scalar; lia | done]].
  destruct t as [s|s]; cbn.
  - destruct Ht as [Hs _]. auto with vaylix.
  - constructor; [apply ascii_scalar; lia|]. apply Forall_app. split.
    + apply escape_scalar. auto with vaylix.
    + apply Forall_cons_2; [apply ascii_scalar; lia | done].
Qed.

(** Printing tokens and lexing the text gives the tokens back. *)
Lemma tokenize_render ts : Forall token_ok ts -> tokenize (render ts) = Ok ts.
Proof.
  intros H. unfold tokenize, char_indices, render.
  rewrite chars_string_of_chars by (by apply render_scalar).
  apply tokenize_loop_render; [done|].
  enough (forall o cs, length (char_indices_from o cs) = length cs) as -> by lia.
  intros o cs. revert o. induction cs; intros o; cbn; auto.
Qed.

(** ** What the lexer returns *)

Lemma read_word_ok cs word w rest :
  read_word cs word = (w, rest) -> forallb is_plain word = true ->
  Forall is_scalar (cs.*2) -> Forall is_scalar word ->
  forallb is_plain w = true /\ Forall is_scalar w /\ Forall is_scalar (rest.*2) /\
  (length word <= length w)%nat.
Proof.
  revert word. induction cs as [|[o c] cs IH]; intros word Hr Hp Hs Hw; cbn in Hr.
  { simplify_eq. done. }
  destruct (is_blank c || (c =? QUOTE)) eqn:Hc; [by simplify_eq|].
  apply Forall_cons in Hs as [Hsc Hs]. apply IH in Hr.
  - rewrite length_app in Hr. naive_solver lia.
  - rewrite forallb_app, Hp. cbn. unfold is_plain. by rewrite Hc.
  - done.
  - apply Forall_app; auto.
Qed.

Lemma unescape_scalar c : is_scalar c -> is_scalar (unescape c).
Proof. unfold unescape. repeat case_match; try done; intros _; left; lia. Qed.

Lemma read_quoted_body_ok cs value escaped v rest :
  read_quoted_body cs value escaped = Some (v, rest) ->
  Forall is_scalar (cs.*2) -> Forall is_scalar value ->
  Forall is_scalar v /\ Forall is_scalar (rest.*2).
Proof.
  revert value escaped. induction cs as [|[o c] cs IH]; intros value escaped Hr Hs Hv; [done|].
  apply Forall_cons in Hs as [Hc Hs]. cbn in Hc, Hr.
  repeat case_match; simplify_eq; try done; (eapply IH; [exact Hr|done|]); try done;
    apply Forall_app; auto using unescape_scalar.
Qed.

Lemma tokenize_loop_ok fuel cs acc ts :
  tokenize_loop fuel cs acc = Ok ts -> Forall is_scalar (cs.*2) ->
  Forall token_ok acc -> Forall token_ok ts.
Proof.
  revert cs acc. induction fuel as [|fuel IH]; intros cs acc; [done|]. cbn.
  destruct cs as [|[o c] cs]; [by intros [= ->]|].
  intros Ht Hs Hacc. pose proof Hs as [Hc Hs']%Forall_cons. cbn in Hc.
  destruct (is_blank c) eqn:Hb; [by eapply IH|].
  destruct (c =? QUOTE) eqn:Hq.
  - cbn in Ht. rewrite Hq in Ht.
    destruct (read_quoted_body cs [] false) as [[v rest]|] eqn:E; [|done]. cbn in Ht.
    apply read_quoted_body_ok in E as [Hv Hrest]; [|done|done].
    eapply IH; [exact Ht|done|]. apply Forall_app. repeat constructor; [done|].
    cbn. auto with vaylix.
  - destruct (read_word _ []) as [w rest] eqn:E. cbn in E. rewrite Hb, Hq in E. cbn in E.
    apply read_word_ok in E as (Hp & Hw & Hrest & Hlen); cycle 1.
    { cbn. unfold is_plain. by rewrite Hb, Hq. } { done. } { by constructor. }
    eapply IH; [exact Ht|done|]. apply Forall_app. repeat constructor; [done|..];
      rewrite ?chars_string_of_chars by done; auto with vaylix.
    by destruct w; cbn in Hlen; [lia|].
Qed.

Lemma char_indices_from_snd o cs : (char_indices_from o cs).*2 = cs.
Proof. revert o. induction cs as [|c cs IH]; intros o; cbn; [done|]. by rewrite IH. Qed.

Lemma tokenize_ok input ts : str_ok input -> tokenize input = Ok ts -> Forall token_ok ts.
Proof.
  intros Hi Ht. eapply tokenize_loop_ok; [exact Ht| |done].
  unfold char_indices. rewrite char_indices_from_snd. auto with vaylix.
Qed.
