(* ===== verification/Parser.v ===== *)
(** * Parser: command text to [Command] (crates/command/src/parser.rs)

    One definition per function of [impl Parser].  Indexing the token slice is
    [text_at], which panics out of range as [tokens[i]] does; the option loops
    of SET, GETEX and SCAN consume the slice from the current index on. *)

From S2P Require Import Prelude Text Command Lexer.

Definition token_text (token : Token) : string :=
  match token with Word value | QuotedString value => value end.

Definition text_at (tokens : list Token) (i : nat) : outcome CommandError string :=
  token_text <$> index tokens i.

(** [token_text(&tokens[i]).eq_ignore_ascii_case(w)]. *)
Definition text_is (tokens : list Token) (i : nat) (w : string) : outcome CommandError bool :=
  s ← text_at tokens i; Ok (eq_ignore_ascii_case s w).

Definition expect_len (tokens : list Token) (expected : nat) (usage : string)
    : outcome CommandError unit :=
  if Nat.eqb (length tokens) expected then Ok tt else fail (InvalidArity usage).

Definition parse_single_key (tokens : list Token) (usage : string)
    (constructor : string -> Command) : outcome CommandError Command :=
  _ ← expect_len tokens 2 usage;
  key ← text_at tokens 1;
  Ok (constructor key).

Definition parse_no_args (tokens : list Token) (command : Command) (usage : string)
    : outcome CommandError Command :=
  if Nat.eqb (length tokens) 1 then Ok command else fail (InvalidArity usage).

Definition parse_u64 (field : string) (token : Token) : outcome CommandError Z :=
  match parse_uint u64_max (token_text token) with
  | Some z => Ok z
  | None => fail (InvalidInteger field (token_text token))
  end.

Definition parse_u16 (field : string) (token : Token) : outcome CommandError Z :=
  match parse_uint u16_max (token_text token) with
  | Some z => Ok z
  | None => fail (InvalidInteger field (token_text token))
  end.

Definition set_usage : string :=
  "set <key> <value> [nx|xx] [if version <version>] [ex <seconds>|px <millis>] [keepttl] [get]".
Definition getex_usage : string := "getex <key> [ex <seconds>|px <millis>|persist]".
Definition scan_usage : string := "scan <cursor> [match <pattern>] [count <n>]".

(** [tokens.get(index + 1)] read as an integer; [following] is that option. *)
Definition parse_following_u64 (following : option Token) (field usage_command : string)
    : outcome CommandError Z :=
  match following with
  | None =>
      fail (InvalidArity
        (if String.eqb usage_command "set" then set_usage
         else if String.eqb usage_command "getex" then getex_usage
         else usage_command))
  | Some token => parse_u64 field token
  end.

Definition parse_following_u16 (following : option Token) (field usage_command : string)
    : outcome CommandError Z :=
  match following with
  | None =>
      fail (InvalidArity
        (if String.eqb usage_command "scan" then scan_usage else usage_command))
  | Some token => parse_u16 field token
  end.

Definition set_condition (command : string) (options : SetOptions) (condition : SetCondition)
    : outcome CommandError SetOptions :=
  if is_some (so_condition options) then
    fail (ConflictingOptions command "only one of NX or XX may be specified")
  else if is_some (so_if_version options) then
    fail (ConflictingOptions command "NX or XX cannot be combined with IF VERSION")
  else
    Ok (mkSetOptions (Some condition) (so_if_version options) (so_expiration options)
          (so_keep_ttl options) (so_return_previous options)).

Definition set_expiration (command : string) (options : SetOptions) (expiration : Expiration)
    : outcome CommandError SetOptions :=
  if so_keep_ttl options then
    fail (ConflictingOptions command "EX or PX cannot be combined with KEEPTTL")
  else if is_some (so_expiration options) then
    fail (ConflictingOptions command "only one of EX or PX may be specified")
  else
    Ok (mkSetOptions (so_condition options) (so_if_version options) (Some expiration)
          (so_keep_ttl options) (so_return_previous options)).

Definition parse_auth (tokens : list Token) : outcome CommandError Command :=
  _ ← expect_len tokens 3 "auth <username> <password>";
  username ← text_at tokens 1;
  password ← text_at tokens 2;
  Ok (CmdAuth username password).

Definition parse_ping (tokens : list Token) : outcome CommandError Command :=
  match length tokens with
  | 1%nat => Ok (CmdPing None)
  | 2%nat => message ← text_at tokens 1; Ok (CmdPing (Some message))
  | _ => fail (InvalidArity "ping [message]")
  end.

Definition parse_get (tokens : list Token) : outcome CommandError Command :=
  _ ← expect_len tokens 2 "get <key>";
  key ← text_at tokens 1;
  Ok (CmdGet key).

(** The [while] loop of [parse_set]: [rest] is [tokens[index..]]. *)
Fixpoint parse_set_options (rest : list Token) (options : SetOptions)
    : outcome CommandError SetOptions :=
  match rest with
  | [] => Ok options
  | token :: rest1 =>
      let word := to_ascii_lowercase (token_text token) in
      if String.eqb word "nx" then
        options' ← set_condition "set" options Nx; parse_set_options rest1 options'
      else if String.eqb word "xx" then
        options' ← set_condition "set" options Xx; parse_set_options rest1 options'
      else if String.eqb word "if" then
        match rest1 with
        | next :: rest2 =>
            if eq_ignore_ascii_case (token_text next) "version" then
              if is_some (so_condition options) then
                fail (ConflictingOptions "set" "IF VERSION cannot be combined with NX or XX")
              else
                version ← parse_following_u64 (head rest2) "version" "set";
                if is_some (so_if_version options) then
                  fail (ConflictingOptions "set" "IF VERSION can only be specified once")
                else
                  match rest2 with
                  | _ :: rest3 =>
                      parse_set_options rest3
                        (mkSetOptions (so_condition options) (Some version)
                           (so_expiration options) (so_keep_ttl options)
                           (so_return_previous options))
                  | [] => Ok options
                  end
            else fail (InvalidOption "set" (token_text token))
        | [] => fail (InvalidOption "set" (token_text token))
        end
      else if String.eqb word "ex" then
        seconds ← parse_following_u64 (head rest1) "seconds" "set";
        options' ← set_expiration "set" options (Ex seconds);
        match rest1 with
        | _ :: rest2 => parse_set_options rest2 options'
        | [] => Ok options'
        end
      else if String.eqb word "px" then
        millis ← parse_following_u64 (head rest1) "milliseconds" "set";
        options' ← set_expiration "set" options (Px millis);
        match rest1 with
        | _ :: rest2 => parse_set_options rest2 options'
        | [] => Ok options'
        end
      else if String.eqb word "keepttl" then
        if so_keep_ttl options then
          fail (ConflictingOptions "set" "KEEPTTL can only be specified once")
        else if is_some (so_expiration options) then
          fail (ConflictingOptions "set" "KEEPTTL cannot be combined with EX or PX")
        else
          parse_set_options rest1
            (mkSetOptions (so_condition options) (so_if_version options)
               (so_expiration options) true (so_return_previous options))
      else if String.eqb word "get" then
        if so_return_previous options then
          fail (ConflictingOptions "set" "GET can only be specified once")
        else
          parse_set_options rest1
            (mkSetOptions (so_condition options) (so_if_version options)
               (so_expiration options) (so_keep_ttl options) true)
      else fail (InvalidOption "set" word)
  end.

Definition parse_set (tokens : list Token) : outcome CommandError Command :=
  if Nat.ltb (length tokens) 3 then fail (InvalidArity set_usage)
  else
    key ← text_at tokens 1;
    value ← text_at tokens 2;
    options ← parse_set_options (drop 3 tokens) SetOptions_default;
    Ok (CmdSet key (as_bytes value) options).

Definition parse_setnx (tokens : list Token) : outcome CommandError Command :=
  _ ← expect_len tokens 3 "setnx <key> <value>";
  key ← text_at tokens 1;
  value ← text_at tokens 2;
  Ok (CmdSetNx key (as_bytes value)).

(** The [while] loop of [parse_getex]. *)
Fixpoint parse_getex_options (rest : list Token) (expiration : option Expiration)
    (persist : bool) : outcome CommandError (option Expiration * bool) :=
  match rest with
  | [] => Ok (expiration, persist)
  | token :: rest1 =>
      let word := to_ascii_lowercase (token_text token) in
      if String.eqb word "ex" then
        if persist then
          fail (ConflictingOptions "getex" "PERSIST cannot be combined with EX or PX")
        else if is_some expiration then
          fail (ConflictingOptions "getex" "only one expiration modifier is allowed")
        else
          seconds ← parse_following_u64 (head rest1) "seconds" "getex";
          match rest1 with
          | _ :: rest2 => parse_getex_options rest2 (Some (Ex seconds)) persist
          | [] => Ok (Some (Ex seconds), persist)
          end
      else if String.eqb word "px" then
        if persist then
          fail (ConflictingOptions "getex" "PERSIST cannot be combined with EX or PX")
        else if is_some expiration then
          fail (ConflictingOptions "getex" "only one expiration modifier is allowed")
        else
          millis ← parse_following_u64 (head rest1) "milliseconds" "getex";
          match rest1 with
          | _ :: rest2 => parse_getex_options rest2 (Some (Px millis)) persist
          | [] => Ok (Some (Px millis), persist)
          end
      else if String.eqb word "persist" then
        if persist then
          fail (ConflictingOptions "getex" "PERSIST can only be specified once")
        else if is_some expiration then
          fail (ConflictingOptions "getex" "PERSIST cannot be combined with EX or PX")
        else parse_getex_options rest1 expiration true
      else fail (InvalidOption "getex" word)
  end.

Definition parse_getex (tokens : list Token) : outcome CommandError Command :=
  if Nat.leb 2 (length tokens) && Nat.leb (length tokens) 4 then
    key ← text_at tokens 1;
    '(expiration, persist) ← parse_getex_options (drop 2 tokens) None false;
    Ok (CmdGetEx key expiration persist)
  else fail (InvalidArity getex_usage).

Definition parse_mget (tokens : list Token) : outcome CommandError Command :=
  if Nat.ltb (length tokens) 2 then fail (InvalidArity "mget <key> [key ...]")
  else Ok (CmdMGet (token_text <$> drop 1 tokens)).

(** The [while] loop of [parse_mset]. *)
Fixpoint parse_mset_entries (rest : list Token)
    : outcome CommandError (list (string * list byte)) :=
  match rest with
  | [] => Ok []
  | [_] => panic
  | key :: value :: rest2 =>
      entries ← parse_mset_entries rest2;
      Ok ((token_text key, as_bytes (token_text value)) :: entries)
  end.

Definition parse_mset (tokens : list Token) : outcome CommandError Command :=
  if Nat.ltb (length tokens) 3 || Nat.even (length tokens) then
    fail (InvalidArity "mset <key> <value> [key value ...]")
  else
    entries ← parse_mset_entries (drop 1 tokens);
    Ok (CmdMSet entries).

Definition parse_delete (tokens : list Token) : outcome CommandError Command :=
  if Nat.ltb (length tokens) 2 then fail (InvalidArity "del <key> [key ...]")
  else Ok (CmdDelete (token_text <$> drop 1 tokens)).

Definition parse_exists (tokens : list Token) : outcome CommandError Command :=
  _ ← expect_len tokens 2 "exists <key>";
  key ← text_at tokens 1;
  Ok (CmdExists key).

Definition parse_expire (tokens : list Token) : outcome CommandError Command :=
  _ ← expect_len tokens 3 "expire <key> <seconds>";
  key ← text_at tokens 1;
  token ← index tokens 2;
  seconds ← parse_u64 "seconds" token;
  Ok (CmdExpire key seconds).

Definition parse_rename (tokens : list Token) (nx : bool) : outcome CommandError Command :=
  let usage := if nx then "renamenx <source> <destination>"
               else "rename <source> <destination>" in
  _ ← expect_len tokens 3 usage;
  source ← text_at tokens 1;
  destination ← text_at tokens 2;
  Ok (if nx then CmdRenameNx source destination else CmdRename source destination).

(** The [while] loop of [parse_scan]. *)
Fixpoint parse_scan_options (rest : list Token) (pattern : option string) (count : option Z)
    : outcome CommandError (option string * option Z) :=
  match rest with
  | [] => Ok (pattern, count)
  | token :: rest1 =>
      let word := to_ascii_lowercase (token_text token) in
      if String.eqb word "match" then
        if is_some pattern then
          fail (ConflictingOptions "scan" "MATCH can only be specified once")
        else
          match rest1 with
          | [] => fail (InvalidArity scan_usage)
          | next :: rest2 => parse_scan_options rest2 (Some (token_text next)) count
          end
      else if String.eqb word "count" then
        if is_some count then
          fail (ConflictingOptions "scan" "COUNT can only be specified once")
        else
          n ← parse_following_u16 (head rest1) "count" "scan";
          match rest1 with
          | _ :: rest2 => parse_scan_options rest2 pattern (Some n)
          | [] => Ok (pattern, Some n)
          end
      else fail (InvalidOption "scan" word)
  end.

Definition parse_scan (tokens : list Token) : outcome CommandError Command :=
  if Nat.ltb (length tokens) 2 then fail (InvalidArity scan_usage)
  else
    token ← index tokens 1;
    cursor ← parse_u64 "cursor" token;
    '(pattern, count) ← parse_scan_options (drop 2 tokens) None None;
    Ok (CmdScan cursor pattern count).


Definition parse_backup (tokens : list Token) : outcome CommandError Command :=
  let usage := fail (InvalidArity "backup [to <path>] | backup verify <logical-dump-json> | backup verify from <path>") in
  match length tokens with
  | 1%nat => Ok CmdBackup
  | 3%nat =>
      is_to ← text_is tokens 1 "to";
      if is_to : bool then path ← text_at tokens 2; Ok (CmdBackupTo path)
      else
        is_verify ← text_is tokens 1 "verify";
        is_from ← text_is tokens 2 "from";
        if is_verify && negb is_from
        then dump ← text_at tokens 2; Ok (CmdBackupVerify dump)
        else usage
  | 4%nat =>
      is_verify ← text_is tokens 1 "verify";
      is_from ← text_is tokens 2 "from";
      if is_verify && is_from then path ← text_at tokens 3; Ok (CmdBackupVerifyFrom path)
      else usage
  | _ => usage
  end.

Definition parse_metrics (tokens : list Token) : outcome CommandError Command :=
  match length tokens with
  | 1%nat => Ok CmdMetrics
  | 2%nat =>
      is_prom ← text_is tokens 1 "prom";
      if is_prom : bool then Ok CmdMetricsProm else fail (InvalidArity "metrics [prom]")
  | _ => fail (InvalidArity "metrics [prom]")
  end.

Definition parse_restore (tokens : list Token) : outcome CommandError Command :=
  let usage := fail (InvalidArity "restore <logical-dump-json> | restore from <path> | restore check <logical-dump-json> | restore check from <path>") in
  match length tokens with
  | 2%nat => dump ← text_at tokens 1; Ok (CmdRestore dump)
  | 3%nat =>
      is_from ← text_is tokens 1 "from";
      if is_from : bool then path ← text_at tokens 2; Ok (CmdRestoreFrom path)
      else
        is_check ← text_is tokens 1 "check";
        is_from2 ← text_is tokens 2 "from";
        if is_check && negb is_from2
        then dump ← text_at tokens 2; Ok (CmdRestoreCheck dump)
        else usage
  | 4%nat =>
      is_check ← text_is tokens 1 "check";
      is_from2 ← text_is tokens 2 "from";
      if is_check && is_from2 then path ← text_at tokens 3; Ok (CmdRestoreCheckFrom path)
      else usage
  | _ => usage
  end.

Definition parse_maintenance (tokens : list Token) : outcome CommandError Command :=
  _ ← expect_len tokens 2 "maintenance <on|off|status>";
  word ← text_at tokens 1;
  let word := to_ascii_lowercase word in
  if String.eqb word "on" then Ok CmdMaintenanceOn
  else if String.eqb word "off" then Ok CmdMaintenanceOff
  else if String.eqb word "status" then Ok CmdMaintenanceStatus
  else fail (InvalidArity "maintenance <on|off|status>").

Definition parse_promote (tokens : list Token) : outcome CommandError Command :=
  _ ← expect_len tokens 2 "promote follower";
  word ← text_at tokens 1;
  if String.eqb (to_ascii_lowercase word) "follower" then Ok CmdPromoteFollower
  else fail (InvalidArity "promote follower").

Definition parse_cluster (tokens : list Token) : outcome CommandError Command :=
  if Nat.ltb (length tokens) 2 then fail (InvalidArity "cluster <join|remove> ...")
  else
    word ← text_at tokens 1;
    let word := to_ascii_lowercase word in
    if String.eqb word "join" then
      _ ← expect_len tokens 4 "cluster join <node-id> <host:port>";
      node_id ← text_at tokens 2;
      address ← text_at tokens 3;
      Ok (CmdClusterJoin node_id address)
    else if String.eqb word "remove" then
      _ ← expect_len tokens 3 "cluster remove <node-id>";
      node_id ← text_at tokens 2;
      Ok (CmdClusterRemove node_id)
    else fail (InvalidOption "cluster" word).

Definition parse_replication_toggle (tokens : list Token) (pause : bool)
    : outcome CommandError Command :=
  let usage := if pause then "pause replication" else "resume replication" in
  _ ← expect_len tokens 2 usage;
  word ← text_at tokens 1;
  if String.eqb (to_ascii_lowercase word) "replication"
  then Ok (if pause then CmdPauseReplication else CmdResumeReplication)
  else fail (InvalidArity usage).

Definition parse_alter (tokens : list Token) : outcome CommandError Command :=
  _ ← expect_len tokens 5 "alter user <username> password <password>";
  is_user ← text_is tokens 1 "user";
  is_password ← text_is tokens 3 "password";
  if negb is_user || negb is_password then
    fail (InvalidArity "alter user <username> password <password>")
  else
    username ← text_at tokens 2;
    password ← text_at tokens 4;
    Ok (CmdAlterUserPassword username password).

Definition parse_create (tokens : list Token) : outcome CommandError Command :=
  if Nat.ltb (length tokens) 3 then
    fail (InvalidArity "create user <username> password <password> | create role <role>")
  else
    word ← text_at tokens 1;
    let word := to_ascii_lowercase word in
    if String.eqb word "user" then
      _ ← expect_len tokens 5 "create user <username> password <password>";
      is_password ← text_is tokens 3 "password";
      if negb is_password then
        fail (InvalidArity "create user <username> password <password>")
      else
        username ← text_at tokens 2;
        password ← text_at tokens 4;
        Ok (CmdCreateUser username password)
    else if String.eqb word "role" then
      _ ← expect_len tokens 3 "create role <role>";
      role ← text_at tokens 2;
      Ok (CmdCreateRole role)
    else fail (InvalidOption "create" word).

Definition parse_drop (tokens : list Token) : outcome CommandError Command :=
  if Nat.ltb (length tokens) 3 then
    fail (InvalidArity "drop user <username> | drop role <role>")
  else
    word ← text_at tokens 1;
    let word := to_ascii_lowercase word in
    if String.eqb word "user" then
      _ ← expect_len tokens 3 "drop user <username>";
      username ← text_at tokens 2;
      Ok (CmdDropUser username)
    else if String.eqb word "role" then
      _ ← expect_len tokens 3 "drop role <role>";
      role ← text_at tokens 2;
      Ok (CmdDropRole role)
    else fail (InvalidOption "drop" word).

Definition parse_grant (tokens : list Token) : outcome CommandError Command :=
  match length tokens with
  | 5%nat =>
      word ← text_at tokens 1;
      is_to ← text_is tokens 3 "to";
      let word := to_ascii_lowercase word in
      if String.eqb word "role" && is_to then
        role ← text_at tokens 2; username ← text_at tokens 4; Ok (CmdGrantRole role username)
      else if String.eqb word "permission" && is_to then
        permission ← text_at tokens 2; role ← text_at tokens 4;
        Ok (CmdGrantPermission permission "*" role)
      else fail (InvalidOption "grant" word)
  | 7%nat =>
      word ← text_at tokens 1;
      is_on ← text_is tokens 3 "on";
      is_to ← text_is tokens 5 "to";
      let word := to_ascii_lowercase word in
      if String.eqb word "permission" && is_on && is_to then
        permission ← text_at tokens 2; pattern ← text_at tokens 4; role ← text_at tokens 6;
        Ok (CmdGrantPermission permission pattern role)
      else fail (InvalidOption "grant" word)
  | _ => fail (InvalidArity "grant role <role> to <username> | grant permission <permission> [on <pattern>] to <role>")
  end.

Definition parse_revoke (tokens : list Token) : outcome CommandError Command :=
  match length tokens with
  | 5%nat =>
      word ← text_at tokens 1;
      is_from ← text_is tokens 3 "from";
      let word := to_ascii_lowercase word in
      if String.eqb word "role" && is_from then
        role ← text_at tokens 2; username ← text_at tokens 4; Ok (CmdRevokeRole role username)
      else if String.eqb word "permission" && is_from then
        permission ← text_at tokens 2; role ← text_at tokens 4;
        Ok (CmdRevokePermission permission "*" role)
      else fail (InvalidOption "revoke" word)
  | 7%nat =>
      word ← text_at tokens 1;
      is_on ← text_is tokens 3 "on";
      is_from ← text_is tokens 5 "from";
      let word := to_ascii_lowercase word in
      if String.eqb word "permission" && is_on && is_from then
        permission ← text_at tokens 2; pattern ← text_at tokens 4; role ← text_at tokens 6;
        Ok (CmdRevokePermission permission pattern role)
      else fail (InvalidOption "revoke" word)
  | _ => fail (InvalidArity "revoke role <role> from <username> | revoke permission <permission> [on <pattern>] from <role>")
  end.

Definition parse_show (tokens : list Token) : outcome CommandError Command :=
  match length tokens with
  | 2%nat =>
      word ← text_at tokens 1;
      let word := to_ascii_lowercase word in
      if String.eqb word "users" then Ok CmdShowUsers
      else if String.eqb word "roles" then Ok CmdShowRoles
      else if String.eqb word "grants" then Ok CmdShowGrants
      else if String.eqb word "replication" then Ok CmdShowReplication
      else if String.eqb word "cluster" then Ok CmdShowCluster
      else fail (InvalidOption "show" word)
  | 5%nat =>
      word ← text_at tokens 1;
      is_for ← text_is tokens 2 "for";
      is_user ← text_is tokens 3 "user";
      is_role ← text_is tokens 3 "role";
      let word := to_ascii_lowercase word in
      if String.eqb word "grants" && is_for && is_user then
        username ← text_at tokens 4; Ok (CmdShowGrantsForUser username)
      else if String.eqb word "grants" && is_for && is_role then
        role ← text_at tokens 4; Ok (CmdShowGrantsForRole role)
      else fail (InvalidOption "show" word)
  | _ => fail (InvalidArity "show users | show roles | show grants | show grants for user <username> | show grants for role <role> | show replication | show cluster")
  end.

(** The [match] of [Parser::parse] on the lower-cased first token. *)
Definition parse_tokens (command : string) (tokens : list Token) : outcome CommandError Command :=
  let cmd_is w := String.eqb command w in
  if cmd_is "auth" then parse_auth tokens
  else if cmd_is "ping" then parse_ping tokens
  else if cmd_is "get" then parse_get tokens
  else if cmd_is "set" then parse_set tokens
  else if cmd_is "setnx" then parse_setnx tokens
  else if cmd_is "getdel" then parse_single_key tokens "getdel <key>" CmdGetDel
  else if cmd_is "getex" then parse_getex tokens
  else if cmd_is "mget" then parse_mget tokens
  else if cmd_is "mset" then parse_mset tokens
  else if cmd_is "del" || cmd_is "delete" then parse_delete tokens
  else if cmd_is "exists" then parse_exists tokens
  else if cmd_is "incr" then parse_single_key tokens "incr <key>" CmdIncr
  else if cmd_is "decr" then parse_single_key tokens "decr <key>" CmdDecr
  else if cmd_is "expire" then parse_expire tokens
  else if cmd_is "ttl" then parse_single_key tokens "ttl <key>" CmdTtl
  else if cmd_is "persist" then parse_single_key tokens "persist <key>" CmdPersist
  else if cmd_is "rename" then parse_rename tokens false
  else if cmd_is "renamenx" then parse_rename tokens true
  else if cmd_is "scan" then parse_scan tokens
  else if cmd_is "dbsize" then parse_no_args tokens CmdDbSize "dbsize"
  else if cmd_is "count" then parse_no_args tokens CmdCount "count"
  else if cmd_is "info" then parse_no_args tokens CmdInfo "info"
  else if cmd_is "metrics" then parse_metrics tokens
  else if cmd_is "list" then parse_no_args tokens CmdList "list"
  else if cmd_is "clear" then parse_no_args tokens CmdClear "clear"
  else if cmd_is "flushdb" then parse_no_args tokens CmdClear "flushdb"
  else if cmd_is "help" then parse_no_args tokens CmdHelp "help"
  else if cmd_is "exit" || cmd_is "quit" then parse_no_args tokens CmdExit "exit"
  else if cmd_is "save" then parse_no_args tokens CmdSave "save"
  else if cmd_is "snapshot" then parse_no_args tokens CmdSnapshot "snapshot"
  else if cmd_is "backup" then parse_backup tokens
  else if cmd_is "restore" then parse_restore tokens
  else if cmd_is "alter" then parse_alter tokens
  else if cmd_is "create" then parse_create tokens
  else if cmd_is "drop" then parse_drop tokens
  else if cmd_is "grant" then parse_grant tokens
  else if cmd_is "revoke" then parse_revoke tokens
  else if cmd_is "show" then parse_show tokens
  else if cmd_is "whoami" then parse_no_args tokens CmdWhoAmI "whoami"
  else if cmd_is "multi" then parse_no_args tokens CmdMulti "multi"
  else if cmd_is "exec" then parse_no_args tokens CmdExec "exec"
  else if cmd_is "discard" then parse_no_args tokens CmdDiscard "discard"
  else if cmd_is "maintenance" then parse_maintenance tokens
  else if cmd_is "health" then parse_no_args tokens CmdHealth "health"
  else if cmd_is "cluster" then parse_cluster tokens
  else if cmd_is "promote" then parse_promote tokens
  else if cmd_is "pause" then parse_replication_toggle tokens true
  else if cmd_is "resume" then parse_replication_toggle tokens false
  else fail (UnknownCommand command).

Definition parse (input : string) : outcome CommandError Command :=
  tokens ← tokenize input;
  match tokens with
  | [] => fail EmptyCommand
  | _ =>
      command ← text_at tokens 0;
      parse_tokens (to_ascii_lowercase command) tokens
  end.

(** ** The parser returns *)

(** Splits the token slice into its first elements, then evaluates. *)
Ltac split_tokens tokens :=
  do 8 (try (destruct tokens as [|? tokens]; [|])); cbn; repeat case_match; try done.

Lemma parse_following_u64_returns f field usage : returns (parse_following_u64 f field usage).
Proof. unfold parse_following_u64, parse_u64. by repeat case_match. Qed.

Lemma parse_set_options_returns rest options : returns (parse_set_options rest options).
Proof.
  revert options. induction rest as [rest IH] using (induction_ltof1 _ (@length Token)).
  intros options. destruct rest as [|t rest]; [done|]. unfold ltof in IH. cbn [parse_set_options].
  repeat case_match; try done; subst;
    repeat (apply returns_bind; [apply parse_following_u64_returns || (unfold set_condition, set_expiration; by repeat case_match)|intros ? _]);
    repeat case_match; try done; apply IH; cbn; lia.
Qed.

Lemma parse_getex_options_returns rest expiration persist :
  returns (parse_getex_options rest expiration persist).
Proof.
  revert expiration persist. induction rest as [rest IH] using (induction_ltof1 _ (@length Token)).
  intros expiration persist. destruct rest as [|t rest]; [done|]. unfold ltof in IH.
  cbn [parse_getex_options].
  repeat case_match; try done; subst;
    repeat (apply returns_bind; [apply parse_following_u64_returns|intros ? _]);
    repeat case_match; try done; apply IH; cbn; lia.
Qed.

Lemma parse_scan_options_returns rest pattern count : returns (parse_scan_options rest pattern count).
Proof.
  revert pattern count. induction rest as [rest IH] using (induction_ltof1 _ (@length Token)).
  intros pattern count. destruct rest as [|t rest]; [done|]. unfold ltof in IH.
  cbn [parse_scan_options].
  repeat case_match; try done; subst;
    repeat (apply returns_bind;
            [unfold parse_following_u16, parse_u16; by repeat case_match|intros ? _]);
    repeat case_match; try done; apply IH; cbn; lia.
Qed.

Lemma parse_mset_entries_returns rest :
  Nat.even (length rest) = true -> returns (parse_mset_entries rest).
Proof.
  induction rest as [rest IH] using (induction_ltof1 _ (@length Token)). unfold ltof in IH.
  destruct rest as [|t [|u rest]]; [done..|]. intros H. cbn [parse_mset_entries].
  apply returns_bind; [|done]. apply IH; [cbn; lia | done].
Qed.

Lemma parse_set_returns tokens : returns (parse_set tokens).
Proof.
  unfold parse_set. case_match eqn:H; [done|]. apply Nat.ltb_ge in H.
  destruct tokens as [|a [|b [|c tokens]]]; cbn in H; try lia. cbn.
  apply returns_bind; [apply parse_set_options_returns | done].
Qed.

Lemma parse_getex_returns tokens : returns (parse_getex tokens).
Proof.
  unfold parse_getex. case_match eqn:H; [|done].
  destruct tokens as [|a [|b tokens]]; [done..|]. cbn.
  apply returns_bind; [apply parse_getex_options_returns | by intros []].
Qed.

Lemma parse_mset_returns tokens : returns (parse_mset tokens).
Proof.
  unfold parse_mset. case_match eqn:H; [done|].
  apply orb_false_iff in H as [H1 H2]. apply returns_bind; [|done].
  apply parse_mset_entries_returns. destruct tokens as [|a tokens]; [done|].
  cbn [length] in H2. rewrite Nat.even_succ in H2. by apply negb_false_iff in H2.
Qed.

Lemma parse_scan_returns tokens : returns (parse_scan tokens).
Proof.
  unfold parse_scan. case_match eqn:H; [done|].
  destruct tokens as [|a [|b tokens]]; [done..|]. cbn.
  apply returns_bind; [unfold parse_u64; by repeat case_match|]. intros cursor _.
  apply returns_bind; [apply parse_scan_options_returns | by intros []].
Qed.

Lemma parse_fixed_returns tokens :
  returns (parse_auth tokens) /\ returns (parse_ping tokens) /\ returns (parse_get tokens) /\
  returns (parse_setnx tokens) /\ returns (parse_exists tokens) /\
  returns (parse_expire tokens) /\ (forall nx, returns (parse_rename tokens nx)) /\
  returns (parse_backup tokens) /\ returns (parse_metrics tokens) /\
  returns (parse_restore tokens) /\ returns (parse_maintenance tokens) /\
  returns (parse_promote tokens) /\ returns (parse_cluster tokens) /\
  (forall pause, returns (parse_replication_toggle tokens pause)) /\
  returns (parse_alter tokens) /\ returns (parse_create tokens) /\
  returns (parse_drop tokens) /\ returns (parse_grant tokens) /\
  returns (parse_revoke tokens) /\ returns (parse_show tokens) /\
  (forall usage f, returns (parse_single_key tokens usage f)) /\
  (forall c usage, returns (parse_no_args tokens c usage)).
Proof.
  repeat split; intros; split_tokens tokens. unfold parse_u64. by case_match.
Qed.

Lemma parse_tokens_returns command tokens : returns (parse_tokens command tokens).
Proof.
  pose proof (parse_fixed_returns tokens) as H. destruct_and! H.
  unfold parse_tokens.
  repeat (case_match; [first [done | by auto | apply parse_set_returns | apply parse_getex_returns
    | apply parse_mset_returns | apply parse_scan_returns
    | (unfold parse_mget, parse_delete; by case_match)]|]). done.
Qed.

Lemma parse_returns input : returns (parse input).
Proof.
  apply returns_bind; [apply tokenize_returns|]. intros [|t ts] _; [done|].
  cbn. apply parse_tokens_returns.
Qed.

(** ** What the parser returns *)


Section typed.
Context (tokens : list Token) (Htok : Forall token_ok tokens).

Lemma token_text_ok t : token_ok t -> str_ok (token_text t).
Proof using. destruct t; cbn; naive_solver. Qed.

Lemma text_at_ok i s : text_at tokens i = Ok s -> str_ok s.
Proof.
  unfold text_at, index. destruct (tokens !! i) as [t|] eqn:E; [|done]. intros [= <-].
  apply token_text_ok. by eapply Forall_lookup_1.
Qed.

Lemma text_drop_ok n : Forall str_ok (token_text <$> drop n tokens).
Proof.
  apply Forall_fmap. eapply Forall_impl; [by apply Forall_drop | apply token_text_ok].
Qed.

Lemma parse_u64_ok field t z : parse_u64 field t = Ok z -> is_u64 z.
Proof using.
  unfold parse_u64. destruct (parse_uint _ _) eqn:E; [|done]. intros [= <-].
  by apply parse_uint_range in E.
Qed.

Lemma parse_u16_ok field t z : parse_u16 field t = Ok z -> is_u16 z.
Proof using.
  unfold parse_u16. destruct (parse_uint _ _) eqn:E; [|done]. intros [= <-].
  by apply parse_uint_range in E.
Qed.

Lemma parse_following_u64_ok f field usage z : parse_following_u64 f field usage = Ok z -> is_u64 z.
Proof using. unfold parse_following_u64. case_match; [apply parse_u64_ok | done]. Qed.

End typed.

#[export] Hint Resolve text_at_ok text_drop_ok parse_u64_ok parse_u16_ok
  parse_following_u64_ok : vaylix.

Definition set_options_wf (o : SetOptions) : Prop :=
  SetOptions_typed o /\ SetOptions_consistent o.

Lemma set_condition_ok cmd o c o' :
  set_condition cmd o c = Ok o' -> set_options_wf o -> set_options_wf o'.
Proof.
  destruct o as [[] [] ? ? ?]; cbn; intros H; inv_ok; done.
Qed.

Lemma set_expiration_ok cmd o e o' :
  set_expiration cmd o e = Ok o' -> expiration_typed e -> set_options_wf o -> set_options_wf o'.
Proof.
  destruct o as [? ? [] [] ?]; cbn; intros H He; inv_ok; try done.
  unfold set_options_wf, SetOptions_typed, SetOptions_consistent. cbn. naive_solver.
Qed.

Lemma parse_set_options_ok rest o o' :
  parse_set_options rest o = Ok o' -> set_options_wf o -> set_options_wf o'.
Proof.
  revert o. induction rest as [rest IH] using (induction_ltof1 _ (@length Token)).
  unfold ltof in IH. intros o H Hwf.
  destruct rest as [|t rest]; [cbn in H; congruence|]. cbn [parse_set_options] in H.
  destruct (String.eqb _ "nx").
  { inv_ok. eapply IH; [|exact H|]; [cbn; lia|]. by eapply set_condition_ok. }
  destruct (String.eqb _ "xx").
  { inv_ok. eapply IH; [|exact H|]; [cbn; lia|]. by eapply set_condition_ok. }
  destruct (String.eqb _ "if").
  { destruct rest as [|u rest]; [done|]. destruct (eq_ignore_ascii_case _ _); [|done].
    destruct o as [[] iv e k r]; cbn in H; [done|]. inv_ok.
    destruct iv; cbn in H; [done|]. destruct rest as [|w rest]; cbn in H; [congruence|].
    eapply IH; [|exact H|]; [cbn; lia|]. destruct Hwf as [[_ He] [_ Hk]].
    split; split; cbn; eauto with vaylix. }
  destruct (String.eqb _ "ex").
  { inv_ok. destruct rest; [done|]; (eapply IH; [|exact H|]; [cbn; lia|]);
      (eapply set_expiration_ok; [eassumption|cbn; eauto with vaylix|done]). }
  destruct (String.eqb _ "px").
  { inv_ok. destruct rest; [done|]; (eapply IH; [|exact H|]; [cbn; lia|]);
      (eapply set_expiration_ok; [eassumption|cbn; eauto with vaylix|done]). }
  destruct Hwf as [[Hv He] [Hc Hk]]. destruct o as [c iv e k r]; cbn in *.
  destruct (String.eqb _ "keepttl").
  { destruct k, e; cbn in *; try done. eapply IH; [|exact H|]; [cbn; lia|]. by split; split. }
  destruct (String.eqb _ "get"); [|done].
  destruct r; [done|]. eapply IH; [|exact H|]; [cbn; lia|]. by split; split.
Qed.

Lemma parse_getex_options_ok rest e p e' p' :
  parse_getex_options rest e p = Ok (e', p') ->
  option_ok expiration_typed e /\ p && is_some e = false ->
  option_ok expiration_typed e' /\ p' && is_some e' = false.
Proof.
  revert e p. induction rest as [rest IH] using (induction_ltof1 _ (@length Token)).
  unfold ltof in IH. intros e p H Hwf.
  destruct rest as [|t rest]; [cbn in H; congruence|]. cbn [parse_getex_options] in H.
  destruct (String.eqb _ "ex").
  { destruct p, e; cbn in H; try done. inv_ok. destruct rest; [done|].
    eapply IH; [|exact H|]; [cbn; lia|]. split; cbn; eauto with vaylix. }
  destruct (String.eqb _ "px").
  { destruct p, e; cbn in H; try done. inv_ok. destruct rest; [done|].
    eapply IH; [|exact H|]; [cbn; lia|]. split; cbn; eauto with vaylix. }
  destruct (String.eqb _ "persist"); [|done].
  destruct p, e; cbn in H; try done. eapply IH; [|exact H|]; [cbn; lia|]. by split.
Qed.

Lemma parse_scan_options_ok rest p n p' n' :
  Forall token_ok rest -> parse_scan_options rest p n = Ok (p', n') ->
  option_ok str_ok p /\ option_ok is_u16 n -> option_ok str_ok p' /\ option_ok is_u16 n'.
Proof.
  revert p n. induction rest as [rest IH] using (induction_ltof1 _ (@length Token)).
  unfold ltof in IH. intros p n Hok H [Hp Hn].
  destruct rest as [|t rest]; [cbn in H; naive_solver|]. cbn [parse_scan_options] in H.
  apply Forall_cons in Hok as [_ Hok]. destruct (String.eqb _ "match").
  { destruct p; [done|]. cbn in H. destruct rest as [|u rest]; [done|].
    apply Forall_cons in Hok as [Hu Hok]. eapply IH; [| |exact H|]; [cbn; lia|done|].
    split; [|done]. by apply token_text_ok. }
  destruct (String.eqb _ "count"); [|done].
  destruct n; [done|]. cbn in H. inv_ok. destruct rest as [|u rest]; [done|].
  apply Forall_cons in Hok as [Hu Hok]. eapply IH; [| |exact H|]; [cbn; lia|done|].
  split; [done|]. cbn in *. eauto with vaylix.
Qed.

Lemma parse_mset_entries_ok rest es :
  Forall token_ok rest -> parse_mset_entries rest = Ok es ->
  Forall str_ok (es.*1) /\ length rest = (2 * length es)%nat.
Proof.
  revert es. induction rest as [rest IH] using (induction_ltof1 _ (@length Token)).
  unfold ltof in IH. intros es Hok H. destruct rest as [|t [|u rest]]; [by simplify_eq/=|done|].
  cbn [parse_mset_entries] in H. inv_ok. apply Forall_cons in Hok as [Ht Hok].
  apply Forall_cons in Hok as [_ Hok].
  destruct (IH rest ltac:(cbn; lia) _ Hok ltac:(eassumption)) as [H1 H2]. cbn. split; [|lia].
  constructor; [by apply token_text_ok | done].
Qed.

(** What the parser promises of a command. *)
Definition command_wf (c : Command) : Prop := command_typed c /\ command_consistent c.

(** Splits a successful parse on the conditions it passed. *)
Ltac inv_parse :=
  repeat match goal with
  | H : (match ?x with _ => _ end) = Ok _ |- _ => destruct x eqn:?; try discriminate H
  | H : (let _ := _ in _) = Ok _ |- _ => cbv zeta in H
  | _ => progress inv_ok
  end.

Section parse_wf.
Context (tokens : list Token) (Htok : Forall token_ok tokens) (c : Command).

Lemma parse_set_wf : parse_set tokens = Ok c -> command_wf c.
Proof.
  unfold parse_set. intros H. inv_parse.
  match goal with H : parse_set_options _ _ = Ok _ |- _ => apply parse_set_options_ok in H as [] end;
    [|by split; split].
  split; [split|]; cbn; eauto with vaylix.
Qed.

Lemma parse_getex_wf : parse_getex tokens = Ok c -> command_wf c.
Proof.
  unfold parse_getex. intros H. inv_parse.
  match goal with H : parse_getex_options _ _ _ = Ok _ |- _ =>
    apply parse_getex_options_ok in H as [] end; [|by split].
  split; [split|]; cbn; eauto with vaylix.
Qed.

Lemma parse_scan_wf : parse_scan tokens = Ok c -> command_wf c.
Proof.
  unfold parse_scan. intros H. inv_parse.
  match goal with H : parse_scan_options _ _ _ = Ok _ |- _ =>
    apply parse_scan_options_ok in H as []; [|by apply Forall_drop|by split] end.
  split; [split_and!|]; cbn; eauto with vaylix.
Qed.

Lemma parse_mset_wf : parse_mset tokens = Ok c -> command_wf c.
Proof.
  unfold parse_mset. intros H. inv_parse.
  match goal with H : parse_mset_entries _ = Ok _ |- _ =>
    apply parse_mset_entries_ok in H as [? Hl]; [|by apply Forall_drop] end.
  split; cbn; [done|]. intros ->.
  rewrite length_drop in Hl. cbn in Hl.
  match goal with H : _ || _ = false |- _ => apply orb_false_iff in H as [?%Nat.ltb_ge _] end. lia.
Qed.

Lemma parse_keys_wf :
  (parse_mget tokens = Ok c -> command_wf c) /\ (parse_delete tokens = Ok c -> command_wf c).
Proof.
  unfold parse_mget, parse_delete.
  destruct tokens as [|a [|b l]]; cbn; split; try done; intros H; inv_ok;
    (split; cbn; [|done]); exact (text_drop_ok _ Htok 1).
Qed.

Lemma parse_fixed_wf :
  (parse_auth tokens = Ok c -> command_wf c) /\ (parse_ping tokens = Ok c -> command_wf c) /\
  (parse_get tokens = Ok c -> command_wf c) /\ (parse_setnx tokens = Ok c -> command_wf c) /\
  (parse_exists tokens = Ok c -> command_wf c) /\ (parse_expire tokens = Ok c -> command_wf c) /\
  (forall nx, parse_rename tokens nx = Ok c -> command_wf c) /\
  (parse_metrics tokens = Ok c -> command_wf c) /\ (parse_backup tokens = Ok c -> command_wf c) /\
  (parse_restore tokens = Ok c -> command_wf c) /\ (parse_alter tokens = Ok c -> command_wf c) /\
  (parse_create tokens = Ok c -> command_wf c) /\ (parse_drop tokens = Ok c -> command_wf c).
Proof.
  unfold command_wf, parse_auth, parse_ping, parse_get, parse_setnx, parse_exists, parse_expire,
    parse_rename, parse_metrics, parse_backup, parse_restore, parse_alter, parse_create, parse_drop.
  repeat split; intros; inv_parse; try case_match; try done; cbn; eauto with vaylix.
Qed.

Lemma parse_admin_wf :
  (parse_maintenance tokens = Ok c -> command_wf c) /\
  (parse_promote tokens = Ok c -> command_wf c) /\ (parse_cluster tokens = Ok c -> command_wf c) /\
  (forall pause, parse_replication_toggle tokens pause = Ok c -> command_wf c) /\
  (parse_grant tokens = Ok c -> command_wf c) /\ (parse_revoke tokens = Ok c -> command_wf c) /\
  (parse_show tokens = Ok c -> command_wf c).
Proof.
  unfold command_wf, parse_maintenance, parse_promote, parse_cluster, parse_replication_toggle,
    parse_grant, parse_revoke, parse_show.
  repeat split; intros; inv_parse; try case_match; try done; cbn; split_and?; done || eauto with vaylix.
Qed.

Lemma parse_single_key_wf usage f :
  (forall k, str_ok k -> command_wf (f k)) ->
  parse_single_key tokens usage f = Ok c -> command_wf c.
Proof. unfold parse_single_key. intros Hf H. inv_parse. eauto with vaylix. Qed.

Lemma parse_no_args_wf d usage :
  command_wf d -> parse_no_args tokens d usage = Ok c -> command_wf c.
Proof using. unfold parse_no_args. intros Hd H. by inv_parse. Qed.

Lemma parse_tokens_wf command : parse_tokens command tokens = Ok c -> command_wf c.
Proof.
  pose proof parse_fixed_wf as HF. pose proof parse_admin_wf as HA.
  pose proof parse_keys_wf as HK. destruct_and! HF. destruct_and! HA. destruct_and! HK.
  unfold parse_tokens. cbv zeta.
  repeat (case_match; [first [eassumption | apply parse_set_wf | apply parse_getex_wf
    | apply parse_mset_wf | apply parse_scan_wf | by eauto
    | (apply parse_single_key_wf; by repeat split) | (apply parse_no_args_wf; by split)]|]).
  done.
Qed.

End parse_wf.

(** A parsed command is well typed and has no contradictory modifiers. *)
Lemma parse_wf input c : str_ok input -> parse input = Ok c -> command_wf c.
Proof.
  unfold parse. intros Hin (tokens & Ht & H)%result_bind_ok.
  apply tokenize_ok in Ht; [|done]. destruct tokens as [|t ts]; [done|]. cbn in H.
  by eapply parse_tokens_wf in H.
Qed.
