(* ===== verification/Wire.v ===== *)
(** * Wire: buffers of the transport crate
      (crates/transport/src/error.rs, request/primitives.rs, response/primitives.rs)

    A [&mut &[u8]] that is read is the state of a [reader], a [&mut BytesMut]
    that is written the state of a [writer].  [bytes::Buf] panics when it is
    read past its end, so readers can panic; the primitives check first.  The
    two [primitives.rs] of the source have the same text. *)

From S2P Require Import Prelude Text.

(** ** Errors *)

Inductive TransportError :=
| TrnInvalidFrame
| TrnUnknownOpcode (value : Z)
| TrnUnknownStatus (value : Z)
| TrnUnsupportedCommand (command : string)
| TrnVersionMismatch (expected actual : Z)
| TrnFrameTooLarge (length max : Z)
| TrnUnexpectedEof
| TrnCorruptedPayload
| TrnChecksumMismatch (expected actual : Z)
| TrnUnsupportedFlags (flags : Z)
| TrnCompressionFailure
| TrnInvalidUtf8
| TrnIo (message : string)
| TrnNegotiationFailed (reason : string)
| TrnCapabilityMismatch (reason : string)
| TrnDeadlineExceeded
| TrnDecompressedFrameTooLarge (length max : Z)
| TrnProtocolStateViolation (reason : string).

#[export] Instance TransportError_eq_dec : EqDecision TransportError.
Proof. solve_decision. Defined.

Definition TransportError_code (e : TransportError) : string :=
  match e with
  | TrnInvalidFrame => "TRN-001"
  | TrnUnknownOpcode _ => "TRN-002"
  | TrnUnknownStatus _ => "TRN-003"
  | TrnUnsupportedCommand _ => "TRN-004"
  | TrnVersionMismatch _ _ => "TRN-005"
  | TrnFrameTooLarge _ _ => "TRN-006"
  | TrnUnexpectedEof => "TRN-007"
  | TrnCorruptedPayload => "TRN-008"
  | TrnChecksumMismatch _ _ => "TRN-009"
  | TrnUnsupportedFlags _ => "TRN-010"
  | TrnCompressionFailure => "TRN-011"
  | TrnInvalidUtf8 => "TRN-012"
  | TrnIo _ => "TRN-013"
  | TrnNegotiationFailed _ => "TRN-014"
  | TrnCapabilityMismatch _ => "TRN-015"
  | TrnDeadlineExceeded => "TRN-016"
  | TrnDecompressedFrameTooLarge _ _ => "TRN-017"
  | TrnProtocolStateViolation _ => "TRN-018"
  end.

Definition TransportError_name (e : TransportError) : string :=
  match e with
  | TrnInvalidFrame => "Invalid Frame"
  | TrnUnknownOpcode _ => "Unknown Opcode"
  | TrnUnknownStatus _ => "Unknown Status"
  | TrnUnsupportedCommand _ => "Unsupported Command"
  | TrnVersionMismatch _ _ => "Version Mismatch"
  | TrnFrameTooLarge _ _ => "Frame Too Large"
  | TrnUnexpectedEof => "Unexpected End Of Frame"
  | TrnCorruptedPayload => "Corrupted Payload"
  | TrnChecksumMismatch _ _ => "Checksum Mismatch"
  | TrnUnsupportedFlags _ => "Unsupported Frame Flags"
  | TrnCompressionFailure => "Compression Failure"
  | TrnInvalidUtf8 => "Invalid UTF-8 Payload"
  | TrnIo _ => "Transport I/O Failure"
  | TrnNegotiationFailed _ => "Protocol Negotiation Failed"
  | TrnCapabilityMismatch _ => "Transport Capability Mismatch"
  | TrnDeadlineExceeded => "Request Deadline Exceeded"
  | TrnDecompressedFrameTooLarge _ _ => "Decompressed Frame Too Large"
  | TrnProtocolStateViolation _ => "Protocol State Violation"
  end.

(** [Display]. *)
Definition TransportError_text (e : TransportError) : string :=
  let code (value : Z) := "0x" +:+ hex (to_be 1 value) in
  let checksum (value : Z) := "0x" +:+ upper_hex (to_be 4 value) in
  let too_large (length max : Z) :=
    " too large: " +:+ int_to_string length +:+ " bytes exceeds maximum " +:+ int_to_string max +:+ " bytes" in
  match e with
  | TrnInvalidFrame => "invalid frame"
  | TrnUnknownOpcode value => "unknown opcode: " +:+ code value
  | TrnUnknownStatus value => "unknown status: " +:+ code value
  | TrnUnsupportedCommand command => "unsupported command for transport: " +:+ command
  | TrnVersionMismatch expected actual =>
      "protocol version mismatch: expected " +:+ int_to_string expected +:+ ", got " +:+ int_to_string actual
  | TrnFrameTooLarge length max => "frame" +:+ too_large length max
  | TrnUnexpectedEof => "unexpected end of input"
  | TrnCorruptedPayload => "corrupted payload"
  | TrnChecksumMismatch expected actual =>
      "frame checksum mismatch: expected " +:+ checksum expected +:+ ", got " +:+ checksum actual
  | TrnUnsupportedFlags flags => "unsupported frame flags: " +:+ code flags
  | TrnCompressionFailure => "frame compression failure"
  | TrnInvalidUtf8 => "invalid utf-8 in payload"
  | TrnIo message => "i/o error: " +:+ message
  | TrnNegotiationFailed reason => "protocol negotiation failed: " +:+ reason
  | TrnCapabilityMismatch reason => "transport capability mismatch: " +:+ reason
  | TrnDeadlineExceeded => "request deadline exceeded"
  | TrnDecompressedFrameTooLarge length max => "decompressed frame" +:+ too_large length max
  | TrnProtocolStateViolation reason => "protocol state violation: " +:+ reason
  end.

Create HintDb wire.

(** ** Buffers *)

Notation reader := (fallible (list byte) (fault TransportError)).
Notation writer := (fallible (list byte) TransportError unit).

Definition raise {A} (e : TransportError) : reader A := mfail (Raised e).

(** [BufMut::put_u8] to [put_u64]; [n] is the width in bytes. *)
Definition put_uint (n : nat) (z : Z) : writer := mmodify (fun buf => buf ++ to_be n z).
Definition put_u8 : Z -> writer := put_uint 1.
Definition put_u16 : Z -> writer := put_uint 2.
Definition put_u32 : Z -> writer := put_uint 4.
Definition put_u64 : Z -> writer := put_uint 8.
Definition put_i64 (z : Z) : writer := put_uint 8 (z mod 2 ^ 64).
Definition extend_from_slice (bs : list byte) : writer := mmodify (fun buf => buf ++ bs).

(** [Buf::get_u8] to [get_u64] and [copy_to_bytes]. *)
Definition copy_to_bytes (n : nat) : reader (list byte) :=
  fun buf => if Nat.ltb (length buf) n then (buf, panic) else (drop n buf, Ok (take n buf)).
Definition get_uint (n : nat) : reader Z := bs ← copy_to_bytes n; mret (from_be bs).
Definition get_u8 : reader Z := get_uint 1.
Definition get_u16 : reader Z := get_uint 2.
Definition get_u32 : reader Z := get_uint 4.
Definition get_u64 : reader Z := get_uint 8.
Definition get_i64 : reader Z := z ← get_u64; mret (as_i64 z).

(** [if buf.remaining() < n { return Err(UnexpectedEof) }]. *)
Definition need (n : Z) : reader unit :=
  fun buf => (buf, if Z.of_nat (length buf) <? n then fail TrnUnexpectedEof else Ok tt).

(** The bytes a writer leaves in a new buffer. *)
Definition written (w : writer) : result TransportError (list byte) :=
  let '(buf, r) := w [] in _ ← r; Ok buf.

(** The value a reader takes from a payload. *)
Definition read_from {A} (r : reader A) (payload : list byte) : outcome TransportError A :=
  (r payload).2.

(** [u8::from(bool)]. *)
Definition u8_of_bool (b : bool) : Z := if b then 1 else 0.

(** [uN::try_from(len).map_err(|_| CorruptedPayload)]. *)
Definition checked_len {A} (max : Z) (xs : list A) : result TransportError Z :=
  let n := Z.of_nat (length xs) in if n <=? max then Ok n else Err TrnCorruptedPayload.

Definition put_string_u16 (value : string) : writer :=
  length ← mpure (checked_len u16_max (as_bytes value));
  _ ← put_u16 length;
  extend_from_slice (as_bytes value).

Definition put_bytes_u32 (value : list byte) : writer :=
  length ← mpure (checked_len u32_max value);
  _ ← put_u32 length;
  extend_from_slice value.

Definition put_string_u32 (value : string) : writer := put_bytes_u32 (as_bytes value).

Definition read_string (length : Z) : reader string :=
  _ ← need length;
  bytes ← copy_to_bytes (Z.to_nat length);
  mpure (ok_or (from_utf8 bytes) (Raised TrnInvalidUtf8)).

Definition read_string_u16 : reader string := _ ← need 2; length ← get_u16; read_string length.
Definition read_string_u32 : reader string := _ ← need 4; length ← get_u32; read_string length.

Definition read_bytes_u32 : reader (list byte) :=
  _ ← need 4;
  length ← get_u32;
  _ ← need length;
  copy_to_bytes (Z.to_nat length).

Definition read_bool : reader bool :=
  _ ← need 1;
  value ← get_u8;
  if value =? 0 then mret false
  else if value =? 1 then mret true
  else raise TrnCorruptedPayload.

Definition ensure_empty : reader unit :=
  fun buf => (buf, match buf with [] => Ok tt | _ => fail TrnCorruptedPayload end).

(** [for _ in 0..n { xs.push(r(buf)?) }]. *)
Fixpoint read_many {A} (n : nat) (r : reader A) : reader (list A) :=
  match n with
  | O => mret []
  | S n => x ← r; xs ← read_many n r; mret (x :: xs)
  end.

(** ** Round trips

    [inverse w r a]: what [w] appends, [r] reads as [a], whatever follows. *)

Definition inverse {A} (w : writer) (r : reader A) (a : A) : Prop :=
  forall buf buf', w buf = (buf', Ok tt) ->
  exists bs, buf' = buf ++ bs /\ forall rest, r (bs ++ rest) = (rest, Ok a).

(** ... and when nothing follows. *)
Definition inverse_end {A} (w : writer) (r : reader A) (a : A) : Prop :=
  forall buf buf', w buf = (buf', Ok tt) ->
  exists bs, buf' = buf ++ bs /\ r bs = ([], Ok a).

Lemma inverse_seq {A B} w1 w2 (r : reader A) (k : A -> reader B) a b :
  inverse w1 r a -> inverse w2 (k a) b -> inverse (_ ← w1; w2) (r ≫= k) b.
Proof.
  intros H1 H2 buf buf' (buf1 & [] & Hw1 & Hw2)%fallible_bind_ok.
  destruct (H1 _ _ Hw1) as (bs1 & -> & Hr1). destruct (H2 _ _ Hw2) as (bs2 & -> & Hr2).
  exists (bs1 ++ bs2). split; [by rewrite app_assoc|]. intros rest.
  unfold mbind, fallible_bind. by rewrite <- app_assoc, Hr1, Hr2.
Qed.

Lemma inverse_seq_end {A B} w1 w2 (r : reader A) (k : A -> reader B) a b :
  inverse w1 r a -> inverse_end w2 (k a) b -> inverse_end (_ ← w1; w2) (r ≫= k) b.
Proof.
  intros H1 H2 buf buf' (buf1 & [] & Hw1 & Hw2)%fallible_bind_ok.
  destruct (H1 _ _ Hw1) as (bs1 & -> & Hr1). destruct (H2 _ _ Hw2) as (bs2 & -> & Hr2).
  exists (bs1 ++ bs2). split; [by rewrite app_assoc|].
  unfold mbind, fallible_bind. by rewrite Hr1.
Qed.

(** The last field of a payload. *)
Lemma inverse_last {A B} w (r : reader A) (k : A -> reader B) a b :
  inverse w r a -> k a [] = ([], Ok b) -> inverse_end w (r ≫= k) b.
Proof.
  intros H1 Hk buf buf' Hw. destruct (H1 _ _ Hw) as (bs & -> & Hr). exists bs. split; [done|].
  unfold mbind, fallible_bind. specialize (Hr []). rewrite app_nil_r in Hr. by rewrite Hr.
Qed.

Lemma inverse_map {A B} w (r : reader A) (k : A -> reader B) a b :
  inverse w r a -> (forall rest, k a rest = (rest, Ok b)) -> inverse w (r ≫= k) b.
Proof.
  intros H1 Hk buf buf' Hw. destruct (H1 _ _ Hw) as (bs & -> & Hr). exists bs. split; [done|].
  intros rest. unfold mbind, fallible_bind. by rewrite Hr.
Qed.

Lemma inverse_ret {A} (a : A) : inverse (mret tt) (mret a) a.
Proof. intros buf buf' [= <-]. exists []. by rewrite app_nil_r. Qed.

Lemma inverse_end_assoc {A B C} w (r : reader A) (f : A -> reader B) (k : B -> reader C) c :
  inverse_end w ((r ≫= f) ≫= k) c -> inverse_end w (x ← r; y ← f x; k y) c.
Proof.
  intros Hi buf buf' Hw. destruct (Hi _ _ Hw) as (bs & -> & Hr). exists bs. split; [done|].
  revert Hr. unfold mbind, fallible_bind. by destruct (r bs) as [? []].
Qed.

Lemma inverse_end_written {A} w (r : reader A) a payload :
  inverse_end w r a -> written w = Ok payload -> read_from r payload = Ok a.
Proof.
  intros Hi Hw. unfold written in Hw. destruct (w []) as [buf [[]|e]] eqn:E; [|done].
  injection Hw as ->. destruct (Hi _ _ E) as (bs & -> & Hr). unfold read_from.
  change ([] ++ bs) with bs. by rewrite Hr.
Qed.

(** *** Written lengths *)

Definition grows (n : nat) (w : writer) : Prop :=
  forall buf buf', w buf = (buf', Ok tt) -> (length buf + n <= length buf')%nat.

Lemma grows_uint n z : grows n (put_uint n z).
Proof. intros buf buf' [= <-]. rewrite length_app, to_be_length. done. Qed.

Lemma grows_seq n m w1 w2 : grows n w1 -> grows m w2 -> grows (n + m) (_ ← w1; w2).
Proof.
  intros H1 H2 buf buf' (buf1 & [] & Hw1%H1 & Hw2%H2)%fallible_bind_ok. lia.
Qed.

Lemma grows_string_u16 s : grows 0 (put_string_u16 s).
Proof.
  intros buf buf' (? & z & [= <- _] & [= <-])%fallible_bind_ok. rewrite !length_app. lia.
Qed.

(** *** The primitives *)

Lemma copy_exact n bs rest : length bs = n -> copy_to_bytes n (bs ++ rest) = (rest, Ok bs).
Proof.
  intros Hn. unfold copy_to_bytes. rewrite length_app, (proj2 (Nat.ltb_ge (length bs + length rest) n)) by lia.
  by rewrite take_app_exact, drop_app_exact.
Qed.

Lemma inverse_uint n z :
  0 <= z < 256 ^ Z.of_nat n -> inverse (put_uint n z) (get_uint n) z.
Proof.
  intros Hz buf buf' [= <-]. exists (to_be n z). split; [done|]. intros rest.
  unfold get_uint, mbind, fallible_bind. rewrite copy_exact by apply to_be_length. cbn.
  by rewrite from_to_be.
Qed.

Lemma need_app {A} n bs rest (r : reader A) :
  n <= Z.of_nat (length bs) -> (_ ← need n; r) (bs ++ rest) = r (bs ++ rest).
Proof.
  intros Hn. unfold mbind, fallible_bind, need.
  rewrite (proj2 (Z.ltb_ge (Z.of_nat (length (bs ++ rest))) n)); [done|]. rewrite length_app. lia.
Qed.

(** A check for bytes that were written. *)
Lemma inverse_end_need {A} n w (r : reader A) a :
  grows n w -> inverse_end w r a -> inverse_end w (_ ← need (Z.of_nat n); r) a.
Proof.
  intros Hg Hi buf buf' Hw. destruct (Hi _ _ Hw) as (bs & -> & Hr). exists bs. split; [done|].
  apply Hg in Hw. rewrite length_app in Hw. rewrite <- (app_nil_r bs), need_app by lia.
  by rewrite app_nil_r.
Qed.

(** A length-prefixed field; [read] takes the bytes apart. *)
Lemma inverse_prefixed {A} n max (bs : list byte) (read : Z -> reader A) a :
  max < 256 ^ Z.of_nat n ->
  (forall rest, read (Z.of_nat (length bs)) (bs ++ rest) = (rest, Ok a)) ->
  inverse (length ← mpure (checked_len max bs); _ ← put_uint n length; extend_from_slice bs)
    (_ ← need (Z.of_nat n); length ← get_uint n; read length) a.
Proof.
  intros Hmax Hread buf buf' (? & z & [= <- Hz] & Hw)%fallible_bind_ok.
  unfold checked_len in Hz. destruct (Z.leb_spec (Z.of_nat (length bs)) max); [|done].
  injection Hz as <-. apply fallible_bind_ok in Hw as (? & ? & [= <- _] & [= <-]).
  exists (to_be n (Z.of_nat (length bs)) ++ bs). split; [by rewrite app_assoc|]. intros rest.
  rewrite <- app_assoc, need_app by (rewrite to_be_length; done).
  unfold mbind at 1, fallible_bind at 1.
  destruct (inverse_uint n (Z.of_nat (length bs)) ltac:(lia) [] _ eq_refl) as (b & Hb & Hr).
  cbn in Hb. subst b. by rewrite Hr, Hread.
Qed.

Lemma read_string_exact s rest :
  str_ok s -> read_string (Z.of_nat (length (as_bytes s))) (as_bytes s ++ rest) = (rest, Ok s).
Proof.
  intros Hs. unfold read_string. rewrite need_app by lia. unfold mbind, fallible_bind.
  rewrite copy_exact by lia. unfold mpure. by rewrite from_utf8_as_bytes.
Qed.

Lemma inverse_string_u16 s : str_ok s -> inverse (put_string_u16 s) read_string_u16 s.
Proof.
  intros Hs. apply (inverse_prefixed 2 u16_max); [done|]. intros rest. by apply read_string_exact.
Qed.

Lemma inverse_string_u32 s : str_ok s -> inverse (put_string_u32 s) read_string_u32 s.
Proof.
  intros Hs. apply (inverse_prefixed 4 u32_max); [done|]. intros rest. by apply read_string_exact.
Qed.

Lemma inverse_bytes_u32 bs : inverse (put_bytes_u32 bs) read_bytes_u32 bs.
Proof.
  apply (inverse_prefixed 4 u32_max bs (fun length => _ ← need length; copy_to_bytes (Z.to_nat length))); [done|].
  intros rest. rewrite need_app by lia. apply copy_exact. lia.
Qed.

Lemma inverse_need_uint {A} n z w (k : Z -> reader A) a :
  0 <= z < 256 ^ Z.of_nat n -> inverse w (k z) a ->
  inverse (_ ← put_uint n z; w) (_ ← need (Z.of_nat n); x ← get_uint n; k x) a.
Proof.
  intros Hz Hk. pose proof (inverse_seq _ _ _ k _ _ (inverse_uint n z Hz) Hk) as Hi.
  intros buf buf' Hw. destruct (Hi _ _ Hw) as (bs & -> & Hr). exists bs. split; [done|]. intros rest.
  apply fallible_bind_ok in Hw as (buf1 & [] & [= <-] & Hw).
  destruct (Hk _ _ Hw) as (bs2 & Heq & _). rewrite <- app_assoc in Heq.
  apply app_inv_head in Heq as ->. rewrite need_app; [apply Hr|].
  rewrite length_app, to_be_length. lia.
Qed.

Lemma inverse_end_need_uint {A} n z w (k : Z -> reader A) a :
  0 <= z < 256 ^ Z.of_nat n -> inverse_end w (k z) a ->
  inverse_end (_ ← put_uint n z; w) (_ ← need (Z.of_nat n); x ← get_uint n; k x) a.
Proof.
  intros Hz Hk. pose proof (inverse_seq_end _ _ _ k _ _ (inverse_uint n z Hz) Hk) as Hi.
  intros buf buf' Hw. destruct (Hi _ _ Hw) as (bs & -> & Hr). exists bs. split; [done|].
  apply fallible_bind_ok in Hw as (buf1 & [] & [= <-] & Hw).
  destruct (Hk _ _ Hw) as (bs2 & Heq & _). rewrite <- app_assoc in Heq.
  apply app_inv_head in Heq as ->. rewrite need_app; [apply Hr|].
  rewrite to_be_length. lia.
Qed.

Lemma inverse_need_last {A} n z (k : Z -> reader A) a :
  0 <= z < 256 ^ Z.of_nat n -> (forall rest, k z rest = (rest, Ok a)) ->
  inverse (put_uint n z) (_ ← need (Z.of_nat n); x ← get_uint n; k x) a.
Proof.
  intros Hz Hk buf buf' [= <-]. exists (to_be n z). split; [done|]. intros rest.
  rewrite need_app by (rewrite to_be_length; done). unfold mbind, fallible_bind, get_uint.
  unfold mbind, fallible_bind. rewrite copy_exact by apply to_be_length. cbn. by rewrite from_to_be.
Qed.

Lemma inverse_end_need_last {A} n z (k : Z -> reader A) a :
  0 <= z < 256 ^ Z.of_nat n -> k z [] = ([], Ok a) ->
  inverse_end (put_uint n z) (_ ← need (Z.of_nat n); x ← get_uint n; k x) a.
Proof.
  intros Hz Hk buf buf' [= <-]. exists (to_be n z). split; [done|].
  rewrite <- (app_nil_r (to_be n z)).
  rewrite need_app by (rewrite to_be_length; done). unfold mbind, fallible_bind, get_uint.
  unfold mbind, fallible_bind. rewrite copy_exact by apply to_be_length. cbn. by rewrite from_to_be.
Qed.

Lemma inverse_bool b : inverse (put_u8 (u8_of_bool b)) read_bool b.
Proof.
  intros buf buf' [= <-]. exists (to_be 1 (u8_of_bool b)). split; [done|]. intros rest.
  unfold read_bool. rewrite need_app by (rewrite to_be_length; done). by destruct b.
Qed.

Lemma inverse_many {A} (put : A -> writer) (read : reader A) xs :
  Forall (fun x => inverse (put x) read x) xs ->
  inverse (mfor put xs) (read_many (length xs) read) xs.
Proof.
  induction 1 as [|x xs Hx _ IH]; [apply inverse_ret|]. cbn. eapply inverse_seq; [done|].
  eapply inverse_map; [done|]. done.
Qed.

#[export] Hint Resolve inverse_string_u16 inverse_string_u32 inverse_bytes_u32 inverse_bool
  inverse_ret : wire.

(** ** No panics

    [safe_from n r]: [r] does not read past the end of a buffer of at least [n]
    bytes. *)

Definition safe_from {A} (n : Z) (r : reader A) : Prop :=
  forall buf, n <= Z.of_nat (length buf) -> returns (r buf).2.

Notation safe := (safe_from 0).

Lemma safe_weaken {A} n m (r : reader A) : safe_from n r -> n <= m -> safe_from m r.
Proof. intros Hr Hle buf Hb. apply Hr. lia. Qed.

Lemma safe_ret {A} n (a : A) : safe_from n (mret a).
Proof. done. Qed.

Lemma safe_raise {A} n e : safe_from n (raise (A := A) e).
Proof. done. Qed.

Lemma safe_bind {A B} n (r : reader A) (k : A -> reader B) :
  safe_from n r -> (forall a, safe (k a)) -> safe_from n (r ≫= k).
Proof.
  intros Hr Hk buf Hb. specialize (Hr buf Hb). unfold mbind, fallible_bind.
  destruct (r buf) as [buf' [a|[]]]; [|done..]. apply Hk. lia.
Qed.

Lemma safe_need {A} n m (k : unit -> reader A) :
  safe_from (Z.max n m) (k tt) -> safe_from m (need n ≫= k).
Proof.
  intros Hk buf Hb. unfold mbind, fallible_bind, need.
  destruct (Z.ltb_spec (Z.of_nat (length buf)) n); [done|]. apply Hk. lia.
Qed.

Lemma safe_copy {A} n m (k : list byte -> reader A) :
  Z.of_nat n <= m -> (forall bs, length bs = n -> safe_from (m - Z.of_nat n) (k bs)) ->
  safe_from m (copy_to_bytes n ≫= k).
Proof.
  intros Hle Hk buf Hb. unfold mbind, fallible_bind, copy_to_bytes.
  rewrite (proj2 (Nat.ltb_ge (length buf) n)) by lia. apply Hk; rewrite ?length_take, ?length_drop; lia.
Qed.

Lemma safe_get {A} n m (k : Z -> reader A) :
  Z.of_nat n <= m -> (forall z, 0 <= z < 256 ^ Z.of_nat n -> safe_from (m - Z.of_nat n) (k z)) ->
  safe_from m (get_uint n ≫= k).
Proof.
  intros Hle Hk buf Hb. unfold get_uint, mbind, fallible_bind, copy_to_bytes.
  rewrite (proj2 (Nat.ltb_ge (length buf) n)) by lia. cbn. apply Hk; [|rewrite length_drop; lia].
  pose proof (from_be_range (take n buf)) as Hr. rewrite length_take, Nat.min_l in Hr by lia. done.
Qed.


Lemma safe_read_string n : 0 <= n -> safe (read_string n).
Proof.
  intros Hn. apply safe_need. apply safe_copy; [lia|]. intros bs _ buf _. cbn.
  by destruct (from_utf8 bs).
Qed.

Lemma safe_string_u16 : safe read_string_u16.
Proof.
  apply safe_need. apply safe_get; [done|]. intros z Hz.
  eapply safe_weaken; [apply safe_read_string|]; lia.
Qed.

Lemma safe_string_u32 : safe read_string_u32.
Proof.
  apply safe_need. apply safe_get; [done|]. intros z Hz.
  eapply safe_weaken; [apply safe_read_string|]; lia.
Qed.

Lemma safe_bytes_u32 : safe read_bytes_u32.
Proof.
  apply safe_need. apply safe_get; [done|]. intros z Hz. apply safe_need.
  intros buf Hb. unfold copy_to_bytes. by rewrite (proj2 (Nat.ltb_ge (length buf) (Z.to_nat z))) by lia.
Qed.

Lemma safe_bool : safe read_bool.
Proof. apply safe_need, safe_get; [done|]. intros z _. by repeat case_match. Qed.

Lemma safe_ensure_empty : safe ensure_empty.
Proof. intros [|? ?] _; done. Qed.

Lemma safe_many {A} n (r : reader A) : safe r -> safe (read_many n r).
Proof.
  intros Hr. induction n as [|n IH]; [done|]. cbn. apply safe_bind; [done|]. intros a.
  apply safe_bind; [done|]. done.
Qed.

#[export] Hint Resolve safe_ret safe_raise safe_string_u16 safe_string_u32 safe_bytes_u32 safe_bool
  safe_ensure_empty safe_many : wire.

(** Runs through a reader, checking every fixed-width read against the bytes
    that are known to be left. *)
Ltac safe_reader :=
  repeat match goal with
  | |- safe_from _ (mpure _ ≫= _) => fail 1
  | |- safe_from _ (copy_to_bytes _ ≫= _) => fail 1
  | |- safe_from _ (need _ ≫= _) => apply safe_need; cbn [Z.max Z.compare Pos.compare Pos.compare_cont]
  | |- safe_from _ (get_u8 ≫= _) => apply safe_get; [lia|]; intros ? ?
  | |- safe_from _ (get_u16 ≫= _) => apply safe_get; [lia|]; intros ? ?
  | |- safe_from _ (get_u32 ≫= _) => apply safe_get; [lia|]; intros ? ?
  | |- safe_from _ (get_u64 ≫= _) => apply safe_get; [lia|]; intros ? ?
  | |- safe_from _ (if _ then _ else _) => case_match
  | |- safe_from _ (match ?p with (_, _) => _ end) => destruct p
  | |- safe_from _ (_ ≫= _) => apply safe_bind; [|intros ?]
  | |- safe_from _ _ => solve [eauto with wire | eapply safe_weaken; [eauto with wire|lia]]
  end.

(** ** Canonical encodings

    What a successful read says about the bytes it consumed, and the bytes a
    writer appends when its lengths fit. *)

Definition bytes_fit (max : Z) (bs : list byte) : Prop := Z.of_nat (length bs) <= max.
Definition string_fits (max : Z) (s : string) : Prop := bytes_fit max (as_bytes s).

#[export] Instance bytes_fit_dec max bs : Decision (bytes_fit max bs).
Proof. unfold bytes_fit. apply _. Defined.
#[export] Instance string_fits_dec max s : Decision (string_fits max s).
Proof. unfold string_fits. apply _. Defined.

(** A field with its length in [n] bytes. *)
Definition prefixed (n : nat) (bs : list byte) : list byte := to_be n (Z.of_nat (length bs)) ++ bs.

(** [w] appends [bs] and does not fail. *)
Definition emits (w : writer) (bs : list byte) : Prop := forall buf, w buf = (buf ++ bs, Ok tt).

Lemma emits_seq w1 w2 b1 b2 : emits w1 b1 -> emits w2 b2 -> emits (_ ← w1; w2) (b1 ++ b2).
Proof.
  intros H1 H2 buf. unfold mbind, fallible_bind. by rewrite H1, H2, app_assoc.
Qed.

Lemma emits_ret : emits (mret tt) [].
Proof. intros buf. by rewrite app_nil_r. Qed.

Lemma emits_uint n z : emits (put_uint n z) (to_be n z).
Proof. done. Qed.

Lemma emits_string_u16 s : string_fits u16_max s -> emits (put_string_u16 s) (prefixed 2 (as_bytes s)).
Proof.
  intros Hs buf. unfold put_string_u16, mbind, fallible_bind, mpure, checked_len.
  rewrite (proj2 (Z.leb_le (Z.of_nat (length (as_bytes s))) u16_max) Hs).
  unfold put_u16, put_uint, extend_from_slice, mmodify, prefixed. by rewrite app_assoc.
Qed.

Lemma emits_bytes_u32 bs : bytes_fit u32_max bs -> emits (put_bytes_u32 bs) (prefixed 4 bs).
Proof.
  intros Hs buf. unfold put_bytes_u32, mbind, fallible_bind, mpure, checked_len.
  rewrite (proj2 (Z.leb_le (Z.of_nat (length bs)) u32_max) Hs).
  unfold put_u32, put_uint, extend_from_slice, mmodify, prefixed. by rewrite app_assoc.
Qed.

Lemma emits_string_u32 s : string_fits u32_max s -> emits (put_string_u32 s) (prefixed 4 (as_bytes s)).
Proof. apply emits_bytes_u32. Qed.

Lemma emits_many {A} (put : A -> writer) (bytes : A -> list byte) xs :
  Forall (fun x => emits (put x) (bytes x)) xs -> emits (mfor put xs) (mjoin (bytes <$> xs)).
Proof.
  induction 1 as [|x xs Hx _ IH]; [apply emits_ret|]. cbn. by apply emits_seq.
Qed.

Lemma emits_written w bs : emits w bs -> written w = Ok bs.
Proof. intros Hw. unfold written. by rewrite Hw. Qed.

Lemma inverse_emits {A} w (r : reader A) a bs rest :
  inverse w r a -> emits w bs -> r (bs ++ rest) = (rest, Ok a).
Proof. intros Hi Hw. destruct (Hi [] bs (Hw [])) as (bs' & Hb & Hr). cbn in Hb. by subst bs'. Qed.

Lemma to_from_be bs : to_be (length bs) (from_be bs) = bs.
Proof.
  unfold to_be, from_be. rewrite <- (length_reverse bs), to_from_le. apply reverse_involutive.
Qed.

Lemma copy_inv n buf buf' bs :
  copy_to_bytes n buf = (buf', Ok bs) -> buf = bs ++ buf' /\ length bs = n.
Proof.
  unfold copy_to_bytes. destruct (Nat.ltb_spec (length buf) n); [done|]. intros [= <- <-].
  by rewrite take_drop, length_take, Nat.min_l.
Qed.

Lemma get_inv n buf buf' z :
  get_uint n buf = (buf', Ok z) -> buf = to_be n z ++ buf' /\ 0 <= z < 256 ^ Z.of_nat n.
Proof.
  intros (b1 & bs & [-> Hl]%copy_inv & [= <- <-])%fallible_bind_ok.
  split; [by rewrite <- Hl at 1; rewrite to_from_be|]. rewrite <- Hl. apply from_be_range.
Qed.

Lemma need_inv n buf buf' : need n buf = (buf', Ok tt) -> buf' = buf.
Proof. by intros [= -> _]. Qed.

Lemma ensure_empty_inv buf buf' : ensure_empty buf = (buf', Ok tt) -> buf = [] /\ buf' = [].
Proof. unfold ensure_empty. destruct buf; [|done]. by intros [= <-]. Qed.

Lemma read_bytes_inv buf buf' bs :
  read_bytes_u32 buf = (buf', Ok bs) -> buf = prefixed 4 bs ++ buf' /\ bytes_fit u32_max bs.
Proof.
  intros (b1 & [] & <-%need_inv & Hr)%fallible_bind_ok.
  apply fallible_bind_ok in Hr as (b2 & z & [-> Hz]%get_inv & Hr).
  apply fallible_bind_ok in Hr as (b3 & [] & <-%need_inv & [-> Hl]%copy_inv).
  unfold prefixed, bytes_fit. rewrite Hl, Z2Nat.id by lia. split; [by rewrite app_assoc|].
  unfold_widths. cbn in Hz. lia.
Qed.

Lemma read_string_inv n buf buf' s :
  0 <= n -> read_string n buf = (buf', Ok s) ->
  buf = as_bytes s ++ buf' /\ str_ok s /\ Z.of_nat (length (as_bytes s)) = n.
Proof.
  intros Hn (b1 & [] & <-%need_inv & Hr)%fallible_bind_ok.
  apply fallible_bind_ok in Hr as (b3 & bs & [-> Hl]%copy_inv & [= <- Hs]).
  unfold ok_or in Hs. destruct (from_utf8 bs) as [s'|] eqn:E; [|done]. injection Hs as ->.
  apply from_utf8_ok in E as [-> Hv]. unfold str_ok. rewrite as_bytes_of_bytes. split_and!; [done|done|lia].
Qed.

Lemma read_string_u16_inv buf buf' s :
  read_string_u16 buf = (buf', Ok s) ->
  buf = prefixed 2 (as_bytes s) ++ buf' /\ str_ok s /\ string_fits u16_max s.
Proof.
  intros (b1 & [] & <-%need_inv & Hr)%fallible_bind_ok.
  apply fallible_bind_ok in Hr as (b2 & z & [-> Hz]%get_inv & Hr).
  apply read_string_inv in Hr as (-> & Hs & <-); [|lia]. unfold prefixed, string_fits, bytes_fit.
  split_and!; [by rewrite app_assoc|done|]. unfold_widths. cbn in Hz. lia.
Qed.

Lemma read_string_u32_inv buf buf' s :
  read_string_u32 buf = (buf', Ok s) ->
  buf = prefixed 4 (as_bytes s) ++ buf' /\ str_ok s /\ string_fits u32_max s.
Proof.
  intros (b1 & [] & <-%need_inv & Hr)%fallible_bind_ok.
  apply fallible_bind_ok in Hr as (b2 & z & [-> Hz]%get_inv & Hr).
  apply read_string_inv in Hr as (-> & Hs & <-); [|lia]. unfold prefixed, string_fits, bytes_fit.
  split_and!; [by rewrite app_assoc|done|]. unfold_widths. cbn in Hz. lia.
Qed.

Lemma read_bool_inv buf buf' b :
  read_bool buf = (buf', Ok b) -> buf = to_be 1 (u8_of_bool b) ++ buf'.
Proof.
  intros (b1 & [] & <-%need_inv & Hr)%fallible_bind_ok.
  apply fallible_bind_ok in Hr as (b2 & z & [-> Hz]%get_inv & Hr).
  destruct (Z.eqb_spec z 0) as [->|]; [by injection Hr as <- <-|].
  destruct (Z.eqb_spec z 1) as [->|]; [by injection Hr as <- <-|done].
Qed.

Lemma read_many_inv {A} (r : reader A) (bytes : A -> list byte) (P : A -> Prop) n buf buf' xs :
  (forall buf buf' a, r buf = (buf', Ok a) -> buf = bytes a ++ buf' /\ P a) ->
  read_many n r buf = (buf', Ok xs) ->
  buf = mjoin (bytes <$> xs) ++ buf' /\ Forall P xs /\ length xs = n.
Proof.
  intros Hr. revert buf xs. induction n as [|n IH]; intros buf xs; cbn.
  { intros [= -> <-]. split_and!; [done|constructor|done]. }
  intros (b1 & x & [-> Hx]%Hr & Hm)%fallible_bind_ok.
  apply fallible_bind_ok in Hm as (b2 & ys & Hys & [= <- <-]).
  destruct (IH _ _ Hys) as (-> & Hp & Hl).
  cbn. split_and!; [by rewrite app_assoc|by constructor|by rewrite Hl].
Qed.

#[export] Hint Resolve emits_seq emits_ret emits_uint emits_string_u16 emits_bytes_u32 emits_string_u32
  : wire.

(** Splits a successful read into the fields it consumed. *)
Ltac inv_read :=
  repeat match goal with
  | H : (_ ≫= _) _ = (_, Ok _) |- _ => apply fallible_bind_ok in H; destruct H as (? & ? & ? & H)
  | H : mret _ _ = (_, Ok _) |- _ => injection H as ? ?; subst
  | H : raise _ _ = (_, Ok _) |- _ => discriminate H
  | H : need _ _ = (_, Ok ?u) |- _ => destruct u; apply need_inv in H; subst
  | H : ensure_empty _ = (_, Ok ?u) |- _ => destruct u; apply ensure_empty_inv in H as [-> ->]
  | H : get_u8 _ = (_, Ok _) |- _ => apply (get_inv 1) in H; destruct H as [-> ?]
  | H : get_u16 _ = (_, Ok _) |- _ => apply (get_inv 2) in H; destruct H as [-> ?]
  | H : get_u32 _ = (_, Ok _) |- _ => apply (get_inv 4) in H; destruct H as [-> ?]
  | H : get_u64 _ = (_, Ok _) |- _ => apply (get_inv 8) in H; destruct H as [-> ?]
  | H : read_string_u16 _ = (_, Ok _) |- _ => apply read_string_u16_inv in H; destruct H as (-> & ? & ?)
  | H : read_string_u32 _ = (_, Ok _) |- _ => apply read_string_u32_inv in H; destruct H as (-> & ? & ?)
  | H : read_bytes_u32 _ = (_, Ok _) |- _ => apply read_bytes_inv in H; destruct H as [-> ?]
  | H : read_bool _ = (_, Ok _) |- _ => apply read_bool_inv in H; subst
  | H : (if ?z =? ?c then _ else _) _ = (_, Ok _) |- _ =>
      destruct (Z.eqb_spec z c); [subst|]
  end.
