(* ===== verification/Opcode.v ===== *)
(** * Opcode: operation identifiers on the wire (crates/transport/src/opcode.rs) *)

From S2P Require Import Prelude Text Wire.

Inductive Opcode :=
| OpAuth
| OpPing
| OpGet
| OpGetDel
| OpGetEx
| OpSet
| OpSetNx
| OpDelete
| OpExists
| OpMGet
| OpMSet
| OpIncr
| OpDecr
| OpExpire
| OpTtl
| OpPersist
| OpRename
| OpRenameNx
| OpScan
| OpDbSize
| OpInfo
| OpMetrics
| OpList
| OpClear
| OpCount
| OpSave
| OpSnapshot
| OpMulti
| OpExec
| OpDiscard
| OpBackup
| OpRestore
| OpCreateUser
| OpDropUser
| OpCreateRole
| OpDropRole
| OpGrantRole
| OpRevokeRole
| OpGrantPermission
| OpRevokePermission
| OpShowUsers
| OpShowRoles
| OpWhoAmI
| OpBackupTo
| OpRestoreFrom
| OpRestoreCheck
| OpRestoreCheckFrom
| OpAlterUserPassword
| OpMetricsProm
| OpBackupVerify
| OpBackupVerifyFrom
| OpShowGrants
| OpShowGrantsForUser
| OpShowGrantsForRole
| OpMaintenanceOn
| OpMaintenanceOff
| OpMaintenanceStatus
| OpHealth
| OpShowCluster
| OpClusterJoin
| OpClusterRemove
| OpShowReplication
| OpPromoteFollower
| OpPauseReplication
| OpResumeReplication
| OpReplicationStatus
| OpReplicationSnapshot
| OpReplicationFetch
| OpReplicationAck
| OpReplicationVote
| OpReplicationHeartbeat
| OpReplicationAppend
| OpReplicationInstallSnapshot.

#[export] Instance Opcode_eq_dec : EqDecision Opcode.
Proof. solve_decision. Defined.

(** [From<Opcode> for u8]. *)
Definition opcode_to_u8 (opcode : Opcode) : Z :=
  match opcode with
  | OpAuth => 0x01
  | OpPing => 0x02
  | OpGet => 0x03
  | OpGetDel => 0x04
  | OpGetEx => 0x05
  | OpSet => 0x06
  | OpSetNx => 0x07
  | OpDelete => 0x08
  | OpExists => 0x09
  | OpMGet => 0x0A
  | OpMSet => 0x0B
  | OpIncr => 0x0C
  | OpDecr => 0x0D
  | OpExpire => 0x0E
  | OpTtl => 0x0F
  | OpPersist => 0x10
  | OpRename => 0x11
  | OpRenameNx => 0x12
  | OpScan => 0x13
  | OpDbSize => 0x14
  | OpInfo => 0x15
  | OpMetrics => 0x16
  | OpList => 0x17
  | OpClear => 0x18
  | OpCount => 0x19
  | OpSave => 0x1A
  | OpSnapshot => 0x1B
  | OpMulti => 0x1C
  | OpExec => 0x1D
  | OpDiscard => 0x1E
  | OpBackup => 0x1F
  | OpRestore => 0x20
  | OpCreateUser => 0x21
  | OpDropUser => 0x22
  | OpCreateRole => 0x23
  | OpDropRole => 0x24
  | OpGrantRole => 0x25
  | OpRevokeRole => 0x26
  | OpGrantPermission => 0x27
  | OpRevokePermission => 0x28
  | OpShowUsers => 0x29
  | OpShowRoles => 0x2A
  | OpWhoAmI => 0x2B
  | OpBackupTo => 0x2C
  | OpRestoreFrom => 0x2D
  | OpRestoreCheck => 0x2E
  | OpRestoreCheckFrom => 0x2F
  | OpAlterUserPassword => 0x30
  | OpMetricsProm => 0x31
  | OpBackupVerify => 0x32
  | OpBackupVerifyFrom => 0x33
  | OpShowGrants => 0x34
  | OpShowGrantsForUser => 0x35
  | OpShowGrantsForRole => 0x36
  | OpMaintenanceOn => 0x37
  | OpMaintenanceOff => 0x38
  | OpMaintenanceStatus => 0x39
  | OpHealth => 0x3A
  | OpShowCluster => 0x3B
  | OpClusterJoin => 0x3C
  | OpClusterRemove => 0x3D
  | OpShowReplication => 0x3E
  | OpPromoteFollower => 0x3F
  | OpPauseReplication => 0x40
  | OpResumeReplication => 0x41
  | OpReplicationStatus => 0x42
  | OpReplicationSnapshot => 0x43
  | OpReplicationFetch => 0x44
  | OpReplicationAck => 0x45
  | OpReplicationVote => 0x46
  | OpReplicationHeartbeat => 0x47
  | OpReplicationAppend => 0x48
  | OpReplicationInstallSnapshot => 0x49
  end.

(** [TryFrom<u8> for Opcode]. *)
Definition opcode_try_from (value : Z) : result TransportError Opcode :=
  match value with
  | 0x01 => Ok OpAuth
  | 0x02 => Ok OpPing
  | 0x03 => Ok OpGet
  | 0x04 => Ok OpGetDel
  | 0x05 => Ok OpGetEx
  | 0x06 => Ok OpSet
  | 0x07 => Ok OpSetNx
  | 0x08 => Ok OpDelete
  | 0x09 => Ok OpExists
  | 0x0A => Ok OpMGet
  | 0x0B => Ok OpMSet
  | 0x0C => Ok OpIncr
  | 0x0D => Ok OpDecr
  | 0x0E => Ok OpExpire
  | 0x0F => Ok OpTtl
  | 0x10 => Ok OpPersist
  | 0x11 => Ok OpRename
  | 0x12 => Ok OpRenameNx
  | 0x13 => Ok OpScan
  | 0x14 => Ok OpDbSize
  | 0x15 => Ok OpInfo
  | 0x16 => Ok OpMetrics
  | 0x17 => Ok OpList
  | 0x18 => Ok OpClear
  | 0x19 => Ok OpCount
  | 0x1A => Ok OpSave
  | 0x1B => Ok OpSnapshot
  | 0x1C => Ok OpMulti
  | 0x1D => Ok OpExec
  | 0x1E => Ok OpDiscard
  | 0x1F => Ok OpBackup
  | 0x20 => Ok OpRestore
  | 0x21 => Ok OpCreateUser
  | 0x22 => Ok OpDropUser
  | 0x23 => Ok OpCreateRole
  | 0x24 => Ok OpDropRole
  | 0x25 => Ok OpGrantRole
  | 0x26 => Ok OpRevokeRole
  | 0x27 => Ok OpGrantPermission
  | 0x28 => Ok OpRevokePermission
  | 0x29 => Ok OpShowUsers
  | 0x2A => Ok OpShowRoles
  | 0x2B => Ok OpWhoAmI
  | 0x2C => Ok OpBackupTo
  | 0x2D => Ok OpRestoreFrom
  | 0x2E => Ok OpRestoreCheck
  | 0x2F => Ok OpRestoreCheckFrom
  | 0x30 => Ok OpAlterUserPassword
  | 0x31 => Ok OpMetricsProm
  | 0x32 => Ok OpBackupVerify
  | 0x33 => Ok OpBackupVerifyFrom
  | 0x34 => Ok OpShowGrants
  | 0x35 => Ok OpShowGrantsForUser
  | 0x36 => Ok OpShowGrantsForRole
  | 0x37 => Ok OpMaintenanceOn
  | 0x38 => Ok OpMaintenanceOff
  | 0x39 => Ok OpMaintenanceStatus
  | 0x3A => Ok OpHealth
  | 0x3B => Ok OpShowCluster
  | 0x3C => Ok OpClusterJoin
  | 0x3D => Ok OpClusterRemove
  | 0x3E => Ok OpShowReplication
  | 0x3F => Ok OpPromoteFollower
  | 0x40 => Ok OpPauseReplication
  | 0x41 => Ok OpResumeReplication
  | 0x42 => Ok OpReplicationStatus
  | 0x43 => Ok OpReplicationSnapshot
  | 0x44 => Ok OpReplicationFetch
  | 0x45 => Ok OpReplicationAck
  | 0x46 => Ok OpReplicationVote
  | 0x47 => Ok OpReplicationHeartbeat
  | 0x48 => Ok OpReplicationAppend
  | 0x49 => Ok OpReplicationInstallSnapshot
  | other => Err (TrnUnknownOpcode other)
  end.

Lemma opcode_round_trip opcode : opcode_try_from (opcode_to_u8 opcode) = Ok opcode.
Proof. by destruct opcode. Qed.

Lemma opcode_range opcode : 0 <= opcode_to_u8 opcode < 256.
Proof. destruct opcode; cbn; lia. Qed.

(** The decoder takes nothing but the encodings. *)
Lemma opcode_try_from_ok value opcode :
  opcode_try_from value = Ok opcode -> value = opcode_to_u8 opcode.
Proof.
  intros Hv. destruct value as [|p|p]; [done| |done].
  do 7 (destruct p as [p|p|]; try done; try by injection Hv as <-).
Qed.
