(* ===== verification/Request.v ===== *)
(** * Request: client requests (crates/transport/src/request/mod.rs)

    [from_command] and [into_command] with the payload encoders and decoders
    they use.  Buffer capacities are hints without effect and are left out. *)

From S2P Require Import Prelude Text Command Wire Opcode.

(** A [Uuid] is its sixteen bytes. *)
Definition Uuid : Type := list byte.
Definition UUID_LEN : nat := 16.
Definition uuid_ok (id : Uuid) : Prop := length id = UUID_LEN.

Definition REQUEST_META_DEADLINE_MS : Z := 0x01.
Definition REQUEST_META_TRACE_ID : Z := 0x02.
Definition REQUEST_META_SEQUENCE : Z := 0x04.

Record RequestMetadata := mkRequestMetadata {
  rm_deadline_ms : option Z;
  rm_trace_id : option Uuid;
  rm_sequence : option Z;
}.

Definition RequestMetadata_default : RequestMetadata := mkRequestMetadata None None None.

Record Request := mkRequest {
  rq_request_id : Uuid;
  rq_opcode : Opcode;
  rq_payload : list byte;
  rq_metadata : RequestMetadata;
}.

(** [Request::new] and [with_metadata]. *)
Definition new_request (request_id : Uuid) (opcode : Opcode) (payload : list byte) : Request :=
  mkRequest request_id opcode payload RequestMetadata_default.
Definition with_metadata (r : Request) (metadata : RequestMetadata) : Request :=
  mkRequest (rq_request_id r) (rq_opcode r) (rq_payload r) metadata.

(** ** Payload encoders *)

Definition encode_key (key : string) : writer := put_string_u16 key.

Definition encode_dump (dump : string) : writer := put_string_u32 dump.

Definition encode_condition (condition : option SetCondition) : Z :=
  match condition with
  | None => 0
  | Some Nx => 1
  | Some Xx => 2
  end.

Definition encode_expiration (expiration : option Expiration) : writer :=
  match expiration with
  | None => put_u8 0
  | Some (Ex value) => _ ← put_u8 1; put_u64 value
  | Some (Px value) => _ ← put_u8 2; put_u64 value
  end.

Definition encode_set (key : string) (value : list byte) (options : SetOptions) : writer :=
  _ ← put_string_u16 key;
  _ ← put_bytes_u32 value;
  _ ← put_u8 (encode_condition (so_condition options));
  _ ← encode_expiration (so_expiration options);
  _ ← put_u8 (u8_of_bool (so_keep_ttl options));
  _ ← put_u8 (u8_of_bool (so_return_previous options));
  match so_if_version options with
  | Some version => _ ← put_u8 1; put_u64 version
  | None => put_u8 0
  end.

Definition encode_get_ex (key : string) (expiration : option Expiration) (persist : bool) : writer :=
  _ ← put_string_u16 key;
  _ ← encode_expiration expiration;
  put_u8 (u8_of_bool persist).

Definition encode_key_value (key value : string) : writer :=
  _ ← put_string_u16 key; put_string_u32 value.

Definition encode_key_bytes (key : string) (value : list byte) : writer :=
  _ ← put_string_u16 key; put_bytes_u32 value.

Definition encode_three_strings (first second third : string) : writer :=
  _ ← put_string_u16 first; _ ← put_string_u16 second; put_string_u16 third.

Definition encode_key_u64 (key : string) (value : Z) : writer :=
  _ ← put_string_u16 key; put_u64 value.

Definition encode_keys (keys : list string) : writer :=
  key_count ← mpure (checked_len u16_max keys);
  _ ← put_u16 key_count;
  mfor put_string_u16 keys.

Definition encode_byte_pairs (entries : list (string * list byte)) : writer :=
  pair_count ← mpure (checked_len u16_max entries);
  _ ← put_u16 pair_count;
  mfor (fun '(key, value) => _ ← put_string_u16 key; put_bytes_u32 value) entries.

Definition encode_optional_string (value : option string) : writer :=
  match value with
  | Some value => _ ← put_u8 1; put_string_u32 value
  | None => put_u8 0
  end.

Definition encode_scan (cursor : Z) (pattern : option string) (count : option Z) : writer :=
  _ ← put_u64 cursor;
  _ ← match pattern with
      | Some pattern => _ ← put_u8 1; put_string_u16 pattern
      | None => put_u8 0
      end;
  match count with
  | Some count => _ ← put_u8 1; put_u16 count
  | None => put_u8 0
  end.

(** ** Payload decoders *)

Definition decode_dump : reader string := dump ← read_string_u32; _ ← ensure_empty; mret dump.

Definition decode_single_key : reader string := key ← read_string_u16; _ ← ensure_empty; mret key.

Definition decode_condition : reader (option SetCondition) :=
  _ ← need 1;
  value ← get_u8;
  if value =? 0 then mret None
  else if value =? 1 then mret (Some Nx)
  else if value =? 2 then mret (Some Xx)
  else raise TrnCorruptedPayload.

Definition decode_expiration : reader (option Expiration) :=
  _ ← need 1;
  kind ← get_u8;
  if kind =? 0 then mret None
  else if kind =? 1 then _ ← need 8; value ← get_u64; mret (Some (Ex value))
  else if kind =? 2 then _ ← need 8; value ← get_u64; mret (Some (Px value))
  else raise TrnCorruptedPayload.

(** The version of SET; payloads of older clients end before it. *)
Definition decode_if_version : reader (option Z) :=
  buf ← mget;
  match buf with
  | [] => mret None
  | _ =>
      flag ← get_u8;
      if flag =? 0 then mret None
      else if flag =? 1 then _ ← need 8; value ← get_u64; mret (Some value)
      else raise TrnCorruptedPayload
  end.

Definition decode_set : reader (string * list byte * SetOptions) :=
  key ← read_string_u16;
  value ← read_bytes_u32;
  condition ← decode_condition;
  expiration ← decode_expiration;
  keep_ttl ← read_bool;
  return_previous ← read_bool;
  if_version ← decode_if_version;
  _ ← ensure_empty;
  mret (key, value, mkSetOptions condition if_version expiration keep_ttl return_previous).

Definition decode_get_ex : reader (string * option Expiration * bool) :=
  key ← read_string_u16;
  expiration ← decode_expiration;
  persist ← read_bool;
  _ ← ensure_empty;
  mret (key, expiration, persist).

Definition decode_key_value : reader (string * string) :=
  key ← read_string_u16; value ← read_string_u32; _ ← ensure_empty; mret (key, value).

Definition decode_key_bytes : reader (string * list byte) :=
  key ← read_string_u16; value ← read_bytes_u32; _ ← ensure_empty; mret (key, value).

Definition decode_three_strings : reader (string * string * string) :=
  first ← read_string_u16;
  second ← read_string_u16;
  third ← read_string_u16;
  _ ← ensure_empty;
  mret (first, second, third).

Definition decode_key_u64 : reader (string * Z) :=
  key ← read_string_u16;
  _ ← need 8;
  value ← get_u64;
  _ ← ensure_empty;
  mret (key, value).

Definition decode_keys : reader (list string) :=
  _ ← need 2;
  key_count ← get_u16;
  keys ← read_many (Z.to_nat key_count) read_string_u16;
  _ ← ensure_empty;
  mret keys.

Definition read_pair : reader (string * list byte) :=
  key ← read_string_u16; value ← read_bytes_u32; mret (key, value).

Definition decode_pairs : reader (list (string * list byte)) :=
  _ ← need 2;
  pair_count ← get_u16;
  entries ← read_many (Z.to_nat pair_count) read_pair;
  _ ← ensure_empty;
  mret entries.

Definition decode_optional_string : reader (option string) :=
  _ ← need 1;
  flag ← get_u8;
  if flag =? 0 then _ ← ensure_empty; mret None
  else if flag =? 1 then value ← read_string_u32; _ ← ensure_empty; mret (Some value)
  else raise TrnCorruptedPayload.

Definition decode_scan : reader (Z * option string * option Z) :=
  _ ← need 10;
  cursor ← get_u64;
  pattern_flag ← get_u8;
  pattern ← (if pattern_flag =? 0 then mret None
             else if pattern_flag =? 1 then pattern ← read_string_u16; mret (Some pattern)
             else raise TrnCorruptedPayload);
  count_flag ← get_u8;
  count ← (if count_flag =? 0 then mret None
           else if count_flag =? 1 then _ ← need 2; value ← get_u16; mret (Some value)
           else raise TrnCorruptedPayload);
  _ ← ensure_empty;
  mret (cursor, pattern, count).

Definition decode_empty : reader unit := ensure_empty.

(** ** Commands *)

Definition from_command (request_id : Uuid) (command : Command) : result TransportError Request :=
  let request opcode payload :=
    payload ← written payload; Ok (new_request request_id opcode payload) in
  match command with
  | CmdAuth username password => request OpAuth (encode_key_value username password)
  | CmdPing message => request OpPing (encode_optional_string message)
  | CmdGet key => request OpGet (encode_key key)
  | CmdGetDel key => request OpGetDel (encode_key key)
  | CmdGetEx key expiration persist => request OpGetEx (encode_get_ex key expiration persist)
  | CmdSet key value options => request OpSet (encode_set key value options)
  | CmdSetNx key value => request OpSetNx (encode_key_bytes key value)
  | CmdMGet keys => request OpMGet (encode_keys keys)
  | CmdMSet entries => request OpMSet (encode_byte_pairs entries)
  | CmdDelete keys => request OpDelete (encode_keys keys)
  | CmdExists key => request OpExists (encode_key key)
  | CmdIncr key => request OpIncr (encode_key key)
  | CmdDecr key => request OpDecr (encode_key key)
  | CmdExpire key seconds => request OpExpire (encode_key_u64 key seconds)
  | CmdTtl key => request OpTtl (encode_key key)
  | CmdPersist key => request OpPersist (encode_key key)
  | CmdRename source destination => request OpRename (encode_key_value source destination)
  | CmdRenameNx source destination => request OpRenameNx (encode_key_value source destination)
  | CmdScan cursor pattern count => request OpScan (encode_scan cursor pattern count)
  | CmdDbSize => request OpDbSize (mret tt)
  | CmdInfo => request OpInfo (mret tt)
  | CmdMetrics => request OpMetrics (mret tt)
  | CmdMetricsProm => request OpMetricsProm (mret tt)
  | CmdList => request OpList (mret tt)
  | CmdClear => request OpClear (mret tt)
  | CmdCount => request OpCount (mret tt)
  | CmdSave => request OpSave (mret tt)
  | CmdSnapshot => request OpSnapshot (mret tt)
  | CmdBackup => request OpBackup (mret tt)
  | CmdBackupTo path => request OpBackupTo (encode_key path)
  | CmdBackupVerify dump => request OpBackupVerify (encode_dump dump)
  | CmdBackupVerifyFrom path => request OpBackupVerifyFrom (encode_key path)
  | CmdRestore dump => request OpRestore (encode_dump dump)
  | CmdRestoreFrom path => request OpRestoreFrom (encode_key path)
  | CmdRestoreCheck dump => request OpRestoreCheck (encode_dump dump)
  | CmdRestoreCheckFrom path => request OpRestoreCheckFrom (encode_key path)
  | CmdAlterUserPassword username password => request OpAlterUserPassword (encode_key_value username password)
  | CmdCreateUser username password => request OpCreateUser (encode_key_value username password)
  | CmdDropUser username => request OpDropUser (encode_key username)
  | CmdCreateRole role => request OpCreateRole (encode_key role)
  | CmdDropRole role => request OpDropRole (encode_key role)
  | CmdGrantRole role username => request OpGrantRole (encode_key_value role username)
  | CmdRevokeRole role username => request OpRevokeRole (encode_key_value role username)
  | CmdGrantPermission permission pattern role => request OpGrantPermission (encode_three_strings permission pattern role)
  | CmdRevokePermission permission pattern role => request OpRevokePermission (encode_three_strings permission pattern role)
  | CmdShowUsers => request OpShowUsers (mret tt)
  | CmdShowRoles => request OpShowRoles (mret tt)
  | CmdShowGrants => request OpShowGrants (mret tt)
  | CmdShowGrantsForUser username => request OpShowGrantsForUser (encode_key username)
  | CmdShowGrantsForRole role => request OpShowGrantsForRole (encode_key role)
  | CmdWhoAmI => request OpWhoAmI (mret tt)
  | CmdMulti => request OpMulti (mret tt)
  | CmdExec => request OpExec (mret tt)
  | CmdDiscard => request OpDiscard (mret tt)
  | CmdMaintenanceOn => request OpMaintenanceOn (mret tt)
  | CmdMaintenanceOff => request OpMaintenanceOff (mret tt)
  | CmdMaintenanceStatus => request OpMaintenanceStatus (mret tt)
  | CmdHealth => request OpHealth (mret tt)
  | CmdShowCluster => request OpShowCluster (mret tt)
  | CmdClusterJoin node_id address => request OpClusterJoin (encode_key_value node_id address)
  | CmdClusterRemove node_id => request OpClusterRemove (encode_key node_id)
  | CmdShowReplication => request OpShowReplication (mret tt)
  | CmdPromoteFollower => request OpPromoteFollower (mret tt)
  | CmdPauseReplication => request OpPauseReplication (mret tt)
  | CmdResumeReplication => request OpResumeReplication (mret tt)
  | CmdHelp => Err (TrnUnsupportedCommand "help")
  | CmdExit => Err (TrnUnsupportedCommand "exit")
  end.

Definition command_reader (opcode : Opcode) : reader Command :=
  match opcode with
  | OpAuth => '(username, password) ← decode_key_value; mret (CmdAuth username password)
  | OpPing => message ← decode_optional_string; mret (CmdPing message)
  | OpGet => key ← decode_single_key; mret (CmdGet key)
  | OpGetDel => key ← decode_single_key; mret (CmdGetDel key)
  | OpGetEx => '(key, expiration, persist) ← decode_get_ex; mret (CmdGetEx key expiration persist)
  | OpSet => '(key, value, options) ← decode_set; mret (CmdSet key value options)
  | OpSetNx => '(key, value) ← decode_key_bytes; mret (CmdSetNx key value)
  | OpMGet => keys ← decode_keys; mret (CmdMGet keys)
  | OpMSet => entries ← decode_pairs; mret (CmdMSet entries)
  | OpDelete => keys ← decode_keys; mret (CmdDelete keys)
  | OpExists => key ← decode_single_key; mret (CmdExists key)
  | OpIncr => key ← decode_single_key; mret (CmdIncr key)
  | OpDecr => key ← decode_single_key; mret (CmdDecr key)
  | OpExpire => '(key, seconds) ← decode_key_u64; mret (CmdExpire key seconds)
  | OpTtl => key ← decode_single_key; mret (CmdTtl key)
  | OpPersist => key ← decode_single_key; mret (CmdPersist key)
  | OpRename => '(source, destination) ← decode_key_value; mret (CmdRename source destination)
  | OpRenameNx => '(source, destination) ← decode_key_value; mret (CmdRenameNx source destination)
  | OpScan => '(cursor, pattern, count) ← decode_scan; mret (CmdScan cursor pattern count)
  | OpDbSize => _ ← decode_empty; mret CmdDbSize
  | OpInfo => _ ← decode_empty; mret CmdInfo
  | OpMetrics => _ ← decode_empty; mret CmdMetrics
  | OpMetricsProm => _ ← decode_empty; mret CmdMetricsProm
  | OpList => _ ← decode_empty; mret CmdList
  | OpClear => _ ← decode_empty; mret CmdClear
  | OpCount => _ ← decode_empty; mret CmdCount
  | OpSave => _ ← decode_empty; mret CmdSave
  | OpSnapshot => _ ← decode_empty; mret CmdSnapshot
  | OpBackup => _ ← decode_empty; mret CmdBackup
  | OpBackupTo => path ← decode_single_key; mret (CmdBackupTo path)
  | OpBackupVerify => dump ← decode_dump; mret (CmdBackupVerify dump)
  | OpBackupVerifyFrom => path ← decode_single_key; mret (CmdBackupVerifyFrom path)
  | OpRestore => dump ← decode_dump; mret (CmdRestore dump)
  | OpRestoreFrom => path ← decode_single_key; mret (CmdRestoreFrom path)
  | OpRestoreCheck => dump ← decode_dump; mret (CmdRestoreCheck dump)
  | OpRestoreCheckFrom => path ← decode_single_key; mret (CmdRestoreCheckFrom path)
  | OpAlterUserPassword => '(username, password) ← decode_key_value; mret (CmdAlterUserPassword username password)
  | OpCreateUser => '(username, password) ← decode_key_value; mret (CmdCreateUser username password)
  | OpDropUser => username ← decode_single_key; mret (CmdDropUser username)
  | OpCreateRole => role ← decode_single_key; mret (CmdCreateRole role)
  | OpDropRole => role ← decode_single_key; mret (CmdDropRole role)
  | OpGrantRole => '(role, username) ← decode_key_value; mret (CmdGrantRole role username)
  | OpRevokeRole => '(role, username) ← decode_key_value; mret (CmdRevokeRole role username)
  | OpGrantPermission => '(permission, pattern, role) ← decode_three_strings; mret (CmdGrantPermission permission pattern role)
  | OpRevokePermission => '(permission, pattern, role) ← decode_three_strings; mret (CmdRevokePermission permission pattern role)
  | OpShowUsers => _ ← decode_empty; mret CmdShowUsers
  | OpShowRoles => _ ← decode_empty; mret CmdShowRoles
  | OpShowGrants => _ ← decode_empty; mret CmdShowGrants
  | OpShowGrantsForUser => username ← decode_single_key; mret (CmdShowGrantsForUser username)
  | OpShowGrantsForRole => role ← decode_single_key; mret (CmdShowGrantsForRole role)
  | OpWhoAmI => _ ← decode_empty; mret CmdWhoAmI
  | OpMulti => _ ← decode_empty; mret CmdMulti
  | OpExec => _ ← decode_empty; mret CmdExec
  | OpDiscard => _ ← decode_empty; mret CmdDiscard
  | OpMaintenanceOn => _ ← decode_empty; mret CmdMaintenanceOn
  | OpMaintenanceOff => _ ← decode_empty; mret CmdMaintenanceOff
  | OpMaintenanceStatus => _ ← decode_empty; mret CmdMaintenanceStatus
  | OpHealth => _ ← decode_empty; mret CmdHealth
  | OpShowCluster => _ ← decode_empty; mret CmdShowCluster
  | OpClusterJoin => '(node_id, address) ← decode_key_value; mret (CmdClusterJoin node_id address)
  | OpClusterRemove => node_id ← decode_single_key; mret (CmdClusterRemove node_id)
  | OpShowReplication => _ ← decode_empty; mret CmdShowReplication
  | OpPromoteFollower => _ ← decode_empty; mret CmdPromoteFollower
  | OpPauseReplication => _ ← decode_empty; mret CmdPauseReplication
  | OpResumeReplication => _ ← decode_empty; mret CmdResumeReplication
  | OpReplicationStatus | OpReplicationSnapshot | OpReplicationFetch | OpReplicationAck
  | OpReplicationVote | OpReplicationHeartbeat | OpReplicationAppend
  | OpReplicationInstallSnapshot => raise (TrnUnsupportedCommand "replication")
  end.

Definition into_command (request : Request) : outcome TransportError Command :=
  read_from (command_reader (rq_opcode request)) (rq_payload request).

(** ** Decoding inverts encoding *)

Section round_trip.

Lemma inverse_expiration e :
  option_ok expiration_typed e -> inverse (encode_expiration e) decode_expiration e.
Proof.
  unfold decode_expiration. destruct e as [[z|z]|]; cbn [option_ok expiration_typed encode_expiration];
    intros Hz; [apply (inverse_need_uint 1 1) | apply (inverse_need_uint 1 2) | apply (inverse_need_last 1 0)];
    try done; apply (inverse_need_last 8); unfold_widths; done || (cbn; lia).
Qed.

Lemma inverse_condition c : inverse (put_u8 (encode_condition c)) decode_condition c.
Proof. by destruct c as [[]|]; apply (inverse_need_last 1). Qed.

(** Reading one optional field: the flag of SET's version is only looked for when
    bytes are left. *)
Lemma inverse_if_version v :
  option_ok is_u64 v ->
  inverse match v with Some version => _ ← put_u8 1; put_u64 version | None => put_u8 0 end
    decode_if_version v.
Proof.
  intros Hv. set (k := fun flag : Z =>
    if flag =? 0 then mret None
    else if flag =? 1 then _ ← need 8; value ← get_u64; mret (Some value)
    else raise TrnCorruptedPayload : reader (option Z)).
  assert (inverse match v with Some version => _ ← put_u8 1; put_u64 version | None => put_u8 0 end
            (_ ← need (Z.of_nat 1); flag ← get_uint 1; k flag) v) as Hi.
  { destruct v as [z|]; [apply (inverse_need_uint 1 1); [lia|]|by apply (inverse_need_last 1 0)].
    apply (inverse_need_last 8); [unfold_widths; cbn in *; lia|done]. }
  intros buf buf' Hw. destruct (Hi _ _ Hw) as (bs & -> & Hr). exists bs. split; [done|]. intros rest.
  rewrite <- (Hr rest). destruct bs as [|b bs].
  - exfalso. rewrite app_nil_r in Hw. destruct v; injection Hw as Hw; apply (f_equal length) in Hw;
      rewrite ?length_app in Hw; cbn in Hw; lia.
  - change (b :: bs) with ([b] ++ bs). rewrite <- app_assoc. by rewrite need_app.
Qed.

Lemma inverse_end_set key value options :
  str_ok key -> SetOptions_typed options ->
  inverse_end (encode_set key value options) decode_set (key, value, options).
Proof.
  intros Hk [Hv He]. unfold encode_set, decode_set.
  eapply inverse_seq_end; [by apply inverse_string_u16|]. eapply inverse_seq_end; [apply inverse_bytes_u32|].
  eapply inverse_seq_end; [apply inverse_condition|]. eapply inverse_seq_end; [by apply inverse_expiration|].
  eapply inverse_seq_end; [apply inverse_bool|]. eapply inverse_seq_end; [apply inverse_bool|].
  eapply inverse_last; [by apply inverse_if_version|]. by destruct options.
Qed.

Lemma inverse_pair kv :
  str_ok kv.1 -> inverse (let '(key, value) := kv in _ ← put_string_u16 key; put_bytes_u32 value) read_pair kv.
Proof.
  destruct kv as [k v]. intros Hk. eapply inverse_seq; [by apply inverse_string_u16|].
  eapply inverse_map; [apply inverse_bytes_u32|done].
Qed.

(** A list with a 16-bit count in front. *)
Lemma inverse_end_counted {A} (put : A -> writer) (read : reader A) xs :
  Forall (fun x => inverse (put x) read x) xs ->
  inverse_end (count ← mpure (checked_len u16_max xs); _ ← put_u16 count; mfor put xs)
    (_ ← need 2; count ← get_u16; xs ← read_many (Z.to_nat count) read; _ ← ensure_empty; mret xs) xs.
Proof.
  intros Hxs buf buf' (? & z & [= <- Hz] & Hw)%fallible_bind_ok.
  unfold checked_len in Hz. destruct (Z.leb_spec (Z.of_nat (length xs)) u16_max); [|done].
  injection Hz as <-. revert buf buf' Hw. apply (inverse_end_need_uint 2); [unfold_widths; cbn; lia|].
  rewrite Nat2Z.id. eapply inverse_last; [by apply inverse_many|done].
Qed.

Lemma inverse_end_optional_string s :
  option_ok str_ok s -> inverse_end (encode_optional_string s) decode_optional_string s.
Proof.
  intros Hs. unfold decode_optional_string. destruct s as [s|].
  - apply (inverse_end_need_uint 1 1); [lia|]. eapply inverse_last; [by apply inverse_string_u32|done].
  - by apply (inverse_end_need_last 1 0).
Qed.

Lemma inverse_end_scan cursor pattern count :
  is_u64 cursor -> option_ok str_ok pattern -> option_ok is_u16 count ->
  inverse_end (encode_scan cursor pattern count) decode_scan (cursor, pattern, count).
Proof.
  intros Hc Hp Hn. unfold decode_scan, encode_scan. apply (inverse_end_need 10).
  { apply (grows_seq 8 2); [apply grows_uint|]. apply (grows_seq 1 1).
    - destruct pattern; [apply (grows_seq 1 0); [apply grows_uint|apply grows_string_u16]|apply grows_uint].
    - destruct count; [|apply grows_uint]. intros buf buf' Hw.
      apply (grows_seq 1 2) in Hw; [lia|apply grows_uint..]. }
  eapply inverse_seq_end; [apply (inverse_uint 8); unfold_widths; cbn in *; lia|].
  apply inverse_end_assoc. eapply (inverse_seq_end _ _ _ _ pattern).
  { destruct pattern as [s|]; [|by apply (inverse_map (put_u8 0) _ _ 0); [apply (inverse_uint 1)|]].
    eapply (inverse_seq (put_u8 1) _ get_u8 _ 1); [by apply (inverse_uint 1)|].
    eapply inverse_map; [by apply inverse_string_u16|done]. }
  apply inverse_end_assoc. apply (inverse_last _ _ _ count); [|done].
  destruct count as [n|]; [|by apply (inverse_map (put_u8 0) _ _ 0); [apply (inverse_uint 1)|]].
  eapply (inverse_seq (put_u8 1) _ get_u8 _ 1); [by apply (inverse_uint 1)|].
  apply (inverse_need_last 2); [unfold_widths; cbn in *; lia|done].
Qed.

(** A reader followed by a constructor. *)
Lemma inverse_end_bind {A B} w (r : reader A) (k : A -> reader B) a b :
  inverse_end w r a -> k a [] = ([], Ok b) -> inverse_end w (r ≫= k) b.
Proof.
  intros Hi Hk buf buf' Hw. destruct (Hi _ _ Hw) as (bs & -> & Hr). exists bs. split; [done|].
  unfold mbind, fallible_bind. by rewrite Hr.
Qed.

Lemma inverse_end_key s : str_ok s -> inverse_end (encode_key s) decode_single_key s.
Proof. intros Hs. eapply inverse_last; [by apply inverse_string_u16|done]. Qed.

Lemma inverse_end_dump s : str_ok s -> inverse_end (encode_dump s) decode_dump s.
Proof. intros Hs. eapply inverse_last; [by apply inverse_string_u32|done]. Qed.

Lemma inverse_end_key_value a b :
  str_ok a -> str_ok b -> inverse_end (encode_key_value a b) decode_key_value (a, b).
Proof.
  intros Ha Hb. eapply inverse_seq_end; [by apply inverse_string_u16|].
  eapply inverse_last; [by apply inverse_string_u32|done].
Qed.

Lemma inverse_end_key_bytes a b :
  str_ok a -> inverse_end (encode_key_bytes a b) decode_key_bytes (a, b).
Proof.
  intros Ha. eapply inverse_seq_end; [by apply inverse_string_u16|].
  eapply inverse_last; [by apply inverse_bytes_u32|done].
Qed.

Lemma inverse_end_three a b c :
  str_ok a -> str_ok b -> str_ok c ->
  inverse_end (encode_three_strings a b c) decode_three_strings (a, b, c).
Proof.
  intros Ha Hb Hc. do 2 (eapply inverse_seq_end; [by apply inverse_string_u16|]).
  eapply inverse_last; [by apply inverse_string_u16|done].
Qed.

Lemma inverse_end_key_u64 a z :
  str_ok a -> is_u64 z -> inverse_end (encode_key_u64 a z) decode_key_u64 (a, z).
Proof.
  intros Ha Hz. eapply inverse_seq_end; [by apply inverse_string_u16|].
  apply (inverse_end_need_last 8); [unfold_widths; cbn in *; lia|done].
Qed.

Lemma inverse_end_get_ex key e p :
  str_ok key -> option_ok expiration_typed e ->
  inverse_end (encode_get_ex key e p) decode_get_ex (key, e, p).
Proof.
  intros Hk He. eapply inverse_seq_end; [by apply inverse_string_u16|].
  eapply inverse_seq_end; [by apply inverse_expiration|]. eapply inverse_last; [apply inverse_bool|done].
Qed.

Lemma inverse_end_keys keys : Forall str_ok keys -> inverse_end (encode_keys keys) decode_keys keys.
Proof.
  intros Hk. apply inverse_end_counted. eapply Forall_impl; [exact Hk|]. apply inverse_string_u16.
Qed.

Lemma inverse_end_pairs entries :
  Forall str_ok entries.*1 -> inverse_end (encode_byte_pairs entries) decode_pairs entries.
Proof.
  rewrite Forall_fmap. intros Hk. apply inverse_end_counted. eapply Forall_impl; [exact Hk|].
  apply inverse_pair.
Qed.

Lemma inverse_end_empty : inverse_end (mret tt) decode_empty tt.
Proof. intros buf buf' [= <-]. exists []. by rewrite app_nil_r. Qed.

#[local] Hint Resolve inverse_end_key inverse_end_dump inverse_end_key_value inverse_end_key_bytes
  inverse_end_three inverse_end_key_u64 inverse_end_get_ex inverse_end_keys inverse_end_pairs
  inverse_end_empty inverse_end_set inverse_end_optional_string inverse_end_scan : wire.

Lemma command_round_trip id c r :
  command_typed c -> from_command id c = Ok r -> rq_request_id r = id /\ into_command r = Ok c.
Proof.
  intros Ht Hc. destruct c; cbn [from_command command_typed] in *; try discriminate Hc;
    destruct_and?; apply result_bind_ok in Hc as (p & Hp & [= <-]); (split; [done|]);
    unfold into_command; cbn [rq_opcode rq_payload new_request command_reader];
    (eapply inverse_end_written; [|exact Hp]);
    (eapply inverse_end_bind; [eauto with wire|done]).
Qed.

End round_trip.
