(* ===== verification/Response.v ===== *)
(** * Response: server responses (crates/transport/src/response/mod.rs)

    Builders and decoders of response payloads, with the typed results of EXEC.
    Buffer capacities are hints without effect and are left out. *)

From S2P Require Import Prelude Text Command Wire Opcode Request.

Record ErrorPayload := mkErrorPayload { ep_code : string; ep_name : string; ep_message : string }.

Record ScanPayload := mkScanPayload { scan_next_cursor : Z; scan_keys : list string }.

Inductive ExecResultPayload :=
| ExecOk
| ExecNotFound
| ExecValue (value : list byte)
| ExecBoolean (value : bool)
| ExecCount (value : Z)
| ExecInteger (value : Z)
| ExecEntries (entries : list (string * list byte))
| ExecStrings (values : list (option (list byte)))
| ExecScan (scan : ScanPayload).

Inductive Status := StatusOk | StatusError | StatusNotFound.

#[export] Instance Status_eq_dec : EqDecision Status.
Proof. solve_decision. Defined.

(** [From<Status> for u8] and [TryFrom<u8> for Status]. *)
Definition status_to_u8 (status : Status) : Z :=
  match status with StatusOk => 0x00 | StatusError => 0x01 | StatusNotFound => 0x02 end.

Definition status_try_from (value : Z) : result TransportError Status :=
  if value =? 0x00 then Ok StatusOk
  else if value =? 0x01 then Ok StatusError
  else if value =? 0x02 then Ok StatusNotFound
  else Err (TrnUnknownStatus value).

Record Response := mkResponse {
  rs_request_id : Uuid;
  rs_status : Status;
  rs_payload : list byte;
}.

(** ** Fields *)

Definition encode_error_payload (code name message : string) : writer :=
  _ ← put_string_u16 code; _ ← put_string_u16 name; put_string_u32 message.

Definition decode_error_payload : reader ErrorPayload :=
  code ← read_string_u16;
  name ← read_string_u16;
  message ← read_string_u32;
  _ ← ensure_empty;
  mret (mkErrorPayload code name message).

Definition decode_bytes_u32 : reader (list byte) :=
  value ← read_bytes_u32; _ ← ensure_empty; mret value.

(** [for (key, value) in entries { ... }] of the builders. *)
Definition put_entry (entry : string * list byte) : writer :=
  _ ← put_string_u16 entry.1; put_bytes_u32 entry.2.

Definition put_optional (value : option (list byte)) : writer :=
  match value with
  | Some value => _ ← put_u8 1; put_bytes_u32 value
  | None => put_u8 0
  end.

Definition read_optional : reader (option (list byte)) :=
  _ ← need 1;
  flag ← get_u8;
  if flag =? 0 then mret None
  else if flag =? 1 then value ← read_bytes_u32; mret (Some value)
  else raise TrnCorruptedPayload.

(** A list with a 32-bit count in front. *)
Definition put_list {A} (put : A -> writer) (xs : list A) : writer :=
  count ← mpure (checked_len u32_max xs);
  _ ← put_u32 count;
  mfor put xs.

Definition encode_exec_result (result : ExecResultPayload) : writer :=
  match result with
  | ExecOk => put_u8 0x00
  | ExecNotFound => put_u8 0x01
  | ExecValue value => _ ← put_u8 0x02; put_bytes_u32 value
  | ExecBoolean value => _ ← put_u8 0x03; put_u8 (u8_of_bool value)
  | ExecCount value => _ ← put_u8 0x04; put_u64 value
  | ExecInteger value => _ ← put_u8 0x05; put_i64 value
  | ExecEntries entries => _ ← put_u8 0x06; put_list put_entry entries
  | ExecStrings values => _ ← put_u8 0x07; put_list put_optional values
  | ExecScan scan =>
      _ ← put_u8 0x08;
      _ ← put_u64 (scan_next_cursor scan);
      put_list put_string_u16 (scan_keys scan)
  end.

Definition read_list {A} (read : reader A) : reader (list A) :=
  _ ← need 4;
  count ← get_u32;
  read_many (Z.to_nat count) read.

Definition decode_exec_result : reader ExecResultPayload :=
  _ ← need 1;
  tag ← get_u8;
  if tag =? 0x00 then mret ExecOk
  else if tag =? 0x01 then mret ExecNotFound
  else if tag =? 0x02 then value ← read_bytes_u32; mret (ExecValue value)
  else if tag =? 0x03 then value ← read_bool; mret (ExecBoolean value)
  else if tag =? 0x04 then _ ← need 8; value ← get_u64; mret (ExecCount value)
  else if tag =? 0x05 then _ ← need 8; value ← get_i64; mret (ExecInteger value)
  else if tag =? 0x06 then entries ← read_list read_pair; mret (ExecEntries entries)
  else if tag =? 0x07 then values ← read_list read_optional; mret (ExecStrings values)
  else if tag =? 0x08 then
    _ ← need 12;
    next_cursor ← get_u64;
    key_count ← get_u32;
    keys ← read_many (Z.to_nat key_count) read_string_u16;
    mret (ExecScan (mkScanPayload next_cursor keys))
  else raise TrnCorruptedPayload.

Module Response.

(** ** Builders *)

Definition new := mkResponse.
Definition ok (id : Uuid) : Response := new id StatusOk [].
Definition not_found (id : Uuid) : Response := new id StatusNotFound [].

Definition build (id : Uuid) (status : Status) (payload : writer) : result TransportError Response :=
  payload ← written payload; Ok (new id status payload).

Definition error (id : Uuid) (code name message : string) : result TransportError Response :=
  build id StatusError (encode_error_payload code name message).

Definition value_bytes (id : Uuid) (value : list byte) : result TransportError Response :=
  build id StatusOk (put_bytes_u32 value).

Definition value (id : Uuid) (value : string) : result TransportError Response :=
  value_bytes id (as_bytes value).

Definition boolean (id : Uuid) (value : bool) : Response := new id StatusOk (to_be 1 (u8_of_bool value)).
Definition count (id : Uuid) (count : Z) : Response := new id StatusOk (to_be 8 count).
Definition integer (id : Uuid) (value : Z) : Response := new id StatusOk (to_be 8 (value mod 2 ^ 64)).

Definition byte_entries (id : Uuid) (entries : list (string * list byte)) : result TransportError Response :=
  build id StatusOk (put_list put_entry entries).

Definition entries (id : Uuid) (entries : list (string * string)) : result TransportError Response :=
  byte_entries id ((fun '(key, value) => (key, as_bytes value)) <$> entries).

Definition byte_strings (id : Uuid) (values : list (option (list byte))) : result TransportError Response :=
  build id StatusOk (put_list put_optional values).

Definition strings (id : Uuid) (values : list (option string)) : result TransportError Response :=
  byte_strings id ((fun value : option string => as_bytes <$> value) <$> values).

(** The count is checked before anything is written. *)
Definition scan (id : Uuid) (next_cursor : Z) (keys : list string) : result TransportError Response :=
  build id StatusOk (key_count ← mpure (checked_len u32_max keys);
                     _ ← put_u64 next_cursor;
                     _ ← put_u32 key_count;
                     mfor put_string_u16 keys).

Definition exec_results (id : Uuid) (results : list ExecResultPayload) : result TransportError Response :=
  build id StatusOk (put_list encode_exec_result results).

(** ** Decoders *)

(** [String::from_utf8]. *)
Definition utf8 (bs : list byte) : outcome TransportError string :=
  ok_or (from_utf8 bs) (Raised TrnInvalidUtf8).

Definition decode_value_bytes (r : Response) : outcome TransportError (list byte) :=
  read_from decode_bytes_u32 (rs_payload r).

Definition decode_value (r : Response) : outcome TransportError string :=
  value ← decode_value_bytes r; utf8 value.

Definition decode_error (r : Response) : outcome TransportError ErrorPayload :=
  read_from decode_error_payload (rs_payload r).

Definition decode_error_message (r : Response) : outcome TransportError string :=
  payload ← decode_error r; Ok (ep_message payload).

Definition decode_bool (r : Response) : outcome TransportError bool :=
  match rs_payload r with
  | [x00] => Ok false
  | [x01] => Ok true
  | _ => fail TrnCorruptedPayload
  end.

Definition decode_count (r : Response) : outcome TransportError Z :=
  read_from (_ ← need 8; count ← get_u64; _ ← ensure_empty; mret count) (rs_payload r).

Definition decode_integer (r : Response) : outcome TransportError Z :=
  read_from (_ ← need 8; value ← get_i64; _ ← ensure_empty; mret value) (rs_payload r).

Definition decode_byte_entries (r : Response) : outcome TransportError (list (string * list byte)) :=
  read_from (entries ← read_list read_pair; _ ← ensure_empty; mret entries) (rs_payload r).

Definition decode_entries (r : Response) : outcome TransportError (list (string * string)) :=
  entries ← decode_byte_entries r;
  collect (fun '(key, value) => value ← utf8 value; Ok (key, value)) entries.

Definition decode_byte_strings (r : Response) : outcome TransportError (list (option (list byte))) :=
  read_from (values ← read_list read_optional; _ ← ensure_empty; mret values) (rs_payload r).

Definition decode_strings (r : Response) : outcome TransportError (list (option string)) :=
  values ← decode_byte_strings r;
  collect (fun value => match value with
                        | Some value => value ← utf8 value; Ok (Some value)
                        | None => Ok None
                        end) values.

Definition decode_scan (r : Response) : outcome TransportError ScanPayload :=
  read_from (_ ← need 12;
             next_cursor ← get_u64;
             key_count ← get_u32;
             keys ← read_many (Z.to_nat key_count) read_string_u16;
             _ ← ensure_empty;
             mret (mkScanPayload next_cursor keys)) (rs_payload r).

Definition decode_exec_results (r : Response) : outcome TransportError (list ExecResultPayload) :=
  read_from (results ← read_list decode_exec_result; _ ← ensure_empty; mret results) (rs_payload r).

End Response.
