(* ===== verification/EngineError.v ===== *)
(** * EngineError: the engine's errors (crates/engine/src/error.rs)

    [std::io::Error] is carried by its message, the only part of it the engine
    looks at. *)

From S2P Require Import Prelude Text.

Inductive EngineError :=
| ProjectDirsUnavailable
| Io (message : string)
| SnapshotSerialize (message : string)
| SnapshotDeserialize (message : string)
| ManifestSerialize (message : string)
| ManifestDeserialize (message : string)
| ChecksumMismatch (resource : string)
| CryptoFailure (resource : string)
| UnsupportedStorageFormat (resource : string)
| StorageMigrationRequired (resource : string)
| InvalidStorageOperation (message : string)
| RestorePointUnavailable (message : string)
| WalSerialize (message : string)
| WalDeserialize (message : string)
| InvalidIntegerValue (key value : string)
| NumericOverflow (key : string)
| UnsupportedCommand (message : string).

#[export] Instance EngineError_eq_dec : EqDecision EngineError.
Proof. solve_decision. Defined.

Definition EngineError_code (e : EngineError) : string :=
  match e with
  | ProjectDirsUnavailable => "ENG-001"
  | Io _ => "ENG-002"
  | SnapshotSerialize _ => "ENG-003"
  | SnapshotDeserialize _ => "ENG-004"
  | ManifestSerialize _ => "ENG-005"
  | ManifestDeserialize _ => "ENG-006"
  | ChecksumMismatch _ => "ENG-007"
  | CryptoFailure _ => "ENG-008"
  | UnsupportedStorageFormat _ => "ENG-009"
  | StorageMigrationRequired _ => "ENG-010"
  | InvalidStorageOperation _ => "ENG-011"
  | RestorePointUnavailable _ => "ENG-012"
  | WalSerialize _ => "ENG-013"
  | WalDeserialize _ => "ENG-014"
  | InvalidIntegerValue _ _ => "ENG-015"
  | NumericOverflow _ => "ENG-016"
  | UnsupportedCommand _ => "ENG-017"
  end.

Definition EngineError_name (e : EngineError) : string :=
  match e with
  | ProjectDirsUnavailable => "Project Directories Unavailable"
  | Io _ => "Filesystem I/O Failure"
  | SnapshotSerialize _ => "Snapshot Serialization Failure"
  | SnapshotDeserialize _ => "Snapshot Deserialization Failure"
  | ManifestSerialize _ => "Manifest Serialization Failure"
  | ManifestDeserialize _ => "Manifest Deserialization Failure"
  | ChecksumMismatch _ => "Checksum Validation Failure"
  | CryptoFailure _ => "Encrypted Storage Failure"
  | UnsupportedStorageFormat _ => "Unsupported Storage Format"
  | StorageMigrationRequired _ => "Storage Migration Required"
  | InvalidStorageOperation _ => "Invalid Storage Operation"
  | RestorePointUnavailable _ => "Restore Point Unavailable"
  | WalSerialize _ => "WAL Serialization Failure"
  | WalDeserialize _ => "WAL Deserialization Failure"
  | InvalidIntegerValue _ _ => "Invalid Integer Value"
  | NumericOverflow _ => "Numeric Overflow"
  | UnsupportedCommand _ => "Unsupported Command"
  end.

(** [Display]. *)
Definition EngineError_text (e : EngineError) : string :=
  match e with
  | ProjectDirsUnavailable => "could not determine project directories"
  | Io message => "filesystem I/O failed: " +:+ message
  | SnapshotSerialize message => "snapshot serialization failed: " +:+ message
  | SnapshotDeserialize message => "snapshot deserialization failed: " +:+ message
  | ManifestSerialize message => "manifest serialization failed: " +:+ message
  | ManifestDeserialize message => "manifest deserialization failed: " +:+ message
  | ChecksumMismatch resource => "checksum validation failed for " +:+ resource
  | CryptoFailure resource => "encrypted storage operation failed for " +:+ resource
  | UnsupportedStorageFormat resource => "unsupported storage format for " +:+ resource
  | StorageMigrationRequired resource => "storage migration is required for " +:+ resource
  | InvalidStorageOperation message => "invalid storage operation: " +:+ message
  | RestorePointUnavailable message => "restore point is unavailable: " +:+ message
  | WalSerialize message => "write-ahead log serialization failed: " +:+ message
  | WalDeserialize message => "write-ahead log deserialization failed: " +:+ message
  | InvalidIntegerValue key value => "value for key '" +:+ key +:+ "' is not a valid integer: " +:+ value
  | NumericOverflow key => "numeric overflow for key '" +:+ key +:+ "'"
  | UnsupportedCommand message => message
  end.
