(* ===== verification/Store.v ===== *)
(** * Store: the live keyspace (crates/engine/src/engine/store.rs)

    The sharded [DashMap<String, StoredValue>] is a finite map.  The iteration
    order of a [DashMap] is unspecified; the source sorts wherever the order
    can be seen, and so does the model. *)

From S2P Require Import Prelude Text.

Record StoredValue := mkStoredValue {
  sv_value : list byte;
  sv_expires_at_ms : option Z;
  sv_version : Z;
}.

#[export] Instance StoredValue_eq_dec : EqDecision StoredValue.
Proof. solve_decision. Defined.

Notation EngineStore := (gmap string StoredValue).

Module EngineStore.

Definition new : EngineStore := ∅.

Definition from_parts (data : gmap string (list byte)) (expirations : gmap string Z)
    : EngineStore :=
  map_imap (fun key value => Some (mkStoredValue value (expirations !! key) 1)) data.

Definition from_entries (entries : gmap string StoredValue) : EngineStore := entries.

Definition to_entries (s : EngineStore) : gmap string StoredValue := s.

Definition to_parts (s : EngineStore) : gmap string (list byte) * gmap string Z :=
  (sv_value <$> s, omap sv_expires_at_ms s).

Definition len (s : EngineStore) : Z := Z.of_nat (size s).

Definition is_empty (s : EngineStore) : bool := bool_decide (s = ∅).

Definition clear (s : EngineStore) : EngineStore := ∅.

Definition get (s : EngineStore) (key : string) : option StoredValue := s !! key.

Definition get_value (s : EngineStore) (key : string) : option (list byte) :=
  sv_value <$> s !! key.

Definition contains_key (s : EngineStore) (key : string) : bool := is_some (s !! key).

Definition expiration (s : EngineStore) (key : string) : option Z :=
  s !! key ≫= sv_expires_at_ms.

Definition insert_value_with_version (s : EngineStore) (key : string) (value : list byte)
    (version : Z) : EngineStore :=
  <[key := mkStoredValue value None version]> s.

Definition insert_value (s : EngineStore) (key : string) (value : list byte) : EngineStore :=
  let version := match s !! key with
                 | Some entry => saturating_add (sv_version entry) 1
                 | None => 1
                 end in
  insert_value_with_version s key value version.

Definition insert_entry (s : EngineStore) (key : string) (entry : StoredValue) : EngineStore :=
  <[key := entry]> s.

(** [remove] returns the entry it took out. *)
Definition remove (s : EngineStore) (key : string) : EngineStore * option StoredValue :=
  (delete key s, s !! key).

Definition set_expiration_if_present (s : EngineStore) (key : string) (expires_at_ms : Z)
    : EngineStore * bool :=
  match s !! key with
  | Some entry =>
      (<[key := mkStoredValue (sv_value entry) (Some expires_at_ms) (sv_version entry)]> s, true)
  | None => (s, false)
  end.

Definition clear_expiration (s : EngineStore) (key : string) : EngineStore * bool :=
  match s !! key with
  | Some entry =>
      (<[key := mkStoredValue (sv_value entry) None (sv_version entry)]> s,
       is_some (sv_expires_at_ms entry))
  | None => (s, false)
  end.

(** The filter of [purge_expired]: a deadline at or before [now_ms]. *)
Definition is_expired (now_ms : Z) (entry : StoredValue) : bool :=
  match sv_expires_at_ms entry with
  | Some expires_at_ms => expires_at_ms <=? now_ms
  | None => false
  end.

(** The removal loop of [purge_expired]. *)
Fixpoint remove_keys (s : EngineStore) (keys : list string) (removed : Z) : EngineStore * Z :=
  match keys with
  | [] => (s, removed)
  | key :: keys =>
      let '(s', old) := remove s key in
      remove_keys s' keys (if is_some old then removed + 1 else removed)
  end.

Definition purge_expired (s : EngineStore) (now_ms : Z) : EngineStore * Z :=
  let expired_keys :=
    (List.filter (fun kv => is_expired now_ms kv.2) (map_to_list s)).*1 in
  remove_keys s expired_keys 0.

Definition keys_sorted (s : EngineStore) : list string :=
  merge_sort String.le (map_to_list s).*1.

Definition live_keys_sorted (s : EngineStore) (now_ms : Z) : EngineStore * list string :=
  let '(s', _) := purge_expired s now_ms in (s', keys_sorted s').

(** Comparison of [live_entries_sorted]: by key. *)
Definition key_le {A} (x y : string * A) : Prop := String.le x.1 y.1.

#[export] Instance key_le_dec {A} (x y : string * A) : Decision (key_le x y).
Proof. unfold key_le. apply _. Defined.

Definition live_entries_sorted (s : EngineStore) (now_ms : Z)
    : EngineStore * list (string * list byte) :=
  let '(s', _) := purge_expired s now_ms in
  (s', merge_sort key_le ((fun kv => (kv.1, sv_value kv.2)) <$> map_to_list s')).

(** [PartialEq for EngineStore]: data and deadlines, not versions. *)
Definition eq (s t : EngineStore) : bool := bool_decide (to_parts s = to_parts t).

End EngineStore.

#[global] Arguments EngineStore.insert_value_with_version _ _ _ _ /.
#[global] Arguments EngineStore.insert_entry _ _ _ /.
#[global] Arguments EngineStore.get _ _ /.

(** ** The live view *)

(** The entries not expired at [now_ms]. *)
Definition live (now_ms : Z) (s : EngineStore) : EngineStore :=
  filter (fun kv => EngineStore.is_expired now_ms kv.2 = false) s.

Lemma lookup_live now s k :
  live now s !! k =
    e ← s !! k; if EngineStore.is_expired now e then None else Some e.
Proof.
  unfold live. rewrite map_lookup_filter. destruct (s !! k) as [e|]; cbn; [|done].
  destruct (EngineStore.is_expired now e) eqn:E; cbn.
  - rewrite option_guard_False by congruence. done.
  - by rewrite option_guard_True.
Qed.

Lemma lookup_remove_keys s keys n k :
  (EngineStore.remove_keys s keys n).1 !! k = if decide (k ∈ keys) then None else s !! k.
Proof.
  revert s n. induction keys as [|key keys IH]; intros s n; [done|]. cbn. rewrite IH.
  destruct (decide (k = key)) as [->|Hne].
  - rewrite lookup_delete_eq. repeat case_decide; set_solver.
  - rewrite lookup_delete_ne by done. repeat case_decide; set_solver.
Qed.

Lemma remove_keys_count s keys n :
  NoDup keys -> (forall k, k ∈ keys -> is_Some (s !! k)) ->
  (EngineStore.remove_keys s keys n).2 = n + Z.of_nat (length keys).
Proof.
  revert s n. induction keys as [|key keys IH]; intros s n; cbn; [lia|].
  intros [Hnin Hnd]%NoDup_cons Hin.
  destruct (Hin key) as [e ->]; [left|]. cbn. rewrite IH; [lia|done|].
  intros k Hk. rewrite lookup_delete_ne by set_solver. apply Hin. by right.
Qed.

Section purge.
Context (s : EngineStore) (now : Z).

Definition expired_keys : list string :=
  (List.filter (fun kv => EngineStore.is_expired now kv.2) (map_to_list s)).*1.

Lemma elem_of_expired_keys k :
  k ∈ expired_keys <-> exists e, s !! k = Some e /\ EngineStore.is_expired now e = true.
Proof.
  unfold expired_keys. rewrite list_elem_of_fmap. split.
  - intros ([k' e] & -> & Hin%list_elem_of_In%filter_In). destruct Hin as [Hin He].
    exists e. by rewrite <- elem_of_map_to_list, list_elem_of_In.
  - intros (e & Hl & He). exists (k, e). split; [done|].
    apply list_elem_of_In, filter_In. by rewrite <- list_elem_of_In, elem_of_map_to_list.
Qed.

(** Purging leaves exactly the live entries. *)
Lemma purge_expired_live : (EngineStore.purge_expired s now).1 = live now s.
Proof.
  apply map_eq. intros k. unfold EngineStore.purge_expired.
  rewrite lookup_remove_keys, lookup_live. fold expired_keys.
  case_decide as Hk; rewrite elem_of_expired_keys in Hk.
  - destruct Hk as (e & -> & He). cbn. by rewrite He.
  - destruct (s !! k) as [e|]; cbn; [|done].
    destruct (EngineStore.is_expired now e) eqn:E; [|done]. naive_solver.
Qed.

Lemma expired_keys_NoDup : NoDup expired_keys.
Proof.
  unfold expired_keys. pose proof (NoDup_fst_map_to_list s) as H.
  induction (map_to_list s) as [|[k e] l IH]; cbn in *; [constructor|].
  apply NoDup_cons in H as [Hn Hnd]. case_match; [|by apply IH]. cbn. constructor; [|by apply IH].
  intros Hin. apply Hn. apply list_elem_of_fmap in Hin as (x & Hx & Hin).
  apply list_elem_of_In, filter_In in Hin as [Hin _].
  apply list_elem_of_fmap. exists x. by rewrite list_elem_of_In.
Qed.

Lemma purge_expired_count :
  (EngineStore.purge_expired s now).2 = Z.of_nat (length expired_keys).
Proof.
  unfold EngineStore.purge_expired. fold expired_keys.
  rewrite remove_keys_count; [done|apply expired_keys_NoDup|].
  intros k (e & He & _)%elem_of_expired_keys. by exists e.
Qed.

(** The count is zero exactly when nothing was removed. *)
Lemma purge_expired_none : (EngineStore.purge_expired s now).2 = 0 <-> live now s = s.
Proof.
  rewrite purge_expired_count. split.
  - intros H. apply map_eq. intros k. rewrite lookup_live.
    destruct (s !! k) as [e|] eqn:E; cbn; [|done]. destruct (EngineStore.is_expired now e) eqn:Ex; [|done].
    assert (k ∈ expired_keys) as Hin by (apply elem_of_expired_keys; eauto).
    destruct expired_keys; [by apply elem_of_nil in Hin | cbn in H; lia].
  - intros H. destruct expired_keys as [|k l] eqn:E; [done|].
    assert (k ∈ expired_keys) as (e & He & Hx)%elem_of_expired_keys by (rewrite E; left).
    pose proof He as He'. rewrite <- H, lookup_live, He in He'. cbn in He'. by rewrite Hx in He'.
Qed.

(** The removed and the remaining entries are all the entries. *)
Lemma live_size : (length expired_keys + size (live now s) = size s)%nat.
Proof.
  unfold expired_keys. rewrite length_fmap.
  rewrite <- (length_map_to_list (live now s)), <- (length_map_to_list s). unfold live.
  rewrite map_filter_alt, map_to_list_to_map.
  2:{ eapply sublist_NoDup; [apply (NoDup_fst_map_to_list s) | apply fmap_sublist, sublist_filter]. }
  induction (map_to_list s) as [|[k e] l IH]; [done|].
  rewrite filter_cons. cbn [List.filter snd].
  destruct (EngineStore.is_expired now e) eqn:E; cbn [length].
  - rewrite decide_False by congruence. cbn in *. lia.
  - rewrite decide_True by done. cbn in *. lia.
Qed.

End purge.

Lemma live_idemp now s : live now (live now s) = live now s.
Proof.
  apply map_eq. intros k. rewrite !lookup_live. destruct (s !! k) as [e|]; cbn; [|done].
  destruct (EngineStore.is_expired now e) eqn:E; cbn; by rewrite ?E.
Qed.

Lemma is_expired_mono now now' e :
  now <= now' -> EngineStore.is_expired now e = true -> EngineStore.is_expired now' e = true.
Proof. unfold EngineStore.is_expired. case_match; [lia|done]. Qed.

(** A later purge subsumes an earlier one. *)
Lemma live_live now now' s : now <= now' -> live now' (live now s) = live now' s.
Proof.
  intros H. apply map_eq. intros k. rewrite !lookup_live. destruct (s !! k) as [e|]; cbn; [|done].
  destruct (EngineStore.is_expired now e) eqn:E; cbn; [|done].
  by rewrite (is_expired_mono now now').
Qed.

Lemma live_purged now s : live now s = s -> (EngineStore.purge_expired s now) = (s, 0).
Proof.
  intros H. apply purge_expired_none in H as Hc.
  destruct (EngineStore.purge_expired s now) eqn:E; cbn in Hc. subst.
  pose proof (purge_expired_live s now) as Hl. rewrite E in Hl. cbn in Hl. congruence.
Qed.

(** ** Sorted views *)

Lemma keys_sorted_elem s k : k ∈ EngineStore.keys_sorted s <-> is_Some (s !! k).
Proof.
  unfold EngineStore.keys_sorted. rewrite merge_sort_Permutation, list_elem_of_fmap. split.
  - intros ([k' e] & -> & H%elem_of_map_to_list). by exists e.
  - intros [e H%elem_of_map_to_list]. by exists (k, e).
Qed.

Lemma keys_sorted_NoDup s : NoDup (EngineStore.keys_sorted s).
Proof.
  unfold EngineStore.keys_sorted. rewrite merge_sort_Permutation.
  apply NoDup_fst_map_to_list.
Qed.

Lemma keys_sorted_sorted s : StronglySorted String.le (EngineStore.keys_sorted s).
Proof. apply (StronglySorted_merge_sort String.le). Qed.

Lemma keys_sorted_length s : Z.of_nat (length (EngineStore.keys_sorted s)) = EngineStore.len s.
Proof.
  unfold EngineStore.keys_sorted, EngineStore.len.
  by rewrite merge_sort_Permutation, length_fmap, length_map_to_list.
Qed.

(** * Ordered maps and sets of the Rust library

    A [BTreeMap<String, A>] is a [gmap string A], a [BTreeSet<String>] a
    [gset string]; where the source iterates over one, it does so in the order of
    the keys. *)

(** [map.iter()] and [map.values()]. *)
Definition entries_in_order {A} (m : gmap string A) : list (string * A) :=
  merge_sort EngineStore.key_le (map_to_list m).
Definition values_in_order {A} (m : gmap string A) : list A := (entries_in_order m).*2.

(** [set.iter()]. *)
Definition elements_in_order (X : gset string) : list string := merge_sort String.le (elements X).

Lemma entries_in_order_elem {A} (m : gmap string A) k a :
  (k, a) ∈ entries_in_order m <-> m !! k = Some a.
Proof. unfold entries_in_order. by rewrite merge_sort_Permutation, elem_of_map_to_list. Qed.

Lemma entries_in_order_NoDup {A} (m : gmap string A) : NoDup (entries_in_order m).*1.
Proof. unfold entries_in_order. rewrite merge_sort_Permutation. apply NoDup_fst_map_to_list. Qed.

Lemma values_in_order_elem {A} (m : gmap string A) a :
  a ∈ values_in_order m <-> exists k, m !! k = Some a.
Proof.
  unfold values_in_order. rewrite list_elem_of_fmap. split.
  - intros ([k b] & -> & Hb). exists k. by apply entries_in_order_elem.
  - intros (k & Hk). exists (k, a). split; [done|]. by apply entries_in_order_elem.
Qed.

Lemma elements_in_order_elem X k : k ∈ elements_in_order X <-> k ∈ X.
Proof. unfold elements_in_order. by rewrite merge_sort_Permutation, elem_of_elements. Qed.
