(* ===== verification/State.v ===== *)
(** * State: the replayable database state (crates/engine/src/engine/state.rs)

    [EngineState] is the keyspace with its metadata; [apply_entry] replays one
    WAL entry with the [EntryRollback] the source uses to undo it.  The clock
    readings of the source are arguments. *)

From S2P Require Import Prelude Text EngineError Store.

(** ** WAL operations and entries (crates/engine/src/store/wal.rs) *)

Inductive WalOperation :=
| WalSet (key : string) (value : list byte) (version : Z)
| WalDelete (key : string)
| WalExpire (key : string) (expires_at_ms : Z)
| WalPersist (key : string)
| WalClear
| WalCheckInteger (key : string) (delta : Z).

Record WalEntry := mkWalEntry {
  we_sequence : Z;
  we_term : Z;
  we_created_at_ms : Z;
  we_operations : list WalOperation;
}.

#[export] Instance WalOperation_eq_dec : EqDecision WalOperation.
Proof. solve_decision. Defined.
#[export] Instance WalEntry_eq_dec : EqDecision WalEntry.
Proof. solve_decision. Defined.

(** ** State *)

Definition ENGINE_VERSION : Z := 3.
Definition TTL_NO_EXPIRY : Z := -1.
Definition TTL_KEY_MISSING : Z := -2.

Record EngineMetadata := mkEngineMetadata {
  md_version : Z;
  md_created_at_ms : Z;
  md_updated_at_ms : Z;
  md_last_snapshot_at_ms : option Z;
  md_last_applied_sequence : Z;
}.

Record EngineState := mkEngineState {
  es_store : EngineStore;
  es_metadata : EngineMetadata;
}.

Definition set_updated_at (m : EngineMetadata) (t : Z) : EngineMetadata :=
  mkEngineMetadata (md_version m) (md_created_at_ms m) t (md_last_snapshot_at_ms m)
    (md_last_applied_sequence m).

Definition set_last_applied (m : EngineMetadata) (sequence : Z) : EngineMetadata :=
  mkEngineMetadata (md_version m) (md_created_at_ms m) (md_updated_at_ms m)
    (md_last_snapshot_at_ms m) sequence.

Definition set_last_snapshot_at (m : EngineMetadata) (t : option Z) : EngineMetadata :=
  mkEngineMetadata (md_version m) (md_created_at_ms m) (md_updated_at_ms m) t
    (md_last_applied_sequence m).

Definition with_store (st : EngineState) (s : EngineStore) : EngineState :=
  mkEngineState s (es_metadata st).

Module EngineState.

Definition new (now_ms : Z) : EngineState :=
  mkEngineState EngineStore.new (mkEngineMetadata ENGINE_VERSION now_ms now_ms None 0).

Definition purge_expired (st : EngineState) (now_ms : Z) : EngineState * Z :=
  let '(store, removed) := EngineStore.purge_expired (es_store st) now_ms in
  (mkEngineState store
     (if 0 <? removed then set_updated_at (es_metadata st) now_ms else es_metadata st),
   removed).

Definition get_live (st : EngineState) (key : string) (now_ms : Z)
    : EngineState * option (list byte) :=
  let '(st', _) := purge_expired st now_ms in
  (st', EngineStore.get_value (es_store st') key).

Definition has_live_key (st : EngineState) (key : string) (now_ms : Z) : EngineState * bool :=
  let '(st', _) := purge_expired st now_ms in
  (st', EngineStore.contains_key (es_store st') key).

(** [u64::div_ceil(1_000) as i64]. *)
Definition remaining_seconds (remaining_ms : Z) : Z := as_i64 ((remaining_ms + 999) / 1000).

Definition ttl_for (st : EngineState) (key : string) (now_ms : Z) : EngineState * Z :=
  let '(st, _) := purge_expired st now_ms in
  if negb (EngineStore.contains_key (es_store st) key) then (st, TTL_KEY_MISSING)
  else
    match EngineStore.expiration (es_store st) key with
    | Some expires_at_ms =>
        if expires_at_ms <=? now_ms then
          (mkEngineState (EngineStore.remove (es_store st) key).1
             (set_updated_at (es_metadata st) now_ms), TTL_KEY_MISSING)
        else (st, remaining_seconds (saturating_sub expires_at_ms now_ms))
    | None => (st, TTL_NO_EXPIRY)
    end.

Definition live_keys (st : EngineState) (now_ms : Z) : EngineState * list string :=
  let '(store, keys) := EngineStore.live_keys_sorted (es_store st) now_ms in
  (with_store st store, keys).

Definition live_entries (st : EngineState) (now_ms : Z)
    : EngineState * list (string * list byte) :=
  let '(store, entries) := EngineStore.live_entries_sorted (es_store st) now_ms in
  (with_store st store, entries).

Definition to_persisted_parts (st : EngineState) := EngineStore.to_parts (es_store st).
Definition key_count (st : EngineState) : Z := EngineStore.len (es_store st).
Definition is_empty (st : EngineState) : bool := EngineStore.is_empty (es_store st).
Definition raw_value (st : EngineState) (key : string) := EngineStore.get_value (es_store st) key.
Definition raw_entry (st : EngineState) (key : string) := EngineStore.get (es_store st) key.
Definition raw_contains_key (st : EngineState) (key : string) : bool :=
  EngineStore.contains_key (es_store st) key.
Definition raw_expiration (st : EngineState) (key : string) :=
  EngineStore.expiration (es_store st) key.

Definition set_raw_value_with_version (st : EngineState) (key : string) (value : list byte)
    (version : Z) : EngineState :=
  with_store st (EngineStore.insert_value_with_version (es_store st) key value version).

Definition set_raw_entry (st : EngineState) (key : string) (entry : StoredValue) : EngineState :=
  with_store st (EngineStore.insert_entry (es_store st) key entry).

Definition remove_raw (st : EngineState) (key : string) : EngineState * option StoredValue :=
  let '(store, entry) := EngineStore.remove (es_store st) key in (with_store st store, entry).

Definition set_expiration_if_present (st : EngineState) (key : string) (expires_at_ms : Z)
    : EngineState * bool :=
  let '(store, b) := EngineStore.set_expiration_if_present (es_store st) key expires_at_ms in
  (with_store st store, b).

Definition clear_expiration (st : EngineState) (key : string) : EngineState * bool :=
  let '(store, b) := EngineStore.clear_expiration (es_store st) key in (with_store st store, b).

Definition clear_all (st : EngineState) : EngineState :=
  with_store st (EngineStore.clear (es_store st)).

Definition mark_snapshot (st : EngineState) (now_ms sequence : Z) : EngineState :=
  mkEngineState (es_store st)
    (mkEngineMetadata (md_version (es_metadata st)) (md_created_at_ms (es_metadata st))
       now_ms (Some now_ms) sequence).

End EngineState.

(** ** Rollback of one entry *)

Record EntryRollback := mkEntryRollback {
  rb_keys : gmap string (option StoredValue);
  rb_clear_snapshot : option EngineStore;
}.

Module EntryRollback.

Definition default : EntryRollback := mkEntryRollback ∅ None.

Definition remember_key (rb : EntryRollback) (st : EngineState) (key : string) : EntryRollback :=
  if is_some (rb_clear_snapshot rb) || is_some (rb_keys rb !! key) then rb
  else mkEntryRollback (<[key := EngineStore.get (es_store st) key]> (rb_keys rb))
         (rb_clear_snapshot rb).

Definition remember_clear (rb : EntryRollback) (st : EngineState) : EntryRollback :=
  if is_some (rb_clear_snapshot rb) then rb
  else mkEntryRollback ∅ (Some (es_store st)).

(** The restoring loop: every remembered key gets its old entry back. *)
Definition restore_keys (keys : gmap string (option StoredValue)) (s : EngineStore) : EngineStore :=
  foldr (fun (kv : string * option StoredValue) s =>
           match kv.2 with
           | Some value => EngineStore.insert_entry s kv.1 value
           | None => (EngineStore.remove s kv.1).1
           end) s (map_to_list keys).

Definition rollback (rb : EntryRollback) (st : EngineState) (metadata : EngineMetadata)
    : EngineState :=
  mkEngineState
    (match rb_clear_snapshot rb with
     | Some store => store
     | None => restore_keys (rb_keys rb) (es_store st)
     end) metadata.

End EntryRollback.

(** ** Applying entries *)

(** [b"0"]. *)
Definition ascii_zero : list byte := as_bytes "0".

(** [String::from_utf8(value)] then [parse::<i64>()], with the error of both. *)
Definition parse_stored_integer (key : string) (value : list byte) : result EngineError Z :=
  text ← ok_or (from_utf8 value) (InvalidIntegerValue key (from_utf8_lossy value));
  ok_or (parse_i64 text) (InvalidIntegerValue key text).

Definition next_version (previous : option StoredValue) : Z :=
  match previous with
  | Some entry => saturating_add (sv_version entry) 1
  | None => 1
  end.

Definition apply_operation (operation : WalOperation)
    : fallible (EngineState * EntryRollback) EngineError unit :=
  fun '(st, rb) =>
  match operation with
  | WalSet key value version =>
      let rb := EntryRollback.remember_key rb st key in
      ((with_store st (EngineStore.insert_value_with_version (es_store st) key value version), rb),
       Ok tt)
  | WalDelete key =>
      let rb := EntryRollback.remember_key rb st key in
      ((with_store st (EngineStore.remove (es_store st) key).1, rb), Ok tt)
  | WalExpire key expires_at_ms =>
      let rb := EntryRollback.remember_key rb st key in
      ((with_store st (EngineStore.set_expiration_if_present (es_store st) key expires_at_ms).1,
        rb), Ok tt)
  | WalPersist key =>
      let rb := EntryRollback.remember_key rb st key in
      ((with_store st (EngineStore.clear_expiration (es_store st) key).1, rb), Ok tt)
  | WalClear =>
      let rb := EntryRollback.remember_clear rb st in
      ((with_store st (EngineStore.clear (es_store st)), rb), Ok tt)
  | WalCheckInteger key delta =>
      let rb := EntryRollback.remember_key rb st key in
      let current := EngineStore.get (es_store st) key in
      let current_value := match current with
                           | Some entry => sv_value entry
                           | None => ascii_zero
                           end in
      match
        parsed ← parse_stored_integer key current_value;
        ok_or (checked_i64 (parsed + delta)) (NumericOverflow key)
      with
      | Err e => ((st, rb), Err e)
      | Ok next =>
          let version := next_version current in
          ((with_store st (EngineStore.insert_value_with_version (es_store st) key
                             (as_bytes (int_to_string next)) version), rb), Ok tt)
      end
  end.

(** The loop of [apply_entry] up to its first error. *)
Definition apply_operations (operations : list WalOperation)
    : fallible (EngineState * EntryRollback) EngineError unit :=
  mfor apply_operation operations.

Definition apply_entry (st : EngineState) (entry : WalEntry)
    : EngineState * result EngineError unit :=
  let metadata := es_metadata st in
  match apply_operations (we_operations entry) (st, EntryRollback.default) with
  | ((st', rb), Err err) => (EntryRollback.rollback rb st' metadata, Err err)
  | ((st', _), Ok _) =>
      (mkEngineState (es_store st')
         (set_updated_at (set_last_applied (es_metadata st') (we_sequence entry))
            (we_created_at_ms entry)), Ok tt)
  end.

(** [for entry in entries { state.apply_entry(entry)?; }]. *)
Fixpoint apply_entries (st : EngineState) (entries : list WalEntry)
    : EngineState * result EngineError unit :=
  match entries with
  | [] => (st, Ok tt)
  | entry :: entries =>
      match apply_entry st entry with
      | (st', Ok _) => apply_entries st' entries
      | (st', Err e) => (st', Err e)
      end
  end.

(** ** The effect of operations on the keyspace

    [op_step] is what one operation does to the keyspace, without rollback
    bookkeeping; the theorems below relate [apply_entry] to it. *)

Definition op_step (s : EngineStore) (operation : WalOperation) : result EngineError EngineStore :=
  match operation with
  | WalSet key value version => Ok (<[key := mkStoredValue value None version]> s)
  | WalDelete key => Ok (delete key s)
  | WalExpire key t =>
      Ok (alter (fun e => mkStoredValue (sv_value e) (Some t) (sv_version e)) key s)
  | WalPersist key =>
      Ok (alter (fun e => mkStoredValue (sv_value e) None (sv_version e)) key s)
  | WalClear => Ok ∅
  | WalCheckInteger key delta =>
      parsed ← parse_stored_integer key (default ascii_zero (sv_value <$> s !! key));
      next ← ok_or (checked_i64 (parsed + delta)) (NumericOverflow key);
      Ok (<[key := mkStoredValue (as_bytes (int_to_string next)) None
                     (next_version (s !! key))]> s)
  end.

Definition ops_run (s : EngineStore) (ops : list WalOperation) : result EngineError EngineStore :=
  foldM op_step s ops.

(** The bookkeeping of one operation. *)
Definition remember (rb : EntryRollback) (st : EngineState) (op : WalOperation) : EntryRollback :=
  match op with
  | WalSet k _ _ | WalDelete k | WalExpire k _ | WalPersist k | WalCheckInteger k _ =>
      EntryRollback.remember_key rb st k
  | WalClear => EntryRollback.remember_clear rb st
  end.

Lemma alter_lookup_insert (s : EngineStore) k f :
  alter f k s = match s !! k with Some e => <[k := f e]> s | None => s end.
Proof.
  apply map_eq. intros j. destruct (decide (j = k)) as [->|Hne].
  - rewrite lookup_alter_eq. destruct (s !! k) eqn:E; cbn; [by rewrite lookup_insert_eq | done].
  - rewrite lookup_alter_ne by done. destruct (s !! k); [by rewrite lookup_insert_ne | done].
Qed.

Lemma with_store_id st : with_store st (es_store st) = st.
Proof. by destruct st. Qed.

Lemma EngineState_ext (a b : EngineState) :
  es_store a = es_store b -> es_metadata a = es_metadata b -> a = b.
Proof. destruct a, b. cbn. congruence. Qed.

Lemma apply_operation_step op st rb :
  apply_operation op (st, rb) =
    match op_step (es_store st) op with
    | Ok s => ((with_store st s, remember rb st op), Ok tt)
    | Err e => ((st, remember rb st op), Err e)
    end.
Proof.
  destruct op as [k v ver|k|k t|k| |k d]; cbn; try done.
  - unfold EngineStore.set_expiration_if_present. rewrite alter_lookup_insert.
    by destruct (es_store st !! k).
  - unfold EngineStore.clear_expiration. rewrite alter_lookup_insert.
    by destruct (es_store st !! k).
  - unfold EngineStore.get.
    replace (match es_store st !! k with Some entry => sv_value entry | None => ascii_zero end)
      with (default ascii_zero (sv_value <$> es_store st !! k)) by (by destruct (es_store st !! k)).
    destruct (parse_stored_integer k _) as [z|e]; cbn; [|done].
    by destruct (checked_i64 (z + d)).
Qed.

(** Rollback bookkeeping is exact: remembered keys hold their value in [s0], all
    other keys still have it, and a remembered clear holds [s0] itself. *)
Definition rollback_inv (s0 : EngineStore) (st : EngineState) (rb : EntryRollback) : Prop :=
  match rb_clear_snapshot rb with
  | Some s => s = s0
  | None =>
      forall k, match rb_keys rb !! k with
                | Some old => old = s0 !! k
                | None => es_store st !! k = s0 !! k
                end
  end.

Lemma lookup_restore_keys keys s k :
  EntryRollback.restore_keys keys s !! k =
    match keys !! k with Some old => old | None => s !! k end.
Proof.
  unfold EntryRollback.restore_keys.
  set (restore := fun kv s => _).
  assert (forall l, NoDup l.*1 ->
    foldr restore s l !! k =
      match (list_to_map l : gmap string (option StoredValue)) !! k with
      | Some old => old | None => s !! k end) as H.
  { induction l as [|[k' old] l IH]; [done|]. intros [Hn Hnd]%NoDup_cons. cbn [foldr list_to_map].
    destruct (decide (k' = k)) as [->|Hne].
    - cbn. rewrite lookup_insert_eq. unfold restore at 1; cbn. destruct old; cbn.
      + by rewrite lookup_insert_eq.
      + by rewrite lookup_delete_eq.
    - cbn. rewrite lookup_insert_ne by done. unfold restore at 1; cbn. destruct old; cbn.
      + rewrite lookup_insert_ne by done. by apply IH.
      + rewrite lookup_delete_ne by done. by apply IH. }
  rewrite H by apply NoDup_fst_map_to_list. by rewrite list_to_map_to_list.
Qed.

Lemma rollback_restores s0 st rb metadata :
  rollback_inv s0 st rb -> EntryRollback.rollback rb st metadata = mkEngineState s0 metadata.
Proof.
  unfold rollback_inv, EntryRollback.rollback. destruct (rb_clear_snapshot rb); [by intros ->|].
  intros H. f_equal. apply map_eq. intros k. rewrite lookup_restore_keys.
  specialize (H k). by destruct (rb_keys rb !! k).
Qed.

Definition is_clear (op : WalOperation) : bool :=
  match op with WalClear => true | _ => false end.

(** The entry clears the keyspace, if at all, before any other operation. *)
Definition clear_first (ops : list WalOperation) : bool :=
  match ops with
  | [] | WalClear :: _ => true
  | _ => forallb (fun op => negb (is_clear op)) ops
  end.

(** The key an operation other than [WalClear] touches. *)
Definition op_key (op : WalOperation) : option string :=
  match op with
  | WalSet k _ _ | WalDelete k | WalExpire k _ | WalPersist k | WalCheckInteger k _ => Some k
  | WalClear => None
  end.

Lemma op_step_other s op s' k key :
  op_step s op = Ok s' -> op_key op = Some key -> k <> key -> s' !! k = s !! k.
Proof.
  destruct op; cbn; intros H [= <-] Hne; inv_ok; by simplify_map_eq.
Qed.

Lemma remember_key_inv s0 st rb key :
  rollback_inv s0 st rb -> rollback_inv s0 st (EntryRollback.remember_key rb st key).
Proof.
  unfold rollback_inv, EntryRollback.remember_key. destruct (rb_clear_snapshot rb) eqn:E; cbn.
  { by rewrite E. }
  intros H. destruct (rb_keys rb !! key) as [old|] eqn:Ek; cbn; [by rewrite E|].
  intros k. destruct (decide (k = key)) as [->|Hne].
  - rewrite lookup_insert_eq. specialize (H key). by rewrite Ek in H.
  - rewrite lookup_insert_ne by done. apply H.
Qed.

Lemma remember_key_covers rb st key :
  rb_clear_snapshot rb = None ->
  is_Some (rb_keys (EntryRollback.remember_key rb st key) !! key).
Proof.
  unfold EntryRollback.remember_key. intros ->. cbn.
  destruct (rb_keys rb !! key) eqn:E; cbn; [by rewrite E | by rewrite lookup_insert_eq].
Qed.

Lemma remember_key_snapshot rb st key :
  rb_clear_snapshot (EntryRollback.remember_key rb st key) = rb_clear_snapshot rb.
Proof. unfold EntryRollback.remember_key. by case_match. Qed.

Lemma remember_inv s0 st rb op s' key :
  rollback_inv s0 st rb -> op_key op = Some key -> op_step (es_store st) op = Ok s' ->
  rollback_inv s0 (with_store st s') (EntryRollback.remember_key rb st key).
Proof.
  intros H Hk Hs. apply (remember_key_inv _ _ _ key) in H. pose proof (remember_key_covers rb st key) as Hc.
  unfold rollback_inv in *. rewrite remember_key_snapshot in *.
  destruct (rb_clear_snapshot rb); [done|]. intros k. specialize (H k).
  destruct (rb_keys _ !! k) as [old|] eqn:E; [done|]. cbn. rewrite <- H.
  eapply op_step_other; [done..|]. intros ->. destruct (Hc eq_refl). congruence.
Qed.

(** After a first clear everything is already remembered. *)
Lemma apply_operations_cleared ops st rb s0 st' rb' r :
  rb_clear_snapshot rb = Some s0 -> apply_operations ops (st, rb) = ((st', rb'), r) ->
  rb_clear_snapshot rb' = Some s0.
Proof.
  revert st rb. induction ops as [|op ops IH]; intros st rb Hrb; cbn; [by intros [= <- <- <-]|].
  unfold mbind, fallible_bind. rewrite apply_operation_step.
  assert (rb_clear_snapshot (remember rb st op) = Some s0) as Hr.
  { destruct op; cbn; rewrite ?remember_key_snapshot; try done.
    unfold EntryRollback.remember_clear. by rewrite Hrb. }
  destruct (op_step _ op); [by apply IH | by intros [= <- <- <-]].
Qed.

Lemma apply_operations_inv ops st rb s0 st' rb' r :
  forallb (fun op => negb (is_clear op)) ops = true -> rollback_inv s0 st rb ->
  apply_operations ops (st, rb) = ((st', rb'), r) -> rollback_inv s0 st' rb'.
Proof.
  revert st rb. induction ops as [|op ops IH]; intros st rb Hc Hi; cbn; [by intros [= <- <- <-]|].
  cbn in Hc. apply andb_prop in Hc as [Hop Hc].
  unfold mbind, fallible_bind. rewrite apply_operation_step.
  destruct (op_step _ op) as [s'|e] eqn:E.
  - apply IH; [done|]. destruct op; try done; (eapply remember_inv; [exact Hi| |exact E]; done).
  - intros [= <- <- <-]. destruct op; try done; by apply remember_key_inv.
Qed.

Lemma default_rollback_inv st : rollback_inv (es_store st) st EntryRollback.default.
Proof. intros k. cbn. by rewrite lookup_empty. Qed.

(** An entry that fails leaves the state as it was, when it clears nothing it
    has already changed. *)
Lemma apply_entry_rollback st entry st' e :
  clear_first (we_operations entry) = true ->
  apply_entry st entry = (st', Err e) -> st' = st.
Proof.
  intros Hc. unfold apply_entry.
  destruct (apply_operations _ _) as [[st1 rb1] r] eqn:E.
  destruct r as [[]|e']; intros [= <- _].
  rewrite (rollback_restores (es_store st)); [by destruct st|].
  destruct (we_operations entry) as [|op ops]; [done|].
  destruct op; try (by eapply apply_operations_inv; eauto using default_rollback_inv).
  cbn in E. unfold mbind, fallible_bind in E. rewrite apply_operation_step in E.
  eapply apply_operations_cleared in E; [|done]. unfold rollback_inv. by rewrite E.
Qed.

(** ** Successful application *)

Lemma apply_operations_run ops st rb :
  match ops_run (es_store st) ops with
  | Ok s => exists rb', apply_operations ops (st, rb) = ((with_store st s, rb'), Ok tt)
  | Err e => exists st' rb', apply_operations ops (st, rb) = ((st', rb'), Err e)
  end.
Proof.
  revert st rb. induction ops as [|op ops IH]; intros st rb; cbn.
  { exists rb. by rewrite with_store_id. }
  unfold mbind at 2 3, fallible_bind. rewrite apply_operation_step.
  destruct (op_step (es_store st) op) as [s|e]; cbn; [|by eauto].
  apply (IH (with_store st s)).
Qed.

Definition applied (st : EngineState) (entry : WalEntry) (s : EngineStore) : EngineState :=
  mkEngineState s (set_updated_at (set_last_applied (es_metadata st) (we_sequence entry))
                     (we_created_at_ms entry)).

Lemma apply_entry_run st entry :
  match ops_run (es_store st) (we_operations entry) with
  | Ok s => apply_entry st entry = (applied st entry s, Ok tt)
  | Err e => exists st', apply_entry st entry = (st', Err e)
  end.
Proof.
  pose proof (apply_operations_run (we_operations entry) st EntryRollback.default) as H.
  unfold apply_entry. destruct (ops_run _ _).
  - destruct H as [rb' ->]. done.
  - destruct H as (st' & rb' & ->). eauto.
Qed.

Lemma apply_entry_ok st entry st' :
  apply_entry st entry = (st', Ok tt) <->
  exists s, ops_run (es_store st) (we_operations entry) = Ok s /\ st' = applied st entry s.
Proof.
  pose proof (apply_entry_run st entry) as H. destruct (ops_run _ _) as [s|e].
  - rewrite H. naive_solver.
  - destruct H as [st1 ->]. naive_solver.
Qed.
