(* ===== verification/Wildcard.v ===== *)
(** * Wildcard: glob matching for SCAN (crates/engine/src/engine/core.rs)

    [wildcard_matches] fills the table [dp] of the source row by row, where
    [dp[row][col]] says whether the first [row] pattern characters match the
    first [col] text characters.  [glob] is the declarative meaning: the text
    splits into one piece per pattern character. *)

From S2P Require Import Prelude Text.

Notation STAR := 42.
Notation QUESTION := 63.

(** Columns 1.. of a row: [left] is [dp[row][col-1]], and [prev] the previous
    row from column [col-1] on. *)
Fixpoint fill_row (p : Z) (prev : list bool) (left : bool) (text : list Z) : list bool :=
  match text, prev with
  | c :: text', diag :: ((up :: _) as prev') =>
      let cell :=
        if p =? STAR then up || left
        else if p =? QUESTION then diag
        else diag && (p =? c) in
      cell :: fill_row p prev' cell text'
  | _, _ => []
  end.

(** Row [row] from row [row - 1]; column 0 is only reachable through stars. *)
Definition next_row (text : list Z) (prev : list bool) (p : Z) : list bool :=
  let first := if p =? STAR then default false (head prev) else false in
  first :: fill_row p prev first text.

(** Row 0: the empty pattern matches the empty text only. *)
Definition first_row (text : list Z) : list bool := true :: ((fun _ => false) <$> text).

Definition wildcard_matches (pattern text : string) : bool :=
  let text_chars := chars text in
  default false (last (foldl (next_row text_chars) (first_row text_chars) (chars pattern))).

(** ** Meaning *)

(** What one pattern character covers. *)
Definition covers (p : Z) (piece : list Z) : Prop :=
  if p =? STAR then True
  else if p =? QUESTION then exists c, piece = [c]
  else piece = [p].

Definition glob (pattern text : list Z) : Prop :=
  exists pieces, Forall2 covers pattern pieces /\ mjoin pieces = text.

Lemma glob_nil text : glob [] text <-> text = [].
Proof.
  split.
  - intros (pieces & H%Forall2_nil_inv_l & <-). by subst.
  - intros ->. exists []. by split.
Qed.

Lemma glob_snoc p c text :
  glob (p ++ [c]) text <-> exists t piece, text = t ++ piece /\ glob p t /\ covers c piece.
Proof.
  split.
  - intros (pieces & (l1 & l2 & H1 & H2 & ->)%Forall2_app_inv_l & <-).
    apply Forall2_cons_inv_l in H2 as (piece & l & Hc & Hn%Forall2_nil_inv_l & ->). subst l.
    exists (mjoin l1), piece. rewrite join_app. cbn. rewrite app_nil_r.
    repeat split; [|done]. by exists l1.
  - intros (t & piece & -> & (l & Hl & <-) & Hc). exists (l ++ [piece]). split.
    + apply Forall2_app; [done|]. by constructor.
    + rewrite join_app. cbn. by rewrite app_nil_r.
Qed.

Lemma glob_snoc_nil p c : glob (p ++ [c]) [] <-> (c = STAR /\ glob p []).
Proof.
  rewrite glob_snoc. unfold covers. split.
  - intros (t & piece & [-> ->]%symmetry%app_nil & Hg & Hc).
    destruct (Z.eqb_spec c STAR) as [->|]; [done|].
    destruct (Z.eqb_spec c QUESTION); [destruct Hc as [? [=]] | done].
  - intros [-> Hg]. by exists [], [].
Qed.

Lemma glob_star_snoc p t x :
  glob (p ++ [STAR]) (t ++ [x]) <-> glob p (t ++ [x]) \/ glob (p ++ [STAR]) t.
Proof.
  rewrite !glob_snoc. split.
  - intros (t1 & piece & E & Hg & _).
    destruct piece as [|y piece _] using rev_ind; [left; rewrite app_nil_r in E; congruence|].
    right. rewrite app_assoc in E. apply app_inj_tail in E as [-> _].
    by exists t1, piece.
  - intros [Hg|(t1 & piece & -> & Hg & _)].
    + exists (t ++ [x]), []. by rewrite app_nil_r.
    + exists t1, (piece ++ [x]). by rewrite app_assoc.
Qed.

Lemma glob_question_snoc p t x : glob (p ++ [QUESTION]) (t ++ [x]) <-> glob p t.
Proof.
  rewrite glob_snoc. split.
  - intros (t1 & piece & E & Hg & [y ->]). by apply app_inj_tail in E as [-> _].
  - intros Hg. exists t, [x]. repeat split; [done|]. by exists x.
Qed.

Lemma glob_char_snoc p c t x :
  c <> STAR -> c <> QUESTION -> glob (p ++ [c]) (t ++ [x]) <-> glob p t /\ c = x.
Proof.
  intros Hs Hq. assert (forall piece, covers c piece <-> piece = [c]) as Hc.
  { intros piece. unfold covers. by rewrite (proj2 (Z.eqb_neq _ _) Hs), (proj2 (Z.eqb_neq _ _) Hq). }
  rewrite glob_snoc. split.
  - intros (t1 & piece & E & Hg & ->%Hc). by apply app_inj_tail in E as [-> ->].
  - intros [Hg ->]. exists t, [x]. by rewrite Hc.
Qed.

(** ** The table *)

(** [row] holds, for every prefix of [rest], whether [P] holds of [done]
    extended by it. *)
Fixpoint row_spec (P : list Z -> Prop) (done rest : list Z) (row : list bool) {struct row} : Prop :=
  match row with
  | [] => False
  | b :: row' =>
      (b = true <-> P done) /\
      match rest with
      | [] => row' = []
      | c :: rest' => row_spec P (done ++ [c]) rest' row'
      end
  end.

Definition cell (p c : Z) (diag up left : bool) : bool :=
  if p =? STAR then up || left else if p =? QUESTION then diag else diag && (p =? c).

Lemma fill_row_cons p diag up prev left c text :
  fill_row p (diag :: up :: prev) left (c :: text) =
    cell p c diag up left :: fill_row p (up :: prev) (cell p c diag up left) text.
Proof. done. Qed.

Lemma fill_row_spec p c done rest prev left :
  row_spec (glob p) done rest prev -> (left = true <-> glob (p ++ [c]) done) ->
  row_spec (glob (p ++ [c])) done rest (left :: fill_row c prev left rest).
Proof.
  revert done prev left. induction rest as [|x rest IH]; intros done prev left Hp Hl.
  { split; [done|]. by destruct prev as [|? []]. }
  destruct prev as [|diag prev]; [done|]. destruct Hp as [Hd Hp].
  destruct prev as [|up prev]; [by destruct rest|].
  split; [done|]. rewrite fill_row_cons. apply IH; [done|]. unfold cell.
  assert (up = true <-> glob p (done ++ [x])) as Hu by (destruct rest; apply Hp).
  destruct (Z.eqb_spec c STAR) as [->|Hs].
  { rewrite glob_star_snoc, orb_true_iff, Hu, Hl. done. }
  destruct (Z.eqb_spec c QUESTION) as [->|Hq].
  { by rewrite glob_question_snoc. }
  rewrite glob_char_snoc, andb_true_iff, Hd, Z.eqb_eq by done. done.
Qed.

Lemma next_row_spec p c text prev :
  row_spec (glob p) [] text prev -> row_spec (glob (p ++ [c])) [] text (next_row text prev c).
Proof.
  intros H. unfold next_row. apply fill_row_spec; [done|]. rewrite glob_snoc_nil.
  assert (default false (head prev) = true <-> glob p []) as Hh
    by (destruct prev, text; apply H || destruct H).
  destruct (Z.eqb_spec c STAR); [naive_solver|]. split; [done|naive_solver].
Qed.

Lemma first_row_spec text : row_spec (glob []) [] text (first_row text).
Proof.
  assert (forall done rest, done <> [] ->
            row_spec (glob []) done rest (false :: ((fun _ => false) <$> rest))) as H.
  { intros done rest. revert done. induction rest as [|c rest IH]; intros done Hd; cbn.
    - rewrite glob_nil. done.
    - rewrite glob_nil. split; [done|]. apply IH. by destruct done. }
  destruct text as [|c text]; split; try (by rewrite glob_nil); [done|].
  by apply H.
Qed.

Lemma row_spec_last P done rest row :
  row_spec P done rest row -> default false (last row) = true <-> P (done ++ rest).
Proof.
  revert done row. induction rest as [|c rest IH]; intros done row H.
  - destruct row as [|b row]; [done|]. destruct H as [Hb ->]. by rewrite app_nil_r.
  - destruct row as [|b row]; [done|]. destruct H as [_ H].
    destruct row as [|b' row]; [by destruct rest|].
    rewrite last_cons_cons, cons_middle, app_assoc. by apply IH.
Qed.

Lemma rows_spec text p q prev :
  row_spec (glob p) [] text prev ->
  row_spec (glob (p ++ q)) [] text (foldl (next_row text) prev q).
Proof.
  revert p prev. induction q as [|c q IH]; intros p prev H; cbn; [by rewrite app_nil_r|].
  rewrite cons_middle, app_assoc. by apply IH, next_row_spec.
Qed.

(** The table decides [glob]. *)
Lemma wildcard_matches_glob pattern text :
  wildcard_matches pattern text = true <-> glob (chars pattern) (chars text).
Proof.
  unfold wildcard_matches. rewrite (row_spec_last (glob ([] ++ chars pattern)) [] (chars text));
    [done|]. apply rows_spec, first_row_spec.
Qed.
