(* ===== verification/Crypto.v ===== *)
(** * Crypto: the storage envelope (crates/engine/src/store/crypto.rs, config.rs)

    The cipher (ChaCha20-Poly1305), the key derivation (Argon2id) and CRC-32 are
    third-party code, the fields of [CryptoLib]; the law states that decrypting
    with the same key, nonce and associated data undoes encryption.  The random
    nonce is an argument.  The derived-key cache is a memo table of [derive_key]
    and is not modelled. *)

From S2P Require Import Prelude Text EngineError.

(** ** Keys (config.rs) *)

(** A [Uuid] is its 16 bytes. *)
Record StorageKey := mkStorageKey {
  sk_id : list byte;
  sk_secret : string;
  sk_created_at_ms : Z;
}.

Record StorageKeyring := mkStorageKeyring {
  kr_active : StorageKey;
  kr_previous : list StorageKey;
}.

Definition keyring_get (keyring : StorageKeyring) (id : list byte) : option StorageKey :=
  if bool_decide (sk_id (kr_active keyring) = id) then Some (kr_active keyring)
  else List.find (fun key => bool_decide (sk_id key = id)) (kr_previous keyring).

(** ** Third-party primitives *)

Class Crc32 := {
  crc32 : list byte -> Z;
  crc32_u32 bs : is_u32 (crc32 bs);
}.

Class CryptoLib := {
  hash_password_into : string -> list byte -> option (list byte);
  aead_encrypt : list byte -> list byte -> list byte -> list byte -> option (list byte);
  aead_decrypt : list byte -> list byte -> list byte -> list byte -> option (list byte);
  aead_decrypt_encrypt key nonce aad msg ciphertext :
    aead_encrypt key nonce aad msg = Some ciphertext ->
    aead_decrypt key nonce aad ciphertext = Some msg;
}.

Definition ENVELOPE_MAGIC : list byte := as_bytes "VXE1".
Definition ENVELOPE_VERSION : byte := x01.
Definition ENVELOPE_ALGORITHM_CHACHA20_POLY1305 : byte := x01.
Definition SALT_LEN : nat := 16.
Definition NONCE_LEN : nat := 12.
Definition KEY_ID_LEN : nat := 16.

Section crypto.
Context `{Crc32} `{CryptoLib}.

Definition derive_key (secret : string) (salt : list byte) : result EngineError (list byte) :=
  ok_or (hash_password_into secret salt) (CryptoFailure "key derivation").

Definition stable_salt (key : StorageKey) : list byte := sk_id key.

Definition derive_stable_key (key : StorageKey) (salt : list byte)
    : result EngineError (list byte) := derive_key (sk_secret key) salt.

Definition encrypt (key : StorageKey) (resource : string) (nonce plaintext : list byte)
    : result EngineError (list byte) :=
  let salt := stable_salt key in
  derived_key ← derive_stable_key key salt;
  ciphertext ← ok_or (aead_encrypt derived_key nonce (as_bytes resource) plaintext)
                 (CryptoFailure resource);
  let checksum := crc32 ciphertext in
  Ok (ENVELOPE_MAGIC ++ [ENVELOPE_VERSION] ++ [ENVELOPE_ALGORITHM_CHACHA20_POLY1305] ++
      sk_id key ++ salt ++ nonce ++
      to_le 4 (Z.of_nat (length ciphertext) mod 2 ^ 32) ++ to_le 4 checksum ++ ciphertext).

(** [&envelope[from..to]]. *)
Definition slice (bs : list byte) (from to : nat) : list byte := take (to - from) (drop from bs).

Definition decrypt (keyring : StorageKeyring) (resource : string) (envelope : list byte)
    : result EngineError (list byte) :=
  let unsupported := Err (UnsupportedStorageFormat resource) in
  let minimum_len := (4 + 2 + KEY_ID_LEN + SALT_LEN + NONCE_LEN + 8)%nat in
  if Nat.ltb (length envelope) minimum_len then unsupported
  else if negb (bool_decide (take 4 envelope = ENVELOPE_MAGIC)) then unsupported
  else if negb (bool_decide (slice envelope 4 5 = [ENVELOPE_VERSION]))
       || negb (bool_decide (slice envelope 5 6 = [ENVELOPE_ALGORITHM_CHACHA20_POLY1305]))
  then unsupported
  else
    let key_id_start := 6%nat in
    let salt_start := (key_id_start + KEY_ID_LEN)%nat in
    let nonce_start := (salt_start + SALT_LEN)%nat in
    let length_start := (nonce_start + NONCE_LEN)%nat in
    let checksum_start := (length_start + 4)%nat in
    let payload_start := (checksum_start + 4)%nat in
    let key_id := slice envelope key_id_start salt_start in
    let salt := slice envelope salt_start nonce_start in
    let nonce_bytes := slice envelope nonce_start length_start in
    let ciphertext_len := from_le (slice envelope length_start checksum_start) in
    let checksum := from_le (slice envelope checksum_start payload_start) in
    if negb (Z.of_nat (length envelope) =? Z.of_nat payload_start + ciphertext_len)
    then unsupported
    else
      let ciphertext := drop payload_start envelope in
      if negb (crc32 ciphertext =? checksum) then Err (ChecksumMismatch resource)
      else
        key ← ok_or (keyring_get keyring key_id) (UnsupportedStorageFormat resource);
        derived_key ← derive_stable_key key salt;
        ok_or (aead_decrypt derived_key nonce_bytes (as_bytes resource) ciphertext)
          (CryptoFailure resource).

(** The fields of an envelope with a 16-byte key id and a 12-byte nonce. *)
Lemma envelope_slices (id nonce ct : list byte) (len sum : list byte) :
  length id = 16%nat -> length nonce = 12%nat -> length len = 4%nat -> length sum = 4%nat ->
  let e := ENVELOPE_MAGIC ++ [x01] ++ [x01] ++ id ++ id ++ nonce ++ len ++ sum ++ ct in
  take 4 e = ENVELOPE_MAGIC /\ slice e 4 5 = [x01] /\ slice e 5 6 = [x01] /\
  slice e 6 22 = id /\ slice e 22 38 = id /\ slice e 38 50 = nonce /\ slice e 50 54 = len /\
  slice e 54 58 = sum /\ drop 58 e = ct /\ length e = (58 + length ct)%nat.
Proof.
  intros Hi Hn Hl Hs e. unfold slice.
  assert (drop 6 e = id ++ id ++ nonce ++ len ++ sum ++ ct) as E6 by done.
  pose proof (drop_next 6 16 _ _ _ E6 Hi) as E22.
  pose proof (drop_next 22 16 _ _ _ E22 Hi) as E38.
  pose proof (drop_next 38 12 _ _ _ E38 Hn) as E50.
  pose proof (drop_next 50 4 _ _ _ E50 Hl) as E54.
  pose proof (drop_next 54 4 _ _ _ E54 Hs) as E58.
  cbn [Nat.add] in *.
  rewrite E6, E22, E38, E50, E54, E58.
  split_and!; try done; try (by apply take_app_exact).
  unfold e. rewrite !length_app, Hi, Hn, Hl, Hs. change (length ENVELOPE_MAGIC) with 4%nat.
  cbn [length]. lia.
Qed.

Lemma decrypt_encrypt keyring key resource nonce plaintext envelope :
  keyring_get keyring (sk_id key) = Some key ->
  length (sk_id key) = 16%nat -> length nonce = 12%nat ->
  encrypt key resource nonce plaintext = Ok envelope ->
  Z.of_nat (length envelope) <= u32_max ->
  decrypt keyring resource envelope = Ok plaintext.
Proof.
  intros Hk Hid Hn. unfold encrypt.
  destruct (derive_stable_key key (stable_salt key)) as [dk|] eqn:Ed; [|done].
  cbn [mbind result_bind]. destruct (aead_encrypt dk nonce (as_bytes resource) plaintext) as [ct|] eqn:Ea; [|done].
  cbn [mbind result_bind ok_or]. unfold stable_salt in *.
  set (len := to_le 4 (Z.of_nat _ mod _)). set (sum := to_le 4 (crc32 ct)).
  intros E%(f_equal (fun r => match r with Ok a => a | Err _ => [] end)) Hlen. subst envelope.
  destruct (envelope_slices (sk_id key) nonce ct len sum Hid Hn (to_le_length 4 _) (to_le_length 4 _))
    as (S0 & S1 & S2 & S3 & S4 & S5 & S6 & S7 & S8 & SL).
  fold ENVELOPE_VERSION ENVELOPE_ALGORITHM_CHACHA20_POLY1305 in *.
  set (e := ENVELOPE_MAGIC ++ _) in *. unfold decrypt. cbv zeta.
  change (6 + KEY_ID_LEN)%nat with 22%nat. change (22 + SALT_LEN)%nat with 38%nat.
  change (38 + NONCE_LEN)%nat with 50%nat. change (50 + 4)%nat with 54%nat.
  change (54 + 4)%nat with 58%nat.
  change (4 + 2 + KEY_ID_LEN + SALT_LEN + NONCE_LEN + 8)%nat with 58%nat.
  rewrite S0, S1, S2, S3, S4, S5, S6, S7, S8, SL.
  rewrite (proj2 (Nat.ltb_ge _ _)) by lia. rewrite !bool_decide_eq_true_2 by done. cbn [negb orb].
  unfold len, sum. pose proof (crc32_u32 ct).
  rewrite !from_to_le by (unfold_widths; cbn; try apply Z.mod_pos_bound; lia).
  rewrite Z.mod_small by (unfold_widths; lia).
  rewrite (proj2 (Z.eqb_eq _ _)) by lia. rewrite Z.eqb_refl. cbn [negb].
  rewrite Hk. cbn. rewrite Ed. cbn. by rewrite (aead_decrypt_encrypt _ _ _ _ _ Ea).
Qed.

End crypto.
