(* ===== verification/Frame.v ===== *)
(** * Frame: frames and bodies (crates/transport/src/constants.rs, frame.rs, options.rs, codec/)

    Frame headers, compression, and the encoders and decoders of whole frames.
    zstd and CRC-32 are the classes [Zstd] and [Crc32].  A blocking or async
    stream that is read is the list of the bytes it still delivers before its
    end, one that is written takes every byte; the outcome of a task on the
    blocking pool is the argument [joined]. *)

From S2P Require Import Prelude Text Command Crypto Wire Opcode Request Response.

(** ** Constants and options *)

Definition MAGIC_BYTES : list byte := as_bytes "VTP2".
Definition MAGIC : Z := from_be MAGIC_BYTES.
Definition VERSION : Z := 2.
Definition FLAGS_NONE : Z := 0.
Definition FLAG_COMPRESSED_ZSTD : Z := 0x01.
Definition HEADER_LEN : nat := 14.
Definition MAX_FRAME_LEN : Z := 8 * 1024 * 1024.
Definition DEFAULT_COMPRESSION_THRESHOLD_BYTES : Z := 1024.

Inductive CompressionMode := CompressionNone | CompressionZstd.

#[export] Instance CompressionMode_eq_dec : EqDecision CompressionMode.
Proof. solve_decision. Defined.

Definition CompressionMode_as_str (m : CompressionMode) : string :=
  match m with CompressionNone => "none" | CompressionZstd => "zstd" end.

Record CodecOptions := mkCodecOptions {
  co_compression : CompressionMode;
  co_compression_threshold_bytes : Z;
  co_max_frame_len : Z;
  co_max_decompressed_frame_len : Z;
}.

Definition CodecOptions_default : CodecOptions :=
  mkCodecOptions CompressionZstd DEFAULT_COMPRESSION_THRESHOLD_BYTES MAX_FRAME_LEN MAX_FRAME_LEN.

(** [zstd::bulk::compress(_, 3)], and the stream decoder: [None] when it cannot
    be made, else the bytes it delivers and whether it then ends cleanly. *)
Class Zstd := {
  zstd_compress : list byte -> option (list byte);
  zstd_decode : list byte -> option (list byte * bool);
  zstd_decode_compress bs c : zstd_compress bs = Some c -> zstd_decode c = Some (bs, true);
}.

(** ** Headers *)

Record FrameHeader := mkFrameHeader {
  fh_magic : Z;
  fh_version : Z;
  fh_flags : Z;
  fh_length : Z;
  fh_checksum : Z;
}.

Module FrameHeader.

Definition new (length checksum : Z) : result TransportError FrameHeader :=
  if MAX_FRAME_LEN <? length then Err (TrnFrameTooLarge length MAX_FRAME_LEN)
  else Ok (mkFrameHeader MAGIC VERSION FLAGS_NONE length checksum).

Definition encode (h : FrameHeader) : writer :=
  _ ← put_u32 (fh_magic h);
  _ ← put_u8 (fh_version h);
  _ ← put_u8 (fh_flags h);
  _ ← put_u32 (fh_length h);
  put_u32 (fh_checksum h).

Definition decode : reader FrameHeader :=
  _ ← need (Z.of_nat HEADER_LEN);
  magic ← get_u32;
  version ← get_u8;
  flags ← get_u8;
  length ← get_u32;
  checksum ← get_u32;
  if negb (magic =? MAGIC) then raise TrnInvalidFrame
  else if negb (version =? VERSION) then raise (TrnVersionMismatch VERSION version)
  else if MAX_FRAME_LEN <? length then raise (TrnFrameTooLarge length MAX_FRAME_LEN)
  else if negb (Z.land flags (0xFF - FLAG_COMPRESSED_ZSTD) =? 0) then raise (TrnUnsupportedFlags flags)
  else mret (mkFrameHeader magic version flags length checksum).

End FrameHeader.

(** ** Compression *)

Definition should_compress (body_len : Z) (options : CodecOptions) : bool :=
  bool_decide (co_compression options = CompressionZstd) &&
  (co_compression_threshold_bytes options <=? body_len).

Definition enforce_frame_limit (length max : Z) : result TransportError unit :=
  if max <? length then Err (TrnFrameTooLarge length max) else Ok tt.

Section codec.
Context `{Zstd} `{Crc32}.

Definition maybe_compress (body : list byte) (options : CodecOptions)
    : result TransportError (Z * list byte) :=
  if negb (should_compress (Z.of_nat (length body)) options) then Ok (FLAGS_NONE, body)
  else
    compressed ← ok_or (zstd_compress body) TrnCompressionFailure;
    Ok (FLAG_COMPRESSED_ZSTD, compressed).

(** [decoder.take(limit).read_to_end(&mut decoded)]: a failure behind the limit
    is not seen. *)
Definition read_limited (limit : Z) (stream : list byte * bool) : result TransportError (list byte) :=
  let '(bytes, clean) := stream in
  if limit <=? Z.of_nat (length bytes) then Ok (take (Z.to_nat limit) bytes)
  else if clean then Ok bytes
  else Err TrnCompressionFailure.

Definition maybe_decompress (header : FrameHeader) (payload : list byte) (options : CodecOptions)
    : result TransportError (list byte) :=
  if fh_flags header =? FLAGS_NONE then Ok payload
  else if fh_flags header =? FLAG_COMPRESSED_ZSTD then
    let decode_limit := saturating_add (co_max_decompressed_frame_len options) 1 in
    stream ← ok_or (zstd_decode payload) TrnCompressionFailure;
    decoded ← read_limited decode_limit stream;
    if co_max_decompressed_frame_len options <? Z.of_nat (length decoded) then
      Err (TrnDecompressedFrameTooLarge (Z.of_nat (length decoded))
             (co_max_decompressed_frame_len options))
    else Ok decoded
  else Err (TrnUnsupportedFlags (fh_flags header)).

(** ** Frames *)

Definition encode_frame (body : list byte) (options : CodecOptions) : result TransportError (list byte) :=
  if co_max_decompressed_frame_len options <? Z.of_nat (length body) then
    Err (TrnFrameTooLarge (Z.of_nat (length body)) (co_max_decompressed_frame_len options))
  else
    '(flags, payload) ← maybe_compress body options;
    if co_max_frame_len options <? Z.of_nat (length payload) then
      Err (TrnFrameTooLarge (Z.of_nat (length payload)) (co_max_frame_len options))
    else
      let checksum := crc32 payload in
      header ← FrameHeader.new (Z.of_nat (length payload) mod 2 ^ 32) checksum;
      let header := mkFrameHeader (fh_magic header) (fh_version header) flags (fh_length header)
                      (fh_checksum header) in
      written (_ ← FrameHeader.encode header; extend_from_slice payload).

(** [Result<T>] of a computation that does not panic. *)
Definition lift {A} (r : result TransportError A) : outcome TransportError A := map_err Raised r.

(** A borrowed and an owned frame are the same bytes. *)
Definition decode_frame_borrowing (frame : list byte) (options : CodecOptions)
    : outcome TransportError (list byte) :=
  if Z.of_nat (length frame) <? Z.of_nat HEADER_LEN then fail TrnUnexpectedEof
  else
    let '(buf, header) := FrameHeader.decode frame in
    header ← header;
    _ ← lift (enforce_frame_limit (fh_length header) (co_max_frame_len options));
    if Z.of_nat (length buf) <? fh_length header then fail TrnUnexpectedEof
    else if fh_length header <? Z.of_nat (length buf) then fail TrnInvalidFrame
    else
      let payload := take (Z.to_nat (fh_length header)) buf in
      let actual_checksum := crc32 payload in
      if negb (actual_checksum =? fh_checksum header) then
        fail (TrnChecksumMismatch (fh_checksum header) actual_checksum)
      else if fh_flags header =? FLAGS_NONE then Ok payload
      else lift (maybe_decompress header payload options).

(** [read_exact_or_eof] and its async twin: a stream that ends early has been
    consumed. *)
Definition read_exact_or_eof (n : nat) : reader (list byte) :=
  fun stream =>
    if Nat.ltb (length stream) n then ([], fail TrnUnexpectedEof)
    else (drop n stream, Ok (take n stream)).

(** The frame behind a header, up to decompression. *)
Definition read_payload (header : FrameHeader) (options : CodecOptions) : reader (list byte) :=
  _ ← mpure (lift (enforce_frame_limit (fh_length header) (co_max_frame_len options)));
  payload ← (if fh_length header =? 0 then mret []
             else read_exact_or_eof (Z.to_nat (fh_length header)));
  let actual_checksum := crc32 payload in
  if negb (actual_checksum =? fh_checksum header) then
    raise (TrnChecksumMismatch (fh_checksum header) actual_checksum)
  else mret payload.

Definition read_frame_from_with_options (options : CodecOptions) : reader (list byte) :=
  header_bytes ← read_exact_or_eof HEADER_LEN;
  header ← mpure (read_from FrameHeader.decode header_bytes);
  payload ← read_payload header options;
  mpure (lift (maybe_decompress header payload options)).

(** ** The blocking pool *)

Definition spawn_blocking {A} (joined : bool) (r : result TransportError A) : result TransportError A :=
  if joined then r else Err TrnCompressionFailure.

Definition encode_frame_maybe_blocking (joined : bool) (body : list byte) (options : CodecOptions)
    : result TransportError (list byte) :=
  if should_compress (Z.of_nat (length body)) options
  then spawn_blocking joined (encode_frame body options)
  else encode_frame body options.

Definition decompress_frame_payload_maybe_blocking (joined : bool) (header : FrameHeader)
    (payload : list byte) (options : CodecOptions) : result TransportError (list byte) :=
  if fh_flags header =? FLAG_COMPRESSED_ZSTD
  then spawn_blocking joined (maybe_decompress header payload options)
  else maybe_decompress header payload options.

Definition read_frame_from_async_with_options (joined : bool) (options : CodecOptions)
    : reader (list byte) :=
  header_bytes ← read_exact_or_eof HEADER_LEN;
  header ← mpure (read_from FrameHeader.decode header_bytes);
  payload ← read_payload header options;
  mpure (lift (decompress_frame_payload_maybe_blocking joined header payload options)).

(** ** Bodies *)

Definition metadata_flags (metadata : RequestMetadata) : Z :=
  Z.lor (Z.lor (if is_some (rm_deadline_ms metadata) then REQUEST_META_DEADLINE_MS else 0)
               (if is_some (rm_trace_id metadata) then REQUEST_META_TRACE_ID else 0))
        (if is_some (rm_sequence metadata) then REQUEST_META_SEQUENCE else 0).

(** [if let Some(value) = field { put(value) }]. *)
Definition put_some {A} (put : A -> writer) (field : option A) : writer :=
  match field with Some value => put value | None => mret tt end.

Definition encode_request_body (request : Request) : writer :=
  _ ← put_u8 (metadata_flags (rq_metadata request));
  _ ← extend_from_slice (rq_request_id request);
  _ ← put_u8 (opcode_to_u8 (rq_opcode request));
  _ ← put_some put_u64 (rm_deadline_ms (rq_metadata request));
  _ ← put_some extend_from_slice (rm_trace_id (rq_metadata request));
  _ ← put_some put_u64 (rm_sequence (rq_metadata request));
  extend_from_slice (rq_payload request).

(** [&body[from..from + n]]. *)
Definition slice {E} (body : list byte) (from n : nat) : outcome E (list byte) :=
  if Nat.ltb (length body) (from + n) then panic else Ok (take n (drop from body)).

(** One optional field of [n] bytes at [offset]. *)
Definition read_field (body : list byte) (present : bool) (offset n : nat)
    : outcome TransportError (option (list byte) * nat) :=
  if present then
    if saturating_sub (Z.of_nat (length body)) (Z.of_nat offset) <? Z.of_nat n then fail TrnUnexpectedEof
    else value ← slice body offset n; Ok (Some value, (offset + n)%nat)
  else Ok (None, offset).

Definition META_FLAGS : Z :=
  Z.lor (Z.lor REQUEST_META_DEADLINE_MS REQUEST_META_TRACE_ID) REQUEST_META_SEQUENCE.

Definition decode_request_prefix (body : list byte)
    : outcome TransportError (Uuid * Opcode * RequestMetadata * nat) :=
  if Z.of_nat (length body) <? 18 then fail TrnUnexpectedEof
  else
    flags ← bval <$> index body 0;
    if negb (Z.land flags (0xFF - META_FLAGS) =? 0) then fail TrnCorruptedPayload
    else
      request_id ← slice body 1 UUID_LEN;
      code ← bval <$> index body 17;
      opcode ← lift (opcode_try_from code);
      let has flag := negb (Z.land flags flag =? 0) in
      '(deadline_ms, offset) ← read_field body (has REQUEST_META_DEADLINE_MS) 18 8;
      '(trace_id, offset) ← read_field body (has REQUEST_META_TRACE_ID) offset UUID_LEN;
      '(sequence, offset) ← read_field body (has REQUEST_META_SEQUENCE) offset 8;
      Ok (request_id, opcode, mkRequestMetadata (from_be <$> deadline_ms) trace_id (from_be <$> sequence),
          offset).

(** [decode_request_body] copies and [decode_request_body_owned] splits off the
    same payload; both panic past the end. *)
Definition decode_request_body (body : list byte) : outcome TransportError Request :=
  '(request_id, opcode, metadata, payload_offset) ← decode_request_prefix body;
  if Nat.ltb (length body) payload_offset then panic
  else Ok (with_metadata (new_request request_id opcode (drop payload_offset body)) metadata).

Definition encode_response_body (response : Response) : writer :=
  _ ← extend_from_slice (rs_request_id response);
  _ ← put_u8 (status_to_u8 (rs_status response));
  extend_from_slice (rs_payload response).

Definition decode_response_body (body : list byte) : outcome TransportError Response :=
  if Z.of_nat (length body) <? 17 then fail TrnUnexpectedEof
  else
    request_id ← slice body 0 UUID_LEN;
    code ← bval <$> index body 16;
    status ← lift (status_try_from code);
    if Nat.ltb (length body) 17 then panic
    else Ok (Response.new request_id status (drop 17 body)).

(** ** Requests and responses *)

Definition encode_request_with_options (request : Request) (options : CodecOptions)
    : result TransportError (list byte) :=
  body ← written (encode_request_body request); encode_frame body options.

Definition encode_request (request : Request) : result TransportError (list byte) :=
  encode_request_with_options request CodecOptions_default.

Definition decode_request (bytes : list byte) : outcome TransportError Request :=
  body ← decode_frame_borrowing bytes CodecOptions_default; decode_request_body body.

Definition encode_response_with_options (response : Response) (options : CodecOptions)
    : result TransportError (list byte) :=
  body ← written (encode_response_body response); encode_frame body options.

Definition encode_response (response : Response) : result TransportError (list byte) :=
  encode_response_with_options response CodecOptions_default.

Definition decode_response (bytes : list byte) : outcome TransportError Response :=
  body ← decode_frame_borrowing bytes CodecOptions_default; decode_response_body body.

Definition read_request_from_with_options (options : CodecOptions) : reader Request :=
  body ← read_frame_from_with_options options; mpure (decode_request_body body).

Definition read_request_from : reader Request := read_request_from_with_options CodecOptions_default.

Definition read_request_from_async_with_options (joined : bool) (options : CodecOptions) : reader Request :=
  body ← read_frame_from_async_with_options joined options; mpure (decode_request_body body).

Definition read_response_from_with_options (options : CodecOptions) : reader Response :=
  body ← read_frame_from_with_options options; mpure (decode_response_body body).

Definition read_response_from : reader Response := read_response_from_with_options CodecOptions_default.

Definition read_response_from_async_with_options (joined : bool) (options : CodecOptions)
    : reader Response :=
  body ← read_frame_from_async_with_options joined options; mpure (decode_response_body body).

Definition write_request_to_with_options (request : Request) (options : CodecOptions) : writer :=
  encoded ← mpure (encode_request_with_options request options); extend_from_slice encoded.

Definition write_request_to_async_with_options (joined : bool) (request : Request)
    (options : CodecOptions) : writer :=
  body ← mpure (written (encode_request_body request));
  encoded ← mpure (encode_frame_maybe_blocking joined body options);
  extend_from_slice encoded.

Definition write_response_to_with_options (response : Response) (options : CodecOptions) : writer :=
  encoded ← mpure (encode_response_with_options response options); extend_from_slice encoded.

Definition write_response_to_async_with_options (joined : bool) (response : Response)
    (options : CodecOptions) : writer :=
  body ← mpure (written (encode_response_body response));
  encoded ← mpure (encode_frame_maybe_blocking joined body options);
  extend_from_slice encoded.

End codec.
