(* ===== verification/PayloadFacts.v ===== *)
(** * PayloadFacts: what the payloads of requests and responses decode to

    Decoders panic nowhere but in [decode_scan], and accept nothing but what the
    encoders write. *)

From S2P Require Import Prelude Text Command Wire Opcode Request Response.

(** ** No panics *)

Lemma safe_condition : safe decode_condition.
Proof. unfold decode_condition. safe_reader. Qed.

Lemma safe_expiration : safe decode_expiration.
Proof. unfold decode_expiration. safe_reader. Qed.

Lemma safe_if_version : safe decode_if_version.
Proof.
  intros [|b bs] _; [done|]. unfold decode_if_version, mbind at 1, fallible_bind at 1, Prelude.mget.
  match goal with |- returns (?r _).2 => cut (safe_from 1 r); [intros Hs; apply Hs; cbn; lia|] end.
  safe_reader.
Qed.

Lemma safe_pair : safe read_pair.
Proof. unfold read_pair. safe_reader. Qed.

#[export] Hint Resolve safe_condition safe_expiration safe_if_version safe_pair : wire.

Lemma command_reader_safe opcode : opcode <> OpScan -> safe (command_reader opcode).
Proof.
  intros Hop. destruct opcode; cbn [command_reader]; try done; try (by eauto with wire);
    try unfold decode_single_key, decode_key_value, decode_dump, decode_three_strings, decode_get_ex,
      decode_set, decode_key_bytes, decode_keys, decode_pairs, decode_key_u64, decode_optional_string,
      decode_empty.
  all: safe_reader.
Qed.

(** ** Canonical payloads

    [canonical r w P]: what [r] takes as [a] is what [w] writes for [a], and [a]
    satisfies [P]; [canonical_end] when [r] checks that nothing follows. *)

Definition canonical {A} (r : reader A) (w : A -> writer) (P : A -> Prop) : Prop :=
  forall buf buf' a, r buf = (buf', Ok a) -> P a /\ exists bs, buf = bs ++ buf' /\ emits (w a) bs.

Definition canonical_end {A} (r : reader A) (w : A -> writer) (P : A -> Prop) : Prop :=
  forall buf buf' a, r buf = (buf', Ok a) -> P a /\ buf' = [] /\ emits (w a) buf.

Lemma canonical_expiration :
  canonical decode_expiration encode_expiration (option_ok expiration_typed).
Proof.
  intros buf buf' a Hr. unfold decode_expiration in Hr. inv_read; cbn [option_ok expiration_typed].
  - split; [done|]. exists (to_be 1 0). done.
  - split; [unfold_widths; cbn in *; lia|]. eexists. split; [by rewrite app_assoc|].
    cbn [encode_expiration]. eauto with wire.
  - split; [unfold_widths; cbn in *; lia|]. eexists. split; [by rewrite app_assoc|].
    cbn [encode_expiration]. eauto with wire.
Qed.

Lemma canonical_condition :
  canonical decode_condition (fun c => put_u8 (encode_condition c)) (fun _ => True).
Proof.
  intros buf buf' a Hr. unfold decode_condition in Hr.
  inv_read; (split; [done|]); eexists; split; done.
Qed.

Lemma emits_eq w bs bs' : emits w bs -> bs = bs' -> emits w bs'.
Proof. by intros ? <-. Qed.

(** Closes a goal about the fields that [inv_read] found in a whole payload. *)
Ltac canonical_fields :=
  split; [cbn; split_and?; try done; unfold_widths; cbn in *; lia|]; split; [done|];
  cbv [encode_key encode_dump encode_key_value encode_key_bytes encode_three_strings
       encode_key_u64 encode_optional_string encode_scan];
  eapply emits_eq; [eauto 15 with wire|by rewrite ?app_nil_r, <- ?app_assoc].

Lemma canonical_key : canonical_end decode_single_key encode_key str_ok.
Proof. intros buf buf' a Hr. unfold decode_single_key in Hr. inv_read. canonical_fields. Qed.

Lemma canonical_dump : canonical_end decode_dump encode_dump str_ok.
Proof. intros buf buf' a Hr. unfold decode_dump in Hr. inv_read. canonical_fields. Qed.

Lemma canonical_key_value :
  canonical_end decode_key_value (fun '(a, b) => encode_key_value a b)
    (fun '(a, b) => str_ok a /\ str_ok b).
Proof. intros buf buf' a Hr. unfold decode_key_value in Hr. inv_read. canonical_fields. Qed.

Lemma canonical_key_bytes :
  canonical_end decode_key_bytes (fun '(a, b) => encode_key_bytes a b) (fun '(a, b) => str_ok a).
Proof. intros buf buf' a Hr. unfold decode_key_bytes in Hr. inv_read. canonical_fields. Qed.

Lemma canonical_three :
  canonical_end decode_three_strings (fun '(a, b, c) => encode_three_strings a b c)
    (fun '(a, b, c) => str_ok a /\ str_ok b /\ str_ok c).
Proof. intros buf buf' a Hr. unfold decode_three_strings in Hr. inv_read. canonical_fields. Qed.

Lemma canonical_key_u64 :
  canonical_end decode_key_u64 (fun '(a, z) => encode_key_u64 a z) (fun '(a, z) => str_ok a /\ is_u64 z).
Proof. intros buf buf' a Hr. unfold decode_key_u64 in Hr. inv_read. canonical_fields. Qed.

Lemma canonical_optional :
  canonical_end decode_optional_string encode_optional_string (option_ok str_ok).
Proof. intros buf buf' a Hr. unfold decode_optional_string in Hr. inv_read; canonical_fields. Qed.

Lemma canonical_scan :
  canonical_end decode_scan (fun '(c, p, n) => encode_scan c p n)
    (fun '(c, p, n) => is_u64 c /\ option_ok str_ok p /\ option_ok is_u16 n).
Proof. intros buf buf' a Hr. unfold decode_scan in Hr. inv_read; canonical_fields. Qed.

(** A list with a 16-bit count in front. *)
Lemma canonical_counted {A} (read : reader A) (put : A -> writer) (bytes : A -> list byte) (P : A -> Prop) :
  (forall buf buf' a, read buf = (buf', Ok a) -> buf = bytes a ++ buf' /\ P a) ->
  (forall a, P a -> emits (put a) (bytes a)) ->
  canonical_end (_ ← need 2; count ← get_u16; xs ← read_many (Z.to_nat count) read; _ ← ensure_empty; mret xs)
    (fun xs => count ← mpure (checked_len u16_max xs); _ ← put_u16 count; mfor put xs) (Forall P).
Proof.
  intros Hread Hput buf buf' a Hr. inv_read.
  match goal with H : read_many _ _ _ = _ |- _ => eapply read_many_inv in H as (-> & HP & Hl); [|exact Hread] end.
  split; [done|]. split; [done|]. intros pre.
  unfold mbind at 1, fallible_bind at 1, mpure, checked_len.
  match goal with H : 0 <= ?z < _ |- _ =>
    assert (Z.of_nat (length a) = z) as -> by lia;
    rewrite (proj2 (Z.leb_le z u16_max)) by (unfold_widths; cbn in *; lia) end.
  rewrite app_nil_r. apply emits_seq; [apply emits_uint|]. apply emits_many.
  eapply Forall_impl; [exact HP|done].
Qed.

Lemma canonical_keys : canonical_end decode_keys encode_keys (Forall str_ok).
Proof.
  intros buf buf' a Hr.
  apply (canonical_counted read_string_u16 put_string_u16 (fun s => prefixed 2 (as_bytes s))
           (fun s => str_ok s /\ string_fits u16_max s)) in Hr as [HP Hb].
  - split; [|exact Hb]. eapply Forall_impl; [exact HP|]. by intros s [? _].
  - intros ? ? ? (-> & ? & ?)%read_string_u16_inv. done.
  - intros s [_ Hs]. by apply emits_string_u16.
Qed.

Lemma canonical_pairs : canonical_end decode_pairs encode_byte_pairs (fun es => Forall str_ok es.*1).
Proof.
  intros buf buf' a Hr.
  apply (canonical_counted read_pair (fun '(key, value) => _ ← put_string_u16 key; put_bytes_u32 value)
           (fun kv => prefixed 2 (as_bytes kv.1) ++ prefixed 4 kv.2)
           (fun kv => str_ok kv.1 /\ string_fits u16_max kv.1 /\ bytes_fit u32_max kv.2)) in Hr as [HP Hb].
  - split; [|exact Hb]. apply Forall_fmap. eapply Forall_impl; [exact HP|]. by intros s [? _].
  - intros buf1 buf2 kv H. unfold read_pair in H. inv_read. cbn. by rewrite <- app_assoc.
  - intros [k v] (_ & Hk & Hv). eauto with wire.
Qed.

Lemma canonical_get_ex :
  canonical_end decode_get_ex (fun '(k, e, p) => encode_get_ex k e p)
    (fun '(k, e, p) => str_ok k /\ option_ok expiration_typed e).
Proof.
  intros buf buf' a Hr. unfold decode_get_ex in Hr. inv_read.
  match goal with H : decode_expiration _ = _ |- _ => apply canonical_expiration in H as (He & bs & -> & Hbs) end.
  canonical_fields.
Qed.

(** The version field of SET, or its absence in a payload of an older client. *)
Lemma if_version_inv buf buf' v :
  decode_if_version buf = (buf', Ok v) ->
  option_ok is_u64 v /\
  (buf = [] /\ buf' = [] /\ v = None \/
   exists bs, buf = bs ++ buf' /\
     emits match v with Some version => _ ← put_u8 1; put_u64 version | None => put_u8 0 end bs).
Proof.
  intros (? & ? & [= <- <-] & Hr)%fallible_bind_ok. destruct buf as [|b buf].
  { injection Hr as <- <-. split; [done|]. by left. }
  set (k := b :: buf) in *. clearbody k. inv_read.
  - split; [done|]. right. eexists. split; [done|]. apply emits_uint.
  - split; [unfold_widths; cbn in *; lia|]. right. eexists. split; [by rewrite app_assoc|]. eauto with wire.
Qed.

Lemma set_inv buf buf' key value options :
  decode_set buf = (buf', Ok (key, value, options)) ->
  str_ok key /\ SetOptions_typed options /\ buf' = [] /\
  (emits (encode_set key value options) buf \/
   so_if_version options = None /\ emits (encode_set key value options) (buf ++ to_be 1 0)).
Proof.
  intros Hr. unfold decode_set in Hr. inv_read.
  repeat match goal with
  | H : decode_expiration _ = _ |- _ => apply canonical_expiration in H as (? & ? & -> & ?)
  | H : decode_condition _ = _ |- _ => apply canonical_condition in H as (_ & ? & -> & ?)
  | H : decode_if_version _ = _ |- _ => apply if_version_inv in H as (? & [(-> & _ & ->)|(? & -> & ?)])
  end; inv_read; split_and?; try done.
  - right. split; [done|]. unfold encode_set. cbn [so_condition so_if_version so_expiration so_keep_ttl so_return_previous].
    eapply emits_eq; [eauto 15 with wire|]. by rewrite <- ?app_assoc.
  - left. unfold encode_set. cbn [so_condition so_if_version so_expiration so_keep_ttl so_return_previous].
    eapply emits_eq; [eauto 15 with wire|]. by rewrite ?app_nil_r, <- ?app_assoc.
Qed.

#[local] Hint Resolve canonical_key canonical_dump canonical_key_value canonical_key_bytes canonical_three
  canonical_key_u64 canonical_optional canonical_scan canonical_keys canonical_pairs canonical_get_ex : wire.

Lemma canonical_empty : canonical_end decode_empty (fun _ => mret tt) (fun _ => True).
Proof. intros buf buf' [] [-> ->]%ensure_empty_inv. split_and!; [done..|]. apply emits_ret. Qed.

#[local] Hint Resolve canonical_empty : wire.

(** A command that is a constructor applied to a whole payload. *)
Ltac decoded_whole :=
  match goal with Ha : ?r _ = (_, Ok ?a), Hr : _ = (_, Ok _) |- _ =>
    let H := fresh in
    eassert (canonical_end r _ _) as H by eauto with wire;
    destruct (H _ _ _ Ha) as (HP & _ & Hw); clear H Ha;
    repeat match goal with x : _ * _ |- _ => destruct x end; injection Hr as _ <-;
    split; [cbn in *; tauto|]; exists []; split; [by left|]; cbn [from_command];
    rewrite (emits_written _ _ Hw), app_nil_r; reflexivity
  end.

(** What a decoded command says about its payload. *)
Lemma command_reader_inv opcode buf buf' c id :
  command_reader opcode buf = (buf', Ok c) ->
  command_typed c /\ exists suffix,
    (suffix = [] \/ opcode = OpSet /\ suffix = to_be 1 0) /\
    from_command id c = Ok (new_request id opcode (buf ++ suffix)).
Proof.
  intros Hr. destruct opcode; cbn [command_reader] in Hr; try discriminate Hr;
    apply fallible_bind_ok in Hr as (b1 & a & Ha & Hr); try decoded_whole.
  destruct a as [[key value] options]. injection Hr as _ <-.
  apply set_inv in Ha as (Hk & Ho & _ & [Hw|[_ Hw]]); (split; [done|]).
  - exists []. split; [by left|]. cbn [from_command]. by rewrite (emits_written _ _ Hw), app_nil_r.
  - exists (to_be 1 0). split; [by right|]. cbn [from_command]. by rewrite (emits_written _ _ Hw).
Qed.

(** ** The panic of SCAN *)

Lemma get_exact {A} n bs rest (k : Z -> reader A) :
  length bs = n -> (get_uint n ≫= k) (bs ++ rest) = k (from_be bs) rest.
Proof.
  intros Hn. unfold get_uint, mbind, fallible_bind. rewrite copy_exact by done. done.
Qed.

(** The part of [decode_scan] behind the pattern. *)
Definition scan_count (cursor : Z) (pattern : option string) : reader (Z * option string * option Z) :=
  count_flag ← get_u8;
  count ← (if count_flag =? 0 then mret None
           else if count_flag =? 1 then _ ← need 2; value ← get_u16; mret (Some value)
           else raise TrnCorruptedPayload);
  _ ← ensure_empty;
  mret (cursor, pattern, count).

Lemma scan_count_safe cursor pattern : safe_from 1 (scan_count cursor pattern).
Proof. unfold scan_count. safe_reader. Qed.

Lemma returns_not_panic {E A} (r : outcome E A) : returns r -> r <> panic.
Proof. by intros H ->. Qed.

(** ... and behind the flag of the pattern. *)
Definition scan_pattern (cursor flag : Z) : reader (Z * option string * option Z) :=
  pattern ← (if flag =? 0 then mret None
             else if flag =? 1 then pattern ← read_string_u16; mret (Some pattern)
             else raise TrnCorruptedPayload);
  scan_count cursor pattern.

Lemma scan_pattern_panics cursor flag rest :
  rest <> [] ->
  (scan_pattern cursor flag rest).2 = panic <->
  flag = 1 /\ exists s, str_ok s /\ string_fits u16_max s /\ rest = prefixed 2 (as_bytes s).
Proof.
  intros Hne. unfold scan_pattern.
  assert (forall b bs p, (scan_count cursor p (b :: bs)).2 <> panic) as Hsafe.
  { intros b bs p. apply returns_not_panic, scan_count_safe. cbn. lia. }
  split.
  - destruct (Z.eqb_spec flag 0) as [->|_]; [by destruct rest as [|b rest]; [|intros []%Hsafe]|].
    destruct (Z.eqb_spec flag 1) as [->|Hn]; [|done].
    pose proof (safe_string_u16 rest ltac:(lia)) as Hs. unfold mbind, fallible_bind.
    destruct (read_string_u16 rest) as [rest' [s|e]] eqn:Er; [|intros [= ->]; done].
    apply read_string_u16_inv in Er as (-> & H1 & H2). cbn [mret fallible_ret].
    destruct rest' as [|b rest']; [|intros []%Hsafe]. rewrite app_nil_r. eauto.
  - intros (-> & s & H1 & H2 & ->). cbn [Z.eqb Pos.eqb]. unfold mbind, fallible_bind.
    rewrite <- (app_nil_r (prefixed _ _)).
    by rewrite (inverse_emits _ _ _ _ [] (inverse_string_u16 s H1) (emits_string_u16 s H2)).
Qed.

Lemma decode_scan_split cursor f rest :
  length cursor = 8%nat -> rest <> [] ->
  decode_scan (cursor ++ f :: rest) = scan_pattern (from_be cursor) (from_be [f]) rest.
Proof.
  intros Hc Hr. unfold decode_scan.
  assert (10 <= Z.of_nat (length (cursor ++ f :: rest))) as Hl.
  { rewrite length_app, Hc. destruct rest; [done|]. cbn. lia. }
  pose proof (need_app 10 (cursor ++ f :: rest) [] (A := Z * option string * option Z)) as Hneed.
  rewrite app_nil_r in Hneed. rewrite Hneed by exact Hl. rewrite (get_exact 8) by done.
  by rewrite (get_exact 1 [f] rest).
Qed.

Lemma scan_panics payload :
  read_from decode_scan payload = panic <->
  exists cursor pattern, length cursor = 8%nat /\ str_ok pattern /\ string_fits u16_max pattern /\
    payload = cursor ++ to_be 1 1 ++ prefixed 2 (as_bytes pattern).
Proof.
  unfold read_from. split.
  - intros Hp. destruct (Z.ltb_spec (Z.of_nat (length payload)) 10) as [Hs|Hs].
    { exfalso. unfold decode_scan, mbind, fallible_bind, need in Hp.
      by rewrite (proj2 (Z.ltb_lt (Z.of_nat (length payload)) 10) Hs) in Hp. }
    rewrite <- (take_drop 8 payload) in Hp |- *.
    assert (length (take 8 payload) = 8%nat) as Hc by (rewrite length_take; lia).
    assert (2 <= length (drop 8 payload))%nat as Hd by (rewrite length_drop; lia).
    destruct (drop 8 payload) as [|f rest]; [cbn in Hd; lia|].
    assert (rest <> []) as Hr by (intros ->; cbn in Hd; lia).
    rewrite decode_scan_split, scan_pattern_panics in Hp by done. destruct Hp as (Hf & s & H1 & H2 & ->).
    exists (take 8 payload), s. split_and!; try done. f_equal. rewrite <- Hf. symmetry.
    apply (f_equal (fun l => l ++ _) (to_from_be [f])).
  - intros (cursor & s & Hc & H1 & H2 & ->). change (to_be 1 1 ++ ?l) with (x01 :: l).
    rewrite (decode_scan_split cursor x01) by done. apply scan_pattern_panics; [done|]. split; [done|]. eauto.
Qed.

(** Otherwise it returns. *)
Lemma scan_returns_or_panics payload :
  returns (read_from decode_scan payload) \/ read_from decode_scan payload = panic.
Proof.
  unfold read_from. destruct (Z.ltb_spec (Z.of_nat (length payload)) 10) as [Hs|Hs].
  { left. unfold decode_scan, mbind, fallible_bind, need.
    by rewrite (proj2 (Z.ltb_lt (Z.of_nat (length payload)) 10) Hs). }
  rewrite <- (take_drop 8 payload).
  assert (length (take 8 payload) = 8%nat) as Hc by (rewrite length_take; lia).
  assert (2 <= length (drop 8 payload))%nat as Hd by (rewrite length_drop; lia).
  destruct (drop 8 payload) as [|f [|b rest]]; [cbn in Hd; lia..|].
  rewrite decode_scan_split by done. unfold scan_pattern. generalize (from_be (take 8 payload)) as cursor.
  intros cursor. destruct (_ =? 0); [left; apply scan_count_safe; cbn; lia|].
  destruct (_ =? 1); [|by left]. pose proof (safe_string_u16 (b :: rest) ltac:(lia)) as Hr.
  unfold mbind, fallible_bind. destruct (read_string_u16 (b :: rest)) as [rest' [s|e]]; [|by left].
  cbn [mret fallible_ret]. destruct rest' as [|b' rest']; [by right|]. left. apply scan_count_safe. cbn. lia.
Qed.

(** ** Commands that can be sent *)

Definition key_fits (s : string) : bool := bool_decide (string_fits u16_max s).
Definition text_fits (s : string) : bool := bool_decide (string_fits u32_max s).
Definition value_fits (bs : list byte) : bool := bool_decide (bytes_fit u32_max bs).
Definition count_fits {A} (xs : list A) : bool := Z.of_nat (length xs) <=? u16_max.

(** The lengths of a command fit the length fields of its payload. *)
Definition command_fits (c : Command) : bool :=
  match c with
  | CmdAuth a b | CmdRename a b | CmdRenameNx a b | CmdAlterUserPassword a b | CmdCreateUser a b
  | CmdGrantRole a b | CmdRevokeRole a b | CmdClusterJoin a b => key_fits a && text_fits b
  | CmdPing m => match m with Some m => text_fits m | None => true end
  | CmdSet k v _ | CmdSetNx k v => key_fits k && value_fits v
  | CmdMGet ks | CmdDelete ks => count_fits ks && forallb key_fits ks
  | CmdMSet es => count_fits es && forallb (fun '(k, v) => key_fits k && value_fits v) es
  | CmdScan _ p _ => match p with Some p => key_fits p | None => true end
  | CmdGrantPermission a b c | CmdRevokePermission a b c => key_fits a && (key_fits b && key_fits c)
  | CmdBackupVerify d | CmdRestore d | CmdRestoreCheck d => text_fits d
  | CmdGet k | CmdGetDel k | CmdGetEx k _ _ | CmdExists k | CmdIncr k | CmdDecr k | CmdExpire k _
  | CmdTtl k | CmdPersist k | CmdBackupTo k | CmdBackupVerifyFrom k | CmdRestoreFrom k
  | CmdRestoreCheckFrom k | CmdDropUser k | CmdCreateRole k | CmdDropRole k | CmdShowGrantsForUser k
  | CmdShowGrantsForRole k | CmdClusterRemove k => key_fits k
  | CmdHelp | CmdExit => false
  | CmdDbSize | CmdInfo | CmdMetrics | CmdMetricsProm | CmdList | CmdClear | CmdCount | CmdSave
  | CmdBackup | CmdShowUsers | CmdShowRoles | CmdShowGrants | CmdWhoAmI | CmdMulti | CmdExec
  | CmdDiscard | CmdMaintenanceOn | CmdMaintenanceOff | CmdMaintenanceStatus | CmdHealth
  | CmdShowCluster | CmdShowReplication | CmdPromoteFollower | CmdPauseReplication
  | CmdResumeReplication | CmdSnapshot => true
  end.

(** Whether [w] succeeds does not depend on what is already in the buffer. *)
Definition decides (w : writer) (b : bool) : Prop := forall buf, is_ok (w buf).2 = b.

Lemma decides_seq w1 w2 a b : decides w1 a -> decides w2 b -> decides (_ ← w1; w2) (a && b).
Proof.
  intros H1 H2 buf. unfold mbind, fallible_bind. rewrite <- (H1 buf).
  destruct (w1 buf) as [buf' [[]|]]; [apply H2|done].
Qed.

Lemma decides_eq w a b : decides w a -> a = b -> decides w b.
Proof. by intros ? <-. Qed.

Lemma decides_length {A} max (xs : list A) (w : Z -> writer) a :
  (forall n, decides (w n) a) ->
  decides (n ← mpure (checked_len max xs); w n) ((Z.of_nat (length xs) <=? max) && a).
Proof.
  intros Hw buf. unfold mbind, fallible_bind, mpure, checked_len. destruct (_ <=? max); [apply Hw|done].
Qed.

Lemma decides_string_u16 s : decides (put_string_u16 s) (key_fits s).
Proof.
  eapply decides_eq; [by apply (decides_length u16_max (as_bytes s) _ true)|]. rewrite andb_true_r.
  unfold key_fits, string_fits, bytes_fit. case_bool_decide; [by apply Z.leb_le|apply Z.leb_gt; lia].
Qed.

Lemma decides_bytes_u32 bs : decides (put_bytes_u32 bs) (value_fits bs).
Proof.
  eapply decides_eq; [by apply (decides_length u32_max bs _ true)|]. rewrite andb_true_r.
  unfold value_fits, bytes_fit. case_bool_decide; [by apply Z.leb_le|apply Z.leb_gt; lia].
Qed.

Lemma decides_string_u32 s : decides (put_string_u32 s) (text_fits s).
Proof. apply decides_bytes_u32. Qed.

Lemma decides_uint n z : decides (put_uint n z) true.
Proof. done. Qed.

Lemma decides_many {A} (put : A -> writer) fits xs :
  (forall x, decides (put x) (fits x)) -> decides (mfor put xs) (forallb fits xs).
Proof. intros Hp. induction xs as [|x xs IH]; [done|]. cbn. by apply decides_seq. Qed.

Lemma decides_expiration e : decides (encode_expiration e) true.
Proof. by destruct e as [[]|]. Qed.

#[local] Hint Resolve decides_seq decides_string_u16 decides_bytes_u32 decides_string_u32 decides_uint
  decides_expiration : wire.

Lemma decides_set k v o : decides (encode_set k v o) (key_fits k && value_fits v).
Proof.
  eapply decides_eq; [unfold encode_set; repeat (apply decides_seq; [eauto with wire|])|].
  - by destruct (so_if_version o); eauto with wire.
  - cbn. by rewrite !andb_true_r.
Qed.

Lemma decides_keys ks : decides (encode_keys ks) (count_fits ks && forallb key_fits ks).
Proof.
  apply decides_length. intros n. apply (decides_seq _ _ true); [done|].
  apply decides_many, decides_string_u16.
Qed.

Lemma decides_pairs es :
  decides (encode_byte_pairs es)
    (count_fits es && forallb (fun '(k, v) => key_fits k && value_fits v) es).
Proof.
  apply decides_length. intros n. apply (decides_seq _ _ true); [done|].
  apply decides_many. intros [k v]. eauto with wire.
Qed.

Lemma decides_scan c p n :
  decides (encode_scan c p n) match p with Some p => key_fits p | None => true end.
Proof.
  intros buf. unfold encode_scan. apply (decides_seq _ _ true); [done|].
  rewrite <- (andb_true_r (match p with Some _ => _ | None => _ end)). apply decides_seq.
  - destruct p; [|done]. apply (decides_seq _ _ true); eauto with wire.
  - by destruct n.
Qed.

#[local] Hint Resolve decides_set decides_keys decides_pairs decides_scan : wire.

Lemma written_ok w b : decides w b -> is_ok (written w) = b.
Proof. intros Hw. unfold written. rewrite <- (Hw []). by destruct (w []) as [? [[]|]]. Qed.

Lemma from_command_fits id c : is_ok (from_command id c) = command_fits c.
Proof.
  assert (forall w b opcode, decides w b ->
    is_ok (payload ← written w; Ok (new_request id opcode payload)) = b) as Hreq.
  { intros w b opcode Hw. rewrite <- (written_ok w b Hw). by destruct (written w). }
  destruct c; cbn [from_command command_fits]; try done; apply Hreq; try (by eauto with wire).
  - destruct message; [|done]. apply (decides_seq _ _ true); eauto with wire.
  - eapply decides_eq; [repeat (apply decides_seq; [eauto with wire|]); eauto with wire|by rewrite !andb_true_r].
  - eapply decides_eq; [apply decides_seq; eauto with wire|by rewrite andb_true_r].
Qed.

(** * What response payloads decode to

    Every builder is inverted by its decoder, and no payload makes a decoder
    panic. *)

(** What Rust's types say of an EXEC result. *)
Definition exec_result_typed (result : ExecResultPayload) : Prop :=
  match result with
  | ExecOk | ExecNotFound | ExecValue _ | ExecBoolean _ | ExecStrings _ => True
  | ExecCount value => is_u64 value
  | ExecInteger value => is_i64 value
  | ExecEntries entries => Forall str_ok entries.*1
  | ExecScan scan => is_u64 (scan_next_cursor scan) /\ Forall str_ok (scan_keys scan)
  end.

Lemma as_i64_wrap z : is_i64 z -> as_i64 (z mod 2 ^ 64) = z.
Proof.
  unfold is_i64, as_i64, i64_min, i64_max. intros Hz. destruct (decide (0 <= z)).
  - rewrite Z.mod_small by lia. by rewrite (proj2 (Z.leb_le z (2 ^ 63 - 1))) by lia.
  - rewrite <- (Z.mod_unique z (2 ^ 64) (-1) (z + 2 ^ 64)) by lia.
    rewrite (proj2 (Z.leb_gt (z + 2 ^ 64) (2 ^ 63 - 1))) by lia. lia.
Qed.

Lemma inverse_i64 z : is_i64 z -> inverse (put_i64 z) (_ ← need 8; get_i64) z.
Proof.
  intros Hz. apply (inverse_need_last 8 (z mod 2 ^ 64) (fun z => mret (as_i64 z))).
  - pose proof (Z.mod_pos_bound z (2 ^ 64)). cbn. lia.
  - intros rest. cbn. by rewrite as_i64_wrap.
Qed.

Lemma inverse_optional value : inverse (put_optional value) read_optional value.
Proof.
  unfold read_optional. destruct value as [v|].
  - apply (inverse_need_uint 1 1); [lia|]. eapply inverse_map; [apply inverse_bytes_u32|done].
  - by apply (inverse_need_last 1 0).
Qed.

Lemma inverse_entry kv : str_ok kv.1 -> inverse (put_entry kv) read_pair kv.
Proof. intros Hk. by destruct kv; apply (inverse_pair (_, _)). Qed.

Lemma inverse_list {A} (put : A -> writer) (read : reader A) xs :
  Forall (fun x => inverse (put x) read x) xs -> inverse (put_list put xs) (read_list read) xs.
Proof.
  intros Hxs buf buf' (? & z & [= <- Hz] & Hw)%fallible_bind_ok.
  unfold checked_len in Hz. destruct (Z.leb_spec (Z.of_nat (length xs)) u32_max); [|done].
  injection Hz as <-. revert buf buf' Hw.
  apply (inverse_need_uint 4 _ _ (fun count => read_many (Z.to_nat count) read)); [unfold_widths; cbn; lia|].
  rewrite Nat2Z.id. by apply inverse_many.
Qed.

Lemma Forall_inverse {A} (P : A -> Prop) (put : A -> writer) (read : reader A) xs :
  Forall P xs -> (forall x, P x -> inverse (put x) read x) -> Forall (fun x => inverse (put x) read x) xs.
Proof. intros HP Hi. eapply Forall_impl; [exact HP|exact Hi]. Qed.

Lemma inverse_entries es : Forall str_ok es.*1 -> inverse (put_list put_entry es) (read_list read_pair) es.
Proof. rewrite Forall_fmap. intros He. by apply inverse_list, (Forall_inverse _ _ _ _ He), inverse_entry. Qed.

Lemma inverse_strings vs : inverse (put_list put_optional vs) (read_list read_optional) vs.
Proof. apply inverse_list, Forall_true, inverse_optional. Qed.

(** The cursor of a page and its keys. *)
Lemma inverse_page {A} cursor keys (k : Z -> list string -> reader A) a :
  is_u64 cursor -> Forall str_ok keys -> (forall rest, k cursor keys rest = (rest, Ok a)) ->
  inverse (_ ← put_u64 cursor; put_list put_string_u16 keys)
    (_ ← need 12; next ← get_u64; n ← get_u32; keys ← read_many (Z.to_nat n) read_string_u16; k next keys) a.
Proof.
  intros Hc Hk Ha buf buf' Hw. pose proof Hw as Hw'.
  apply fallible_bind_ok in Hw as (b1 & [] & [= <-] & Hw).
  apply fallible_bind_ok in Hw as (? & z & [= <- Hz] & Hw).
  unfold checked_len in Hz. destruct (Z.leb_spec (Z.of_nat (length keys)) u32_max); [|done].
  injection Hz as <-. apply fallible_bind_ok in Hw as (b2 & [] & [= <-] & Hw).
  destruct (inverse_many put_string_u16 read_string_u16 keys
    (Forall_inverse _ _ _ _ Hk inverse_string_u16) _ _ Hw) as (bs & -> & Hr).
  exists (to_be 8 cursor ++ to_be 4 (Z.of_nat (length keys)) ++ bs). split; [by rewrite !app_assoc|].
  intros rest. rewrite need_app by (rewrite !length_app, !to_be_length; lia).
  rewrite <- !app_assoc, (get_exact 8), (get_exact 4) by apply to_be_length.
  rewrite !from_to_be, Nat2Z.id by (unfold_widths; cbn in *; lia).
  unfold mbind, fallible_bind. by rewrite Hr, Ha.
Qed.

Lemma inverse_exec_result result :
  exec_result_typed result -> inverse (encode_exec_result result) decode_exec_result result.
Proof.
  intros Ht. unfold decode_exec_result.
  destruct result as [| |v|b|n|n|es|vs|[c ks]]; cbn [exec_result_typed encode_exec_result] in *;
    try (by apply (inverse_need_last 1)); apply (inverse_need_uint 1); try lia; cbn [Z.eqb Pos.eqb].
  - eapply inverse_map; [apply inverse_bytes_u32|done].
  - eapply inverse_map; [apply inverse_bool|done].
  - apply (inverse_need_last 8); [unfold_widths; cbn in *; lia|done].
  - pose proof (inverse_i64 n Ht) as Hi. intros buf buf' Hw. destruct (Hi _ _ Hw) as (bs & -> & Hr).
    exists bs. split; [done|]. intros rest. specialize (Hr rest). revert Hr.
    unfold mbind, fallible_bind. destruct (need 8 (bs ++ rest)) as [? [[]|]]; [|done]. by intros ->.
  - eapply inverse_map; [by apply inverse_entries|done].
  - eapply inverse_map; [by apply inverse_strings|done].
  - destruct Ht. by apply (inverse_page c ks (fun c ks => mret (ExecScan (mkScanPayload c ks)))).
Qed.

(** ** Builders and decoders *)

Lemma build_decode {A} id status w (r : reader A) a resp :
  inverse w r a -> Response.build id status w = Ok resp ->
  rs_request_id resp = id /\ rs_status resp = status /\
  read_from (x ← r; _ ← ensure_empty; mret x) (rs_payload resp) = Ok a.
Proof.
  intros Hi (p & Hp & [= <-])%result_bind_ok. split_and!; [done..|].
  eapply inverse_end_written; [|exact Hp]. by eapply inverse_last.
Qed.

Lemma error_round_trip id code name message resp :
  str_ok code -> str_ok name -> str_ok message -> Response.error id code name message = Ok resp ->
  Response.decode_error resp = Ok (mkErrorPayload code name message).
Proof.
  intros Hc Hn Hm (p & Hp & [= <-])%result_bind_ok. unfold Response.decode_error.
  eapply inverse_end_written; [|exact Hp].
  eapply inverse_seq_end; [by apply inverse_string_u16|]. eapply inverse_seq_end; [by apply inverse_string_u16|].
  eapply inverse_last; [by apply inverse_string_u32|done].
Qed.

Lemma exec_results_round_trip id results resp :
  Forall exec_result_typed results -> Response.exec_results id results = Ok resp ->
  Response.decode_exec_results resp = Ok results.
Proof.
  intros Ht Hb. eapply build_decode in Hb as (_ & _ & Hd); [exact Hd|].
  by apply inverse_list, (Forall_inverse _ _ _ _ Ht), inverse_exec_result.
Qed.

Lemma scan_round_trip id cursor keys resp :
  is_u64 cursor -> Forall str_ok keys -> Response.scan id cursor keys = Ok resp ->
  Response.decode_scan resp = Ok (mkScanPayload cursor keys).
Proof.
  intros Hc Hk (p & Hp & [= <-])%result_bind_ok. unfold Response.decode_scan.
  eapply inverse_end_written; [|exact Hp]. intros buf buf' Hw.
  pose proof (inverse_page cursor keys (fun c ks => mret (c, ks)) (cursor, keys) Hc Hk ltac:(done)) as Hi.
  destruct (Hi buf buf') as (bs & -> & Hr).
  { apply fallible_bind_ok in Hw as (? & z & [= <- Hz] & Hw). unfold mbind, fallible_bind, put_list, mpure.
    cbn [put_u64 put_uint mmodify]. rewrite Hz. exact Hw. }
  exists bs. split; [done|]. specialize (Hr []). rewrite app_nil_r in Hr. revert Hr.
  unfold mbind, fallible_bind.
  destruct (need 12 bs) as [b1 [[]|]]; [|done]. destruct (get_u64 b1) as [b2 [c|]]; [|done].
  destruct (get_u32 b2) as [b3 [n|]]; [|done]. destruct (read_many _ _ b3) as [b4 [ks|]]; [|done].
  by intros [= -> -> ->].
Qed.

(** ** No panics *)

Lemma safe_i64 : safe_from 8 get_i64.
Proof. unfold get_i64. safe_reader. Qed.

Lemma safe_optional : safe read_optional.
Proof. unfold read_optional. safe_reader. Qed.

Lemma safe_list {A} (r : reader A) : safe r -> safe (read_list r).
Proof. intros Hr. unfold read_list. safe_reader. Qed.

#[export] Hint Resolve safe_i64 safe_optional safe_list : wire.

Lemma safe_exec_result : safe decode_exec_result.
Proof. unfold decode_exec_result. safe_reader. Qed.

#[export] Hint Resolve safe_exec_result : wire.

Lemma read_from_returns {A} (r : reader A) payload : safe r -> returns (read_from r payload).
Proof. intros Hr. apply Hr. lia. Qed.

Lemma collect_returns {A B} (f : A -> outcome TransportError B) xs :
  (forall x, returns (f x)) -> returns (collect f xs).
Proof.
  intros Hf. induction xs as [|x xs IH]; [done|]. cbn. apply returns_bind; [done|]. intros y _.
  apply returns_bind; [done|]. done.
Qed.

Lemma utf8_returns bs : returns (Response.utf8 bs).
Proof. unfold Response.utf8. by destruct (from_utf8 bs). Qed.

(** Every decoder of a response. *)
Lemma response_decoders_return r :
  returns (Response.decode_value r) /\ returns (Response.decode_value_bytes r) /\
  returns (Response.decode_error r) /\ returns (Response.decode_error_message r) /\
  returns (Response.decode_bool r) /\ returns (Response.decode_count r) /\
  returns (Response.decode_integer r) /\ returns (Response.decode_entries r) /\
  returns (Response.decode_byte_entries r) /\ returns (Response.decode_strings r) /\
  returns (Response.decode_byte_strings r) /\ returns (Response.decode_scan r) /\
  returns (Response.decode_exec_results r).
Proof.
  assert (returns (Response.decode_value_bytes r)) by (apply read_from_returns; unfold decode_bytes_u32; safe_reader).
  assert (returns (Response.decode_error r)) by (apply read_from_returns; unfold decode_error_payload; safe_reader).
  assert (returns (Response.decode_byte_entries r)) by (apply read_from_returns; safe_reader).
  assert (returns (Response.decode_byte_strings r)) by (apply read_from_returns; safe_reader).
  split_and!; try done; try (apply read_from_returns; safe_reader).
  - apply returns_bind; [done|]. intros bs _. apply utf8_returns.
  - by apply returns_bind.
  - unfold Response.decode_bool. by destruct (rs_payload r) as [|[] []].
  - apply returns_bind; [done|]. intros es _. apply collect_returns. intros [k v].
    apply returns_bind; [apply utf8_returns|done].
  - apply returns_bind; [done|]. intros vs _. apply collect_returns. intros [v|]; [|done].
    apply returns_bind; [apply utf8_returns|done].
Qed.
