(* ===== verification/FrameFacts.v ===== *)
(** * FrameFacts: frames, bodies and streams

    A written frame is read back, the two frame decoders agree, and no input
    makes them panic. *)

From S2P Require Import Prelude Text Command Crypto Wire Opcode Request PayloadFacts Response.
From S2P Require Import Frame.

(** ** Headers *)

Definition header_ok (h : FrameHeader) : Prop :=
  fh_magic h = MAGIC /\ fh_version h = VERSION /\ 0 <= fh_length h <= MAX_FRAME_LEN /\
  (fh_flags h = FLAGS_NONE \/ fh_flags h = FLAG_COMPRESSED_ZSTD) /\ is_u32 (fh_checksum h).

Lemma header_grows h : grows HEADER_LEN (FrameHeader.encode h).
Proof.
  unfold FrameHeader.encode. apply (grows_seq 4 10); [apply grows_uint|].
  apply (grows_seq 1 9); [apply grows_uint|]. apply (grows_seq 1 8); [apply grows_uint|].
  apply (grows_seq 4 4); apply grows_uint.
Qed.

Lemma inverse_header h : header_ok h -> inverse (FrameHeader.encode h) FrameHeader.decode h.
Proof.
  intros (Hm & Hv & Hl & Hf & Hc). pose proof (header_grows h) as Hg.
  set (r := (magic ← get_u32; version ← get_u8; flags ← get_u8; length ← get_u32; checksum ← get_u32;
    if negb (magic =? MAGIC) then raise TrnInvalidFrame
    else if negb (version =? VERSION) then raise (TrnVersionMismatch VERSION version)
    else if MAX_FRAME_LEN <? length then raise (TrnFrameTooLarge length MAX_FRAME_LEN)
    else if negb (Z.land flags (0xFF - FLAG_COMPRESSED_ZSTD) =? 0) then raise (TrnUnsupportedFlags flags)
    else mret (mkFrameHeader magic version flags length checksum)) : reader FrameHeader).
  assert (inverse (FrameHeader.encode h) r h) as Hi.
  { unfold FrameHeader.encode, r. rewrite Hm, Hv.
    eapply inverse_seq; [apply (inverse_uint 4); done|]. eapply inverse_seq; [apply (inverse_uint 1); done|].
    eapply inverse_seq; [apply (inverse_uint 1); destruct Hf as [-> | ->]; done|].
    eapply inverse_seq; [apply (inverse_uint 4); unfold MAX_FRAME_LEN in Hl; cbn; lia|].
    eapply inverse_map; [apply (inverse_uint 4); unfold_widths; cbn; lia|].
    intros rest. rewrite !Z.eqb_refl. cbn [negb].
    rewrite (proj2 (Z.ltb_ge MAX_FRAME_LEN (fh_length h))) by lia.
    destruct h as [m v f l c]. cbn in *. subst m v. by destruct Hf as [-> | ->]. }
  intros buf buf' Hw. destruct (Hi _ _ Hw) as (bs & -> & Hr). exists bs. split; [done|]. intros rest.
  apply Hg in Hw. rewrite length_app in Hw. unfold FrameHeader.decode. rewrite need_app by lia. apply Hr.
Qed.

(** A property of a byte, checked on every value. *)
Lemma byte_check (P : Z -> bool) z : forallb P (seqZ 0 256) = true -> 0 <= z < 256 -> P z = true.
Proof.
  rewrite forallb_forall. intros Hall Hz. apply Hall, list_elem_of_In, elem_of_seqZ. lia.
Qed.

Lemma known_flags f :
  0 <= f < 256 -> Z.land f (0xFF - FLAG_COMPRESSED_ZSTD) = 0 -> f = FLAGS_NONE \/ f = FLAG_COMPRESSED_ZSTD.
Proof.
  intros Hf Hl.
  pose proof (byte_check (fun f => negb (Z.land f (0xFF - FLAG_COMPRESSED_ZSTD) =? 0) || (f =? 0) || (f =? 1)) f
    eq_refl Hf) as Hc. cbv beta in Hc. rewrite Hl in Hc. cbn in Hc.
  apply orb_prop in Hc as [?%Z.eqb_eq|?%Z.eqb_eq]; auto.
Qed.

Lemma header_decode_ok buf buf' h :
  FrameHeader.decode buf = (buf', Ok h) -> header_ok h /\ exists bs, buf = bs ++ buf' /\ length bs = HEADER_LEN.
Proof.
  unfold FrameHeader.decode. intros Hr. inv_read.
  repeat match goal with H : (if ?b then _ else _) _ = _ |- _ => destruct b eqn:?; [discriminate H|] end.
  inv_read.
  repeat match goal with
  | H : negb _ = false |- _ => apply negb_false_iff, Z.eqb_eq in H
  | H : (_ <? _) = false |- _ => apply Z.ltb_ge in H
  end. split.
  - unfold header_ok. cbn in *. split_and!; try done; [lia| |unfold_widths; lia].
    apply known_flags; [lia|done].
  - rewrite !app_assoc. eexists. split; [reflexivity|]. by rewrite !length_app, !to_be_length.
Qed.

Section frames.
Context `{Zstd} `{Crc32}.

(** ** Frames *)

(** A frame written under [o] is within the limits of [o']. *)
Definition within_limits (o o' : CodecOptions) : Prop :=
  co_max_frame_len o <= co_max_frame_len o' /\
  co_max_decompressed_frame_len o <= co_max_decompressed_frame_len o' /\
  0 <= co_max_decompressed_frame_len o' < u64_max.

(** What [encode_frame] writes. *)
Lemma encode_frame_ok body o frame :
  encode_frame body o = Ok frame -> co_max_frame_len o <= u32_max ->
  exists flags payload bs,
    let h := mkFrameHeader MAGIC VERSION flags (Z.of_nat (length payload)) (crc32 payload) in
    maybe_compress body o = Ok (flags, payload) /\ Z.of_nat (length payload) <= co_max_frame_len o /\
    Z.of_nat (length body) <= co_max_decompressed_frame_len o /\ header_ok h /\
    frame = bs ++ payload /\ length bs = HEADER_LEN /\
    forall rest, FrameHeader.decode (bs ++ rest) = (rest, Ok h).
Proof.
  unfold encode_frame. intros He Hmax. destruct (Z.ltb_spec (co_max_decompressed_frame_len o) (Z.of_nat (length body)));
    [done|]. destruct (maybe_compress body o) as [[flags payload]|] eqn:Ec; [|done]. cbn in He.
  destruct (Z.ltb_spec (co_max_frame_len o) (Z.of_nat (length payload))); [done|].
  rewrite Z.mod_small in He by (unfold_widths; lia). unfold FrameHeader.new in He.
  destruct (Z.ltb_spec MAX_FRAME_LEN (Z.of_nat (length payload))); [done|]. cbn in He.
  set (h := mkFrameHeader MAGIC VERSION flags (Z.of_nat (length payload)) (crc32 payload)) in *.
  assert (header_ok h) as Hh.
  { unfold header_ok, h. cbn. split_and!; try done; [lia| |apply crc32_u32].
    unfold maybe_compress in Ec. destruct (negb _); [injection Ec as <- <-; by left|].
    destruct (zstd_compress body); [|done]. injection Ec as <- <-. by right. }
  unfold written in He. destruct ((_ ← FrameHeader.encode h; extend_from_slice payload) []) as [buf [[]|]] eqn:Ew; [|done].
  injection He as <-. apply fallible_bind_ok in Ew as (b1 & [] & Hw & [= <-]).
  pose proof (inverse_header h Hh _ _ Hw) as (bs & -> & Hr).
  assert (length bs = HEADER_LEN) as Hlen.
  { specialize (Hr []). rewrite app_nil_r in Hr. apply header_decode_ok in Hr as [_ (bs' & -> & Hl)].
    by rewrite app_nil_r. }
  exists flags, payload, bs. done.
Qed.

Lemma decompress_compressed body o o' flags payload :
  maybe_compress body o = Ok (flags, payload) -> within_limits o o' ->
  Z.of_nat (length body) <= co_max_decompressed_frame_len o ->
  maybe_decompress (mkFrameHeader MAGIC VERSION flags (Z.of_nat (length payload)) (crc32 payload))
    payload o' = Ok body.
Proof.
  intros Hc (_ & Hd & Hu) Hb. unfold maybe_compress in Hc. unfold maybe_decompress. cbn [fh_flags].
  destruct (negb (should_compress _ _)); [by injection Hc as <- <-|].
  destruct (zstd_compress body) as [c|] eqn:Ec; [|done]. injection Hc as <- <-. cbn.
  rewrite (zstd_decode_compress _ _ Ec). cbn.
  rewrite (proj2 (Z.leb_gt (saturating_add (co_max_decompressed_frame_len o') 1) (Z.of_nat (length body))))
    by width_lia. cbn.
  by rewrite (proj2 (Z.ltb_ge (co_max_decompressed_frame_len o') (Z.of_nat (length body)))) by lia.
Qed.

Lemma read_exact_app n bs rest :
  length bs = n -> read_exact_or_eof n (bs ++ rest) = (rest, Ok bs).
Proof.
  intros Hn. unfold read_exact_or_eof.
  rewrite length_app, (proj2 (Nat.ltb_ge (length bs + length rest) n)) by lia.
  by rewrite take_app_exact, drop_app_exact.
Qed.

Lemma read_payload_app flags payload rest o :
  Z.of_nat (length payload) <= co_max_frame_len o ->
  read_payload (mkFrameHeader MAGIC VERSION flags (Z.of_nat (length payload)) (crc32 payload)) o
    (payload ++ rest) = (rest, Ok payload).
Proof.
  intros Hl. unfold read_payload, mbind, fallible_bind, mpure, lift, enforce_frame_limit. cbn [fh_length].
  rewrite (proj2 (Z.ltb_ge (co_max_frame_len o) (Z.of_nat (length payload)))) by lia. cbn.
  destruct (Z.eqb_spec (Z.of_nat (length payload)) 0) as [Hz|_].
  - destruct payload; [|done]. cbn. by rewrite Z.eqb_refl.
  - rewrite read_exact_app by lia. cbn. by rewrite Z.eqb_refl.
Qed.

Lemma frame_round_trip body o o' frame rest :
  encode_frame body o = Ok frame -> co_max_frame_len o <= u32_max -> within_limits o o' ->
  read_frame_from_with_options o' (frame ++ rest) = (rest, Ok body).
Proof.
  intros He Hm Hw. destruct (encode_frame_ok _ _ _ He Hm)
    as (flags & payload & bs & Hc & Hp & Hb & _ & -> & Hl & Hd). cbv zeta in Hd.
  unfold read_frame_from_with_options, mbind, fallible_bind. rewrite <- app_assoc, read_exact_app by done.
  unfold mpure, read_from. specialize (Hd []). rewrite app_nil_r in Hd. rewrite Hd. cbn [snd].
  rewrite read_payload_app by (destruct Hw; lia). unfold lift. by rewrite (decompress_compressed _ _ _ _ _ Hc Hw Hb).
Qed.

(** ** The two decoders *)

Lemma split_at {A} n (l : list A) :
  (n <= length l)%nat -> exists a b, l = a ++ b /\ length a = n /\ length b = (length l - n)%nat.
Proof.
  intros Hn. exists (take n l), (drop n l). rewrite take_drop, length_take, length_drop. split_and!; lia || done.
Qed.

(** A header is read from its own bytes. *)
Lemma header_local hb : length hb = HEADER_LEN ->
  exists r, forall buf, FrameHeader.decode (hb ++ buf) = (buf, r).
Proof.
  intros Hl. assert (length hb = 14)%nat as Hl' by done.
  destruct (split_at 4 hb) as (a & hb1 & -> & Ha & H1); [lia|].
  destruct (split_at 1 hb1) as (b & hb2 & -> & Hb & H2); [lia|].
  destruct (split_at 1 hb2) as (c & hb3 & -> & Hc & H3); [lia|].
  destruct (split_at 4 hb3) as (d & e & -> & Hd & He); [lia|].
  eexists. intros buf. unfold FrameHeader.decode. rewrite need_app by (rewrite Hl; done).
  rewrite <- !app_assoc, (get_exact 4), (get_exact 1), (get_exact 1), (get_exact 4), (get_exact 4) by lia.
  match goal with |- (if ?b1 then _ else if ?b2 then _ else if ?b3 then _ else if ?b4 then _ else _) _ = _ =>
    instantiate (1 := if b1 then fail TrnInvalidFrame
      else if b2 then fail (TrnVersionMismatch VERSION (from_be b))
      else if b3 then fail (TrnFrameTooLarge (from_be d) MAX_FRAME_LEN)
      else if b4 then fail (TrnUnsupportedFlags (from_be c))
      else Ok (mkFrameHeader (from_be a) (from_be b) (from_be c) (from_be d) (from_be e)));
    by destruct b1, b2, b3, b4
  end.
Qed.

Lemma read_payload_whole h o buf payload :
  0 <= fh_length h ->
  read_payload h o buf = ([], Ok payload) <->
  is_ok (enforce_frame_limit (fh_length h) (co_max_frame_len o)) = true /\
  Z.of_nat (length buf) = fh_length h /\ crc32 buf = fh_checksum h /\ payload = buf.
Proof.
  intros Hl. unfold read_payload, mbind, fallible_bind, mpure, lift.
  destruct (enforce_frame_limit _ _) as [[]|]; cbn; [|split; [done|by intros [? _]]].
  destruct (Z.eqb_spec (fh_length h) 0) as [Hz|Hz]; cbn.
  - destruct (Z.eqb_spec (crc32 []) (fh_checksum h)) as [Hc|Hc]; cbn; split.
    + intros [= -> <-]. rewrite Hz. done.
    + intros (_ & Hb & _ & ->). rewrite Hz in Hb. by destruct buf.
    + done.
    + intros (_ & Hb & Hc' & _). rewrite Hz in Hb. by destruct buf.
  - unfold read_exact_or_eof. destruct (Nat.ltb_spec (length buf) (Z.to_nat (fh_length h))).
    { split; [done|]. intros (_ & Hb & _). lia. }
    split.
    + destruct (Z.eqb_spec (crc32 (take (Z.to_nat (fh_length h)) buf)) (fh_checksum h)) as [Hc|]; [|done].
      intros [= Hd <-]. apply (f_equal length) in Hd. rewrite length_drop in Hd. cbn in Hd.
      rewrite take_ge in * by lia. split_and!; [done|lia|done..].
    + intros (_ & Hb & Hc & ->). rewrite take_ge, drop_ge, Hc by lia. cbn. by rewrite Z.eqb_refl.
Qed.

Lemma read_frame_short frame o :
  (length frame < HEADER_LEN)%nat -> read_frame_from_with_options o frame = ([], fail TrnUnexpectedEof).
Proof.
  intros Hl. unfold read_frame_from_with_options, mbind, fallible_bind, read_exact_or_eof.
  by rewrite (proj2 (Nat.ltb_lt (length frame) HEADER_LEN)) by lia.
Qed.

Lemma read_frame_app hb buf r o :
  length hb = HEADER_LEN -> (forall buf, FrameHeader.decode (hb ++ buf) = (buf, r)) ->
  read_frame_from_with_options o (hb ++ buf) =
    (h ← mpure r; payload ← read_payload h o; mpure (lift (maybe_decompress h payload o))) buf.
Proof.
  intros Hl Hr. unfold read_frame_from_with_options, mbind at 1, fallible_bind at 1.
  rewrite read_exact_app by done. unfold read_from.
  specialize (Hr []). rewrite app_nil_r in Hr. by rewrite Hr.
Qed.

Lemma decode_frame_spec frame o body :
  decode_frame_borrowing frame o = Ok body <-> read_frame_from_with_options o frame = ([], Ok body).
Proof.
  unfold decode_frame_borrowing.
  destruct (Z.ltb_spec (Z.of_nat (length frame)) (Z.of_nat HEADER_LEN)); [rewrite read_frame_short by lia; done|].
  destruct (split_at HEADER_LEN frame) as (hb & buf & -> & Hhb & _); [lia|].
  destruct (header_local hb Hhb) as [r Hr]. rewrite (read_frame_app _ _ r) by done. rewrite Hr.
  destruct r as [h|e]; [|done]. pose proof (Hr buf) as Hok.
  apply header_decode_ok in Hok as [(_ & _ & Hlen & Hf & _) _].
  pose proof (read_payload_whole h o buf) as Hwhole. cbn [mbind result_bind].
  transitivity (exists payload, read_payload h o buf = ([], Ok payload) /\
                  maybe_decompress h payload o = Ok body).
  - setoid_rewrite Hwhole; [|lia].
    destruct (enforce_frame_limit _ _) as [[]|]; cbn; [|split; [done|by intros (? & [? _] & _)]].
    destruct (Z.ltb_spec (Z.of_nat (length buf)) (fh_length h)); [split; [done|intros (? & (? & ? & _) & _); lia]|].
    destruct (Z.ltb_spec (fh_length h) (Z.of_nat (length buf))); [split; [done|intros (? & (? & ? & _) & _); lia]|].
    rewrite take_ge by lia.
    destruct (Z.eqb_spec (crc32 buf) (fh_checksum h)); cbn; [|split; [done|by intros (? & (? & ? & ? & _) & _)]].
    assert ((if fh_flags h =? FLAGS_NONE then Ok buf else lift (maybe_decompress h buf o)) =
            lift (maybe_decompress h buf o)) as ->
      by (unfold maybe_decompress; by destruct (fh_flags h =? FLAGS_NONE)).
    unfold lift, map_err. split.
    + destruct (maybe_decompress h buf o) as [b|] eqn:Em; [|done]. intros [= ->]. exists buf.
      split_and!; done || lia.
    + by intros (? & (_ & _ & _ & ->) & ->).
  - unfold mbind, fallible_bind, mpure, lift, map_err. split.
    + by intros (payload & -> & ->).
    + destruct (read_payload h o buf) as [rest [payload|]]; [|done]. intros [= -> Hm]. exists payload.
      split; [done|]. revert Hm. destruct (maybe_decompress h payload o); [by intros [= ->]|done].
Qed.

(** ** Bounds *)

Lemma decompress_bound h payload o body :
  maybe_decompress h payload o = Ok body -> Z.of_nat (length payload) <= co_max_frame_len o ->
  Z.of_nat (length body) <= Z.max (co_max_frame_len o) (co_max_decompressed_frame_len o).
Proof.
  unfold maybe_decompress. destruct (fh_flags h =? FLAGS_NONE); [intros [= <-]; lia|].
  destruct (fh_flags h =? FLAG_COMPRESSED_ZSTD); [|done]. intros Hm _. inv_ok.
  match type of Hm with (if ?b then _ else _) = _ => destruct b eqn:E; [done|] end.
  injection Hm as <-. apply Z.ltb_ge in E. lia.
Qed.

Lemma read_payload_bound h o buf buf' payload :
  0 <= fh_length h -> read_payload h o buf = (buf', Ok payload) ->
  Z.of_nat (length payload) = fh_length h /\ fh_length h <= co_max_frame_len o.
Proof.
  intros Hl (b1 & [] & [= <- Hlim] & Hr)%fallible_bind_ok. unfold lift, enforce_frame_limit in Hlim.
  destruct (Z.ltb_spec (co_max_frame_len o) (fh_length h)); [done|].
  apply fallible_bind_ok in Hr as (b2 & p & Hp & Hr). cbv zeta in Hr.
  destruct (negb _); [done|]. injection Hr as _ <-. split; [|done].
  destruct (Z.eqb_spec (fh_length h) 0) as [Hz|]; [by injection Hp as _ <-|].
  unfold read_exact_or_eof in Hp. destruct (Nat.ltb_spec (length buf) (Z.to_nat (fh_length h))); [done|].
  injection Hp as _ <-. rewrite length_take. lia.
Qed.

Lemma read_frame_bound o buf buf' body :
  read_frame_from_with_options o buf = (buf', Ok body) ->
  Z.of_nat (length body) <= Z.max (co_max_frame_len o) (co_max_decompressed_frame_len o).
Proof.
  intros (b1 & hb & _ & Hr)%fallible_bind_ok.
  apply fallible_bind_ok in Hr as (b2 & h & [= <- Hh] & Hr). unfold read_from in Hh.
  destruct (FrameHeader.decode hb) as [rest r] eqn:E. cbn in Hh. subst r.
  apply header_decode_ok in E as [(_ & _ & Hl & _) _].
  apply fallible_bind_ok in Hr as (b3 & payload & [Hp Hlim]%read_payload_bound & Hr); [|lia].
  injection Hr as _ Hd. unfold lift in Hd.
  destruct (maybe_decompress h payload o) eqn:Ed; [|done]. injection Hd as <-.
  eapply decompress_bound; [exact Ed|lia].
Qed.

(** ** No panics *)

Lemma safe_header : safe FrameHeader.decode.
Proof. unfold FrameHeader.decode, HEADER_LEN. safe_reader. Qed.

Lemma returns_lift {A} (r : result TransportError A) : returns (lift r).
Proof. by destruct r. Qed.

Lemma safe_pure {A} (r : outcome TransportError A) : returns r -> safe (mpure r).
Proof. by intros Hr buf _. Qed.

Lemma safe_read_exact n : safe (read_exact_or_eof n).
Proof. intros buf _. unfold read_exact_or_eof. by destruct (Nat.ltb _ _). Qed.

Lemma safe_read_payload h o : safe (read_payload h o).
Proof.
  apply safe_bind; [apply safe_pure, returns_lift|]. intros _. apply safe_bind.
  - destruct (_ =? 0); [done|apply safe_read_exact].
  - intros payload. cbv zeta. by destruct (negb _).
Qed.

Lemma safe_read_frame o : safe (read_frame_from_with_options o).
Proof.
  apply safe_bind; [apply safe_read_exact|]. intros hb. apply safe_bind.
  - apply safe_pure, safe_header. lia.
  - intros h. apply safe_bind; [apply safe_read_payload|]. intros payload. apply safe_pure, returns_lift.
Qed.

Lemma decode_frame_returns frame o : returns (decode_frame_borrowing frame o).
Proof.
  unfold decode_frame_borrowing. destruct (_ <? _); [done|].
  pose proof (safe_header frame ltac:(lia)) as Hs.
  destruct (FrameHeader.decode frame) as [buf r]. cbn in Hs. apply returns_bind; [done|]. intros h _.
  apply returns_bind; [apply returns_lift|]. intros _ _. cbv zeta.
  repeat (case_match; [done|]). apply returns_lift.
Qed.

End frames.

(** ** Bodies *)

Definition metadata_ok (m : RequestMetadata) : Prop :=
  option_ok is_u64 (rm_deadline_ms m) /\ option_ok uuid_ok (rm_trace_id m) /\
  option_ok is_u64 (rm_sequence m).

Definition request_ok (r : Request) : Prop := uuid_ok (rq_request_id r) /\ metadata_ok (rq_metadata r).

(** The bytes of an optional field. *)
Definition field_bytes {A} (bytes : A -> list byte) (field : option A) : list byte :=
  match field with Some value => bytes value | None => [] end.

Lemma emits_some {A} (put : A -> writer) bytes field :
  (forall a, emits (put a) (bytes a)) -> emits (put_some put field) (field_bytes bytes field).
Proof. intros Hp. destruct field; [apply Hp|apply emits_ret]. Qed.

Definition request_bytes (r : Request) : list byte :=
  to_be 1 (metadata_flags (rq_metadata r)) ++ rq_request_id r ++ to_be 1 (opcode_to_u8 (rq_opcode r)) ++
  field_bytes (to_be 8) (rm_deadline_ms (rq_metadata r)) ++
  field_bytes id (rm_trace_id (rq_metadata r)) ++
  field_bytes (to_be 8) (rm_sequence (rq_metadata r)) ++ rq_payload r.

Lemma written_request_body r : written (encode_request_body r) = Ok (request_bytes r).
Proof.
  apply emits_written. unfold encode_request_body, request_bytes.
  repeat (apply emits_seq; [first [done|apply emits_some; done]|]). done.
Qed.

(** Reading a body whose first bytes are [pre]. *)
Lemma slice_at {E} body pre field rest n m :
  body = pre ++ field ++ rest -> length pre = n -> length field = m -> slice (E := E) body n m = Ok field.
Proof.
  intros -> <- <-. unfold slice. rewrite !length_app.
  rewrite (proj2 (Nat.ltb_ge (length pre + (length field + length rest)) (length pre + length field))) by lia.
  by rewrite drop_app_length, take_app_length.
Qed.

Lemma index_at {E} body pre z rest n :
  body = pre ++ to_be 1 z ++ rest -> length pre = n -> 0 <= z < 256 ->
  bval <$> index (E := E) body n = Ok z.
Proof.
  intros -> <- Hz. unfold index. change (to_be 1 z ++ rest) with (byte_of_Z z :: rest).
  rewrite list_lookup_middle by done. cbn. by rewrite bval_small.
Qed.

Lemma read_field_at {A} (bytes : A -> list byte) body pre field rest n m :
  body = pre ++ field_bytes bytes field ++ rest -> length pre = n ->
  (forall a, field = Some a -> length (bytes a) = m) ->
  read_field body (is_some field) n m =
    Ok (bytes <$> field, length (pre ++ field_bytes bytes field)).
Proof.
  intros Hb Hn Hm. unfold read_field. rewrite length_app, Hn. destruct field as [a|]; cbn [is_some field_bytes] in *.
  - specialize (Hm a eq_refl). rewrite (proj2 (Z.ltb_ge (saturating_sub _ _) (Z.of_nat m))).
    2:{ unfold saturating_sub. rewrite Hb, !length_app. lia. }
    rewrite (slice_at body pre (bytes a) rest) by done. cbn. by rewrite Hm.
  - cbn. by rewrite Nat.add_0_r.
Qed.

Lemma flags_present m :
  let f := metadata_flags m in
  0 <= f < 256 /\ Z.land f (0xFF - META_FLAGS) = 0 /\
  negb (Z.land f REQUEST_META_DEADLINE_MS =? 0) = is_some (rm_deadline_ms m) /\
  negb (Z.land f REQUEST_META_TRACE_ID =? 0) = is_some (rm_trace_id m) /\
  negb (Z.land f REQUEST_META_SEQUENCE =? 0) = is_some (rm_sequence m).
Proof. by destruct m as [[] [] []]; vm_compute. Qed.

Lemma from_to_be_field d : option_ok is_u64 d -> from_be <$> (to_be 8 <$> d) = d.
Proof. destruct d as [z|]; [|done]. intros Hz. apply (f_equal Some), (from_to_be 8). unfold_widths. cbn in *. lia. Qed.

(** Splits of a concatenation, up to associativity. *)
Ltac same_bytes := repeat (progress (rewrite <- ?app_assoc)); reflexivity.

Lemma request_prefix r :
  request_ok r ->
  exists pre, request_bytes r = pre ++ rq_payload r /\
    decode_request_prefix (request_bytes r) =
      Ok (rq_request_id r, rq_opcode r, rq_metadata r, length pre).
Proof.
  intros [Hid (Hd & Ht & Hs)]. destruct r as [rid op payload [d t s]].
  cbn [rq_request_id rq_metadata rm_deadline_ms rm_trace_id rm_sequence rq_opcode rq_payload] in *.
  destruct (flags_present (mkRequestMetadata d t s)) as (Hf & Hu & Fd & Ft & Fs).
  set (body := request_bytes _). unfold request_bytes in body.
  cbn [rq_request_id rq_metadata rm_deadline_ms rm_trace_id rm_sequence rq_opcode rq_payload] in body, Fd, Ft, Fs.
  set (f := metadata_flags _) in *.
  set (p1 := to_be 1 f ++ rid) in *. set (p18 := p1 ++ to_be 1 (opcode_to_u8 op)).
  set (pd := p18 ++ field_bytes (to_be 8) d). set (pt := pd ++ field_bytes id t).
  set (ps := pt ++ field_bytes (to_be 8) s).
  assert (length p1 = 17)%nat as H17 by (unfold p1; rewrite length_app, to_be_length, Hid; done).
  assert (length p18 = 18)%nat as H18 by (unfold p18; rewrite length_app, to_be_length, H17; done).
  assert (body = ps ++ payload) as Hbody by (unfold ps, pt, pd, p18, p1, body; same_bytes).
  exists ps. split; [done|]. unfold decode_request_prefix.
  rewrite (proj2 (Z.ltb_ge (Z.of_nat (length body)) 18)).
  2:{ rewrite Hbody. unfold ps, pt, pd. rewrite !length_app. lia. }
  rewrite (index_at body [] f _ 0 eq_refl) by done. cbn [mbind result_bind]. rewrite Hu. cbn [Z.eqb negb].
  rewrite (slice_at body (to_be 1 f) rid _ 1 UUID_LEN eq_refl) by (done || apply to_be_length).
  cbn [mbind result_bind].
  erewrite (index_at body p1 (opcode_to_u8 op));
    [|unfold body, p1; rewrite <- app_assoc; reflexivity|done|apply opcode_range].
  cbn [mbind result_bind]. rewrite opcode_round_trip. cbn [lift map_err mbind result_bind]. rewrite Fd, Ft, Fs.
  erewrite (read_field_at (to_be 8) body p18 d);
    [|unfold body, p18, p1; rewrite <- !app_assoc; reflexivity|done|intros; apply to_be_length].
  cbn [mbind result_bind]. fold pd.
  erewrite (read_field_at id body pd t);
    [|unfold body, pd, p18, p1; rewrite <- !app_assoc; reflexivity|done|by intros a ->].
  cbn [mbind result_bind]. fold pt.
  erewrite (read_field_at (to_be 8) body pt s);
    [|unfold body, pt, pd, p18, p1; rewrite <- !app_assoc; reflexivity|done|intros; apply to_be_length].
  cbn [mbind result_bind]. rewrite !from_to_be_field, option_fmap_id by done. done.
Qed.

Lemma request_body_round_trip r :
  request_ok r -> exists body, written (encode_request_body r) = Ok body /\ decode_request_body body = Ok r.
Proof.
  intros Hr. exists (request_bytes r). split; [apply written_request_body|].
  destruct (request_prefix r Hr) as (pre & Hb & Hp). unfold decode_request_body. rewrite Hp.
  cbn [mbind result_bind].
  rewrite Hb, length_app, (proj2 (Nat.ltb_ge (length pre + length (rq_payload r)) (length pre))) by lia.
  rewrite drop_app_length. by destruct r.
Qed.

(** The prefix never reaches past the body, so nothing panics. *)
Lemma read_field_offset body b offset n :
  (offset <= length body)%nat ->
  returns (read_field body b offset n) /\
  forall field offset', read_field body b offset n = Ok (field, offset') -> (offset' <= length body)%nat.
Proof.
  intros Ho. unfold read_field. destruct b; [|split; [done|by intros ? ? [= _ <-]]].
  destruct (Z.ltb_spec (saturating_sub (Z.of_nat (length body)) (Z.of_nat offset)) (Z.of_nat n)) as [|Hn];
    [done|]. unfold saturating_sub in Hn. unfold slice.
  rewrite (proj2 (Nat.ltb_ge (length body) (offset + n))) by lia. split; [done|]. intros ? ? [= _ <-]. lia.
Qed.

Lemma returns_index {E} (body : list byte) i : (i < length body)%nat -> returns (bval <$> index (E := E) body i).
Proof. intros Hi. unfold index. by destruct (lookup_lt_is_Some_2 body i Hi) as [x ->]. Qed.

Lemma returns_slice {E} body a n : (a + n <= length body)%nat -> returns (slice (E := E) body a n).
Proof. intros Hl. unfold slice. by rewrite (proj2 (Nat.ltb_ge (length body) (a + n))) by lia. Qed.

Lemma decode_request_body_returns body : returns (decode_request_body body).
Proof.
  unfold decode_request_body, decode_request_prefix.
  destruct (Z.ltb_spec (Z.of_nat (length body)) 18); [done|].
  destruct (bval <$> index body 0) as [flags|] eqn:Ef.
  2:{ pose proof (returns_index (E := TransportError) body 0 ltac:(lia)) as Hr. by rewrite Ef in Hr. }
  cbn [mbind result_bind]. destruct (negb _); [done|].
  unfold slice at 1. rewrite (proj2 (Nat.ltb_ge (length body) (1 + UUID_LEN))) by (unfold UUID_LEN; lia).
  cbn [mbind result_bind].
  destruct (bval <$> index body 17) as [code|] eqn:Ec.
  2:{ pose proof (returns_index (E := TransportError) body 17 ltac:(lia)) as Hr. by rewrite Ec in Hr. }
  cbn [mbind result_bind]. destruct (opcode_try_from code) as [op|]; [|done]. cbn [lift map_err mbind result_bind].
  destruct (read_field_offset body (negb (Z.land flags REQUEST_META_DEADLINE_MS =? 0)) 18 8) as [R1 O1]; [lia|].
  destruct (read_field body _ 18 8) as [[d o1]|[]]; [|done..]. specialize (O1 _ _ eq_refl). cbn [mbind result_bind].
  destruct (read_field_offset body (negb (Z.land flags REQUEST_META_TRACE_ID =? 0)) o1 UUID_LEN O1) as [R2 O2].
  destruct (read_field body _ o1 UUID_LEN) as [[t o2]|[]]; [|done..]. specialize (O2 _ _ eq_refl). cbn [mbind result_bind].
  destruct (read_field_offset body (negb (Z.land flags REQUEST_META_SEQUENCE =? 0)) o2 8 O2) as [R3 O3].
  destruct (read_field body _ o2 8) as [[s o3]|[]]; [|done..]. specialize (O3 _ _ eq_refl). cbn [mbind result_bind].
  by rewrite (proj2 (Nat.ltb_ge (length body) o3)) by lia.
Qed.

Definition response_bytes (r : Response) : list byte :=
  rs_request_id r ++ to_be 1 (status_to_u8 (rs_status r)) ++ rs_payload r.

Lemma response_body_round_trip r :
  uuid_ok (rs_request_id r) ->
  exists body, written (encode_response_body r) = Ok body /\ decode_response_body body = Ok r.
Proof.
  intros Hid. exists (response_bytes r). split.
  { apply emits_written. unfold encode_response_body. repeat (apply emits_seq; [done|]). done. }
  destruct r as [rid status payload]. unfold response_bytes. cbn [rs_request_id rs_status rs_payload] in *.
  set (body := rid ++ to_be 1 (status_to_u8 status) ++ payload). unfold uuid_ok, UUID_LEN in Hid.
  assert (17 <= length body)%nat as Hl by (unfold body; rewrite !length_app, to_be_length; lia).
  unfold decode_response_body. rewrite (proj2 (Z.ltb_ge (Z.of_nat (length body)) 17)) by lia.
  rewrite (slice_at body [] rid _ 0 UUID_LEN eq_refl) by done. cbn [mbind result_bind].
  rewrite (index_at body rid (status_to_u8 status) payload 16 eq_refl) by (done || by destruct status).
  cbn [mbind result_bind]. assert (status_try_from (status_to_u8 status) = Ok status) as -> by by destruct status.
  cbn [lift map_err mbind result_bind]. rewrite (proj2 (Nat.ltb_ge (length body) 17)) by lia.
  unfold body. rewrite app_assoc, drop_app_exact by (rewrite length_app, to_be_length; lia). done.
Qed.

Lemma decode_response_body_returns body : returns (decode_response_body body).
Proof.
  unfold decode_response_body. destruct (Z.ltb_spec (Z.of_nat (length body)) 17); [done|].
  apply returns_bind; [apply returns_slice; unfold UUID_LEN; lia|]. intros rid _.
  apply returns_bind; [apply returns_index; lia|]. intros code _.
  apply returns_bind; [apply returns_lift|]. intros status _.
  by rewrite (proj2 (Nat.ltb_ge (length body) 17)) by lia.
Qed.
