(* ===== verification/Negotiation.v ===== *)
(** * Negotiation: the startup handshake (crates/transport/src/negotiation.rs)

    Hello messages, their encodings, and the options both sides derive from
    them. *)

From S2P Require Import Prelude Text Command Crypto Wire Opcode Request PayloadFacts Response.
From S2P Require Import Frame FrameFacts.

Definition CLIENT_HELLO : Z := 0xF0.
Definition SERVER_HELLO : Z := 0xF1.

Definition CAP_ZSTD : Z := Z.shiftl 1 0.
Definition CAP_REQUEST_DEADLINE : Z := Z.shiftl 1 1.
Definition CAP_SERVER_METRICS : Z := Z.shiftl 1 2.
Definition CAP_PIPELINING : Z := Z.shiftl 1 3.
Definition CAP_TRACE_CONTEXT : Z := Z.shiftl 1 4.

Definition DEFAULT_CAPABILITIES : Z :=
  Z.lor (Z.lor (Z.lor (Z.lor CAP_ZSTD CAP_REQUEST_DEADLINE) CAP_SERVER_METRICS) CAP_PIPELINING)
        CAP_TRACE_CONTEXT.

Record ClientHello := mkClientHello {
  ch_protocol_version : Z;
  ch_client_name : string;
  ch_client_version : string;
  ch_supported_capabilities : Z;
  ch_desired_compression : CompressionMode;
  ch_max_frame_len : Z;
  ch_auth_intent : bool;
}.

(** [ClientHello::new]. *)
Definition new_client_hello (client_name client_version : string) : ClientHello :=
  mkClientHello VERSION client_name client_version DEFAULT_CAPABILITIES CompressionZstd MAX_FRAME_LEN true.

Record ServerHello := mkServerHello {
  sh_protocol_version : Z;
  sh_accepted_capabilities : Z;
  sh_compression : CompressionMode;
  sh_max_frame_len : Z;
  sh_server_id : Uuid;
  sh_status : Status;
  sh_error_code : option string;
  sh_error_name : option string;
  sh_error_message : option string;
}.

Module ServerHello.

Definition ok (accepted_capabilities : Z) (compression : CompressionMode) (max_frame_len : Z)
    (server_id : Uuid) : ServerHello :=
  mkServerHello VERSION accepted_capabilities compression max_frame_len server_id StatusOk None None None.

Definition error (code name message : string) : ServerHello :=
  mkServerHello VERSION 0 CompressionNone MAX_FRAME_LEN (replicate UUID_LEN x00) StatusError
    (Some code) (Some name) (Some message).

End ServerHello.

(** ** Options *)

(** [server_id] is the fresh id of [Uuid::now_v7]. *)
Definition negotiate_server_options (hello : ClientHello) (server_options : CodecOptions)
    (server_id : Uuid) : result TransportError (ServerHello * CodecOptions) :=
  if negb (ch_protocol_version hello =? VERSION) then
    Err (TrnNegotiationFailed "unsupported protocol version")
  else
    let capabilities := Z.land (ch_supported_capabilities hello) DEFAULT_CAPABILITIES in
    let '(compression, capabilities) :=
      if bool_decide (co_compression server_options = CompressionZstd) &&
         bool_decide (ch_desired_compression hello = CompressionZstd) &&
         negb (Z.land capabilities CAP_ZSTD =? 0)
      then (CompressionZstd, capabilities)
      else (CompressionNone, Z.land capabilities (u64_max - CAP_ZSTD)) in
    let max_frame_len :=
      Z.min (Z.min (ch_max_frame_len hello) (co_max_frame_len server_options)) MAX_FRAME_LEN in
    let options := mkCodecOptions compression (co_compression_threshold_bytes server_options)
                     max_frame_len max_frame_len in
    Ok (ServerHello.ok capabilities compression (max_frame_len mod 2 ^ 32) server_id, options).

Definition client_options_from_server_hello (hello : ServerHello) : result TransportError CodecOptions :=
  if negb (bool_decide (sh_status hello = StatusOk)) then
    Err (TrnNegotiationFailed "server rejected startup")
  else if negb (sh_protocol_version hello =? VERSION) then
    Err (TrnNegotiationFailed "unsupported server protocol version")
  else Ok (mkCodecOptions (sh_compression hello) 0 (sh_max_frame_len hello) (sh_max_frame_len hello)).

Definition startup_options : CodecOptions :=
  mkCodecOptions CompressionNone 0 (co_max_frame_len CodecOptions_default)
    (co_max_decompressed_frame_len CodecOptions_default).

(** ** Encodings *)

Definition compression_to_u8 (compression : CompressionMode) : Z :=
  match compression with CompressionNone => 0 | CompressionZstd => 1 end.

Definition compression_from_u8 (value : Z) : result TransportError CompressionMode :=
  if value =? 0 then Ok CompressionNone
  else if value =? 1 then Ok CompressionZstd
  else Err (TrnCapabilityMismatch "unknown compression mode").

(** [put_string] and [read_string] of this file. *)
Definition put_string (value : string) : writer :=
  len ← mpure (checked_len u16_max (as_bytes value));
  _ ← put_u16 len;
  extend_from_slice (as_bytes value).

Definition put_optional_string (value : option string) : writer :=
  match value with
  | Some value => _ ← put_u8 1; put_string value
  | None => put_u8 0
  end.

Definition hello_string : reader string :=
  _ ← need 2;
  len ← get_u16;
  _ ← need len;
  bytes ← copy_to_bytes (Z.to_nat len);
  mpure (ok_or (from_utf8 bytes) (Raised TrnInvalidUtf8)).

Definition read_optional_string : reader (option string) :=
  _ ← need 1;
  flag ← get_u8;
  if flag =? 0 then mret None
  else if flag =? 1 then value ← hello_string; mret (Some value)
  else raise TrnCorruptedPayload.

Definition encode_client_hello (hello : ClientHello) : writer :=
  _ ← put_u8 CLIENT_HELLO;
  _ ← put_u8 (ch_protocol_version hello);
  _ ← put_string (ch_client_name hello);
  _ ← put_string (ch_client_version hello);
  _ ← put_u64 (ch_supported_capabilities hello);
  _ ← put_u8 (compression_to_u8 (ch_desired_compression hello));
  _ ← put_u32 (ch_max_frame_len hello);
  put_u8 (u8_of_bool (ch_auth_intent hello)).

Definition decode_client_hello : reader ClientHello :=
  _ ← need 2;
  kind ← get_u8;
  if negb (kind =? CLIENT_HELLO) then raise (TrnProtocolStateViolation "expected client hello")
  else
    protocol_version ← get_u8;
    client_name ← hello_string;
    client_version ← hello_string;
    _ ← need 14;
    supported_capabilities ← get_u64;
    mode ← get_u8;
    desired_compression ← mpure (lift (compression_from_u8 mode));
    max_frame_len ← get_u32;
    intent ← get_u8;
    auth_intent ← (if intent =? 0 then mret false
                   else if intent =? 1 then mret true
                   else raise TrnCorruptedPayload);
    _ ← ensure_empty;
    mret (mkClientHello protocol_version client_name client_version supported_capabilities
            desired_compression max_frame_len auth_intent).

Definition encode_server_hello (hello : ServerHello) : writer :=
  _ ← put_u8 SERVER_HELLO;
  _ ← put_u8 (sh_protocol_version hello);
  _ ← put_u64 (sh_accepted_capabilities hello);
  _ ← put_u8 (compression_to_u8 (sh_compression hello));
  _ ← put_u32 (sh_max_frame_len hello);
  _ ← extend_from_slice (sh_server_id hello);
  _ ← put_u8 (status_to_u8 (sh_status hello));
  _ ← put_optional_string (sh_error_code hello);
  _ ← put_optional_string (sh_error_name hello);
  put_optional_string (sh_error_message hello).

Definition decode_server_hello : reader ServerHello :=
  _ ← need 31;
  kind ← get_u8;
  if negb (kind =? SERVER_HELLO) then raise (TrnProtocolStateViolation "expected server hello")
  else
    protocol_version ← get_u8;
    accepted_capabilities ← get_u64;
    mode ← get_u8;
    compression ← mpure (lift (compression_from_u8 mode));
    max_frame_len ← get_u32;
    server_id ← copy_to_bytes UUID_LEN;
    code ← get_u8;
    status ← mpure (lift (status_try_from code));
    error_code ← read_optional_string;
    error_name ← read_optional_string;
    error_message ← read_optional_string;
    _ ← ensure_empty;
    mret (mkServerHello protocol_version accepted_capabilities compression max_frame_len server_id
            status error_code error_name error_message).

(** ** On a stream *)

Section startup.
Context `{Zstd} `{Crc32}.

Definition write_startup_frame_to (body : list byte) (options : CodecOptions) : writer :=
  encoded ← mpure (encode_frame body options); extend_from_slice encoded.

Definition write_client_hello_to (hello : ClientHello) : writer :=
  body ← mpure (written (encode_client_hello hello)); write_startup_frame_to body startup_options.

Definition read_client_hello_from : reader ClientHello :=
  body ← read_frame_from_with_options CodecOptions_default;
  mpure (read_from decode_client_hello body).

Definition write_server_hello_to (hello : ServerHello) : writer :=
  body ← mpure (written (encode_server_hello hello)); write_startup_frame_to body startup_options.

Definition read_server_hello_from : reader ServerHello :=
  body ← read_frame_from_with_options CodecOptions_default;
  mpure (read_from decode_server_hello body).

End startup.

(** ** Round trips *)

Definition client_hello_ok (h : ClientHello) : Prop :=
  0 <= ch_protocol_version h < 256 /\ str_ok (ch_client_name h) /\ str_ok (ch_client_version h) /\
  is_u64 (ch_supported_capabilities h) /\ is_u32 (ch_max_frame_len h).

Definition server_hello_ok (h : ServerHello) : Prop :=
  0 <= sh_protocol_version h < 256 /\ is_u64 (sh_accepted_capabilities h) /\
  is_u32 (sh_max_frame_len h) /\ uuid_ok (sh_server_id h) /\
  option_ok str_ok (sh_error_code h) /\ option_ok str_ok (sh_error_name h) /\
  option_ok str_ok (sh_error_message h).

Lemma inverse_hello_string s : str_ok s -> inverse (put_string s) hello_string s.
Proof. exact (inverse_string_u16 s). Qed.

Lemma inverse_optional_string s :
  option_ok str_ok s -> inverse (put_optional_string s) read_optional_string s.
Proof.
  intros Hs. unfold read_optional_string. destruct s as [s|].
  - apply (inverse_need_uint 1 1); [lia|]. eapply inverse_map; [by apply inverse_hello_string|done].
  - by apply (inverse_need_last 1 0).
Qed.

(** A check for bytes the rest of the payload has. *)
Lemma inverse_end_field {A B} n w1 w2 (r : reader A) (k : A -> reader B) a b :
  grows n w2 -> inverse w1 r a -> inverse_end w2 (k a) b ->
  inverse_end (_ ← w1; w2) (x ← r; _ ← need (Z.of_nat n); k x) b.
Proof.
  intros Hg H1 H2. eapply inverse_seq_end; [exact H1|]. by apply inverse_end_need.
Qed.

Lemma inverse_slice n bs : length bs = n -> inverse (extend_from_slice bs) (copy_to_bytes n) bs.
Proof. intros Hn buf buf' [= <-]. exists bs. split; [done|]. intros rest. by apply copy_exact. Qed.

Lemma inverse_code {A} (code : Z) (decode : Z -> result TransportError A) a :
  0 <= code < 256 -> decode code = Ok a ->
  forall B w (k : A -> reader B) b, inverse_end w (k a) b ->
  inverse_end (_ ← put_u8 code; w) (z ← get_u8; x ← mpure (lift (decode z)); k x) b.
Proof.
  intros Hc Hd B w k b Hw. apply (inverse_seq_end (put_u8 code) w get_u8 _ code); [by apply (inverse_uint 1)|].
  unfold mpure, mbind at 1, fallible_bind at 1. rewrite Hd. exact Hw.
Qed.

Lemma grows_weaken n m w : grows n w -> (m <= n)%nat -> grows m w.
Proof. intros Hg Hle buf buf' Hw%Hg. lia. Qed.

(** A computation that starts by writing [n] bytes. *)
Lemma grows_first n z w : grows 0 w -> grows n (_ ← put_uint n z; w).
Proof.
  intros Hw. apply (grows_weaken (n + 0)); [|lia]. apply grows_seq; [apply grows_uint|done].
Qed.

Lemma grows_put_string s : grows 0 (put_string s).
Proof. exact (grows_string_u16 s). Qed.

Lemma grows_optional s : grows 0 (put_optional_string s).
Proof.
  destruct s; [apply (grows_weaken 1 0); [|lia]; apply grows_first, grows_put_string|].
  apply (grows_weaken 1 0); [apply grows_uint|lia].
Qed.

Lemma client_hello_inverse h :
  client_hello_ok h -> inverse_end (encode_client_hello h) decode_client_hello h.
Proof.
  intros (Hv & Hn & Hcv & Hc & Hm). unfold encode_client_hello, decode_client_hello.
  assert (grows 14 (_ ← put_u64 (ch_supported_capabilities h);
    _ ← put_u8 (compression_to_u8 (ch_desired_compression h));
    _ ← put_u32 (ch_max_frame_len h); put_u8 (u8_of_bool (ch_auth_intent h)))) as Hg.
  { apply (grows_seq 8 6); [apply grows_uint|]. apply (grows_seq 1 5); [apply grows_uint|].
    apply (grows_seq 4 1); apply grows_uint. }
  apply (inverse_end_need 2).
  { apply (grows_seq 1 1); [apply grows_uint|]. apply grows_first.
    apply (grows_seq 0 0); [apply grows_put_string|]. apply (grows_seq 0 0); [apply grows_put_string|].
    by eapply grows_weaken; [exact Hg|lia]. }
  eapply inverse_seq_end; [by apply (inverse_uint 1)|]. cbn [Z.eqb Pos.eqb negb CLIENT_HELLO].
  eapply inverse_seq_end; [by apply (inverse_uint 1)|]. eapply inverse_seq_end; [by apply inverse_hello_string|].
  eapply (inverse_end_field 14); [exact Hg|by apply inverse_hello_string|].
  eapply inverse_seq_end; [apply (inverse_uint 8); unfold_widths; cbn; lia|].
  eapply (inverse_code _ compression_from_u8 (ch_desired_compression h)); [by destruct (ch_desired_compression h)|by destruct (ch_desired_compression h)|].
  eapply inverse_seq_end; [apply (inverse_uint 4); unfold_widths; cbn; lia|].
  apply (inverse_last _ get_u8 _ (u8_of_bool (ch_auth_intent h))).
  - apply (inverse_uint 1). by destruct (ch_auth_intent h).
  - destruct h as [v n cv c d m i]. by destruct i.
Qed.

Lemma server_hello_inverse h :
  server_hello_ok h -> inverse_end (encode_server_hello h) decode_server_hello h.
Proof.
  intros (Hv & Hc & Hm & Hid & Hec & Hen & Hem). unfold encode_server_hello, decode_server_hello.
  apply (inverse_end_need 31).
  { apply (grows_weaken 32); [|lia]. do 2 (apply (grows_seq 1 31) || apply (grows_seq 1 30); [apply grows_uint|]).
    apply (grows_seq 8 22); [apply grows_uint|]. apply (grows_seq 1 21); [apply grows_uint|].
    apply (grows_seq 4 17); [apply grows_uint|]. apply (grows_seq 16 1).
    - intros buf buf' [= <-]. rewrite length_app, Hid. done.
    - apply grows_first. repeat (apply (grows_seq 0 0); [apply grows_optional|]). apply grows_optional. }
  eapply inverse_seq_end; [by apply (inverse_uint 1)|]. cbn [Z.eqb Pos.eqb negb SERVER_HELLO].
  eapply inverse_seq_end; [by apply (inverse_uint 1)|].
  eapply inverse_seq_end; [apply (inverse_uint 8); unfold_widths; cbn; lia|].
  eapply (inverse_code _ compression_from_u8 (sh_compression h)); [by destruct (sh_compression h)|by destruct (sh_compression h)|].
  eapply inverse_seq_end; [apply (inverse_uint 4); unfold_widths; cbn; lia|].
  eapply inverse_seq_end; [by apply inverse_slice|].
  eapply (inverse_code _ status_try_from (sh_status h)); [by destruct (sh_status h)|by destruct (sh_status h)|].
  do 2 (eapply inverse_seq_end; [by apply inverse_optional_string|]).
  eapply inverse_last; [by apply inverse_optional_string|]. by destruct h.
Qed.

(** ** Panics *)

Lemma safe_pure_bind {A B} n (r : outcome TransportError A) (k : A -> reader B) :
  returns r -> (forall a, safe_from n (k a)) -> safe_from n (mpure r ≫= k).
Proof.
  intros Hr Hk buf Hb. unfold mbind, fallible_bind, mpure. destruct r as [a|[]]; [by apply Hk|done..].
Qed.

Lemma safe_hello_string : safe hello_string.
Proof.
  unfold hello_string. apply safe_need, safe_get; [lia|]. intros z Hz. apply safe_need, safe_copy; [lia|].
  intros bs _ buf _. cbn. by destruct (from_utf8 bs).
Qed.

#[local] Hint Resolve safe_hello_string : wire.

Lemma safe_optional_string : safe read_optional_string.
Proof. unfold read_optional_string. safe_reader. Qed.

#[local] Hint Resolve safe_optional_string : wire.

Lemma safe_client_hello : safe decode_client_hello.
Proof.
  unfold decode_client_hello. safe_reader. apply safe_pure_bind; [apply returns_lift|]. intros mode.
  safe_reader.
Qed.

(** [decode_server_hello] behind its length check. *)
Definition server_hello_fields : reader ServerHello :=
  kind ← get_u8;
  if negb (kind =? SERVER_HELLO) then raise (TrnProtocolStateViolation "expected server hello")
  else
    protocol_version ← get_u8;
    accepted_capabilities ← get_u64;
    mode ← get_u8;
    compression ← mpure (lift (compression_from_u8 mode));
    max_frame_len ← get_u32;
    server_id ← copy_to_bytes UUID_LEN;
    code ← get_u8;
    status ← mpure (lift (status_try_from code));
    error_code ← read_optional_string;
    error_name ← read_optional_string;
    error_message ← read_optional_string;
    _ ← ensure_empty;
    mret (mkServerHello protocol_version accepted_capabilities compression max_frame_len server_id
            status error_code error_name error_message).

Lemma server_hello_fields_safe : safe_from 32 server_hello_fields.
Proof.
  unfold server_hello_fields. safe_reader. apply safe_pure_bind; [apply returns_lift|]. intros mode.
  apply (safe_get 4); [lia|]. intros zmax _. apply safe_copy; [unfold UUID_LEN; lia|]. intros bs _.
  apply (safe_get 1); [unfold UUID_LEN; lia|]. intros code _.
  eapply (safe_weaken 0); [|unfold UUID_LEN; lia]. apply safe_pure_bind; [apply returns_lift|]. intros status.
  safe_reader.
Qed.

(** On the 31 bytes up to the server id nothing is left for the status. *)
Lemma server_hello_fields_31 kind version caps mode max id :
  length kind = 1%nat -> length version = 1%nat -> length caps = 8%nat -> length mode = 1%nat ->
  length max = 4%nat -> length id = UUID_LEN ->
  (server_hello_fields (kind ++ version ++ caps ++ mode ++ max ++ id)).2 = panic <->
  from_be kind = SERVER_HELLO /\ (from_be mode = 0 \/ from_be mode = 1).
Proof.
  intros Hk Hv Hc Hm Hx Hi. unfold server_hello_fields. rewrite (get_exact 1 kind) by done.
  destruct (Z.eqb_spec (from_be kind) SERVER_HELLO) as [Hkind|Hkind]; cbn [negb]; [|split; [done|tauto]].
  rewrite (get_exact 1 version), (get_exact 8 caps), (get_exact 1 mode) by done.
  unfold compression_from_u8.
  assert (forall compression : CompressionMode, forall k, ((max_frame_len ← get_u32;
    server_id ← copy_to_bytes UUID_LEN; code ← get_u8; k max_frame_len server_id code) : reader ServerHello)
      (max ++ id) = ([], panic)) as Hp.
  { intros _ k. rewrite (get_exact 4 max) by done. unfold mbind, fallible_bind.
    rewrite <- (app_nil_r id), copy_exact by done. done. }
  unfold mbind at 1, fallible_bind at 1, mpure at 1.
  destruct (Z.eqb_spec (from_be mode) 0); [cbn [lift map_err]; rewrite Hp by exact CompressionNone; tauto|].
  destruct (Z.eqb_spec (from_be mode) 1); [cbn [lift map_err]; rewrite Hp by exact CompressionNone; tauto|].
  split; [done|tauto].
Qed.

Lemma server_hello_panics body :
  read_from decode_server_hello body = panic <->
  exists kind version caps mode max id,
    body = kind ++ version ++ caps ++ mode ++ max ++ id /\
    length version = 1%nat /\ length caps = 8%nat /\ length max = 4%nat /\ uuid_ok id /\
    kind = to_be 1 SERVER_HELLO /\ (mode = to_be 1 0 \/ mode = to_be 1 1).
Proof.
  unfold read_from, decode_server_hello. fold server_hello_fields.
  assert (forall bs, length bs = 1%nat -> bs = to_be 1 (from_be bs)) as H1
    by (intros bs Hl; rewrite <- Hl at 1; by rewrite to_from_be).
  split.
  - intros Hp. destruct (Z.ltb_spec (Z.of_nat (length body)) 31) as [Hs|Hs].
    { exfalso. unfold mbind, fallible_bind, need in Hp.
      by rewrite (proj2 (Z.ltb_lt (Z.of_nat (length body)) 31) Hs) in Hp. }
    pose proof (need_app 31 body [] server_hello_fields ltac:(lia)) as Hneed. rewrite app_nil_r in Hneed.
    rewrite Hneed in Hp. destruct (decide (length body = 31)%nat) as [Hl|Hl].
    2:{ exfalso. revert Hp. apply returns_not_panic, server_hello_fields_safe. lia. }
    destruct (split_at 1 body) as (kind & b1 & -> & Hk & L1); [lia|].
    destruct (split_at 1 b1) as (version & b2 & -> & Hv & L2); [lia|].
    destruct (split_at 8 b2) as (caps & b3 & -> & Hc & L3); [lia|].
    destruct (split_at 1 b3) as (mode & b4 & -> & Hm & L4); [lia|].
    destruct (split_at 4 b4) as (max & id & -> & Hx & L5); [lia|].
    apply server_hello_fields_31 in Hp as [Hkind Hmode]; try done; [|unfold UUID_LEN; lia].
    exists kind, version, caps, mode, max, id. split_and!; try done; [unfold uuid_ok, UUID_LEN; lia| |].
    + by rewrite <- Hkind, <- H1.
    + destruct Hmode as [<- | <-]; [left|right]; by apply H1.
  - intros (kind & version & caps & mode & max & id & -> & Hv & Hc & Hx & Hi & -> & Hm).
    set (body := _ ++ _). assert (length body = 31%nat) as Hl.
    { unfold body. rewrite !length_app, Hv, Hc, Hx, Hi, !to_be_length. by destruct Hm as [-> | ->]. }
    pose proof (need_app 31 body [] server_hello_fields ltac:(lia)) as Hneed. rewrite app_nil_r in Hneed.
    rewrite Hneed. apply server_hello_fields_31; try done; [by destruct Hm as [-> | ->]|].
    split; [done|]. destruct Hm as [-> | ->]; auto.
Qed.
