(* ===== verification/ServerError.v ===== *)
(** * ServerError: errors of the server (crates/server/src/error.rs)

    An [std::io::Error] is carried by its message. *)

From S2P Require Import Prelude Text EngineError Wire.

Inductive ServerError :=
| SrvBind (message : string)
| SrvAccept (message : string)
| SrvConnectionPoolClosed
| SrvIo (message : string)
| SrvEngineWorkerClosed
| SrvEngine (err : EngineError)
| SrvTransport (err : TransportError)
| SrvEngineLockPoisoned
| SrvAuthenticationRequired
| SrvAuthenticationFailed
| SrvAuthenticationConfiguration
| SrvTlsConfiguration
| SrvTlsHandshake (message : string)
| SrvRateLimitExceeded
| SrvQuotaExceeded
| SrvTransactionAlreadyActive
| SrvNoActiveTransaction
| SrvUnsupportedRemoteCommand
| SrvPermissionDenied
| SrvInvalidPermission (permission : string)
| SrvUserAlreadyExists (username : string)
| SrvUserNotFound (username : string)
| SrvRoleAlreadyExists (role : string)
| SrvRoleNotFound (role : string)
| SrvProtectedRole (role : string)
| SrvLastAdminUser
| SrvAuthStoreEncode (message : string)
| SrvAuthStoreDecode (message : string)
| SrvBackupPathRejected (path : string)
| SrvAuditChainVerification (message : string)
| SrvBackupVerification (message : string)
| SrvInvalidArguments (message : string)
| SrvAuthenticationLocked (username : string) (remaining_seconds : Z)
| SrvPasswordPolicyViolation
| SrvMaintenanceModeEnabled
| SrvTransactionExpired (seconds : Z)
| SrvReplicationAckTimeout (sequence : Z) (mode : string)
| SrvReplicationAckUnavailable
| SrvReplicationReadOnly
| SrvReplicationPromotionDenied (message : string)
| SrvHealthcheckFailed (message : string).

#[export] Instance ServerError_eq_dec : EqDecision ServerError.
Proof. solve_decision. Defined.

Definition ServerError_code (e : ServerError) : string :=
  match e with
  | SrvBind _ => "SRV-001"
  | SrvAccept _ => "SRV-002"
  | SrvConnectionPoolClosed => "SRV-003"
  | SrvIo _ => "SRV-004"
  | SrvEngineWorkerClosed => "SRV-005"
  | SrvEngine err => EngineError_code err
  | SrvTransport err => TransportError_code err
  | SrvEngineLockPoisoned => "SRV-006"
  | SrvAuthenticationRequired => "SRV-007"
  | SrvAuthenticationFailed => "SRV-008"
  | SrvAuthenticationConfiguration => "SRV-009"
  | SrvTlsConfiguration => "SRV-010"
  | SrvTlsHandshake _ => "SRV-011"
  | SrvRateLimitExceeded => "SRV-012"
  | SrvQuotaExceeded => "SRV-013"
  | SrvTransactionAlreadyActive => "SRV-014"
  | SrvNoActiveTransaction => "SRV-015"
  | SrvUnsupportedRemoteCommand => "SRV-016"
  | SrvPermissionDenied => "SRV-017"
  | SrvInvalidPermission _ => "SRV-018"
  | SrvUserAlreadyExists _ => "SRV-019"
  | SrvUserNotFound _ => "SRV-020"
  | SrvRoleAlreadyExists _ => "SRV-021"
  | SrvRoleNotFound _ => "SRV-022"
  | SrvProtectedRole _ => "SRV-023"
  | SrvLastAdminUser => "SRV-024"
  | SrvAuthStoreEncode _ => "SRV-025"
  | SrvAuthStoreDecode _ => "SRV-026"
  | SrvBackupPathRejected _ => "SRV-027"
  | SrvAuditChainVerification _ => "SRV-028"
  | SrvBackupVerification _ => "SRV-029"
  | SrvInvalidArguments _ => "SRV-030"
  | SrvAuthenticationLocked _ _ => "SRV-031"
  | SrvPasswordPolicyViolation => "SRV-032"
  | SrvMaintenanceModeEnabled => "SRV-033"
  | SrvTransactionExpired _ => "SRV-034"
  | SrvReplicationAckTimeout _ _ => "SRV-035"
  | SrvReplicationAckUnavailable => "SRV-036"
  | SrvReplicationReadOnly => "SRV-037"
  | SrvReplicationPromotionDenied _ => "SRV-038"
  | SrvHealthcheckFailed _ => "SRV-039"
  end.

Definition ServerError_name (e : ServerError) : string :=
  match e with
  | SrvBind _ => "Listener Bind Failure"
  | SrvAccept _ => "Connection Accept Failure"
  | SrvConnectionPoolClosed => "Connection Slot Pool Closed"
  | SrvIo _ => "Filesystem I/O Failure"
  | SrvEngineWorkerClosed => "Engine Worker Closed"
  | SrvEngine err => EngineError_name err
  | SrvTransport err => TransportError_name err
  | SrvEngineLockPoisoned => "Engine Lock Poisoned"
  | SrvAuthenticationRequired => "Authentication Required"
  | SrvAuthenticationFailed => "Authentication Failed"
  | SrvAuthenticationConfiguration => "Authentication Configuration Invalid"
  | SrvTlsConfiguration => "TLS Configuration Invalid"
  | SrvTlsHandshake _ => "TLS Handshake Failure"
  | SrvRateLimitExceeded => "Rate Limit Exceeded"
  | SrvQuotaExceeded => "Quota Exceeded"
  | SrvTransactionAlreadyActive => "Transaction Already Active"
  | SrvNoActiveTransaction => "No Active Transaction"
  | SrvUnsupportedRemoteCommand => "Unsupported Remote Command"
  | SrvPermissionDenied => "Permission Denied"
  | SrvInvalidPermission _ => "Invalid Permission"
  | SrvUserAlreadyExists _ => "User Already Exists"
  | SrvUserNotFound _ => "User Not Found"
  | SrvRoleAlreadyExists _ => "Role Already Exists"
  | SrvRoleNotFound _ => "Role Not Found"
  | SrvProtectedRole _ => "Protected Role"
  | SrvLastAdminUser => "Last Admin User"
  | SrvAuthStoreEncode _ => "Auth Store Serialization Failure"
  | SrvAuthStoreDecode _ => "Auth Store Deserialization Failure"
  | SrvBackupPathRejected _ => "Backup Path Rejected"
  | SrvAuditChainVerification _ => "Audit Chain Verification Failure"
  | SrvBackupVerification _ => "Backup Verification Failure"
  | SrvInvalidArguments _ => "Invalid Arguments"
  | SrvAuthenticationLocked _ _ => "Authentication Locked"
  | SrvPasswordPolicyViolation => "Password Policy Violation"
  | SrvMaintenanceModeEnabled => "Maintenance Mode Enabled"
  | SrvTransactionExpired _ => "Transaction Expired"
  | SrvReplicationAckTimeout _ _ => "Replication Acknowledgement Timeout"
  | SrvReplicationAckUnavailable => "Replication Acknowledgement Unavailable"
  | SrvReplicationReadOnly => "Follower Write Rejected"
  | SrvReplicationPromotionDenied _ => "Replication Promotion Denied"
  | SrvHealthcheckFailed _ => "Healthcheck Failed"
  end.

(** [Display]. *)
Definition ServerError_text (e : ServerError) : string :=
  match e with
  | SrvBind message => "failed to bind TCP listener: " +:+ message
  | SrvAccept message => "failed to accept client connection: " +:+ message
  | SrvConnectionPoolClosed => "connection slot pool is closed"
  | SrvIo message => "filesystem I/O failed: " +:+ message
  | SrvEngineWorkerClosed => "engine worker is unavailable"
  | SrvEngine err => "engine failure: " +:+ EngineError_text err
  | SrvTransport err => "transport failure: " +:+ TransportError_text err
  | SrvEngineLockPoisoned => "engine lock is poisoned"
  | SrvAuthenticationRequired => "client authentication is required"
  | SrvAuthenticationFailed => "client authentication failed"
  | SrvAuthenticationConfiguration => "server authentication configuration is invalid"
  | SrvTlsConfiguration => "TLS configuration is invalid"
  | SrvTlsHandshake message => "TLS handshake failed: " +:+ message
  | SrvRateLimitExceeded => "request rate limit exceeded"
  | SrvQuotaExceeded => "request exceeds configured quotas"
  | SrvTransactionAlreadyActive => "transaction already active for this session"
  | SrvNoActiveTransaction => "no active transaction for this session"
  | SrvUnsupportedRemoteCommand => "unsupported remote command"
  | SrvPermissionDenied => "permission denied"
  | SrvInvalidPermission permission => "unknown permission: " +:+ permission
  | SrvUserAlreadyExists username => "user already exists: " +:+ username
  | SrvUserNotFound username => "user not found: " +:+ username
  | SrvRoleAlreadyExists role => "role already exists: " +:+ role
  | SrvRoleNotFound role => "role not found: " +:+ role
  | SrvProtectedRole role => "role is protected: " +:+ role
  | SrvLastAdminUser => "cannot remove the last admin user"
  | SrvAuthStoreEncode message => "auth store serialization failed: " +:+ message
  | SrvAuthStoreDecode message => "auth store deserialization failed: " +:+ message
  | SrvBackupPathRejected path => "backup path is outside the configured backup directory: " +:+ path
  | SrvAuditChainVerification message => "audit log hash chain verification failed: " +:+ message
  | SrvBackupVerification message => "backup verification failed: " +:+ message
  | SrvInvalidArguments message => "invalid command-line arguments: " +:+ message
  | SrvAuthenticationLocked username _ => "authentication lockout active for " +:+ username
  | SrvPasswordPolicyViolation => "password does not satisfy the configured policy"
  | SrvMaintenanceModeEnabled => "maintenance mode is enabled"
  | SrvTransactionExpired seconds => "transaction expired after " +:+ int_to_string seconds +:+ " seconds"
  | SrvReplicationAckTimeout sequence mode =>
      "replication write acknowledgement timed out for sequence " +:+ int_to_string sequence +:+
        " in mode " +:+ mode
  | SrvReplicationAckUnavailable => "replication write acknowledgement is unavailable"
  | SrvReplicationReadOnly => "writes are rejected on follower nodes"
  | SrvReplicationPromotionDenied message => "replication promotion denied: " +:+ message
  | SrvHealthcheckFailed message => message
  end.

(** [?] on the results of the engine and the transport ([From] of the error). *)
Definition from_engine {A} (r : result EngineError A) : result ServerError A := map_err SrvEngine r.
Definition from_transport {A} (r : result TransportError A) : result ServerError A :=
  map_err SrvTransport r.
