(* ===== verification/ReadIndex.v ===== *)
(** * ReadIndex: the projection that serves reads (crates/server/src/server/read_index.rs)

    GET, MGET, EXISTS and TTL are answered from a map that is fed with committed
    log entries, without asking the engine.  The lock around it is taken once per
    method.  The clock is read at most once per command and is an argument. *)

From S2P Require Import Prelude Text Command EngineError Store State Wire Request Response.
From S2P Require Import ServerError.

Record ReadEntry := mkReadEntry {
  re_value : list byte;
  re_expires_at_ms : option Z;
}.

Record ReadIndexState := mkReadIndexState {
  ri_entries : gmap string ReadEntry;
  ri_committed_sequence : Z;
}.

Definition is_fast_path_read (command : Command) : bool :=
  match command with
  | CmdGet _ | CmdMGet _ | CmdExists _ | CmdTtl _ => true
  | _ => false
  end.

Definition entry_expired (entry : ReadEntry) (now_ms : Z) : bool :=
  match re_expires_at_ms entry with
  | Some expires_at_ms => expires_at_ms <=? now_ms
  | None => false
  end.

Definition live_entry (entries : gmap string ReadEntry) (key : string) (now_ms : Z)
    : option ReadEntry :=
  entry ← entries !! key;
  match re_expires_at_ms entry with
  | Some expires_at_ms => if expires_at_ms <=? now_ms then None else Some entry
  | None => Some entry
  end.

(** The clock is read when the first entry with a deadline is met and kept. *)
Definition live_entry_with_cached_time (entries : gmap string ReadEntry) (key : string)
    (now_ms : Z) : option ReadEntry :=
  entry ← entries !! key;
  match re_expires_at_ms entry with
  | Some expires_at_ms => if now_ms <? expires_at_ms then Some entry else None
  | None => Some entry
  end.

Definition index_operation (operation : WalOperation)
    : fallible (gmap string ReadEntry) EngineError unit :=
  match operation with
  | WalSet key value _ => mmodify <[key := mkReadEntry value None]>
  | WalDelete key => mmodify (delete key)
  | WalExpire key expires_at_ms =>
      mmodify (alter (fun entry => mkReadEntry (re_value entry) (Some expires_at_ms)) key)
  | WalPersist key => mmodify (alter (fun entry => mkReadEntry (re_value entry) None) key)
  | WalClear => mput ∅
  | WalCheckInteger key delta =>
      entries ← mget;
      parsed ← mpure (parse_stored_integer key (default ascii_zero (re_value <$> entries !! key)));
      next ← mpure (ok_or (checked_i64 (parsed + delta)) (NumericOverflow key));
      mmodify <[key := mkReadEntry (as_bytes (int_to_string next)) None]>
  end.

Module CommittedReadIndex.

Definition rebuild_from_engine_state (st : EngineState) : ReadIndexState :=
  let '(data, expirations) := EngineState.to_persisted_parts st in
  mkReadIndexState
    (map_imap (fun key value => Some (mkReadEntry value (expirations !! key))) data)
    (md_last_applied_sequence (es_metadata st)).

(** One entry of the loop: an entry the index has is skipped; when an operation
    fails the ones before it stay. *)
Definition apply_one (entry : WalEntry) : fallible ReadIndexState ServerError unit :=
  fun index =>
    if we_sequence entry <=? ri_committed_sequence index then (index, Ok tt)
    else
      match mfor index_operation (we_operations entry) (ri_entries index) with
      | (entries, Ok _) => (mkReadIndexState entries (we_sequence entry), Ok tt)
      | (entries, Err e) => (mkReadIndexState entries (ri_committed_sequence index), Err (SrvEngine e))
      end.

Definition apply_entries (entries : list WalEntry) : fallible ReadIndexState ServerError unit :=
  mfor apply_one entries.

Definition lag_to (index : ReadIndexState) (target_sequence : Z) : Z :=
  saturating_sub target_sequence (ri_committed_sequence index).

Definition read_command (index : ReadIndexState) (now_ms : Z) (request_id : Uuid)
    (command : Command) : result ServerError Response :=
  let entries := ri_entries index in
  match command with
  | CmdGet key =>
      match live_entry entries key now_ms with
      | Some entry => from_transport (Response.value_bytes request_id (re_value entry))
      | None => Ok (Response.not_found request_id)
      end
  | CmdMGet keys =>
      let values := (fun key => re_value <$> live_entry_with_cached_time entries key now_ms) <$> keys in
      from_transport (Response.byte_strings request_id values)
  | CmdExists key => Ok (Response.boolean request_id (is_some (live_entry entries key now_ms)))
  | CmdTtl key =>
      let ttl :=
        match entries !! key with
        | Some entry =>
            if entry_expired entry now_ms then TTL_KEY_MISSING
            else
              match re_expires_at_ms entry with
              | Some expires_at_ms =>
                  EngineState.remaining_seconds (saturating_sub expires_at_ms now_ms)
              | None => TTL_NO_EXPIRY
              end
        | None => TTL_KEY_MISSING
        end in
      Ok (Response.integer request_id ttl)
  | _ => Err SrvUnsupportedRemoteCommand
  end.

End CommittedReadIndex.
