(* ===== verification/Consensus.v ===== *)
(** * Consensus: the replication runtime of a node (crates/server/src/replication)

    [ReplicationRuntime] holds the role, term, vote, log position, commit position
    and members of a node, and the file its term and vote survive a restart in.
    Every method of the source takes the lock of the state once; it is a function
    of the runtime here.  What a method reads from outside is in [Env]: its clock
    readings in order, the random election timeout, and how each of its writes of
    the state file ends.  [Instant] and [Duration] count nanoseconds. *)

From coqutil Require Export Datatypes.RecordSetters.
From S2P Require Import Prelude Text EngineError Store State ServerError.

Export DoubleBraceUpdate.

#[global] Arguments constant {E} newValue _ /.

(** ** Data (replication/mod.rs) *)

Inductive ReplicationRole := RoleStandalone | RoleLeader | RoleFollower | RoleCandidate.
Inductive WriteAckMode := AckLocal | AckReplica | AckAll.
Inductive FollowerPhase :=
| PhaseBootstrap | PhaseSnapshotSync | PhaseCatchingUp | PhaseStreaming | PhaseStale | PhasePaused.

#[export] Instance ReplicationRole_eq_dec : EqDecision ReplicationRole.
Proof. solve_decision. Defined.
#[export] Instance WriteAckMode_eq_dec : EqDecision WriteAckMode.
Proof. solve_decision. Defined.
#[export] Instance FollowerPhase_eq_dec : EqDecision FollowerPhase.
Proof. solve_decision. Defined.

Definition ReplicationRole_as_str (r : ReplicationRole) : string :=
  match r with
  | RoleStandalone => "standalone"
  | RoleLeader => "leader"
  | RoleFollower => "follower"
  | RoleCandidate => "candidate"
  end.

Definition WriteAckMode_as_str (m : WriteAckMode) : string :=
  match m with AckLocal => "local" | AckReplica => "majority" | AckAll => "all" end.

Definition FollowerPhase_as_str (p : FollowerPhase) : string :=
  match p with
  | PhaseBootstrap => "bootstrap"
  | PhaseSnapshotSync => "snapshot_sync"
  | PhaseCatchingUp => "catching_up"
  | PhaseStreaming => "streaming"
  | PhaseStale => "stale"
  | PhasePaused => "paused"
  end.

Record ClusterMember := mkClusterMember {
  cm_node_id : string;
  cm_advertise_addr : string;
  cm_voter : bool;
}.

#[export] Instance ClusterMember_eq_dec : EqDecision ClusterMember.
Proof. solve_decision. Defined.

(** The paths of the state file are the field [rr_file] of the runtime; the user
    and password for the upstream are used by the network code only. *)
Record ReplicationConfig := mkReplicationConfig {
  rc_node_id : string;
  rc_group_id : string;
  rc_advertise_addr : option string;
  rc_role : ReplicationRole;
  rc_upstream : option string;
  rc_write_ack_mode : WriteAckMode;
  rc_ack_timeout : Z;
  rc_fetch_batch_size : nat;
  rc_stale_after : Z;
  rc_heartbeat_interval : Z;
  rc_election_timeout_min : Z;
  rc_election_timeout_max : Z;
  rc_initial_members : list ClusterMember;
}.

Record FollowerProgress := mkFollowerProgress {
  fp_match_index : Z;
  fp_next_sequence : Z;
  fp_last_ack_at : Z;
  fp_last_ack_term : Z;
}.

Record ReplicationState := mkReplicationState {
  rp_role : ReplicationRole;
  rp_paused : bool;
  rp_leader_node_id : option string;
  rp_leader_advertise_addr : option string;
  rp_local_last_applied_sequence : Z;
  rp_local_last_applied_term : option Z;
  rp_local_last_applied_checksum : option Z;
  rp_commit_sequence : Z;
  rp_leader_target_sequence : Z;
  rp_follower_phase : option FollowerPhase;
  rp_follower_lag_entries : option Z;
  rp_follower_lag_ms : option Z;
  rp_health : string;
  rp_reason : option string;
  rp_followers : gmap string FollowerProgress;
  rp_current_term : Z;
  rp_voted_for : option string;
  rp_bootstrap_preferred : bool;
  rp_bootstrap_release_at : option Z;
  rp_last_heartbeat_at : Z;
  rp_next_election_at : Z;
  rp_election_suppressed_until : option Z;
  rp_members : gmap string ClusterMember;
}.

Record PersistedReplicationState := mkPersistedReplicationState {
  pr_current_term : Z;
  pr_voted_for : option string;
  pr_members : list ClusterMember;
}.

Record VoteRequest := mkVoteRequest {
  vr_term : Z;
  vr_candidate_node_id : string;
  vr_candidate_addr : string;
  vr_last_log_index : Z;
  vr_last_log_term : option Z;
  vr_prevote : bool;
}.
Record VoteResponse := mkVoteResponse { vs_term : Z; vs_vote_granted : bool }.

Record HeartbeatRequest := mkHeartbeatRequest {
  hb_term : Z;
  hb_leader_node_id : string;
  hb_leader_addr : string;
  hb_commit_sequence : Z;
  hb_leader_frontier_sequence : Z;
  hb_members : list ClusterMember;
}.
Record HeartbeatResponse := mkHeartbeatResponse { hs_term : Z; hs_accepted : bool }.

Record ReplicationFollowerSnapshot := mkReplicationFollowerSnapshot {
  rf_node_id : string;
  rf_applied_sequence : Z;
  rf_lag_entries : Z;
  rf_lag_ms : Z;
  rf_stale : bool;
}.

Record ReplicationStatusSnapshot := mkReplicationStatusSnapshot {
  ss_node_id : string;
  ss_group_id : string;
  ss_role : string;
  ss_advertise_addr : option string;
  ss_leader_node_id : option string;
  ss_leader_advertise_addr : option string;
  ss_upstream : option string;
  ss_write_ack_mode : string;
  ss_paused : bool;
  ss_health : string;
  ss_reason : option string;
  ss_local_last_applied_sequence : Z;
  ss_commit_sequence : Z;
  ss_retention_floor_sequence : option Z;
  ss_follower_phase : option string;
  ss_follower_lag_entries : option Z;
  ss_follower_lag_ms : option Z;
  ss_known_followers : nat;
  ss_followers : list ReplicationFollowerSnapshot;
  ss_current_term : Z;
  ss_voted_for : option string;
  ss_quorum_size : nat;
  ss_members : list ClusterMember;
}.

(** The runtime: [rr_file] is the content of the state file. *)
Record ReplicationRuntime := mkReplicationRuntime {
  rr_config : ReplicationConfig;
  rr_state : ReplicationState;
  rr_file : option (list byte);
}.

(** How a write of the state file ends: it may fail before or after the rename. *)
Inductive PersistIo := IoDone | IoFailed (renamed : bool) (message : string).

Record Env := mkEnv {
  ev_clock : nat -> Z;
  ev_jitter : Z;
  ev_io : nat -> PersistIo;
}.

(** ** Quorums (quorum.rs) *)

Definition voters (members : gmap string ClusterMember) : list ClusterMember :=
  List.filter cm_voter (values_in_order members).

Definition voter_count (members : gmap string ClusterMember) : nat :=
  Nat.max (length (voters members)) 1.

Definition quorum_size (member_count : nat) : nat := member_count / 2 + 1.

Definition quorum_size_from_members (members : gmap string ClusterMember) : nat :=
  quorum_size (voter_count members).

Definition voter_match_sequences (config : ReplicationConfig) (st : ReplicationState) : list Z :=
  (fun member =>
     if bool_decide (cm_node_id member = rc_node_id config) then rp_local_last_applied_sequence st
     else default 0 (fp_match_index <$> rp_followers st !! cm_node_id member))
    <$> voters (rp_members st).

(** [matches[len.saturating_sub(quorum)]]; [nth_highest_in_range] shows that the
    index is in range. *)
Definition nth_highest_voter_match (config : ReplicationConfig) (st : ReplicationState)
    (quorum : nat) : Z :=
  match voter_match_sequences config st with
  | [] => 0
  | matches =>
      let matches := merge_sort Z.le matches in
      default 0 (matches !! (length matches - quorum)%nat)
  end.

Definition min_voter_match (config : ReplicationConfig) (st : ReplicationState) : Z :=
  match voter_match_sequences config st with
  | [] => 0
  | m :: ms => foldr Z.min m ms
  end.

Definition recompute_commit_sequence (config : ReplicationConfig) (st : ReplicationState)
    : ReplicationState :=
  let candidate :=
    match rc_write_ack_mode config with
    | AckLocal => rp_local_last_applied_sequence st
    | AckReplica => nth_highest_voter_match config st (quorum_size_from_members (rp_members st))
    | AckAll => min_voter_match config st
    end in
  st {{ rp_commit_sequence :=
          Z.max (rp_commit_sequence st) (Z.min candidate (rp_local_last_applied_sequence st)) }}.

(** ** Timing (timing.rs) *)

Definition DURATION_MAX : Z := u64_max * 10 ^ 9 + 999999999.
Definition duration_saturating_mul (d : Z) (n : Z) : Z := Z.min (d * n) DURATION_MAX.
Definition as_millis (d : Z) : Z := d / 10 ^ 6.
Definition from_millis (ms : Z) : Z := ms * 10 ^ 6.
(** [now.duration_since(earlier)]. *)
Definition duration_since (now earlier : Z) : Z := Z.max 0 (now - earlier).

Definition leader_lease_duration (config : ReplicationConfig) : Z :=
  Z.max (rc_stale_after config) (duration_saturating_mul (rc_election_timeout_max config) 4).

Definition recently_heard_from_known_leader (config : ReplicationConfig) (st : ReplicationState)
    (now : Z) : bool :=
  is_some (rp_leader_node_id st) &&
  (duration_since now (rp_last_heartbeat_at st) <? leader_lease_duration config).

(** [jitter] is the random number of milliseconds between the two bounds. *)
Definition random_election_timeout (config : ReplicationConfig) (jitter : Z) : Z :=
  if rc_election_timeout_max config <=? rc_election_timeout_min config
  then rc_election_timeout_min config
  else from_millis jitter.

(** ** The state file (persistence.rs) *)

(** [serde_json] on the persisted state: what was written is read back. *)
Class ReplicationJson := {
  persisted_to_json : PersistedReplicationState -> result string (list byte);
  persisted_from_json : list byte -> result string PersistedReplicationState;
  persisted_from_to p bs : persisted_to_json p = Ok bs -> persisted_from_json bs = Ok p;
}.

(** [file] is what [fs::read] gives: [Ok None] when there is no file. *)
Definition load_persisted_state `{ReplicationJson} (file : result string (option (list byte)))
    : result ServerError (option PersistedReplicationState) :=
  match file with
  | Ok (Some bytes) => Some <$> map_err SrvInvalidArguments (persisted_from_json bytes)
  | Ok None => Ok None
  | Err message => Err (SrvIo message)
  end.

Definition persist_state `{ReplicationJson} (io : PersistIo)
    : fallible ReplicationRuntime ServerError unit :=
  rt ← mget;
  let st := rr_state rt in
  bytes ← mpure (map_err SrvInvalidArguments (persisted_to_json
            (mkPersistedReplicationState (rp_current_term st) (rp_voted_for st)
               (values_in_order (rp_members st)))));
  match io with
  | IoDone => mput (rt {{ rr_file := Some bytes }})
  | IoFailed true message => _ ← mput (rt {{ rr_file := Some bytes }}); mfail (SrvIo message)
  | IoFailed false message => mfail (SrvIo message)
  end.

(** ** The runtime (replication/mod.rs) *)

Definition is_voting_member (st : ReplicationState) (node_id : string) : bool :=
  match rp_members st !! node_id with Some member => cm_voter member | None => false end.

(** [members.insert(member.node_id.clone(), member)] for each of a list. *)
Definition insert_members (members : list ClusterMember) (m : gmap string ClusterMember)
    : gmap string ClusterMember :=
  foldl (fun m member => <[cm_node_id member := member]> m) m members.

(** [members.entry(id).and_modify(|m| m.advertise_addr = addr).or_insert(..)]. *)
Definition upsert_address (id addr : string) (m : gmap string ClusterMember)
    : gmap string ClusterMember :=
  match m !! id with
  | Some member => <[id := member {{ cm_advertise_addr := addr }}]> m
  | None => <[id := mkClusterMember id addr true]> m
  end.

Module ReplicationRuntime.
Section methods.
Context `{ReplicationJson}.

Notation M := (fallible ReplicationRuntime ServerError).

Definition update (f : ReplicationState -> ReplicationState) (rt : ReplicationRuntime)
    : ReplicationRuntime := rt {{ rr_state ::= f }}.
Definition modify (f : ReplicationState -> ReplicationState) : M unit := mmodify (update f).

Definition new (env : Env) (config : ReplicationConfig) (file : result string (option (list byte)))
    : result ServerError ReplicationRuntime :=
  persisted ← load_persisted_state file;
  let now := ev_clock env 0 in
  let next_election_at := now + random_election_timeout config (ev_jitter env) in
  let members := insert_members
    (match persisted with Some p => pr_members p | None => rc_initial_members config end) ∅ in
  let members :=
    match rc_advertise_addr config, members !! rc_node_id config with
    | Some addr, None =>
        <[rc_node_id config := mkClusterMember (rc_node_id config) addr true]> members
    | _, _ => members
    end in
  let has_cluster_peers := Nat.ltb 1 (length (voters members)) in
  let preferred_bootstrap_candidate :=
    negb (is_some persisted) && has_cluster_peers && bool_decide (rc_role config = RoleLeader) in
  let role :=
    if has_cluster_peers && negb (bool_decide (rc_role config = RoleStandalone))
    then RoleFollower else rc_role config in
  let follower_phase :=
    match role with
    | RoleFollower | RoleCandidate =>
        if has_cluster_peers && is_some persisted then Some PhaseCatchingUp else Some PhaseBootstrap
    | _ => None
    end in
  let waits (short long longer : Z) :=
    if bool_decide (role = RoleFollower) && has_cluster_peers then
      Some (now + if preferred_bootstrap_candidate then short
                  else if is_some persisted then long else longer)
    else None in
  Ok (mkReplicationRuntime config
    {| rp_role := role;
       rp_paused := false;
       rp_leader_node_id := None;
       rp_leader_advertise_addr := None;
       rp_local_last_applied_sequence := 0;
       rp_local_last_applied_term := None;
       rp_local_last_applied_checksum := None;
       rp_commit_sequence := 0;
       rp_leader_target_sequence := 0;
       rp_follower_phase := follower_phase;
       rp_follower_lag_entries := None;
       rp_follower_lag_ms := None;
       rp_health := if bool_decide (role = RoleStandalone) then "ready" else "degraded";
       rp_reason := if bool_decide (role = RoleStandalone) then None else Some "awaiting_leader"%string;
       rp_followers := ∅;
       rp_current_term := match persisted with Some p => pr_current_term p | None => 0 end;
       rp_voted_for := persisted ≫= pr_voted_for;
       rp_bootstrap_preferred := preferred_bootstrap_candidate;
       rp_bootstrap_release_at :=
         waits (rc_election_timeout_min config)
           (duration_saturating_mul (rc_stale_after config) 4)
           (duration_saturating_mul (rc_election_timeout_max config) 8);
       rp_last_heartbeat_at := now;
       rp_next_election_at := next_election_at;
       rp_election_suppressed_until :=
         waits (rc_election_timeout_min config)
           (duration_saturating_mul (rc_stale_after config) 2)
           (duration_saturating_mul (rc_election_timeout_max config) 4);
       rp_members := members |}
    (match file with Ok f => f | Err _ => None end)).

(** *** Reading the state *)

Definition role (rt : ReplicationRuntime) : ReplicationRole := rp_role (rr_state rt).
Definition current_term (rt : ReplicationRuntime) : Z := rp_current_term (rr_state rt).
Definition commit_sequence (rt : ReplicationRuntime) : Z := rp_commit_sequence (rr_state rt).
Definition local_last_applied_sequence (rt : ReplicationRuntime) : Z :=
  rp_local_last_applied_sequence (rr_state rt).
Definition current_members (rt : ReplicationRuntime) : list ClusterMember :=
  values_in_order (rp_members (rr_state rt)).

Definition is_leader_for_term (term : Z) (rt : ReplicationRuntime) : bool :=
  bool_decide (role rt = RoleLeader) && (current_term rt =? term).

Definition election_probe (rt : ReplicationRuntime)
    : Z * list ClusterMember * Z * option Z :=
  let st := rr_state rt in
  (saturating_add (rp_current_term st) 1, values_in_order (rp_members st),
   rp_local_last_applied_sequence st, rp_local_last_applied_term st).

Definition write_window_available (rt : ReplicationRuntime) : bool :=
  match rc_write_ack_mode (rr_config rt) with
  | AckLocal => true
  | AckReplica | AckAll =>
      saturating_sub (local_last_applied_sequence rt) (commit_sequence rt)
        <? Z.of_nat (rc_fetch_batch_size (rr_config rt))
  end.

Definition fresh_follower (now : Z) (rt : ReplicationRuntime) (member : ClusterMember) : bool :=
  match rp_followers (rr_state rt) !! cm_node_id member with
  | Some progress =>
      (fp_last_ack_term progress =? current_term rt) &&
      (duration_since now (fp_last_ack_at progress) <? rc_stale_after (rr_config rt))
  | None => false
  end.

Definition write_quorum_fresh (env : Env) (rt : ReplicationRuntime) : bool :=
  let peers := List.filter (fun member => cm_voter member &&
                 negb (bool_decide (cm_node_id member = rc_node_id (rr_config rt))))
                 (current_members rt) in
  match rc_write_ack_mode (rr_config rt) with
  | AckLocal => true
  | AckReplica =>
      let needed := (quorum_size_from_members (rp_members (rr_state rt)) - 1)%nat in
      if Nat.eqb needed 0 then true
      else Nat.leb needed (length (List.filter (fresh_follower (ev_clock env 0) rt) peers))
  | AckAll => forallb (fresh_follower (ev_clock env 0) rt) peers
  end.

Definition local_advertise_addr (rt : ReplicationRuntime) : option string :=
  match rc_advertise_addr (rr_config rt) with
  | Some addr => Some addr
  | None => cm_advertise_addr <$> rp_members (rr_state rt) !! rc_node_id (rr_config rt)
  end.

Definition follower_next_sequence (follower_node_id : string) (rt : ReplicationRuntime) : Z :=
  default 1 (fp_next_sequence <$> rp_followers (rr_state rt) !! follower_node_id).

Definition retention_floor_sequence (rt : ReplicationRuntime) : option Z :=
  match (fun progress => saturating_add (fp_match_index progress) 1)
          <$> values_in_order (rp_followers (rr_state rt)) with
  | [] => None
  | m :: ms => Some (foldr Z.min m ms)
  end.

(** *** Status *)

(** [upstream.or_else(|| leader_advertise_addr)] and the like. *)
Definition or_else {A} (a b : option A) : option A := match a with Some x => Some x | None => b end.

Definition follower_snapshot (config : ReplicationConfig) (now local : Z)
    (follower : string * FollowerProgress) : ReplicationFollowerSnapshot :=
  let '(node_id, progress) := follower in
  let age := duration_since now (fp_last_ack_at progress) in
  mkReplicationFollowerSnapshot node_id (fp_match_index progress)
    (saturating_sub local (fp_match_index progress)) (as_millis age mod 2 ^ 64)
    (rc_stale_after config <? age).

Definition snapshot (env : Env) (rt : ReplicationRuntime) : ReplicationStatusSnapshot :=
  let st := rr_state rt in
  let config := rr_config rt in
  let followers := follower_snapshot config (ev_clock env 0) (rp_local_last_applied_sequence st)
                     <$> entries_in_order (rp_followers st) in
  {| ss_node_id := rc_node_id config;
     ss_group_id := rc_group_id config;
     ss_role := ReplicationRole_as_str (rp_role st);
     ss_advertise_addr := local_advertise_addr rt;
     ss_leader_node_id := rp_leader_node_id st;
     ss_leader_advertise_addr := rp_leader_advertise_addr st;
     ss_upstream := or_else (rc_upstream config) (rp_leader_advertise_addr st);
     ss_write_ack_mode := WriteAckMode_as_str (rc_write_ack_mode config);
     ss_paused := rp_paused st;
     ss_health := rp_health st;
     ss_reason := rp_reason st;
     ss_local_last_applied_sequence := rp_local_last_applied_sequence st;
     ss_commit_sequence := rp_commit_sequence st;
     ss_retention_floor_sequence :=
       match (fun f => saturating_add (rf_applied_sequence f) 1) <$> followers with
       | [] => None
       | m :: ms => Some (foldr Z.min m ms)
       end;
     ss_follower_phase := FollowerPhase_as_str <$> rp_follower_phase st;
     ss_follower_lag_entries := rp_follower_lag_entries st;
     ss_follower_lag_ms := rp_follower_lag_ms st;
     ss_known_followers := length followers;
     ss_followers := followers;
     ss_current_term := rp_current_term st;
     ss_voted_for := rp_voted_for st;
     ss_quorum_size := quorum_size_from_members (rp_members st);
     ss_members := values_in_order (rp_members st) |}.

(** One round of the loop of [wait_for_write_ack], [None] when it goes on to wait
    for a change of the commit position: [deadline] was computed at its start. *)
Definition poll_write_ack (env : Env) (deadline sequence : Z) (rt : ReplicationRuntime)
    : option (result ServerError unit) :=
  let st := rr_state rt in
  if sequence <=? rp_commit_sequence st then Some (Ok tt)
  else
    let matched_followers :=
      List.filter (fun progress => (fp_last_ack_term progress =? rp_current_term st) &&
                     (sequence <=? fp_match_index progress)) (values_in_order (rp_followers st)) in
    if Nat.ltb 1 (voter_count (rp_members st)) && Nat.eqb (length matched_followers) 0 &&
       (deadline <=? ev_clock env 0)
    then Some (Err SrvReplicationAckUnavailable)
    else if deadline <=? ev_clock env 1
    then Some (Err (SrvReplicationAckTimeout sequence
                      (WriteAckMode_as_str (rc_write_ack_mode (rr_config rt)))))
    else None.

(** *** The local log and its commit position *)

Definition set_advertise_addr (env : Env) (advertise_addr : string) : M unit :=
  _ ← (fun rt => modify (fun st =>
         st {{ rp_members ::= upsert_address (rc_node_id (rr_config rt)) advertise_addr }}) rt);
  persist_state (ev_io env 0).

Definition set_paused (paused : bool) : ReplicationRuntime -> ReplicationRuntime :=
  update (fun st =>
    let st := st {{ rp_paused := paused }} in
    if bool_decide (rp_role st = RoleFollower)
    then st {{ rp_follower_phase := Some (if paused then PhasePaused else PhaseBootstrap) }}
    else st).

Definition set_local_last_applied_state (sequence : Z) (term checksum : option Z)
    (rt : ReplicationRuntime) : ReplicationRuntime :=
  update (fun st =>
    let st := st {{ rp_local_last_applied_sequence := sequence;
                    rp_local_last_applied_term := term;
                    rp_local_last_applied_checksum := checksum }} in
    match rp_role st with
    | RoleStandalone => st {{ rp_commit_sequence := sequence }}
    | RoleLeader => recompute_commit_sequence (rr_config rt) st
    | _ => st
    end) rt.

Definition observe_leader_commit (leader_commit_sequence : Z)
    : ReplicationRuntime -> ReplicationRuntime :=
  update (fun st =>
    match rp_role st with
    | RoleLeader | RoleStandalone => st
    | _ =>
        let bounded_commit := Z.min leader_commit_sequence (rp_local_last_applied_sequence st) in
        st {{ rp_commit_sequence := Z.max (rp_commit_sequence st) bounded_commit }}
    end).

Definition update_follower_phase (phase : FollowerPhase) (lag_entries lag_ms : option Z)
    : ReplicationRuntime -> ReplicationRuntime :=
  update (fun st =>
    let st := st {{ rp_follower_phase := Some phase;
                    rp_follower_lag_entries := lag_entries;
                    rp_follower_lag_ms := lag_ms }} in
    match phase with
    | PhaseStale => st {{ rp_health := "degraded"%string; rp_reason := Some "replication_stale"%string }}
    | PhasePaused => st {{ rp_health := "degraded"%string; rp_reason := Some "replication_paused"%string }}
    | _ =>
        if bool_decide (rp_role st = RoleCandidate) then st
        else st {{ rp_health := "ready"%string; rp_reason := None }}
    end).

Definition register_follower_ack (env : Env) (follower_node_id : string)
    (applied_sequence term : Z) (leader_node_id : string) (rt : ReplicationRuntime)
    : ReplicationRuntime :=
  update (fun st =>
    if negb (bool_decide (rp_role st = RoleLeader)) || negb (rp_current_term st =? term) ||
       negb (bool_decide (leader_node_id = rc_node_id (rr_config rt)))
    then st
    else
      recompute_commit_sequence (rr_config rt)
        (st {{ rp_followers ::= <[follower_node_id :=
                 mkFollowerProgress applied_sequence (saturating_add applied_sequence 1)
                   (ev_clock env 0) term]> }})) rt.

Definition record_append_result (env : Env) (follower_node_id : string) (accepted : bool)
    (match_sequence term : Z) (leader_node_id : string) (rt : ReplicationRuntime)
    : ReplicationRuntime :=
  update (fun st =>
    if negb (bool_decide (rp_role st = RoleLeader)) || negb (rp_current_term st =? term) ||
       negb (bool_decide (leader_node_id = rc_node_id (rr_config rt)))
    then st
    else
      let current_next := default 1 (fp_next_sequence <$> rp_followers st !! follower_node_id) in
      let progress := default (mkFollowerProgress 0 1 (ev_clock env 0) term)
                        (rp_followers st !! follower_node_id) in
      let progress := progress {{ fp_last_ack_at := ev_clock env 1; fp_last_ack_term := term }} in
      let progress :=
        if accepted then
          let match_index := Z.max (fp_match_index progress) match_sequence in
          progress {{ fp_match_index := match_index;
                      fp_next_sequence := saturating_add match_index 1 }}
        else
          let fallback_next := saturating_add match_sequence 1 in
          progress {{ fp_next_sequence :=
                        Z.min (Z.max (saturating_sub current_next 1) 1) (Z.max fallback_next 1) }} in
      recompute_commit_sequence (rr_config rt)
        (st {{ rp_followers ::= <[follower_node_id := progress]> }})) rt.

(** *** Elections *)

Definition promote_follower (env : Env) (maintenance_enabled : bool) : M unit :=
  if negb maintenance_enabled then
    mfail (SrvReplicationPromotionDenied "promotion requires maintenance mode")
  else
    rt ← mget;
    if negb (bool_decide (role rt = RoleFollower)) then
      mfail (SrvReplicationPromotionDenied "only followers may be promoted")
    else
      _ ← modify (fun st =>
            st {{ rp_current_term := saturating_add (rp_current_term st) 1;
                  rp_voted_for := Some (rc_node_id (rr_config rt));
                  rp_role := RoleLeader;
                  rp_follower_phase := None;
                  rp_leader_node_id := Some (rc_node_id (rr_config rt));
                  rp_leader_advertise_addr := local_advertise_addr rt;
                  rp_health := "ready"%string;
                  rp_reason := None }});
      persist_state (ev_io env 0).

(** Each reading of the clock is the one of its place in the code. *)
Definition election_due (env : Env) (rt : ReplicationRuntime) : bool :=
  let st := rr_state rt in
  let before (reading : nat) (until : option Z) :=
    match until with Some u => ev_clock env reading <? u | None => false end in
  if bool_decide (rp_follower_phase st = Some PhaseBootstrap) &&
     negb (rp_bootstrap_preferred st) && before 0%nat (rp_bootstrap_release_at st) then false
  else if before 1%nat (rp_election_suppressed_until st) then false
  else if recently_heard_from_known_leader (rr_config rt) st (ev_clock env 2) then false
  else
    let role_allows_election :=
      match rp_role st with
      | RoleCandidate => true
      | RoleFollower =>
          match rp_follower_phase st with
          | Some PhaseBootstrap | Some PhaseStreaming | Some PhaseStale | None => true
          | _ => false
          end
      | _ => false
      end in
    let caught_up_to_leader_frontier :=
      rp_leader_target_sequence st <=? rp_local_last_applied_sequence st in
    role_allows_election && caught_up_to_leader_frontier &&
    (rp_next_election_at st <=? ev_clock env 3).

Definition defer_election (env : Env) (rt : ReplicationRuntime) : ReplicationRuntime :=
  update (fun st => st {{ rp_next_election_at :=
    ev_clock env 0 + random_election_timeout (rr_config rt) (ev_jitter env) }}) rt.

Definition begin_election (env : Env) : M (Z * list ClusterMember * Z * option Z) :=
  rt ← mget;
  _ ← modify (fun st =>
        st {{ rp_role := RoleCandidate;
              rp_current_term := saturating_add (rp_current_term st) 1;
              rp_voted_for := Some (rc_node_id (rr_config rt));
              rp_bootstrap_preferred := false;
              rp_bootstrap_release_at := None;
              rp_followers := ∅;
              rp_leader_target_sequence := 0;
              rp_leader_node_id := None;
              rp_leader_advertise_addr := None;
              rp_health := "degraded"%string;
              rp_reason := Some "election_in_progress"%string;
              rp_next_election_at :=
                ev_clock env 0 + random_election_timeout (rr_config rt) (ev_jitter env) }});
  rt ← mget;
  let st := rr_state rt in
  let probe := (rp_current_term st, values_in_order (rp_members st),
                rp_local_last_applied_sequence st, rp_local_last_applied_term st) in
  _ ← persist_state (ev_io env 0);
  mret probe.

Definition finalize_election (env : Env) (term : Z) (votes_granted members : nat) : M bool :=
  rt ← mget;
  if negb (current_term rt =? term) || negb (bool_decide (role rt = RoleCandidate)) then mret false
  else if Nat.ltb votes_granted (quorum_size members) then mret false
  else
    _ ← modify (fun st =>
          st {{ rp_role := RoleLeader;
                rp_followers := ∅;
                rp_leader_target_sequence := 0;
                rp_bootstrap_preferred := false;
                rp_bootstrap_release_at := None;
                rp_leader_node_id := Some (rc_node_id (rr_config rt));
                rp_leader_advertise_addr := local_advertise_addr rt;
                rp_health := "ready"%string;
                rp_reason := None;
                rp_next_election_at :=
                  ev_clock env 0 + random_election_timeout (rr_config rt) (ev_jitter env) }});
    _ ← persist_state (ev_io env 0);
    mret true.

(** What a higher term does to the state; [observe_remote_term] also forgets the
    leader's frontier. *)
Definition adopt_term (term next_election_at : Z) (st : ReplicationState) : ReplicationState :=
  st {{ rp_current_term := term;
        rp_voted_for := None;
        rp_bootstrap_preferred := false;
        rp_bootstrap_release_at := None;
        rp_role := if bool_decide (rp_role st = RoleStandalone) then rp_role st else RoleFollower;
        rp_followers := ∅;
        rp_leader_node_id := None;
        rp_leader_advertise_addr := None;
        rp_health := "degraded"%string;
        rp_reason := Some "awaiting_leader"%string;
        rp_next_election_at := next_election_at }}.

Definition observe_remote_term (env : Env) (term : Z) : M unit :=
  rt ← mget;
  if current_term rt <? term then
    _ ← modify (fun st =>
          (adopt_term term
             (ev_clock env 0 + random_election_timeout (rr_config rt) (ev_jitter env)) st)
            {{ rp_leader_target_sequence := 0 }});
    persist_state (ev_io env 0)
  else mret tt.

Definition log_term (t : option Z) : Z := default 0 t.

(** The log of the candidate is at least as new as the local one. *)
Definition up_to_date (request : VoteRequest) (st : ReplicationState) : bool :=
  let local := log_term (rp_local_last_applied_term st) in
  let remote := log_term (vr_last_log_term request) in
  (local <? remote) ||
  ((remote =? local) && (rp_local_last_applied_sequence st <=? vr_last_log_index request)).

Definition prevote_granted (request : VoteRequest) (recently_heard_from_leader : bool)
    (rt : ReplicationRuntime) : bool :=
  let st := rr_state rt in
  let self := rc_node_id (rr_config rt) in
  let local := log_term (rp_local_last_applied_term st) in
  let remote := log_term (vr_last_log_term request) in
  let candidate := vr_candidate_node_id request in
  let equal_log := (remote =? local) &&
                   (vr_last_log_index request =? rp_local_last_applied_sequence st) in
  let voted_for_self := bool_decide (rp_voted_for st = Some self) in
  let from_leader := bool_decide (rp_leader_node_id st = Some candidate) in
  let same_term_candidate_tie_break :=
    (rp_current_term st =? vr_term request) && bool_decide (rp_role st = RoleCandidate) &&
    voted_for_self &&
    ((local <? remote) ||
     ((remote =? local) && (rp_local_last_applied_sequence st <? vr_last_log_index request)) ||
     (equal_log && String.ltb self candidate)) in
  let active_leader_blocks_prevote := bool_decide (rp_role st = RoleLeader) && negb from_leader in
  let active_candidate_blocks_prevote :=
    bool_decide (rp_role st = RoleCandidate) && (vr_term request <=? rp_current_term st) &&
    voted_for_self && negb same_term_candidate_tie_break in
  let equal_log_candidate_has_lower_priority :=
    (1 <? vr_term request) && equal_log && String.ltb candidate self in
  let has_uncommitted_local := rp_commit_sequence st <? rp_local_last_applied_sequence st in
  let uncommitted_tail_blocks_prevote := has_uncommitted_local && negb (up_to_date request st) in
  up_to_date request st && negb active_leader_blocks_prevote &&
  negb active_candidate_blocks_prevote && negb equal_log_candidate_has_lower_priority &&
  negb uncommitted_tail_blocks_prevote && (negb recently_heard_from_leader || from_leader).

Definition handle_vote_request (env : Env) (request : VoteRequest) : M VoteResponse :=
  rt ← mget;
  let config := rr_config rt in
  let candidate := vr_candidate_node_id request in
  let reject (rt : ReplicationRuntime) := mret (mkVoteResponse (current_term rt) false) in
  if negb (is_voting_member (rr_state rt) candidate) then reject rt
  else
    let is_up_to_date := up_to_date request (rr_state rt) in
    let has_uncommitted_local :=
      rp_commit_sequence (rr_state rt) <? rp_local_last_applied_sequence (rr_state rt) in
    let recently_heard_from_leader :=
      recently_heard_from_known_leader config (rr_state rt) (ev_clock env 0) in
    if vr_term request <? current_term rt then reject rt
    else if vr_prevote request then
      mret (mkVoteResponse (current_term rt) (prevote_granted request recently_heard_from_leader rt))
    else
      _ ← (if current_term rt <? vr_term request then
             _ ← modify (adopt_term (vr_term request)
                   (ev_clock env 1 + random_election_timeout config (ev_jitter env)));
             persist_state (ev_io env 0)
           else mret tt);
      rt ← mget;
      let recently_heard_from_leader :=
        recently_heard_from_known_leader config (rr_state rt) (ev_clock env 2) in
      if recently_heard_from_leader &&
         negb (bool_decide (rp_leader_node_id (rr_state rt) = Some candidate)) then reject rt
      else if negb is_up_to_date then reject rt
      else if has_uncommitted_local && negb is_up_to_date then reject rt
      else
        let vote_granted :=
          is_up_to_date &&
          (bool_decide (rp_voted_for (rr_state rt) = None) ||
           bool_decide (rp_voted_for (rr_state rt) = Some candidate)) in
        _ ← (if vote_granted then
               _ ← modify (fun st =>
                     st {{ rp_voted_for := Some candidate;
                           rp_bootstrap_preferred := false;
                           rp_bootstrap_release_at := None;
                           rp_role := if bool_decide (rp_role st = RoleStandalone)
                                      then rp_role st else RoleFollower;
                           rp_next_election_at := ev_clock env 3 + leader_lease_duration config;
                           rp_election_suppressed_until :=
                             Some (ev_clock env 4 + leader_lease_duration config);
                           rp_members ::= upsert_address candidate (vr_candidate_addr request) }});
               persist_state (ev_io env 1)
             else mret tt);
        rt ← mget;
        mret (mkVoteResponse (current_term rt) vote_granted).

(** *** Following a leader *)

(** What the state takes over from a leader of a term that is not old. *)
Definition follow_leader (config : ReplicationConfig) (env : Env) (term : Z)
    (leader_node_id : string) (leader_addr : option string) (commit frontier : Z)
    (members : gmap string ClusterMember) (st : ReplicationState) : ReplicationState :=
  let newer := rp_current_term st <? term in
  let target := Z.max (rp_leader_target_sequence st) (Z.max frontier commit) in
  st {{ rp_current_term := if newer then term else rp_current_term st;
        rp_followers := if newer then ∅ else rp_followers st;
        rp_role := if bool_decide (rp_role st = RoleStandalone) then rp_role st else RoleFollower;
        rp_voted_for := Some leader_node_id;
        rp_bootstrap_preferred := false;
        rp_bootstrap_release_at := None;
        rp_leader_node_id := Some leader_node_id;
        rp_leader_advertise_addr := leader_addr;
        rp_commit_sequence :=
          Z.max (rp_commit_sequence st) (Z.min commit (rp_local_last_applied_sequence st));
        rp_leader_target_sequence := target;
        rp_follower_phase :=
          if rp_paused st then rp_follower_phase st
          else Some (if negb (rp_local_last_applied_sequence st =? target)
                     then PhaseCatchingUp else PhaseStreaming);
        rp_last_heartbeat_at := ev_clock env 0;
        rp_next_election_at := ev_clock env 1 + leader_lease_duration config;
        rp_election_suppressed_until := Some (ev_clock env 2 + leader_lease_duration config);
        rp_health := "ready"%string;
        rp_reason := None;
        rp_members := members }}.

Definition handle_heartbeat (env : Env) (request : HeartbeatRequest) : M HeartbeatResponse :=
  rt ← mget;
  if negb (is_voting_member (rr_state rt) (hb_leader_node_id request)) ||
     (hb_term request <? current_term rt)
  then mret (mkHeartbeatResponse (current_term rt) false)
  else
    _ ← modify (follow_leader (rr_config rt) env (hb_term request) (hb_leader_node_id request)
          (Some (hb_leader_addr request)) (hb_commit_sequence request)
          (hb_leader_frontier_sequence request) (insert_members (hb_members request) ∅));
    _ ← persist_state (ev_io env 0);
    rt ← mget;
    mret (mkHeartbeatResponse (current_term rt) true).

Definition observe_leader_status (env : Env) (leader_node_id : string) (leader_addr : option string)
    (term commit frontier : Z) (members : list ClusterMember) : M unit :=
  rt ← mget;
  if term <? current_term rt then mret tt
  else
    _ ← modify (fun st =>
          follow_leader (rr_config rt) env term leader_node_id leader_addr commit frontier
            (match members with [] => rp_members st | _ => insert_members members ∅ end) st);
    persist_state (ev_io env 0).

Definition leader_heartbeat_payload (rt : ReplicationRuntime) : option HeartbeatRequest :=
  let st := rr_state rt in
  if negb (bool_decide (rp_role st = RoleLeader)) then None
  else Some (mkHeartbeatRequest (rp_current_term st) (rc_node_id (rr_config rt))
               (default EmptyString (local_advertise_addr rt)) (rp_commit_sequence st)
               (Z.max (rp_local_last_applied_sequence st) (rp_commit_sequence st))
               (values_in_order (rp_members st))).

Definition note_leader_activity (env : Env) : ReplicationRuntime -> ReplicationRuntime :=
  update (fun st =>
    if bool_decide (rp_role st = RoleLeader) then st {{ rp_last_heartbeat_at := ev_clock env 0 }}
    else st).

Definition note_leader_frontier (sequence : Z) : ReplicationRuntime -> ReplicationRuntime :=
  update (fun st =>
    if bool_decide (rp_role st = RoleFollower) then
      let st := st {{ rp_leader_target_sequence := Z.max (rp_leader_target_sequence st) sequence }} in
      if rp_paused st then st
      else st {{ rp_follower_phase :=
                   Some (if negb (rp_local_last_applied_sequence st =? rp_leader_target_sequence st)
                         then PhaseCatchingUp else PhaseStreaming) }}
    else st).

(** *** Membership *)

Definition add_member (env : Env) (member : ClusterMember) : M unit :=
  _ ← modify (fun st => st {{ rp_members ::= <[cm_node_id member := member]> }});
  persist_state (ev_io env 0).

Definition remove_member (env : Env) (node_id : string) : M unit :=
  _ ← modify (fun st => st {{ rp_members ::= delete node_id; rp_followers ::= delete node_id }});
  persist_state (ev_io env 0).

End methods.
End ReplicationRuntime.
