(* ===== verification/Auth.v ===== *)
(** * Auth: users, roles and permissions (crates/server/src/auth)

    The store behind [AuthConfig]; its lock is held for a whole operation.  An
    operation changes the store in memory and then saves it: when saving fails the
    change stays.  Argon2 and JSON are parameters; salts, nonces and the outcome of
    file operations are arguments. *)

From S2P Require Import Prelude Text EngineError Store Crypto Wire ServerError Consensus.

Definition DEFAULT_USERNAME : string := "vaylix".
Definition DEFAULT_PASSWORD : string := "vaylix".
Definition AUTH_RESOURCE : string := "auth metadata".
Definition AUTH_FORMAT_VERSION : Z := 2.
Definition MIN_SUPPORTED_AUTH_FORMAT_VERSION : Z := 1.
Definition ADMIN_ROLE : string := "admin".

(** ** Permissions *)

Inductive Permission :=
| PermRead | PermWrite | PermAdmin | PermBackup | PermRestore | PermMetrics | PermSnapshot
| PermClear | PermUserAdmin | PermRoleAdmin.

#[export] Instance Permission_eq_dec : EqDecision Permission.
Proof. solve_decision. Defined.

(** In the order of the declaration, which is the order of a [BTreeSet]. *)
Definition permission_list : list Permission :=
  [PermRead; PermWrite; PermAdmin; PermBackup; PermRestore; PermMetrics; PermSnapshot; PermClear;
   PermUserAdmin; PermRoleAdmin].

Definition permission_rank (p : Permission) : nat :=
  match p with
  | PermRead => 0 | PermWrite => 1 | PermAdmin => 2 | PermBackup => 3 | PermRestore => 4
  | PermMetrics => 5 | PermSnapshot => 6 | PermClear => 7 | PermUserAdmin => 8 | PermRoleAdmin => 9
  end.

#[export] Instance Permission_countable : Countable Permission.
Proof.
  apply (inj_countable permission_rank (fun n => permission_list !! n)). by intros [].
Defined.

Definition permission_all : gset Permission := list_to_set permission_list.

Definition Permission_as_str (p : Permission) : string :=
  match p with
  | PermRead => "read"
  | PermWrite => "write"
  | PermAdmin => "admin"
  | PermBackup => "backup"
  | PermRestore => "restore"
  | PermMetrics => "metrics"
  | PermSnapshot => "snapshot"
  | PermClear => "clear"
  | PermUserAdmin => "user_admin"
  | PermRoleAdmin => "role_admin"
  end.

Definition Permission_parse (value : string) : result ServerError Permission :=
  ok_or (List.find (fun p => bool_decide (Permission_as_str p = to_ascii_lowercase value)) permission_list)
    (SrvInvalidPermission value).

Record PermissionGrant := mkPermissionGrant {
  pg_permission : Permission;
  pg_pattern : string;
}.

#[export] Instance PermissionGrant_eq_dec : EqDecision PermissionGrant.
Proof. solve_decision. Defined.

#[export] Instance PermissionGrant_countable : Countable PermissionGrant.
Proof.
  apply (inj_countable' (fun g => (pg_permission g, pg_pattern g)) (fun '(p, s) => mkPermissionGrant p s)).
  by intros [].
Defined.

(** The iteration of the two sets. *)
Definition permissions_in_order (X : gset Permission) : list Permission :=
  List.filter (fun p => bool_decide (p ∈ X)) permission_list.
Definition grants_in_order (X : gset PermissionGrant) : list PermissionGrant :=
  mjoin ((fun p => mkPermissionGrant p <$>
            merge_sort String.le (pg_pattern <$> List.filter (fun g => bool_decide (pg_permission g = p)) (elements X)))
         <$> permission_list).

(** ** Patterns (pattern.rs) *)

Module Pattern.

(** [pattern.find('*')] and the split around it. *)
Fixpoint split_star (pattern : list byte) : option (list byte * list byte) :=
  match pattern with
  | [] => None
  | b :: pattern =>
      if bool_decide (b = x2a) then Some ([], pattern)
      else
        match split_star pattern with
        | Some (before, behind) => Some (b :: before, behind)
        | None => None
        end
  end.

Definition wildcard_matches (pattern value : string) : bool :=
  if bool_decide (pattern = "*"%string) then true
  else
    match split_star (as_bytes pattern) with
    | None => bool_decide (pattern = value)
    | Some (before, behind) =>
        bool_decide (before `prefix_of` as_bytes value) && bool_decide (behind `suffix_of` as_bytes value)
    end.

(** [trim_end_matches('*')]. *)
Fixpoint trim_stars (reversed : list byte) : list byte :=
  match reversed with
  | [] => []
  | b :: rest => if bool_decide (b = x2a) then trim_stars rest else reversed
  end.
Definition trim_end_stars (pattern : list byte) : list byte := reverse (trim_stars (reverse pattern)).

Definition pattern_covers (grant_pattern requested_pattern : string) : bool :=
  bool_decide (grant_pattern = "*"%string) || bool_decide (grant_pattern = requested_pattern) ||
  (negb (bool_decide (requested_pattern = "*"%string)) &&
   bool_decide ([x2a] `suffix_of` as_bytes grant_pattern) &&
   bool_decide (trim_end_stars (as_bytes grant_pattern) `prefix_of` as_bytes requested_pattern)).

End Pattern.

(** ** Identities *)

Record Identity := mkIdentity {
  id_username : string;
  id_permissions : gset Permission;
  id_grants : gset PermissionGrant;
}.

Module Identity.

Definition has (i : Identity) (permission : Permission) : bool :=
  bool_decide (PermAdmin ∈ id_permissions i) || bool_decide (permission ∈ id_permissions i).

Definition allows_key (i : Identity) (permission : Permission) (key : string) : bool :=
  bool_decide (PermAdmin ∈ id_permissions i) ||
  existsb (fun grant => bool_decide (pg_permission grant = permission) &&
                        Pattern.wildcard_matches (pg_pattern grant) key) (grants_in_order (id_grants i)).

Definition allows_pattern (i : Identity) (permission : Permission) (requested_pattern : string) : bool :=
  bool_decide (PermAdmin ∈ id_permissions i) ||
  existsb (fun grant => bool_decide (pg_permission grant = permission) &&
                        Pattern.pattern_covers (pg_pattern grant) requested_pattern) (grants_in_order (id_grants i)).

Definition permissions_csv (i : Identity) : string :=
  String.concat "," (Permission_as_str <$> permissions_in_order (id_permissions i)).

Definition grant_text (grant : PermissionGrant) : string :=
  Permission_as_str (pg_permission grant) +:+ " on " +:+ pg_pattern grant.
Definition grants_csv (i : Identity) : string :=
  String.concat "," (grant_text <$> grants_in_order (id_grants i)).

End Identity.

(** ** The store *)

Record UserRecord := mkUserRecord {
  ur_password_hash : string;
  ur_roles : gset string;
  ur_disabled : bool;
}.

Record RoleRecord := mkRoleRecord {
  ro_permissions : gset Permission;
  ro_grants : gset PermissionGrant;
}.

Record StoredAuth := mkStoredAuth {
  sa_version : Z;
  sa_users : gmap string UserRecord;
  sa_roles : gmap string RoleRecord;
  sa_bootstrap_admin : option string;
}.

(** Persistence is configured by a keyring; the file is what is at its path. *)
Record AuthStore := mkAuthStore {
  as_stored : StoredAuth;
  as_persist : option StorageKeyring;
  as_file : option (list byte);
}.

(** Argon2 in its PHC string form: a hash is checked against a password, and a
    string that is no hash is an error. *)
Class PasswordHash := {
  ph_hash : list byte -> string -> option string;
  ph_verify : string -> string -> option bool;
  ph_verify_hash salt password hash :
    ph_hash salt password = Some hash -> ph_verify hash password = Some true;
}.

Class AuthJson := {
  auth_to_json : StoredAuth -> result string (list byte);
  auth_from_json : list byte -> result string StoredAuth;
  auth_from_to stored bytes :
    auth_to_json stored = Ok bytes -> auth_from_json bytes = Ok stored;
}.

Definition MIN_PASSWORD_LEN : Z := 12.

Definition is_ascii_alphabetic (c : Z) : bool :=
  in_range 0x41 0x5A c || in_range 0x61 0x7A c.
Definition is_ascii_digit (c : Z) : bool := in_range 0x30 0x39 c.

Definition validate_password_policy (password : string) : result ServerError unit :=
  if str_len password <? MIN_PASSWORD_LEN then Err SrvPasswordPolicyViolation
  else if negb (existsb is_ascii_alphabetic (chars password)) || negb (existsb is_ascii_digit (chars password))
  then Err SrvPasswordPolicyViolation
  else Ok tt.

Definition everywhere (p : Permission) : PermissionGrant := mkPermissionGrant p "*".

Definition admin_role_record : RoleRecord :=
  mkRoleRecord permission_all (set_map everywhere permission_all).

Definition admin_roles : gmap string RoleRecord := {[ADMIN_ROLE := admin_role_record]}.

Definition ensure_admin_role (stored : StoredAuth) : StoredAuth :=
  let role := default admin_role_record (sa_roles stored !! ADMIN_ROLE) in
  stored {{ sa_roles ::= <[ADMIN_ROLE :=
    mkRoleRecord (ro_permissions role ∪ permission_all)
      (ro_grants role ∪ set_map everywhere permission_all)]> }}.

(** [sort] and [dedup] of a vector of strings, and a number with three digits. *)
Fixpoint dedup (l : list string) : list string :=
  match l with
  | [] => []
  | x :: l =>
      match dedup l with
      | y :: _ as rest => if bool_decide (x = y) then rest else x :: rest
      | [] => [x]
      end
  end.
Definition three_digits (index : nat) : string :=
  let digits := int_to_string (Z.of_nat index) in
  String.concat EmptyString (replicate (3 - String.length digits) "0"%string) +:+ digits.

Definition role_grants (record : RoleRecord) : list string :=
  dedup (merge_sort String.le
    (((fun permission => Permission_as_str permission +:+ " on *") <$>
        permissions_in_order (ro_permissions record)) ++
     (Identity.grant_text <$> grants_in_order (ro_grants record)))).

Section files.
Context `{Crc32} `{CryptoLib} `{PasswordHash} `{AuthJson}.

Definition password_matches (user : UserRecord) (password : string) : result ServerError bool :=
  ok_or (ph_verify (ur_password_hash user) password) SrvAuthenticationConfiguration.

Definition hash_password (salt : list byte) (password : string) : result ServerError string :=
  ok_or (ph_hash salt password) SrvAuthenticationConfiguration.

(** ** The file *)

(** What an operation draws: a salt, a nonce, and what becomes of its file. *)
Record AuthInputs := mkAuthInputs {
  ai_salt : list byte;
  ai_nonce : list byte;
  ai_io : PersistIo;
}.

Definition load_store (keyring : StorageKeyring) (file : result string (option (list byte)))
    : result ServerError (option StoredAuth) :=
  match file with
  | Ok (Some bytes) =>
      decrypted ← from_engine (decrypt keyring AUTH_RESOURCE bytes);
      stored ← map_err SrvAuthStoreDecode (auth_from_json decrypted);
      if in_range MIN_SUPPORTED_AUTH_FORMAT_VERSION AUTH_FORMAT_VERSION (sa_version stored)
      then Ok (Some stored)
      else Err (SrvAuthStoreDecode ("unsupported auth store version " +:+ int_to_string (sa_version stored)))
  | Ok None => Ok None
  | Err message => Err (SrvIo message)
  end.

(** The new file is written aside and renamed. *)
Definition save_store (i : AuthInputs) (keyring : StorageKeyring) : fallible AuthStore ServerError unit :=
  store ← mget;
  bytes ← mpure (map_err SrvAuthStoreEncode (auth_to_json (as_stored store)));
  encrypted ← mpure (from_engine (encrypt (kr_active keyring) AUTH_RESOURCE (ai_nonce i) bytes));
  match ai_io i with
  | IoDone => mput (store {{ as_file := Some encrypted }})
  | IoFailed true message => _ ← mput (store {{ as_file := Some encrypted }}); mfail (SrvIo message)
  | IoFailed false message => mfail (SrvIo message)
  end.

Definition save (i : AuthInputs) : fallible AuthStore ServerError unit :=
  store ← mget;
  match as_persist store with
  | None => mret tt
  | Some keyring => save_store i keyring
  end.

(** ** Administrators *)

Definition is_admin (user : UserRecord) : bool := bool_decide (ADMIN_ROLE ∈ ur_roles user).

Definition admin_user_count (stored : StoredAuth) : nat :=
  length (List.filter (fun user => negb (ur_disabled user) && is_admin user)
            (values_in_order (sa_users stored))).

Definition bootstrap_store (i : AuthInputs) (username password : string) : result ServerError StoredAuth :=
  hash ← hash_password (ai_salt i) password;
  Ok (mkStoredAuth AUTH_FORMAT_VERSION {[username := mkUserRecord hash {[ADMIN_ROLE]} false]}
        admin_roles (Some username)).

(** The name of the only administrator, in a store without a bootstrap record. *)
Definition legacy_single_admin_username (stored : StoredAuth) : option string :=
  match sa_bootstrap_admin stored with
  | Some _ => None
  | None =>
      match List.filter (fun entry => negb (ur_disabled entry.2) && is_admin entry.2)
              (entries_in_order (sa_users stored)) with
      | [(username, _)] => Some username
      | _ => None
      end
  end.

Definition remove_admin_user_if_present (username : string) (stored : StoredAuth) : StoredAuth :=
  match sa_users stored !! username with
  | Some user => if is_admin user then stored {{ sa_users ::= delete username }} else stored
  | None => stored
  end.

Definition retire_previous_bootstrap_admin (previous_username : option string)
    (configured_username : string) (stored : StoredAuth) : StoredAuth :=
  match previous_username with
  | Some previous =>
      if bool_decide (previous = configured_username) then stored
      else remove_admin_user_if_present previous stored
  | None => stored
  end.

Definition retire_legacy_default_bootstrap_user (configured_username : string) (stored : StoredAuth)
    : result ServerError StoredAuth :=
  if bool_decide (configured_username = DEFAULT_USERNAME) then Ok stored
  else
    match sa_users stored !! DEFAULT_USERNAME with
    | None => Ok stored
    | Some user =>
        if is_admin user then Ok (remove_admin_user_if_present DEFAULT_USERNAME stored)
        else
          default_password ← password_matches user DEFAULT_PASSWORD;
          Ok (if (default_password : bool) then remove_admin_user_if_present DEFAULT_USERNAME stored else stored)
    end.

(** The configured administrator replaces the one configured before. *)
Definition reconcile_configured_bootstrap_admin (i : AuthInputs) (username password : string)
    (stored : StoredAuth) : result ServerError StoredAuth :=
  if bool_decide (username = DEFAULT_USERNAME) && bool_decide (password = DEFAULT_PASSWORD)
  then Ok (stored {{ sa_version := AUTH_FORMAT_VERSION }})
  else
    let previous := sa_bootstrap_admin stored in
    let legacy := legacy_single_admin_username stored in
    let stored := ensure_admin_role stored in
    hash ← hash_password (ai_salt i) password;
    let roles := default ∅ (ur_roles <$> sa_users stored !! username) in
    let stored := stored {{ sa_users ::= <[username := mkUserRecord hash ({[ADMIN_ROLE]} ∪ roles) false]> }} in
    let stored := retire_previous_bootstrap_admin previous username stored in
    let stored := match previous with
                  | None => retire_previous_bootstrap_admin legacy username stored
                  | Some _ => stored
                  end in
    stored ← retire_legacy_default_bootstrap_user username stored;
    Ok (stored {{ sa_bootstrap_admin := Some username; sa_version := AUTH_FORMAT_VERSION }}).

(** [AuthConfig::new] and [AuthConfig::load_or_bootstrap]; the latter on the file at
    its path, which can be [unreadable]. *)
Definition auth_new (i : AuthInputs) (username password : string) : result ServerError AuthStore :=
  stored ← bootstrap_store i username password;
  Ok (mkAuthStore stored None None).

Definition load_or_bootstrap (i : AuthInputs) (keyring : StorageKeyring) (username password : string)
    (unreadable : option string) : fallible (option (list byte)) ServerError AuthStore :=
  file ← mget;
  loaded ← mpure (load_store keyring (match unreadable with Some message => Err message | None => Ok file end));
  stored ← mpure (match loaded with
                  | Some stored => reconcile_configured_bootstrap_admin i username password stored
                  | None => bootstrap_store i username password
                  end);
  let '(store, saved) := save i (mkAuthStore stored (Some keyring) file) in
  _ ← mput (as_file store);
  _ ← mpure saved;
  mret store.

End files.

(** ** Operations of the store *)

Module AuthStore.
Section operations.
Context `{Crc32} `{CryptoLib} `{PasswordHash} `{AuthJson}.

(** One round of the loop over the roles of a user. *)
Definition add_role (stored : StoredAuth) (acc : gset Permission * gset PermissionGrant) (role : string)
    : gset Permission * gset PermissionGrant :=
  match sa_roles stored !! role with
  | Some role =>
      (acc.1 ∪ ro_permissions role ∪
         set_map pg_permission (filter (fun grant => pg_pattern grant = "*"%string) (ro_grants role)),
       acc.2 ∪ set_map everywhere (ro_permissions role) ∪ ro_grants role)
  | None => acc
  end.

Definition resolve_permissions (stored : StoredAuth) (user : UserRecord)
    : gset Permission * gset PermissionGrant :=
  foldl (add_role stored) (∅, ∅) (elements_in_order (ur_roles user)).

Definition verify (store : AuthStore) (username password : string) : result ServerError (option Identity) :=
  match sa_users (as_stored store) !! username with
  | None => Ok None
  | Some user =>
      if ur_disabled user then Ok None
      else
        matches ← password_matches user password;
        if negb matches then Ok None
        else
          let '(permissions, grants) := resolve_permissions (as_stored store) user in
          Ok (Some (mkIdentity username permissions grants))
  end.

Notation M := (fallible AuthStore ServerError).

Definition on_stored (f : StoredAuth -> StoredAuth) : M unit :=
  mmodify (fun store => store {{ as_stored ::= f }}).

Definition find_user (username : string) : M UserRecord :=
  store ← mget; mpure (ok_or (sa_users (as_stored store) !! username) (SrvUserNotFound username)).
Definition find_role (role : string) : M RoleRecord :=
  store ← mget; mpure (ok_or (sa_roles (as_stored store) !! role) (SrvRoleNotFound role)).

Definition put_user (username : string) (user : UserRecord) : M unit :=
  on_stored (fun stored => stored {{ sa_users ::= <[username := user]> }}).
Definition put_role (role : string) (record : RoleRecord) : M unit :=
  on_stored (fun stored => stored {{ sa_roles ::= <[role := record]> }}).

Definition create_user (i : AuthInputs) (username password : string) : M unit :=
  _ ← mpure (validate_password_policy password);
  store ← mget;
  if is_some (sa_users (as_stored store) !! username) then mfail (SrvUserAlreadyExists username)
  else
    hash ← mpure (hash_password (ai_salt i) password);
    _ ← put_user username (mkUserRecord hash ∅ false);
    save i.

Definition alter_user_password (i : AuthInputs) (username password : string) : M unit :=
  _ ← mpure (validate_password_policy password);
  user ← find_user username;
  hash ← mpure (hash_password (ai_salt i) password);
  _ ← put_user username (user {{ ur_password_hash := hash }});
  save i.

(** [admin_user_count() <= 1] and the user is an administrator. *)
Definition last_admin (stored : StoredAuth) (username : string) : bool :=
  Nat.leb (admin_user_count stored) 1 &&
  match sa_users stored !! username with Some user => is_admin user | None => false end.

Definition drop_user (i : AuthInputs) (username : string) : M unit :=
  _ ← find_user username;
  store ← mget;
  if last_admin (as_stored store) username then mfail SrvLastAdminUser
  else
    _ ← on_stored (fun stored => stored {{ sa_users ::= delete username }});
    save i.

Definition create_role (i : AuthInputs) (role : string) : M unit :=
  store ← mget;
  if is_some (sa_roles (as_stored store) !! role) then mfail (SrvRoleAlreadyExists role)
  else
    _ ← put_role role (mkRoleRecord ∅ ∅);
    save i.

Definition drop_role (i : AuthInputs) (role : string) : M unit :=
  if bool_decide (role = ADMIN_ROLE) then mfail (SrvProtectedRole role)
  else
    _ ← find_role role;
    _ ← on_stored (fun stored =>
          stored {{ sa_users ::= fmap (fun user => user {{ ur_roles ::= fun roles => roles ∖ {[role]} }});
                    sa_roles ::= delete role }});
    save i.

Definition grant_role (i : AuthInputs) (role username : string) : M unit :=
  _ ← find_role role;
  user ← find_user username;
  _ ← put_user username (user {{ ur_roles ::= fun roles => {[role]} ∪ roles }});
  save i.

Definition revoke_role (i : AuthInputs) (role username : string) : M unit :=
  store ← mget;
  if bool_decide (role = ADMIN_ROLE) && last_admin (as_stored store) username then mfail SrvLastAdminUser
  else
    user ← find_user username;
    _ ← put_user username (user {{ ur_roles ::= fun roles => roles ∖ {[role]} }});
    save i.

Definition grant_permission (i : AuthInputs) (permission : Permission) (pattern role : string) : M unit :=
  record ← find_role role;
  _ ← put_role role (record {{ ro_grants ::= fun grants => {[mkPermissionGrant permission pattern]} ∪ grants }});
  save i.

Definition revoke_permission (i : AuthInputs) (permission : Permission) (pattern role : string) : M unit :=
  if bool_decide (role = ADMIN_ROLE) && bool_decide (permission = PermAdmin) && bool_decide (pattern = "*"%string)
  then mfail (SrvProtectedRole role)
  else
    record ← find_role role;
    _ ← put_role role (record {{
          ro_grants ::= fun grants => grants ∖ {[mkPermissionGrant permission pattern]};
          ro_permissions ::= fun permissions =>
            if bool_decide (pattern = "*"%string) then permissions ∖ {[permission]} else permissions }});
    save i.

(** ** Listings *)

Definition roles_csv (user : UserRecord) : string := String.concat "," (elements_in_order (ur_roles user)).

Definition bool_text (b : bool) : string := if b then "true" else "false".

Definition users (store : AuthStore) : list (string * string) :=
  (fun '(username, user) =>
     (username, "roles=" +:+ roles_csv user +:+ " disabled=" +:+ bool_text (ur_disabled user))) <$>
  entries_in_order (sa_users (as_stored store)).

Definition roles (store : AuthStore) : list (string * string) :=
  (fun '(role, record) => (role, String.concat "," (role_grants record))) <$>
  entries_in_order (sa_roles (as_stored store)).

Definition grants_for_user (store : AuthStore) (username : string) : result ServerError (list (string * string)) :=
  user ← ok_or (sa_users (as_stored store) !! username) (SrvUserNotFound username);
  let grants := elements_in_order (ur_roles user) ≫= fun role =>
    match sa_roles (as_stored store) !! role with
    | Some record => (fun grant => "role=" +:+ role +:+ " " +:+ grant) <$> role_grants record
    | None => []
    end in
  Ok (merge_sort EngineStore.key_le
        (("user." +:+ username +:+ ".roles", roles_csv user) ::
         imap (fun index grant => ("user." +:+ username +:+ ".grant." +:+ three_digits index, grant)) grants)).

Definition grants_for_role (store : AuthStore) (role : string) : result ServerError (list (string * string)) :=
  record ← ok_or (sa_roles (as_stored store) !! role) (SrvRoleNotFound role);
  Ok (merge_sort EngineStore.key_le
        (imap (fun index grant => ("role." +:+ role +:+ ".grant." +:+ three_digits index, grant))
           (role_grants record))).

End operations.
End AuthStore.
