(* ===== verification/AuthFacts.v ===== *)
(** * AuthFacts: the store of users keeps an administrator

    The histories of a store over its operations, failed saves and restarts, and the
    invariant that there is an administrator; what a login resolves to. *)

From S2P Require Import Prelude Text EngineError Store Crypto ServerError Consensus Auth.

(** ** Administrators *)

Definition admin_entry (entry : string * UserRecord) : bool :=
  negb (ur_disabled entry.2) && is_admin entry.2.

(** The role of administrators has every permission. *)
Definition admin_role_ok (role : RoleRecord) : Prop :=
  PermAdmin ∈ ro_permissions role \/ everywhere PermAdmin ∈ ro_grants role.

Record administered `{PasswordHash} (stored : StoredAuth) : Prop := {
  ad_user : exists entry, sa_users stored !! entry.1 = Some entry.2 /\ admin_entry entry = true;
  ad_role : exists role, sa_roles stored !! ADMIN_ROLE = Some role /\ admin_role_ok role;
  ad_hashed : map_Forall (fun _ user => exists salt password,
    ph_hash salt password = Some (ur_password_hash user)) (sa_users stored);
}.

Lemma filter_snd {A B} (f : B -> bool) (l : list (A * B)) :
  List.filter f l.*2 = (List.filter (fun e => f e.2) l).*2.
Proof. induction l as [|[a b] l IH]; [done|]. cbn. rewrite IH. by destruct (f b). Qed.

(** An administrator who is not the last one has a colleague. *)
Lemma not_last_admin (stored : StoredAuth) username :
  (exists entry, sa_users stored !! entry.1 = Some entry.2 /\ admin_entry entry = true) ->
  AuthStore.last_admin stored username = false ->
  exists entry, sa_users stored !! entry.1 = Some entry.2 /\ admin_entry entry = true /\ entry.1 <> username.
Proof.
  intros (entry & He & Ha). unfold AuthStore.last_admin. rewrite andb_false_iff. intros [Hc|Hn].
  - apply Nat.leb_gt in Hc. unfold admin_user_count, values_in_order in Hc.
    rewrite (filter_snd (fun user => negb (ur_disabled user) && is_admin user)), length_fmap in Hc.
    fold admin_entry in Hc.
    assert (NoDup (List.filter admin_entry (entries_in_order (sa_users stored))).*1) as Hd.
    { pose proof (entries_in_order_NoDup (sa_users stored)) as Hd. revert Hd.
      generalize (entries_in_order (sa_users stored)). clear. intros l. induction l as [|e l IH]; [done|].
      cbn. intros [Hn Hd]%NoDup_cons. destruct (admin_entry e); [|by apply IH].
      cbn. constructor; [|by apply IH]. intros (x & Hxe & Hx)%list_elem_of_fmap.
      apply Hn, list_elem_of_fmap. exists x. split; [done|].
      apply list_elem_of_In, filter_In in Hx as [Hx _]. by apply list_elem_of_In. }
    assert (forall e, e ∈ List.filter admin_entry (entries_in_order (sa_users stored)) ->
              sa_users stored !! e.1 = Some e.2 /\ admin_entry e = true) as Hin.
    { intros [u user] Hx%list_elem_of_In. apply filter_In in Hx as [Hx Hy]. split; [|done].
      by apply entries_in_order_elem, list_elem_of_In. }
    destruct (List.filter admin_entry _) as [|e1 [|e2 rest]]; cbn in Hc; [lia..|].
    apply NoDup_cons in Hd as [Hne _].
    assert (e1.1 <> e2.1) as Hd by (intros Heq; apply Hne; rewrite Heq; left).
    destruct (decide (e1.1 = username)) as [He1|He1].
    + exists e2. destruct (Hin e2 ltac:(right; left)). split_and!; congruence.
    + exists e1. by destruct (Hin e1 ltac:(left)).
  - exists entry. split_and!; [done..|]. intros <-. rewrite He in Hn.
    unfold admin_entry in Ha. by rewrite Hn, andb_false_r in Ha.
Qed.

Section facts.
Context `{Crc32} `{CryptoLib} `{PasswordHash} `{AuthJson}.

(** ** Operations keep an administrator *)

Section updates.
Context (stored : StoredAuth) (Had : administered stored).

(** Another user record with a hash; it may only lose the role of administrators
    when a colleague has it. *)
Lemma administered_put_user username user :
  (exists salt password, ph_hash salt password = Some (ur_password_hash user)) ->
  (forall old, sa_users stored !! username = Some old -> ur_disabled user = ur_disabled old) ->
  (forall old, sa_users stored !! username = Some old -> is_admin old = true ->
     is_admin user = true \/ AuthStore.last_admin stored username = false) ->
  administered (stored {{ sa_users ::= <[username := user]> }}).
Proof.
  intros Hh Hd Hkeep. destruct Had as [Hu Hr Ha]. destruct stored as [v us rs b]. cbn in *.
  constructor; cbn; [|done|apply map_Forall_insert_2; [done|exact Ha]].
  pose proof Hu as ([u old] & Ho & Hae). cbn in Ho. unfold admin_entry in Hae. cbn in Hae.
  apply andb_prop in Hae as [Hdis Hadm].
  destruct (decide (u = username)) as [->|Hne].
  - destruct (Hkeep old Ho Hadm) as [Hnew|Hlast].
    + exists (username, user). cbn. rewrite lookup_insert_eq. unfold admin_entry. cbn.
      rewrite (Hd old Ho), Hdis, Hnew. done.
    + destruct (not_last_admin (mkStoredAuth v us rs b) _ Hu Hlast) as (e & He & Hae & Hne).
      exists e. cbn in *. by rewrite lookup_insert_ne.
  - exists (u, old). cbn. rewrite lookup_insert_ne by done. unfold admin_entry. cbn. by rewrite Hdis, Hadm.
Qed.

Lemma administered_put_role role record :
  (role = ADMIN_ROLE -> admin_role_ok record) ->
  administered (stored {{ sa_roles ::= <[role := record]> }}).
Proof.
  intros Hrole. destruct Had as [Hu (r & Hr & Hok) Ha]. destruct stored as [v us rs b]. cbn in *.
  constructor; cbn; [done| |done].
  destruct (decide (role = ADMIN_ROLE)) as [->|Hne].
  - exists record. rewrite lookup_insert_eq. auto.
  - exists r. by rewrite lookup_insert_ne.
Qed.

Lemma administered_drop_user username :
  AuthStore.last_admin stored username = false ->
  administered (stored {{ sa_users ::= delete username }}).
Proof.
  intros Hlast. destruct Had as [Hu Hr Ha]. destruct (not_last_admin _ _ Hu Hlast) as (e & He & Hae & Hne).
  destruct stored as [v us rs b]. cbn in *. constructor; cbn; [|done|by apply map_Forall_delete].
  exists e. cbn. by rewrite lookup_delete_ne.
Qed.

Lemma administered_drop_role role :
  role <> ADMIN_ROLE ->
  administered (stored {{ sa_users ::= fmap (fun user => user {{ ur_roles ::= fun roles => roles ∖ {[role]} }});
                          sa_roles ::= delete role }}).
Proof.
  intros Hne. destruct Had as [(e & He & Hae) (r & Hr & Hok) Ha]. destruct stored as [v us rs b]. cbn in *.
  constructor; cbn.
  - exists (e.1, e.2 {{ ur_roles ::= fun roles => roles ∖ {[role]} }}). cbn. rewrite lookup_fmap, He.
    split; [done|]. destruct e as [u [h ro d]]. unfold admin_entry, is_admin in *. cbn in *.
    apply andb_prop in Hae as [-> Hro%bool_decide_eq_true]. apply bool_decide_eq_true. set_solver.
  - exists r. by rewrite lookup_delete_ne.
  - intros u user. rewrite lookup_fmap. intros (old & Ho & ->)%fmap_Some. destruct (Ha _ _ Ho) as (s & p & Hh).
    exists s, p. by destruct old.
Qed.

End updates.

(** ** Histories of a store *)

(** The operations of clients. *)
Inductive auth_operation : fallible AuthStore ServerError unit -> Prop :=
| OpCreateUser i username password :
    length (ai_nonce i) = NONCE_LEN -> auth_operation (AuthStore.create_user i username password)
| OpAlterUserPassword i username password :
    length (ai_nonce i) = NONCE_LEN -> auth_operation (AuthStore.alter_user_password i username password)
| OpDropUser i username :
    length (ai_nonce i) = NONCE_LEN -> auth_operation (AuthStore.drop_user i username)
| OpCreateRole i role :
    length (ai_nonce i) = NONCE_LEN -> auth_operation (AuthStore.create_role i role)
| OpDropRole i role :
    length (ai_nonce i) = NONCE_LEN -> auth_operation (AuthStore.drop_role i role)
| OpGrantRole i role username :
    length (ai_nonce i) = NONCE_LEN -> auth_operation (AuthStore.grant_role i role username)
| OpRevokeRole i role username :
    length (ai_nonce i) = NONCE_LEN -> auth_operation (AuthStore.revoke_role i role username)
| OpGrantPermission i permission pattern role :
    length (ai_nonce i) = NONCE_LEN -> auth_operation (AuthStore.grant_permission i permission pattern role)
| OpRevokePermission i permission pattern role :
    length (ai_nonce i) = NONCE_LEN -> auth_operation (AuthStore.revoke_permission i permission pattern role).

(** A store from its first start on, with operations that succeed or fail, saves that
    fail before or after the file was replaced, and restarts from the file, with the
    same or another configured administrator. *)
Inductive auth_history (keyring : StorageKeyring) : AuthStore -> Prop :=
| AuthInMemory i username password store :
    auth_new i username password = Ok store -> auth_history keyring store
| AuthFirstStart i username password file store :
    length (ai_nonce i) = NONCE_LEN ->
    load_or_bootstrap i keyring username password None None = (file, Ok store) -> auth_history keyring store
| AuthOperation store m :
    auth_history keyring store -> auth_operation m -> auth_history keyring (m store).1
| AuthRestart store i username password bytes file store' :
    auth_history keyring store -> as_file store = Some bytes -> Z.of_nat (length bytes) <= u32_max ->
    length (ai_nonce i) = NONCE_LEN ->
    load_or_bootstrap i keyring username password None (Some bytes) = (file, Ok store') ->
    auth_history keyring store'.

(** A file that was written from a store with an administrator. *)
Definition written (keyring : StorageKeyring) (bytes : list byte) : Prop :=
  exists stored nonce json, administered stored /\ length nonce = NONCE_LEN /\
    auth_to_json stored = Ok json /\ encrypt (kr_active keyring) AUTH_RESOURCE nonce json = Ok bytes.

Record kept (keyring : StorageKeyring) (store : AuthStore) : Prop := {
  kp_stored : administered (as_stored store);
  kp_keyring : as_persist store = None \/ as_persist store = Some keyring;
  kp_file bytes : as_file store = Some bytes -> written keyring bytes;
}.

(** Only the permission of administrators itself is protected, and it is enough. *)
Lemma revoked_role_ok permission pattern role :
  bool_decide (ADMIN_ROLE = ADMIN_ROLE) && bool_decide (permission = PermAdmin) &&
    bool_decide (pattern = "*"%string) = false ->
  admin_role_ok role ->
  admin_role_ok (mkRoleRecord
    (if bool_decide (pattern = "*"%string) then ro_permissions role ∖ {[permission]} else ro_permissions role)
    (ro_grants role ∖ {[mkPermissionGrant permission pattern]})).
Proof.
  rewrite bool_decide_eq_true_2 by done. unfold admin_role_ok, everywhere. cbn.
  intros [Hp%bool_decide_eq_false|Hp%bool_decide_eq_false]%andb_false_iff Hok;
    repeat case_bool_decide; try done; set_solver.
Qed.

Lemma save_keeps keyring i store :
  length (ai_nonce i) = NONCE_LEN -> kept keyring store ->
  kept keyring (save i store).1 /\ as_stored (save i store).1 = as_stored store.
Proof.
  intros Hn Hkept. unfold save, save_store. run_fallible. cbn.
  destruct store as [stored [kr|] file]; cbn; [|done].
  destruct (kp_keyring _ _ Hkept) as [|[= ->]]; [done|].
  destruct (auth_to_json stored) as [json|] eqn:Ej; cbn; [|done].
  destruct (encrypt _ _ _ _) as [bytes|] eqn:Ee; cbn; [|done].
  assert (kept keyring (mkAuthStore stored (Some keyring) (Some bytes))) as Hw.
  { split; cbn; [apply Hkept|by right|]. intros ? [= <-]. exists stored, (ai_nonce i), json. by destruct Hkept. }
  destruct (ai_io i) as [|[] ?]; cbn; done.
Qed.

Lemma update_keeps keyring i stored stored' persist file :
  length (ai_nonce i) = NONCE_LEN -> kept keyring (mkAuthStore stored persist file) -> administered stored' ->
  kept keyring (save i (mkAuthStore stored' persist file)).1.
Proof. intros Hn [Hs Hk Hf] Ha. apply save_keeps; [done|]. by split. Qed.

Lemma operation_keeps keyring store m :
  kept keyring store -> auth_operation m -> kept keyring (m store).1.
Proof.
  intros Hk Hop. pose proof (kp_stored _ _ Hk) as Ha.
  destruct store as [[v us rs b] persist file]. cbn in Ha.
  pose proof (ad_hashed _ Ha) as Hhash. destruct (ad_role _ Ha) as (admin & Hadmin & Hok). cbn in Hhash, Hadmin.
  destruct Hop as [i u p Hn|i u p Hn|i u Hn|i r Hn|i r Hn|i r u Hn|i r u Hn|i p pat r Hn|i p pat r Hn];
    pose proof (fun stored' => update_keeps keyring i _ stored' _ _ Hn Hk) as Hup.
  - unfold AuthStore.create_user. run_fallible.
    destruct (validate_password_policy p); [|done]. cbn -[save].
    destruct (us !! u) as [old|] eqn:Hu; cbn -[save]; [done|].
    unfold hash_password. destruct (ph_hash _ p) as [hash|] eqn:Hh; cbn -[save]; [|done].
    apply Hup, (administered_put_user _ Ha); [by eauto|cbn; by rewrite Hu..].
  - unfold AuthStore.alter_user_password, AuthStore.find_user. run_fallible.
    destruct (validate_password_policy p); [|done]. cbn -[save].
    destruct (us !! u) as [old|] eqn:Hu; cbn -[save]; [|done].
    unfold hash_password. destruct (ph_hash _ p) as [hash|] eqn:Hh; cbn -[save]; [|done].
    apply Hup, (administered_put_user _ Ha); [by eauto|cbn; rewrite Hu; intros ? [= <-]..]; destruct old; by try left.
  - unfold AuthStore.drop_user, AuthStore.find_user. run_fallible. cbn -[save AuthStore.last_admin].
    destruct (us !! u); cbn -[save AuthStore.last_admin]; [|done].
    destruct (AuthStore.last_admin _ _) eqn:Hl; [done|]. by apply Hup, (administered_drop_user _ Ha).
  - unfold AuthStore.create_role. run_fallible. cbn -[save].
    destruct (rs !! r) eqn:Hr; cbn -[save]; [done|].
    apply Hup, (administered_put_role _ Ha). intros ->. congruence.
  - unfold AuthStore.drop_role, AuthStore.find_role. case_bool_decide as Hr; [done|]. run_fallible. cbn -[save].
    destruct (rs !! r); cbn -[save]; [|done]. by apply Hup, (administered_drop_role _ Ha).
  - unfold AuthStore.grant_role, AuthStore.find_role, AuthStore.find_user. run_fallible. cbn -[save].
    destruct (rs !! r); cbn -[save]; [|done].
    destruct (us !! u) as [old|] eqn:Hu; cbn -[save]; [|done].
    apply Hup, (administered_put_user _ Ha); [exact (Hhash _ _ Hu)|cbn; rewrite Hu; intros ? [= <-]..].
    + done.
    + unfold is_admin. cbn. rewrite !bool_decide_eq_true. left. set_solver.
  - unfold AuthStore.revoke_role, AuthStore.find_user. run_fallible. cbn -[save AuthStore.last_admin].
    destruct (bool_decide (r = ADMIN_ROLE) && _) eqn:Hl; [done|]. cbn -[save].
    destruct (us !! u) as [old|] eqn:Hu; cbn -[save]; [|done].
    apply Hup, (administered_put_user _ Ha); [exact (Hhash _ _ Hu)|cbn; rewrite Hu; intros ? [= <-]..].
    + done.
    + apply andb_false_iff in Hl as [Hr%bool_decide_eq_false|Hl]; [|by right].
      unfold is_admin. cbn. rewrite !bool_decide_eq_true. left. set_solver.
  - unfold AuthStore.grant_permission, AuthStore.find_role. run_fallible. cbn -[save].
    destruct (rs !! r) as [old|] eqn:Hr; cbn -[save]; [|done].
    apply Hup, (administered_put_role _ Ha). intros ->. unfold admin_role_ok in *. cbn. set_solver.
  - unfold AuthStore.revoke_permission, AuthStore.find_role.
    destruct (_ && _) eqn:Hp; [done|]. run_fallible. cbn -[save].
    destruct (rs !! r) as [old|] eqn:Hr; cbn -[save]; [|done].
    apply Hup, (administered_put_role _ Ha). intros ->. by eapply revoked_role_ok; [|congruence].
Qed.

(** ** Starting a server *)

(** The configured administrator is there. *)
Record configured (username : string) (user : UserRecord) (stored : StoredAuth) : Prop := {
  cf_user : sa_users stored !! username = Some user;
  cf_admin : admin_entry (username, user) = true;
  cf_role : exists role, sa_roles stored !! ADMIN_ROLE = Some role /\ admin_role_ok role;
  cf_hashed : map_Forall (fun _ user => exists salt password,
    ph_hash salt password = Some (ur_password_hash user)) (sa_users stored);
}.

Lemma configured_administered username user stored : configured username user stored -> administered stored.
Proof. intros [Hu Ha Hr Hh]. split; [by exists (username, user)|done..]. Qed.

Lemma remove_admin_configured username user other stored :
  other <> username -> configured username user stored ->
  configured username user (remove_admin_user_if_present other stored).
Proof.
  intros Hne Hc. unfold remove_admin_user_if_present.
  destruct (sa_users stored !! other) as [old|]; [|done]. destruct (is_admin old); [|done].
  destruct stored as [v us rs b], Hc as [Hu Ha Hr Hh]. cbn in *.
  split; cbn; [by rewrite lookup_delete_ne|done..|by apply map_Forall_delete].
Qed.

Lemma retire_previous_configured username user previous stored :
  configured username user stored ->
  configured username user (retire_previous_bootstrap_admin previous username stored).
Proof.
  intros Hc. destruct previous as [previous|]; cbn; [|done]. case_bool_decide; [done|].
  by apply remove_admin_configured.
Qed.

Lemma retire_default_configured username user stored stored' :
  configured username user stored ->
  retire_legacy_default_bootstrap_user username stored = Ok stored' -> configured username user stored'.
Proof.
  intros Hc. unfold retire_legacy_default_bootstrap_user. case_bool_decide as Hd; [by intros [= <-]|].
  destruct (sa_users stored !! _) as [old|]; [|by intros [= <-]].
  destruct (is_admin old).
  - intros [= <-]. apply remove_admin_configured; congruence.
  - intros (matches & _ & [= <-])%result_bind_ok. destruct matches; [|done].
    apply remove_admin_configured; congruence.
Qed.

Lemma admin_role_record_ok : admin_role_ok admin_role_record.
Proof. left. cbn. set_solver. Qed.

Lemma bootstrap_configured i username password stored :
  bootstrap_store i username password = Ok stored ->
  exists hash, ph_hash (ai_salt i) password = Some hash /\
    configured username (mkUserRecord hash {[ADMIN_ROLE]} false) stored.
Proof.
  unfold bootstrap_store, hash_password. destruct (ph_hash _ _) as [hash|] eqn:Hh; [|done].
  intros [= <-]. exists hash. split; [done|]. split; cbn.
  - by rewrite lookup_singleton_eq.
  - done.
  - exists admin_role_record. split; [apply lookup_insert_eq|apply admin_role_record_ok].
  - intros u user [<- <-]%lookup_singleton_Some. by eauto.
Qed.

Lemma ensure_admin_role_ok stored :
  exists role, sa_roles (ensure_admin_role stored) !! ADMIN_ROLE = Some role /\ admin_role_ok role.
Proof.
  destruct stored as [v us rs b]. unfold ensure_admin_role. cbn. rewrite lookup_insert_eq.
  eexists. split; [done|]. left. cbn. set_solver.
Qed.

Lemma ensured_configured username hash roles salt password stored :
  administered stored -> ph_hash salt password = Some hash ->
  configured username (mkUserRecord hash ({[ADMIN_ROLE]} ∪ roles) false)
    ((ensure_admin_role stored)
       {{ sa_users ::= <[username := mkUserRecord hash ({[ADMIN_ROLE]} ∪ roles) false]> }}).
Proof.
  intros [_ _ Hh] Hp. pose proof (ensure_admin_role_ok stored) as Hr.
  destruct stored as [v us rs b]. split; cbn.
  - by rewrite lookup_insert_eq.
  - unfold admin_entry, is_admin. cbn. apply bool_decide_eq_true. set_solver.
  - exact Hr.
  - apply map_Forall_insert_2; [by eauto|exact Hh].
Qed.

Lemma configured_version username user stored bootstrap version :
  configured username user stored ->
  configured username user (stored {{ sa_bootstrap_admin := bootstrap; sa_version := version }}).
Proof. intros [Hu Ha Hr Hh]. by destruct stored. Qed.

Lemma reconcile_configured i username password stored stored' :
  administered stored ->
  reconcile_configured_bootstrap_admin i username password stored = Ok stored' ->
  administered stored' /\
  (username <> DEFAULT_USERNAME \/ password <> DEFAULT_PASSWORD ->
   exists hash roles, ph_hash (ai_salt i) password = Some hash /\
     configured username (mkUserRecord hash ({[ADMIN_ROLE]} ∪ roles) false) stored').
Proof.
  intros Ha. unfold reconcile_configured_bootstrap_admin. destruct (_ && _) eqn:Hd.
  { intros [= <-]. split; [by destruct stored, Ha|].
    apply andb_prop in Hd as [->%bool_decide_eq_true ->%bool_decide_eq_true]. tauto. }
  unfold hash_password. destruct (ph_hash (ai_salt i) password) as [hash|] eqn:Hh; [|done].
  intros (? & [= <-] & (stored1 & Hr & [= <-])%result_bind_ok)%result_bind_ok.
  set (user := mkUserRecord hash _ false) in Hr.
  assert (configured username user stored1) as Hc.
  { eapply retire_default_configured; [|exact Hr].
    destruct (sa_bootstrap_admin stored); repeat apply retire_previous_configured; by eapply ensured_configured. }
  apply (configured_version username user _ (Some username) AUTH_FORMAT_VERSION) in Hc.
  split; [by eapply configured_administered|]. intros _. by exists hash, (default ∅ (ur_roles <$> sa_users stored !! username)).
Qed.

(** What a file that was written is read as. *)
Lemma load_written keyring bytes loaded :
  length (sk_id (kr_active keyring)) = 16%nat -> written keyring bytes -> Z.of_nat (length bytes) <= u32_max ->
  load_store keyring (Ok (Some bytes)) = Ok loaded -> exists stored, loaded = Some stored /\ administered stored.
Proof.
  intros Hid (stored & nonce & json & Ha & Hn & Hj & He) Hlen. unfold load_store.
  rewrite (decrypt_encrypt keyring (kr_active keyring) AUTH_RESOURCE nonce json bytes); try done.
  - cbn. rewrite (auth_from_to _ _ Hj). cbn. destruct (in_range _ _ _); [|done]. intros [= <-]. by eauto.
  - unfold keyring_get. by rewrite bool_decide_eq_true_2.
Qed.

Lemma load_or_bootstrap_keeps keyring i username password file file' store :
  length (sk_id (kr_active keyring)) = 16%nat -> length (ai_nonce i) = NONCE_LEN ->
  (forall bytes, file = Some bytes -> written keyring bytes /\ Z.of_nat (length bytes) <= u32_max) ->
  load_or_bootstrap i keyring username password None file = (file', Ok store) ->
  kept keyring store /\
  (username <> DEFAULT_USERNAME \/ password <> DEFAULT_PASSWORD ->
   exists hash roles, ph_hash (ai_salt i) password = Some hash /\
     configured username (mkUserRecord hash ({[ADMIN_ROLE]} ∪ roles) false) (as_stored store)).
Proof.
  intros Hid Hn Hf (s1 & s2 & [= <- <-] & (s3 & loaded & [= <- Hl] & (s4 & stored & [= <- Hs] & Hx)%fallible_bind_ok)
    %fallible_bind_ok)%fallible_bind_ok.
  assert (administered stored /\ (username <> DEFAULT_USERNAME \/ password <> DEFAULT_PASSWORD ->
    exists hash roles, ph_hash (ai_salt i) password = Some hash /\
      configured username (mkUserRecord hash ({[ADMIN_ROLE]} ∪ roles) false) stored)) as [Ha Hc].
  { destruct file as [bytes|].
    - destruct (Hf bytes eq_refl) as [Hw Hlen].
      destruct (load_written _ _ _ Hid Hw Hlen Hl) as (old & -> & Hold). by eapply reconcile_configured.
    - injection Hl as <-. destruct (bootstrap_configured _ _ _ _ Hs) as (hash & Hh & Hc).
      split; [by eapply configured_administered|]. intros _. exists hash, ∅. by rewrite (right_id_L ∅ (∪)). }
  assert (kept keyring (mkAuthStore stored (Some keyring) file)) as Hk.
  { split; cbn; [done|by right|]. intros bytes Hb. by apply Hf. }
  pose proof (save_keeps keyring i _ Hn Hk) as [Hk' Hst].
  destruct (save i _) as [store1 saved]. cbn in Hk', Hst.
  apply fallible_bind_ok in Hx as (? & [] & [= <-] & Hx).
  apply fallible_bind_ok in Hx as (? & [] & [= <- ->] & [= <- <-]). by rewrite Hst.
Qed.

Lemma history_keeps keyring store :
  length (sk_id (kr_active keyring)) = 16%nat -> auth_history keyring store -> kept keyring store.
Proof.
  intros Hid. induction 1 as [i u p store Hnew|i u p file store Hn Hl|store m _ IH Hop|store i u p bytes file store' _ IH Hf Hlen Hn Hl].
  - apply result_bind_ok in Hnew as (stored & Hb & [= <-]).
    destruct (bootstrap_configured _ _ _ _ Hb) as (hash & _ & Hc%configured_administered). by split; [|left|].
  - by eapply load_or_bootstrap_keeps in Hl as [Hk _].
  - by apply operation_keeps.
  - eapply load_or_bootstrap_keeps in Hl as [Hk _]; [done..|].
    intros ? [= <-]. split; [|done]. by apply (kp_file _ _ IH).
Qed.

(** ** Logins *)

Definition role_gives (stored : StoredAuth) (name : string) (p : Permission) : Prop :=
  exists role, sa_roles stored !! name = Some role /\
    (p ∈ ro_permissions role \/ everywhere p ∈ ro_grants role).
Definition role_grants_to (stored : StoredAuth) (name : string) (g : PermissionGrant) : Prop :=
  exists role, sa_roles stored !! name = Some role /\
    (g ∈ ro_grants role \/ exists p, p ∈ ro_permissions role /\ g = everywhere p).

Lemma add_role_spec stored acc name :
  (forall p, p ∈ (AuthStore.add_role stored acc name).1 <-> p ∈ acc.1 \/ role_gives stored name p) /\
  (forall g, g ∈ (AuthStore.add_role stored acc name).2 <-> g ∈ acc.2 \/ role_grants_to stored name g).
Proof.
  unfold AuthStore.add_role, role_gives, role_grants_to.
  destruct (sa_roles stored !! name) as [role|]; cbn; [|split; intros; naive_solver].
  split; [intros p|intros g]; rewrite !elem_of_union, elem_of_map.
  - setoid_rewrite elem_of_filter. unfold everywhere. split.
    + intros [[?|?]|([q pat] & -> & [Hp Hg])]; cbn in *; subst; naive_solver.
    + intros [?|(r & [= <-] & [?|?])]; [by auto..|]. right. by exists (mkPermissionGrant p "*").
  - naive_solver.
Qed.

(** The permissions and grants of a user are those of the roles. *)
Lemma resolve_permissions_spec stored user :
  (forall p, p ∈ (AuthStore.resolve_permissions stored user).1 <->
     exists name, name ∈ ur_roles user /\ role_gives stored name p) /\
  (forall g, g ∈ (AuthStore.resolve_permissions stored user).2 <->
     exists name, name ∈ ur_roles user /\ role_grants_to stored name g).
Proof.
  unfold AuthStore.resolve_permissions. setoid_rewrite <- elements_in_order_elem.
  generalize (elements_in_order (ur_roles user)) as names. intros names.
  assert (forall acc,
    (forall p, p ∈ (foldl (AuthStore.add_role stored) acc names).1 <->
       p ∈ acc.1 \/ exists name, name ∈ names /\ role_gives stored name p) /\
    (forall g, g ∈ (foldl (AuthStore.add_role stored) acc names).2 <->
       g ∈ acc.2 \/ exists name, name ∈ names /\ role_grants_to stored name g)) as Hf.
  { induction names as [|name names IH]; intros acc; cbn; [set_solver|].
    destruct (IH (AuthStore.add_role stored acc name)) as [IHp IHg], (add_role_spec stored acc name) as [Hp Hg].
    split; [intros p; rewrite IHp, Hp|intros g; rewrite IHg, Hg]; set_solver. }
  destruct (Hf (∅, ∅)) as [Hp Hg]. split; [intros p; rewrite Hp|intros g; rewrite Hg]; set_solver.
Qed.

End facts.
