(* ===== verification/Access.v ===== *)
(** * Access: what a session may do (crates/server/src/server/authorization.rs,
    validation.rs, session.rs, config.rs; crates/server/src/runtime_state.rs)

    The permission, the keys and the pattern of each command, the size limits of
    requests, maintenance mode, the rate limiter of a connection, and the lockouts
    after failed logins.  The [f64] of the rate limiter are the IEEE 754 numbers of the
    standard library. *)

From Stdlib Require SpecFloat.

From S2P Require Import Prelude Text Command EngineError Store Opcode Wire Request ServerError.
From S2P Require Import Consensus Auth.

(** ** Sessions *)

Record SessionState := mkSessionState {
  se_identity : option Identity;
  se_transaction_queue : list Command;
  se_transaction_started_at_ms : option Z;
}.

Definition new_session : SessionState := mkSessionState None [] None.
Definition is_authenticated (s : SessionState) : bool := is_some (se_identity s).
Definition in_transaction (s : SessionState) : bool :=
  match se_transaction_queue s with [] => false | _ => true end.

(** ** The rate limiter (session.rs) *)

(** [f64], with the operations that are used. *)
Module F64.

Notation t := SpecFloat.spec_float.
Definition of_int (n : Z) : t := SpecFloat.binary_normalize 53 1024 n 0 false.
Definition add : t -> t -> t := SpecFloat.SFadd 53 1024.
Definition sub : t -> t -> t := SpecFloat.SFsub 53 1024.
Definition mul : t -> t -> t := SpecFloat.SFmul 53 1024.
Definition div : t -> t -> t := SpecFloat.SFdiv 53 1024.
Definition ltb : t -> t -> bool := SpecFloat.SFltb.

(** [a.min(b)]: the other one when one of them is not a number. *)
Definition min (a b : t) : t :=
  match a, b with
  | SpecFloat.S754_nan, _ => b
  | _, SpecFloat.S754_nan => a
  | _, _ => if ltb b a then b else a
  end.

(** [as_secs_f64] of a duration in nanoseconds. *)
Definition as_secs (duration : Z) : t :=
  add (of_int (duration / 1000000000)) (div (of_int (duration mod 1000000000)) (of_int 1000000000)).

End F64.

Record RateLimiter := mkRateLimiter {
  rl_capacity : F64.t;
  rl_tokens : F64.t;
  rl_refill_per_second : F64.t;
  rl_last : Z;
}.

Module RateLimiter.

(** Instants are in nanoseconds. *)
Definition new (now requests_per_second burst : Z) : RateLimiter :=
  mkRateLimiter (F64.of_int burst) (F64.of_int burst) (F64.of_int requests_per_second) now.

(** A duration that would be negative is 0. *)
Definition allow (now : Z) (l : RateLimiter) : RateLimiter * bool :=
  let elapsed := F64.as_secs (Z.max (now - rl_last l) 0) in
  let tokens := F64.min (F64.add (rl_tokens l) (F64.mul elapsed (rl_refill_per_second l))) (rl_capacity l) in
  if F64.ltb tokens (F64.of_int 1) then
    (mkRateLimiter (rl_capacity l) tokens (rl_refill_per_second l) now, false)
  else
    (mkRateLimiter (rl_capacity l) (F64.sub tokens (F64.of_int 1)) (rl_refill_per_second l) now, true).

End RateLimiter.

(** ** Authorization (authorization.rs) *)

Definition is_allowed_during_maintenance (command : Command) : bool :=
  match command with
  | CmdPing _ | CmdGet _ | CmdExists _ | CmdGetEx _ _ _ | CmdMGet _ | CmdTtl _ | CmdScan _ _ _
  | CmdDbSize | CmdCount | CmdList | CmdInfo | CmdMetrics | CmdMetricsProm | CmdBackup
  | CmdBackupVerify _ | CmdBackupVerifyFrom _ | CmdShowUsers | CmdShowRoles | CmdShowGrants
  | CmdShowGrantsForUser _ | CmdShowGrantsForRole _ | CmdWhoAmI | CmdMaintenanceStatus
  | CmdMaintenanceOff | CmdHealth | CmdShowReplication => true
  | _ => false
  end.

Definition command_permission (command : Command) : option Permission :=
  match command with
  | CmdPing _ | CmdAuth _ _ | CmdMulti | CmdExec | CmdDiscard | CmdMaintenanceStatus | CmdHealth
  | CmdWhoAmI => None
  | CmdGet _ | CmdExists _ | CmdMGet _ | CmdTtl _ | CmdScan _ _ _ | CmdDbSize | CmdCount
  | CmdList => Some PermRead
  | CmdClear => Some PermClear
  | CmdGetDel _ | CmdGetEx _ _ _ | CmdSet _ _ _ | CmdSetNx _ _ | CmdMSet _ | CmdDelete _
  | CmdIncr _ | CmdDecr _ | CmdExpire _ _ | CmdPersist _ | CmdRename _ _ | CmdRenameNx _ _ =>
      Some PermWrite
  | CmdInfo | CmdMetrics | CmdMetricsProm => Some PermMetrics
  | CmdSave | CmdSnapshot => Some PermSnapshot
  | CmdBackup | CmdBackupTo _ | CmdBackupVerify _ | CmdBackupVerifyFrom _ => Some PermBackup
  | CmdRestore _ | CmdRestoreFrom _ | CmdRestoreCheck _ | CmdRestoreCheckFrom _ => Some PermRestore
  | CmdCreateUser _ _ | CmdAlterUserPassword _ _ | CmdDropUser _ => Some PermUserAdmin
  | CmdCreateRole _ | CmdDropRole _ | CmdGrantRole _ _ | CmdRevokeRole _ _
  | CmdGrantPermission _ _ _ | CmdRevokePermission _ _ _ | CmdShowRoles => Some PermRoleAdmin
  | CmdShowGrants => None
  | CmdShowGrantsForUser _ => Some PermUserAdmin
  | CmdShowGrantsForRole _ => Some PermRoleAdmin
  | CmdShowUsers => Some PermUserAdmin
  | CmdMaintenanceOn | CmdMaintenanceOff => Some PermAdmin
  | CmdShowReplication | CmdShowCluster | CmdPromoteFollower | CmdPauseReplication
  | CmdResumeReplication | CmdClusterJoin _ _ | CmdClusterRemove _ => Some PermAdmin
  | CmdHelp | CmdExit => None
  end.

Definition command_keys (command : Command) : list string :=
  match command with
  | CmdGet key | CmdGetDel key | CmdGetEx key _ _ | CmdSet key _ _ | CmdSetNx key _ | CmdExists key
  | CmdIncr key | CmdDecr key | CmdExpire key _ | CmdTtl key | CmdPersist key => [key]
  | CmdMGet keys | CmdDelete keys => keys
  | CmdMSet entries => entries.*1
  | CmdRename source destination | CmdRenameNx source destination => [source; destination]
  | _ => []
  end.

Definition command_pattern (command : Command) : option string :=
  match command with
  | CmdScan _ pattern _ => Some (default "*"%string pattern)
  | _ => None
  end.

Definition authorize_command (command : Command) (session : SessionState) : result ServerError unit :=
  match command_permission command with
  | None => Ok tt
  | Some permission =>
      match se_identity session with
      | None => Err SrvAuthenticationRequired
      | Some identity =>
          let allowed :=
            match command_keys command with
            | [] =>
                match command_pattern command with
                | Some pattern => Identity.allows_pattern identity permission pattern
                | None => Identity.has identity permission
                end
            | keys => forallb (Identity.allows_key identity permission) keys
            end in
          if allowed then Ok tt else Err SrvPermissionDenied
      end
  end.

(** ** Size limits (validation.rs) *)

Record ServerGuards := mkServerGuards {
  sg_max_request_payload_bytes : Z;
  sg_max_key_bytes : Z;
  sg_max_value_bytes : Z;
  sg_max_keys_per_batch : Z;
  sg_max_transaction_queue_len : Z;
  sg_requests_per_second : Z;
  sg_request_burst : Z;
}.

Definition is_internal_replication_opcode (opcode : Opcode) : bool :=
  match opcode with
  | OpReplicationStatus | OpReplicationSnapshot | OpReplicationFetch | OpReplicationAck
  | OpReplicationAppend | OpReplicationInstallSnapshot | OpReplicationVote
  | OpReplicationHeartbeat => true
  | _ => false
  end.

Definition within_limit (len limit : Z) : result ServerError unit :=
  if limit <? len then Err SrvQuotaExceeded else Ok tt.

Definition validate_request (request : Request) (guards : ServerGuards) : result ServerError unit :=
  within_limit (Z.of_nat (length (rq_payload request))) (sg_max_request_payload_bytes guards).

Section limits.
Context (guards : ServerGuards).

Definition validate_key (key : string) : result ServerError unit :=
  within_limit (str_len key) (sg_max_key_bytes guards).
Definition validate_value (value : string) : result ServerError unit :=
  within_limit (str_len value) (sg_max_value_bytes guards).
Definition validate_value_bytes (value : list byte) : result ServerError unit :=
  within_limit (Z.of_nat (length value)) (sg_max_value_bytes guards).

Definition validate_command (command : Command) : result ServerError unit :=
  match command with
  | CmdAuth username password | CmdCreateUser username password
  | CmdAlterUserPassword username password =>
      _ ← validate_key username; validate_value password
  | CmdGet key | CmdGetDel key | CmdExists key | CmdIncr key | CmdDecr key | CmdTtl key
  | CmdPersist key | CmdGetEx key _ _ | CmdExpire key _ => validate_key key
  | CmdSet key value _ | CmdSetNx key value => _ ← validate_key key; validate_value_bytes value
  | CmdMGet keys | CmdDelete keys =>
      _ ← within_limit (Z.of_nat (length keys)) (sg_max_keys_per_batch guards);
      foldM (fun _ key => validate_key key) tt keys
  | CmdMSet entries =>
      _ ← within_limit (Z.of_nat (length entries)) (sg_max_keys_per_batch guards);
      foldM (fun _ entry => _ ← validate_key entry.1; validate_value_bytes entry.2) tt entries
  | CmdRename source destination | CmdRenameNx source destination =>
      _ ← validate_key source; validate_key destination
  | CmdScan _ (Some pattern) _ => validate_key pattern
  | CmdBackupVerify dump | CmdRestore dump | CmdRestoreCheck dump => validate_value dump
  | CmdBackupTo path | CmdBackupVerifyFrom path | CmdRestoreFrom path | CmdRestoreCheckFrom path =>
      validate_value path
  | CmdDropUser username => validate_key username
  | CmdClusterJoin node_id address => _ ← validate_key node_id; validate_value address
  | CmdClusterRemove node_id => validate_key node_id
  | CmdCreateRole role | CmdDropRole role => validate_key role
  | CmdShowGrantsForUser username => validate_key username
  | CmdShowGrantsForRole role => validate_key role
  | CmdGrantRole role username | CmdRevokeRole role username => _ ← validate_key role; validate_key username
  | CmdGrantPermission permission pattern role | CmdRevokePermission permission pattern role =>
      _ ← validate_key permission; _ ← validate_key pattern; validate_key role
  | _ => Ok tt
  end.

End limits.

(** ** Maintenance mode and lockouts (runtime_state.rs) *)

(** The switch and whether its file exists. *)
Record MaintenanceMode := mkMaintenanceMode {
  mm_enabled : bool;
  mm_file : bool;
}.

Module MaintenanceMode.

Definition load (file : bool) : MaintenanceMode := mkMaintenanceMode file file.

(** The file is written or removed first; a write that fails can leave it behind. *)
Definition set (io : PersistIo) (enabled : bool) : fallible MaintenanceMode ServerError unit :=
  mode ← mget;
  if enabled || mm_file mode then
    match io with
    | IoFailed created message =>
        _ ← mput (mkMaintenanceMode (mm_enabled mode) (mm_file mode || (enabled && created)));
        mfail (SrvIo message)
    | IoDone => mput (mkMaintenanceMode enabled enabled)
    end
  else mput (mkMaintenanceMode enabled false).

End MaintenanceMode.

Record AuthLockoutRecord := mkAuthLockoutRecord {
  lr_first_failure_at_ms : Z;
  lr_failure_count : Z;
  lr_locked_until_ms : option Z;
}.

Definition AuthLockoutState : Type := gmap string AuthLockoutRecord.

Module AuthLockoutState.

Definition active_lockout_count (now_ms : Z) (records : AuthLockoutState) : AuthLockoutState * Z :=
  let records := base.filter (fun '(_, record) => now_ms < default now_ms (lr_locked_until_ms record)) records in
  (records, Z.of_nat (length (List.filter (fun record => now_ms <? default 0 (lr_locked_until_ms record))
                                (values_in_order records)))).

Definition remaining_lockout_seconds (key : string) (now_ms : Z) (records : AuthLockoutState) : option Z :=
  record ← records !! key;
  locked_until_ms ← lr_locked_until_ms record;
  if now_ms <=? locked_until_ms then Some ((locked_until_ms - now_ms + 999) / 1000) else None.

Definition clear_success (key : string) (records : AuthLockoutState) : AuthLockoutState := delete key records.

(** Durations are in milliseconds. *)
Definition record_failure (key : string) (now_ms failure_window failure_limit lockout : Z)
    (records : AuthLockoutState) : AuthLockoutState * bool :=
  let record := default (mkAuthLockoutRecord now_ms 0 None) (records !! key) in
  let record := if failure_window <? saturating_sub now_ms (lr_first_failure_at_ms record)
                then mkAuthLockoutRecord now_ms 0 None else record in
  let record := record {{ lr_failure_count := Z.min (lr_failure_count record + 1) u32_max }} in
  if failure_limit <=? lr_failure_count record
  then (<[key := record {{ lr_locked_until_ms := Some (saturating_add now_ms lockout) }}]> records, true)
  else (<[key := record]> records, false).

End AuthLockoutState.

(** The keys of the two counters of a login (audit_events.rs). *)
Definition auth_lockout_key (username : string) (peer_addr : option string) : string :=
  username +:+ "|" +:+ default "unknown"%string peer_addr.
Definition auth_lockout_username_key (username : string) : string := username +:+ "|*".
