(* ===== verification/Status.v ===== *)
(** * Status: what operators are shown and backup manifests
    (crates/server/src/server/mod.rs, metrics.rs, backup.rs)

    The entries of SHOW REPLICATION, SHOW CLUSTER and HEALTH, METRICS with its
    Prometheus form, and the manifest that
    is written beside a backup and compared with it before it is trusted.  SHA-256 and
    JSON are parameters. *)

From S2P Require Import Prelude Text EngineError Store Wire ServerError Consensus.

Definition or_none (o : option string) : string := default "none"%string o.
Definition count_to_string (n : nat) : string := int_to_string (Z.of_nat n).

Definition member_entries (members : list ClusterMember) : list (string * string) :=
  members ≫= fun member =>
    [("member." +:+ cm_node_id member +:+ ".advertise_addr", cm_advertise_addr member);
     ("member." +:+ cm_node_id member +:+ ".voter", bool_to_string (cm_voter member))].

Definition replication_entries_from_snapshot (s : ReplicationStatusSnapshot) : list (string * string) :=
  let number (o : option Z) := or_none (int_to_string <$> o) in
  [("node_id", ss_node_id s);
   ("group_id", ss_group_id s);
   ("role", ss_role s);
   ("advertise_addr", or_none (ss_advertise_addr s));
   ("leader_node_id", or_none (ss_leader_node_id s));
   ("leader_advertise_addr", or_none (ss_leader_advertise_addr s));
   ("upstream", or_none (ss_upstream s));
   ("write_ack_mode", ss_write_ack_mode s);
   ("current_term", int_to_string (ss_current_term s));
   ("voted_for", or_none (ss_voted_for s));
   ("quorum_size", count_to_string (ss_quorum_size s));
   ("paused", bool_to_string (ss_paused s));
   ("health", ss_health s);
   ("reason", or_none (ss_reason s));
   ("local_last_applied_sequence", int_to_string (ss_local_last_applied_sequence s));
   ("commit_sequence", int_to_string (ss_commit_sequence s));
   ("retention_floor_sequence", number (ss_retention_floor_sequence s));
   ("follower_phase", or_none (ss_follower_phase s));
   ("follower_lag_entries", number (ss_follower_lag_entries s));
   ("follower_lag_ms", number (ss_follower_lag_ms s));
   ("known_followers", count_to_string (ss_known_followers s))]%string ++
  (ss_followers s ≫= fun follower =>
     let field (name value : string) := ("follower." +:+ rf_node_id follower +:+ "." +:+ name, value) in
     [field "applied_sequence" (int_to_string (rf_applied_sequence follower));
      field "lag_entries" (int_to_string (rf_lag_entries follower));
      field "lag_ms" (int_to_string (rf_lag_ms follower));
      field "stale" (bool_to_string (rf_stale follower))]) ++
  member_entries (ss_members s).

Definition cluster_entries_from_snapshot (s : ReplicationStatusSnapshot) : list (string * string) :=
  [("node_id", ss_node_id s);
   ("group_id", ss_group_id s);
   ("role", ss_role s);
   ("current_term", int_to_string (ss_current_term s));
   ("leader_node_id", or_none (ss_leader_node_id s));
   ("leader_advertise_addr", or_none (ss_leader_advertise_addr s));
   ("commit_index", int_to_string (ss_commit_sequence s));
   ("last_applied_index", int_to_string (ss_local_last_applied_sequence s));
   ("quorum_size", count_to_string (ss_quorum_size s));
   ("member_count", count_to_string (length (ss_members s)));
   ("sync_policy", ss_write_ack_mode s);
   ("health", ss_health s)]%string ++
  member_entries (ss_members s).

(** The reply to HEALTH. *)
Definition health_entries (maintenance : bool) (s : ReplicationStatusSnapshot) : list (string * string) :=
  [("status", ss_health s);
   ("ready", bool_to_string (bool_decide (ss_health s = "ready")));
   ("reason", or_none (ss_reason s));
   ("role", ss_role s);
   ("maintenance_mode", bool_to_string maintenance)]%string ++
  match ss_follower_phase s with Some phase => [("follower_phase"%string, phase)] | None => [] end.

(** ** Metrics (metrics.rs) *)

Inductive MetricKind := Counter | Gauge.

Definition as_prometheus_type (kind : MetricKind) : string :=
  match kind with Counter => "counter" | Gauge => "gauge" end.

Inductive MetricId :=
| AcceptedConnections
| ActiveConnections
| CompletedConnections
| RequestCount
| AuthSuccessCount
| AuthFailureCount
| AuthLockedAttemptCount
| TransactionBeginCount
| TransactionCommitCount
| TransactionDiscardCount
| TransactionTimeoutCount
| IdleDisconnectCount
| SnapshotCompletedCount
| ExpirationSweepCount
| ExpiredKeyRemovedCount
| SlowCommandCount
| WalEntryReplayedCount
| ReadFastPathHitCount
| ReadFastPathFallbackCount
| HaWriteBatchCount
| HaWriteCoordinatedCount
| HaWriteBatchMaxSize
| ReadIndexLag.

Record MetricDescriptor := mkMetricDescriptor {
  mt_id : MetricId;
  mt_otel_name : string;
  mt_unit : string;
  mt_help : string;
  mt_kind : MetricKind;
}.

(** [otel_name.replace('.', "_")]. *)
Definition prometheus_name (d : MetricDescriptor) : string :=
  of_bytes ((fun b => if bool_decide (b = x2e) then x5f else b) <$> as_bytes (mt_otel_name d)).

Definition METRIC_DESCRIPTORS : list MetricDescriptor :=
  [mkMetricDescriptor AcceptedConnections "vaylix.server.connection.accepted.count" "{connection}"
     "Number of client connections accepted by the Vaylix server." Counter;
   mkMetricDescriptor ActiveConnections "vaylix.server.connection.active" "{connection}"
     "Current number of active client connections handled by the Vaylix server." Gauge;
   mkMetricDescriptor CompletedConnections "vaylix.server.connection.completed.count" "{connection}"
     "Number of client connections completed by the Vaylix server." Counter;
   mkMetricDescriptor RequestCount "vaylix.server.request.count" "{request}"
     "Number of transport requests processed by the Vaylix server." Counter;
   mkMetricDescriptor AuthSuccessCount "vaylix.server.auth.success.count" "{authentication}"
     "Number of successful authentication attempts." Counter;
   mkMetricDescriptor AuthFailureCount "vaylix.server.auth.failure.count" "{authentication}"
     "Number of failed authentication attempts." Counter;
   mkMetricDescriptor AuthLockedAttemptCount "vaylix.server.auth.locked.attempt.count" "{authentication}"
     "Number of authentication attempts rejected due to an active lockout." Counter;
   mkMetricDescriptor TransactionBeginCount "vaylix.server.transaction.begin.count" "{transaction}"
     "Number of transactions started with MULTI." Counter;
   mkMetricDescriptor TransactionCommitCount "vaylix.server.transaction.commit.count" "{transaction}"
     "Number of transactions committed with EXEC." Counter;
   mkMetricDescriptor TransactionDiscardCount "vaylix.server.transaction.discard.count" "{transaction}"
     "Number of transactions discarded explicitly or due to state changes." Counter;
   mkMetricDescriptor TransactionTimeoutCount "vaylix.server.transaction.timeout.count" "{transaction}"
     "Number of transactions discarded after exceeding the configured lifetime." Counter;
   mkMetricDescriptor IdleDisconnectCount "vaylix.server.connection.idle.disconnect.count" "{disconnect}"
     "Number of connections closed after exceeding the idle timeout." Counter;
   mkMetricDescriptor SnapshotCompletedCount "vaylix.persistence.snapshot.completed.count" "{snapshot}"
     "Number of completed physical snapshots." Counter;
   mkMetricDescriptor ExpirationSweepCount "vaylix.storage.expiration.sweep.count" "{sweep}"
     "Number of expiration sweeps completed by the background reaper." Counter;
   mkMetricDescriptor ExpiredKeyRemovedCount "vaylix.storage.expired.key.removed.count" "{key}"
     "Number of expired keys removed by expiration sweeps." Counter;
   mkMetricDescriptor SlowCommandCount "vaylix.server.command.slow.count" "{command}"
     "Number of commands recorded as slow relative to the configured threshold." Counter;
   mkMetricDescriptor WalEntryReplayedCount "vaylix.persistence.wal.entry.replayed.count" "{entry}"
     "Number of WAL entries replayed during recovery." Counter;
   mkMetricDescriptor ReadFastPathHitCount "vaylix.server.read.fastpath.hit.count" "{request}"
     "Number of safe read commands served from the committed read index." Counter;
   mkMetricDescriptor ReadFastPathFallbackCount "vaylix.server.read.fastpath.fallback.count" "{request}"
     "Number of safe read commands routed through the engine path." Counter;
   mkMetricDescriptor HaWriteBatchCount "vaylix.server.ha.write.batch.count" "{batch}"
     "Number of leader write batches processed by the HA write coordinator." Counter;
   mkMetricDescriptor HaWriteCoordinatedCount "vaylix.server.ha.write.coordinated.count" "{request}"
     "Number of leader write requests processed through the HA write coordinator." Counter;
   mkMetricDescriptor HaWriteBatchMaxSize "vaylix.server.ha.write.batch.max.size" "{request}"
     "Largest leader write batch observed since process start." Gauge;
   mkMetricDescriptor ReadIndexLag "vaylix.server.read.index.lag" "{entry}"
     "Current committed read-index lag behind the latest acknowledged write." Gauge].

Record Metrics := mkMetrics {
  me_accepted_connections : Z;
  me_active_connections : Z;
  me_completed_connections : Z;
  me_requests_total : Z;
  me_auth_successes : Z;
  me_auth_failures : Z;
  me_locked_auth_attempts_total : Z;
  me_transactions_started : Z;
  me_transactions_committed : Z;
  me_transactions_discarded : Z;
  me_transactions_timed_out : Z;
  me_idle_disconnects : Z;
  me_snapshots_completed : Z;
  me_expiration_sweeps : Z;
  me_expired_keys_removed : Z;
  me_slow_commands_total : Z;
  me_wal_entries_replayed_total : Z;
  me_read_fast_path_hits : Z;
  me_read_fast_path_fallbacks : Z;
  me_ha_write_batches : Z;
  me_ha_write_coordinated : Z;
  me_ha_write_batch_max_size : Z;
  me_read_index_lag : Z;
}.

Module Metrics.

Definition load (m : Metrics) (metric_id : MetricId) : Z :=
  match metric_id with
  | AcceptedConnections => me_accepted_connections m
  | ActiveConnections => me_active_connections m
  | CompletedConnections => me_completed_connections m
  | RequestCount => me_requests_total m
  | AuthSuccessCount => me_auth_successes m
  | AuthFailureCount => me_auth_failures m
  | AuthLockedAttemptCount => me_locked_auth_attempts_total m
  | TransactionBeginCount => me_transactions_started m
  | TransactionCommitCount => me_transactions_committed m
  | TransactionDiscardCount => me_transactions_discarded m
  | TransactionTimeoutCount => me_transactions_timed_out m
  | IdleDisconnectCount => me_idle_disconnects m
  | SnapshotCompletedCount => me_snapshots_completed m
  | ExpirationSweepCount => me_expiration_sweeps m
  | ExpiredKeyRemovedCount => me_expired_keys_removed m
  | SlowCommandCount => me_slow_commands_total m
  | WalEntryReplayedCount => me_wal_entries_replayed_total m
  | ReadFastPathHitCount => me_read_fast_path_hits m
  | ReadFastPathFallbackCount => me_read_fast_path_fallbacks m
  | HaWriteBatchCount => me_ha_write_batches m
  | HaWriteCoordinatedCount => me_ha_write_coordinated m
  | HaWriteBatchMaxSize => me_ha_write_batch_max_size m
  | ReadIndexLag => me_read_index_lag m
  end.

Definition snapshot (m : Metrics) : list (string * string) :=
  (fun d => (mt_otel_name d, int_to_string (load m (mt_id d)))) <$> METRIC_DESCRIPTORS.

Definition prometheus (m : Metrics) : string :=
  String.concat (of_bytes [x0a]) (METRIC_DESCRIPTORS ≫= fun d =>
    let metric := prometheus_name d in
    ["# HELP " +:+ metric +:+ " " +:+ mt_help d +:+ " Unit: " +:+ mt_unit d +:+ ".";
     "# TYPE " +:+ metric +:+ " " +:+ as_prometheus_type (mt_kind d);
     metric +:+ " " +:+ int_to_string (load m (mt_id d))]).

End Metrics.

(** The counters of the peer connections (replication_client.rs). *)
Record PoolCounters := mkPoolCounters {
  po_connections_opened : Z;
  po_reconnects : Z;
  po_append_failures : Z;
  po_heartbeat_failures : Z;
  po_append_requests : Z;
  po_append_latency_total_ms : Z;
}.

Definition pool_snapshot (c : PoolCounters) : list (string * string) :=
  let append_latency_avg_ms :=
    if po_append_requests c =? 0 then 0 else po_append_latency_total_ms c / po_append_requests c in
  [("replication.client.connection.opened.count", int_to_string (po_connections_opened c));
   ("replication.client.reconnect.count", int_to_string (po_reconnects c));
   ("replication.client.append.failure.count", int_to_string (po_append_failures c));
   ("replication.client.heartbeat.failure.count", int_to_string (po_heartbeat_failures c));
   ("replication.client.append.latency.avg.ms", int_to_string append_latency_avg_ms)]%string.

(** What is known of the certificate (tls.rs). *)
Record TlsMetadata := mkTlsMetadata {
  tl_cert_not_after_ms : option Z;
  tl_cert_days_remaining : option Z;
  tl_last_reload_success_at_ms : option Z;
  tl_last_reload_failure_at_ms : option Z;
}.

(** ** Backup manifests (backup.rs) *)

Definition BACKUP_MANIFEST_VERSION : Z := 1.
Definition BACKUP_HASH_ALGORITHM : string := "sha256".

Record BackupManifest := mkBackupManifest {
  bm_manifest_version : Z;
  bm_backup_version : Z;
  bm_created_at_ms : Z;
  bm_source_engine_version : Z;
  bm_source_sequence : Z;
  bm_entry_count : Z;
  bm_byte_len : Z;
  bm_hash_algorithm : string;
  bm_sha256 : string;
}.

(** The header of a dump; of its entries only their number is used. *)
Record BackupDocumentHeader := mkBackupDocumentHeader {
  bh_version : Z;
  bh_created_at_ms : Z;
  bh_source_engine_version : Z;
  bh_source_sequence : Z;
  bh_entries : nat;
}.

Class Sha256 := sha256 : list byte -> list byte.
Class DumpJson := {
  document_from_str : string -> result string BackupDocumentHeader;
  manifest_to_vec : BackupManifest -> result string (list byte);
  manifest_from_slice : list byte -> result string BackupManifest;
  manifest_from_to manifest bytes : manifest_to_vec manifest = Ok bytes -> manifest_from_slice bytes = Ok manifest;
}.

Section manifest.
Context `{Sha256} `{DumpJson}.

Definition sha256_hex (bytes : list byte) : string := hex (sha256 bytes).

Definition parse_backup_document_header (dump : string) : result ServerError BackupDocumentHeader :=
  backup ← map_err SrvBackupVerification (document_from_str dump);
  if (bh_version backup =? 1) || (bh_version backup =? 2) then Ok backup
  else Err (SrvBackupVerification ("unsupported backup version " +:+ int_to_string (bh_version backup))).

Definition build_backup_manifest (dump : string) : result ServerError BackupManifest :=
  backup ← parse_backup_document_header dump;
  Ok (mkBackupManifest BACKUP_MANIFEST_VERSION (bh_version backup) (bh_created_at_ms backup)
        (bh_source_engine_version backup) (bh_source_sequence backup) (Z.of_nat (bh_entries backup))
        (str_len dump) BACKUP_HASH_ALGORITHM (sha256_hex (as_bytes dump))).

Definition verify_backup_manifest (dump : string) (manifest : BackupManifest) : result ServerError unit :=
  expected ← build_backup_manifest dump;
  if negb (bm_manifest_version manifest =? BACKUP_MANIFEST_VERSION) then
    Err (SrvBackupVerification ("unsupported manifest version " +:+ int_to_string (bm_manifest_version manifest)))
  else if negb (bool_decide (bm_hash_algorithm manifest = BACKUP_HASH_ALGORITHM)) then
    Err (SrvBackupVerification ("unsupported hash algorithm " +:+ bm_hash_algorithm manifest))
  else if negb (bm_backup_version manifest =? bm_backup_version expected)
       || negb (bm_created_at_ms manifest =? bm_created_at_ms expected)
       || negb (bm_source_engine_version manifest =? bm_source_engine_version expected)
       || negb (bm_source_sequence manifest =? bm_source_sequence expected)
       || negb (bm_entry_count manifest =? bm_entry_count expected)
       || negb (bm_byte_len manifest =? bm_byte_len expected)
       || negb (bool_decide (bm_sha256 manifest = bm_sha256 expected))
  then Err (SrvBackupVerification "backup manifest does not match dump")
  else Ok tt.

(** What BACKUP VERIFY replies for a dump with [live_entries]. *)
Definition dump_entries (manifest : BackupManifest) (live_entries : Z) : list (string * string) :=
  [("status", "ok"); ("entries", int_to_string live_entries);
   ("entry_count", int_to_string (bm_entry_count manifest)); ("sha256", bm_sha256 manifest)]%string.

End manifest.
