(* ===== verification/BackupFiles.v ===== *)
(** * BackupFiles: the files of backups (crates/server/src/backup.rs)

    Paths, a tree of files with symbolic links, and how the server finds, writes and
    reads the files of backups below its backup directory.  The tree holds these files
    only; what else the server writes is modelled with the component that writes it.
    Calls to the system can be refused; nothing else uses the tree while a call runs. *)

From S2P Require Import Prelude Text Store ServerError Status.

(** ** Paths *)

Fixpoint split_path (s word : string) : list string :=
  match s with
  | EmptyString => [word]
  | String.String c s =>
      if Ascii.eqb c "/"%char then word :: split_path s EmptyString
      else split_path s (word +:+ String.String c EmptyString)
  end.

(** A path as the system reads it: whether it starts at the root, its words without
    empty ones and dots, and whether it ends like a directory. *)
Record OsPath := mkOsPath {
  op_absolute : bool;
  op_words : list string;
  op_directory : bool;
}.

Definition is_word (word : string) : bool := negb (String.eqb word EmptyString) && negb (String.eqb word ".").

Definition path_of (path : string) : OsPath :=
  let words := split_path path EmptyString in
  mkOsPath (String.prefix "/" path) (List.filter is_word words)
    (negb (is_word (List.last words EmptyString))).

(** [Path::display], with one slash between the words. *)
Definition path_text (path : OsPath) : string :=
  (if op_absolute path then "/" else EmptyString)%string +:+ String.concat "/" (op_words path).

(** [Path::join] below a location. *)
Definition join_location (location : list string) (path : OsPath) : OsPath :=
  mkOsPath true (location ++ op_words path) (op_directory path).

Definition path_parent (path : OsPath) : option OsPath :=
  match op_words path with
  | [] => None
  | words => Some (mkOsPath (op_absolute path) (removelast words) false)
  end.

(** ** A tree of files *)

Inductive FileEntry :=
| EntryDirectory
| EntryFile (bytes : list byte)
| EntryLink (target : string).

(** The entries by their location from the root, links not followed. *)
Notation FileTree := (gmap (list string) FileEntry).

(** The part of the file system that commands reach through paths a client names.  The
    server's own files are at paths of its configuration and are other state: the log and
    the snapshots ([Disk]), the users ([AuthStore]), the maintenance flag
    ([MaintenanceMode]) and the audit log ([AuditLogger]). *)
Record Files := mkFiles {
  fl_tree : FileTree;
  fl_working_dir : list string;
}.

Inductive IoError :=
| IoNotFound
| IoExists
| IoNotADirectory
| IoIsADirectory
| IoLoop
| IoInvalidData
| IoOther (message : string).

Definition IoError_text (e : IoError) : string :=
  match e with
  | IoNotFound => "No such file or directory (os error 2)"
  | IoExists => "File exists (os error 17)"
  | IoNotADirectory => "Not a directory (os error 20)"
  | IoIsADirectory => "Is a directory (os error 21)"
  | IoLoop => "Too many levels of symbolic links (os error 40)"
  | IoInvalidData => "stream did not contain valid UTF-8"
  | IoOther message => message
  end.

Definition is_directory (tree : FileTree) (location : list string) : bool :=
  match location with
  | [] => true
  | _ => match tree !! location with Some EntryDirectory => true | _ => false end
  end.

(** Words from a location up to the first link. *)
Inductive Walk :=
| Arrived (location : list string)
| Followed (location : list string) (target : string) (rest : list string)
| Stuck (err : IoError).

Fixpoint walk (tree : FileTree) (location words : list string) : Walk :=
  match words with
  | [] => Arrived location
  | word :: words =>
      if String.eqb word ".." then walk tree (removelast location) words
      else
        match tree !! (location ++ [word]) with
        | None => Stuck IoNotFound
        | Some EntryDirectory => walk tree (location ++ [word]) words
        | Some (EntryFile _) =>
            match words with [] => Arrived (location ++ [word]) | _ => Stuck IoNotADirectory end
        | Some (EntryLink target) => Followed location target words
        end
  end.

(** The number of links the system follows for one path. *)
Definition MAX_LINKS : nat := 40.

Fixpoint follow (links : nat) (tree : FileTree) (location words : list string) : result IoError (list string) :=
  match walk tree location words with
  | Arrived location => Ok location
  | Stuck err => Err err
  | Followed location target rest =>
      match links with
      | O => Err IoLoop
      | S links =>
          let target := path_of target in
          follow links tree (if op_absolute target then [] else location) (op_words target ++ rest)
      end
  end.

(** [create_dir_all]: directories that are missing are created from the left. *)
Fixpoint make_dirs (location words : list string) (tree : FileTree) : FileTree * result IoError unit :=
  match words with
  | [] => (tree, Ok tt)
  | word :: words =>
      let blocked (err : IoError) := (tree, Err (match words with [] => IoExists | _ => err end)) in
      if String.eqb word ".." then make_dirs (removelast location) words tree
      else
        match tree !! (location ++ [word]) with
        | None => make_dirs (location ++ [word]) words (<[location ++ [word] := EntryDirectory]> tree)
        | Some EntryDirectory => make_dirs (location ++ [word]) words tree
        | Some (EntryFile _) => blocked IoNotADirectory
        | Some (EntryLink _) =>
            match follow MAX_LINKS tree location [word] with
            | Ok location =>
                if is_directory tree location then make_dirs location words tree else blocked IoNotADirectory
            | Err IoNotFound => blocked IoExists
            | Err err => blocked err
            end
        end
  end.

(** ** Calls to the system *)

Inductive FsCall :=
| FsCreateDirAll (path : OsPath)
| FsCanonicalize (path : OsPath)
| FsMetadata (path : OsPath)
| FsOpen (path : OsPath)
| FsRead (path : OsPath).

(** How a write of bytes ends; a failed one can leave a part of them. *)
Inductive WriteEnd :=
| WriteDone
| WriteFailed (written : nat) (message : string).

Definition start_of (files : Files) (path : OsPath) : list string :=
  if op_absolute path then [] else fl_working_dir files.

(** Where the last word of a path is, which is not followed. *)
Definition final_location (files : Files) (path : OsPath) : result IoError (list string) :=
  match last (op_words path) with
  | None => Err IoIsADirectory
  | Some name =>
      if String.eqb name ".." then Err IoIsADirectory
      else
        location ← follow MAX_LINKS (fl_tree files) (start_of files path) (removelast (op_words path));
        if is_directory (fl_tree files) location then Ok (location ++ [name]) else Err IoNotADirectory
  end.

Definition locate (files : Files) (path : OsPath) : result IoError (list string) :=
  location ← follow MAX_LINKS (fl_tree files) (start_of files path) (op_words path);
  if op_directory path && negb (is_directory (fl_tree files) location) then Err IoNotADirectory
  else Ok location.

Section calls.
Context (fails : FsCall -> option string).

Notation M := (fallible Files ServerError).

(** A call whose error is the one of the server. *)
Definition system {A} (c : FsCall) (m : Files -> Files * result IoError A) : M A :=
  fun files =>
    match fails c with
    | Some message => (files, Err (SrvIo message))
    | None => let '(files, r) := m files in (files, map_err (fun err => SrvIo (IoError_text err)) r)
    end.

Definition create_dir_all (path : OsPath) : M unit :=
  system (FsCreateDirAll path) (fun files =>
    let '(tree, r) := make_dirs (start_of files path) (op_words path) (fl_tree files) in
    (mkFiles tree (fl_working_dir files), r)).

Definition canonicalize (path : OsPath) : M (list string) :=
  system (FsCanonicalize path) (fun files => (files, locate files path)).

Definition reject_final_symlink (path : OsPath) (requested : string) : M unit :=
  fun files =>
    match fails (FsMetadata path) with
    | Some message => (files, Err (SrvIo message))
    | None =>
        (files,
         match (location ← (if op_directory path then locate files path else final_location files path);
                Ok (fl_tree files !! location)) with
         | Ok (Some (EntryLink _)) => Err (SrvBackupPathRejected requested)
         | Ok _ | Err IoNotFound | Err IoIsADirectory => Ok tt
         | Err err => Err (SrvIo (IoError_text err))
         end)
    end.

(** The file at the returned path is below the directory. *)
Definition resolve_backup_path (base_dir requested : string) (must_exist : bool) : M OsPath :=
  let requested_path := path_of requested in
  let rejected {A} : M A := mfail (SrvBackupPathRejected requested) in
  if existsb (String.eqb "..") (op_words requested_path) then rejected
  else
    _ ← create_dir_all (path_of base_dir);
    base ← (if String.eqb base_dir EmptyString then mfail (SrvIo (IoError_text IoNotFound))
            else canonicalize (path_of base_dir));
    let candidate := if op_absolute requested_path then requested_path else join_location base requested_path in
    if must_exist then
      canonical ← canonicalize candidate;
      if bool_decide (base `prefix_of` canonical) then mret (mkOsPath true canonical false) else rejected
    else
      match path_parent candidate with
      | None => rejected
      | Some parent =>
          _ ← create_dir_all parent;
          canonical_parent ← canonicalize parent;
          if negb (bool_decide (base `prefix_of` canonical_parent)) then rejected
          else
            _ ← reject_final_symlink candidate requested;
            mret candidate
      end.

Definition backup_manifest_path (path : OsPath) : OsPath :=
  let name := match last (op_words path) with
              | Some name => if String.eqb name ".." then "backup"%string else name
              | None => "backup"%string
              end in
  mkOsPath (op_absolute path) (removelast (op_words path) ++ [name +:+ ".manifest.json"]) false.

(** A file is created or emptied before it is written; a link is not followed. *)
Definition create_and_write (io : WriteEnd) (path : OsPath) (requested : string) (bytes : list byte) : M unit :=
  fun files =>
    match fails (FsOpen path) with
    | Some message => (files, Err (SrvIo message))
    | None =>
        let failed (err : IoError) := (files, Err (SrvIo (IoError_text err))) in
        match (if op_directory path then Err IoIsADirectory else final_location files path) with
        | Err err => failed err
        | Ok location =>
            let write (bytes : list byte) :=
              mkFiles (<[location := EntryFile bytes]> (fl_tree files)) (fl_working_dir files) in
            match fl_tree files !! location, io with
            | Some (EntryLink _), _ => (files, Err (SrvBackupPathRejected requested))
            | Some EntryDirectory, _ => failed IoIsADirectory
            | _, WriteDone => (write bytes, Ok tt)
            | _, WriteFailed written message => (write (take written bytes), Err (SrvIo message))
            end
        end
    end.

Definition write_backup_file (io : WriteEnd) (path : OsPath) (requested : string) (bytes : list byte) : M unit :=
  _ ← reject_final_symlink path requested;
  create_and_write io path requested bytes.

Definition read_bytes (path : OsPath) : M (list byte) :=
  system (FsRead path) (fun files =>
    (files, location ← locate files path;
            match fl_tree files !! location with
            | Some (EntryFile bytes) => Ok bytes
            | _ => Err IoIsADirectory
            end)).

Definition read_to_string (path : OsPath) : M string :=
  bytes ← read_bytes path;
  mpure (ok_or (from_utf8 bytes) (SrvIo (IoError_text IoInvalidData))).

Definition load_backup_manifest `{DumpJson} (path : OsPath) : M BackupManifest :=
  bytes ← read_bytes path;
  mpure (map_err SrvBackupVerification (manifest_from_slice bytes)).

End calls.

(** ** What the calls do to the tree *)

(** Directories and links stay what they are, and files stay files. *)
Definition grows (tree tree' : FileTree) : Prop :=
  forall q e, tree !! q = Some e ->
  match e with EntryFile _ => exists bytes, tree' !! q = Some (EntryFile bytes) | _ => tree' !! q = Some e end.

#[export] Instance grows_preorder : PreOrder grows.
Proof.
  split.
  - intros tree q [| |]; eauto.
  - intros t1 t2 t3 H12 H23 q e Hq. specialize (H12 q e Hq). destruct e as [| |].
    + exact (H23 q _ H12).
    + destruct H12 as [b2 H2]. exact (H23 q _ H2).
    + exact (H23 q _ H12).
Qed.

Lemma walk_grows tree tree' words : grows tree tree' -> forall location,
  match walk tree location words with Stuck _ => True | w => walk tree' location words = w end.
Proof.
  intros Hg. induction words as [|word words IH]; intros location; [done|]. cbn [walk].
  destruct (String.eqb word ".."); [apply IH|].
  destruct (tree !! (location ++ [word])) as [[| |target]|] eqn:Hq; [| | |done].
  - rewrite (Hg _ _ Hq). apply IH.
  - destruct (Hg _ _ Hq) as [b ->]. by destruct words.
  - by rewrite (Hg _ _ Hq).
Qed.

Lemma follow_grows links tree tree' : grows tree tree' -> forall location words l,
  follow links tree location words = Ok l -> follow links tree' location words = Ok l.
Proof.
  intros Hg. induction links as [|links IH]; intros location words l; cbn [follow];
    pose proof (walk_grows tree tree' words Hg location) as Hw;
    destruct (walk tree location words); rewrite ?Hw; try done. apply IH.
Qed.

Lemma is_directory_grows tree tree' location :
  grows tree tree' -> is_directory tree location = true -> is_directory tree' location = true.
Proof.
  intros Hg. unfold is_directory. destruct location as [|w ws]; [done|].
  destruct (tree !! _) as [[| |]|] eqn:Hq; try done. by rewrite (Hg _ _ Hq).
Qed.

Lemma locate_grows tree tree' dir path l :
  grows tree tree' -> locate (mkFiles tree dir) path = Ok l -> locate (mkFiles tree' dir) path = Ok l.
Proof.
  intros Hg. unfold locate. intros (location & Hf & Hc)%result_bind_ok. cbn [fl_tree] in *.
  change (start_of (mkFiles tree' dir) path) with (start_of (mkFiles tree dir) path).
  rewrite (follow_grows _ _ _ Hg _ _ _ Hf). unfold mbind, result_bind.
  destruct (op_directory path); [|done]. cbn [andb] in *. destruct (is_directory tree location) eqn:Hd; [|done].
  by rewrite (is_directory_grows _ _ _ Hg Hd).
Qed.

(** The tree only gets new directories. *)
Definition adds (tree tree' : FileTree) : Prop :=
  forall q, tree' !! q = tree !! q \/ tree !! q = None /\ tree' !! q = Some EntryDirectory.

#[export] Instance adds_preorder : PreOrder adds.
Proof.
  split; [by left|]. intros t1 t2 t3 H12 H23 q. destruct (H12 q) as [E1|[E1 E1']], (H23 q) as [E2|[E2 E2']];
    rewrite ?E1, ?E2, ?E1', ?E2' in *; auto; congruence.
Qed.

Lemma adds_grows tree tree' : adds tree tree' -> grows tree tree'.
Proof.
  intros Ha q e Hq. destruct (Ha q) as [->|[? _]]; [|congruence]. destruct e; eauto.
Qed.

Lemma make_dirs_adds words : forall location tree, adds tree (make_dirs location words tree).1.
Proof.
  induction words as [|word words IH]; intros location tree; [reflexivity|]. cbn [make_dirs].
  destruct (String.eqb word ".."); [apply IH|].
  destruct (tree !! (location ++ [word])) as [[| |target]|] eqn:Hq; [apply IH|reflexivity| |].
  - destruct (follow _ _ _ _) as [l|[]]; try reflexivity. destruct (is_directory tree l); [apply IH|reflexivity].
  - etransitivity; [|apply IH]. intros q. destruct (decide (q = location ++ [word])) as [->|Hn].
    + right. split; [done|apply lookup_insert_eq].
    + left. by apply lookup_insert_ne.
Qed.

Section kept.
Context (backup_dir : string).

(** Outside of the backup directory there is nothing new but directories; inside of it
    files are new or changed. *)
Record kept (files files' : Files) : Prop := {
  kp_working_dir : fl_working_dir files' = fl_working_dir files;
  kp_grows : grows (fl_tree files) (fl_tree files');
  kp_outside : forall q,
    fl_tree files' !! q = fl_tree files !! q \/
    fl_tree files !! q = None /\ fl_tree files' !! q = Some EntryDirectory \/
    exists base bytes, locate files' (path_of backup_dir) = Ok base /\ base `prefix_of` q /\
      fl_tree files' !! q = Some (EntryFile bytes);
}.

Lemma locate_kept files files' path l : kept files files' -> locate files path = Ok l -> locate files' path = Ok l.
Proof.
  destruct files as [tree dir], files' as [tree' dir']. intros [Hd Hg _] Hl. cbn in Hd, Hg. subst dir'.
  by eapply locate_grows.
Qed.

#[export] Instance kept_preorder : PreOrder kept.
Proof.
  split.
  - intros files. split; [done|reflexivity|by left].
  - intros f1 f2 f3 K12 K23. pose proof (locate_kept f2 f3) as Hl. destruct K12 as [D12 G12 O12].
    pose proof K23 as [D23 G23 O23]. split; [congruence|by etransitivity|]. intros q.
    destruct (O23 q) as [E|[[E E']|(base & bytes & Hb & Hp & Hf)]]; [| |by right; right; eauto].
    + rewrite E. destruct (O12 q) as [?|[?|(base & bytes & Hb & Hp & Hf)]]; [by left|by right; left|].
      right; right. exists base, bytes. eauto.
    + destruct (O12 q) as [<-|[[? ?]|(base & bytes & Hb & Hp & Hf)]]; [by right; left|congruence..].
Qed.

Lemma kept_adds tree tree' dir : adds tree tree' -> kept (mkFiles tree dir) (mkFiles tree' dir).
Proof.
  intros Ha. split; [done|by apply adds_grows|]. intros q. cbn. destruct (Ha q); auto.
Qed.

(** The last word of the path is for a place inside of the backup directory. *)
Definition inside (files : Files) (path : OsPath) : Prop :=
  exists base location, locate files (path_of backup_dir) = Ok base /\ base `prefix_of` location /\
    follow MAX_LINKS (fl_tree files) (start_of files path) (removelast (op_words path)) = Ok location.

Lemma inside_kept files files' path : kept files files' -> inside files path -> inside files' path.
Proof.
  intros Hk (base & location & Hb & Hp & Hf). exists base, location. split; [by eapply locate_kept|]. split; [done|].
  unfold start_of in *. rewrite (kp_working_dir _ _ Hk). eapply follow_grows; [apply Hk|done].
Qed.

Lemma inside_manifest files path : inside files path -> inside files (backup_manifest_path path).
Proof.
  intros (base & location & Hb & Hp & Hf). exists base, location. split; [done|]. split; [done|].
  unfold backup_manifest_path. cbn [op_words]. by rewrite removelast_last.
Qed.

Context (fails : FsCall -> option string).

Lemma create_dir_all_kept path files : kept files (create_dir_all fails path files).1.
Proof.
  unfold create_dir_all, system. destruct (fails _); [reflexivity|]. destruct files as [tree dir]. cbn.
  pose proof (make_dirs_adds (op_words path) (start_of (mkFiles tree dir) path) tree) as Ha.
  destruct (make_dirs _ _ _) as [tree' r]. by apply kept_adds.
Qed.

Lemma canonicalize_ok path files files' l :
  canonicalize fails path files = (files', Ok l) -> files' = files /\ locate files path = Ok l.
Proof.
  unfold canonicalize, system. destruct (fails _); [done|]. destruct (locate files path); [|done].
  by intros [= <- <-].
Qed.
Lemma canonicalize_still path files : (canonicalize fails path files).1 = files.
Proof. unfold canonicalize, system. by destruct (fails _). Qed.
Lemma reject_still path requested files : (reject_final_symlink fails path requested files).1 = files.
Proof. unfold reject_final_symlink. by destruct (fails _). Qed.

Lemma write_kept io path requested bytes files :
  inside files path -> kept files (write_backup_file fails io path requested bytes files).1.
Proof.
  intros (base & location & Hb & Hp & Hf). unfold write_backup_file, mbind, fallible_bind.
  pose proof (reject_still path requested files) as Hs. destruct (reject_final_symlink _ _ _ _) as [f1 [[]|e]];
    cbn in Hs; subst f1; [|reflexivity].
  unfold create_and_write. destruct (fails _); [reflexivity|]. destruct (op_directory path); [reflexivity|].
  destruct (final_location files path) as [q|] eqn:Hq; [|reflexivity].
  assert (base `prefix_of` q) as Hpq.
  { unfold final_location in Hq. destruct (last _) as [name|]; [|done]. destruct (String.eqb name ".."); [done|].
    rewrite Hf in Hq. unfold mbind, result_bind in Hq. destruct (is_directory _ _); [|done]. injection Hq as <-.
    by apply prefix_app_r. }
  assert (forall bytes, (forall e, fl_tree files !! q = Some e -> exists b, e = EntryFile b) ->
    kept files (mkFiles (<[q := EntryFile bytes]> (fl_tree files)) (fl_tree files, fl_working_dir files).2)) as Hw.
  { intros b He. destruct files as [tree dir]. cbn in *.
    assert (grows tree (<[q := EntryFile b]> tree)) as Hg.
    { intros x e Hx. destruct (decide (x = q)) as [->|Hn].
      - rewrite lookup_insert_eq. destruct (He e Hx) as [? ->]. eauto.
      - rewrite lookup_insert_ne by done. rewrite Hx. destruct e; eauto. }
    split; [done|done|]. intros x. destruct (decide (x = q)) as [->|Hn].
    - right; right. exists base, b. split; [by eapply locate_grows|]. split; [done|]. apply lookup_insert_eq.
    - left. by apply lookup_insert_ne. }
  cbn in Hw. destruct (fl_tree files !! q) as [[|old|target]|] eqn:He; [reflexivity| |reflexivity|];
    destruct io; apply Hw; intros e [= <-]; eauto.
Qed.

Lemma canonicalize_kept path files : kept files (canonicalize fails path files).1.
Proof. by rewrite canonicalize_still. Qed.
Lemma reject_kept path requested files : kept files (reject_final_symlink fails path requested files).1.
Proof. by rewrite reject_still. Qed.

Lemma kept_bind {A B} (m : fallible Files ServerError A) (k : A -> fallible Files ServerError B) files :
  (forall files, kept files (m files).1) -> (forall a files, kept files (k a files).1) -> kept files ((m ≫= k) files).1.
Proof.
  intros Hm Hk. specialize (Hm files). unfold mbind, fallible_bind. destruct (m files) as [files' [a|e]]; [|done].
  etransitivity; [exact Hm|apply Hk].
Qed.

Lemma resolve_kept requested must_exist files :
  kept files (resolve_backup_path fails backup_dir requested must_exist files).1.
Proof.
  unfold resolve_backup_path. destruct (existsb _ _); [reflexivity|].
  apply kept_bind; [apply create_dir_all_kept|]. intros _ f1. apply kept_bind.
  { intros f. destruct (String.eqb _ _); [reflexivity|apply canonicalize_kept]. }
  intros base f2. destruct must_exist.
  { apply kept_bind; [apply canonicalize_kept|]. intros l f3. by destruct (bool_decide _). }
  destruct (path_parent _) as [parent|]; [|reflexivity]. apply kept_bind; [apply create_dir_all_kept|].
  intros _ f3. apply kept_bind; [apply canonicalize_kept|]. intros l f4. destruct (negb _); [reflexivity|].
  apply kept_bind; [apply reject_kept|]. done.
Qed.

(** The path of a file that may be new. *)
Lemma resolve_new requested files files' path :
  resolve_backup_path fails backup_dir requested false files = (files', Ok path) ->
  existsb (String.eqb "..") (op_words (path_of requested)) = false /\ String.eqb backup_dir EmptyString = false /\
  exists f1 base l, create_dir_all fails (path_of backup_dir) files = (f1, Ok tt) /\
    locate f1 (path_of backup_dir) = Ok base /\ kept f1 files' /\
    path = (if op_absolute (path_of requested) then path_of requested else join_location base (path_of requested)) /\
    follow MAX_LINKS (fl_tree files') (start_of files' path) (removelast (op_words path)) = Ok l /\ base `prefix_of` l.
Proof.
  unfold resolve_backup_path. destruct (existsb _ _); [done|].
  intros (f1 & [] & H1 & (f2 & base & Hb & H2)%fallible_bind_ok)%fallible_bind_ok.
  destruct (String.eqb _ _); [done|]. apply canonicalize_ok in Hb as [-> Hb]. split; [done|]. split; [done|].
  exists f1, base. revert H2. set (candidate := if op_absolute _ then _ else _).
  destruct (path_parent candidate) as [parent|] eqn:Ep; [|done].
  intros (f3 & [] & H3 & (f4 & l & Hl & H4)%fallible_bind_ok)%fallible_bind_ok.
  apply canonicalize_ok in Hl as [-> Hl]. case_bool_decide as Hpre; [|done]. cbn [negb] in H4.
  apply fallible_bind_ok in H4 as (f5 & [] & H5 & [= <- <-]).
  pose proof (create_dir_all_kept parent f1) as K. rewrite H3 in K. cbn in K.
  pose proof (reject_still candidate requested f3) as Hs. rewrite H5 in Hs. cbn in Hs. subst f5.
  exists l. split; [done|]. split; [done|]. split; [done|]. split; [done|]. split; [|done].
  unfold path_parent in Ep. destruct (op_words candidate) eqn:Ew; [done|]. rewrite <- Ew in *. injection Ep as <-.
  unfold locate in Hl. apply result_bind_ok in Hl as (l' & Hf & Hc). cbn [op_directory andb] in Hc. injection Hc as ->.
  exact Hf.
Qed.

Lemma resolve_inside requested files files' path :
  resolve_backup_path fails backup_dir requested false files = (files', Ok path) -> inside files' path.
Proof.
  intros (_ & _ & f1 & base & l & _ & Hb & Hk & _ & Hf & Hp)%resolve_new. exists base, l.
  split; [exact (locate_kept _ _ _ _ Hk Hb)|done].
Qed.

Lemma write_ok io path requested bytes files files' :
  write_backup_file fails io path requested bytes files = (files', Ok tt) ->
  op_directory path = false /\ exists l name, last (op_words path) = Some name /\ name <> ".."%string /\
    follow MAX_LINKS (fl_tree files) (start_of files path) (removelast (op_words path)) = Ok l /\
    is_directory (fl_tree files) l = true /\
    files' = mkFiles (<[l ++ [name] := EntryFile bytes]> (fl_tree files)) (fl_working_dir files).
Proof.
  unfold write_backup_file. intros (f1 & [] & H1 & H2)%fallible_bind_ok.
  pose proof (reject_still path requested files) as Hs. rewrite H1 in Hs. cbn in Hs. subst f1.
  unfold create_and_write in H2. destruct (fails _); [done|]. destruct (op_directory path); [done|].
  destruct (final_location files path) as [q|] eqn:Hq; [|done]. split; [done|].
  unfold final_location in Hq. destruct (last _) as [name|]; [|done].
  destruct (String.eqb_spec name "..") as [|Hn]; [done|]. apply result_bind_ok in Hq as (l & Hf & Hq).
  destruct (is_directory _ l) eqn:Hd; [|done]. injection Hq as <-. exists l, name. do 4 (split; [done|]).
  destruct (fl_tree files !! _) as [[| |]|], io; try done; by injection H2 as <-.
Qed.

End kept.

(** ** What was written is found again *)

(** A location that is reached without links. *)
Definition real_dir (tree : FileTree) (location : list string) : Prop :=
  forall p w, p ++ [w] `prefix_of` location -> tree !! (p ++ [w]) = Some EntryDirectory /\ w <> ".."%string.

Lemma real_dir_root tree : real_dir tree [].
Proof. intros p w Hp%prefix_nil_inv. by destruct p. Qed.

Lemma real_dir_prefix tree l l' : l `prefix_of` l' -> real_dir tree l' -> real_dir tree l.
Proof. intros Hl Hr p w Hp. apply Hr. by etransitivity. Qed.

Lemma prefix_snoc_cases {A} (p l : list A) w : p `prefix_of` l ++ [w] -> p `prefix_of` l \/ p = l ++ [w].
Proof.
  intros [k Hk]. destruct k as [|x k _] using rev_ind; [right; by rewrite app_nil_r in Hk|left].
  rewrite app_assoc in Hk. apply app_inj_tail in Hk as [-> _]. by apply prefix_app_r.
Qed.

Lemma real_dir_snoc tree l w :
  real_dir tree l -> tree !! (l ++ [w]) = Some EntryDirectory -> w <> ".."%string -> real_dir tree (l ++ [w]).
Proof.
  intros Hr Ht Hw p x Hp. apply prefix_snoc_cases in Hp as [Hp|Hp]; [by apply Hr|].
  apply app_inj_tail in Hp as [-> ->]. done.
Qed.

Lemma removelast_prefix {A} (l : list A) : removelast l `prefix_of` l.
Proof.
  destruct l as [|x l] using rev_ind; [done|]. rewrite removelast_last. by apply prefix_app_r.
Qed.

Lemma real_dir_grows tree tree' l : grows tree tree' -> real_dir tree l -> real_dir tree' l.
Proof. intros Hg Hr p w Hp. destruct (Hr p w Hp) as [Ht Hw]. split; [exact (Hg _ _ Ht)|done]. Qed.

Lemma is_directory_snoc tree l w :
  is_directory tree (l ++ [w]) = match tree !! (l ++ [w]) with Some EntryDirectory => true | _ => false end.
Proof. by destruct l. Qed.

Lemma walk_real tree words : forall location, real_dir tree location ->
  match walk tree location words with
  | Arrived l => is_directory tree l = true -> real_dir tree l
  | Followed l _ _ => real_dir tree l
  | Stuck _ => True
  end.
Proof.
  induction words as [|word words IH]; intros location Hr; cbn [walk]; [done|].
  destruct (String.eqb_spec word "..") as [|Hw]; [apply IH; eapply real_dir_prefix; [apply removelast_prefix|done]|].
  destruct (tree !! (location ++ [word])) as [[| |target]|] eqn:Ht;
    [by apply IH, real_dir_snoc| |done|done].
  destruct words; [|done]. by rewrite is_directory_snoc, Ht.
Qed.

Lemma follow_real links tree : forall location words l,
  real_dir tree location -> follow links tree location words = Ok l -> is_directory tree l = true -> real_dir tree l.
Proof.
  induction links as [|links IH]; intros location words l Hr; cbn [follow];
    pose proof (walk_real tree words location Hr) as Hw; destruct (walk tree location words) as [l1|l1 target rest|];
    try done; try (intros [= <-]; done).
  apply IH. destruct (op_absolute _); [apply real_dir_root|done].
Qed.

Lemma walk_real_dir tree rest : forall location,
  real_dir tree (location ++ rest) -> walk tree location rest = Arrived (location ++ rest).
Proof.
  induction rest as [|w rest IH]; intros location Hr; [by rewrite app_nil_r|]. cbn [walk].
  destruct (Hr location w) as [Ht Hw]; [by apply prefix_app, (prefix_app_r [w] [w] rest)|].
  rewrite (proj2 (String.eqb_neq w "..") Hw), Ht. replace (location ++ w :: rest) with ((location ++ [w]) ++ rest) in *
    by by rewrite <- app_assoc. by apply IH.
Qed.

(** A file in the directory that the words lead to. *)
Lemma walk_snoc tree name words : name <> ".."%string -> forall location,
  match walk tree location words with
  | Arrived l => is_directory tree l = true -> forall bytes, tree !! (l ++ [name]) = Some (EntryFile bytes) ->
      walk tree location (words ++ [name]) = Arrived (l ++ [name])
  | Followed l target rest => walk tree location (words ++ [name]) = Followed l target (rest ++ [name])
  | Stuck _ => True
  end.
Proof.
  intros Hn. induction words as [|word words IH]; intros location; cbn [walk app].
  { intros _ bytes Hf. by rewrite (proj2 (String.eqb_neq name "..") Hn), Hf. }
  destruct (String.eqb word ".."); [apply IH|].
  destruct (tree !! (location ++ [word])) as [[| |target]|] eqn:Ht; [apply IH| |done|done].
  destruct words; [|done]. by rewrite is_directory_snoc, Ht.
Qed.

Lemma follow_snoc links tree name bytes l : name <> ".."%string -> is_directory tree l = true ->
  tree !! (l ++ [name]) = Some (EntryFile bytes) -> forall location words,
  follow links tree location words = Ok l -> follow links tree location (words ++ [name]) = Ok (l ++ [name]).
Proof.
  intros Hn Hd Hf. induction links as [|links IH]; intros location words; cbn [follow];
    pose proof (walk_snoc tree name words Hn location) as Hw; destruct (walk tree location words) as [l1|l1 target rest|];
    try done; try (intros [= ->]; by rewrite (Hw Hd bytes)).
  rewrite Hw, app_assoc. apply IH.
Qed.

Lemma make_dirs_again words : forall location tree tree' later,
  make_dirs location words tree = (tree', Ok tt) -> grows tree' later -> make_dirs location words later = (later, Ok tt).
Proof.
  induction words as [|word words IH]; intros location tree tree' later; cbn [make_dirs]; [done|].
  destruct (String.eqb word ".."); [apply IH|].
  destruct (tree !! (location ++ [word])) as [[| |target]|] eqn:Ht.
  - intros Hm Hg. pose proof (make_dirs_adds words (location ++ [word]) tree) as Ha. rewrite Hm in Ha.
    rewrite (transitivity (adds_grows _ _ Ha) Hg _ _ Ht). by eapply IH.
  - by destruct words.
  - intros Hm Hg. destruct (follow MAX_LINKS tree location [word]) as [l|[]] eqn:Ef; try done.
    destruct (is_directory tree l) eqn:Hd; [|done].
    pose proof (make_dirs_adds words l tree) as Ha. rewrite Hm in Ha.
    pose proof (transitivity (adds_grows _ _ Ha) Hg) as Hg'.
    rewrite (Hg' _ _ Ht), (follow_grows _ _ _ Hg' _ _ _ Ef), (is_directory_grows _ _ _ Hg' Hd). by eapply IH.
  - intros Hm Hg. pose proof (make_dirs_adds words (location ++ [word])
      (<[location ++ [word] := EntryDirectory]> tree)) as Ha. rewrite Hm in Ha.
    rewrite (transitivity (adds_grows _ _ Ha) Hg (location ++ [word]) EntryDirectory (lookup_insert_eq _ _ _)).
    by eapply IH.
Qed.

Lemma last_split {A} (words : list A) name : last words = Some name -> words = removelast words ++ [name].
Proof. intros [rest ->]%last_Some. by rewrite removelast_last. Qed.

(** A file in a real directory is where its location says. *)
Lemma read_real tree dir l name bytes : real_dir tree l -> name <> ".."%string ->
  tree !! (l ++ [name]) = Some (EntryFile bytes) ->
  read_bytes (fun _ => None) (mkOsPath true (l ++ [name]) false) (mkFiles tree dir) = (mkFiles tree dir, Ok bytes).
Proof.
  intros Hr Hn Hf. assert (is_directory tree l = true) as Hd.
  { destruct l as [|w l _] using rev_ind; [done|]. rewrite is_directory_snoc. by destruct (Hr l w) as [-> _]. }
  assert (follow MAX_LINKS tree [] l = Ok l) as Hl by (unfold MAX_LINKS; cbn [follow]; by rewrite (walk_real_dir tree l [] Hr)).
  unfold read_bytes, system, locate, start_of. cbn [fl_tree op_absolute op_words op_directory andb].
  rewrite (follow_snoc _ _ _ _ _ Hn Hd Hf _ _ Hl). unfold mbind, result_bind. by rewrite Hf.
Qed.

Lemma create_dir_all_again fails path files files' later :
  create_dir_all fails path files = (files', Ok tt) -> fl_working_dir later = fl_working_dir files ->
  grows (fl_tree files') (fl_tree later) -> create_dir_all (fun _ => None) path later = (later, Ok tt).
Proof.
  unfold create_dir_all, system. destruct (fails _); [done|]. intros Hm Hw Hg. destruct later as [tree dir]. cbn in Hw, Hg.
  destruct (make_dirs _ _ (fl_tree files)) as [tree1 [[]|e]] eqn:Em; [|done]. injection Hm as <-. cbn in Hg. subst dir.
  change (start_of (mkFiles tree (fl_working_dir files)) path) with (start_of files path). cbn [fl_tree].
  by rewrite (make_dirs_again _ _ _ _ _ Em Hg).
Qed.

(** A path that was resolved for a new file leads to it once it is there. *)
Lemma resolve_existing backup_dir fails requested files f1 path later l name bytes :
  resolve_backup_path fails backup_dir requested false files = (f1, Ok path) -> kept backup_dir f1 later ->
  op_directory path = false -> last (op_words path) = Some name -> name <> ".."%string ->
  follow MAX_LINKS (fl_tree f1) (start_of f1 path) (removelast (op_words path)) = Ok l ->
  is_directory (fl_tree f1) l = true -> fl_tree later !! (l ++ [name]) = Some (EntryFile bytes) ->
  resolve_backup_path (fun _ => None) backup_dir requested true later = (later, Ok (mkOsPath true (l ++ [name]) false)).
Proof.
  intros Hres K Hnd Hlast Hn Hf Hd Hfile. pose proof (kp_grows _ _ _ K) as Hg.
  destruct (resolve_new _ _ _ _ _ _ Hres) as (Hdots & Hdir & f0 & base & l' & Hc & Hb & K1 & Hp & Hf' & Hpre).
  rewrite Hf in Hf'. injection Hf' as <-. pose proof (transitivity K1 K) as K'.
  pose proof (create_dir_all_kept backup_dir fails (path_of backup_dir) files) as K0. rewrite Hc in K0. cbn in K0.
  unfold resolve_backup_path. rewrite Hdots. unfold mbind, fallible_bind.
  rewrite (create_dir_all_again _ _ _ _ later Hc (kp_working_dir _ _ _ (transitivity K0 K')) (kp_grows _ _ _ K')).
  unfold canonicalize, system. rewrite Hdir, (locate_kept _ _ _ _ _ K' Hb). cbn [map_err]. rewrite <- Hp.
  assert (locate later path = Ok (l ++ [name])) as ->.
  { unfold locate. rewrite (last_split _ _ Hlast) at 1.
    assert (start_of later path = start_of f1 path) as -> by (unfold start_of; by rewrite (kp_working_dir _ _ _ K)).
    rewrite (follow_snoc _ _ _ _ _ Hn (is_directory_grows _ _ _ Hg Hd) Hfile _ _ (follow_grows _ _ _ Hg _ _ _ Hf)).
    unfold mbind, result_bind. by rewrite Hnd. }
  cbn [map_err]. by rewrite bool_decide_eq_true_2 by by apply prefix_app_r.
Qed.

(** The two files of a backup are found under the path they were written to. *)
Lemma written_found backup_dir fails requested files f1 path io io' text text' bytes bytes' f2 f3 :
  resolve_backup_path fails backup_dir requested false files = (f1, Ok path) ->
  write_backup_file fails io path text bytes f1 = (f2, Ok tt) ->
  write_backup_file fails io' (backup_manifest_path path) text' bytes' f2 = (f3, Ok tt) ->
  exists q, resolve_backup_path (fun _ => None) backup_dir requested true f3 = (f3, Ok q) /\
    read_bytes (fun _ => None) q f3 = (f3, Ok bytes) /\
    read_bytes (fun _ => None) (backup_manifest_path q) f3 = (f3, Ok bytes').
Proof.
  intros Hres Hw1 Hw2. pose proof (resolve_inside _ _ _ _ _ _ Hres) as Hin.
  pose proof (write_kept backup_dir fails io path text bytes f1 Hin) as K2. rewrite Hw1 in K2. cbn in K2.
  pose proof (write_kept backup_dir fails io' _ text' bytes' f2 (inside_manifest _ _ _ (inside_kept _ _ _ _ K2 Hin))) as K3.
  rewrite Hw2 in K3. cbn in K3. pose proof (transitivity K2 K3) as K.
  destruct (write_ok _ _ _ _ _ _ _ Hw1) as (Hnd & l & name & Hlast & Hn & Hf & Hd & ->).
  destruct (write_ok _ _ _ _ _ _ _ Hw2) as (_ & l2 & name2 & Hlast2 & Hn2 & Hf2 & _ & ->).
  unfold backup_manifest_path in Hlast2, Hf2. cbn [op_words] in Hlast2, Hf2. rewrite removelast_last in Hf2.
  rewrite last_snoc, Hlast, (proj2 (String.eqb_neq _ _) Hn) in Hlast2. injection Hlast2 as <-.
  assert (Ok l2 = Ok l :> result IoError _) as [= ->]
    by (etransitivity; [symmetry; exact Hf2|exact (follow_grows _ _ _ (kp_grows _ _ _ K2) _ _ _ Hf)]).
  cbn [fl_tree fl_working_dir] in *. pose proof (kp_grows _ _ _ K) as Hg. cbn [fl_tree] in Hg.
  set (tree := <[l ++ [name +:+ ".manifest.json"] := EntryFile bytes']> _) in *.
  assert (tree !! (l ++ [name +:+ ".manifest.json"]) = Some (EntryFile bytes')) as T2 by apply lookup_insert_eq.
  assert (tree !! (l ++ [name]) = Some (EntryFile bytes)) as T1.
  { unfold tree. rewrite lookup_insert_ne, lookup_insert_eq; [done|]. intros [_ E]%app_inj_tail.
    clear -E. induction name; cbn in E; [done|]. injection E. auto. }
  assert (start_of f1 path = []) as Hs.
  { destruct (resolve_new _ _ _ _ _ _ Hres) as (_ & _ & ? & ? & ? & _ & _ & _ & -> & _). unfold start_of.
    by destruct (op_absolute (path_of requested)) eqn:E; rewrite ?E. }
  pose proof Hf as Hf'. rewrite Hs in Hf'.
  pose proof (real_dir_grows _ _ _ Hg (follow_real _ _ _ _ _ (real_dir_root _) Hf' Hd)) as Hr.
  exists (mkOsPath true (l ++ [name]) false). split; [exact (resolve_existing _ _ _ _ _ _ _ _ _ _ Hres K Hnd Hlast Hn Hf Hd T1)|]. split; [by apply read_real|].
  unfold backup_manifest_path. cbn [op_words op_absolute]. rewrite last_snoc, removelast_last.
  rewrite (proj2 (String.eqb_neq _ _) Hn). by apply read_real.
Qed.
