(* ===== verification/AuditLog.v ===== *)
(** * AuditLog: the hash-chained audit log (crates/server/src/audit.rs,
    server/audit_events.rs)

    A log is a file of JSON lines, each with the hash of the line before.  The bytes
    of the file, also those of a write that fails half-way, are part of the state.
    JSON is a parameter; serde writes compact documents without line breaks. *)

From S2P Require Import Prelude Text Command EngineError Store Wire Request Response ServerError.
From S2P Require Import Consensus Auth Access Status BackupFiles.

Definition AUDIT_VERSION : Z := 1.
Definition HASH_ALGORITHM : string := "sha256".
Definition GENESIS_HASH : string := "0000000000000000000000000000000000000000000000000000000000000000".

(** ** Events *)

Record AuditEvent := mkAuditEvent {
  ae_timestamp_ms : Z;
  ae_connection_id : Z;
  ae_peer : option string;
  ae_username : option string;
  ae_request_id : string;
  ae_opcode : string;
  ae_status : string;
  ae_error_code : option string;
  ae_latency_ms : Z;
  ae_event_type : string;
  ae_details : gmap string string;
}.

(** The fields of the event are kept together. *)
Record HashPayload := mkHashPayload {
  hp_audit_version : Z;
  hp_sequence : Z;
  hp_previous_hash : string;
  hp_hash_algorithm : string;
  hp_event : AuditEvent;
}.

Record ChainedAuditEvent := mkChainedAuditEvent {
  ca_audit_version : Z;
  ca_sequence : Z;
  ca_previous_hash : string;
  ca_event_hash : string;
  ca_hash_algorithm : string;
  ca_event : AuditEvent;
}.

(** A document is an object on one line; it can be read back, and there is nothing
    behind it that could be read with it. *)
Class AuditJson := {
  payload_to_json : HashPayload -> result string (list byte);
  chained_to_json : ChainedAuditEvent -> result string (list byte);
  chained_from_json : string -> result string ChainedAuditEvent;
  payload_to_json_inj p q bytes :
    payload_to_json p = Ok bytes -> payload_to_json q = Ok bytes -> p = q;
  chained_from_to e bytes : chained_to_json e = Ok bytes -> chained_from_json (of_bytes bytes) = Ok e;
  chained_object e bytes : chained_to_json e = Ok bytes ->
    (exists body, bytes = x7b :: (body ++ [x7d])) /\ x0a ∉ bytes /\ utf8_valid bytes = true;
  chained_trailing e e' bytes bytes' :
    chained_to_json e = Ok bytes -> chained_to_json e' = Ok bytes' ->
    is_ok (chained_from_json (of_bytes (bytes ++ bytes'))) = false;
}.

(** ** Lines *)

(** [BufRead::lines]: a line ends with a line feed, with or without a carriage return
    before it; the last line may have no end. *)
Definition strip_cr (line : list byte) : list byte :=
  match last line with Some x0d => removelast line | _ => line end.

Fixpoint lines_from (reversed bytes : list byte) : list (list byte) :=
  match bytes with
  | [] => match reversed with [] => [] | _ => [reverse reversed] end
  | x0a :: bytes => strip_cr (reverse reversed) :: lines_from [] bytes
  | b :: bytes => lines_from (b :: reversed) bytes
  end.
Definition lines (bytes : list byte) : list (list byte) := lines_from [] bytes.

(** [trim().is_empty()]. *)
Definition is_blank (line : string) : bool := forallb is_whitespace (chars line).

(** ** The chain *)

Record AuditChainState := mkAuditChainState {
  ac_next_sequence : Z;
  ac_previous_hash : string;
}.

Definition first_link : AuditChainState := mkAuditChainState 1 GENESIS_HASH.

Record AuditLogger := mkAuditLogger {
  al_file : list byte;
  al_chain : AuditChainState;
}.

Definition chain_error (line : Z) (message : string) : ServerError :=
  SrvAuditChainVerification ("line " +:+ int_to_string line +:+ ": " +:+ message).

Section audit.
Context `{Sha256} `{AuditJson}.

Definition compute_hash (sequence : Z) (previous_hash : string) (event : AuditEvent) : result ServerError string :=
  bytes ← map_err SrvIo (payload_to_json
            (mkHashPayload AUDIT_VERSION sequence previous_hash HASH_ALGORITHM event));
  Ok (hex (sha256 bytes)).

(** One round of the loop of [verify_existing_chain]. *)
Definition verify_line (line_number : Z) (expected : AuditChainState) (bytes : list byte)
    : result ServerError AuditChainState :=
  line ← ok_or (from_utf8 bytes) (SrvIo "stream did not contain valid UTF-8");
  if is_blank line then Err (chain_error line_number "empty audit log line")
  else
    event ← map_err (chain_error line_number) (chained_from_json line);
    if negb (ca_audit_version event =? AUDIT_VERSION) then
      Err (chain_error line_number ("unsupported audit version " +:+ int_to_string (ca_audit_version event)))
    else if negb (bool_decide (ca_hash_algorithm event = HASH_ALGORITHM)) then
      Err (chain_error line_number ("unsupported hash algorithm " +:+ ca_hash_algorithm event))
    else if negb (ca_sequence event =? ac_next_sequence expected) then
      Err (chain_error line_number ("expected sequence " +:+ int_to_string (ac_next_sequence expected) +:+
             ", found " +:+ int_to_string (ca_sequence event)))
    else if negb (bool_decide (ca_previous_hash event = ac_previous_hash expected)) then
      Err (chain_error line_number "previous hash mismatch")
    else
      computed_hash ← compute_hash (ca_sequence event) (ca_previous_hash event) (ca_event event);
      if negb (bool_decide (ca_event_hash event = computed_hash)) then
        Err (chain_error line_number "event hash mismatch")
      else Ok (mkAuditChainState (ac_next_sequence expected + 1) (ca_event_hash event)).

(** The loop; a line is numbered by its place. *)
Definition verify_lines (ls : list (list byte)) : result ServerError AuditChainState :=
  foldM (fun expected '(index, line) => verify_line (Z.of_nat index + 1) expected line) first_link (imap pair ls).

(** There can be no file, or one that cannot be opened. *)
Definition verify_existing_chain (file : result string (option (list byte)))
    : result ServerError AuditChainState :=
  match file with
  | Ok None => Ok first_link
  | Ok (Some bytes) => verify_lines (lines bytes)
  | Err message => Err (SrvIo message)
  end.

End audit.

Module AuditLogger.
Section logger.
Context `{Sha256} `{AuditJson}.

(** [dir] and [opened] are how [create_dir_all] and opening for append end. *)
Definition open (dir : result string unit) (file : result string (option (list byte)))
    (opened : result string unit) : result ServerError AuditLogger :=
  _ ← map_err SrvIo dir;
  chain ← verify_existing_chain file;
  _ ← map_err SrvIo opened;
  Ok (mkAuditLogger (match file with Ok (Some bytes) => bytes | _ => [] end) chain).

(** The document is written to the file piece by piece, then the line feed. *)
Definition record (io : WriteEnd) (event : AuditEvent) : fallible AuditLogger ServerError unit :=
  logger ← mget;
  let sequence := ac_next_sequence (al_chain logger) in
  let previous_hash := ac_previous_hash (al_chain logger) in
  event_hash ← mpure (compute_hash sequence previous_hash event);
  bytes ← mpure (map_err SrvIo (chained_to_json
            (mkChainedAuditEvent AUDIT_VERSION sequence previous_hash event_hash HASH_ALGORITHM event)));
  match io with
  | WriteDone =>
      mput (mkAuditLogger (al_file logger ++ bytes ++ [x0a]) (mkAuditChainState (sequence + 1) event_hash))
  | WriteFailed written message =>
      _ ← mput (mkAuditLogger (al_file logger ++ take written (bytes ++ [x0a])) (al_chain logger));
      mfail (SrvIo message)
  end.

End logger.
End AuditLogger.

(** ** What is recorded (server/audit_events.rs) *)

Definition opcode_name (command : Command) : string :=
  match command with
  | CmdAuth _ _ => "AUTH"
  | CmdPing _ => "PING"
  | CmdGet _ => "GET"
  | CmdGetDel _ => "GETDEL"
  | CmdGetEx _ _ _ => "GETEX"
  | CmdSet _ _ _ => "SET"
  | CmdSetNx _ _ => "SETNX"
  | CmdMGet _ => "MGET"
  | CmdMSet _ => "MSET"
  | CmdDelete _ => "DEL"
  | CmdExists _ => "EXISTS"
  | CmdIncr _ => "INCR"
  | CmdDecr _ => "DECR"
  | CmdExpire _ _ => "EXPIRE"
  | CmdTtl _ => "TTL"
  | CmdPersist _ => "PERSIST"
  | CmdRename _ _ => "RENAME"
  | CmdRenameNx _ _ => "RENAMENX"
  | CmdScan _ _ _ => "SCAN"
  | CmdDbSize => "DBSIZE"
  | CmdInfo => "INFO"
  | CmdMetrics => "METRICS"
  | CmdMetricsProm => "METRICS_PROM"
  | CmdList => "LIST"
  | CmdClear => "CLEAR"
  | CmdCount => "COUNT"
  | CmdSave => "SAVE"
  | CmdSnapshot => "SNAPSHOT"
  | CmdBackup => "BACKUP"
  | CmdBackupTo _ => "BACKUP_TO"
  | CmdBackupVerify _ => "BACKUP_VERIFY"
  | CmdBackupVerifyFrom _ => "BACKUP_VERIFY_FROM"
  | CmdRestore _ => "RESTORE"
  | CmdRestoreFrom _ => "RESTORE_FROM"
  | CmdRestoreCheck _ => "RESTORE_CHECK"
  | CmdRestoreCheckFrom _ => "RESTORE_CHECK_FROM"
  | CmdAlterUserPassword _ _ => "ALTER_USER_PASSWORD"
  | CmdCreateUser _ _ => "CREATE_USER"
  | CmdDropUser _ => "DROP_USER"
  | CmdCreateRole _ => "CREATE_ROLE"
  | CmdDropRole _ => "DROP_ROLE"
  | CmdGrantRole _ _ => "GRANT_ROLE"
  | CmdRevokeRole _ _ => "REVOKE_ROLE"
  | CmdGrantPermission _ _ _ => "GRANT_PERMISSION"
  | CmdRevokePermission _ _ _ => "REVOKE_PERMISSION"
  | CmdShowUsers => "SHOW_USERS"
  | CmdShowRoles => "SHOW_ROLES"
  | CmdShowGrants => "SHOW_GRANTS"
  | CmdShowGrantsForUser _ => "SHOW_GRANTS_FOR_USER"
  | CmdShowGrantsForRole _ => "SHOW_GRANTS_FOR_ROLE"
  | CmdWhoAmI => "WHOAMI"
  | CmdMulti => "MULTI"
  | CmdExec => "EXEC"
  | CmdDiscard => "DISCARD"
  | CmdMaintenanceOn => "MAINTENANCE_ON"
  | CmdMaintenanceOff => "MAINTENANCE_OFF"
  | CmdMaintenanceStatus => "MAINTENANCE_STATUS"
  | CmdHealth => "HEALTH"
  | CmdShowCluster => "SHOW_CLUSTER"
  | CmdClusterJoin _ _ => "CLUSTER_JOIN"
  | CmdClusterRemove _ => "CLUSTER_REMOVE"
  | CmdShowReplication => "SHOW_REPLICATION"
  | CmdPromoteFollower => "PROMOTE_FOLLOWER"
  | CmdPauseReplication => "PAUSE_REPLICATION"
  | CmdResumeReplication => "RESUME_REPLICATION"
  | CmdHelp => "HELP"
  | CmdExit => "EXIT"
  end.

(** The identity of the session is all that is used of it. *)
Record AuditContext := mkAuditContext {
  ax_connection_id : Z;
  ax_peer_addr : option string;
  ax_session : SessionState;
  ax_request_id : Uuid;
  ax_opcode : string;
  ax_status : Status;
  ax_error_code : option string;
  ax_latency_ms : Z;
}.

Definition audit_status (status : Status) : string :=
  match status with
  | StatusOk => "ok"
  | StatusError => "error"
  | StatusNotFound => "not_found"
  end.

Definition semantic_audit_details (command : Command) : option (string * gmap string string) :=
  match command with
  | CmdAuth username _ => Some ("auth", {["username" := username]})
  | CmdCreateUser username _ => Some ("rbac_create_user", {["target_user" := username]})
  | CmdAlterUserPassword username _ => Some ("rbac_alter_user_password", {["target_user" := username]})
  | CmdDropUser username => Some ("rbac_drop_user", {["target_user" := username]})
  | CmdCreateRole role => Some ("rbac_create_role", {["role" := role]})
  | CmdDropRole role => Some ("rbac_drop_role", {["role" := role]})
  | CmdGrantRole role username =>
      Some ("rbac_grant_role", <["target_user" := username]> {["role" := role]})
  | CmdRevokeRole role username =>
      Some ("rbac_revoke_role", <["target_user" := username]> {["role" := role]})
  | CmdGrantPermission permission pattern role =>
      Some ("rbac_grant_permission",
            <["role" := role]> (<["pattern" := pattern]> {["permission" := permission]}))
  | CmdRevokePermission permission pattern role =>
      Some ("rbac_revoke_permission",
            <["role" := role]> (<["pattern" := pattern]> {["permission" := permission]}))
  | _ => None
  end%string.

Section events.
Context `{Sha256} `{AuditJson} (uuid_to_string : list byte -> string).

(** [let _ = logger.record(...)]: whether it was written is not looked at. *)
Definition record_ignored (io : WriteEnd) (event : AuditEvent) (logger : AuditLogger) : AuditLogger :=
  (AuditLogger.record io event logger).1.

Definition record_runtime_event (io : WriteEnd) (now_ms : Z) (event_type : string)
    (details : gmap string string) : AuditLogger -> AuditLogger :=
  record_ignored io (mkAuditEvent now_ms 0 None None (uuid_to_string (replicate 16 x00)) "RUNTIME" "ok" None 0
                       event_type details).

Definition record_audit_event_with (io : WriteEnd) (now_ms : Z) (context : AuditContext)
    (event_type : string) (details : gmap string string) : AuditLogger -> AuditLogger :=
  record_ignored io (mkAuditEvent now_ms (ax_connection_id context) (ax_peer_addr context)
    (id_username <$> se_identity (ax_session context)) (uuid_to_string (ax_request_id context))
    (ax_opcode context) (audit_status (ax_status context)) (ax_error_code context)
    (Z.min (ax_latency_ms context) u64_max) event_type details).

Definition record_audit_event (io : WriteEnd) (now_ms : Z) (context : AuditContext) : AuditLogger -> AuditLogger :=
  record_audit_event_with io now_ms context "command" ∅.

Definition record_command_audit_event (audit_commands : bool) (io : WriteEnd) (now_ms : Z)
    (context : AuditContext) (logger : AuditLogger) : AuditLogger :=
  if audit_commands then record_audit_event io now_ms context logger else logger.

Definition record_semantic_audit_event (io : WriteEnd) (now_ms : Z) (context : AuditContext)
    (command : Command) (logger : AuditLogger) : AuditLogger :=
  match semantic_audit_details command with
  | None => logger
  | Some (event_type, details) =>
      record_audit_event_with io now_ms context event_type
        (<["result"%string := audit_status (ax_status context)]> details) logger
  end.

Definition record_slow_command_event (threshold : option Z) (io : WriteEnd) (now_ms : Z)
    (context : AuditContext) (logger : AuditLogger) : AuditLogger :=
  match threshold with
  | None => logger
  | Some threshold =>
      if ax_latency_ms context <? threshold then logger
      else
        record_audit_event_with io now_ms context "slow_command"
          (<["threshold_ms"%string := int_to_string threshold]>
             (<["latency_ms"%string := int_to_string (ax_latency_ms context)]>
                {["opcode"%string := ax_opcode context]})) logger
  end.

End events.
