(* ===== verification/Elections.v ===== *)
(** * Elections: a cluster of nodes (crates/server/src/server/mod.rs)

    The nodes of a cluster as a transition system.  The steps are the methods of
    [ReplicationRuntime] as [run_election_round], the heartbeat senders, the request
    handlers and the start of a server call them, in any order: messages are sent,
    delivered late, several times or not at all, and nodes restart from their state
    file at any time.  The prevote only delays [begin_election] and is left out; so
    are the operator commands that change the members or promote a node. *)

From S2P Require Import Prelude Text Store ServerError Consensus.
Import ReplicationRuntime.

(** ** The loop of [run_election_round] *)

(** The state of the loop over the members between two of its awaits: [rn_rest]
    are the members still to visit, the first of them being asked when
    [rn_waiting]. *)
Record Round := mkRound {
  rn_term : Z;
  rn_addr : string;
  rn_last_log_index : Z;
  rn_last_log_term : option Z;
  rn_rest : list ClusterMember;
  rn_voters : nat;
  rn_votes : nat;
  rn_waiting : bool;
}.

Definition start_round (addr : string) (probe : Z * list ClusterMember * Z * option Z) : Round :=
  let '(term, members, index, log_term) := probe in mkRound term addr index log_term members 0 1 false.

Definition round_request (self : string) (r : Round) : VoteRequest :=
  mkVoteRequest (rn_term r) self (rn_addr r) (rn_last_log_index r) (rn_last_log_term r) false.

(** [!member.voter || member.node_id == local_node_id]. *)
Definition skipped (self : string) (member : ClusterMember) : bool :=
  negb (cm_voter member) || bool_decide (cm_node_id member = self).

(** The loop goes on to the next member, with a vote or without. *)
Definition advance (member : ClusterMember) (vote : bool) (r : Round) : Round :=
  r {{ rn_rest ::= tail;
       rn_voters := if cm_voter member then S (rn_voters r) else rn_voters r;
       rn_votes := if vote then S (rn_votes r) else rn_votes r;
       rn_waiting := false }}.

(** ** Clusters *)

(** The nodes, the elections in progress, and everything that was ever sent:
    vote requests with their receiver, the replies to them, and the headers of
    heartbeats, appended entries and status replies of leaders.  [cl_started] and
    [cl_elected] record the elections that were begun and won. *)
Record Cluster := mkCluster {
  cl_nodes : gmap string ReplicationRuntime;
  cl_rounds : gmap string Round;
  cl_requests : list (string * VoteRequest);
  cl_replies : list (string * VoteRequest * VoteResponse);
  cl_heartbeats : list HeartbeatRequest;
  cl_started : list (Z * string);
  cl_elected : list (Z * string);
}.

(** The members of a map are filed under their ids and [V] is the set of voters. *)
Definition voter_ids (m : gmap string ClusterMember) : gset string :=
  list_to_set (cm_node_id <$> voters m).
Definition well_keyed (m : gmap string ClusterMember) : Prop :=
  map_Forall (fun k member => cm_node_id member = k) m.
Definition members_ok (V : gset string) (m : gmap string ClusterMember) : Prop :=
  well_keyed m /\ voter_ids m = V.

Section cluster.
Context `{ReplicationJson} (V : gset string).

(** Methods that leave term, vote, role and members alone. *)
Inductive local_step : ReplicationRuntime -> ReplicationRuntime -> Prop :=
| LocalApplied seq term sum rt : local_step rt (set_local_last_applied_state seq term sum rt)
| LocalCommit seq rt : local_step rt (observe_leader_commit seq rt)
| LocalPhase phase n ms rt : local_step rt (update_follower_phase phase n ms rt)
| LocalAck env follower seq term leader rt :
    local_step rt (register_follower_ack env follower seq term leader rt)
| LocalAppend env follower ok seq term leader rt :
    local_step rt (record_append_result env follower ok seq term leader rt)
| LocalDefer env rt : local_step rt (defer_election env rt)
| LocalActivity env rt : local_step rt (note_leader_activity env rt)
| LocalFrontier seq rt : local_step rt (note_leader_frontier seq rt)
| LocalPaused paused rt : local_step rt (set_paused paused rt).

Inductive step : Cluster -> Cluster -> Prop :=
| StepLocal c n rt rt' :
    cl_nodes c !! n = Some rt -> local_step rt rt' ->
    step c (c {{ cl_nodes ::= <[n := rt']> }})
| StepAddress c n rt rt' env addr r :
    cl_nodes c !! n = Some rt -> set_advertise_addr env addr rt = (rt', r) ->
    step c (c {{ cl_nodes ::= <[n := rt']> }})
| StepTerm c n rt rt' env term r :
    cl_nodes c !! n = Some rt -> observe_remote_term env term rt = (rt', r) ->
    step c (c {{ cl_nodes ::= <[n := rt']> }})
| StepRestart c n rt rt' env :
    cl_nodes c !! n = Some rt -> new env (rr_config rt) (Ok (rr_file rt)) = Ok rt' ->
    step c (c {{ cl_nodes ::= <[n := rt']>; cl_rounds ::= delete n }})
| StepBegin c n rt rt' env addr probe :
    cl_nodes c !! n = Some rt -> begin_election env rt = (rt', Ok probe) ->
    step c (c {{ cl_nodes ::= <[n := rt']>;
                 cl_rounds ::= <[n := start_round addr probe]>;
                 cl_started ::= cons (rn_term (start_round addr probe), n) }})
| StepBeginFailed c n rt rt' env err :
    cl_nodes c !! n = Some rt -> begin_election env rt = (rt', Err err) ->
    step c (c {{ cl_nodes ::= <[n := rt']> }})
| StepSkip c n r member :
    cl_rounds c !! n = Some r -> head (rn_rest r) = Some member -> skipped n member = true ->
    step c (c {{ cl_rounds ::= <[n := advance member false r]> }})
| StepAsk c n r member :
    cl_rounds c !! n = Some r -> head (rn_rest r) = Some member -> skipped n member = false ->
    step c (c {{ cl_rounds ::= <[n := r {{ rn_waiting := true }}]>;
                 cl_requests ::= cons (cm_node_id member, round_request n r) }})
| StepVote c v rt rt' env request response :
    (v, request) ∈ cl_requests c -> cl_nodes c !! v = Some rt ->
    handle_vote_request env request rt = (rt', Ok response) ->
    step c (c {{ cl_nodes ::= <[v := rt']>; cl_replies ::= cons (v, request, response) }})
| StepVoteFailed c v rt rt' env request err :
    (v, request) ∈ cl_requests c -> cl_nodes c !! v = Some rt ->
    handle_vote_request env request rt = (rt', Err err) ->
    step c (c {{ cl_nodes ::= <[v := rt']> }})
| StepReceive c n r member response :
    cl_rounds c !! n = Some r -> rn_waiting r = true -> head (rn_rest r) = Some member ->
    (cm_node_id member, round_request n r, response) ∈ cl_replies c ->
    vs_term response <= rn_term r ->
    step c (c {{ cl_rounds ::= <[n := advance member (vs_vote_granted response) r]> }})
| StepOutvoted c n r rt rt' env response res :
    cl_rounds c !! n = Some r -> cl_nodes c !! n = Some rt -> rn_term r < vs_term response ->
    observe_remote_term env (vs_term response) rt = (rt', res) ->
    step c (c {{ cl_nodes ::= <[n := rt']>; cl_rounds ::= delete n }})
| StepGiveUp c n r member :
    cl_rounds c !! n = Some r -> rn_waiting r = true -> head (rn_rest r) = Some member ->
    step c (c {{ cl_rounds ::= <[n := advance member false r]> }})
| StepFinalize c n r rt rt' env res :
    cl_rounds c !! n = Some r -> rn_rest r = [] -> cl_nodes c !! n = Some rt ->
    finalize_election env (rn_term r) (rn_votes r) (Nat.max (rn_voters r) 1) rt = (rt', res) ->
    step c (c {{ cl_nodes ::= <[n := rt']>;
                 cl_rounds ::= delete n;
                 cl_elected ::= if bool_decide (role rt' = RoleLeader)
                                then cons (current_term rt', n) else id }})
| StepSend c n rt request members :
    cl_nodes c !! n = Some rt -> leader_heartbeat_payload rt = Some request ->
    members_ok V (insert_members members ∅) ->
    step c (c {{ cl_heartbeats ::= cons (request {{ hb_members := members }}) }})
| StepHeartbeat c n rt rt' env request res :
    request ∈ cl_heartbeats c -> cl_nodes c !! n = Some rt ->
    handle_heartbeat env request rt = (rt', res) ->
    step c (c {{ cl_nodes ::= <[n := rt']> }})
| StepStatus c n rt rt' env request addr res :
    request ∈ cl_heartbeats c -> cl_nodes c !! n = Some rt ->
    observe_leader_status env (hb_leader_node_id request) addr (hb_term request)
      (hb_commit_sequence request) (hb_leader_frontier_sequence request) (hb_members request) rt
      = (rt', res) ->
    step c (c {{ cl_nodes ::= <[n := rt']> }}).

(** A cluster at its first start: every node is one of the voters and is configured
    with them, and no node has a state file yet. *)
Definition initial (c : Cluster) : Prop :=
  map_Forall (fun n rt =>
    n ∈ V /\ rc_node_id (rr_config rt) = n /\
    members_ok V (insert_members (rc_initial_members (rr_config rt)) ∅) /\
    exists env, new env (rr_config rt) (Ok None) = Ok rt) (cl_nodes c) /\
  c = mkCluster (cl_nodes c) ∅ [] [] [] [] [].

Inductive reachable : Cluster -> Prop :=
| reachable_initial c : initial c -> reachable c
| reachable_step c c' : reachable c -> step c c' -> reachable c'.

End cluster.
