(* ===== verification/ElectionFacts.v ===== *)
(** * ElectionFacts: why a term has at most one leader

    What each method does to term, vote, role, members and state file of a node
    ([follows]), the invariant of reachable clusters ([election_inv]) and that every
    step keeps it. *)

From S2P Require Import Prelude Text Store ServerError Consensus Elections.
Import ReplicationRuntime.

(** ** Members *)

Lemma well_keyed_ids m :
  well_keyed m -> cm_node_id <$> values_in_order m = (entries_in_order m).*1.
Proof.
  intros Hm. unfold values_in_order. rewrite <- list_fmap_compose.
  apply list_fmap_ext. intros i [k mb] Hi%list_elem_of_lookup_2%entries_in_order_elem. by apply Hm.
Qed.

Lemma elem_of_voters m mb : mb ∈ voters m <-> (exists k, m !! k = Some mb) /\ cm_voter mb = true.
Proof.
  unfold voters. rewrite list_elem_of_In, filter_In, <- list_elem_of_In. by rewrite values_in_order_elem.
Qed.

Lemma elem_of_voter_ids m k :
  well_keyed m -> k ∈ voter_ids m <-> exists mb, m !! k = Some mb /\ cm_voter mb = true.
Proof.
  intros Hm. unfold voter_ids. rewrite elem_of_list_to_set, list_elem_of_fmap. split.
  - intros (mb & -> & [[k' Hk] Hv]%elem_of_voters). exists mb. by rewrite (Hm k' mb Hk).
  - intros (mb & Hk & Hv). exists mb. split; [by rewrite (Hm k mb Hk)|]. apply elem_of_voters. eauto.
Qed.

Lemma voter_ids_NoDup m : well_keyed m -> NoDup (cm_node_id <$> voters m).
Proof.
  intros Hm. eapply sublist_NoDup; [apply (entries_in_order_NoDup m)|].
  rewrite <- well_keyed_ids by done. apply fmap_sublist. unfold voters.
  induction (values_in_order m) as [|x l IH]; cbn; [constructor|]. destruct (cm_voter x); by constructor.
Qed.

Lemma voters_length V m : members_ok V m -> length (voters m) = size V.
Proof.
  intros [Hm <-]. unfold voter_ids. rewrite size_list_to_set by by apply voter_ids_NoDup.
  by rewrite length_fmap.
Qed.

Lemma insert_members_spec l m k :
  NoDup (cm_node_id <$> l) ->
  insert_members l m !! k =
    match List.find (fun mb => bool_decide (cm_node_id mb = k)) l with
    | Some mb => Some mb
    | None => m !! k
    end.
Proof.
  unfold insert_members. revert m. induction l as [|mb l IH]; intros m; [done|].
  intros [Hn Hl]%NoDup_cons. cbn [foldl List.find]. rewrite IH by done.
  case_bool_decide as Hk; [subst k|].
  - destruct (List.find _ l) as [mb'|] eqn:E; [|by rewrite lookup_insert_eq].
    apply find_some in E as [Hin Heq%bool_decide_eq_true]. destruct Hn. rewrite <- Heq.
    apply list_elem_of_fmap. exists mb'. split; [done|]. by apply list_elem_of_In.
  - destruct (List.find _ l); [done|]. by rewrite lookup_insert_ne.
Qed.

Lemma insert_members_values m : well_keyed m -> insert_members (values_in_order m) ∅ = m.
Proof.
  intros Hm. apply map_eq. intros k.
  rewrite insert_members_spec by (rewrite well_keyed_ids by done; apply entries_in_order_NoDup).
  destruct (List.find _ _) as [mb|] eqn:E.
  - apply find_some in E as [Hin Hk%bool_decide_eq_true].
    apply list_elem_of_In, values_in_order_elem in Hin as [k' Hk']. by rewrite <- Hk, (Hm _ _ Hk').
  - rewrite lookup_empty. destruct (m !! k) as [mb|] eqn:Hk; [|done].
    apply (find_none _ _) with (x := mb) in E.
    + apply bool_decide_eq_false in E. by apply (Hm k mb) in Hk.
    + apply list_elem_of_In, values_in_order_elem. eauto.
Qed.

Lemma is_voting_member_ok V st k : members_ok V (rp_members st) -> is_voting_member st k = bool_decide (k ∈ V).
Proof.
  intros [Hm <-]. unfold is_voting_member. symmetry.
  destruct (rp_members st !! k) as [mb|] eqn:Hk; [destruct (cm_voter mb) eqn:Hv|].
  - apply bool_decide_eq_true. rewrite elem_of_voter_ids by done. by exists mb.
  - apply bool_decide_eq_false. rewrite elem_of_voter_ids by done. intros (mb' & ? & ?). congruence.
  - apply bool_decide_eq_false. rewrite elem_of_voter_ids by done. intros (mb' & ? & ?). congruence.
Qed.

Lemma upsert_address_ok V m id addr : members_ok V m -> id ∈ V -> members_ok V (upsert_address id addr m).
Proof.
  intros [Hm <-] Hid. apply elem_of_voter_ids in Hid as (mb & Hk & Hv); [|done].
  unfold upsert_address. rewrite Hk.
  assert (well_keyed (<[id := mb {{ cm_advertise_addr := addr }}]> m)) as Hm'.
  { apply map_Forall_insert_2; [|done]. exact (Hm id mb Hk). }
  split; [done|]. apply set_eq. intros k. rewrite !elem_of_voter_ids by done.
  destruct (decide (k = id)) as [->|Hne]; [|by rewrite lookup_insert_ne].
  rewrite lookup_insert_eq. split; intros _; [eauto|]. by eexists.
Qed.

(** ** What the methods do to a node *)

Section nodes.
Context `{ReplicationJson} (V : gset string).

(** What the state file says. *)
Definition on_file (rt : ReplicationRuntime) : option PersistedReplicationState :=
  bytes ← rr_file rt;
  match persisted_from_json bytes with Ok p => Some p | Err _ => None end.

Definition to_persist (st : ReplicationState) : PersistedReplicationState :=
  mkPersistedReplicationState (rp_current_term st) (rp_voted_for st) (values_in_order (rp_members st)).

Lemma persist_state_spec io rt rt' r :
  persist_state io rt = (rt', r) ->
  rr_config rt' = rr_config rt /\ rr_state rt' = rr_state rt /\
  (rr_file rt' = rr_file rt \/ on_file rt' = Some (to_persist (rr_state rt))) /\
  (r = Ok tt -> on_file rt' = Some (to_persist (rr_state rt))).
Proof.
  unfold persist_state, mbind, fallible_bind, mget, mpure, mput, mfail.
  destruct (persisted_to_json _) as [bytes|e] eqn:E; cbn.
  - apply persisted_from_to in E. destruct io as [|[] message]; intros [= <- <-]; cbn.
    all: unfold on_file; cbn; rewrite ?E; naive_solver.
  - intros [= <- <-]. naive_solver.
Qed.

(** Term and vote of a node move on without breaking a promise: the term grows, or
    it stays and the vote is set at most once, or overwritten with a leader of the
    term.  At the largest term, where [saturating_add] has no next one, nothing is
    promised. *)
Definition continues (elected : list (Z * string)) (t : Z) (v : option string)
    (t' : Z) (v' : option string) : Prop :=
  t < t' \/ u64_max <= t /\ u64_max <= t' \/
  t = t' /\ (v' = v \/ v = None \/ exists leader, (t, leader) ∈ elected /\ v' = Some leader).

Lemma continues_refl elected t v : continues elected t v t v.
Proof. right; right. auto. Qed.

Lemma continues_trans elected t v t' v' t'' v'' :
  continues elected t v t' v' -> continues elected t' v' t'' v'' -> continues elected t v t'' v''.
Proof.
  intros [?|[?|[-> H1]]] [?|[?|[-> H2]]]; try (left; lia); try (right; left; lia);
    try (destruct (Z.lt_ge_cases t u64_max); [left; lia|right; left; lia]).
  right; right. split; [done|].
  destruct H2 as [->|[->|H2]]; [done| |by right; right].
  destruct H1 as [?|[?|(l & _ & ?)]]; [right; left; congruence|by right; left|congruence].
Qed.

(** A method as the invariant sees it; the file may have been written half way. *)
Record follows (elected : list (Z * string)) (rt rt' : ReplicationRuntime) : Prop := {
  fl_config : rr_config rt' = rr_config rt;
  fl_members : rc_node_id (rr_config rt) ∈ V -> members_ok V (rp_members (rr_state rt)) ->
    members_ok V (rp_members (rr_state rt'));
  fl_vote : continues elected (current_term rt) (rp_voted_for (rr_state rt))
              (current_term rt') (rp_voted_for (rr_state rt'));
  fl_file : rr_file rt' = rr_file rt \/
    exists p, on_file rt' = Some p /\
      continues elected (current_term rt) (rp_voted_for (rr_state rt))
        (pr_current_term p) (pr_voted_for p) /\
      (rc_node_id (rr_config rt) ∈ V -> members_ok V (rp_members (rr_state rt)) ->
       members_ok V (insert_members (pr_members p) ∅));
  fl_role : role rt' = RoleLeader -> role rt = RoleLeader /\ current_term rt' = current_term rt;
}.

Lemma follows_refl elected rt : follows elected rt rt.
Proof. split; auto using continues_refl. Qed.

Lemma follows_trans elected rt rt' rt'' :
  follows elected rt rt' -> follows elected rt' rt'' -> follows elected rt rt''.
Proof.
  intros [Hc Hm Hv Hf Hr] [Hc' Hm' Hv' Hf' Hr']. split.
  - congruence.
  - rewrite Hc in Hm'. auto.
  - eauto using continues_trans.
  - destruct Hf' as [E|(p & Hp & Hvp & Hmp)]; [unfold on_file in *; by rewrite E|]. right. exists p. split_and!; [done| |].
    + eauto using continues_trans.
    + rewrite Hc in Hmp. auto.
  - intros [Hl Ht]%Hr'. apply Hr in Hl as [? ?]. split; [done|congruence].
Qed.

Lemma follows_local elected rt rt' : local_step rt rt' -> follows elected rt rt'.
Proof.
  intros Hs. assert (rr_config rt' = rr_config rt /\ rr_file rt' = rr_file rt /\
    rp_members (rr_state rt') = rp_members (rr_state rt) /\ current_term rt' = current_term rt /\
    rp_voted_for (rr_state rt') = rp_voted_for (rr_state rt) /\ role rt' = role rt)
    as (Hc & Hf & Hm & Ht & Hv & Hr).
  { destruct Hs; cbn; repeat (done || case_match). }
  split; [done|by rewrite Hm|rewrite Ht, Hv; apply continues_refl|by left|by rewrite Hr].
Qed.

(** Saving the state. *)
Lemma follows_persist elected io rt rt' r :
  persist_state io rt = (rt', r) ->
  follows elected rt rt' /\ rr_state rt' = rr_state rt /\
  (r = Ok tt -> on_file rt' = Some (to_persist (rr_state rt'))).
Proof.
  intros (Hc & Hs & Hf & Hok)%persist_state_spec. rewrite Hs. split; [|done].
  split; unfold current_term, role; rewrite ?Hs; auto using continues_refl.
  destruct Hf as [->|Hf]; [by left|right]. exists (to_persist (rr_state rt)).
  split; [done|]. split; [apply continues_refl|]. intros _ [Hm Hv].
  cbn [pr_members to_persist]. by rewrite insert_members_values.
Qed.

(** Changing the state. *)
Lemma follows_modify elected f rt :
  (rc_node_id (rr_config rt) ∈ V -> members_ok V (rp_members (rr_state rt)) ->
   members_ok V (rp_members (f (rr_state rt)))) ->
  continues elected (current_term rt) (rp_voted_for (rr_state rt))
    (rp_current_term (f (rr_state rt))) (rp_voted_for (f (rr_state rt))) ->
  (rp_role (f (rr_state rt)) = RoleLeader ->
   role rt = RoleLeader /\ rp_current_term (f (rr_state rt)) = current_term rt) ->
  follows elected rt (update f rt).
Proof. intros Hm Hv Hr. split; auto. Qed.

Lemma follows_save elected f io rt rt' r :
  follows elected rt (update f rt) -> (_ ← modify f; persist_state io) rt = (rt', r) ->
  follows elected rt rt' /\ rr_state rt' = f (rr_state rt) /\
  (r = Ok tt -> on_file rt' = Some (to_persist (rr_state rt'))).
Proof.
  intros Hf Hx. unfold mbind, fallible_bind, modify, mmodify in Hx.
  apply (follows_persist elected) in Hx as (Hf' & Hs & Hok). eauto using follows_trans.
Qed.

Lemma follows_address elected env addr rt rt' r :
  set_advertise_addr env addr rt = (rt', r) -> follows elected rt rt'.
Proof.
  intros Hx. eapply (follows_save elected (fun st => st {{ rp_members ::=
    upsert_address (rc_node_id (rr_config rt)) addr }})); [|exact Hx].
  apply follows_modify; cbn; auto using upsert_address_ok, continues_refl.
Qed.

Lemma follows_adopt elected term at_ frontier rt :
  current_term rt < term ->
  follows elected rt (update (fun st => (adopt_term term at_ st) {{ rp_leader_target_sequence := frontier st }}) rt).
Proof.
  intros Ht. apply follows_modify; [done|by left|]. cbn.
  case_bool_decide as E; intros Hr; [|done]. by rewrite E in Hr.
Qed.

Lemma follows_observe_term elected env term rt rt' r :
  observe_remote_term env term rt = (rt', r) -> follows elected rt rt'.
Proof.
  unfold observe_remote_term, mbind at 1, fallible_bind at 1, mget.
  destruct (Z.ltb_spec (current_term rt) term) as [Ht|Ht]; [|intros [= <- _]; apply follows_refl].
  intros Hx. eapply follows_save; [|exact Hx].
  by apply (follows_adopt elected term _ (fun _ => 0)).
Qed.

Lemma follows_leader elected env term leader addr commit frontier ms rt :
  (term, leader) ∈ elected -> current_term rt <= term ->
  (members_ok V (rp_members (rr_state rt)) -> members_ok V ms) ->
  follows elected rt (update (follow_leader (rr_config rt) env term leader addr commit frontier ms) rt).
Proof.
  intros He Ht Hm. apply follows_modify; [auto| |]; cbn.
  - destruct (Z.ltb_spec (rp_current_term (rr_state rt)) term) as [?|?]; [by left|right; right].
    split; [done|]. right; right. exists leader. split; [|done].
    by replace (current_term rt) with term by (unfold current_term in *; lia).
  - case_bool_decide as E; intros Hr; [|done]. by rewrite E in Hr.
Qed.

Lemma follows_heartbeat elected env request rt rt' r :
  (hb_term request, hb_leader_node_id request) ∈ elected ->
  members_ok V (insert_members (hb_members request) ∅) ->
  handle_heartbeat env request rt = (rt', r) -> follows elected rt rt'.
Proof.
  intros He Hm. unfold handle_heartbeat, mbind at 1, fallible_bind at 1, mget at 1.
  destruct (_ || _) eqn:Hg; [intros [= <- _]; apply follows_refl|].
  apply orb_false_iff in Hg as [_ Ht%Z.ltb_ge].
  unfold mbind, fallible_bind, modify, mmodify, mget. destruct (persist_state _ _) as [rt1 r1] eqn:Hp.
  apply (follows_persist elected) in Hp as (Hf & _ & _). intros Hx.
  assert (rt' = rt1) as -> by (by destruct r1; injection Hx). eapply follows_trans; [|exact Hf].
  by apply follows_leader.
Qed.

Lemma follows_status elected env leader addr term commit frontier ms rt rt' r :
  (term, leader) ∈ elected -> members_ok V (insert_members ms ∅) ->
  observe_leader_status env leader addr term commit frontier ms rt = (rt', r) ->
  follows elected rt rt'.
Proof.
  intros He Hm. unfold observe_leader_status, mbind at 1, fallible_bind at 1, mget at 1.
  destruct (Z.ltb_spec term (current_term rt)) as [Ht|Ht]; [intros [= <- _]; apply follows_refl|].
  intros Hx. eapply follows_save; [|exact Hx].
  apply (follows_leader elected env term leader addr commit frontier
    (match ms with [] => rp_members (rr_state rt) | _ => insert_members ms ∅ end)); [done|done|].
  destruct ms; auto.
Qed.

(** A candidate votes for itself in a new term. *)
Lemma begin_election_spec elected env rt rt' r :
  begin_election env rt = (rt', r) ->
  follows elected rt rt' /\ current_term rt' = saturating_add (current_term rt) 1 /\
  forall probe, r = Ok probe ->
    probe.1.1.1 = current_term rt' /\ probe.1.1.2 = values_in_order (rp_members (rr_state rt)) /\
    on_file rt' = Some (to_persist (rr_state rt')) /\
    rp_voted_for (rr_state rt') = Some (rc_node_id (rr_config rt)).
Proof.
  unfold begin_election, mbind, fallible_bind, mget, modify, mmodify.
  destruct (persist_state _ _) as [rt1 r1] eqn:Hp. intros Hx.
  apply (follows_persist elected) in Hp as (Hf & Hst & Hok).
  assert (rt' = rt1) as -> by (by destruct r1; injection Hx). unfold current_term in *. rewrite Hst in *.
  split; [|split].
  - eapply follows_trans; [|exact Hf]. apply follows_modify; [done| |done].
    cbn. unfold continues, current_term. width_lia.
  - done.
  - intros probe ->. destruct r1 as [[]|e]; [injection Hx as <-|discriminate Hx].
    split_and!; [done|done|by apply Hok|done].
Qed.

(** A vote that is granted is for a candidate among the voters, in the term of the
    request, by a node that had not voted for another, and is on file. *)
Lemma handle_vote_request_spec elected env request rt rt' r :
  members_ok V (rp_members (rr_state rt)) -> vr_prevote request = false ->
  handle_vote_request env request rt = (rt', r) ->
  follows elected rt rt' /\
  forall response, r = Ok response -> vs_vote_granted response = true ->
    current_term rt <= vr_term request /\
    (current_term rt = vr_term request ->
     rp_voted_for (rr_state rt) = None \/
     rp_voted_for (rr_state rt) = Some (vr_candidate_node_id request)) /\
    current_term rt' = vr_term request /\
    rp_voted_for (rr_state rt') = Some (vr_candidate_node_id request) /\
    on_file rt' = Some (to_persist (rr_state rt')).
Proof.
  intros Hm Hpre. unfold handle_vote_request, mbind at 1, fallible_bind at 1, mget at 1.
  rewrite (is_voting_member_ok V) by done. case_bool_decide as Hc; cbn [negb].
  2: { intros [= <- <-]. split; [apply follows_refl|]. by intros ? [= <-]. }
  destruct (Z.ltb_spec (vr_term request) (current_term rt)) as [Hlt|Hle].
  { intros [= <- <-]. split; [apply follows_refl|]. by intros ? [= <-]. }
  rewrite Hpre. set (bump := if current_term rt <? vr_term request then _ else _).
  unfold mbind at 1, fallible_bind at 1. destruct (bump rt) as [rt1 r1] eqn:Hb.
  assert (follows elected rt rt1 /\ (r1 = Ok tt -> current_term rt1 = vr_term request /\
    (current_term rt < vr_term request \/ rt1 = rt))) as [Hf1 Ht1].
  { subst bump. destruct (Z.ltb_spec (current_term rt) (vr_term request)) as [Hn|Hn].
    - apply (follows_save elected) in Hb as (Hf & Hs & _).
      + split; [done|]. intros _. unfold current_term. rewrite Hs. cbn. auto.
      + exact (follows_adopt elected _ _ (fun st => rp_leader_target_sequence st) rt Hn).
    - injection Hb as <- <-. split; [apply follows_refl|]. intros _.
      split; [lia|auto]. }
  destruct r1 as [[]|e1]; [|intros [= <- <-]; by split].
  destruct (Ht1 eq_refl) as [Hterm Hvoted]. clear Ht1 Hb bump.
  unfold mbind at 1, fallible_bind at 1, mget at 1.
  destruct (_ && negb _); [intros [= <- <-]; split; [done|]; by intros ? [= <-]|].
  destruct (up_to_date _ _); cbn [negb andb]; [|intros [= <- <-]; split; [done|]; by intros ? [= <-]].
  rewrite andb_false_r. set (granted := _ || _).
  destruct granted eqn:Hg; [|intros [= <- <-]; split; [done|]; by intros ? [= <-]].
  unfold mbind, fallible_bind, mget, modify, mmodify. destruct (persist_state _ _) as [rt2 r2] eqn:Hp.
  apply (follows_persist elected) in Hp as (Hf2 & Hs2 & Hok2). intros Hx.
  assert (rt' = rt2) as -> by (by destruct r2; injection Hx).
  assert (rp_voted_for (rr_state rt1) = None \/
    rp_voted_for (rr_state rt1) = Some (vr_candidate_node_id request)) as Hfree.
  { apply orb_true_iff in Hg as [?%bool_decide_eq_true|?%bool_decide_eq_true]; auto. }
  split.
  - eapply follows_trans; [exact Hf1|]. eapply follows_trans; [|exact Hf2].
    apply follows_modify; cbn.
    + intros _ Hm1. by apply upsert_address_ok.
    + right; right. split; [done|]. destruct Hfree as [->| ->]; auto.
    + case_bool_decide as E; intros Hr; [|done]. by rewrite E in Hr.
  - intros response -> Hgr. unfold current_term in *. rewrite Hs2 in *. split_and!; [done| |done|done|].
    + intros Heq. destruct Hvoted as [?| ->]; [lia|done].
    + apply Hok2. by destruct r2 as [[]|].
Qed.

(** A node becomes leader only with a quorum in the term of the election. *)
Lemma finalize_election_spec elected env term votes members rt rt' r :
  finalize_election env term votes members rt = (rt', r) ->
  follows elected (rt {{ rr_state ::= fun st => st {{ rp_role := role rt' }} }}) rt' /\
  current_term rt' = current_term rt /\
  (role rt' = RoleLeader -> role rt = RoleLeader \/
   current_term rt = term /\ (quorum_size members <= votes)%nat).
Proof.
  unfold finalize_election, mbind at 1, fallible_bind at 1, mget at 1.
  assert (follows elected (rt {{ rr_state ::= fun st => st {{ rp_role := role rt }} }}) rt) as Hrefl
    by (split; cbn; auto using continues_refl).
  destruct (_ || _) eqn:Hg; [intros [= <- <-]; auto|].
  apply orb_false_iff in Hg as [Ht%negb_false_iff%Z.eqb_eq _].
  destruct (Nat.ltb_spec votes (quorum_size members)) as [Hq|Hq]; [intros [= <- <-]; auto|].
  unfold mbind, fallible_bind, modify, mmodify. destruct (persist_state _ _) as [rt1 r1] eqn:Hp. intros Hx.
  apply (follows_persist elected) in Hp as (Hf & Hst & _).
  assert (rt' = rt1) as -> by (by destruct r1; injection Hx). unfold current_term, role in *.
  rewrite Hst. split; [|split; [done|auto]]. eapply follows_trans; [|exact Hf].
  split; cbn; auto using continues_refl.
Qed.

(** A node that starts takes term, vote and members from its file, and is not the
    leader of a cluster with more than one voter. *)
Lemma new_spec env config file rt :
  (2 <= size V)%nat -> rc_node_id config ∈ V ->
  members_ok V (insert_members (rc_initial_members config) ∅) ->
  (forall p, on_file rt = Some p -> members_ok V (insert_members (pr_members p) ∅)) ->
  new env config (Ok file) = Ok rt ->
  rr_config rt = config /\ rr_file rt = file /\ role rt <> RoleLeader /\
  members_ok V (rp_members (rr_state rt)) /\
  forall p, on_file rt = Some p ->
    current_term rt = pr_current_term p /\ rp_voted_for (rr_state rt) = pr_voted_for p.
Proof.
  intros HV Hid Hinit Hfile. unfold new. intros (persisted & Hload & Hx)%result_bind_ok.
  cbn [rr_file] in Hfile.
  set (members0 := insert_members _ ∅) in Hx.
  assert (rr_file rt = file) as Hrf by (by injection Hx as <-).
  assert (on_file rt = persisted) as Hp.
  { unfold on_file. rewrite Hrf. unfold load_persisted_state in Hload. destruct file as [bytes|]; cbn in *.
    - by destruct (persisted_from_json bytes); cbn in *; simplify_eq.
    - by simplify_eq. }
  assert (members_ok V members0) as Hm0.
  { subst members0. destruct persisted as [p|]; [by apply Hfile|done]. }
  set (members := match rc_advertise_addr config, members0 !! rc_node_id config with
    | Some addr, None => _ | _, _ => members0 end) in Hx.
  assert (members = members0) as Hm.
  { subst members. destruct Hm0 as [Hk Hv]. rewrite <- Hv in Hid.
    apply elem_of_voter_ids in Hid as (mb & Hl & _); [|done]. rewrite Hl. by destruct (rc_advertise_addr config). }
  rewrite Hm in Hx. clearbody members0. clear members Hm Hfile.
  assert (Nat.ltb 1 (length (voters members0)) = true) as Hpeers.
  { apply Nat.ltb_lt. rewrite (voters_length V) by done. lia. }
  rewrite Hpeers in Hx. injection Hx as <-. split_and!; [done|done| |done|].
  - unfold role. cbn. destruct (rc_role config); cbn; done.
  - rewrite Hp. intros p ->. done.
Qed.

End nodes.
