(* ===== verification/Wal.v ===== *)
(** * Wal: the segmented write-ahead log on disk (crates/engine/src/store/wal.rs)

    The WAL directory is a finite map from file names to contents, names parsed
    and printed as the source does.  Writing is the only file operation that can
    fail here: [dk_space] bounds the bytes that can still be written, and a write
    past it leaves the bytes that fitted, as [write_all] does on a full disk.
    Directory operations succeed; syncing has no effect on the contents.  An open
    file handle is the name it was opened under: the source closes the handle
    before every rename or removal.  [rmp_serde] is the class [Binary]. *)

From S2P Require Import Prelude Text EngineError Store State Crypto.

(** [binary::encode] and [binary::decode] (store/binary.rs) over [rmp_serde]. *)
Class Binary (A : Type) := {
  binary_encode : A -> result string (list byte);
  binary_decode : list byte -> result string A;
  binary_decode_encode a bs : binary_encode a = Ok bs -> binary_decode bs = Ok a;
}.

Definition MAX_WAL_ENTRY_SIZE : Z := 4 * 1024 * 1024.

Inductive WalSyncPolicy := Buffered | Flush | SyncData.

(** [WalSyncPolicy::as_str]. *)
Definition WalSyncPolicy_as_str (p : WalSyncPolicy) : string :=
  match p with Buffered => "buffered" | Flush => "flush" | SyncData => "sync" end.

Definition DEFAULT_WAL_SEGMENT_SIZE_BYTES : Z := 64 * 1024 * 1024.
Definition DEFAULT_WAL_RETAIN_SEGMENTS : Z := 128.

Record WalReplay := mkWalReplay {
  wr_entries : list WalEntry;
  wr_segment_count : Z;
  wr_oldest_retained_sequence : option Z;
  wr_newest_sequence : option Z;
}.

Inductive WalReplayTarget :=
| TargetSequence (sequence : Z)
| TargetTimestampMs (timestamp_ms : Z).

Record WalSegmentReport := mkWalSegmentReport {
  sr_segment_count : Z;
  sr_sealed_segment_count : Z;
  sr_active_segment_count : Z;
  sr_oldest_retained_sequence : option Z;
  sr_active_start_sequence : Z;
  sr_newest_sequence : option Z;
  sr_total_size_bytes : Z;
}.

Record SegmentFile := mkSegmentFile {
  sf_path : string;
  sf_start_sequence : Z;
  sf_end_sequence : option Z;
  sf_active : bool;
}.

#[export] Instance SegmentFile_eq_dec : EqDecision SegmentFile.
Proof. solve_decision. Defined.

(** [SegmentFile::sort_key]: the pair [(start_sequence, active)], in its order. *)
Definition sort_key_le (a b : SegmentFile) : Prop :=
  sf_start_sequence a < sf_start_sequence b \/
  (sf_start_sequence a = sf_start_sequence b /\ (sf_active a = true -> sf_active b = true)).

#[export] Instance sort_key_le_dec a b : Decision (sort_key_le a b).
Proof. unfold sort_key_le. apply _. Defined.

(** ** The disk *)

Notation WalDir := (gmap string (list byte)).

(** The data directory: the WAL directory, and the single files beside it. *)
Record Disk := mkDisk {
  dk_wal : WalDir;
  dk_snapshot : option (list byte);
  dk_manifest : option (list byte);
  dk_keyring : option (list byte);
  dk_legacy_wal : option (list byte);
  dk_space : option Z;
}.

Notation disk A := (fallible Disk EngineError A).

Definition with_wal (d : Disk) (dir : WalDir) : Disk :=
  mkDisk dir (dk_snapshot d) (dk_manifest d) (dk_keyring d) (dk_legacy_wal d) (dk_space d).

Definition with_space (d : Disk) (space : option Z) : Disk :=
  mkDisk (dk_wal d) (dk_snapshot d) (dk_manifest d) (dk_keyring d) (dk_legacy_wal d) space.

Definition with_legacy_wal (d : Disk) (legacy : option (list byte)) : Disk :=
  mkDisk (dk_wal d) (dk_snapshot d) (dk_manifest d) (dk_keyring d) legacy (dk_space d).

(** [file.write_all(bytes)] on a handle opened for append under [path]. *)
Definition write_all (path : string) (bs : list byte) : disk unit :=
  fun d =>
    let append bs := with_wal d (alter (fun content => content ++ bs) path (dk_wal d)) in
    match dk_space d with
    | None => (append bs, Ok tt)
    | Some space =>
        let len := Z.of_nat (length bs) in
        if len <=? space then (with_space (append bs) (Some (space - len)), Ok tt)
        else (with_space (append (take (Z.to_nat space) bs)) (Some 0),
              Err (Io "no space left on device"))
    end.

(** [OpenOptions::new().create(true).append(true).open(path)]. *)
Definition open_append (dir : WalDir) (path : string) : WalDir :=
  match dir !! path with Some _ => dir | None => <[path := []]> dir end.

(** [fs::rename]. *)
Definition rename_file (from to : string) (dir : WalDir) : WalDir :=
  match dir !! from with
  | Some content => <[to := content]> (delete from dir)
  | None => dir
  end.

(** ** Segment names *)

Fixpoint strip_prefix (pre s : string) : option string :=
  match pre, s with
  | String.EmptyString, _ => Some s
  | String.String a pre, String.String b s => if Ascii.eqb a b then strip_prefix pre s else None
  | _, String.EmptyString => None
  end.

Fixpoint strip_suffix (suf s : string) : option string :=
  if String.eqb s suf then Some String.EmptyString
  else match s with
       | String.EmptyString => None
       | String.String a s => String.String a <$> strip_suffix suf s
       end.

(** [str::split_once]. *)
Fixpoint split_once (sep : ascii) (s : string) : option (string * string) :=
  match s with
  | String.EmptyString => None
  | String.String a s =>
      if Ascii.eqb a sep then Some (String.EmptyString, s)
      else '(l, r) ← split_once sep s; Some (String.String a l, r)
  end.

Definition active_segment_path (start_sequence : Z) : string :=
  "active-" +:+ int_to_string start_sequence +:+ ".wal".

Definition sealed_segment_path (start_sequence end_sequence : Z) : string :=
  int_to_string start_sequence +:+ "-" +:+ int_to_string end_sequence +:+ ".wal".

Definition parse_sealed_segment_name (name : string) : option (Z * Z) :=
  value ← strip_suffix ".wal" name;
  '(start, finish) ← split_once "-"%char value;
  start ← parse_uint u64_max start;
  finish ← parse_uint u64_max finish;
  Some (start, finish).

Definition parse_active_segment_name (name : string) : option Z :=
  value ← strip_prefix "active-" name;
  value ← strip_suffix ".wal" value;
  parse_uint u64_max value.

(** One iteration of the loop of [list_segments]. *)
Definition segment_of_name (name : string) : option SegmentFile :=
  match parse_active_segment_name name with
  | Some start_sequence => Some (mkSegmentFile name start_sequence None true)
  | None =>
      '(start_sequence, end_sequence) ← parse_sealed_segment_name name;
      Some (mkSegmentFile name start_sequence (Some end_sequence) false)
  end.

Definition list_segments (dir : WalDir) : list SegmentFile :=
  merge_sort sort_key_le (omap segment_of_name (map_to_list dir).*1).

Definition active_segment_file (dir : WalDir) : option SegmentFile :=
  head (merge_sort sort_key_le (List.filter sf_active (list_segments dir))).

(** [create_active_segment]. *)
Definition create_active_segment (dir : WalDir) (start_sequence : Z) : WalDir :=
  open_append dir (active_segment_path start_sequence).

Section wal.
Context `{Crc32} `{CryptoLib} `{Binary WalEntry}.

(** ** Entries in a file *)

(** The framing of [append_encoded_entry], before it is written. *)
Definition encode_frame (keyring : option StorageKeyring) (nonce : list byte) (entry : WalEntry)
    : result EngineError (list byte) :=
  bytes ← map_err WalSerialize (binary_encode entry);
  durable_bytes ← match keyring with
                  | Some keyring => encrypt (kr_active keyring) "wal entry" nonce bytes
                  | None => Ok bytes
                  end;
  if u32_max <? Z.of_nat (length durable_bytes) then Err (Io "wal entry too large")
  else Ok durable_bytes.

Definition append_encoded_entry (path : string) (keyring : option StorageKeyring)
    (nonce : list byte) (entry : WalEntry) : disk Z :=
  durable_bytes ← mpure (encode_frame keyring nonce entry);
  _ ← write_all path (to_le 4 (Z.of_nat (length durable_bytes)));
  _ ← write_all path (to_le 4 (crc32 durable_bytes));
  _ ← write_all path durable_bytes;
  mret (saturating_add 8 (Z.of_nat (length durable_bytes))).

(** What one iteration of [read_entries_from_reader] makes of a non-empty rest:
    the entry read and the bytes after it. *)
Definition read_entry (keyring : option StorageKeyring) (bs : list byte)
    : result EngineError (WalEntry * list byte) :=
  if Nat.ltb (length bs) 4 then Err (WalDeserialize "truncated WAL length header")
  else
    let len := from_le (take 4 bs) in
    let bs := drop 4 bs in
    if (len =? 0) || (MAX_WAL_ENTRY_SIZE <? len) then
      Err (WalDeserialize ("invalid WAL entry length " +:+ int_to_string len))
    else if Nat.ltb (length bs) 4 then Err (WalDeserialize "truncated WAL checksum")
    else
      let expected_checksum := from_le (take 4 bs) in
      let bs := drop 4 bs in
      if Z.of_nat (length bs) <? len then Err (WalDeserialize "truncated WAL payload")
      else
        let entry_buf := take (Z.to_nat len) bs in
        if negb (crc32 entry_buf =? expected_checksum) then Err (ChecksumMismatch "wal entry")
        else
          plain_bytes ← match keyring with
                        | Some keyring => decrypt keyring "wal entry" entry_buf
                        | None => Ok entry_buf
                        end;
          entry ← map_err WalDeserialize (binary_decode plain_bytes);
          Ok (entry, drop (Z.to_nat len) bs).

(** The loop; [fuel] is the number of bytes left, which every entry shortens. *)
Fixpoint read_entries_loop (fuel : nat) (keyring : option StorageKeyring) (bs : list byte)
    (entries : list WalEntry) : result EngineError (list WalEntry) :=
  match bs, fuel with
  | [], _ | _, O => Ok entries
  | _, S fuel =>
      '(entry, rest) ← read_entry keyring bs;
      read_entries_loop fuel keyring rest (entries ++ [entry])
  end.

Definition read_entries_from_reader (keyring : option StorageKeyring) (bs : list byte)
    : result EngineError (list WalEntry) := read_entries_loop (length bs) keyring bs [].

Definition read_segment_entries (dir : WalDir) (keyring : option StorageKeyring) (path : string)
    : result EngineError (list WalEntry) :=
  match dir !! path with
  | Some content => read_entries_from_reader keyring content
  | None => Err (Io "entity not found")
  end.

(** [replay_legacy]: a missing file is an empty log. *)
Definition replay_legacy (content : option (list byte)) (keyring : option StorageKeyring)
    : result EngineError (list WalEntry) :=
  match content with
  | Some content => read_entries_from_reader keyring content
  | None => Ok []
  end.

(** ** Replay *)

(** The entries of one segment, checked against the name and against the
    sequence expected next. *)
Fixpoint push_contiguous (segment_entries entries : list WalEntry) (expected : option Z)
    : result EngineError (list WalEntry * option Z) :=
  match segment_entries with
  | [] => Ok (entries, expected)
  | entry :: rest =>
      match expected with
      | Some expected =>
          if negb (we_sequence entry =? expected) then
            Err (WalDeserialize ("non-contiguous WAL sequence: expected " +:+
                   int_to_string expected +:+ ", found " +:+ int_to_string (we_sequence entry)))
          else push_contiguous rest (entries ++ [entry]) (Some (wrapping_add (we_sequence entry) 1))
      | None =>
          push_contiguous rest (entries ++ [entry]) (Some (wrapping_add (we_sequence entry) 1))
      end
  end.

Definition replay_segment (dir : WalDir) (keyring : option StorageKeyring)
    (acc : list WalEntry * option Z) (segment : SegmentFile)
    : result EngineError (list WalEntry * option Z) :=
  segment_entries ← read_segment_entries dir keyring (sf_path segment);
  match segment_entries with
  | [] => if sf_active segment then Ok acc
          else Err (WalDeserialize "sealed WAL segment is empty")
  | first :: _ =>
      if negb (we_sequence first =? sf_start_sequence segment) then
        Err (WalDeserialize ("segment start sequence mismatch for " +:+ sf_path segment))
      else
        match sf_end_sequence segment with
        | Some end_sequence =>
            let actual_end := match last segment_entries with
                              | Some entry => we_sequence entry
                              | None => 0
                              end in
            if negb (actual_end =? end_sequence) then
              Err (WalDeserialize ("segment end sequence mismatch for " +:+ sf_path segment))
            else push_contiguous segment_entries acc.1 acc.2
        | None => push_contiguous segment_entries acc.1 acc.2
        end
  end.

Definition replay_segments (dir : WalDir) (keyring : option StorageKeyring)
    (segments : list SegmentFile) : result EngineError WalReplay :=
  let active_count := Z.of_nat (length (List.filter sf_active segments)) in
  if 1 <? active_count then
    Err (WalDeserialize ("ambiguous WAL layout: found " +:+ int_to_string active_count +:+
                         " active segments"))
  else
    '(entries, _) ← foldM (replay_segment dir keyring) ([], None) segments;
    Ok (mkWalReplay entries (Z.of_nat (length segments))
          (we_sequence <$> head entries) (we_sequence <$> last entries)).

Definition replay (dir : WalDir) (keyring : option StorageKeyring) : result EngineError WalReplay :=
  replay_segments dir keyring (list_segments dir).

(** [Iterator::take_while]. *)
Fixpoint take_while {A} (f : A -> bool) (l : list A) : list A :=
  match l with
  | [] => []
  | x :: l => if f x then x :: take_while f l else []
  end.

Definition within (target : WalReplayTarget) (entry : WalEntry) : bool :=
  match target with
  | TargetSequence sequence => we_sequence entry <=? sequence
  | TargetTimestampMs timestamp_ms => we_created_at_ms entry <=? timestamp_ms
  end.

Definition replay_until (dir : WalDir) (keyring : option StorageKeyring)
    (target : WalReplayTarget) : result EngineError WalReplay :=
  replay ← replay dir keyring;
  let filtered := take_while (within target) (wr_entries replay) in
  Ok (mkWalReplay filtered (wr_segment_count replay) (wr_oldest_retained_sequence replay)
        (we_sequence <$> last filtered)).

(** ** Maintenance *)

Definition inspect (dir : WalDir) : WalSegmentReport :=
  let segments := list_segments dir in
  mkWalSegmentReport
    (Z.of_nat (length segments))
    (Z.of_nat (length (List.filter (fun s => negb (sf_active s)) segments)))
    (Z.of_nat (length (List.filter sf_active segments)))
    (sf_start_sequence <$> head segments)
    (match List.find sf_active segments with
     | Some segment => sf_start_sequence segment
     | None =>
         match last segments ≫= sf_end_sequence with
         | Some e => wrapping_add e 1
         | None => 1
         end
     end)
    (match omap sf_end_sequence segments with
     | [] => None
     | e :: es => Some (foldl Z.max e es)
     end)
    (foldl Z.add 0
       ((fun segment => match dir !! sf_path segment with
                        | Some content => Z.of_nat (length content)
                        | None => 0
                        end) <$> segments)).

Definition seal_active (keyring : option StorageKeyring)
    : fallible WalDir EngineError (option (Z * Z)) :=
  fun dir =>
    match active_segment_file dir with
    | None => (dir, Ok None)
    | Some active =>
        match read_segment_entries dir keyring (sf_path active) with
        | Err e => (dir, Err e)
        | Ok entries =>
            match last entries with
            | None => (delete (sf_path active) dir, Ok None)
            | Some entry =>
                let end_sequence := we_sequence entry in
                (rename_file (sf_path active)
                   (sealed_segment_path (sf_start_sequence active) end_sequence) dir,
                 Ok (Some (sf_start_sequence active, end_sequence)))
            end
        end
    end.

(** The removal loop of [prune_sealed_segments_with_floor]. *)
Fixpoint prune_loop (segments : list SegmentFile) (minimum_sequence_to_keep : option Z)
    (dir : WalDir) (removed : Z) : WalDir * Z :=
  match segments with
  | [] => (dir, removed)
  | segment :: segments =>
      let keep :=
        match minimum_sequence_to_keep with
        | Some minimum =>
            let end_sequence := default (sf_start_sequence segment) (sf_end_sequence segment) in
            (sf_start_sequence segment <=? minimum) && (minimum <=? end_sequence)
        | None => false
        end in
      if keep then prune_loop segments minimum_sequence_to_keep dir removed
      else prune_loop segments minimum_sequence_to_keep (delete (sf_path segment) dir) (removed + 1)
  end.

Definition prune_sealed_segments_with_floor (retain_segments : Z)
    (minimum_sequence_to_keep : option Z) (dir : WalDir) : WalDir * Z :=
  let sealed := List.filter (fun s => negb (sf_active s)) (list_segments dir) in
  let count := Z.of_nat (length sealed) in
  if count <=? retain_segments then (dir, 0)
  else prune_loop (take (Z.to_nat (count - retain_segments)) sealed) minimum_sequence_to_keep dir 0.

Definition prune_sealed_segments (retain_segments : Z) (dir : WalDir) : WalDir * Z :=
  prune_sealed_segments_with_floor retain_segments None dir.

End wal.

(** ** Appending to the log

    [DiskWriter] is [WalWriter] together with the disk it writes to.  The worker
    thread answers each request before the next one is sent, so its handle's
    methods are [worker_step] run synchronously.  Random nonces come from
    [NonceSource]. *)

(** The nonce drawn when an entry is encrypted. *)
Class NonceSource := {
  nonce_for : WalEntry -> list byte;
  nonce_for_length entry : length (nonce_for entry) = NONCE_LEN;
}.

Record DiskWriter := mkDiskWriter {
  dw_disk : Disk;
  dw_sync_policy : WalSyncPolicy;
  dw_max_segment_size_bytes : Z;
  dw_active : SegmentFile;
  dw_file : option string;
  dw_file_len : Z;
}.

Inductive WalWriterCommand :=
| AppendBatch (entries : list WalEntry) (keyring : option StorageKeyring)
| CloseActive
| ResetTo (start_sequence : Z)
| Shutdown.

Module DiskWriter.
Section writer.
Context `{Crc32} `{CryptoLib} `{Binary WalEntry} `{NonceSource}.

Notation M := (fallible DiskWriter EngineError).

Definition with_disk (w : DiskWriter) (d : Disk) : DiskWriter :=
  mkDiskWriter d (dw_sync_policy w) (dw_max_segment_size_bytes w) (dw_active w) (dw_file w)
    (dw_file_len w).

Definition on_disk {A} (m : disk A) : M A :=
  fun w => let '(d, r) := m (dw_disk w) in (with_disk w d, r).

Definition open (d : Disk) (sync_policy : WalSyncPolicy) (max_segment_size_bytes : Z)
    (start_sequence : Z) : DiskWriter :=
  let active := match active_segment_file (dk_wal d) with
                | Some active => active
                | None => mkSegmentFile (active_segment_path start_sequence) start_sequence None true
                end in
  let dir := open_append (dk_wal d) (sf_path active) in
  mkDiskWriter (with_wal d dir) sync_policy max_segment_size_bytes active (Some (sf_path active))
    (Z.of_nat (length (default [] (dir !! sf_path active)))).

Definition file_mut : M string :=
  fun w => (w, ok_or (dw_file w) (Io "wal writer active file is closed")).

Definition rotate_after (last_sequence : Z) : M unit :=
  fun w =>
    let sealed_path := sealed_segment_path (sf_start_sequence (dw_active w)) last_sequence in
    let next_start := saturating_add last_sequence 1 in
    let next_path := active_segment_path next_start in
    let dir := open_append (rename_file (sf_path (dw_active w)) sealed_path (dk_wal (dw_disk w)))
                 next_path in
    (mkDiskWriter (with_wal (dw_disk w) dir) (dw_sync_policy w) (dw_max_segment_size_bytes w)
       (mkSegmentFile next_path next_start None true) (Some next_path) 0, Ok tt).

(** One iteration of the loop of [append_batch]. *)
Definition append_one (keyring : option StorageKeyring) (entry : WalEntry) : M unit :=
  path ← file_mut;
  written ← on_disk (append_encoded_entry path keyring (nonce_for entry) entry);
  _ ← mmodify (fun w => mkDiskWriter (dw_disk w) (dw_sync_policy w) (dw_max_segment_size_bytes w)
                          (dw_active w) (dw_file w) (saturating_add (dw_file_len w) written));
  w ← mget;
  if (0 <? dw_max_segment_size_bytes w) && (dw_max_segment_size_bytes w <=? dw_file_len w)
  then _ ← file_mut; rotate_after (we_sequence entry)
  else mret tt.

Definition append_batch (entries : list WalEntry) (keyring : option StorageKeyring) : M unit :=
  match entries with
  | [] => mret tt
  | _ => _ ← mfor (append_one keyring) entries; _ ← file_mut; mret tt
  end.

Definition close_active : M unit :=
  mmodify (fun w => mkDiskWriter (dw_disk w) (dw_sync_policy w) (dw_max_segment_size_bytes w)
                      (dw_active w) None (dw_file_len w)).

(** [run_wal_writer_worker] on one command; [Shutdown] ends the loop. *)
Definition worker_step (command : WalWriterCommand) : M unit :=
  match command with
  | AppendBatch entries keyring => append_batch entries keyring
  | CloseActive => close_active
  | ResetTo start_sequence =>
      mmodify (fun w => open (dw_disk w) (dw_sync_policy w) (dw_max_segment_size_bytes w)
                          start_sequence)
  | Shutdown => mret tt
  end.

(** The methods of [WalWriterHandle]. *)
Definition handle_append_batch (entries : list WalEntry) (keyring : option StorageKeyring) : M unit :=
  match entries with
  | [] => mret tt
  | _ => worker_step (AppendBatch entries keyring)
  end.

Definition handle_close_active : M unit := worker_step CloseActive.

Definition handle_reset (start_sequence : Z) : M unit := worker_step (ResetTo start_sequence).

End writer.
End DiskWriter.

(** ** Whole-directory operations *)

Section whole.
Context `{Crc32} `{CryptoLib} `{Binary WalEntry} `{NonceSource}.

(** [write_entries]: a fresh directory holding exactly [entries]. *)
Definition write_entries (entries : list WalEntry) (sync_policy : WalSyncPolicy)
    (keyring : option StorageKeyring) (max_segment_size_bytes : Z) : disk unit :=
  fun d =>
    let d := with_wal d ∅ in
    match entries with
    | [] => (d, Ok tt)
    | first :: _ =>
        let w := DiskWriter.open d sync_policy max_segment_size_bytes (we_sequence first) in
        let '(w, r) := DiskWriter.append_batch entries keyring w in
        (dw_disk w, r)
    end.

(** [migrate_legacy]: rewrites the legacy file's entries as segments. *)
Definition migrate_legacy (sync_policy : WalSyncPolicy) (keyring : option StorageKeyring)
    (max_segment_size_bytes : Z) : disk WalSegmentReport :=
  d ← mget;
  entries ← mpure (replay_legacy (dk_legacy_wal d) keyring);
  _ ← write_entries entries sync_policy keyring max_segment_size_bytes;
  _ ← mmodify (fun d => with_legacy_wal d None);
  d ← mget;
  mret (inspect (dk_wal d)).

End whole.
