(* ===== verification/WalFacts.v ===== *)
(** * WalFacts: what is appended is replayed

    Frames written by [append_encoded_entry] are read back in order, segment
    names parse to what they were printed from, and a directory laid out by the
    writer replays to its log. *)

From S2P Require Import Prelude Text EngineError Store State Crypto Wal.

(** ** Reading frames *)

Section frames.
Context `{Crc32} `{CryptoLib} `{Binary WalEntry}.
Context (keyring : option StorageKeyring).

Definition reads_as (bs : list byte) (es : list WalEntry) : Prop :=
  read_entries_from_reader keyring bs = Ok es.

Lemma read_entry_shorter bs entry rest :
  read_entry keyring bs = Ok (entry, rest) -> (length rest + 8 < length bs)%nat.
Proof.
  unfold read_entry. destruct (Nat.ltb_spec (length bs) 4); [done|].
  destruct (_ || _) eqn:Hl; [done|]. apply orb_false_iff in Hl as [Hl%Z.eqb_neq _].
  destruct (Nat.ltb_spec (length (drop 4 bs)) 4); [done|].
  destruct (Z.ltb_spec (Z.of_nat (length (drop 4 (drop 4 bs)))) (from_le (take 4 bs))); [done|].
  destruct (negb _); [done|].
  intros (plain & _ & Hr)%result_bind_ok. apply result_bind_ok in Hr as (e & _ & Hr).
  injection Hr as _ <-.
  rewrite !length_drop in *. pose proof (from_le_range (take 4 bs)). lia.
Qed.

Lemma read_entry_app bs more entry rest :
  read_entry keyring bs = Ok (entry, rest) ->
  read_entry keyring (bs ++ more) = Ok (entry, rest ++ more).
Proof.
  intros Hr. pose proof (read_entry_shorter _ _ _ Hr) as Hs. revert Hr. unfold read_entry.
  rewrite (drop_app_le bs more 4), (take_app_le bs more 4) by lia.
  rewrite (drop_app_le (drop 4 bs) more 4), (take_app_le (drop 4 bs) more 4)
    by (rewrite length_drop; lia).
  rewrite !length_app. destruct (Nat.ltb_spec (length bs) 4); [done|].
  rewrite (proj2 (Nat.ltb_ge (length bs + length more) 4)) by lia. destruct (_ || _); [done|].
  destruct (Nat.ltb_spec (length (drop 4 bs)) 4); [done|].
  rewrite (proj2 (Nat.ltb_ge (length (drop 4 bs) + length more) 4)) by lia.
  destruct (Z.ltb_spec (Z.of_nat (length (drop 4 (drop 4 bs)))) (from_le (take 4 bs))) as [|Hlen]; [done|].
  rewrite (proj2 (Z.ltb_ge (Z.of_nat (length (drop 4 (drop 4 bs)) + length more)) _)) by lia.
  rewrite take_app_le, drop_app_le by lia.
  destruct (negb _); [done|].
  intros (plain & Hp & Hr)%result_bind_ok. rewrite Hp. cbn.
  apply result_bind_ok in Hr as (e & He & Hr). rewrite He. cbn. by injection Hr as -> <-.
Qed.

(** Extra fuel does not matter. *)
Lemma read_entries_fuel fuel fuel' bs acc :
  (length bs <= fuel)%nat -> (length bs <= fuel')%nat ->
  read_entries_loop fuel keyring bs acc = read_entries_loop fuel' keyring bs acc.
Proof.
  revert fuel' bs acc. induction fuel as [|fuel IH]; intros fuel' bs acc Hf1 Hf2.
  { destruct bs; [by destruct fuel' | cbn in Hf1; lia]. }
  destruct fuel' as [|fuel']; [destruct bs; [done | cbn in Hf2; lia]|].
  destruct bs as [|b bs]; [done|]. cbn [read_entries_loop].
  destruct (read_entry keyring (b :: bs)) as [[e rest]|] eqn:E; [|done]. cbn [mbind result_bind].
  apply read_entry_shorter in E. apply IH; lia.
Qed.

Lemma read_entries_acc fuel bs acc :
  (length bs <= fuel)%nat ->
  read_entries_loop fuel keyring bs acc = app acc <$> read_entries_from_reader keyring bs.
Proof.
  unfold read_entries_from_reader. intros Hf. rewrite (read_entries_fuel (length bs) fuel) by lia.
  assert (forall a, read_entries_loop fuel keyring bs (acc ++ a) =
            app acc <$> read_entries_loop fuel keyring bs a) as Hg.
  { clear Hf. revert bs. induction fuel as [|fuel IH]; intros bs a; [by destruct bs|].
    destruct bs as [|b bs]; [done|]. cbn [read_entries_loop].
    destruct (read_entry keyring (b :: bs)) as [[e rest]|]; [|done]. cbn [mbind result_bind].
    rewrite <- app_assoc. apply IH. }
  specialize (Hg []). by rewrite app_nil_r in Hg.
Qed.

(** The loop, one iteration at a time. *)
Lemma read_entries_unfold bs :
  read_entries_from_reader keyring bs =
    match bs with
    | [] => Ok []
    | _ => '(entry, rest) ← read_entry keyring bs;
           cons entry <$> read_entries_from_reader keyring rest
    end.
Proof.
  unfold read_entries_from_reader at 1. destruct bs as [|b bs]; [done|]. cbn [length read_entries_loop].
  destruct (read_entry keyring (b :: bs)) as [[e rest]|] eqn:E; [|done]. cbn [mbind result_bind].
  apply read_entry_shorter in E. cbn in E. rewrite read_entries_acc by lia. done.
Qed.

(** Reading on after entries that were read. *)
Lemma read_entries_prefix bs1 bs2 es1 :
  reads_as bs1 es1 ->
  read_entries_from_reader keyring (bs1 ++ bs2) =
    app es1 <$> read_entries_from_reader keyring bs2.
Proof.
  unfold reads_as. revert es1.
  induction bs1 as [bs1 IH] using (induction_ltof1 _ (@length byte)). unfold ltof in IH.
  intros es1. rewrite read_entries_unfold. destruct bs1 as [|b bs1].
  { intros [= <-]. cbn [app]. by destruct (read_entries_from_reader keyring bs2). }
  intros ([e rest] & Hr & Hf)%result_bind_ok.
  destruct (read_entries_from_reader keyring rest) as [es|] eqn:E; [|done]. injection Hf as <-.
  pose proof (read_entry_shorter _ _ _ Hr) as Hs. apply (read_entry_app _ bs2) in Hr.
  rewrite read_entries_unfold. cbn [app] in *. rewrite Hr. cbn [mbind result_bind].
  rewrite (IH rest ltac:(lia) es E). by destruct (read_entries_from_reader keyring bs2).
Qed.

Lemma reads_as_app bs1 bs2 es1 es2 :
  reads_as bs1 es1 -> reads_as bs2 es2 -> reads_as (bs1 ++ bs2) (es1 ++ es2).
Proof. unfold reads_as at 2 3. intros Hr1 Hr2. by rewrite (read_entries_prefix _ _ _ Hr1), Hr2. Qed.

(** An entry the reader accepts once written: its encoding is neither empty nor
    larger than [MAX_WAL_ENTRY_SIZE], and the keyring still holds its key. *)
Definition entry_fits (nonce : list byte) (entry : WalEntry) : Prop :=
  exists bs, encode_frame keyring nonce entry = Ok bs /\
    0 < Z.of_nat (length bs) <= MAX_WAL_ENTRY_SIZE.

Definition keyring_ok : Prop :=
  match keyring with
  | Some keyring => length (sk_id (kr_active keyring)) = KEY_ID_LEN
  | None => True
  end.

Definition frame_bytes (bs : list byte) : list byte :=
  to_le 4 (Z.of_nat (length bs)) ++ to_le 4 (crc32 bs) ++ bs.

Lemma decode_frame nonce entry bs :
  keyring_ok -> length nonce = NONCE_LEN -> encode_frame keyring nonce entry = Ok bs ->
  (plain_bytes ← match keyring with
                 | Some keyring => decrypt keyring "wal entry" bs
                 | None => Ok bs
                 end;
   map_err WalDeserialize (binary_decode plain_bytes)) = Ok entry.
Proof.
  intros Hk Hn. unfold encode_frame.
  destruct (binary_encode entry) as [raw|] eqn:Er; [|done]. cbn [map_err mbind result_bind].
  intros (d & Hd & Hl)%result_bind_ok. destruct (Z.ltb_spec u32_max (Z.of_nat (length d))) as [|Hle]; [done|].
  injection Hl as ->. unfold keyring_ok in Hk. destruct keyring as [kr|].
  - rewrite (decrypt_encrypt kr (kr_active kr) _ nonce raw); try done.
    + cbn. by rewrite (binary_decode_encode _ _ Er).
    + unfold keyring_get. by rewrite bool_decide_eq_true_2.
  - injection Hd as ->. cbn. by rewrite (binary_decode_encode _ _ Er).
Qed.

Lemma read_frame nonce entry bs rest :
  keyring_ok -> length nonce = NONCE_LEN -> encode_frame keyring nonce entry = Ok bs ->
  0 < Z.of_nat (length bs) <= MAX_WAL_ENTRY_SIZE ->
  read_entry keyring (frame_bytes bs ++ rest) = Ok (entry, rest).
Proof.
  intros Hk Hn He Hl. unfold read_entry, frame_bytes. rewrite <- !app_assoc.
  rewrite !take_app_exact, !drop_app_exact by apply to_le_length.
  pose proof (crc32_u32 bs). unfold MAX_WAL_ENTRY_SIZE in *.
  rewrite !from_to_le by (unfold_widths; cbn; lia).
  rewrite take_app_exact, drop_app_exact by lia. rewrite !length_app, !to_le_length.
  rewrite !(proj2 (Nat.ltb_ge _ _)) by lia.
  rewrite (proj2 (Z.eqb_neq _ _)), !(proj2 (Z.ltb_ge _ _)) by lia. cbn [orb].
  rewrite take_app_exact, from_to_le, Z.eqb_refl by (apply to_le_length || (unfold_widths; cbn; lia)).
  cbn [negb]. pose proof (decode_frame nonce entry bs Hk Hn He) as Hd.
  apply result_bind_ok in Hd as (plain & -> & Hd). cbn [mbind result_bind]. by rewrite Hd.
Qed.

Lemma reads_as_frame nonce entry bs :
  keyring_ok -> length nonce = NONCE_LEN -> encode_frame keyring nonce entry = Ok bs ->
  0 < Z.of_nat (length bs) <= MAX_WAL_ENTRY_SIZE -> reads_as (frame_bytes bs) [entry].
Proof.
  intros Hk Hn He Hl. unfold reads_as. rewrite read_entries_unfold.
  pose proof (read_frame nonce entry bs [] Hk Hn He Hl) as Hr. rewrite app_nil_r in Hr.
  destruct (frame_bytes bs) eqn:E; [by apply (f_equal length) in E|]. rewrite Hr. done.
Qed.

End frames.

(** ** Segment names *)

Fixpoint all_digits (s : string) : bool :=
  match s with
  | String.EmptyString => true
  | String.String a s => is_some (digit_of a) && all_digits s
  end.

Lemma string_of_uint_digits d : all_digits (DecimalString.NilEmpty.string_of_uint d) = true.
Proof. induction d; done. Qed.

(** A printed unsigned integer is a non-empty run of digits. *)
Lemma int_to_string_digits z :
  0 <= z -> all_digits (int_to_string z) = true /\ int_to_string z <> String.EmptyString.
Proof.
  intros Hz. unfold int_to_string.
  assert (exists d, Z.to_int z = Decimal.Pos d) as [d ->] by (destruct z; [by eexists.. | lia]).
  cbn. destruct d; cbn; split; try done; apply string_of_uint_digits.
Qed.

Lemma string_cons_app a s t : String.String a s +:+ t = String.String a (s +:+ t).
Proof. done. Qed.

Lemma strip_prefix_app pre s : strip_prefix pre (pre +:+ s) = Some s.
Proof.
  induction pre as [|a pre IH]; [by destruct s|]. rewrite string_cons_app. cbn [strip_prefix].
  by rewrite Ascii.eqb_refl.
Qed.

Lemma string_length_app a b : String.length (a +:+ b) = (String.length a + String.length b)%nat.
Proof. induction a as [|c a IH]; [done|]. rewrite string_cons_app. cbn. by rewrite IH. Qed.

Lemma strip_suffix_app suf s : strip_suffix suf (s +:+ suf) = Some s.
Proof.
  induction s as [|a s IH].
  - change (String.EmptyString +:+ suf) with suf.
    destruct suf as [|b suf]; [done|]. cbn [strip_suffix]. by rewrite String.eqb_refl.
  - rewrite string_cons_app. cbn [strip_suffix].
    destruct (String.eqb_spec (String.String a (s +:+ suf)) suf) as [E|_].
    + apply (f_equal String.length) in E. cbn in E. rewrite string_length_app in E. lia.
    + by rewrite IH.
Qed.

Lemma split_once_digits l r :
  all_digits l = true -> split_once "-"%char (l +:+ String.String "-" r) = Some (l, r).
Proof.
  induction l as [|a l IH]; [done|]. cbn [all_digits]. intros [Ha Hl]%andb_prop.
  rewrite string_cons_app. cbn [split_once].
  destruct (Ascii.eqb_spec a "-"%char) as [->|_]; [done|]. by rewrite IH.
Qed.

Lemma string_app_assoc a b c : (a +:+ b) +:+ c = a +:+ (b +:+ c).
Proof. induction a as [|x a IH]; [done|]. by rewrite !string_cons_app, IH. Qed.

Lemma parse_active_path n : is_u64 n -> parse_active_segment_name (active_segment_path n) = Some n.
Proof.
  intros Hn. unfold parse_active_segment_name, active_segment_path.
  rewrite strip_prefix_app. cbn [mbind option_bind]. rewrite strip_suffix_app. cbn [mbind option_bind].
  by apply parse_uint_to_string.
Qed.

Lemma parse_sealed_path s e :
  is_u64 s -> is_u64 e -> parse_sealed_segment_name (sealed_segment_path s e) = Some (s, e).
Proof.
  intros Hs He. unfold parse_sealed_segment_name, sealed_segment_path.
  rewrite <- !string_app_assoc, strip_suffix_app. cbn [mbind option_bind]. rewrite string_app_assoc.
  change ("-" +:+ int_to_string e) with (String.String "-" (int_to_string e)).
  rewrite split_once_digits by (apply int_to_string_digits; apply Hs). cbn [mbind option_bind].
  rewrite !parse_uint_to_string by done. done.
Qed.

Lemma sealed_not_active s e :
  is_u64 s -> parse_active_segment_name (sealed_segment_path s e) = None.
Proof.
  intros [Hs _]. unfold parse_active_segment_name, sealed_segment_path.
  destruct (int_to_string_digits s Hs) as [Hd Hne].
  destruct (int_to_string s) as [|a str]; [done|]. rewrite string_cons_app. cbn [strip_prefix].
  destruct (Ascii.eqb_spec "a"%char a) as [<-|]; [|done]. discriminate.
Qed.

Lemma segment_of_active n :
  is_u64 n ->
  segment_of_name (active_segment_path n) = Some (mkSegmentFile (active_segment_path n) n None true).
Proof. intros Hn. unfold segment_of_name. by rewrite parse_active_path. Qed.

Lemma segment_of_sealed s e :
  is_u64 s -> is_u64 e ->
  segment_of_name (sealed_segment_path s e) =
    Some (mkSegmentFile (sealed_segment_path s e) s (Some e) false).
Proof.
  intros Hs He. unfold segment_of_name. by rewrite sealed_not_active, parse_sealed_path.
Qed.

Lemma sealed_path_inj s1 e1 s2 e2 :
  is_u64 s1 -> is_u64 e1 -> is_u64 s2 -> is_u64 e2 ->
  sealed_segment_path s1 e1 = sealed_segment_path s2 e2 -> s1 = s2 /\ e1 = e2.
Proof.
  intros Hs1 He1 Hs2 He2 E. pose proof (parse_sealed_path s1 e1 Hs1 He1) as P.
  rewrite E, parse_sealed_path in P by done. by simplify_eq.
Qed.

Lemma active_sealed_ne n s e :
  is_u64 n -> is_u64 s -> active_segment_path n <> sealed_segment_path s e.
Proof.
  intros Hn Hs E. pose proof (parse_active_path n Hn) as P. rewrite E, sealed_not_active in P; done.
Qed.
