(* ===== verification/WalLayout.v ===== *)
(** * WalLayout: the log a WAL directory holds

    [wal_layout dir n segs act] says that [dir] consists of one sealed file per
    element of [segs] and one active file, holding consecutive entries from
    sequence [n] on.  Such a directory replays to its log, and the writer keeps
    its directory in this shape while it appends and rotates. *)

From S2P Require Import Prelude Text EngineError Store State Crypto Wal WalFacts.

(** Entries with consecutive sequences from [n] on. *)
Definition contiguous (n : Z) (es : list WalEntry) : Prop :=
  we_sequence <$> es = seqZ n (Z.of_nat (length es)).

Lemma contiguous_nil n : contiguous n [].
Proof. done. Qed.

Lemma contiguous_app n a b :
  contiguous n (a ++ b) <-> contiguous n a /\ contiguous (n + Z.of_nat (length a)) b.
Proof.
  unfold contiguous. rewrite fmap_app, length_app, Nat2Z.inj_add, seqZ_app by lia. split.
  - intros E. apply app_inj_1 in E; [done|]. rewrite length_fmap, length_seqZ. lia.
  - by intros [-> ->].
Qed.

Lemma contiguous_cons n e es :
  contiguous n (e :: es) <-> we_sequence e = n /\ contiguous (n + 1) es.
Proof.
  rewrite (contiguous_app n [e] es). unfold contiguous at 1. cbn.
  split; intros [E ?]; (split; [|done]); [by injection E | by rewrite E].
Qed.

Lemma contiguous_last n es e :
  contiguous n es -> last es = Some e -> we_sequence e = n + Z.of_nat (length es) - 1.
Proof.
  destruct es as [|x es _] using rev_ind; [done|]. rewrite last_snoc. intros Hc [= ->].
  apply contiguous_app in Hc as [_ Hc%contiguous_cons]. rewrite length_app. cbn. lia.
Qed.

Section layout.
Context `{Crc32} `{CryptoLib} `{Binary WalEntry}.
Context (keyring : option StorageKeyring).

(** The entries of a file, and its bytes. *)
Notation segment := (list WalEntry * list byte)%type.

Definition seg_len (s : segment) : Z := Z.of_nat (length s.1).

(** The sequence after the sealed segments. *)
Fixpoint seg_end (n : Z) (segs : list segment) : Z :=
  match segs with
  | [] => n
  | s :: segs => seg_end (n + seg_len s) segs
  end.

Fixpoint sealed_at (n : Z) (segs : list segment) : Prop :=
  match segs with
  | [] => True
  | s :: segs =>
      s.1 <> [] /\ contiguous n s.1 /\ reads_as keyring s.2 s.1 /\ sealed_at (n + seg_len s) segs
  end.

Fixpoint file_list (n : Z) (segs : list segment) (act : segment) : list (string * list byte) :=
  match segs with
  | [] => [(active_segment_path n, act.2)]
  | s :: segs =>
      (sealed_segment_path n (n + seg_len s - 1), s.2) :: file_list (n + seg_len s) segs act
  end.

Fixpoint segment_list (n : Z) (segs : list segment) : list SegmentFile :=
  match segs with
  | [] => [mkSegmentFile (active_segment_path n) n None true]
  | s :: segs =>
      mkSegmentFile (sealed_segment_path n (n + seg_len s - 1)) n (Some (n + seg_len s - 1)) false
        :: segment_list (n + seg_len s) segs
  end.

Definition layout_log (segs : list segment) (act : segment) : list WalEntry :=
  mjoin segs.*1 ++ act.1.

Record wal_layout (dir : WalDir) (n : Z) (segs : list segment) (act : segment) : Prop := {
  wl_dir : dir = list_to_map (file_list n segs act);
  wl_sealed : sealed_at n segs;
  wl_contiguous : contiguous (seg_end n segs) act.1;
  wl_active : reads_as keyring act.2 act.1;
  wl_start : 0 <= n;
  wl_end : seg_end n segs + seg_len act <= u64_max;
}.

Lemma seg_end_ge n segs : n <= seg_end n segs.
Proof.
  revert n. induction segs as [|s segs IH]; intros n; cbn; [lia|].
  specialize (IH (n + seg_len s)). unfold seg_len in *. lia.
Qed.

Lemma seg_end_app n segs s : seg_end n (segs ++ [s]) = seg_end n segs + seg_len s.
Proof. revert n. induction segs as [|s' segs IH]; intros n; cbn; [done|]. apply IH. Qed.

Lemma seg_len_pos s : s.1 <> [] -> 1 <= seg_len s.
Proof. unfold seg_len. destruct s.1; [done | cbn; lia]. Qed.

(** Every file name of a layout names a segment starting at or after [n]. *)
Lemma file_list_starts n segs act name c :
  0 <= n -> sealed_at n segs -> seg_end n segs <= u64_max -> (name, c) ∈ file_list n segs act ->
  exists sf, segment_of_name name = Some sf /\ n <= sf_start_sequence sf.
Proof.
  revert n. induction segs as [|s segs IH]; intros n Hn Hs He Hin; cbn in *.
  - apply list_elem_of_singleton in Hin as [= -> ->]. eexists.
    rewrite segment_of_active by (unfold_widths; lia). done.
  - destruct Hs as (Hne & _ & _ & Hs). pose proof (seg_len_pos s Hne).
    pose proof (seg_end_ge (n + seg_len s) segs).
    apply elem_of_cons in Hin as [[= -> ->]|Hin].
    + eexists. rewrite segment_of_sealed by (unfold_widths; lia). done.
    + destruct (IH (n + seg_len s) ltac:(lia) Hs He Hin) as (sf & ? & ?). exists sf. split; [done|lia].
Qed.

Lemma file_list_NoDup n segs act :
  0 <= n -> sealed_at n segs -> seg_end n segs <= u64_max -> NoDup (file_list n segs act).*1.
Proof.
  revert n. induction segs as [|s segs IH]; intros n Hn Hs He; cbn in *; [apply NoDup_singleton|].
  destruct Hs as (Hne & _ & _ & Hs). pose proof (seg_len_pos s Hne).
  pose proof (seg_end_ge (n + seg_len s) segs). constructor; [|apply IH; [lia|done|done]].
  intros ([name c] & Hname & Hin)%list_elem_of_fmap. cbn in Hname. subst name.
  destruct (file_list_starts (n + seg_len s) segs act _ c ltac:(lia) Hs He Hin) as (sf & Hsf & Hge).
  rewrite segment_of_sealed in Hsf by (unfold_widths; lia). injection Hsf as <-. cbn in Hge. lia.
Qed.

Lemma file_list_segments n segs act :
  0 <= n -> sealed_at n segs -> seg_end n segs <= u64_max ->
  omap segment_of_name (file_list n segs act).*1 = segment_list n segs.
Proof.
  revert n. induction segs as [|s segs IH]; intros n Hn Hs He; cbn in *.
  - by rewrite segment_of_active by (unfold_widths; lia).
  - destruct Hs as (Hne & _ & _ & Hs). pose proof (seg_len_pos s Hne).
    pose proof (seg_end_ge (n + seg_len s) segs).
    rewrite segment_of_sealed by (unfold_widths; lia). f_equal. apply IH; [lia|done|done].
Qed.

Lemma segment_list_starts n segs sf :
  sealed_at n segs -> sf ∈ segment_list n segs -> n <= sf_start_sequence sf.
Proof.
  revert n. induction segs as [|s segs IH]; intros n Hs Hin; cbn in *.
  - by apply list_elem_of_singleton in Hin as ->.
  - destruct Hs as (Hne & _ & _ & Hs). pose proof (seg_len_pos s Hne).
    apply elem_of_cons in Hin as [->|Hin]; [done|]. specialize (IH _ Hs Hin). lia.
Qed.

Lemma segment_list_sorted n segs :
  sealed_at n segs -> StronglySorted sort_key_le (segment_list n segs).
Proof.
  revert n. induction segs as [|s segs IH]; intros n Hs; cbn in *; [repeat constructor|].
  destruct Hs as (Hne & _ & _ & Hs). pose proof (seg_len_pos s Hne). constructor; [by apply IH|].
  apply Forall_forall. intros sf Hin%(segment_list_starts _ _ _ Hs). left. cbn. lia.
Qed.

Lemma segment_list_distinct n segs a b :
  sealed_at n segs -> a ∈ segment_list n segs -> b ∈ segment_list n segs ->
  sf_start_sequence a = sf_start_sequence b -> a = b.
Proof.
  revert n. induction segs as [|s segs IH]; intros n Hs Ha Hb E; cbn in *.
  - apply list_elem_of_singleton in Ha, Hb. congruence.
  - destruct Hs as (Hne & _ & _ & Hs). pose proof (seg_len_pos s Hne).
    apply elem_of_cons in Ha, Hb.
    destruct Ha as [->|Ha], Hb as [->|Hb]; [done| | |by eapply IH];
      [apply (segment_list_starts _ _ _ Hs) in Hb | apply (segment_list_starts _ _ _ Hs) in Ha];
      cbn in *; lia.
Qed.

#[local] Instance sort_key_le_total : Total sort_key_le.
Proof.
  intros a b. unfold sort_key_le.
  destruct (Z.lt_trichotomy (sf_start_sequence a) (sf_start_sequence b)) as [?|[?|?]];
    destruct (sf_active a), (sf_active b); lia || tauto.
Qed.

#[local] Instance sort_key_le_trans : Transitive sort_key_le.
Proof. intros a b c. unfold sort_key_le. intros [?|[? ?]] [?|[? ?]]; [left; lia..|]. right. split; [lia|tauto]. Qed.

(** Sorting finds the segments of a layout in order. *)
Lemma list_segments_layout dir n segs act :
  wal_layout dir n segs act -> list_segments dir = segment_list n segs.
Proof.
  intros [-> Hs _ _ Hn He].
  assert (seg_end n segs <= u64_max) as He' by (unfold seg_len in He; lia).
  assert (omap segment_of_name (map_to_list (list_to_map (file_list n segs act) : WalDir)).*1
            ≡ₚ segment_list n segs) as Hperm.
  { rewrite map_to_list_to_map by (by apply file_list_NoDup). by rewrite file_list_segments. }
  unfold list_segments. apply (StronglySorted_unique_strong sort_key_le).
  - intros a b Ha Hb Hab Hba. rewrite merge_sort_Permutation, Hperm in Ha.
    eapply segment_list_distinct; [done..|]. unfold sort_key_le in *. lia.
  - apply (StronglySorted_merge_sort sort_key_le).
  - by apply segment_list_sorted.
  - by rewrite merge_sort_Permutation.
Qed.

(** ** Replay *)

Lemma push_contiguous_ok n es acc expected :
  contiguous n es -> 0 <= n -> n + Z.of_nat (length es) <= u64_max ->
  expected = None \/ expected = Some n ->
  push_contiguous es acc expected =
    Ok (acc ++ es, match es with [] => expected | _ => Some (n + Z.of_nat (length es)) end).
Proof.
  revert n acc expected. induction es as [|e es IH]; intros n acc expected Hc Hn He Hx.
  { cbn. by rewrite app_nil_r. }
  apply contiguous_cons in Hc as [Hseq Hc]. cbn [length] in He.
  assert (push_contiguous (e :: es) acc expected =
          push_contiguous es (acc ++ [e]) (Some (n + 1))) as ->.
  { assert (wrapping_add (we_sequence e) 1 = n + 1) as Hw
      by (unfold wrapping_add; rewrite Hseq, Z.mod_small; [done|unfold_widths; lia]).
    cbn. rewrite Hw. destruct Hx as [->| ->]; [done|]. by rewrite Hseq, Z.eqb_refl. }
  rewrite (IH (n + 1)) by (done || lia || by right). rewrite <- app_assoc. do 3 f_equal.
  destruct es; cbn [length]; f_equal; lia.
Qed.

Lemma head_contiguous n e es : contiguous n (e :: es) -> we_sequence e = n.
Proof. by intros [? _]%contiguous_cons. Qed.

Lemma replay_layout_from dir n segs act acc expected :
  sealed_at n segs -> contiguous (seg_end n segs) act.1 -> reads_as keyring act.2 act.1 ->
  0 <= n -> seg_end n segs + seg_len act <= u64_max ->
  (forall name c, (name, c) ∈ file_list n segs act -> dir !! name = Some c) ->
  expected = None \/ expected = Some n ->
  exists x, foldM (replay_segment dir keyring) (acc, expected) (segment_list n segs) =
    Ok (acc ++ layout_log segs act, x).
Proof.
  revert n acc expected. induction segs as [|s segs IH]; intros n acc expected Hs Hc Hr Hn He Hdir Hx;
    cbn [segment_list foldM].
  - cbn in Hc, He. unfold replay_segment, read_segment_entries. cbn [sf_path].
    rewrite (Hdir (active_segment_path n) act.2) by left. unfold reads_as in Hr. rewrite Hr.
    unfold layout_log. cbn [mbind result_bind fmap list_fmap mjoin list_join app].
    destruct act as [[|e es] c]; cbn [fst snd sf_active sf_start_sequence sf_end_sequence] in *.
    + exists expected. by rewrite app_nil_r.
    + rewrite (head_contiguous _ _ _ Hc), Z.eqb_refl. cbn [negb].
      rewrite (push_contiguous_ok n) by done. by eexists.
  - destruct Hs as (Hne & Hcs & Hrs & Hs). pose proof (seg_len_pos s Hne).
    pose proof (seg_end_ge (n + seg_len s) segs). cbn in Hc, He.
    unfold replay_segment at 2, read_segment_entries. cbn [sf_path].
    rewrite (Hdir (sealed_segment_path n (n + seg_len s - 1)) s.2) by left.
    unfold reads_as in Hrs. rewrite Hrs. cbn [mbind result_bind].
    destruct s as [[|e es] c]; [done|]. cbn [fst snd sf_active sf_start_sequence sf_end_sequence] in *.
    rewrite (head_contiguous _ _ _ Hcs), Z.eqb_refl. cbn [negb].
    destruct (last (e :: es)) as [l|] eqn:El; [|by apply last_None in El].
    rewrite (contiguous_last _ _ _ Hcs El). unfold seg_len in *. cbn [fst] in *. rewrite Z.eqb_refl.
    cbn [negb]. rewrite (push_contiguous_ok n); [|done|done|unfold seg_len in *; lia|done].
    cbn [mbind result_bind].
    edestruct (IH (n + Z.of_nat (length (e :: es)))) as [x Hx']; [done..|lia|lia| |by right|].
    { intros name cc Hin. apply Hdir. by right. }
    exists x. rewrite Hx'. unfold layout_log. cbn [fmap list_fmap mjoin list_join fst].
    by rewrite <- !app_assoc.
Qed.

Lemma segment_list_active n segs :
  List.filter sf_active (segment_list n segs) =
    [mkSegmentFile (active_segment_path (seg_end n segs)) (seg_end n segs) None true].
Proof. revert n. induction segs as [|s segs IH]; intros n; cbn; [done|]. apply IH. Qed.

Lemma layout_lookup dir n segs act name c :
  wal_layout dir n segs act -> (name, c) ∈ file_list n segs act -> dir !! name = Some c.
Proof.
  intros [-> Hs _ _ Hn He] Hin. apply elem_of_list_to_map; [|done].
  apply file_list_NoDup; [done|done|]. unfold seg_len in He. lia.
Qed.

(** A laid-out directory replays to its log. *)
Lemma replay_layout dir n segs act :
  wal_layout dir n segs act ->
  exists count, replay dir keyring =
    Ok (mkWalReplay (layout_log segs act) count
          (we_sequence <$> head (layout_log segs act))
          (we_sequence <$> last (layout_log segs act))).
Proof.
  intros Hl. unfold replay. rewrite (list_segments_layout dir n segs act Hl). unfold replay_segments.
  rewrite segment_list_active. cbn [length Z.of_nat Z.ltb Z.compare].
  pose proof Hl as [_ Hs Hc Hr Hn He].
  destruct (replay_layout_from dir n segs act [] None) as [x Hx]; try done.
  - intros name c Hin. by eapply layout_lookup.
  - by left.
  - rewrite Hx. by eexists.
Qed.

Lemma active_segment_layout dir n segs act :
  wal_layout dir n segs act ->
  active_segment_file dir =
    Some (mkSegmentFile (active_segment_path (seg_end n segs)) (seg_end n segs) None true).
Proof.
  intros Hl. unfold active_segment_file. rewrite (list_segments_layout dir n segs act Hl).
  by rewrite segment_list_active.
Qed.

(** An empty directory with a fresh active file. *)
Lemma layout_fresh n :
  is_u64 n -> wal_layout {[active_segment_path n := []]} n [] ([], []).
Proof.
  intros [H0' H1']. split; cbn; try done; unfold seg_len; cbn; lia.
Qed.

(** ** Changing the active file *)

Lemma file_list_alter n segs act es c :
  0 <= n -> sealed_at n segs -> seg_end n segs <= u64_max ->
  alter (fun content => content ++ c) (active_segment_path (seg_end n segs))
    (list_to_map (file_list n segs act) : WalDir) =
    list_to_map (file_list n segs (es, act.2 ++ c)).
Proof.
  revert n. induction segs as [|s segs IH]; intros n Hn Hs He; cbn in *.
  - by rewrite alter_insert_eq.
  - destruct Hs as (Hne & _ & _ & Hs). pose proof (seg_len_pos s Hne).
    pose proof (seg_end_ge (n + seg_len s) segs).
    rewrite alter_insert_ne, IH; [done|lia|done|done|].
    apply active_sealed_ne; unfold_widths; lia.
Qed.

(** Appending a readable chunk to the active file. *)
Lemma layout_append dir n segs act c es :
  wal_layout dir n segs act -> reads_as keyring c es ->
  contiguous (seg_end n segs + seg_len act) es ->
  seg_end n segs + seg_len act + Z.of_nat (length es) <= u64_max ->
  wal_layout (alter (fun content => content ++ c) (active_segment_path (seg_end n segs)) dir)
    n segs (act.1 ++ es, act.2 ++ c).
Proof.
  intros [-> Hs Hc Hr Hn He] Hrc Hce Hb. split; try done.
  - apply file_list_alter; [done|done|]. unfold seg_len in He. lia.
  - cbn. by apply contiguous_app.
  - by apply reads_as_app.
  - unfold seg_len in *. cbn. rewrite length_app. lia.
Qed.

(** ** Rotation *)

Fixpoint sealed_files (n : Z) (segs : list segment) : list (string * list byte) :=
  match segs with
  | [] => []
  | s :: segs =>
      (sealed_segment_path n (n + seg_len s - 1), s.2) :: sealed_files (n + seg_len s) segs
  end.

Lemma file_list_split n segs act :
  file_list n segs act = sealed_files n segs ++ [(active_segment_path (seg_end n segs), act.2)].
Proof. revert n. induction segs as [|s segs IH]; intros n; cbn; [done|]. by rewrite IH. Qed.

Lemma sealed_files_snoc n segs s :
  sealed_files n (segs ++ [s]) =
    sealed_files n segs ++
      [(sealed_segment_path (seg_end n segs) (seg_end n segs + seg_len s - 1), s.2)].
Proof. revert n. induction segs as [|s' segs IH]; intros n; cbn; [done|]. by rewrite IH. Qed.

Lemma sealed_at_snoc n segs s :
  sealed_at n (segs ++ [s]) <->
  sealed_at n segs /\ s.1 <> [] /\ contiguous (seg_end n segs) s.1 /\ reads_as keyring s.2 s.1.
Proof.
  revert n. induction segs as [|s' segs IH]; intros n; cbn; [tauto|]. rewrite IH. tauto.
Qed.

Lemma layout_log_seal segs act : layout_log (segs ++ [act]) ([], []) = layout_log segs act.
Proof.
  unfold layout_log. rewrite fmap_app, join_app. cbn. by rewrite !app_nil_r.
Qed.

Lemma layout_rotate dir n segs act e :
  wal_layout dir n segs act -> act.1 <> [] -> seg_end n segs + seg_len act = e + 1 ->
  wal_layout
    (open_append
       (rename_file (active_segment_path (seg_end n segs))
          (sealed_segment_path (seg_end n segs) e) dir)
       (active_segment_path (e + 1)))
    n (segs ++ [act]) ([], []).
Proof.
  intros Hl Hne Hseq. pose proof Hl as [Hdir Hs Hc Hr Hn He].
  assert (sealed_at n (segs ++ [act])) as Hs' by (by apply sealed_at_snoc).
  pose proof (seg_len_pos act Hne) as Hpos. pose proof (seg_end_ge n segs) as Hge.
  assert (seg_end n (segs ++ [act]) <= u64_max) as He' by (rewrite seg_end_app; lia).
  pose proof (file_list_NoDup n segs act Hn Hs ltac:(lia)) as Hnd1.
  pose proof (file_list_NoDup n (segs ++ [act]) ([], []) Hn Hs' He') as Hnd2.
  rewrite file_list_split, fmap_app in Hnd1, Hnd2. rewrite sealed_files_snoc, fmap_app in Hnd2.
  rewrite seg_end_app, Hseq, Z.add_simpl_r in Hnd2.
  apply NoDup_app in Hnd1 as (_ & Hd1 & _). apply NoDup_app in Hnd2 as (Hnd2 & Hd2 & _).
  apply NoDup_app in Hnd2 as (_ & Hd3 & _).
  split; try done; cbn; unfold seg_len; cbn; [|rewrite seg_end_app; lia].
  rewrite file_list_split, sealed_files_snoc, seg_end_app, Hseq, Z.add_simpl_r.
  assert (active_segment_path (seg_end n segs) ∉ (sealed_files n segs).*1) as N1
    by (intros Hin; apply (Hd1 _ Hin); left).
  assert (sealed_segment_path (seg_end n segs) e ∉ (sealed_files n segs).*1) as N2
    by (intros Hin; apply (Hd3 _ Hin); left).
  assert (active_segment_path (e + 1) ∉
    (sealed_files n segs ++ [(sealed_segment_path (seg_end n segs) e, act.2)]).*1) as N3
    by (rewrite fmap_app; intros Hin; apply (Hd2 _ Hin); left).
  unfold rename_file. rewrite Hdir, file_list_split, list_to_map_snoc by done.
  rewrite lookup_insert_eq, delete_insert_id by (by apply not_elem_of_list_to_map).
  rewrite <- list_to_map_snoc by done. unfold open_append.
  rewrite (not_elem_of_list_to_map_1 _ _ N3), <- list_to_map_snoc by done. done.
Qed.

End layout.
