(* ===== verification/Engine.v ===== *)
(** * Engine: the storage engine's operations (crates/engine/src/engine/core.rs, traits.rs)

    [Engine] is the part of the source's struct that its operations read and
    write.  The write-ahead log is behind the interface [WalWriter]; the entry
    checksum ([rmp_serde] and [crc32fast]) behind [EntryChecksum].  Every
    operation is a [fallible] transformer of the engine: on the error path the
    engine is returned as the source leaves it.  Each reading of the clock is an
    argument: [now_ms] the one an operation takes first, [entry_ms] the one
    [next_entry] takes. *)

From S2P Require Import Prelude Text Command EngineError Store State Wildcard.

(** ** Interfaces *)

(** What the engine relies on of a log: an acceptable batch that was appended
    without an error is at the end of the durable log. *)
Class WalWriter (W : Type) := {
  wal_append_batch : W -> list WalEntry -> W * result EngineError unit;
  wal_durable : W -> list WalEntry;
  wal_accepts : W -> list WalEntry -> Prop;
  wal_append_durable w es w' :
    wal_accepts w es -> wal_append_batch w es = (w', Ok tt) ->
    wal_durable w' = wal_durable w ++ es;
}.

(** [WalEntry::checksum]. *)
Class EntryChecksum := checksum : WalEntry -> result EngineError Z.

(** ** Types of the storage trait (traits.rs) *)

Record ScanPage := mkScanPage { sp_next_cursor : Z; sp_keys : list string }.

Inductive TransactionResult :=
| TrOk
| TrNotFound
| TrValue (value : list byte)
| TrBoolean (b : bool)
| TrCount (n : Z)
| TrInteger (n : Z)
| TrEntries (entries : list (string * list byte))
| TrStrings (values : list (option (list byte)))
| TrScan (page : ScanPage).

Inductive EngineSetCondition := IfMissing | IfPresent.

Inductive EngineExpiration :=
| Seconds (n : Z)
| Milliseconds (n : Z).

Record EngineSetOptions := mkEngineSetOptions {
  eso_condition : option EngineSetCondition;
  eso_expiration : option EngineExpiration;
  eso_keep_ttl : bool;
  eso_if_version : option Z;
}.

Definition EngineSetOptions_default : EngineSetOptions := mkEngineSetOptions None None false None.

Record SetOutcome := mkSetOutcome {
  so_applied : bool;
  so_previous : option (list byte);
  so_version : option Z;
}.

Record WalEntryIdentity := mkWalEntryIdentity { wi_term : Z; wi_checksum : Z }.

#[export] Instance WalEntryIdentity_eq_dec : EqDecision WalEntryIdentity.
Proof. solve_decision. Defined.
#[export] Instance ScanPage_eq_dec : EqDecision ScanPage.
Proof. solve_decision. Defined.
#[export] Instance TransactionResult_eq_dec : EqDecision TransactionResult.
Proof. solve_decision. Defined.

Definition DEFAULT_SCAN_COUNT : Z := 10.

(** ** Helpers *)

Definition next_value_version (previous : option StoredValue) : Z :=
  match previous with
  | Some entry => saturating_add (sv_version entry) 1
  | None => 1
  end.

Definition parse_integer_value (key : string) (value : list byte) : result EngineError Z :=
  text ← ok_or (from_utf8 value) (InvalidIntegerValue key (from_utf8_lossy value));
  ok_or (parse_i64 text) (InvalidIntegerValue key text).

Definition resolve_expiration (now_ms : Z) (expiration : EngineExpiration) : Z :=
  match expiration with
  | Seconds seconds => saturating_add now_ms (saturating_mul seconds 1000)
  | Milliseconds milliseconds => saturating_add now_ms milliseconds
  end.

Definition map_command_expiration (expiration : option Expiration) : option EngineExpiration :=
  (fun e => match e with Ex value => Seconds value | Px value => Milliseconds value end)
    <$> expiration.

Definition map_command_set_options (options : SetOptions) : EngineSetOptions :=
  mkEngineSetOptions
    ((fun c => match c with Nx => IfMissing | Xx => IfPresent end) <$> so_condition options)
    (map_command_expiration (so_expiration options))
    (so_keep_ttl options)
    (so_if_version options).

(** The guard of a conditional write. *)
Definition set_allowed (condition : option EngineSetCondition) (if_version : option Z)
    (previous : option StoredValue) : bool :=
  match condition with
  | Some IfMissing => negb (is_some previous)
  | Some IfPresent => is_some previous
  | None => true
  end &&
  match if_version with
  | Some expected => bool_decide (sv_version <$> previous = Some expected)
  | None => true
  end.

(** The page of SCAN at [cursor] over the matching sorted keys. *)
Definition scan_page (keys : list string) (cursor : Z) (pattern : option string)
    (count : option Z) : ScanPage :=
  let keys := match pattern with
              | Some pattern => List.filter (wildcard_matches pattern) keys
              | None => keys
              end in
  let total := Z.of_nat (length keys) in
  if total =? 0 then mkScanPage 0 []
  else if total <=? cursor then mkScanPage 0 []
  else
    let limit := Z.max (default DEFAULT_SCAN_COUNT count) 1 in
    let finish := Z.min (cursor + limit) total in
    let next_cursor := if total <=? finish then 0 else finish in
    mkScanPage next_cursor
      (take (Z.to_nat (finish - cursor)) (drop (Z.to_nat cursor) keys)).

(** [push_unique_wal_entry]: append unless it repeats the last entry. *)
Definition push_unique_wal_entry `{EntryChecksum} (entries : list WalEntry) (entry : WalEntry)
    : result EngineError (list WalEntry) :=
  match last entries with
  | Some last =>
      if we_sequence entry <? we_sequence last then
        Err (InvalidStorageOperation
               ("non-monotonic in-memory WAL cache: previous " +:+
                int_to_string (we_sequence last) +:+ ", got " +:+
                int_to_string (we_sequence entry)))
      else if we_sequence entry =? we_sequence last then
        let conflict := Err (InvalidStorageOperation
               ("conflicting duplicate in-memory WAL entry at sequence " +:+
                int_to_string (we_sequence entry))) in
        if negb (we_term entry =? we_term last) then conflict
        else
          c1 ← checksum entry;
          c2 ← checksum last;
          if negb (c1 =? c2) then conflict else Ok entries
      else Ok (entries ++ [entry])
  | None => Ok (entries ++ [entry])
  end.

Definition wal_entry_identity `{EntryChecksum} (entry : WalEntry)
    : result EngineError WalEntryIdentity :=
  c ← checksum entry; Ok (mkWalEntryIdentity (we_term entry) c).

(** The body of the loop of [build_wal_entry_identities]. *)
Definition add_wal_entry_identity `{EntryChecksum} (identities : gmap Z WalEntryIdentity)
    (entry : WalEntry) : result EngineError (gmap Z WalEntryIdentity) :=
  identity ← wal_entry_identity entry;
  match identities !! we_sequence entry with
  | Some previous =>
      if bool_decide (previous = identity)
      then Ok (<[we_sequence entry := identity]> identities)
      else Err (InvalidStorageOperation
                  ("conflicting duplicate WAL identity at sequence " +:+
                   int_to_string (we_sequence entry)))
  | None => Ok (<[we_sequence entry := identity]> identities)
  end.

Definition build_wal_entry_identities `{EntryChecksum} (entries : list WalEntry)
    : result EngineError (gmap Z WalEntryIdentity) :=
  foldM add_wal_entry_identity ∅ entries.

(** ** The engine *)

Record Engine (W : Type) := mkEngine {
  en_state : EngineState;
  en_wal_writer : W;
  en_wal_entries : list WalEntry;
  en_wal_entry_identities : gmap Z WalEntryIdentity;
  en_current_consensus_term : Z;
}.
Arguments mkEngine {W} _ _ _ _ _.
Arguments en_state {W} _.
Arguments en_wal_writer {W} _.
Arguments en_wal_entries {W} _.
Arguments en_wal_entry_identities {W} _.
Arguments en_current_consensus_term {W} _.

Module Engine.
Section engine.
Context {W : Type} `{WalWriter W} `{EntryChecksum}.

Notation M := (fallible (Engine W) EngineError).

Definition with_state (eng : Engine W) (st : EngineState) : Engine W :=
  mkEngine st (en_wal_writer eng) (en_wal_entries eng) (en_wal_entry_identities eng)
    (en_current_consensus_term eng).

Definition with_writer (eng : Engine W) (w : W) : Engine W :=
  mkEngine (en_state eng) w (en_wal_entries eng) (en_wal_entry_identities eng)
    (en_current_consensus_term eng).

(** Remembers an appended entry and its identity. *)
Definition record_entries (eng : Engine W) (entries : list WalEntry)
    (identities : gmap Z WalEntryIdentity) : Engine W :=
  mkEngine (en_state eng) (en_wal_writer eng) (en_wal_entries eng ++ entries)
    (identities ∪ en_wal_entry_identities eng) (en_current_consensus_term eng).

Definition modify_state (f : EngineState -> EngineState) : M unit :=
  fun eng => (with_state eng (f (en_state eng)), Ok tt).

Definition read_state {A} (f : EngineState -> EngineState * A) : M A :=
  fun eng => let '(st, a) := f (en_state eng) in (with_state eng st, Ok a).

Definition append_batch (entries : list WalEntry) : M unit :=
  fun eng =>
    let '(w, r) := wal_append_batch (en_wal_writer eng) entries in (with_writer eng w, r).

Definition state_apply_entry (entry : WalEntry) : M unit :=
  fun eng => let '(st, r) := apply_entry (en_state eng) entry in (with_state eng st, r).

Definition next_entry (eng : Engine W) (entry_ms : Z) (operations : list WalOperation)
    : WalEntry :=
  mkWalEntry (wrapping_add (md_last_applied_sequence (es_metadata (en_state eng))) 1)
    (en_current_consensus_term eng) entry_ms operations.

(** The steps [append_and_apply] and [execute_transaction] share: log first,
    then apply, then remember. *)
Definition commit_entry (entry : WalEntry) : M unit :=
  identity ← mpure (wal_entry_identity entry);
  _ ← append_batch [entry];
  _ ← state_apply_entry entry;
  mmodify (fun eng => record_entries eng [entry] {[we_sequence entry := identity]}).

Definition append_and_apply (entry_ms : Z) (operations : list WalOperation) : M unit :=
  eng ← mget;
  commit_entry (next_entry eng entry_ms operations).

Definition append_noop (entry_ms : Z) : M unit := append_and_apply entry_ms [].

Definition purge (now_ms : Z) : M Z := read_state (fun st => EngineState.purge_expired st now_ms).

(** *** The [StorageEngine] trait *)

Definition get (now_ms : Z) (key : string) : M (option (list byte)) :=
  read_state (fun st => EngineState.get_live st key now_ms).

Definition set_with_options (now_ms entry_ms : Z) (key : string) (value : list byte)
    (options : EngineSetOptions) : M SetOutcome :=
  _ ← purge now_ms;
  eng ← mget;
  let previous_entry := EngineState.raw_entry (en_state eng) key in
  let previous := sv_value <$> previous_entry in
  let previous_expiration := previous_entry ≫= sv_expires_at_ms in
  let previous_version := sv_version <$> previous_entry in
  if negb (set_allowed (eso_condition options) (eso_if_version options) previous_entry) then
    mret (mkSetOutcome false previous previous_version)
  else
    let version := next_value_version previous_entry in
    let operations :=
      WalSet key value version ::
      match eso_expiration options with
      | Some expiration =>
          let expires_at_ms := resolve_expiration now_ms expiration in
          if expires_at_ms <=? now_ms then [WalDelete key] else [WalExpire key expires_at_ms]
      | None =>
          if eso_keep_ttl options then
            match previous_expiration with
            | Some expires_at_ms => [WalExpire key expires_at_ms]
            | None => []
            end
          else []
      end in
    _ ← append_and_apply entry_ms operations;
    mret (mkSetOutcome true previous (Some version)).

Definition set (now_ms entry_ms : Z) (key : string) (value : list byte) : M unit :=
  _ ← set_with_options now_ms entry_ms key value EngineSetOptions_default; mret tt.

Definition set_nx (now_ms entry_ms : Z) (key : string) (value : list byte) : M bool :=
  outcome ← set_with_options now_ms entry_ms key value
              (mkEngineSetOptions (Some IfMissing) None false None);
  mret (so_applied outcome).

Definition get_del (now_ms entry_ms : Z) (key : string) : M (option (list byte)) :=
  _ ← purge now_ms;
  eng ← mget;
  let previous := EngineState.raw_value (en_state eng) key in
  if is_some previous then
    _ ← append_and_apply entry_ms [WalDelete key]; mret previous
  else mret previous.

Definition get_ex (now_ms entry_ms : Z) (key : string) (expiration : option EngineExpiration)
    (persist : bool) : M (option (list byte)) :=
  _ ← purge now_ms;
  eng ← mget;
  let previous := EngineState.raw_value (en_state eng) key in
  if negb (is_some previous) then mret None
  else
    let operation :=
      match expiration with
      | Some expiration =>
          let expires_at_ms := resolve_expiration now_ms expiration in
          Some (if expires_at_ms <=? now_ms then WalDelete key else WalExpire key expires_at_ms)
      | None =>
          if persist && is_some (EngineState.raw_expiration (en_state eng) key)
          then Some (WalPersist key) else None
      end in
    match operation with
    | Some operation => _ ← append_and_apply entry_ms [operation]; mret previous
    | None => mret previous
    end.

Definition mget (now_ms : Z) (keys : list string) : M (list (option (list byte))) :=
  _ ← purge now_ms;
  eng ← Prelude.mget;
  mret (EngineState.raw_value (en_state eng) <$> keys).

(** The versions MSET assigns: a key repeated in one batch keeps counting. *)
Fixpoint mset_operations (st : EngineState) (next_versions : gmap string Z)
    (entries : list (string * list byte)) : list WalOperation :=
  match entries with
  | [] => []
  | (key, value) :: entries =>
      let version := match next_versions !! key with
                     | Some version => version
                     | None => next_value_version (EngineState.raw_entry st key)
                     end in
      WalSet key value version ::
        mset_operations st (<[key := saturating_add version 1]> next_versions) entries
  end.

Definition mset (entry_ms : Z) (entries : list (string * list byte)) : M unit :=
  eng ← Prelude.mget;
  append_and_apply entry_ms (mset_operations (en_state eng) ∅ entries).

Definition delete_many (now_ms entry_ms : Z) (keys : list string) : M Z :=
  _ ← purge now_ms;
  eng ← Prelude.mget;
  let removed := Z.of_nat (length
    (List.filter (fun key => EngineState.raw_contains_key (en_state eng) key) keys)) in
  if removed =? 0 then mret 0
  else
    _ ← append_and_apply entry_ms (WalDelete <$> keys);
    mret removed.

Definition delete (now_ms entry_ms : Z) (key : string) : M bool :=
  removed ← delete_many now_ms entry_ms [key]; mret (0 <? removed).

Definition exists_ (now_ms : Z) (key : string) : M bool :=
  read_state (fun st => EngineState.has_live_key st key now_ms).

(** [incr] and [decr]: the code is the same with [delta] 1 and -1. *)
Definition incr_by (delta now_ms entry_ms : Z) (key : string) : M Z :=
  _ ← purge now_ms;
  eng ← Prelude.mget;
  let current := default ascii_zero (EngineState.raw_value (en_state eng) key) in
  parsed ← mpure (parse_integer_value key current);
  next ← mpure (ok_or (checked_i64 (parsed + delta)) (NumericOverflow key));
  _ ← append_and_apply entry_ms [WalCheckInteger key delta];
  mret next.

Definition incr (now_ms entry_ms : Z) (key : string) : M Z := incr_by 1 now_ms entry_ms key.
Definition decr (now_ms entry_ms : Z) (key : string) : M Z := incr_by (-1) now_ms entry_ms key.

Definition expire (now_ms entry_ms : Z) (key : string) (seconds : Z) : M bool :=
  _ ← purge now_ms;
  eng ← Prelude.mget;
  if negb (EngineState.raw_contains_key (en_state eng) key) then mret false
  else if seconds =? 0 then _ ← append_and_apply entry_ms [WalDelete key]; mret true
  else
    let expires_at_ms := saturating_add now_ms (saturating_mul seconds 1000) in
    _ ← append_and_apply entry_ms [WalExpire key expires_at_ms];
    mret true.

Definition ttl (now_ms : Z) (key : string) : M Z :=
  read_state (fun st => EngineState.ttl_for st key now_ms).

Definition persist (now_ms entry_ms : Z) (key : string) : M bool :=
  _ ← purge now_ms;
  eng ← Prelude.mget;
  if negb (EngineState.raw_contains_key (en_state eng) key)
     || negb (is_some (EngineState.raw_expiration (en_state eng) key)) then mret false
  else _ ← append_and_apply entry_ms [WalPersist key]; mret true.

Definition rename (now_ms entry_ms : Z) (source destination : string) : M bool :=
  _ ← purge now_ms;
  eng ← Prelude.mget;
  match EngineState.raw_entry (en_state eng) source with
  | None => mret false
  | Some entry =>
      let operations :=
        [WalDelete source;
         WalSet destination (sv_value entry)
           (next_value_version (EngineState.raw_entry (en_state eng) destination))] ++
        match sv_expires_at_ms entry with
        | Some expires_at_ms => [WalExpire destination expires_at_ms]
        | None => []
        end in
      _ ← append_and_apply entry_ms operations;
      mret true
  end.

(** The nested call of [rename] reads the clock again ([now2_ms]). *)
Definition rename_nx (now_ms now2_ms entry_ms : Z) (source destination : string) : M bool :=
  _ ← purge now_ms;
  eng ← Prelude.mget;
  if EngineState.raw_contains_key (en_state eng) destination then mret false
  else rename now2_ms entry_ms source destination.

Definition db_size (now_ms : Z) : M Z :=
  _ ← purge now_ms;
  eng ← Prelude.mget;
  mret (EngineState.key_count (en_state eng)).

Definition count (now_ms : Z) : M Z := db_size now_ms.

Definition scan (now_ms cursor : Z) (pattern : option string) (count : option Z) : M ScanPage :=
  keys ← read_state (fun st => EngineState.live_keys st now_ms);
  mret (scan_page keys cursor pattern count).

Definition list (now_ms : Z) : M (list (string * list byte)) :=
  read_state (fun st => EngineState.live_entries st now_ms).

Definition sweep_expired (now_ms : Z) : M Z := purge now_ms.

Definition clear (entry_ms : Z) : M unit :=
  eng ← Prelude.mget;
  if EngineState.is_empty (en_state eng) then mret tt
  else append_and_apply entry_ms [WalClear].

Definition set_consensus_term (term : Z) : M unit :=
  mmodify (fun eng => mkEngine (en_state eng) (en_wal_writer eng) (en_wal_entries eng)
                        (en_wal_entry_identities eng) term).

End engine.
End Engine.
