(* ===== verification/AccessFacts.v ===== *)
(** * AccessFacts: what authorization lets through

    Patterns of grants on characters, the keys SCAN shows under a covered pattern,
    the keys an authorized command can change, and the arithmetic of the rate
    limiter on integers. *)

From Stdlib Require SpecFloat.
From S2P Require Import Prelude Text Command EngineError Store State Wildcard Wire Request.
From S2P Require Import ServerError Consensus Auth Access Engine.

(** ** Grants *)

Lemma permission_listed p : p ∈ permission_list.
Proof. destruct p; cbn; set_solver. Qed.

Lemma grants_in_order_elem g X : g ∈ grants_in_order X <-> g ∈ X.
Proof.
  unfold grants_in_order. rewrite list_elem_of_join. split.
  - intros (l & Hg & (p & -> & _)%list_elem_of_fmap). apply list_elem_of_fmap in Hg as (s & -> & Hs).
    rewrite merge_sort_Permutation in Hs. apply list_elem_of_fmap in Hs as ([q s'] & -> & Hg).
    apply list_elem_of_In, filter_In in Hg as [Hg Hq%bool_decide_eq_true]. cbn in *. subst.
    by apply elem_of_elements, list_elem_of_In.
  - intros Hg. destruct g as [p s]. eexists. split; [|apply list_elem_of_fmap; exists p; split; [done|apply permission_listed]].
    apply list_elem_of_fmap. exists s. split; [done|]. rewrite merge_sort_Permutation.
    apply list_elem_of_fmap. exists (mkPermissionGrant p s). split; [done|].
    apply list_elem_of_In, filter_In. split; [by apply list_elem_of_In, elem_of_elements|].
    by apply bool_decide_eq_true.
Qed.

Lemma existsb_grant (f : string -> bool) permission X :
  existsb (fun grant => bool_decide (pg_permission grant = permission) && f (pg_pattern grant)) (grants_in_order X)
    = true <-> exists pattern, mkPermissionGrant permission pattern ∈ X /\ f pattern = true.
Proof.
  rewrite existsb_exists. setoid_rewrite <- list_elem_of_In. setoid_rewrite grants_in_order_elem.
  setoid_rewrite andb_true_iff. setoid_rewrite bool_decide_eq_true. split.
  - intros ([p s] & Hg & <- & Hf). by exists s.
  - intros (s & Hg & Hf). by exists (mkPermissionGrant permission s).
Qed.

Lemma allows_key_spec i permission key :
  Identity.allows_key i permission key = true <->
  PermAdmin ∈ id_permissions i \/
  exists pattern, mkPermissionGrant permission pattern ∈ id_grants i /\ Pattern.wildcard_matches pattern key = true.
Proof.
  unfold Identity.allows_key. rewrite orb_true_iff, bool_decide_eq_true.
  by rewrite (existsb_grant (fun pattern => Pattern.wildcard_matches pattern key)).
Qed.

Lemma allows_pattern_spec i permission requested :
  Identity.allows_pattern i permission requested = true <->
  PermAdmin ∈ id_permissions i \/
  exists pattern, mkPermissionGrant permission pattern ∈ id_grants i /\ Pattern.pattern_covers pattern requested = true.
Proof.
  unfold Identity.allows_pattern. rewrite orb_true_iff, bool_decide_eq_true.
  by rewrite (existsb_grant (fun pattern => Pattern.pattern_covers pattern requested)).
Qed.

(** ** Characters and bytes *)

Lemma as_bytes_chars s : str_ok s -> as_bytes s = encode_chars (chars s).
Proof. intros [Hs _]%utf8_valid_decode. by unfold chars. Qed.

Lemma chars_prefix s cs rest :
  Forall is_scalar cs -> as_bytes s = encode_chars cs ++ rest ->
  chars s = cs ++ item_chars (utf8_items rest).
Proof.
  intros Hcs Hs. unfold chars. rewrite Hs. clear Hs. induction Hcs as [|c cs Hc _ IH]; [done|].
  rewrite encode_chars_cons, <- app_assoc, utf8_items_encode_char by done. cbn. by rewrite IH.
Qed.

(** The byte of a star is the star itself: longer encodings have high bytes only. *)
Lemma encode_char_star c : is_scalar c -> x2a ∈ encode_char c -> c = STAR.
Proof.
  intros Hc. unfold is_scalar in Hc. unfold encode_char.
  destruct (base64_digits c ltac:(lia)) as
    (q1 & q2 & q3 & r0 & r1 & r2 & -> & -> & -> & -> & -> & -> & E0 & E1 & E2 & ? & ? & ? & ?).
  assert (forall z, 0 <= z < 256 -> x2a = byte_of_Z z -> z = STAR) as Hb.
  { intros z Hz Hx. apply (f_equal bval) in Hx. rewrite bval_small in Hx by lia. done. }
  repeat (match goal with |- context [if ?b then _ else _] => destruct b eqn:? end);
    rewrite ?Z.ltb_lt, ?Z.ltb_ge in *; intros Hx;
    repeat (apply elem_of_cons in Hx as [Hx|Hx]; [apply Hb in Hx; lia|]);
    by apply elem_of_nil in Hx.
Qed.

(** ** Plain patterns *)

(** Text without wildcards, and patterns with at most one star and no question mark. *)
Definition literal (cs : list Z) : Prop := Forall (fun c => c <> STAR /\ c <> QUESTION) cs.
Definition plain_pattern (pattern : string) : Prop :=
  literal (chars pattern) \/
  exists before behind, chars pattern = before ++ STAR :: behind /\ literal before /\ literal behind.

Lemma glob_app p q text :
  glob (p ++ q) text -> exists t1 t2, text = t1 ++ t2 /\ glob p t1 /\ glob q t2.
Proof.
  intros (pieces & (l1 & l2 & H1 & H2 & ->)%Forall2_app_inv_l & <-).
  exists (mjoin l1), (mjoin l2). rewrite join_app. split; [done|]. split; eexists; eauto.
Qed.

Lemma glob_literal cs text : literal cs -> glob cs text -> text = cs.
Proof.
  intros Hl (pieces & Hp & <-). revert Hl. induction Hp as [|c piece cs pieces Hc _ IH]; [done|].
  intros [[H1 H2] Hl]%Forall_cons. unfold covers in Hc.
  apply Z.eqb_neq in H1, H2. rewrite H1, H2 in Hc. subst piece. cbn. f_equal. by apply IH.
Qed.

Lemma literal_no_star cs : Forall is_scalar cs -> literal cs -> x2a ∉ encode_chars cs.
Proof.
  induction 1 as [|c cs Hc _ IH]; intros Hl.
  - by intros ?%elem_of_nil.
  - apply Forall_cons in Hl as [[H1 _] Hl]. rewrite encode_chars_cons. intros [Hx|Hx]%elem_of_app.
    + by apply H1, encode_char_star.
    + by apply IH.
Qed.

Lemma split_star_none bs : x2a ∉ bs -> Pattern.split_star bs = None.
Proof.
  induction bs as [|b bs IH]; [done|]. intros [Hb Hbs]%not_elem_of_cons. cbn.
  rewrite bool_decide_eq_false_2 by congruence. by rewrite IH.
Qed.

Lemma split_star_some before behind :
  x2a ∉ before -> Pattern.split_star (before ++ x2a :: behind) = Some (before, behind).
Proof.
  induction before as [|b before IH]; [done|]. intros [Hb Hbs]%not_elem_of_cons. cbn.
  rewrite bool_decide_eq_false_2 by congruence. by rewrite IH.
Qed.

Lemma trim_stars_none bs : x2a ∉ bs -> Pattern.trim_stars bs = bs.
Proof.
  destruct bs as [|b bs]; [done|]. intros [Hb _]%not_elem_of_cons. cbn.
  by rewrite bool_decide_eq_false_2 by congruence.
Qed.

Lemma trim_end_stars_one bs : x2a ∉ bs -> Pattern.trim_end_stars (bs ++ [x2a]) = bs.
Proof.
  intros Hb. unfold Pattern.trim_end_stars. rewrite reverse_snoc. cbn.
  rewrite trim_stars_none by (by rewrite elem_of_reverse). apply reverse_involutive.
Qed.

(** A plain pattern that covers a requested one matches every key the request
    matches. *)
Lemma covered_key_matches grant requested key :
  str_ok grant -> str_ok key -> plain_pattern grant ->
  Pattern.pattern_covers grant requested = true -> glob (chars requested) (chars key) ->
  Pattern.wildcard_matches grant key = true.
Proof.
  intros Hg Hk Hplain Hcov Hglob. unfold Pattern.wildcard_matches. case_bool_decide as Hstar; [done|].
  pose proof (chars_scalar grant Hg) as Hs. rewrite (as_bytes_chars grant Hg).
  unfold Pattern.pattern_covers in Hcov. rewrite bool_decide_eq_false_2 in Hcov by done. cbn [orb] in Hcov.
  rewrite (as_bytes_chars grant Hg) in Hcov. rewrite (as_bytes_chars key Hk).
  destruct Hplain as [Hl|(before & behind & Hc & Hb & Hd)].
  - rewrite split_star_none by (by apply literal_no_star). apply bool_decide_eq_true.
    apply orb_true_iff in Hcov as [<-%bool_decide_eq_true|Hcov].
    + apply glob_literal in Hglob; [|done]. rewrite <- (string_of_chars_chars key Hk), Hglob. by rewrite string_of_chars_chars.
    + rewrite !andb_true_iff, !bool_decide_eq_true in Hcov. destruct Hcov as [[_ (rest & Hr)] _].
      exfalso. apply (literal_no_star _ Hs Hl). rewrite Hr. set_solver.
  - rewrite Hc in Hs. apply Forall_app in Hs as [Hsb [_ Hsd]%Forall_cons].
    rewrite Hc, encode_chars_app, encode_chars_cons in Hcov |- *. change (encode_char STAR) with [x2a] in *. cbn [app] in *.
    rewrite split_star_some by (by apply literal_no_star).
    apply andb_true_iff. rewrite !bool_decide_eq_true.
    apply orb_true_iff in Hcov as [<-%bool_decide_eq_true|Hcov].
    + rewrite Hc in Hglob. apply glob_app in Hglob as (t1 & t2 & -> & ->%glob_literal & Hglob); [|done].
      apply (glob_app [STAR] behind) in Hglob as (m & t3 & -> & _ & ->%glob_literal); [|done].
      rewrite !encode_chars_app. split; [by apply prefix_app_r|]. rewrite app_assoc. by apply suffix_app_r.
    + rewrite !andb_true_iff, !bool_decide_eq_true in Hcov. destruct Hcov as [[_ Hsuf] Hpre].
      assert (encode_chars behind = []) as Hnil.
      { destruct (encode_chars behind) as [|b bs] eqn:Eb using rev_ind; [done|exfalso].
        apply (literal_no_star _ Hsd Hd). rewrite Eb.
        change (encode_chars before ++ x2a :: bs ++ [b]) with (encode_chars before ++ (x2a :: bs) ++ [b]) in Hsuf.
        rewrite app_assoc in Hsuf. destruct Hsuf as (rest & Hr). apply app_inj_2 in Hr as [_ [= ->]]; [|done].
        set_solver. }
      rewrite Hnil in *. rewrite trim_end_stars_one in Hpre by (by apply literal_no_star).
      destruct Hpre as (rest & Hr). apply chars_prefix in Hr; [|done]. rewrite Hr in Hglob.
      apply glob_app in Hglob as (t1 & t2 & -> & ->%glob_literal & _); [|done].
      rewrite encode_chars_app. split; [by apply prefix_app_r|apply suffix_nil].
Qed.

Lemma scan_page_matches keys cursor pattern count key :
  key ∈ sp_keys (scan_page keys cursor (Some pattern) count) ->
  key ∈ keys /\ glob (chars pattern) (chars key).
Proof.
  intros Hk. assert (key ∈ List.filter (wildcard_matches pattern) keys) as Hin.
  { unfold scan_page in Hk. repeat (case_match; [by apply elem_of_nil in Hk|]). cbn in Hk.
    eapply subseteq_drop, subseteq_take; exact Hk. }
  apply list_elem_of_In, filter_In in Hin as [Hin Hm%wildcard_matches_glob]. by rewrite list_elem_of_In.
Qed.

(** Without a pattern, SCAN is allowed with a grant on all keys only. *)
Lemma covers_all grant : Pattern.pattern_covers grant "*" = true -> grant = "*"%string.
Proof.
  unfold Pattern.pattern_covers. rewrite (bool_decide_eq_true_2 ("*"%string = "*"%string)) by done.
  cbn [negb andb]. rewrite orb_false_r, orb_true_iff, !bool_decide_eq_true. tauto.
Qed.

Lemma authorized_scan session user cursor pattern count :
  se_identity session = Some user ->
  authorize_command (CmdScan cursor pattern count) session = Ok tt ->
  Identity.allows_pattern user PermRead (default "*"%string pattern) = true.
Proof.
  intros Hu. unfold authorize_command. cbn. rewrite Hu. by destruct (Identity.allows_pattern _ _ _).
Qed.

(** ** Lockouts *)

(** Logins of all accounts in their order: one that fails at a time, and one that
    passes. *)
Inductive LoginEvent :=
  | LoginFailed (key : string) (now_ms : Z)
  | LoginPassed (key : string).

Definition login (window limit lockout : Z) (records : AuthLockoutState) (event : LoginEvent) : AuthLockoutState :=
  match event with
  | LoginFailed key now_ms => (AuthLockoutState.record_failure key now_ms window limit lockout records).1
  | LoginPassed key => AuthLockoutState.clear_success key records
  end.
Definition logins (window limit lockout : Z) (events : list LoginEvent) : AuthLockoutState :=
  foldl (login window limit lockout) ∅ events.

(** [open_window key window events times]: [times] are the failures of the window that
    is open for [key] after [events].  A failure opens a window where none is open or
    where the open one began more than [window] ago, and else it is one more failure of
    the open window; a login that passes closes it, and the logins of other accounts
    leave it alone. *)
Inductive open_window (key : string) (window : Z) : list LoginEvent -> list Z -> Prop :=
  | ow_none : open_window key window [] []
  | ow_opens events t :
      open_window key window events [] -> open_window key window (events ++ [LoginFailed key t]) [t]
  | ow_within events t0 times t :
      open_window key window events (t0 :: times) -> t <= t0 + window ->
      open_window key window (events ++ [LoginFailed key t]) ((t0 :: times) ++ [t])
  | ow_reopens events t0 times t :
      open_window key window events (t0 :: times) -> t0 + window < t ->
      open_window key window (events ++ [LoginFailed key t]) [t]
  | ow_passed events times :
      open_window key window events times -> open_window key window (events ++ [LoginPassed key]) []
  | ow_other_failed events times other t :
      open_window key window events times -> other <> key ->
      open_window key window (events ++ [LoginFailed other t]) times
  | ow_other_passed events times other :
      open_window key window events times -> other <> key ->
      open_window key window (events ++ [LoginPassed other]) times.

(** There is exactly one such list of failures. *)
Lemma open_window_total key window events : exists times, open_window key window events times.
Proof.
  induction events as [|event events [times IH]] using rev_ind; [by exists []; constructor|].
  destruct event as [other t|other]; destruct (decide (other = key)) as [->|Hne].
  - destruct times as [|t0 times]; [by eexists; apply ow_opens|].
    destruct (Z.le_gt_cases t (t0 + window)); eexists; [by eapply ow_within|eapply ow_reopens; [done|lia]].
  - by exists times; apply ow_other_failed.
  - by exists []; eapply ow_passed.
  - by exists times; apply ow_other_passed.
Qed.

Lemma open_window_length key window events times :
  open_window key window events times -> (length times <= length events)%nat.
Proof. induction 1; rewrite ?length_app in *; cbn in *; rewrite ?length_app in *; cbn in *; lia. Qed.

(** The record that goes with an open window. *)
Definition window_record (limit lockout : Z) (times : list Z) : option AuthLockoutRecord :=
  match times with
  | [] => None
  | t0 :: rest => Some (mkAuthLockoutRecord t0 (Z.of_nat (length times))
      (if limit <=? Z.of_nat (length times) then Some (saturating_add (List.last rest t0) lockout) else None))
  end.

(** A failure within the window counts. *)
Lemma record_failure_step key now window limit lockout records first count locked :
  default (mkAuthLockoutRecord now 0 None) (records !! key) = mkAuthLockoutRecord first count locked ->
  0 <= window -> now <= first + window -> count + 1 <= u32_max ->
  (AuthLockoutState.record_failure key now window limit lockout records).1 !! key =
    Some (mkAuthLockoutRecord first (count + 1)
      (if limit <=? count + 1 then Some (saturating_add now lockout) else locked)).
Proof.
  intros Hr Hw Hn Hc. unfold AuthLockoutState.record_failure. rewrite Hr. cbn [lr_first_failure_at_ms].
  rewrite (proj2 (Z.ltb_ge _ _)) by (unfold saturating_sub; lia). cbn -[Z.leb].
  rewrite Z.min_l by done. destruct (limit <=? count + 1); apply lookup_insert_eq.
Qed.

(** One behind the window opens the next, with no failure and no lock of the last. *)
Lemma record_failure_reopens key now window limit lockout records record :
  records !! key = Some record -> lr_first_failure_at_ms record + window < now ->
  (AuthLockoutState.record_failure key now window limit lockout records).1 !! key = window_record limit lockout [now].
Proof.
  intros Hr Hn. unfold AuthLockoutState.record_failure. rewrite Hr.
  change (default _ (Some record)) with record.
  rewrite (proj2 (Z.ltb_lt _ _)) by (unfold saturating_sub; lia). cbn -[Z.leb].
  change (Z.min (0 + 1) u32_max) with 1. change (Z.of_nat 1) with 1. destruct (limit <=? 1); apply lookup_insert_eq.
Qed.

Lemma record_failure_other key other now window limit lockout records :
  other <> key ->
  (AuthLockoutState.record_failure other now window limit lockout records).1 !! key = records !! key.
Proof.
  intros Hne. unfold AuthLockoutState.record_failure. by case_match; apply lookup_insert_ne.
Qed.

Lemma window_record_snoc limit lockout t0 times t :
  window_record limit lockout ((t0 :: times) ++ [t]) =
  Some (mkAuthLockoutRecord t0 (Z.of_nat (length (t0 :: times)) + 1)
    (if limit <=? Z.of_nat (length (t0 :: times)) + 1 then Some (saturating_add t lockout)
     else if limit <=? Z.of_nat (length (t0 :: times)) then Some (saturating_add (List.last times t0) lockout)
     else None)).
Proof.
  assert (Z.of_nat (length ((t0 :: times) ++ [t])) = Z.of_nat (length (t0 :: times)) + 1) as Hs
    by (rewrite length_app; cbn -[Z.of_nat]; lia).
  unfold window_record. rewrite <- app_comm_cons. cbn -[length Z.leb Z.of_nat List.last app].
  rewrite app_comm_cons, Hs, List.last_last. do 2 f_equal.
  destruct (Z.leb_spec limit (Z.of_nat (length (t0 :: times)) + 1)); [done|].
  by rewrite (proj2 (Z.leb_gt _ _)) by lia.
Qed.

(** The record of an account is that of its open window. *)
Lemma logins_record key window limit lockout events times :
  0 <= window -> Z.of_nat (length events) <= u32_max -> open_window key window events times ->
  logins window limit lockout events !! key = window_record limit lockout times.
Proof.
  intros Hw Hl Ho. revert Hl. unfold logins.
  induction Ho as [|events t Ho IH|events t0 times t Ho IH Ht|events t0 times t Ho IH Ht
                   |events times Ho IH|events times other t Ho IH Hne|events times other Ho IH Hne];
    rewrite ?length_app; cbn [length]; intros Hl; rewrite ?foldl_snoc; cbn [login];
    try (specialize (IH ltac:(lia))).
  - apply lookup_empty.
  - apply (record_failure_step _ _ _ _ _ _ t 0 None); [by rewrite IH|width_lia..].
  - pose proof (open_window_length _ _ _ _ Ho) as Hlen. rewrite window_record_snoc.
    eapply record_failure_step; [by rewrite IH|lia..].
  - by eapply record_failure_reopens.
  - apply lookup_delete_eq.
  - by rewrite record_failure_other.
  - rewrite <- IH. by apply lookup_delete_ne.
Qed.

(** ** Floating point numbers that are integers *)

Definition digits (n : Z) : Z := SpecFloat.Zdigits2 n.

Lemma digits_bounds p : 2 ^ (digits (Zpos p) - 1) <= Zpos p < 2 ^ digits (Zpos p) /\ 0 < digits (Zpos p).
Proof.
  cbn. induction p as [p IH|p IH|]; cbn -[Z.pow]; [| |lia];
    rewrite Pos2Z.inj_succ; unfold Z.succ; rewrite Z.add_simpl_r, Z.pow_add_r by lia;
    replace (2 ^ Zpos (SpecFloat.digits2_pos p)) with (2 * 2 ^ (Zpos (SpecFloat.digits2_pos p) - 1)) in *
      by (rewrite <- Z.pow_succ_r by lia; f_equal; lia); lia.
Qed.

Lemma digits_unique n d : 0 < n -> 2 ^ (d - 1) <= n < 2 ^ d -> digits n = d.
Proof.
  destruct n as [|p|]; [done| |done]. intros _ Hd. destruct (digits_bounds p) as [Hb Hpos].
  set (e := digits (Zpos p)) in *.
  assert (0 < d). { destruct (decide (0 < d)); [done|]. rewrite (Z.pow_neg_r 2 (d - 1)) in Hd by lia.
    destruct (decide (d = 0)) as [->|]; [cbn in Hd; lia|rewrite Z.pow_neg_r in Hd; lia]. }
  destruct (Z.lt_trichotomy e d) as [H1|[->|H1]]; [|done|].
  - pose proof (Z.pow_le_mono_r 2 e (d - 1) ltac:(lia) ltac:(lia)). lia.
  - pose proof (Z.pow_le_mono_r 2 d (e - 1) ltac:(lia) ltac:(lia)). lia.
Qed.

Lemma digits_range n : 0 < n -> 2 ^ (digits n - 1) <= n < 2 ^ digits n /\ 0 < digits n.
Proof. destruct n as [|p|]; [done| |done]. intros _. apply digits_bounds. Qed.

Lemma digits_scaled n k : 0 < n -> 0 <= k -> digits (n * 2 ^ k) = digits n + k.
Proof.
  intros Hn Hk. destruct (digits_range n Hn) as [Hb Hd]. apply digits_unique; [nia|].
  replace (digits n + k - 1) with (digits n - 1 + k) by lia. rewrite !Z.pow_add_r by lia. nia.
Qed.

Lemma digits_at_most n k : 0 < n < 2 ^ k -> digits n <= k.
Proof.
  intros [Hn Hk]. destruct (digits_range n Hn) as [Hb Hd]. destruct (decide (digits n <= k)); [done|].
  destruct (decide (0 <= k)); [|rewrite Z.pow_neg_r in Hk; lia].
  pose proof (Z.pow_le_mono_r 2 k (digits n - 1) ltac:(lia) ltac:(lia)). lia.
Qed.

(** The number [n] with its 53 digits. *)
Definition canonical (n : Z) : F64.t :=
  SpecFloat.S754_finite false (Z.to_pos (n * 2 ^ (53 - digits n))) (digits n - 53).

Lemma shift_out n p : 0 <= n ->
  SpecFloat.iter_pos SpecFloat.shr_1 p (SpecFloat.Build_shr_record (n * 2 ^ Zpos p) false false) =
    SpecFloat.Build_shr_record n false false.
Proof.
  revert n. induction p as [p IH|p IH|]; intros n Hn; cbn [SpecFloat.iter_pos].
  - assert (2 ^ Zpos p~1 = 2 ^ Zpos p * 2 ^ Zpos p * 2) as ->.
    { replace (Zpos p~1) with (Zpos p + Zpos p + 1) by lia. by rewrite !Z.pow_add_r by lia. }
    assert (forall m, 0 <= m -> SpecFloat.shr_1 (SpecFloat.Build_shr_record (m * 2) false false) =
      SpecFloat.Build_shr_record m false false) as Hs by (intros [|q|q] ?; [done|by rewrite Z.mul_comm|lia]).
    rewrite !Z.mul_assoc, Hs by nia. rewrite IH by nia. by apply IH.
  - assert (2 ^ Zpos p~0 = 2 ^ Zpos p * 2 ^ Zpos p) as -> by (rewrite <- Z.pow_add_r by lia; f_equal; lia).
    rewrite Z.mul_assoc, IH by nia. by apply IH.
  - rewrite Z.pow_1_r. destruct n; [done|by rewrite Z.mul_comm|lia].
Qed.

Lemma shr_exact n e k : 0 <= n -> 0 <= k ->
  SpecFloat.shr (SpecFloat.Build_shr_record (n * 2 ^ k) false false) e k =
    (SpecFloat.Build_shr_record n false false, e + k).
Proof.
  intros Hn Hk. destruct k as [|p|]; [|cbn [SpecFloat.shr]; by rewrite shift_out|lia].
  cbn. by rewrite Z.mul_1_r, Z.add_0_r.
Qed.

Lemma fexp_small d : 0 <= d -> SpecFloat.fexp 53 1024 d = d - 53.
Proof. intros. unfold SpecFloat.fexp, SpecFloat.emin. lia. Qed.

Lemma round_exact n k : 0 < n < 2 ^ 53 -> 53 - digits n <= k -> 0 <= k ->
  SpecFloat.binary_round_aux 53 1024 false (n * 2 ^ k) (- k) SpecFloat.loc_Exact = canonical n.
Proof.
  intros Hn Hk H0. destruct (digits_range n ltac:(lia)) as [_ Hd]. pose proof (digits_at_most n 53 Hn) as H53.
  unfold SpecFloat.binary_round_aux, SpecFloat.shr_fexp. fold (digits (n * 2 ^ k)).
  rewrite digits_scaled by lia. replace (digits n + k + - k) with (digits n) by lia.
  rewrite fexp_small by lia. cbn [SpecFloat.shr_record_of_loc].
  replace (n * 2 ^ k) with (n * 2 ^ (53 - digits n) * 2 ^ (digits n - 53 - - k))
    by (rewrite <- Z.mul_assoc, <- Z.pow_add_r by lia; do 2 f_equal; lia).
  assert (0 < n * 2 ^ (53 - digits n)) by (pose proof (Z.pow_pos_nonneg 2 (53 - digits n)); nia).
  rewrite shr_exact by lia. cbn [SpecFloat.shr_m SpecFloat.loc_of_shr_record SpecFloat.round_nearest_even].
  fold (digits (n * 2 ^ (53 - digits n))). rewrite digits_scaled by lia.
  replace (digits n + (53 - digits n) + (- k + (digits n - 53 - - k))) with (digits n) by lia.
  rewrite fexp_small by lia. replace (digits n - 53 - (- k + (digits n - 53 - - k))) with 0 by lia.
  replace (- k + (digits n - 53 - - k)) with (digits n - 53) by lia. cbn [SpecFloat.shr SpecFloat.shr_m].
  unfold canonical. destruct (n * 2 ^ (53 - digits n)) eqn:E; [lia| |lia].
  by rewrite (proj2 (Z.leb_le _ _)) by lia.
Qed.

Lemma shift_in q d : Zpos (Pos.iter xO q d) = Zpos q * 2 ^ Zpos d.
Proof.
  induction d as [|d IH] using Pos.peano_ind; [cbn [Pos.iter]; rewrite Z.pow_1_r; lia|].
  rewrite Pos.iter_succ, Pos2Z.inj_succ, Z.pow_succ_r by lia. lia.
Qed.

Lemma align_scaled m e e' : 0 < m -> e' <= e ->
  Zpos (SpecFloat.shl_align (Z.to_pos m) e e').1 = m * 2 ^ (e - e').
Proof.
  intros Hm He. unfold SpecFloat.shl_align. destruct (e' - e) as [|d|d] eqn:Ed; [|lia|].
  - cbn [fst]. replace (e - e') with 0 by lia. rewrite Z2Pos.id, Z.mul_1_r; lia.
  - cbn [fst]. replace (e - e') with (Zpos d) by lia.
    rewrite shift_in, Z2Pos.id by lia. done.
Qed.

Lemma normalize_exact n k : 0 <= n < 2 ^ 53 -> 0 <= k ->
  SpecFloat.binary_normalize 53 1024 (n * 2 ^ k) (- k) false =
    if n =? 0 then SpecFloat.S754_zero false else canonical n.
Proof.
  intros Hn Hk. destruct (Z.eqb_spec n 0) as [->|H0]; [done|].
  destruct (digits_range n ltac:(lia)) as [_ Hd]. pose proof (digits_at_most n 53 ltac:(lia)) as H53.
  assert (0 < n * 2 ^ k) as Hpos by (pose proof (Z.pow_pos_nonneg 2 k); nia).
  destruct (n * 2 ^ k) as [|p|p] eqn:Ep; [lia| |lia]. cbn [SpecFloat.binary_normalize]. unfold SpecFloat.binary_round.
  change (Zpos (SpecFloat.digits2_pos p)) with (digits (Zpos p)). rewrite <- Ep, digits_scaled by lia.
  replace (digits n + k + - k) with (digits n) by lia. rewrite fexp_small by lia.
  destruct (decide (digits n - 53 < - k)) as [Hl|Hr].
  - pose proof (align_scaled (Zpos p) (- k) (digits n - 53) ltac:(lia) ltac:(lia)) as Ha.
    cbn [Z.to_pos] in Ha. unfold SpecFloat.shl_align in *.
    destruct (digits n - 53 - - k) as [|d|d] eqn:Ed; [lia|lia|]. cbn [fst] in Ha. rewrite Ha, <- Ep.
    rewrite <- Z.mul_assoc, <- Z.pow_add_r by lia. replace (k + (- k - (digits n - 53))) with (53 - digits n) by lia.
    replace (digits n - 53) with (- (53 - digits n)) by lia. apply round_exact; lia.
  - unfold SpecFloat.shl_align. assert (match digits n - 53 - - k with Zneg d => (Pos.iter xO p d, digits n - 53) | _ => (p, - k) end = (p, - k)) as ->
      by (destruct (digits n - 53 - - k) eqn:?; [done|done|lia]).
    rewrite <- Ep. apply round_exact; lia.
Qed.

Lemma of_int_canonical n : 0 <= n < 2 ^ 53 ->
  F64.of_int n = if n =? 0 then SpecFloat.S754_zero false else canonical n.
Proof. intros Hn. unfold F64.of_int. rewrite <- (Z.mul_1_r n) at 1. by apply (normalize_exact n 0). Qed.

(** Aligned, both mantissas are the numbers times the same power of two. *)
Lemma aligned a e : 0 < a < 2 ^ 53 -> e <= digits a - 53 ->
  Zpos (SpecFloat.shl_align (Z.to_pos (a * 2 ^ (53 - digits a))) (digits a - 53) e).1 = a * 2 ^ (- e).
Proof.
  intros Ha He. pose proof (digits_at_most a 53 Ha). pose proof (Z.pow_pos_nonneg 2 (53 - digits a)).
  rewrite align_scaled by (nia || lia). rewrite <- Z.mul_assoc, <- Z.pow_add_r by lia. do 2 f_equal. lia.
Qed.

Lemma add_exact a b : 0 <= a -> 0 <= b -> a + b < 2 ^ 53 -> F64.add (F64.of_int a) (F64.of_int b) = F64.of_int (a + b).
Proof.
  intros Ha Hb Hs. rewrite !of_int_canonical by lia.
  destruct (Z.eqb_spec a 0) as [->|H1]; [rewrite Z.add_0_l; by destruct (b =? 0)|].
  destruct (Z.eqb_spec b 0) as [->|H2]; [by rewrite Z.add_0_r, (proj2 (Z.eqb_neq _ _) H1)|].
  pose proof (digits_at_most a 53 ltac:(lia)). pose proof (digits_at_most b 53 ltac:(lia)).
  unfold F64.add, canonical, SpecFloat.SFadd, SpecFloat.cond_Zopp.
  set (e := Z.min _ _). rewrite !aligned by lia. rewrite <- Z.mul_add_distr_r.
  replace e with (- - e) at 2 by lia. rewrite normalize_exact by lia. done.
Qed.

Lemma sub_exact a b : 0 <= b <= a -> a < 2 ^ 53 -> F64.sub (F64.of_int a) (F64.of_int b) = F64.of_int (a - b).
Proof.
  intros Hb Ha. rewrite !of_int_canonical by lia.
  destruct (Z.eqb_spec b 0) as [->|H2]; [rewrite Z.sub_0_r; by destruct (a =? 0)|].
  rewrite (proj2 (Z.eqb_neq a 0)) by lia.
  pose proof (digits_at_most a 53 ltac:(lia)). pose proof (digits_at_most b 53 ltac:(lia)).
  unfold F64.sub, canonical, SpecFloat.SFsub, SpecFloat.cond_Zopp.
  set (e := Z.min _ _). rewrite !aligned by lia. rewrite <- Z.mul_sub_distr_r.
  replace e with (- - e) at 2 by lia. rewrite normalize_exact by lia. done.
Qed.

Lemma mul_exact a b : 0 <= a -> 0 <= b -> a * b < 2 ^ 53 -> a < 2 ^ 53 -> b < 2 ^ 53 ->
  F64.mul (F64.of_int a) (F64.of_int b) = F64.of_int (a * b).
Proof.
  intros Ha Hb Hp Ha' Hb'. rewrite !of_int_canonical by nia.
  destruct (Z.eqb_spec a 0) as [->|H1]; [by destruct (b =? 0)|].
  destruct (Z.eqb_spec b 0) as [->|H2]; [by rewrite Z.mul_0_r|].
  rewrite (proj2 (Z.eqb_neq (a * b) 0)) by nia.
  destruct (digits_range a ltac:(lia)) as [Ra Da]. destruct (digits_range b ltac:(lia)) as [Rb Db].
  pose proof (digits_at_most a 53 ltac:(lia)). pose proof (digits_at_most b 53 ltac:(lia)).
  unfold F64.mul, canonical at 1 2, SpecFloat.SFmul. cbn [xorb].
  rewrite Pos2Z.inj_mul, !Z2Pos.id by (apply Z.mul_pos_pos; [lia|apply Z.pow_pos_nonneg; lia]).
  replace (a * 2 ^ (53 - digits a) * (b * 2 ^ (53 - digits b)))
    with (a * b * 2 ^ (53 - digits a + (53 - digits b))) by (rewrite Z.pow_add_r by lia; lia).
  replace (digits a - 53 + (digits b - 53)) with (- (53 - digits a + (53 - digits b))) by lia.
  apply round_exact; [nia| |lia].
  enough (digits a + digits b - 1 <= digits (a * b)) by lia.
  destruct (digits_range (a * b) ltac:(nia)) as [Rp Dp].
  enough (2 ^ (digits a + digits b - 2) < 2 ^ digits (a * b)) as Hlt by (apply Z.pow_lt_mono_r_iff in Hlt; lia).
  eapply Z.le_lt_trans; [|apply Rp]. replace (digits a + digits b - 2) with (digits a - 1 + (digits b - 1)) by lia.
  rewrite Z.pow_add_r by lia. nia.
Qed.

Lemma ltb_exact a b : 0 <= a < 2 ^ 53 -> 0 <= b < 2 ^ 53 -> F64.ltb (F64.of_int a) (F64.of_int b) = (a <? b).
Proof.
  intros Ha Hb. rewrite !of_int_canonical by lia. unfold F64.ltb, SpecFloat.SFltb.
  destruct (Z.eqb_spec a 0) as [->|H1], (Z.eqb_spec b 0) as [->|H2]; cbn -[Z.ltb Z.compare]; [done|lia|lia|].
  destruct (digits_range a ltac:(lia)) as [Ra Da]. destruct (digits_range b ltac:(lia)) as [Rb Db].
  pose proof (digits_at_most a 53 ltac:(lia)). pose proof (digits_at_most b 53 ltac:(lia)).
  destruct (Z.compare_spec (digits a - 53) (digits b - 53)) as [Hd|Hd|Hd].
  - assert (digits a = digits b) as Hd' by lia. rewrite Hd'. set (k := 2 ^ (53 - digits b)).
    assert (0 < k) by (apply Z.pow_pos_nonneg; lia).
    change (Pos.compare_cont Eq ?x ?y) with (Z.compare (Zpos x) (Zpos y)). rewrite !Z2Pos.id by nia. destruct (Z.compare_spec (a * k) (b * k)); nia.
  - pose proof (Z.pow_le_mono_r 2 (digits a) (digits b - 1) ltac:(lia) ltac:(lia)). lia.
  - pose proof (Z.pow_le_mono_r 2 (digits b) (digits a - 1) ltac:(lia) ltac:(lia)). lia.
Qed.

Lemma min_exact a b : 0 <= a < 2 ^ 53 -> 0 <= b < 2 ^ 53 ->
  F64.min (F64.of_int a) (F64.of_int b) = F64.of_int (Z.min a b).
Proof.
  intros Ha Hb. assert (F64.min (F64.of_int a) (F64.of_int b) =
    if F64.ltb (F64.of_int b) (F64.of_int a) then F64.of_int b else F64.of_int a) as ->.
  { rewrite !of_int_canonical by lia. by destruct (a =? 0), (b =? 0). }
  rewrite ltb_exact by lia. destruct (Z.ltb_spec b a); f_equal; lia.
Qed.

Lemma as_secs_whole s : 0 <= s < 2 ^ 53 -> F64.as_secs (s * 1000000000) = F64.of_int s.
Proof.
  intros Hs. unfold F64.as_secs. rewrite Z.div_mul, Z.mod_mul by lia.
  change (F64.div (F64.of_int 0) (F64.of_int 1000000000)) with (F64.of_int 0).
  rewrite add_exact by lia. f_equal. lia.
Qed.

(** A limiter whose numbers are integers. *)
Definition whole_limiter (capacity tokens rate last : Z) : RateLimiter :=
  mkRateLimiter (F64.of_int capacity) (F64.of_int tokens) (F64.of_int rate) last.

Lemma allow_whole capacity tokens rate last s :
  0 <= tokens <= capacity -> 0 <= rate < 2 ^ 53 -> 0 <= s < 2 ^ 53 -> capacity + s * rate < 2 ^ 53 ->
  let tokens' := Z.min (tokens + s * rate) capacity in
  RateLimiter.allow (last + s * 1000000000) (whole_limiter capacity tokens rate last) =
    if tokens' <? 1 then (whole_limiter capacity tokens' rate (last + s * 1000000000), false)
    else (whole_limiter capacity (tokens' - 1) rate (last + s * 1000000000), true).
Proof.
  intros Ht Hr Hs Hc tokens'. unfold RateLimiter.allow, whole_limiter. cbn [rl_last rl_tokens rl_capacity rl_refill_per_second].
  replace (Z.max (last + s * 1000000000 - last) 0) with (s * 1000000000) by lia.
  rewrite as_secs_whole, mul_exact, add_exact, min_exact, ltb_exact by nia. fold tokens'.
  destruct (Z.ltb_spec tokens' 1); [done|]. rewrite sub_exact by lia. done.
Qed.
