(* ===== verification/Transaction.v ===== *)
(** * Transaction: MULTI/EXEC and batched commands (crates/engine/src/engine/core.rs)

    [evaluate_transaction_command] runs one data command on a working state and
    collects the WAL operations that reproduce it; [execute_transaction] commits
    a queue of commands as one WAL entry, [execute_command_batch] gives each
    command an entry of its own and flushes them together. *)

From S2P Require Import Prelude Text Command EngineError Store State Wildcard Engine.

(** The working state and the operations pushed so far. *)
Definition TxState : Type := EngineState * list WalOperation.

Notation tx A := (fallible TxState EngineError A).

(** ** The arms of [evaluate_transaction_command] *)

Definition eval_get_del (key : string) : tx TransactionResult :=
  fun '(st, operations) =>
    let '(st', entry) := EngineState.remove_raw st key in
    match entry with
    | Some entry => ((st', operations ++ [WalDelete key]), Ok (TrValue (sv_value entry)))
    | None => ((st', operations), Ok TrNotFound)
    end.

(** A new deadline: in the past it deletes the key at once. *)
Definition eval_deadline (now_ms : Z) (key : string) (expires_at_ms : Z) : tx unit :=
  fun '(st, operations) =>
    if expires_at_ms <=? now_ms then
      (((EngineState.remove_raw st key).1, operations ++ [WalDelete key]), Ok tt)
    else
      (((EngineState.set_expiration_if_present st key expires_at_ms).1,
        operations ++ [WalExpire key expires_at_ms]), Ok tt).

Definition eval_get_ex (now_ms : Z) (key : string) (expiration : option Expiration)
    (persist : bool) : tx TransactionResult :=
  fun '(st, operations) =>
    match EngineState.raw_entry st key with
    | None => ((st, operations), Ok TrNotFound)
    | Some entry =>
        match map_command_expiration expiration with
        | Some expiration =>
            let expires_at_ms := resolve_expiration now_ms expiration in
            ((eval_deadline now_ms key expires_at_ms (st, operations)).1,
             Ok (TrValue (sv_value entry)))
        | None =>
            if persist then
              let '(st', cleared) := EngineState.clear_expiration st key in
              ((st', if cleared then operations ++ [WalPersist key] else operations),
               Ok (TrValue (sv_value entry)))
            else ((st, operations), Ok (TrValue (sv_value entry)))
        end
    end.

(** What SET replies: the previous value under GET, a boolean under a guard. *)
Definition set_reply (options : SetOptions) (previous : option (list byte)) (applied : bool)
    : TransactionResult :=
  if so_return_previous options then
    match previous with Some value => TrValue value | None => TrNotFound end
  else if is_some (so_condition options) || is_some (so_if_version options) then TrBoolean applied
  else TrOk.

Definition eval_set (now_ms : Z) (key : string) (value : list byte) (options : SetOptions)
    : tx TransactionResult :=
  fun '(st, operations) =>
    let previous_entry := EngineState.raw_entry st key in
    let previous := sv_value <$> previous_entry in
    let previous_expiration := previous_entry ≫= sv_expires_at_ms in
    let mapped := map_command_set_options options in
    if negb (set_allowed (eso_condition mapped) (eso_if_version mapped) previous_entry) then
      ((st, operations), Ok (set_reply options previous false))
    else
      let version := next_value_version previous_entry in
      let st := EngineState.set_raw_value_with_version st key value version in
      let operations := operations ++ [WalSet key value version] in
      let '(tx', _) :=
        match eso_expiration mapped with
        | Some expiration =>
            eval_deadline now_ms key (resolve_expiration now_ms expiration) (st, operations)
        | None =>
            if eso_keep_ttl mapped then
              match previous_expiration with
              | Some expires_at_ms =>
                  (((EngineState.set_expiration_if_present st key expires_at_ms).1,
                    operations ++ [WalExpire key expires_at_ms]), Ok tt)
              | None => ((st, operations), Ok tt)
              end
            else ((st, operations), Ok tt)
        end in
      (tx', Ok (set_reply options previous true)).

Definition eval_set_nx (key : string) (value : list byte) : tx TransactionResult :=
  fun '(st, operations) =>
    if EngineState.raw_contains_key st key then ((st, operations), Ok (TrBoolean false))
    else
      let version := next_value_version None in
      ((EngineState.set_raw_value_with_version st key value version,
        operations ++ [WalSet key value version]), Ok (TrBoolean true)).

Fixpoint eval_mset (entries : list (string * list byte)) (t : TxState) : TxState :=
  match entries with
  | [] => t
  | (key, value) :: entries =>
      let '(st, operations) := t in
      let version := next_value_version (EngineState.raw_entry st key) in
      eval_mset entries
        (EngineState.set_raw_value_with_version st key value version,
         operations ++ [WalSet key value version])
  end.

Fixpoint eval_delete (keys : list string) (removed : Z) (t : TxState) : TxState * Z :=
  match keys with
  | [] => (t, removed)
  | key :: keys =>
      let '(st, operations) := t in
      let '(st', entry) := EngineState.remove_raw st key in
      if is_some entry
      then eval_delete keys (removed + 1) (st', operations ++ [WalDelete key])
      else eval_delete keys removed (st', operations)
  end.

(** [Incr] and [Decr]: the arms are the same with [delta] 1 and -1. *)
Definition eval_incr_by (delta : Z) (key : string) : tx TransactionResult :=
  fun '(st, operations) =>
    let current := default ascii_zero (EngineState.raw_value st key) in
    match
      parsed ← parse_integer_value key current;
      ok_or (checked_i64 (parsed + delta)) (NumericOverflow key)
    with
    | Err e => ((st, operations), Err e)
    | Ok next =>
        let version := next_value_version (EngineState.raw_entry st key) in
        ((EngineState.set_raw_value_with_version st key (as_bytes (int_to_string next)) version,
          operations ++ [WalCheckInteger key delta]), Ok (TrInteger next))
    end.

Definition eval_expire (now_ms : Z) (key : string) (seconds : Z) : tx TransactionResult :=
  fun '(st, operations) =>
    if negb (EngineState.raw_contains_key st key) then ((st, operations), Ok (TrBoolean false))
    else if seconds =? 0 then
      (((EngineState.remove_raw st key).1, operations ++ [WalDelete key]), Ok (TrBoolean true))
    else
      let expires_at_ms := saturating_add now_ms (saturating_mul seconds 1000) in
      (((EngineState.set_expiration_if_present st key expires_at_ms).1,
        operations ++ [WalExpire key expires_at_ms]), Ok (TrBoolean true)).

Definition eval_persist (key : string) : tx TransactionResult :=
  fun '(st, operations) =>
    if EngineState.raw_contains_key st key then
      let '(st', removed) := EngineState.clear_expiration st key in
      ((st', if removed then operations ++ [WalPersist key] else operations),
       Ok (TrBoolean removed))
    else ((st, operations), Ok (TrBoolean false)).

Definition eval_rename (source destination : string) : tx TransactionResult :=
  fun '(st, operations) =>
    let '(st, removed) := EngineState.remove_raw st source in
    match removed with
    | None => ((st, operations), Ok (TrBoolean false))
    | Some entry =>
        let version := next_value_version (EngineState.raw_entry st destination) in
        let st := EngineState.set_raw_value_with_version st destination (sv_value entry) version in
        let operations :=
          operations ++ [WalDelete source; WalSet destination (sv_value entry) version] in
        match sv_expires_at_ms entry with
        | Some expires_at_ms =>
            (((EngineState.set_expiration_if_present st destination expires_at_ms).1,
              operations ++ [WalExpire destination expires_at_ms]), Ok (TrBoolean true))
        | None => ((st, operations), Ok (TrBoolean true))
        end
    end.

Definition eval_scan (now_ms cursor : Z) (pattern : option string) (count : option Z)
    : tx TransactionResult :=
  fun '(st, operations) =>
    let '(st', keys) := EngineState.live_keys st now_ms in
    ((st', operations), Ok (TrScan (scan_page keys cursor pattern count))).

Definition eval_clear : tx TransactionResult :=
  fun '(st, operations) =>
    if EngineState.is_empty st then ((st, operations), Ok TrOk)
    else ((EngineState.clear_all st, operations ++ [WalClear]), Ok TrOk).

Definition eval_purge (now_ms : Z) (t : TxState) : TxState :=
  ((EngineState.purge_expired t.1 now_ms).1, t.2).

Definition unsupported_in_transaction {A} : result EngineError A :=
  Err (UnsupportedCommand "command is not supported inside transactions").

Definition evaluate_transaction_command (now_ms : Z) (command : Command)
    : tx TransactionResult :=
  fun t =>
  let t := eval_purge now_ms t in
  let st := t.1 in
  match command with
  | CmdPing message => (t, Ok (TrValue (as_bytes (default "PONG"%string message))))
  | CmdGet key =>
      (t, Ok (match EngineState.raw_value st key with
              | Some value => TrValue value
              | None => TrNotFound
              end))
  | CmdGetDel key => eval_get_del key t
  | CmdGetEx key expiration persist => eval_get_ex now_ms key expiration persist t
  | CmdSet key value options => eval_set now_ms key value options t
  | CmdSetNx key value => eval_set_nx key value t
  | CmdMGet keys => (t, Ok (TrStrings (EngineState.raw_value st <$> keys)))
  | CmdMSet entries => (eval_mset entries t, Ok TrOk)
  | CmdDelete keys => let '(t', removed) := eval_delete keys 0 t in (t', Ok (TrCount removed))
  | CmdExists key => (t, Ok (TrBoolean (EngineState.raw_contains_key st key)))
  | CmdIncr key => eval_incr_by 1 key t
  | CmdDecr key => eval_incr_by (-1) key t
  | CmdExpire key seconds => eval_expire now_ms key seconds t
  | CmdTtl key =>
      let '(st', remaining) := EngineState.ttl_for st key now_ms in
      ((st', t.2), Ok (TrInteger remaining))
  | CmdPersist key => eval_persist key t
  | CmdRename source destination => eval_rename source destination t
  | CmdRenameNx source destination =>
      if EngineState.raw_contains_key st destination then (t, Ok (TrBoolean false))
      else eval_rename source destination (eval_purge now_ms t)
  | CmdScan cursor pattern count => eval_scan now_ms cursor pattern count t
  | CmdDbSize | CmdCount => (t, Ok (TrCount (EngineState.key_count st)))
  | CmdList =>
      let '(st', entries) := EngineState.live_entries st now_ms in
      ((st', t.2), Ok (TrEntries entries))
  | CmdClear => eval_clear t
  | CmdInfo | CmdMetrics | CmdMetricsProm | CmdSave | CmdSnapshot | CmdBackup | CmdBackupTo _
  | CmdBackupVerify _ | CmdBackupVerifyFrom _ | CmdRestore _ | CmdRestoreFrom _
  | CmdRestoreCheck _ | CmdRestoreCheckFrom _ | CmdAlterUserPassword _ _ | CmdCreateUser _ _
  | CmdDropUser _ | CmdCreateRole _ | CmdDropRole _ | CmdGrantRole _ _ | CmdRevokeRole _ _
  | CmdGrantPermission _ _ _ | CmdRevokePermission _ _ _ | CmdShowUsers | CmdShowRoles
  | CmdShowGrants | CmdShowGrantsForUser _ | CmdShowGrantsForRole _ | CmdWhoAmI
  | CmdMaintenanceOn | CmdMaintenanceOff | CmdMaintenanceStatus | CmdHealth | CmdShowCluster
  | CmdClusterJoin _ _ | CmdClusterRemove _ | CmdShowReplication | CmdPromoteFollower
  | CmdPauseReplication | CmdResumeReplication | CmdMulti | CmdExec | CmdDiscard | CmdAuth _ _
  | CmdHelp | CmdExit => (t, unsupported_in_transaction)
  end.

(** The loop of [execute_transaction] over its queue. *)
Fixpoint evaluate_commands (now_ms : Z) (commands : list Command) (results : list TransactionResult)
    : tx (list TransactionResult) :=
  match commands with
  | [] => mret results
  | command :: commands =>
      result ← evaluate_transaction_command now_ms command;
      evaluate_commands now_ms commands (results ++ [result])
  end.

(** ** Rollback of a batch *)

Record BatchRollback := mkBatchRollback {
  br_metadata : option EngineMetadata;
  br_keys : gmap string (option StoredValue);
  br_clear_snapshot : option EngineStore;
}.

Module BatchRollback.

Definition new (st : EngineState) : BatchRollback := mkBatchRollback (Some (es_metadata st)) ∅ None.

Definition remember_key (rb : BatchRollback) (st : EngineState) (key : string) : BatchRollback :=
  if is_some (br_clear_snapshot rb) || is_some (br_keys rb !! key) then rb
  else mkBatchRollback (br_metadata rb) (<[key := EngineState.raw_entry st key]> (br_keys rb))
         (br_clear_snapshot rb).

Definition remember_keys (rb : BatchRollback) (st : EngineState) (keys : list string)
    : BatchRollback := foldl (fun rb key => remember_key rb st key) rb keys.

Definition remember_clear (rb : BatchRollback) (st : EngineState) : BatchRollback :=
  if is_some (br_clear_snapshot rb) then rb
  else mkBatchRollback (br_metadata rb) ∅ (Some (es_store st)).

Definition remember_command (rb : BatchRollback) (st : EngineState) (command : Command)
    : BatchRollback :=
  match command with
  | CmdSet key _ _ | CmdSetNx key _ | CmdGetDel key | CmdGetEx key _ _ | CmdExpire key _
  | CmdPersist key | CmdIncr key | CmdDecr key => remember_key rb st key
  | CmdMSet entries => remember_keys rb st entries.*1
  | CmdDelete keys | CmdMGet keys => remember_keys rb st keys
  | CmdRename source destination | CmdRenameNx source destination =>
      remember_key (remember_key rb st source) st destination
  | CmdClear => remember_clear rb st
  | _ => rb
  end.

Definition rollback (rb : BatchRollback) (st : EngineState) : EngineState :=
  mkEngineState
    (match br_clear_snapshot rb with
     | Some store => store
     | None => EntryRollback.restore_keys (br_keys rb) (es_store st)
     end)
    (default (es_metadata st) (br_metadata rb)).

End BatchRollback.

(** ** Committing *)

Record CommandBatchResult := mkCommandBatchResult {
  cb_result : TransactionResult;
  cb_last_applied_sequence : Z;
}.

(** The locals of [execute_command_batch]. *)
Record BatchState := mkBatchState {
  bs_state : EngineState;
  bs_rollback : BatchRollback;
  bs_entries : list WalEntry;
  bs_results : list CommandBatchResult;
  bs_next_sequence : Z;
  bs_visible_sequence : Z;
}.

Module Transaction.
Section transaction.
Context {W : Type} `{WalWriter W} `{EntryChecksum}.

Notation M := (fallible (Engine W) EngineError).

Definition execute_transaction (now_ms entry_ms : Z) (commands : list Command)
    : M (list TransactionResult) :=
  _ ← Engine.purge now_ms;
  eng ← Prelude.mget;
  let '((working, operations), r) := evaluate_commands now_ms commands [] (en_state eng, []) in
  results ← mpure r;
  match operations with
  | [] => _ ← Engine.modify_state (fun _ => working); mret results
  | _ =>
      _ ← Engine.commit_entry (Engine.next_entry eng entry_ms operations);
      mret results
  end.

(** One iteration of the loop of [execute_command_batch]; an error carries the
    rolled back state. *)
Definition batch_step (term now_ms : Z) (b : BatchState) (command : Command)
    : result (EngineState * EngineError) BatchState :=
  let rollback := BatchRollback.remember_command (bs_rollback b) (bs_state b) command in
  match evaluate_transaction_command now_ms command (bs_state b, []) with
  | ((st, _), Err err) => Err (BatchRollback.rollback rollback st, err)
  | ((st, []), Ok result) =>
      Ok (mkBatchState st rollback (bs_entries b)
            (bs_results b ++ [mkCommandBatchResult result (bs_visible_sequence b)])
            (bs_next_sequence b) (bs_visible_sequence b))
  | ((st, operations), Ok result) =>
      let entry := mkWalEntry (bs_next_sequence b) term now_ms operations in
      let st := mkEngineState (es_store st)
                  (set_updated_at (set_last_applied (es_metadata st) (we_sequence entry))
                     (we_created_at_ms entry)) in
      Ok (mkBatchState st rollback (bs_entries b ++ [entry])
            (bs_results b ++ [mkCommandBatchResult result (bs_next_sequence b)])
            (saturating_add (bs_next_sequence b) 1) (bs_next_sequence b))
  end.

Definition batch_start (st : EngineState) : BatchState :=
  mkBatchState st (BatchRollback.new st) [] []
    (saturating_add (md_last_applied_sequence (es_metadata st)) 1)
    (md_last_applied_sequence (es_metadata st)).

(** The append of the batch, with the rollback of its error path. *)
Definition append_or_rollback (rb : BatchRollback) (entries : list WalEntry) : M unit :=
  fun eng =>
    match Engine.append_batch entries eng with
    | (eng', Err err) =>
        (Engine.with_state eng' (BatchRollback.rollback rb (en_state eng')), Err err)
    | (eng', Ok u) => (eng', Ok u)
    end.

Definition execute_command_batch (now_ms : Z) (commands : list Command)
    : M (list CommandBatchResult) :=
  _ ← Engine.purge now_ms;
  eng ← Prelude.mget;
  match foldM (batch_step (en_current_consensus_term eng) now_ms)
          (batch_start (en_state eng)) commands with
  | Err (st, err) => _ ← Engine.modify_state (fun _ => st); mfail err
  | Ok b =>
      _ ← Engine.modify_state (fun _ => bs_state b);
      match bs_entries b with
      | [] => mret (bs_results b)
      | entries =>
          identities ← mpure (build_wal_entry_identities entries);
          _ ← append_or_rollback (bs_rollback b) entries;
          _ ← mmodify (fun eng => Engine.record_entries eng entries identities);
          mret (bs_results b)
      end
  end.

End transaction.
End Transaction.
