(* ===== verification/TxFacts.v ===== *)
(** * TxFacts: what a transaction's log entry reproduces

    Evaluating a command on a purged state changes it exactly as replaying the
    operations it collected does; the theorems on [execute_transaction] and
    [execute_command_batch] follow from this. *)

From S2P Require Import Prelude Text Command EngineError Store State Wildcard Engine Transaction.

(** ** Purged keyspaces *)

Definition purged (now : Z) (s : EngineStore) : Prop :=
  forall k e, s !! k = Some e -> EngineStore.is_expired now e = false.

Lemma purged_live now s : purged now s <-> live now s = s.
Proof.
  split.
  - intros H. apply map_eq. intros k. rewrite lookup_live. destruct (s !! k) as [e|] eqn:E; [|done].
    cbn. by rewrite (H k e E).
  - intros H k e E. rewrite <- H, lookup_live in E. destruct (s !! k) as [e'|]; [|done]. cbn in E.
    destruct (EngineStore.is_expired now e') eqn:Ex; congruence.
Qed.

Lemma live_is_purged now s : purged now (live now s).
Proof. apply purged_live, live_idemp. Qed.

Lemma purged_insert now s k e :
  EngineStore.is_expired now e = false -> purged now s -> purged now (<[k := e]> s).
Proof. intros He Hs j e'. rewrite lookup_insert_Some. naive_solver. Qed.

Lemma purged_delete now s k : purged now s -> purged now (delete k s).
Proof. intros Hs j e'. rewrite lookup_delete_Some. naive_solver. Qed.

Lemma purged_empty now : purged now ∅.
Proof. intros k e. by rewrite lookup_empty. Qed.

#[export] Hint Resolve purged_insert purged_delete purged_empty live_is_purged : vaylix.

Lemma purge_state_purged now st :
  purged now (es_store st) -> EngineState.purge_expired st now = (st, 0).
Proof.
  intros H%purged_live. unfold EngineState.purge_expired. rewrite live_purged by done.
  by destruct st.
Qed.

(** The state after a purge: the live entries, stamped when any was dropped. *)
Definition purge_state (now : Z) (st : EngineState) : EngineState :=
  (EngineState.purge_expired st now).1.

Lemma purge_state_store now st : es_store (purge_state now st) = live now (es_store st).
Proof.
  unfold purge_state, EngineState.purge_expired. rewrite <- purge_expired_live.
  by destruct (EngineStore.purge_expired _ _).
Qed.

Lemma purge_state_sequence now st :
  md_last_applied_sequence (es_metadata (purge_state now st)) =
    md_last_applied_sequence (es_metadata st).
Proof.
  unfold purge_state, EngineState.purge_expired. destruct (EngineStore.purge_expired _ _). cbn.
  by case_match.
Qed.

Lemma purge_state_purges now st : purged now (es_store (purge_state now st)).
Proof. rewrite purge_state_store. auto with vaylix. Qed.
#[export] Hint Resolve purge_state_purges : vaylix.

Lemma eval_purge_purged now t : purged now (es_store t.1) -> eval_purge now t = t.
Proof. intros H. unfold eval_purge. rewrite purge_state_purged by done. by destruct t. Qed.

(** ** Replaying *)

(** A deadline is only set on, or taken from, a key that is there. *)
Definition op_grounded (s : EngineStore) (op : WalOperation) : Prop :=
  match op with
  | WalExpire key _ | WalPersist key => is_Some (s !! key)
  | _ => True
  end.

Fixpoint grounded (s : EngineStore) (ops : list WalOperation) : Prop :=
  match ops with
  | [] => True
  | op :: ops => op_grounded s op /\ forall s', op_step s op = Ok s' -> grounded s' ops
  end.

Lemma grounded_app s s' ops1 ops2 :
  grounded s ops1 -> ops_run s ops1 = Ok s' -> grounded s' ops2 -> grounded s (ops1 ++ ops2).
Proof.
  revert s. induction ops1 as [|op ops1 IH]; intros s; cbn; [by intros _ [= ->]|].
  intros [Hg H1] (s1 & Hs & Hr)%result_bind_ok H2. split; [done|].
  intros s2 Hs2. rewrite Hs in Hs2. injection Hs2 as <-. by apply IH; [apply H1| |].
Qed.

(** From [t] to [t']: the operations pushed in between replay the change, the
    metadata stays, and nothing expired at [now] is left behind. *)
Definition replays (now : Z) (t t' : TxState) : Prop :=
  exists new, t'.2 = t.2 ++ new /\
    ops_run (es_store t.1) new = Ok (es_store t'.1) /\ grounded (es_store t.1) new /\
    es_metadata t'.1 = es_metadata t.1 /\ purged now (es_store t'.1).

Lemma replays_refl now t : purged now (es_store t.1) -> replays now t t.
Proof. intros H. exists []. rewrite app_nil_r. done. Qed.

Lemma replays_trans now t1 t2 t3 : replays now t1 t2 -> replays now t2 t3 -> replays now t1 t3.
Proof.
  intros (n1 & H1 & R1 & G1 & M1 & P1) (n2 & H2 & R2 & G2 & M2 & P2). exists (n1 ++ n2).
  split_and!; [by rewrite H2, H1, app_assoc| |by eapply grounded_app|congruence|done].
  unfold ops_run in *. by rewrite foldM_app, R1.
Qed.

Lemma replays_one now st ops s' op :
  op_step (es_store st) op = Ok s' -> op_grounded (es_store st) op -> purged now s' ->
  replays now (st, ops) (with_store st s', ops ++ [op]).
Proof. intros Hs Hg Hp. exists [op]. cbn. by rewrite Hs. Qed.

Lemma set_step st k v ver :
  op_step (es_store st) (WalSet k v ver) =
    Ok (es_store (EngineState.set_raw_value_with_version st k v ver)).
Proof. done. Qed.

Lemma expire_alter (s : EngineStore) k t :
  (EngineStore.set_expiration_if_present s k t).1 =
    alter (fun e => mkStoredValue (sv_value e) (Some t) (sv_version e)) k s.
Proof.
  unfold EngineStore.set_expiration_if_present. rewrite alter_lookup_insert. by destruct (s !! k).
Qed.

Lemma persist_alter (s : EngineStore) k :
  (EngineStore.clear_expiration s k).1 =
    alter (fun e => mkStoredValue (sv_value e) None (sv_version e)) k s.
Proof. unfold EngineStore.clear_expiration. rewrite alter_lookup_insert. by destruct (s !! k). Qed.

Lemma purged_alter now (s : EngineStore) k f :
  (forall e, EngineStore.is_expired now (f e) = false) -> purged now s -> purged now (alter f k s).
Proof.
  intros Hf Hs. rewrite alter_lookup_insert. destruct (s !! k); auto with vaylix.
Qed.

Lemma set_expiration_state st k t :
  (EngineState.set_expiration_if_present st k t).1 =
    with_store st (EngineStore.set_expiration_if_present (es_store st) k t).1.
Proof.
  unfold EngineState.set_expiration_if_present.
  by destruct (EngineStore.set_expiration_if_present _ _ _).
Qed.

Lemma lookup_set_raw st k v ver :
  is_Some (es_store (EngineState.set_raw_value_with_version st k v ver) !! k).
Proof. cbn. by rewrite lookup_insert_eq. Qed.

Section arms.
Context (now : Z).

Lemma replays_set st ops k v ver :
  purged now (es_store st) ->
  replays now (st, ops) (EngineState.set_raw_value_with_version st k v ver, ops ++ [WalSet k v ver]).
Proof. intros H. apply replays_one; [done|done|by apply purged_insert]. Qed.

Lemma replays_delete st ops k :
  purged now (es_store st) ->
  replays now (st, ops) ((EngineState.remove_raw st k).1, ops ++ [WalDelete k]).
Proof. intros H. apply replays_one; [done|done|by apply purged_delete]. Qed.

Lemma replays_expire st ops k t :
  purged now (es_store st) -> is_Some (es_store st !! k) -> now < t ->
  replays now (st, ops)
    ((EngineState.set_expiration_if_present st k t).1, ops ++ [WalExpire k t]).
Proof.
  intros H Hk Ht. rewrite set_expiration_state, expire_alter. apply replays_one; [done|done|].
  apply purged_alter; [|done]. intros e. unfold EngineStore.is_expired. cbn. lia.
Qed.

Lemma replays_persist st ops k :
  purged now (es_store st) -> is_Some (es_store st !! k) ->
  replays now (st, ops) ((EngineState.clear_expiration st k).1, ops ++ [WalPersist k]).
Proof.
  intros H Hk. replace (EngineState.clear_expiration st k).1
    with (with_store st (EngineStore.clear_expiration (es_store st) k).1)
    by (unfold EngineState.clear_expiration; by destruct (EngineStore.clear_expiration _ _)).
  rewrite persist_alter. apply replays_one; [done|done|]. by apply purged_alter.
Qed.

Lemma replays_deadline st ops k t r t' :
  purged now (es_store st) -> is_Some (es_store st !! k) ->
  eval_deadline now k t (st, ops) = (t', r) -> replays now (st, ops) t'.
Proof.
  intros H Hk. unfold eval_deadline. destruct (Z.leb_spec t now); intros [= <- _].
  - by apply replays_delete.
  - by apply replays_expire.
Qed.

(** Every arm of the evaluator replays, given a typed command. *)

Lemma eval_get_del_replays k t t' r :
  purged now (es_store t.1) -> eval_get_del k t = (t', Ok r) -> replays now t t'.
Proof.
  destruct t as [st ops]. intros H. unfold eval_get_del, EngineState.remove_raw. cbn.
  destruct (es_store st !! k) eqn:E; intros [= <- _].
  - by apply (replays_delete st ops k).
  - rewrite delete_id by done. rewrite with_store_id. by apply replays_refl.
Qed.

Lemma eval_get_ex_replays k e p t t' r :
  purged now (es_store t.1) -> eval_get_ex now k e p t = (t', Ok r) -> replays now t t'.
Proof.
  destruct t as [st ops]. intros H. unfold eval_get_ex.
  destruct (EngineState.raw_entry st k) as [entry|] eqn:E; [|intros [= <- _]; by apply replays_refl].
  assert (is_Some (es_store st !! k)) as Hk by (by exists entry).
  destruct (map_command_expiration e) as [exp|].
  - destruct (eval_deadline _ _ _ _) as [t1 r1] eqn:Ed. intros [= <- _]. by eapply replays_deadline.
  - destruct p; [|intros [= <- _]; by apply replays_refl].
    pose proof (replays_persist st ops k H Hk) as Hp.
    unfold EngineState.clear_expiration, EngineStore.clear_expiration in *.
    unfold EngineState.raw_entry, EngineStore.get in E. rewrite E in *. cbn in *.
    destruct (sv_expires_at_ms entry) eqn:Ee; intros [= <- _]; cbn; [done|].
    rewrite insert_id, with_store_id by (rewrite E; f_equal; by destruct entry; cbn in *; subst).
    by apply replays_refl.
Qed.

Lemma eval_set_replays k v o t t' r :
  purged now (es_store t.1) -> eval_set now k v o t = (t', Ok r) -> replays now t t'.
Proof.
  destruct t as [st ops]. intros H. unfold eval_set.
  destruct (negb _); [intros [= <- _]; by apply replays_refl|].
  set (version := next_value_version _).
  set (st1 := EngineState.set_raw_value_with_version st k v version).
  set (ops1 := ops ++ [WalSet k v version]).
  assert (replays now (st, ops) (st1, ops1)) as H1 by (by apply replays_set).
  assert (purged now (es_store st1)) as Hp by (by apply purged_insert).
  assert (is_Some (es_store st1 !! k)) as Hk by apply lookup_set_raw.
  destruct (eso_expiration _) as [e|].
  { destruct (eval_deadline _ _ _ _) as [t1 r1] eqn:Ed. intros [= <- _].
    eapply replays_trans; [exact H1|]. by eapply replays_deadline. }
  destruct (eso_keep_ttl _); [|intros [= <- _]; done].
  destruct (EngineState.raw_entry st k ≫= sv_expires_at_ms) as [x|] eqn:Ex; intros [= <- _]; [|done].
  eapply replays_trans; [exact H1|]. apply replays_expire; [done|done|].
  apply bind_Some in Ex as (entry & He & Hx). specialize (H k entry He).
  unfold EngineStore.is_expired in H. rewrite Hx in H. lia.
Qed.

Lemma eval_set_nx_replays k v t t' r :
  purged now (es_store t.1) -> eval_set_nx k v t = (t', Ok r) -> replays now t t'.
Proof.
  destruct t as [st ops]. intros H. unfold eval_set_nx.
  destruct (EngineState.raw_contains_key _ _); intros [= <- _].
  - by apply replays_refl.
  - by apply replays_set.
Qed.

Lemma eval_mset_replays es t : purged now (es_store t.1) -> replays now t (eval_mset es t).
Proof.
  revert t. induction es as [|[k v] es IH]; intros [st ops] H; cbn [eval_mset].
  - by apply replays_refl.
  - eapply replays_trans; [by apply replays_set|]. apply IH. by apply purged_insert.
Qed.

Lemma eval_delete_replays ks n t t' m :
  purged now (es_store t.1) -> eval_delete ks n t = (t', m) -> replays now t t'.
Proof.
  revert n t. induction ks as [|k ks IH]; intros n [st ops] H; cbn.
  { intros [= <- _]. by apply replays_refl. }
  destruct (es_store st !! k) as [e|] eqn:E; cbn; intros Hd.
  - eapply replays_trans; [by apply (replays_delete st ops k)|].
    eapply IH; [|exact Hd]. by apply purged_delete.
  - rewrite delete_id, with_store_id in Hd by done. by eapply IH.
Qed.

Lemma eval_incr_by_replays d k t t' r :
  purged now (es_store t.1) -> eval_incr_by d k t = (t', Ok r) -> replays now t t'.
Proof.
  destruct t as [st ops]. intros H. unfold eval_incr_by.
  destruct (parsed ← _; _) as [next|] eqn:E; [|done]. intros [= <- _].
  apply replays_one; [|done|by apply purged_insert]. cbn.
  apply result_bind_ok in E as (parsed & Hp & Hn).
  unfold EngineState.raw_value, EngineStore.get_value in Hp.
  unfold parse_integer_value in Hp. unfold parse_stored_integer. rewrite Hp. cbn. by rewrite Hn.
Qed.

Lemma eval_expire_replays k secs t t' r :
  purged now (es_store t.1) -> 0 <= now < u64_max -> is_u64 secs ->
  eval_expire now k secs t = (t', Ok r) -> replays now t t'.
Proof.
  destruct t as [st ops]. intros H Hnow Hs. unfold eval_expire.
  unfold EngineState.raw_contains_key, EngineStore.contains_key.
  destruct (es_store st !! k) eqn:Ek; cbn [is_some negb]; [|intros [= <- _]; by apply replays_refl].
  destruct (Z.eqb_spec secs 0); intros [= <- _].
  - by apply replays_delete.
  - apply replays_expire; [done|by rewrite Ek|]. width_lia.
Qed.

Lemma eval_persist_replays k t t' r :
  purged now (es_store t.1) -> eval_persist k t = (t', Ok r) -> replays now t t'.
Proof.
  destruct t as [st ops]. intros H. unfold eval_persist.
  destruct (EngineState.raw_contains_key st k) eqn:E; [|intros [= <- _]; by apply replays_refl].
  pose proof (replays_persist st ops k H) as Hp.
  unfold EngineState.clear_expiration, EngineStore.clear_expiration in *.
  unfold EngineState.raw_contains_key, EngineStore.contains_key in E.
  destruct (es_store st !! k) as [entry|] eqn:Ek; [|done]. specialize (Hp ltac:(done)). cbn in *.
  destruct (sv_expires_at_ms entry) eqn:Ee; intros [= <- _]; cbn; [done|].
  rewrite insert_id, with_store_id by (rewrite Ek; f_equal; by destruct entry; cbn in *; subst).
  by apply replays_refl.
Qed.

Lemma eval_rename_replays s d t t' r :
  purged now (es_store t.1) -> eval_rename s d t = (t', Ok r) -> replays now t t'.
Proof.
  destruct t as [st ops]. intros H. unfold eval_rename. cbn.
  destruct (es_store st !! s) as [entry|] eqn:E.
  2:{ rewrite delete_id, with_store_id by done. intros [= <- _]. by apply replays_refl. }
  set (st1 := with_store st (delete s (es_store st))). set (ver := next_value_version _).
  assert (replays now (st, ops)
    (EngineState.set_raw_value_with_version st1 d (sv_value entry) ver,
     ops ++ [WalDelete s; WalSet d (sv_value entry) ver])) as H1.
  { replace (ops ++ [WalDelete s; WalSet d (sv_value entry) ver])
      with ((ops ++ [WalDelete s]) ++ [WalSet d (sv_value entry) ver]) by (by rewrite <- app_assoc).
    eapply replays_trans; [by apply (replays_delete st ops s)|].
    apply replays_set. by apply purged_delete. }
  specialize (H s entry E). unfold EngineStore.is_expired in H.
  destruct (sv_expires_at_ms entry) as [x|]; intros [= <- _]; [|done].
  eapply replays_trans; [exact H1|]. apply replays_expire; [|apply lookup_set_raw|lia].
  destruct H1 as (_ & _ & _ & _ & _ & H1). done.
Qed.

Lemma eval_clear_replays t t' r :
  purged now (es_store t.1) -> eval_clear t = (t', Ok r) -> replays now t t'.
Proof.
  destruct t as [st ops]. intros H. unfold eval_clear.
  destruct (EngineState.is_empty st); intros [= <- _]; [by apply replays_refl|].
  apply replays_one; [done|done|]. apply purged_empty.
Qed.

End arms.

(** TTL of an entry that is not expired. *)
Definition ttl_of (now : Z) (o : option StoredValue) : Z :=
  match o with
  | None => TTL_KEY_MISSING
  | Some e =>
      match sv_expires_at_ms e with
      | None => TTL_NO_EXPIRY
      | Some x => EngineState.remaining_seconds (saturating_sub x now)
      end
  end.

Lemma ttl_for_run now st k :
  EngineState.ttl_for st k now =
    (purge_state now st, ttl_of now (es_store (purge_state now st) !! k)).
Proof.
  pose proof (purge_state_purges now st k) as H. unfold EngineState.ttl_for, purge_state in *.
  destruct (EngineState.purge_expired st now) as [st' n]. cbn in H |- *.
  unfold EngineStore.contains_key, EngineStore.expiration.
  destruct (es_store st' !! k) as [e|] eqn:E; cbn; [|done]. specialize (H e eq_refl).
  unfold EngineStore.is_expired in H. destruct (sv_expires_at_ms e); [|done]. by rewrite H.
Qed.

Lemma purge_state_id now st : purged now (es_store st) -> purge_state now st = st.
Proof. intros H. unfold purge_state. by rewrite purge_state_purged. Qed.

Lemma ttl_for_value now st k :
  purged now (es_store st) -> EngineState.ttl_for st k now = (st, ttl_of now (es_store st !! k)).
Proof. intros H. by rewrite ttl_for_run, purge_state_id. Qed.

Lemma ttl_for_purged now st k :
  purged now (es_store st) -> (EngineState.ttl_for st k now).1 = st.
Proof. intros H. by rewrite ttl_for_value. Qed.

Lemma live_keys_purged now st :
  purged now (es_store st) ->
  EngineState.live_keys st now = (st, EngineStore.keys_sorted (es_store st)).
Proof.
  intros H%purged_live. unfold EngineState.live_keys, EngineStore.live_keys_sorted.
  rewrite live_purged by done. by rewrite with_store_id.
Qed.

Lemma live_entries_purged now st :
  purged now (es_store st) -> (EngineState.live_entries st now).1 = st.
Proof.
  intros H%purged_live. unfold EngineState.live_entries, EngineStore.live_entries_sorted.
  rewrite live_purged by done. by rewrite with_store_id.
Qed.

Lemma eval_purge_replayable now t : purged now (es_store (eval_purge now t).1).
Proof. apply purge_state_purges. Qed.

(** Evaluating a command changes the purged state as its operations do. *)
Lemma evaluate_replays now c t t' r :
  0 <= now < u64_max -> command_typed c ->
  evaluate_transaction_command now c t = (t', Ok r) -> replays now (eval_purge now t) t'.
Proof.
  intros Hnow Hc. unfold evaluate_transaction_command.
  pose proof (eval_purge_replayable now t) as Hp. revert Hp.
  generalize (eval_purge now t) as p. intros p Hp.
  assert (replays now p p) as Hrefl by (by apply replays_refl).
  destruct c; cbn [command_typed] in Hc; try discriminate; try (by intros [= <- _]).
  - by apply eval_set_replays.
  - by apply eval_set_nx_replays.
  - by apply eval_get_del_replays.
  - by apply eval_get_ex_replays.
  - intros [= <- _]. by apply eval_mset_replays.
  - destruct (eval_delete _ _ _) as [t1 n] eqn:E. intros [= <- _]. by eapply eval_delete_replays.
  - by apply eval_incr_by_replays.
  - by apply eval_incr_by_replays.
  - apply eval_expire_replays; naive_solver.
  - pose proof (ttl_for_purged now p.1 key Hp) as Ht.
    destruct (EngineState.ttl_for _ _ _) as [st' n]. intros [= <- _]. cbn in Ht. subst st'.
    by destruct p.
  - by apply eval_persist_replays.
  - by apply eval_rename_replays.
  - case_match; [by intros [= <- _]|]. rewrite eval_purge_purged by done. by apply eval_rename_replays.
  - unfold eval_scan. destruct p as [st ops]. rewrite live_keys_purged by done. by intros [= <- _].
  - pose proof (live_entries_purged now p.1 Hp) as Ht.
    destruct (EngineState.live_entries _ _) as [st' es]. intros [= <- _]. cbn in Ht. subst st'.
    by destruct p.
  - by apply eval_clear_replays.
Qed.

(** A command that fails leaves the purged state and the log untouched. *)
Lemma evaluate_error now c t t' e :
  evaluate_transaction_command now c t = (t', Err e) -> t' = eval_purge now t.
Proof.
  unfold evaluate_transaction_command. generalize (eval_purge now t) as p. intros [st ops].
  destruct c; cbn; try (by intros [= <- _]); try discriminate;
    unfold eval_set, eval_set_nx, eval_get_ex, eval_incr_by, eval_expire, eval_persist, eval_clear,
      eval_rename, eval_purge; cbn; repeat case_match; try discriminate; by intros [= <- _].
Qed.

(** ** Transactions *)

Lemma evaluate_commands_replays now cs results t t' rs :
  0 <= now < u64_max -> Forall command_typed cs -> purged now (es_store t.1) ->
  evaluate_commands now cs results t = (t', Ok rs) -> replays now t t'.
Proof.
  intros Hnow Hcs. revert results t. induction Hcs as [|c cs Hc _ IH]; intros results t Hp; cbn.
  { intros [= <- _]. by apply replays_refl. }
  intros (t1 & r & H1 & H2)%fallible_bind_ok.
  apply evaluate_replays in H1; [|done|done]. rewrite eval_purge_purged in H1 by done.
  eapply replays_trans; [exact H1|]. eapply IH; [|exact H2]. by destruct H1 as (_ & _ & _ & _ & _ & ?).
Qed.

Section transaction.
Context {W : Type} `{WalWriter W} `{EntryChecksum}.

Lemma purge_run now (eng : Engine W) :
  Engine.purge now eng =
    (Engine.with_state eng (purge_state now (en_state eng)),
     Ok (EngineState.purge_expired (en_state eng) now).2).
Proof.
  unfold Engine.purge, Engine.read_state, purge_state. by destruct (EngineState.purge_expired _ _).
Qed.

(** The log is untouched: same cached entries, same identities. *)
Definition same_log (eng eng' : Engine W) : Prop :=
  en_wal_entries eng' = en_wal_entries eng /\
  en_wal_entry_identities eng' = en_wal_entry_identities eng.

(** The writer took [entries] without an error. *)
Definition written (eng eng' : Engine W) (entries : list WalEntry) : Prop :=
  match entries with
  | [] => en_wal_writer eng' = en_wal_writer eng
  | _ => wal_append_batch (en_wal_writer eng) entries = (en_wal_writer eng', Ok tt)
  end.

(** The identities of [entries] were added to those the engine keeps. *)
Definition remembered (eng eng' : Engine W) (entries : list WalEntry) : Prop :=
  exists ids, build_wal_entry_identities entries = Ok ids /\
    en_wal_entry_identities eng' = ids ∪ en_wal_entry_identities eng.

Definition appended (eng eng' : Engine W) (entries : list WalEntry) : Prop :=
  written eng eng' entries /\ remembered eng eng' entries.

Lemma remembered_nothing (eng eng' : Engine W) :
  en_wal_entry_identities eng' = en_wal_entry_identities eng -> remembered eng eng' [].
Proof. intros He. exists ∅. by rewrite He, (left_id_L ∅ (∪)). Qed.

Lemma appended_nothing (eng eng' : Engine W) :
  same_log eng eng' -> en_wal_writer eng' = en_wal_writer eng -> appended eng eng' [].
Proof. intros [_ Hi] Hw. split; [done|by apply remembered_nothing]. Qed.

Lemma appended_durable (eng eng' : Engine W) entries :
  appended eng eng' entries -> wal_accepts (en_wal_writer eng) entries ->
  wal_durable (en_wal_writer eng') = wal_durable (en_wal_writer eng) ++ entries.
Proof.
  intros [Ha _]. destruct entries; cbn in *; intros Hacc;
    [by rewrite Ha, app_nil_r | by apply wal_append_durable].
Qed.

(** Appending an entry whose operations replay: either nothing changes but the
    writer, or the entry is logged and applied. *)
Lemma commit_entry_spec (eng : Engine W) entry s r eng' :
  ops_run (es_store (en_state eng)) (we_operations entry) = Ok s ->
  Engine.commit_entry entry eng = (eng', r) ->
  match r with
  | Ok _ =>
      en_state eng' = applied (en_state eng) entry s /\
      en_wal_entries eng' = en_wal_entries eng ++ [entry] /\ appended eng eng' [entry]
  | Err _ => en_state eng' = en_state eng /\ same_log eng eng'
  end.
Proof.
  intros Hrun. unfold Engine.commit_entry, mbind, fallible_bind, mpure, Engine.append_batch.
  destruct (wal_entry_identity entry) as [identity|e] eqn:Hi; [|by intros [= <- <-]].
  destruct (wal_append_batch _ _) as [w [[]|e]] eqn:Ea; [|by intros [= <- <-]].
  unfold Engine.state_apply_entry. cbn.
  pose proof (apply_entry_run (en_state eng) entry) as Happ. rewrite Hrun in Happ. rewrite Happ.
  intros [= <- <-]. split_and!; [done|done|]. split; [done|].
  exists {[we_sequence entry := identity]}. split; [|done]. unfold build_wal_entry_identities. cbn.
  unfold add_wal_entry_identity. rewrite Hi. cbn. by rewrite lookup_empty.
Qed.

(** What a committed transaction leaves: nothing in the log when it wrote
    nothing, else one entry that replays it. *)
Definition committed (st0 : EngineState) (eng eng' : Engine W) (ops : list WalOperation) : Prop :=
  match ops with
  | [] => en_state eng' = st0 /\ same_log eng eng' /\ appended eng eng' []
  | _ => exists entry,
      we_operations entry = ops /\
      we_sequence entry = wrapping_add (md_last_applied_sequence (es_metadata st0)) 1 /\
      apply_entry st0 entry = (en_state eng', Ok tt) /\
      en_wal_entries eng' = en_wal_entries eng ++ [entry] /\ appended eng eng' [entry]
  end.

Lemma execute_transaction_spec now entry_ms cs (eng eng' : Engine W) r :
  0 <= now < u64_max -> Forall command_typed cs ->
  Transaction.execute_transaction now entry_ms cs eng = (eng', r) ->
  match r with
  | Err _ => en_state eng' = purge_state now (en_state eng) /\ same_log eng eng'
  | Ok results => exists working ops,
      evaluate_commands now cs [] (purge_state now (en_state eng), []) = ((working, ops), Ok results) /\
      es_store (en_state eng') = es_store working /\
      committed (purge_state now (en_state eng)) eng eng' ops
  end.
Proof.
  intros Hnow Hcs. unfold Transaction.execute_transaction, mbind at 1, fallible_bind at 1.
  rewrite purge_run. unfold mbind at 1, fallible_bind at 1, Prelude.mget. cbn [en_state Engine.with_state].
  set (st0 := purge_state now (en_state eng)). set (eng0 := Engine.with_state eng st0).
  destruct (evaluate_commands now cs [] (st0, [])) as [[working ops] [rs|e]] eqn:Ev.
  2:{ intros [= <- <-]. done. }
  cbn. assert (replays now (st0, []) (working, ops)) as Hrep.
  { eapply evaluate_commands_replays; [done..| |exact Ev]. apply purge_state_purges. }
  destruct Hrep as (new & Hops & Hrun & _ & Hm & Hpw). cbn in Hops, Hrun, Hm. subst new.
  destruct ops as [|op ops].
  { injection Hrun as Hrun. intros [= <- <-]. exists working, []. split_and!; [done|done|].
    split; [by apply EngineState_ext|]. split; [done|by apply appended_nothing]. }
  unfold mbind, fallible_bind.
  set (entry := Engine.next_entry eng0 entry_ms (op :: ops)).
  destruct (Engine.commit_entry entry eng0) as [eng1 r1] eqn:Ec.
  pose proof (commit_entry_spec eng0 entry (es_store working) r1 eng1 Hrun Ec) as Hs.
  cbn. rewrite Ec. destruct r1; intros [= <- <-]; [|done]. destruct Hs as (Hst & Hlog & Hd).
  exists working, (op :: ops). split_and!; [done|by rewrite Hst|].
  exists entry. split_and!; [..|exact Hlog|exact Hd]; [done|done|].
  apply apply_entry_ok. exists (es_store working). by rewrite Hst.
Qed.

End transaction.
