(* ===== verification/BatchFacts.v ===== *)
(** * BatchFacts: batched commands

    The entries [execute_command_batch] logs are consecutive and replay to the
    state it leaves, and a batch that fails is rolled back, unless it cleared
    the keyspace after changing it. *)

From S2P Require Import Prelude Text Command EngineError Store State Wildcard Engine Transaction.
From S2P Require Import TxFacts.

(** ** The keys a command touches *)

Definition touches (c : Command) : list string :=
  match c with
  | CmdSet key _ _ | CmdSetNx key _ | CmdGetDel key | CmdGetEx key _ _ | CmdExpire key _
  | CmdPersist key | CmdIncr key | CmdDecr key => [key]
  | CmdMSet entries => entries.*1
  | CmdDelete keys | CmdMGet keys => keys
  | CmdRename source destination | CmdRenameNx source destination => [source; destination]
  | _ => []
  end.

Definition is_clear_command (c : Command) : bool :=
  match c with CmdClear => true | _ => false end.

Lemma lookup_set_expiration_ne st k j t :
  j <> k -> es_store (EngineState.set_expiration_if_present st j t).1 !! k = es_store st !! k.
Proof. intros H. rewrite set_expiration_state, expire_alter. cbn. by rewrite lookup_alter_ne. Qed.

Lemma lookup_set_raw_ne st k j v ver :
  j <> k ->
  es_store (EngineState.set_raw_value_with_version st j v ver) !! k = es_store st !! k.
Proof. intros H. by apply lookup_insert_ne. Qed.

Lemma lookup_clear_expiration_ne st k j :
  j <> k -> es_store (EngineState.clear_expiration st j).1 !! k = es_store st !! k.
Proof.
  intros H. unfold EngineState.clear_expiration, EngineStore.clear_expiration.
  destruct (es_store st !! j); cbn; [by rewrite lookup_insert_ne | done].
Qed.

Lemma lookup_deadline_ne now key x st ops k :
  key <> k -> es_store (eval_deadline now key x (st, ops)).1.1 !! k = es_store st !! k.
Proof.
  intros H. unfold eval_deadline. case_match; cbn.
  - by rewrite lookup_delete_ne.
  - by apply lookup_set_expiration_ne.
Qed.

Lemma lookup_mset_ne es t k : k ∉ es.*1 -> es_store (eval_mset es t).1 !! k = es_store t.1 !! k.
Proof.
  revert t. induction es as [|[j v] es IH]; intros [st ops] Hk; [done|]. cbn in *.
  rewrite IH by set_solver. apply lookup_set_raw_ne. set_solver.
Qed.

Lemma lookup_delete_keys_ne ks n t k :
  k ∉ ks -> es_store (eval_delete ks n t).1.1 !! k = es_store t.1 !! k.
Proof.
  revert n t. induction ks as [|j ks IH]; intros n [st ops] Hk; [done|]. cbn.
  case_match; rewrite IH by set_solver; cbn; by rewrite lookup_delete_ne by set_solver.
Qed.

Lemma lookup_rename_ne s d t k :
  k <> s -> k <> d -> es_store (eval_rename s d t).1.1 !! k = es_store t.1 !! k.
Proof.
  destruct t as [st ops]. intros Hs Hd. unfold eval_rename. cbn.
  destruct (es_store st !! s) as [e|]; cbn; [|by rewrite lookup_delete_ne].
  destruct (sv_expires_at_ms e); cbn; rewrite ?lookup_set_expiration_ne by done; cbn;
    by rewrite lookup_insert_ne, lookup_delete_ne.
Qed.

(** Keys outside [touches] keep their entries. *)
Lemma evaluate_frame now c t k :
  purged now (es_store t.1) -> is_clear_command c = false -> k ∉ touches c ->
  es_store (evaluate_transaction_command now c t).1.1 !! k = es_store t.1 !! k.
Proof.
  intros Hp Hc Hk. unfold evaluate_transaction_command. rewrite !eval_purge_purged by done.
  destruct t as [st ops]; destruct c; cbn in Hk; try done.
  - unfold eval_set. case_match; [done|]. repeat case_match; simplify_eq; cbn;
      try match goal with
      | H : eval_deadline _ _ _ _ = _ |- _ =>
          apply (f_equal (fun x => es_store x.1.1 !! k)) in H; rewrite lookup_deadline_ne in H by set_solver;
          cbn in H; rewrite <- H
      end; rewrite ?lookup_set_expiration_ne by set_solver; apply lookup_set_raw_ne; set_solver.
  - unfold eval_set_nx. case_match; cbn; [done|]. apply lookup_set_raw_ne. set_solver.
  - unfold eval_get_del. cbn. case_match; cbn; by rewrite lookup_delete_ne by set_solver.
  - unfold eval_get_ex. case_match; [|done]. case_match; cbn.
    { by apply lookup_deadline_ne; set_solver. }
    case_match; [|done]. pose proof (lookup_clear_expiration_ne st k key ltac:(set_solver)) as Hfr.
    destruct (EngineState.clear_expiration st key). done.
  - by apply lookup_mset_ne.
  - pose proof (lookup_delete_keys_ne keys 0 (st, ops) k Hk) as Hfr.
    by destruct (eval_delete keys 0 (st, ops)).
  - unfold eval_incr_by. case_match; [|done]. apply lookup_set_raw_ne. set_solver.
  - unfold eval_incr_by. case_match; [|done]. apply lookup_set_raw_ne. set_solver.
  - unfold eval_expire. case_match; [done|]. case_match; cbn.
    + by rewrite lookup_delete_ne by set_solver.
    + apply lookup_set_expiration_ne. set_solver.
  - cbn. pose proof (ttl_for_purged now st key Hp) as Hfr.
    destruct (EngineState.ttl_for _ _ _). cbn in *. by subst.
  - unfold eval_persist. case_match; [|done].
    pose proof (lookup_clear_expiration_ne st k key ltac:(set_solver)) as Hfr.
    by destruct (EngineState.clear_expiration st key).
  - apply lookup_rename_ne; set_solver.
  - case_match; [done|]. apply lookup_rename_ne; set_solver.
  - unfold eval_scan. rewrite live_keys_purged by done. done.
  - cbn. pose proof (live_entries_purged now st Hp) as Hfr.
    destruct (EngineState.live_entries _ _). cbn in *. by subst.
Qed.

(** ** Evaluation sees only the keyspace *)

Definition with_metadata (st : EngineState) (m : EngineMetadata) : EngineState :=
  mkEngineState (es_store st) m.

(** The outcome [o] of a run from [(st, [])], moved to other metadata and a log
    that already holds [ops]. *)
Definition rebase {A} (m : EngineMetadata) (ops : list WalOperation)
    (o : TxState * result EngineError A) : TxState * result EngineError A :=
  ((with_metadata o.1.1 m, ops ++ o.1.2), o.2).

Lemma eval_deadline_rebase now k x st m ops ops0 :
  eval_deadline now k x (with_metadata st m, ops ++ ops0) =
    rebase m ops (eval_deadline now k x (st, ops0)).
Proof.
  unfold eval_deadline, rebase. rewrite !set_expiration_state.
  case_match; cbn; by rewrite <- app_assoc.
Qed.

Lemma eval_mset_rebase es st m ops ops0 :
  eval_mset es (with_metadata st m, ops ++ ops0) =
    (with_metadata (eval_mset es (st, ops0)).1 m, ops ++ (eval_mset es (st, ops0)).2).
Proof.
  revert st ops0. induction es as [|[k v] es IH]; intros st ops0; [done|]. cbn.
  rewrite <- app_assoc. apply (IH (EngineState.set_raw_value_with_version st k v _)).
Qed.

Lemma eval_delete_rebase ks n st m ops ops0 :
  eval_delete ks n (with_metadata st m, ops ++ ops0) =
    ((with_metadata (eval_delete ks n (st, ops0)).1.1 m,
      ops ++ (eval_delete ks n (st, ops0)).1.2), (eval_delete ks n (st, ops0)).2).
Proof.
  revert st n ops0. induction ks as [|k ks IH]; intros st n ops0; [done|]. cbn.
  destruct (is_some _); [rewrite <- app_assoc|].
  - exact (IH (with_store st (delete k (es_store st))) (n + 1) (ops0 ++ [WalDelete k])).
  - exact (IH (with_store st (delete k (es_store st))) n ops0).
Qed.

Lemma eval_rename_rebase s d st m ops :
  eval_rename s d (with_metadata st m, ops) = rebase m ops (eval_rename s d (st, [])).
Proof.
  unfold eval_rename, rebase. cbn.
  destruct (es_store st !! s) as [e|]; cbn; [|by rewrite app_nil_r].
  destruct (sv_expires_at_ms e); cbn; [|done]. rewrite !set_expiration_state. cbn.
  by rewrite <- app_assoc.
Qed.

Lemma eval_set_rebase now k v o st m ops :
  eval_set now k v o (with_metadata st m, ops) = rebase m ops (eval_set now k v o (st, [])).
Proof.
  unfold eval_set. change (EngineState.raw_entry (with_metadata st m) k) with (EngineState.raw_entry st k).
  destruct (negb _); [unfold rebase; cbn; by rewrite app_nil_r|].
  change (EngineState.set_raw_value_with_version (with_metadata st m) k v ?ver) with
    (with_metadata (EngineState.set_raw_value_with_version st k v ver) m).
  destruct (eso_expiration _).
  { rewrite eval_deadline_rebase. cbn [app].
    match goal with |- context [eval_deadline now k ?x ?t] => by destruct (eval_deadline now k x t) end. }
  destruct (eso_keep_ttl _); [|done]. destruct (_ ≫= _) as [x|]; [|done].
  unfold rebase. cbn. rewrite !set_expiration_state. cbn. by rewrite <- app_assoc.
Qed.

Lemma eval_get_ex_rebase now k e p st m ops :
  eval_get_ex now k e p (with_metadata st m, ops) = rebase m ops (eval_get_ex now k e p (st, [])).
Proof.
  unfold eval_get_ex.
  change (EngineState.raw_entry (with_metadata st m) k) with (EngineState.raw_entry st k).
  destruct (EngineState.raw_entry st k); [|unfold rebase; cbn; by rewrite app_nil_r].
  destruct (map_command_expiration e).
  { rewrite <- (app_nil_r ops) at 1. by rewrite eval_deadline_rebase. }
  destruct p; [|unfold rebase; cbn; by rewrite app_nil_r].
  unfold rebase, EngineState.clear_expiration. cbn.
  destruct (EngineStore.clear_expiration _ _) as [? []]; cbn; by rewrite ?app_nil_r.
Qed.

Lemma eval_persist_rebase k st m ops :
  eval_persist k (with_metadata st m, ops) = rebase m ops (eval_persist k (st, [])).
Proof.
  unfold eval_persist. change (EngineState.raw_contains_key (with_metadata st m) k)
    with (EngineState.raw_contains_key st k).
  destruct (EngineState.raw_contains_key st k); [|unfold rebase; cbn; by rewrite app_nil_r].
  unfold rebase, EngineState.clear_expiration. cbn.
  destruct (EngineStore.clear_expiration _ _) as [? []]; cbn; by rewrite ?app_nil_r.
Qed.

Lemma eval_incr_rebase d k st m ops :
  eval_incr_by d k (with_metadata st m, ops) = rebase m ops (eval_incr_by d k (st, [])).
Proof.
  unfold eval_incr_by. change (EngineState.raw_value (with_metadata st m) k)
    with (EngineState.raw_value st k).
  destruct (parsed ← _; _); unfold rebase; cbn; by rewrite ?app_nil_r.
Qed.

Lemma eval_expire_rebase now k secs st m ops :
  eval_expire now k secs (with_metadata st m, ops) = rebase m ops (eval_expire now k secs (st, [])).
Proof.
  unfold eval_expire. rewrite !set_expiration_state.
  change (EngineState.raw_contains_key (with_metadata st m) k) with (EngineState.raw_contains_key st k).
  destruct (negb _); [unfold rebase; cbn; by rewrite app_nil_r|].
  by destruct (secs =? 0).
Qed.

(** Metadata and the log so far do not influence evaluation. *)
Lemma evaluate_rebase now c st m ops :
  purged now (es_store st) ->
  evaluate_transaction_command now c (with_metadata st m, ops) =
    rebase m ops (evaluate_transaction_command now c (st, [])).
Proof.
  intros Hp. unfold evaluate_transaction_command. rewrite !eval_purge_purged by done.
  assert (forall A (r : result EngineError A), ((with_metadata st m, ops), r) = rebase m ops ((st, []), r)) as Hid
    by (intros; unfold rebase; cbn; by rewrite app_nil_r).
  destruct c; try (by apply Hid); cbn [fst snd].
  - apply eval_set_rebase.
  - unfold eval_set_nx, rebase, EngineState.raw_contains_key. cbn. case_match; cbn; by rewrite ?app_nil_r.
  - unfold eval_get_del, rebase. cbn. case_match; cbn; by rewrite ?app_nil_r.
  - apply eval_get_ex_rebase.
  - unfold rebase. cbn. by rewrite <- (eval_mset_rebase entries st m ops []), app_nil_r.
  - pose proof (eval_delete_rebase keys 0 st m ops []) as Hd. rewrite app_nil_r in Hd. rewrite Hd.
    unfold rebase. by destruct (eval_delete keys 0 (st, [])) as [[? ?] ?].
  - apply eval_incr_rebase.
  - apply eval_incr_rebase.
  - apply eval_expire_rebase.
  - rewrite !ttl_for_value by done. by apply Hid.
  - apply eval_persist_rebase.
  - apply eval_rename_rebase.
  - unfold EngineState.raw_contains_key. cbn. case_match; [by apply Hid|]. apply eval_rename_rebase.
  - unfold eval_scan. rewrite !live_keys_purged by done. by apply Hid.
  - unfold EngineState.live_entries, EngineStore.live_entries_sorted.
    rewrite !live_purged by (by apply purged_live). unfold rebase. cbn. by rewrite app_nil_r.
  - unfold eval_clear, rebase, EngineState.is_empty. cbn. case_match; cbn; by rewrite ?app_nil_r.
Qed.

(** ** The loop of a batch *)

Lemma apply_entries_app st es1 es2 :
  apply_entries st (es1 ++ es2) =
    match apply_entries st es1 with
    | (st', Ok _) => apply_entries st' es2
    | (st', Err e) => (st', Err e)
    end.
Proof.
  revert st. induction es1 as [|e es1 IH]; intros st; [done|]. cbn.
  destruct (apply_entry st e) as [st' [[]|err]]; [apply IH | done].
Qed.

Lemma evaluate_commands_snoc now cs c res t :
  evaluate_commands now (cs ++ [c]) res t =
    (rs ← evaluate_commands now cs res;
     r ← evaluate_transaction_command now c; mret (rs ++ [r])) t.
Proof.
  revert res t. induction cs as [|c' cs IH]; intros res t; [done|]. cbn.
  unfold mbind, fallible_bind in *.
  destruct (evaluate_transaction_command now c' t) as [t' [r|e]]; [apply IH | done].
Qed.

Lemma foldM_snoc_inv {E A B} (f : B -> A -> result E B) acc xs x b' :
  foldM f acc (xs ++ [x]) = Ok b' -> exists b, foldM f acc xs = Ok b /\ f b x = Ok b'.
Proof.
  rewrite foldM_app. intros (b & Hb & H)%result_bind_ok. exists b. split; [done|]. cbn in H.
  destruct (f b x); [done|discriminate].
Qed.

Section batch.
Context (now term : Z) (Hnow : 0 <= now < u64_max).
Context (st0 : EngineState) (Hp0 : purged now (es_store st0)).

Definition start_sequence : Z := md_last_applied_sequence (es_metadata st0).

(** After the commands [cs]: the entries are consecutive, replay to the working
    state, and carry what the same transaction would log. *)
Record batch_inv (cs : list Command) (b : BatchState) : Prop := {
  bi_purged : purged now (es_store (bs_state b));
  bi_replay : apply_entries st0 (bs_entries b) = (bs_state b, Ok tt);
  bi_visible : bs_visible_sequence b = start_sequence + Z.of_nat (length (bs_entries b));
  bi_next : bs_next_sequence b = start_sequence + 1 + Z.of_nat (length (bs_entries b));
  bi_sequences :
    we_sequence <$> bs_entries b =
      seqZ (start_sequence + 1) (Z.of_nat (length (bs_entries b)));
  bi_count : (length (bs_entries b) <= length cs)%nat;
  bi_transaction :
    evaluate_commands now cs [] (st0, []) =
      ((with_metadata (bs_state b) (es_metadata st0), mjoin (we_operations <$> bs_entries b)),
       Ok (cb_result <$> bs_results b));
}.

Lemma batch_start_inv :
  is_u64 (start_sequence + 1) -> batch_inv [] (Transaction.batch_start st0).
Proof.
  intros Hs. split; cbn; try done; unfold start_sequence in *; [lia|width_lia|].
  by destruct st0.
Qed.

Lemma seqZ_snoc m (n : nat) : seqZ m (Z.of_nat (S n)) = seqZ m (Z.of_nat n) ++ [m + Z.of_nat n].
Proof.
  rewrite Nat2Z.inj_succ, <- Z.add_1_r, seqZ_app by lia. by rewrite (seqZ_cons _ 1) by lia.
Qed.

(** Evaluation from the batch's state, read as a step of the transaction. *)
Lemma batch_evaluate cs b c st new r :
  batch_inv cs b -> evaluate_transaction_command now c (bs_state b, []) = ((st, new), Ok r) ->
  evaluate_commands now (cs ++ [c]) [] (st0, []) =
    ((with_metadata st (es_metadata st0), mjoin (we_operations <$> bs_entries b) ++ new),
     Ok ((cb_result <$> bs_results b) ++ [r])).
Proof.
  intros Hi He. rewrite evaluate_commands_snoc. unfold mbind, fallible_bind.
  rewrite (bi_transaction _ _ Hi).
  pose proof (evaluate_rebase now c (bs_state b) (es_metadata st0)
                (mjoin (we_operations <$> bs_entries b)) (bi_purged _ _ Hi)) as Hr.
  rewrite He in Hr. by rewrite Hr.
Qed.

Lemma batch_step_inv cs b c b' :
  batch_inv cs b -> command_typed c -> is_u64 (start_sequence + 2 + Z.of_nat (length cs)) ->
  Transaction.batch_step term now b c = Ok b' -> batch_inv (cs ++ [c]) b'.
Proof.
  intros Hi Hc Hb. unfold Transaction.batch_step.
  destruct (evaluate_transaction_command now c (bs_state b, [])) as [[st new] [r|e]] eqn:He.
  2:{ by destruct new. }
  pose proof (batch_evaluate _ _ _ _ _ _ Hi He) as Ht.
  apply evaluate_replays in He; [|done|done]. rewrite eval_purge_purged in He by apply Hi.
  destruct He as (new' & Hn & Hrun & _ & Hm & Hp). cbn in Hn, Hrun, Hm, Hp. subst new'.
  pose proof (bi_count _ _ Hi) as Hcount.
  destruct new as [|op new]; intros [= <-]; split; cbn; rewrite ?fmap_app, ?length_app; cbn; try apply Hi; try done.
  - injection Hrun as Hrun. rewrite (bi_replay _ _ Hi). f_equal. destruct (bs_state b), st; cbn in *; congruence.
  - lia.
  - by rewrite app_nil_r in Ht.
  - rewrite apply_entries_app, (bi_replay _ _ Hi). cbn.
    set (entry := mkWalEntry _ _ _ _). pose proof (apply_entry_run (bs_state b) entry) as Ha.
    cbn [we_operations entry] in Ha. rewrite Hrun in Ha. rewrite Ha. unfold applied. by rewrite Hm.
  - rewrite (bi_next _ _ Hi). lia.
  - rewrite (bi_next _ _ Hi). unfold is_u64 in Hb. width_lia.
  - rewrite Nat.add_1_r, seqZ_snoc, (bi_sequences _ _ Hi), (bi_next _ _ Hi). do 2 f_equal.
  - lia.
  - rewrite join_app. cbn. by rewrite app_nil_r.
Qed.

Lemma batch_loop_inv cs b :
  Forall command_typed cs -> is_u64 (start_sequence + 1) ->
  is_u64 (start_sequence + 1 + Z.of_nat (length cs)) ->
  foldM (Transaction.batch_step term now) (Transaction.batch_start st0) cs = Ok b ->
  batch_inv cs b.
Proof.
  intros Hcs Hs. revert b. induction cs as [|c cs IH] using rev_ind; intros b Hb.
  { intros [= <-]. by apply batch_start_inv. }
  rewrite length_app in Hb. cbn in Hb. apply Forall_app in Hcs as [Hcs Hc%Forall_cons].
  intros (b1 & Hb1 & Hstep)%foldM_snoc_inv.
  eapply batch_step_inv; [apply IH; [done|unfold is_u64 in *; lia|done]|apply Hc| |exact Hstep].
  unfold is_u64 in *. lia.
Qed.

(** The operations of each command, evaluated one after another. *)
Fixpoint command_operations (cs : list Command) (st : EngineState) : list (list WalOperation) :=
  match cs with
  | [] => []
  | c :: cs =>
      let '((st, operations), _) := evaluate_transaction_command now c (st, []) in
      operations :: command_operations cs st
  end.

(** The entries of a batch after sequence [n]: one for each command that has
    operations. *)
Fixpoint batch_entries (n : Z) (operations : list (list WalOperation)) : list WalEntry :=
  match operations with
  | [] => []
  | [] :: rest => batch_entries n rest
  | ops :: rest => mkWalEntry (n + 1) term now ops :: batch_entries (n + 1) rest
  end.

(** The sequence each command is answered with: that of its own entry, and for a command
    without one that of the last entry before it. *)
Fixpoint answered_at (n : Z) (operations : list (list WalOperation)) : list Z :=
  match operations with
  | [] => []
  | [] :: rest => n :: answered_at n rest
  | _ :: rest => n + 1 :: answered_at (n + 1) rest
  end.

Lemma batch_loop_entries cs b b' st :
  Forall command_typed cs -> purged now (es_store (bs_state b)) ->
  es_store st = es_store (bs_state b) -> 0 <= bs_visible_sequence b ->
  bs_next_sequence b = bs_visible_sequence b + 1 ->
  bs_visible_sequence b + 1 + Z.of_nat (length cs) <= u64_max ->
  foldM (Transaction.batch_step term now) b cs = Ok b' ->
  let operations := command_operations cs st in
  bs_entries b' = bs_entries b ++ batch_entries (bs_visible_sequence b) operations /\
  cb_last_applied_sequence <$> bs_results b' =
    (cb_last_applied_sequence <$> bs_results b) ++ answered_at (bs_visible_sequence b) operations.
Proof.
  intros Hcs. revert b st. induction Hcs as [|c cs Hc _ IH]; intros b st Hp Hst H0 Hn Hb; cbn [foldM].
  { intros [= <-]. cbn. by rewrite !app_nil_r. }
  intros (b1 & Hstep & Hrest)%result_bind_ok. cbn [length] in Hb. unfold Transaction.batch_step in Hstep.
  destruct (evaluate_transaction_command now c (bs_state b, [])) as [[st1 new] [r|e]] eqn:He; [|by destruct new].
  assert (evaluate_transaction_command now c (st, []) = ((with_metadata st1 (es_metadata st), new), Ok r)) as Hst1.
  { pose proof (evaluate_rebase now c (bs_state b) (es_metadata st) [] Hp) as Hr. rewrite He in Hr.
    replace (with_metadata (bs_state b) (es_metadata st)) with st in Hr by (destruct st; cbn in *; by rewrite Hst).
    exact Hr. }
  apply evaluate_replays in He as (_ & _ & _ & _ & _ & Hp1); [|done|done]. cbn in Hp1.
  cbn [command_operations]. rewrite Hst1. cbv zeta. destruct new as [|op new]; injection Hstep as <-.
  - apply (IH _ (with_metadata st1 (es_metadata st))) in Hrest as [He Hs]; cbn; [|done..|lia].
    cbn in He, Hs. rewrite He, Hs, fmap_app, <- app_assoc. done.
  - apply (IH _ (with_metadata st1 (es_metadata st))) in Hrest as [He Hs]; cbn;
      [|done|done|lia|unfold saturating_add; lia|lia].
    cbn in He, Hs. rewrite Hn in He, Hs. rewrite He, Hs, fmap_app, <- !app_assoc. done.
Qed.

End batch.

(** ** Rolling a batch back *)

(** Commands that may change a key. *)
Definition mutates (c : Command) : bool :=
  match c with
  | CmdMGet _ => false
  | _ => match touches c with [] => is_clear_command c | _ => true end
  end.

(** The batch clears the keyspace, if at all, before changing it otherwise. *)
Fixpoint clear_safe (cs : list Command) : bool :=
  match cs with
  | [] => true
  | c :: cs =>
      if is_clear_command c then true
      else if mutates c then forallb (fun c => negb (is_clear_command c)) cs
      else clear_safe cs
  end.

(** A batch rollback keeps its books as an entry rollback does. *)
Definition as_entry (rb : BatchRollback) : EntryRollback :=
  mkEntryRollback (br_keys rb) (br_clear_snapshot rb).

Lemma as_entry_remember_key rb st k :
  as_entry (BatchRollback.remember_key rb st k) = EntryRollback.remember_key (as_entry rb) st k.
Proof.
  unfold BatchRollback.remember_key, EntryRollback.remember_key. cbn. by case_match.
Qed.

Lemma batch_rollback_restores s0 m st rb :
  br_metadata rb = Some m -> rollback_inv s0 st (as_entry rb) ->
  BatchRollback.rollback rb st = mkEngineState s0 m.
Proof.
  intros Hm Hi. unfold BatchRollback.rollback. rewrite Hm.
  by apply (rollback_restores s0 st (as_entry rb) m).
Qed.

(** [rb'] extends [rb] so that the keys [ks] are covered. *)
Definition covers_keys (s0 : EngineStore) (st : EngineState) (rb rb' : BatchRollback)
    (ks : list string) : Prop :=
  rollback_inv s0 st (as_entry rb') /\ br_metadata rb' = br_metadata rb /\
  br_clear_snapshot rb' = br_clear_snapshot rb /\
  (br_clear_snapshot rb = None -> forall k, k ∈ ks \/ is_Some (br_keys rb !! k) ->
     is_Some (br_keys rb' !! k)).

Lemma remember_key_covered s0 st rb k :
  rollback_inv s0 st (as_entry rb) ->
  covers_keys s0 st rb (BatchRollback.remember_key rb st k) [k].
Proof.
  intros Hi. split_and!.
  - rewrite as_entry_remember_key. by apply remember_key_inv.
  - unfold BatchRollback.remember_key. by case_match.
  - unfold BatchRollback.remember_key. by case_match.
  - intros Hc j Hj. unfold BatchRollback.remember_key. rewrite Hc. cbn.
    destruct (br_keys rb !! k) eqn:E; cbn.
    + destruct Hj as [->%list_elem_of_singleton|Hj]; [by rewrite E | done].
    + destruct (decide (j = k)) as [->|Hne]; [by rewrite lookup_insert_eq|].
      rewrite lookup_insert_ne by done. set_solver.
Qed.

Lemma covers_keys_trans s0 st rb1 rb2 rb3 ks1 ks2 :
  covers_keys s0 st rb1 rb2 ks1 -> covers_keys s0 st rb2 rb3 ks2 ->
  covers_keys s0 st rb1 rb3 (ks1 ++ ks2).
Proof.
  intros (I1 & M1 & C1 & K1) (I2 & M2 & C2 & K2). split_and!; [done|congruence|congruence|].
  intros Hc k Hk. apply K2; [congruence|]. rewrite elem_of_app in Hk.
  destruct Hk as [[Hk|Hk]|Hk]; auto.
Qed.

Lemma remember_keys_covered s0 st rb ks :
  rollback_inv s0 st (as_entry rb) ->
  covers_keys s0 st rb (BatchRollback.remember_keys rb st ks) ks.
Proof.
  revert rb. induction ks as [|k ks IH]; intros rb Hi; cbn.
  { split_and!; try done. intros _ k [Hk|Hk]; [by apply elem_of_nil in Hk | done]. }
  pose proof (remember_key_covered s0 st rb k Hi) as H1.
  apply (covers_keys_trans _ _ _ _ _ [k] ks H1). apply IH, H1.
Qed.

Lemma remember_command_covered s0 st rb c :
  rollback_inv s0 st (as_entry rb) -> is_clear_command c = false ->
  covers_keys s0 st rb (BatchRollback.remember_command rb st c) (touches c).
Proof.
  intros Hi Hc.
  assert (covers_keys s0 st rb rb []) as Hid.
  { split_and!; try done. intros _ k [Hk|Hk]; [by apply elem_of_nil in Hk | done]. }
  destruct c; cbn; try done; try (by apply remember_key_covered);
    try (by apply remember_keys_covered).
  all: pose proof (remember_key_covered s0 st rb source Hi) as H1;
    apply (covers_keys_trans _ _ _ _ _ [source] [destination] H1);
    apply remember_key_covered, H1.
Qed.

Section rollback.
Context (now term : Z) (st0 : EngineState).
Notation s0 := (es_store st0).

(** What keeps the rollback exact through the commands [rest] still to come. *)
Definition rollback_safe (b : BatchState) (rest : list Command) : Prop :=
  purged now (es_store (bs_state b)) /\
  br_metadata (bs_rollback b) = Some (es_metadata st0) /\
  rollback_inv s0 (bs_state b) (as_entry (bs_rollback b)) /\
  (is_some (br_clear_snapshot (bs_rollback b)) = true \/
   (es_store (bs_state b) = s0 /\ clear_safe rest = true) \/
   forallb (fun c => negb (is_clear_command c)) rest = true).

Lemma rollback_inv_frame st st' rb c :
  covers_keys s0 st rb (BatchRollback.remember_command rb st c) (touches c) ->
  (forall k, k ∉ touches c -> es_store st' !! k = es_store st !! k) ->
  rollback_inv s0 st' (as_entry (BatchRollback.remember_command rb st c)).
Proof.
  intros (Hi & _ & Hc & Hk) Hf. unfold rollback_inv in *. cbn in *. rewrite Hc in *.
  destruct (br_clear_snapshot rb); [done|]. intros k. specialize (Hi k).
  destruct (br_keys _ !! k) eqn:E; [done|]. rewrite Hf; [done|].
  intros Hin. destruct (Hk eq_refl k) as [x Hx]; [by left | congruence].
Qed.

Lemma remember_clear_exact st rb :
  rollback_inv s0 st (as_entry rb) ->
  is_some (br_clear_snapshot rb) = true \/ es_store st = s0 ->
  br_clear_snapshot (BatchRollback.remember_clear rb st) = Some s0 /\
  br_metadata (BatchRollback.remember_clear rb st) = br_metadata rb.
Proof.
  unfold rollback_inv, BatchRollback.remember_clear. cbn.
  destruct (br_clear_snapshot rb) as [s|] eqn:E; cbn; [naive_solver congruence|].
  intros _ [?| ->]; done.
Qed.

(** The working state after evaluating [c], and the books kept for it. *)
Lemma rollback_safe_step b c rest st new r :
  rollback_safe b (c :: rest) ->
  evaluate_transaction_command now c (bs_state b, []) = ((st, new), r) ->
  let rb := BatchRollback.remember_command (bs_rollback b) (bs_state b) c in
  br_metadata rb = Some (es_metadata st0) /\ rollback_inv s0 st (as_entry rb) /\
  (is_some (br_clear_snapshot rb) = true \/
   (es_store st = s0 /\ clear_safe rest = true) \/
   forallb (fun c => negb (is_clear_command c)) rest = true).
Proof.
  intros (Hp & Hm & Hi & Hph) He. cbv zeta. destruct (is_clear_command c) eqn:Hc.
  - destruct c; try done. cbn [BatchRollback.remember_command].
    destruct (remember_clear_exact (bs_state b) (bs_rollback b) Hi) as [H1 H2].
    { destruct Hph as [?|[[? ?]|?]]; auto; done. }
    rewrite H2. unfold rollback_inv. cbn. rewrite H1. auto.
  - pose proof (remember_command_covered _ _ _ _ Hi Hc) as Hcov.
    assert (forall k, k ∉ touches c -> es_store st !! k = es_store (bs_state b) !! k) as Hf.
    { intros k Hk. pose proof (evaluate_frame now c (bs_state b, []) k Hp Hc Hk) as H.
      by rewrite He in H. }
    pose proof (rollback_inv_frame _ st _ _ Hcov Hf) as Hinv.
    destruct Hcov as (_ & Hm' & Hcs & _). split_and!; [congruence|done|]. rewrite Hcs.
    destruct Hph as [?|[[Hs Hsafe]|Hnc]]; [by left| |].
    + cbn in Hsafe. rewrite Hc in Hsafe. destruct (mutates c) eqn:Hmut; [by right; right|].
      right. left. split; [|done]. rewrite <- Hs. destruct c; cbn in Hmut; try done;
        try (apply map_eq; intros k; apply Hf; set_solver).
      * cbn in He. rewrite eval_purge_purged in He by done. congruence.
      * apply map_eq. intros k. apply Hf. cbn. destruct (entries.*1); [set_solver | done].
      * apply map_eq. intros k. apply Hf. cbn. destruct keys; [set_solver | done].
    + cbn in Hnc. rewrite Hc in Hnc. by right; right.
Qed.

Lemma batch_loop_rollback cs b :
  0 <= now < u64_max -> Forall command_typed cs -> rollback_safe b cs ->
  match foldM (Transaction.batch_step term now) b cs with
  | Err (st, _) => st = st0
  | Ok b' => rollback_safe b' []
  end.
Proof.
  intros Hnow Hcs. revert b. induction Hcs as [|c cs Hc _ IH]; intros b Hs; [done|]. cbn [foldM].
  unfold Transaction.batch_step at 2.
  destruct (evaluate_transaction_command now c (bs_state b, [])) as [[st new] r] eqn:He.
  destruct (rollback_safe_step _ _ _ _ _ _ Hs He) as (Hm & Hi & Hph).
  destruct r as [r|e].
  2:{ cbn. rewrite (batch_rollback_restores s0 (es_metadata st0)) by done. destruct st0, new; done. }
  apply evaluate_replays in He; [|done|done].
  destruct He as (_ & _ & _ & _ & _ & Hp). cbn in Hp.
  destruct new as [|op new]; apply IH; by split_and!.
Qed.

Lemma batch_start_safe cs :
  purged now s0 -> clear_safe cs = true -> rollback_safe (Transaction.batch_start st0) cs.
Proof.
  intros Hp Hc. split_and!; cbn; [done|done| |by right; left].
  exact (default_rollback_inv st0).
Qed.

End rollback.

(** ** Batches *)

Lemma build_identities_total `{EntryChecksum} es :
  (forall e, is_ok (checksum e) = true) -> NoDup (we_sequence <$> es) ->
  exists ids, build_wal_entry_identities es = Ok ids.
Proof.
  intros Hc Hnd. unfold build_wal_entry_identities.
  assert (forall e, e ∈ es -> (∅ : gmap Z WalEntryIdentity) !! we_sequence e = None) as Hm
    by (intros; apply lookup_empty).
  revert Hm. generalize (∅ : gmap Z WalEntryIdentity) as m.
  induction es as [|e es IH]; intros m Hm; [by eexists|]. cbn [foldM].
  apply NoDup_cons in Hnd as [Hn Hnd]. specialize (Hc e) as He.
  assert (exists i, add_wal_entry_identity m e = Ok (<[we_sequence e := i]> m)) as [i ->].
  { unfold add_wal_entry_identity, wal_entry_identity. destruct (checksum e); [|done].
    cbn [mbind result_bind]. rewrite (Hm e) by left. by eexists. }
  apply IH; [done|]. intros e' He'.
  rewrite lookup_insert_ne; [apply Hm; by right|]. intros Heq. apply Hn.
  rewrite Heq. by apply list_elem_of_fmap_2.
Qed.

Section execute.
Context {W : Type} `{WalWriter W} `{EntryChecksum}.

(** The first sequence a batch may assign is the one after the last applied. *)
Lemma execute_command_batch_spec now cs (eng eng' : Engine W) r :
  0 <= now < u64_max -> Forall command_typed cs ->
  (forall e, is_ok (checksum e) = true) ->
  is_u64 (md_last_applied_sequence (es_metadata (en_state eng))) ->
  is_u64 (md_last_applied_sequence (es_metadata (en_state eng)) + 1 + Z.of_nat (length cs)) ->
  Transaction.execute_command_batch now cs eng = (eng', r) ->
  match r with
  | Err _ =>
      clear_safe cs = true ->
      en_state eng' = purge_state now (en_state eng) /\ same_log eng eng'
  | Ok results => exists entries working,
      apply_entries (purge_state now (en_state eng)) entries = (en_state eng', Ok tt) /\
      we_sequence <$> entries =
        seqZ (md_last_applied_sequence (es_metadata (en_state eng)) + 1)
          (Z.of_nat (length entries)) /\
      en_wal_entries eng' = en_wal_entries eng ++ entries /\
      appended eng eng' entries /\
      evaluate_commands now cs [] (purge_state now (en_state eng), []) =
        ((working, mjoin (we_operations <$> entries)), Ok (cb_result <$> results)) /\
      es_store (en_state eng') = es_store working
  end.
Proof.
  intros Hnow Hcs Hsum Hseq Hbound. unfold Transaction.execute_command_batch.
  unfold mbind at 1, fallible_bind at 1. rewrite purge_run.
  unfold mbind at 1, fallible_bind at 1, Prelude.mget. cbn [en_state Engine.with_state].
  rewrite <- (purge_state_sequence now) in *.
  pose proof (purge_state_purges now (en_state eng)) as Hp. revert Hp Hseq Hbound.
  generalize (purge_state now (en_state eng)) as st0. intros st0 Hp Hseq Hbound.
  set (term := en_current_consensus_term _).
  pose proof (batch_loop_inv now term Hnow st0 Hp cs) as Hloop.
  pose proof (batch_loop_rollback now term st0 cs (Transaction.batch_start st0) Hnow Hcs) as Hroll.
  destruct (foldM (Transaction.batch_step term now) (Transaction.batch_start st0) cs)
    as [b|[st e]] eqn:Ef.
  2:{ intros [= <- <-] Hsafe. rewrite (Hroll (batch_start_safe now st0 cs Hp Hsafe)). done. }
  specialize (Hloop b Hcs). destruct Hloop as [_ Hrep _ _ Hsq _ Htx]; [unfold is_u64, start_sequence in *; lia|done|done|].
  unfold mbind at 1, fallible_bind at 1, Engine.modify_state.
  destruct (bs_entries b) as [|entry entries] eqn:Ee.
  { intros [= <- <-]. exists [], (with_metadata (bs_state b) (es_metadata st0)).
    rewrite !app_nil_r. split_and!; try done. by apply appended_nothing. }
  destruct (build_identities_total (entry :: entries) Hsum) as [ids Hids].
  { rewrite Hsq. apply NoDup_seqZ. }
  unfold mbind, fallible_bind, mpure. rewrite Hids.
  unfold Transaction.append_or_rollback, Engine.append_batch. cbn [en_wal_writer Engine.with_state].
  destruct (wal_append_batch _ _) as [w [[]|err]] eqn:Ea.
  - intros [= <- <-]. exists (entry :: entries), (with_metadata (bs_state b) (es_metadata st0)).
    split_and!; try done. split; [done|by exists ids].
  - intros [= <- <-] Hsafe. destruct (Hroll (batch_start_safe now st0 cs Hp Hsafe)) as (_ & Hm & Hi & _).
    cbn. rewrite (batch_rollback_restores (es_store st0) (es_metadata st0)) by done.
    by destruct st0.
Qed.

(** The entries of a batch and the sequences it answers with. *)
Lemma execute_command_batch_entries now cs (eng eng' : Engine W) results :
  0 <= now < u64_max -> Forall command_typed cs ->
  0 <= md_last_applied_sequence (es_metadata (en_state eng)) ->
  md_last_applied_sequence (es_metadata (en_state eng)) + 1 + Z.of_nat (length cs) <= u64_max ->
  Transaction.execute_command_batch now cs eng = (eng', Ok results) ->
  let operations := command_operations now cs (purge_state now (en_state eng)) in
  let start := md_last_applied_sequence (es_metadata (en_state eng)) in
  en_wal_entries eng' = en_wal_entries eng ++ batch_entries now (en_current_consensus_term eng) start operations /\
  cb_last_applied_sequence <$> results = answered_at start operations.
Proof.
  intros Hnow Hcs H0' Hb. unfold Transaction.execute_command_batch.
  unfold mbind at 1, fallible_bind at 1. rewrite purge_run.
  unfold mbind at 1, fallible_bind at 1, Prelude.mget. cbn [en_state Engine.with_state en_current_consensus_term].
  rewrite <- (purge_state_sequence now) in *. pose proof (purge_state_purges now (en_state eng)) as Hp.
  destruct (foldM _ _ _) as [b|[st e]] eqn:Ef; [|done].
  apply (batch_loop_entries now (en_current_consensus_term eng) Hnow cs _ b (purge_state now (en_state eng))) in Ef
    as [He Hs]; [|done|done|done|done|cbn; unfold saturating_add; lia|done].
  cbn in He, Hs. cbv zeta. rewrite <- He, <- Hs. unfold mbind at 1, fallible_bind at 1, Engine.modify_state.
  destruct (bs_entries b) as [|entry entries]; [intros [= <- <-]; by rewrite app_nil_r|].
  intros (e1 & ids & [= <- _] & (e2 & [] & Ha & Hr)%fallible_bind_ok)%fallible_bind_ok. injection Hr as <- <-.
  unfold Transaction.append_or_rollback, Engine.append_batch in Ha.
  destruct (wal_append_batch _ _) as [w [[]|err]]; [|done]. by injection Ha as <-.
Qed.

End execute.
