(* ===== verification/StorageFacts.v ===== *)
(** * StorageFacts: the operations of the storage trait

    The source implements every data command twice: as a method of
    [StorageEngine], which computes WAL operations and applies them, and as an
    arm of [evaluate_transaction_command], which changes a working state.  The
    theorems here show that both log the same operations and reply the same. *)

From S2P Require Import Prelude Text Command EngineError Store State Wildcard Engine Transaction.
From S2P Require Import TxFacts.

Section storage.
Context {W : Type} `{WalWriter W} `{EntryChecksum}.

Notation M := (fallible (Engine W) EngineError).

(** The trait method a data command stands for, with its reply. *)
Definition storage_command (now entry_ms : Z) (c : Command) : M TransactionResult :=
  match c with
  | CmdGet key =>
      value ← Engine.get now key;
      mret (match value with Some value => TrValue value | None => TrNotFound end)
  | CmdSet key value options =>
      outcome ← Engine.set_with_options now entry_ms key value (map_command_set_options options);
      mret (set_reply options (so_previous outcome) (so_applied outcome))
  | CmdSetNx key value => b ← Engine.set_nx now entry_ms key value; mret (TrBoolean b)
  | CmdGetDel key =>
      value ← Engine.get_del now entry_ms key;
      mret (match value with Some value => TrValue value | None => TrNotFound end)
  | CmdGetEx key expiration persist =>
      value ← Engine.get_ex now entry_ms key (map_command_expiration expiration) persist;
      mret (match value with Some value => TrValue value | None => TrNotFound end)
  | CmdMGet keys => values ← Engine.mget now keys; mret (TrStrings values)
  | CmdMSet entries => _ ← Engine.mset entry_ms entries; mret TrOk
  | CmdDelete keys => n ← Engine.delete_many now entry_ms keys; mret (TrCount n)
  | CmdExists key => b ← Engine.exists_ now key; mret (TrBoolean b)
  | CmdIncr key => n ← Engine.incr now entry_ms key; mret (TrInteger n)
  | CmdDecr key => n ← Engine.decr now entry_ms key; mret (TrInteger n)
  | CmdExpire key seconds => b ← Engine.expire now entry_ms key seconds; mret (TrBoolean b)
  | CmdTtl key => n ← Engine.ttl now key; mret (TrInteger n)
  | CmdPersist key => b ← Engine.persist now entry_ms key; mret (TrBoolean b)
  | CmdRename source destination =>
      b ← Engine.rename now entry_ms source destination; mret (TrBoolean b)
  | CmdRenameNx source destination =>
      b ← Engine.rename_nx now now entry_ms source destination; mret (TrBoolean b)
  | CmdScan cursor pattern count =>
      page ← Engine.scan now cursor pattern count; mret (TrScan page)
  | CmdDbSize | CmdCount => n ← Engine.db_size now; mret (TrCount n)
  | CmdList => entries ← Engine.list now; mret (TrEntries entries)
  | CmdClear => _ ← Engine.clear entry_ms; mret TrOk
  | _ => mpure unsupported_in_transaction
  end.

(** Committing the outcome of an evaluation: a read replies, a write logs and
    applies its operations first. *)
Definition commit_outcome (entry_ms : Z) (o : TxState * result EngineError TransactionResult)
    : M TransactionResult :=
  match o with
  | ((_, []), Ok r) => mret r
  | ((_, ops), Ok r) => _ ← Engine.append_and_apply entry_ms ops; mret r
  | (_, Err e) => mfail e
  end.

Lemma purge_bind {A} now (k : Z -> M A) (eng : Engine W) :
  (Engine.purge now ≫= k) eng =
    k (EngineState.purge_expired (en_state eng) now).2
      (Engine.with_state eng (purge_state now (en_state eng))).
Proof. unfold mbind, fallible_bind. by rewrite purge_run. Qed.

Lemma read_state_run {A} (f : EngineState -> EngineState * A) (eng : Engine W) :
  Engine.read_state f eng = (Engine.with_state eng (f (en_state eng)).1, Ok (f (en_state eng)).2).
Proof. unfold Engine.read_state. by destruct (f (en_state eng)). Qed.

Lemma bind_read_state {A B} (f : EngineState -> EngineState * A) (k : A -> M B) (eng : Engine W) :
  (Engine.read_state f ≫= k) eng =
    k (f (en_state eng)).2 (Engine.with_state eng (f (en_state eng)).1).
Proof. unfold mbind, fallible_bind. by rewrite read_state_run. Qed.

Lemma bind_assoc {A B C} (m : M A) (f : A -> M B) (g : B -> M C) (eng : Engine W) :
  ((m ≫= f) ≫= g) eng = (m ≫= fun a => f a ≫= g) eng.
Proof. unfold mbind, fallible_bind. by destruct (m eng) as [? []]. Qed.

Lemma bind_ext {A B} (m : M A) (f g : A -> M B) (eng : Engine W) :
  (forall a eng, f a eng = g a eng) -> (m ≫= f) eng = (m ≫= g) eng.
Proof. intros Hfg. unfold mbind, fallible_bind. destruct (m eng) as [? []]; [apply Hfg | done]. Qed.

Definition purged_engine (now : Z) (eng : Engine W) : Engine W :=
  Engine.with_state eng (purge_state now (en_state eng)).

Lemma get_live_value now st key :
  EngineState.get_live st key now = (purge_state now st, EngineState.raw_value (purge_state now st) key).
Proof. unfold EngineState.get_live, purge_state. by destruct (EngineState.purge_expired st now). Qed.

(** [c] as a trait method does what its evaluation says. *)
Definition agrees (now entry_ms : Z) (c : Command) (eng : Engine W) : Prop :=
  storage_command now entry_ms c eng =
    commit_outcome entry_ms (evaluate_transaction_command now c (en_state eng, []))
      (purged_engine now eng).

Ltac run_engine :=
  repeat first
    [ rewrite bind_assoc | rewrite purge_bind | rewrite bind_read_state ];
  unfold evaluate_transaction_command, eval_purge; cbn [fst snd];
  change ((EngineState.purge_expired ?st ?now).1) with (purge_state now st).

Section agree.
Context (now entry_ms : Z) (eng : Engine W).
Notation st := (purge_state now (en_state eng)).

Lemma append_mret {A B} ops (x : A) (f : A -> M B) (e : Engine W) :
  ((_ ← Engine.append_and_apply entry_ms ops; mret x) ≫= f) e =
    (_ ← Engine.append_and_apply entry_ms ops; f x) e.
Proof. rewrite bind_assoc. done. Qed.

Lemma agrees_reads key keys :
  agrees now entry_ms (CmdGet key) eng /\ agrees now entry_ms (CmdMGet keys) eng /\
  agrees now entry_ms (CmdExists key) eng /\ agrees now entry_ms CmdDbSize eng /\
  agrees now entry_ms CmdCount eng /\ agrees now entry_ms (CmdTtl key) eng.
Proof.
  unfold agrees, storage_command, Engine.get, Engine.mget, Engine.exists_, Engine.db_size,
    Engine.ttl. split_and!; run_engine; try done.
  - by rewrite get_live_value.
  - unfold EngineState.has_live_key, purged_engine, purge_state.
    by destruct (EngineState.purge_expired (en_state eng) now).
  - rewrite !ttl_for_run. by rewrite (purge_state_id now st) by apply purge_state_purges.
Qed.

Lemma agrees_set key value options : agrees now entry_ms (CmdSet key value options) eng.
Proof.
  unfold agrees, storage_command, Engine.set_with_options. run_engine.
  unfold eval_set, mbind at 1, fallible_bind at 1, Prelude.mget. cbn [en_state Engine.with_state].
  destruct (negb _); [done|].
  destruct (eso_expiration _) as [e|].
  { unfold eval_deadline. destruct (_ <=? now); rewrite append_mret; done. }
  destruct (eso_keep_ttl _); [|by rewrite append_mret].
  destruct (EngineState.raw_entry st key ≫= sv_expires_at_ms); by rewrite append_mret.
Qed.

Lemma agrees_set_nx key value : agrees now entry_ms (CmdSetNx key value) eng.
Proof.
  unfold agrees, storage_command, Engine.set_nx, Engine.set_with_options. run_engine.
  unfold mbind at 1, fallible_bind at 1, Prelude.mget. cbn [en_state Engine.with_state].
  unfold eval_set_nx, EngineState.raw_contains_key, EngineState.raw_entry, EngineStore.contains_key,
    EngineStore.get.
  destruct (es_store st !! key) eqn:E; cbn [set_allowed eso_condition eso_if_version is_some negb andb].
  - done.
  - rewrite !bind_assoc. done.
Qed.

Lemma agrees_get_del key : agrees now entry_ms (CmdGetDel key) eng.
Proof.
  unfold agrees, storage_command, Engine.get_del. run_engine.
  unfold mbind at 1, fallible_bind at 1, Prelude.mget. cbn [en_state Engine.with_state].
  unfold eval_get_del, EngineState.raw_value, EngineStore.get_value, EngineState.remove_raw,
    EngineStore.remove.
  destruct (es_store st !! key) eqn:E; cbn [fmap option_fmap option_map is_some]; [|done].
  by rewrite append_mret.
Qed.

Lemma agrees_get_ex key e p : agrees now entry_ms (CmdGetEx key e p) eng.
Proof.
  unfold agrees, storage_command, Engine.get_ex. run_engine.
  unfold mbind at 1, fallible_bind at 1, Prelude.mget. cbn [en_state Engine.with_state].
  unfold eval_get_ex, EngineState.raw_value, EngineStore.get_value, EngineState.raw_entry,
    EngineStore.get, EngineState.raw_expiration, EngineStore.expiration,
    EngineState.clear_expiration, EngineStore.clear_expiration.
  destruct (es_store st !! key) as [entry|] eqn:E; cbn [fmap option_fmap option_map is_some negb]; [|done].
  destruct (map_command_expiration e).
  { unfold eval_deadline. destruct (_ <=? now); by rewrite append_mret. }
  destruct p; [|done]. cbn. destruct (sv_expires_at_ms entry); cbn; [by rewrite append_mret | done].
Qed.

Lemma agrees_incr_by delta key :
  (n ← Engine.incr_by delta now entry_ms key; mret (TrInteger n)) eng =
    commit_outcome entry_ms (eval_incr_by delta key (st, [])) (purged_engine now eng).
Proof.
  unfold Engine.incr_by. run_engine.
  unfold mbind at 1, fallible_bind at 1, Prelude.mget. cbn [en_state Engine.with_state].
  unfold eval_incr_by. rewrite bind_assoc. unfold mbind at 1, fallible_bind at 1, mpure.
  destruct (parse_integer_value key _) as [z|]; cbn; [|done].
  rewrite bind_assoc. unfold mbind at 1, fallible_bind at 1.
  destruct (checked_i64 (z + delta)); cbn; [|done]. by rewrite append_mret.
Qed.

Lemma agrees_expire key seconds : agrees now entry_ms (CmdExpire key seconds) eng.
Proof.
  unfold agrees, storage_command, Engine.expire. run_engine.
  unfold mbind at 1, fallible_bind at 1, Prelude.mget. cbn [en_state Engine.with_state].
  unfold eval_expire. destruct (negb _); [done|].
  destruct (seconds =? 0); by rewrite append_mret.
Qed.

Lemma agrees_persist key : agrees now entry_ms (CmdPersist key) eng.
Proof.
  unfold agrees, storage_command, Engine.persist. run_engine.
  unfold mbind at 1, fallible_bind at 1, Prelude.mget. cbn [en_state Engine.with_state].
  unfold eval_persist, EngineState.raw_contains_key, EngineStore.contains_key,
    EngineState.raw_expiration, EngineStore.expiration, EngineState.clear_expiration,
    EngineStore.clear_expiration.
  destruct (es_store st !! key) as [entry|] eqn:E; cbn; [|done].
  destruct (sv_expires_at_ms entry); cbn; [by rewrite append_mret | done].
Qed.

Lemma rename_run source destination (e : Engine W) :
  source <> destination -> purged now (es_store (en_state e)) ->
  (b ← Engine.rename now entry_ms source destination; mret (TrBoolean b)) e =
    commit_outcome entry_ms (eval_rename source destination (en_state e, [])) e.
Proof.
  intros Hne Hp. unfold Engine.rename. rewrite bind_assoc, purge_bind, purge_state_id by done.
  rewrite bind_assoc. unfold mbind at 1, fallible_bind at 1, Prelude.mget. cbn [en_state Engine.with_state].
  unfold eval_rename, EngineState.raw_entry, EngineStore.get, EngineState.remove_raw, EngineStore.remove.
  replace (Engine.with_state e (en_state e)) with e by (by destruct e). cbn [es_store with_store].
  rewrite lookup_delete_ne by done.
  destruct (es_store (en_state e) !! source) as [entry|]; [|done].
  destruct (sv_expires_at_ms entry); by rewrite append_mret.
Qed.

Lemma agrees_rename source destination :
  source <> destination -> agrees now entry_ms (CmdRename source destination) eng.
Proof.
  intros Hne. unfold agrees, storage_command.
  pose proof (rename_run source destination (purged_engine now eng) Hne
                (purge_state_purges now (en_state eng))) as Hr.
  etrans; [|exact Hr].
  unfold Engine.rename. rewrite !bind_assoc, !purge_bind. cbn [en_state purged_engine Engine.with_state].
  by rewrite (purge_state_id now st) by apply purge_state_purges.
Qed.

Lemma agrees_rename_nx source destination :
  source <> destination -> agrees now entry_ms (CmdRenameNx source destination) eng.
Proof.
  intros Hne. unfold agrees, storage_command, Engine.rename_nx. run_engine.
  unfold mbind at 1, fallible_bind at 1, Prelude.mget. cbn [en_state Engine.with_state].
  destruct (EngineState.raw_contains_key st destination); [done|].
  change (EngineState.purge_expired (en_state eng) now).1 with st.
  rewrite (purge_state_id now st) by apply purge_state_purges.
  exact (rename_run source destination (purged_engine now eng) Hne
           (purge_state_purges now (en_state eng))).
Qed.

End agree.

(** The data commands whose two implementations coincide outright.  DEL with
    repeated keys, RENAME onto itself and the unswept MSET and CLEAR differ. *)
Definition one_path (c : Command) : bool :=
  match c with
  | CmdGet _ | CmdSet _ _ _ | CmdSetNx _ _ | CmdGetDel _ | CmdGetEx _ _ _ | CmdMGet _
  | CmdExists _ | CmdIncr _ | CmdDecr _ | CmdExpire _ _ | CmdTtl _ | CmdPersist _ | CmdDbSize
  | CmdCount => true
  | CmdRename s d | CmdRenameNx s d => bool_decide (s <> d)
  | _ => false
  end.

Lemma one_path_agrees now entry_ms c eng : one_path c = true -> agrees now entry_ms c eng.
Proof.
  destruct c; try discriminate; intros Hc; try (apply bool_decide_eq_true in Hc).
  - apply (agrees_reads _ _ _ key []).
  - apply agrees_set.
  - apply agrees_set_nx.
  - apply agrees_get_del.
  - apply agrees_get_ex.
  - apply (agrees_reads _ _ _ ""%string keys).
  - apply (agrees_reads _ _ _ key []).
  - apply agrees_incr_by.
  - apply agrees_incr_by.
  - apply agrees_expire.
  - apply (agrees_reads _ _ _ key []).
  - apply agrees_persist.
  - by apply agrees_rename.
  - by apply agrees_rename_nx.
  - apply (agrees_reads _ _ _ ""%string []).
  - apply (agrees_reads _ _ _ ""%string []).
Qed.

(** A one-command transaction and its reply. *)
Definition single_transaction (now entry_ms : Z) (c : Command) : M TransactionResult :=
  results ← Transaction.execute_transaction now entry_ms [c];
  match results with
  | [r] => mret r
  | _ => mpure unsupported_in_transaction
  end.

Lemma single_transaction_run now entry_ms c (eng : Engine W) :
  0 <= now < u64_max -> command_typed c ->
  single_transaction now entry_ms c eng =
    commit_outcome entry_ms (evaluate_transaction_command now c (en_state eng, []))
      (purged_engine now eng).
Proof.
  intros Hnow Hc. unfold single_transaction, Transaction.execute_transaction.
  rewrite bind_assoc, purge_bind, bind_assoc.
  unfold mbind at 1, fallible_bind at 1, Prelude.mget. cbn [en_state Engine.with_state evaluate_commands].
  assert (evaluate_transaction_command now c (purge_state now (en_state eng), []) =
          evaluate_transaction_command now c (en_state eng, [])) as Hev.
  { unfold evaluate_transaction_command. rewrite (eval_purge_purged now (purge_state _ _, _))
      by apply purge_state_purges. done. }
  unfold mbind at 2, fallible_bind at 2. rewrite Hev.
  destruct (evaluate_transaction_command now c (en_state eng, [])) as [[wk ops] [r|e]] eqn:E; [|by destruct ops].
  destruct ops as [|op ops]; cbn [mret fallible_ret app].
  - apply evaluate_replays in E as (new & Hn & Hrun & _ & Hm & _); [|done|done].
    assert (wk = purge_state now (en_state eng)) as ->; [|done].
    unfold purge_state. cbn in Hn, Hm. subst new. injection Hrun as Hrun.
    destruct wk, (EngineState.purge_expired (en_state eng) now).1. cbn in *. congruence.
  - cbn [commit_outcome]. unfold mbind, fallible_bind, mpure, Engine.append_and_apply, Prelude.mget,
      purged_engine. cbn. unfold mbind, fallible_bind.
    match goal with |- context [Engine.commit_entry ?e ?g] =>
      by destruct (Engine.commit_entry e g) as [? []] end.
Qed.

End storage.

(** * Cursor-based iteration

    A client that starts SCAN at cursor 0 and follows [next_cursor] until it is
    0 again sees every matching live key once, in order. *)

(** The keys a pattern selects. *)
Definition selected (pattern : option string) (keys : list string) : list string :=
  match pattern with
  | Some pattern => List.filter (wildcard_matches pattern) keys
  | None => keys
  end.

(** One page: it continues the selection at [cursor], and either ends it or
    hands over at a later cursor. *)
Lemma scan_page_spec keys pattern count cursor page :
  0 <= cursor -> scan_page keys cursor pattern count = page ->
  let sel := selected pattern keys in
  (sp_next_cursor page = 0 /\ sp_keys page = drop (Z.to_nat cursor) sel) \/
  (cursor < sp_next_cursor page <= Z.of_nat (length sel) /\
   sp_keys page = take (Z.to_nat (sp_next_cursor page - cursor)) (drop (Z.to_nat cursor) sel)).
Proof.
  intros Hc <-. cbv zeta. unfold scan_page. fold (selected pattern keys). cbv zeta.
  set (sel := selected pattern keys). set (limit := Z.max _ 1).
  destruct (Z.eqb_spec (Z.of_nat (length sel)) 0) as [E|E].
  { left. split; [done|]. destruct sel; [by rewrite drop_nil | done]. }
  destruct (Z.leb_spec (Z.of_nat (length sel)) cursor).
  { left. split; [done|]. cbn. by rewrite drop_ge by lia. }
  destruct (Z.leb_spec (Z.of_nat (length sel)) (Z.min (cursor + limit) (Z.of_nat (length sel)))) as [Hle|Hle].
  - left. split; [done|]. cbn. rewrite take_ge; [done|]. rewrite length_drop. lia.
  - right. split; [cbn; lia | done].
Qed.

Section scan.
Context {W : Type} `{WalWriter W} `{EntryChecksum}.
Notation M := (fallible (Engine W) EngineError).

(** A client that follows the cursors; [None] when it gave up after [fuel] pages. *)
Fixpoint scan_all (fuel : nat) (now : Z) (pattern : option string) (count : option Z)
    (cursor : Z) (acc : list string) : M (option (list string)) :=
  match fuel with
  | O => mret None
  | S fuel =>
      page ← Engine.scan now cursor pattern count;
      let acc := acc ++ sp_keys page in
      if sp_next_cursor page =? 0 then mret (Some acc)
      else scan_all fuel now pattern count (sp_next_cursor page) acc
  end.

(** The state after SCAN's sweep; it leaves the metadata alone. *)
Definition swept (now : Z) (eng : Engine W) : Engine W :=
  Engine.with_state eng (with_store (en_state eng) (live now (es_store (en_state eng)))).

Lemma scan_run now cursor pattern count (eng : Engine W) :
  Engine.scan now cursor pattern count eng =
    (swept now eng,
     Ok (scan_page (EngineStore.keys_sorted (live now (es_store (en_state eng)))) cursor
           pattern count)).
Proof.
  unfold Engine.scan. rewrite bind_read_state.
  unfold EngineState.live_keys, EngineStore.live_keys_sorted, swept.
  rewrite <- purge_expired_live. by destruct (EngineStore.purge_expired _ _).
Qed.

Lemma swept_swept now eng : swept now (swept now eng) = swept now eng.
Proof. unfold swept. cbn. by rewrite live_idemp. Qed.

Lemma scan_all_from fuel now pattern count cursor acc (eng : Engine W) :
  let sel := selected pattern (EngineStore.keys_sorted (live now (es_store (en_state eng)))) in
  0 <= cursor <= Z.of_nat (length sel) -> (length sel - Z.to_nat cursor < fuel)%nat ->
  scan_all fuel now pattern count cursor acc eng =
    (swept now eng, Ok (Some (acc ++ drop (Z.to_nat cursor) sel))).
Proof.
  cbv zeta. revert cursor acc eng. induction fuel as [|fuel IH]; intros cursor acc eng Hc Hf; [lia|].
  cbn [scan_all]. unfold mbind, fallible_bind. rewrite scan_run.
  set (page := scan_page _ _ _ _).
  destruct (scan_page_spec _ _ _ cursor page ltac:(lia) eq_refl) as [[Hn Hk]|[Hn Hk]]; rewrite Hk.
  - rewrite Hn. done.
  - destruct (Z.eqb_spec (sp_next_cursor page) 0); [lia|].
    rewrite IH; cbn [swept en_state Engine.with_state es_store with_store]; rewrite live_idemp; [|lia..].
    rewrite swept_swept, <- app_assoc. do 4 f_equal.
    set (d := drop (Z.to_nat cursor) _).
    replace (Z.to_nat (sp_next_cursor page)) with
      (Z.to_nat cursor + Z.to_nat (sp_next_cursor page - cursor))%nat by lia.
    rewrite <- drop_drop. apply take_drop.
Qed.

End scan.
