(* ===== verification/Backup.v ===== *)
(** * Backup: logical dumps (crates/engine/src/engine/core.rs, traits.rs)

    BACKUP writes the live keyspace as one JSON document, RESTORE replaces the
    keyspace by a document's unexpired entries in one log entry.  JSON
    ([serde_json]) and base64 are the classes [BackupJson] and [Base64]. *)

From S2P Require Import Prelude Text EngineError Store State Wildcard Engine Transaction TxFacts.
From S2P Require Import Command StorageFacts.

Record LogicalBackupEntry := mkLogicalBackupEntry {
  be_key : string;
  be_value_base64 : string;
  be_expires_at_ms : option Z;
  be_version : Z;
}.

Record LogicalBackup := mkLogicalBackup {
  lb_version : Z;
  lb_created_at_ms : Z;
  lb_source_engine_version : Z;
  lb_source_sequence : Z;
  lb_entries : list LogicalBackupEntry;
}.

Record LegacyLogicalBackupEntry := mkLegacyLogicalBackupEntry {
  lbe_key : string;
  lbe_value : string;
  lbe_expires_at_ms : option Z;
}.

Record LegacyLogicalBackup := mkLegacyLogicalBackup {
  llb_created_at_ms : Z;
  llb_source_engine_version : Z;
  llb_source_sequence : Z;
  llb_entries : list LegacyLogicalBackupEntry;
}.

(** The standard base64 alphabet with padding. *)
Class Base64 := {
  base64_encode : list byte -> string;
  base64_decode : list byte -> result string (list byte);
  base64_decode_encode bs : base64_decode (as_bytes (base64_encode bs)) = Ok bs;
}.

(** [serde_json] on the three document types; a written document is read back,
    and its header carries its version. *)
Class BackupJson := {
  backup_to_string : LogicalBackup -> result string string;
  header_from_str : string -> result string Z;
  backup_from_str : string -> result string LogicalBackup;
  legacy_from_str : string -> result string LegacyLogicalBackup;
  header_of_backup b s : backup_to_string b = Ok s -> header_from_str s = Ok (lb_version b);
  backup_from_to b s : backup_to_string b = Ok s -> backup_from_str s = Ok b;
}.

Section backup.
Context `{Base64} `{BackupJson} {W : Type} `{WalWriter W} `{EntryChecksum}.

Notation M := (fallible (Engine W) EngineError).

(** [to_entries().into_iter()]: a [BTreeMap] iterates in key order. *)
Definition sorted_entries (s : EngineStore) : list (string * StoredValue) :=
  merge_sort EngineStore.key_le (map_to_list (EngineStore.to_entries s)).

Definition backup_entry (kv : string * StoredValue) : LogicalBackupEntry :=
  mkLogicalBackupEntry kv.1 (base64_encode (sv_value kv.2)) (sv_expires_at_ms kv.2)
    (sv_version kv.2).

Definition make_backup (now_ms : Z) (st : EngineState) : LogicalBackup :=
  mkLogicalBackup 2 now_ms (md_version (es_metadata st)) (md_last_applied_sequence (es_metadata st))
    (backup_entry <$> sorted_entries (es_store st)).

Definition logical_backup (now_ms : Z) : M string :=
  _ ← Engine.purge now_ms;
  eng ← mget;
  mpure (map_err SnapshotSerialize (backup_to_string (make_backup now_ms (en_state eng)))).

Definition parse_logical_backup (dump : string) : result EngineError LogicalBackup :=
  version ← map_err SnapshotDeserialize (header_from_str dump);
  if version =? 2 then map_err SnapshotDeserialize (backup_from_str dump)
  else if version =? 1 then
    legacy ← map_err SnapshotDeserialize (legacy_from_str dump);
    Ok (mkLogicalBackup 2 (llb_created_at_ms legacy) (llb_source_engine_version legacy)
          (llb_source_sequence legacy)
          ((fun entry => mkLogicalBackupEntry (lbe_key entry)
              (base64_encode (as_bytes (lbe_value entry))) (lbe_expires_at_ms entry) 1)
             <$> llb_entries legacy))
  else Err (UnsupportedStorageFormat "logical backup").

(** [expires_at_ms <= now_ms]. *)
Definition entry_lapsed (now_ms : Z) (entry : LogicalBackupEntry) : bool :=
  match be_expires_at_ms entry with
  | Some expires_at_ms => expires_at_ms <=? now_ms
  | None => false
  end.

(** One iteration of the loop of [restore_logical_backup]. *)
Definition restore_step (now_ms : Z) (acc : list WalOperation * Z) (entry : LogicalBackupEntry)
    : result EngineError (list WalOperation * Z) :=
  let '(operations, restored) := acc in
  if entry_lapsed now_ms entry then Ok (operations, restored)
  else
    value ← map_err SnapshotDeserialize (base64_decode (as_bytes (be_value_base64 entry)));
    Ok (operations ++ [WalSet (be_key entry) value (Z.max (be_version entry) 1)] ++
        match be_expires_at_ms entry with
        | Some expires_at_ms => [WalExpire (be_key entry) expires_at_ms]
        | None => []
        end, restored + 1).

Definition restore_logical_backup (now_ms entry_ms : Z) (dump : string) : M Z :=
  backup ← mpure (parse_logical_backup dump);
  '(operations, restored) ← mpure (foldM (restore_step now_ms) ([WalClear], 0) (lb_entries backup));
  _ ← Engine.append_and_apply entry_ms operations;
  mret restored.

Definition validate_logical_backup (now_ms : Z) (dump : string) : M Z :=
  backup ← mpure (parse_logical_backup dump);
  mret (Z.of_nat (length (List.filter
    (fun entry => match be_expires_at_ms entry with
                  | Some expires_at_ms => now_ms <? expires_at_ms
                  | None => true
                  end) (lb_entries backup)))).

(** ** Restoring a backup *)

(** What the restored keyspace holds for an entry. *)
Definition restored_value (e : StoredValue) : StoredValue :=
  mkStoredValue (sv_value e) (sv_expires_at_ms e) (Z.max (sv_version e) 1).

(** Versions of stored values start at 1, so nothing is lost. *)
Lemma restored_live now s :
  map_Forall (fun _ e => 1 <= sv_version e) s -> restored_value <$> live now s = live now s.
Proof.
  intros Hver. rewrite <- (map_fmap_id (live now s)) at 2. apply map_fmap_ext. intros k e Hk.
  rewrite lookup_live in Hk. destruct (s !! k) as [e'|] eqn:Ek; [|done]. cbn in Hk.
  destruct (EngineStore.is_expired now e'); [done|]. injection Hk as <-.
  specialize (Hver k e' Ek). destruct e'. unfold restored_value. cbn in *. by rewrite Z.max_l.
Qed.

Lemma parse_made_backup now_ms st dump :
  backup_to_string (make_backup now_ms st) = Ok dump ->
  parse_logical_backup dump = Ok (make_backup now_ms st).
Proof.
  intros Hs. unfold parse_logical_backup. rewrite (header_of_backup _ _ Hs). cbn.
  by rewrite (backup_from_to _ _ Hs).
Qed.

Lemma restore_step_run now s m ops n k e :
  ops_run s ops = Ok m -> EngineStore.is_expired now e = false ->
  exists ops', restore_step now (ops, n) (backup_entry (k, e)) = Ok (ops', n + 1) /\
    ops_run s ops' = Ok (<[k := restored_value e]> m).
Proof.
  intros Hrun He. unfold restore_step, entry_lapsed. cbn.
  unfold EngineStore.is_expired in He. rewrite base64_decode_encode. cbn.
  destruct e as [v [t|] ver]; cbn in *; rewrite ?He; eexists; (split; [done|]);
    unfold ops_run; rewrite foldM_app; fold (ops_run s ops); rewrite Hrun; cbn; [|done].
  by rewrite alter_insert_eq.
Qed.

Definition unexpired (now : Z) (es : list (string * StoredValue)) : list (string * StoredValue) :=
  List.filter (fun kv => negb (EngineStore.is_expired now kv.2)) es.

Lemma restore_loop now s es m ops n :
  ops_run s ops = Ok m ->
  exists ops', foldM (restore_step now) (ops, n) (backup_entry <$> es) =
      Ok (ops', n + Z.of_nat (length (unexpired now es))) /\
    ops_run s ops' =
      Ok (foldl (fun m kv => <[kv.1 := restored_value kv.2]> m) m
            (unexpired now es)).
Proof.
  revert m ops n. induction es as [|[k e] es IH]; intros m ops n Hrun; cbn [fmap list_fmap foldM].
  { exists ops. by rewrite Z.add_0_r. }
  cbn [unexpired List.filter snd]. destruct (EngineStore.is_expired now e) eqn:E; cbn [negb].
  - assert (restore_step now (ops, n) (backup_entry (k, e)) = Ok (ops, n)) as ->.
    { unfold restore_step, entry_lapsed. cbn. unfold EngineStore.is_expired in E. by rewrite E. }
    cbn. by apply IH.
  - destruct (restore_step_run now s m ops n k e Hrun E) as (ops1 & -> & Hrun1). cbn.
    destruct (IH _ _ (n + 1) Hrun1) as (ops' & Hf & Hrun'). exists ops'. split; [|done].
    cbn in Hf. rewrite Hf. f_equal. f_equal. unfold unexpired. cbn [length]. lia.
Qed.

Lemma foldl_insert_map (es : list (string * StoredValue)) (m : EngineStore) :
  NoDup es.*1 ->
  foldl (fun m kv => <[kv.1 := restored_value kv.2]> m) m es =
    (restored_value <$> (list_to_map es : EngineStore)) ∪ m.
Proof.
  revert m. induction es as [|[k e] es IH]; intros m; cbn.
  { by rewrite fmap_empty, (left_id_L ∅ (∪)). }
  intros [Hk Hnd]%NoDup_cons. rewrite IH by done. rewrite fmap_insert.
  rewrite <- insert_union_l, insert_union_r; [done|].
  rewrite lookup_fmap, not_elem_of_list_to_map_1; done.
Qed.

Lemma sorted_entries_NoDup s : NoDup (sorted_entries s).*1.
Proof.
  unfold sorted_entries. rewrite merge_sort_Permutation. apply NoDup_fst_map_to_list.
Qed.

Lemma unexpired_NoDup now s : NoDup (unexpired now (sorted_entries s)).*1.
Proof.
  eapply sublist_NoDup; [apply (sorted_entries_NoDup s)|]. apply fmap_sublist.
  induction (sorted_entries s) as [|kv l IH]; cbn; [constructor|]. destruct (negb _); by constructor.
Qed.

Lemma live_sorted_entries now s :
  list_to_map (unexpired now (sorted_entries s)) =
    live now s.
Proof.
  apply map_eq. intros k. rewrite lookup_live.
  pose proof (unexpired_NoDup now s) as Hnd.
  assert (forall e, (k, e) ∈ sorted_entries s <-> s !! k = Some e) as Hin.
  { intros e. unfold sorted_entries. rewrite merge_sort_Permutation. apply elem_of_map_to_list. }
  apply option_eq. intros e. rewrite <- elem_of_list_to_map by done.
  unfold unexpired. rewrite list_elem_of_In, filter_In, <- list_elem_of_In. cbn. rewrite Hin. split.
  - intros [-> He%negb_true_iff]. cbn. by rewrite He.
  - destruct (s !! k) as [e'|]; cbn; [|done]. destruct (EngineStore.is_expired now e') eqn:E; [done|].
    intros [= ->]. by rewrite E.
Qed.

Lemma restore_operations now s0 s :
  exists ops n, foldM (restore_step now) ([WalClear], 0) (backup_entry <$> sorted_entries s) =
      Ok (ops, n) /\ n = EngineStore.len (live now s) /\ ops_run s0 ops = Ok (restored_value <$> live now s).
Proof.
  destruct (restore_loop now s0 (sorted_entries s) ∅ [WalClear] 0) as (ops & Hf & Hrun); [done|].
  pose proof (unexpired_NoDup now s) as Hnd.
  exists ops. eexists. split; [exact Hf|]. split.
  - unfold EngineStore.len. rewrite <- live_sorted_entries, <- length_map_to_list.
    rewrite map_to_list_to_map by done. lia.
  - rewrite Hrun, foldl_insert_map, live_sorted_entries, (right_id_L ∅ (∪)); done.
Qed.

End backup.
