(* ===== verification/Replication.v ===== *)
(** * Replication: shipping WAL entries (crates/engine/src/engine/core.rs)

    What a leader serves from its cached log, how a follower applies it, and how
    a diverged suffix is replaced.  The parts that touch the disk are in
    [DiskEngine.v]. *)

From S2P Require Import Prelude Text Command EngineError Store State Wildcard Engine.

Definition sequence_gap (expected got : Z) : EngineError :=
  InvalidStorageOperation ("replication WAL sequence gap: expected " +:+ int_to_string expected +:+
                           ", got " +:+ int_to_string got).

(** The staging loop of [apply_replication_entries]. *)
Fixpoint stage_entries (staged : EngineState) (last_applied : Z) (entries : list WalEntry)
    : result EngineError (EngineState * Z) :=
  match entries with
  | [] => Ok (staged, last_applied)
  | entry :: entries =>
      let expected := saturating_add last_applied 1 in
      if negb (we_sequence entry =? expected) then
        Err (sequence_gap expected (we_sequence entry))
      else
        match apply_entry staged entry with
        | (_, Err e) => Err e
        | (staged, Ok _) => stage_entries staged (we_sequence entry) entries
        end
  end.

Section replication.
Context {W : Type} `{WalWriter W} `{EntryChecksum}.

Notation M := (fallible (Engine W) EngineError).

Definition apply_replication_entries (entries : list WalEntry) : M Z :=
  eng ← mget;
  '(staged, last_applied) ← mpure (stage_entries (en_state eng)
                                     (md_last_applied_sequence (es_metadata (en_state eng))) entries);
  identities ← mpure (build_wal_entry_identities entries);
  _ ← Engine.append_batch entries;
  _ ← Engine.modify_state (fun _ => staged);
  _ ← mmodify (fun eng => Engine.record_entries eng entries identities);
  mret last_applied.

(** ** Serving the log *)

Definition wal_entries_since_capped (eng : Engine W) (after_sequence : Z) (limit : nat)
    (max_sequence : option Z) : result EngineError (list WalEntry) :=
  entries ← foldM push_unique_wal_entry []
              (List.filter
                 (fun entry => (after_sequence <? we_sequence entry) &&
                    match max_sequence with
                    | Some max => we_sequence entry <=? max
                    | None => true
                    end) (en_wal_entries eng));
  Ok (if Nat.ltb 0 limit && Nat.ltb limit (length entries) then take limit entries else entries).

Definition wal_entries_since (eng : Engine W) (after_sequence : Z) (limit : nat)
    : result EngineError (list WalEntry) := wal_entries_since_capped eng after_sequence limit None.

Definition wal_entry_checksum (eng : Engine W) (sequence : Z) : option Z :=
  if sequence =? 0 then None else wi_checksum <$> en_wal_entry_identities eng !! sequence.

Definition wal_entry_term (eng : Engine W) (sequence : Z) : option Z :=
  if sequence =? 0 then None else wi_term <$> en_wal_entry_identities eng !! sequence.

End replication.

(** ** Replacing a diverged suffix *)

Section suffix.
Context `{EntryChecksum}.

Definition invalid (message : string) : EngineError := InvalidStorageOperation message.

(** An entry at or below the prefix must be the retained one. *)
Definition check_overlap (retained : list WalEntry) (entry : WalEntry) : result EngineError unit :=
  match List.find (fun candidate => we_sequence candidate =? we_sequence entry) retained with
  | None =>
      Err (invalid ("replication replacement overlap missing retained sequence " +:+
                    int_to_string (we_sequence entry)))
  | Some local_entry =>
      let mismatch := Err (invalid ("replication replacement overlap mismatch at sequence " +:+
                                    int_to_string (we_sequence entry))) in
      if negb (we_term local_entry =? we_term entry) then mismatch
      else
        c1 ← checksum local_entry;
        c2 ← checksum entry;
        if negb (c1 =? c2) then mismatch else Ok tt
  end.

(** One iteration of the loop that collects the replacement. *)
Definition replacement_step (retained : list WalEntry) (baseline_sequence prefix_sequence : Z)
    (replacement_entries : list WalEntry) (entry : WalEntry) : result EngineError (list WalEntry) :=
  if we_sequence entry <=? prefix_sequence then
    _ ← (if baseline_sequence <? we_sequence entry then check_overlap retained entry else Ok tt);
    Ok replacement_entries
  else push_unique_wal_entry replacement_entries entry.

Fixpoint check_replacement (prefix_sequence : Z) (idx : Z) (entries : list WalEntry)
    : result EngineError unit :=
  match entries with
  | [] => Ok tt
  | entry :: entries =>
      let expected := saturating_add (saturating_add prefix_sequence idx) 1 in
      if negb (we_sequence entry =? expected) then
        Err (invalid ("replication replacement gap: expected " +:+ int_to_string expected +:+
                      ", got " +:+ int_to_string (we_sequence entry)))
      else check_replacement prefix_sequence (idx + 1) entries
  end.

(** [replace_replication_suffix] up to the point where it touches the disk: the
    log to keep and the state it rebuilds. *)
Definition rebuild_suffix (snapshot_state : EngineState) (wal_entries : list WalEntry)
    (prefix_sequence : Z) (entries : list WalEntry)
    : result EngineError (list WalEntry * EngineState) :=
  let baseline_sequence := md_last_applied_sequence (es_metadata snapshot_state) in
  if prefix_sequence <? baseline_sequence then
    Err (invalid ("replication prefix " +:+ int_to_string prefix_sequence +:+
                  " is older than snapshot baseline " +:+ int_to_string baseline_sequence))
  else
    retained ← foldM push_unique_wal_entry []
                 (List.filter (fun entry => we_sequence entry <=? prefix_sequence) wal_entries);
    _ ← match last retained with
        | Some last_retained =>
            if negb (we_sequence last_retained =? prefix_sequence) then
              Err (invalid ("replication prefix gap: expected retained sequence " +:+
                            int_to_string prefix_sequence +:+ ", got " +:+
                            int_to_string (we_sequence last_retained)))
            else Ok tt
        | None =>
            if negb (prefix_sequence =? baseline_sequence) then
              Err (invalid ("replication prefix gap: expected baseline " +:+
                            int_to_string baseline_sequence +:+ ", got " +:+
                            int_to_string prefix_sequence))
            else Ok tt
        end;
    replacement ← foldM (replacement_step retained baseline_sequence prefix_sequence) [] entries;
    _ ← check_replacement prefix_sequence 0 replacement;
    let retained := retained ++ replacement in
    match apply_entries snapshot_state retained with
    | (_, Err e) => Err e
    | (rebuilt_state, Ok _) => Ok (retained, rebuilt_state)
    end.

End suffix.
