(* ===== verification/History.v ===== *)
(** * History: what the engine logs

    Every operation of the engine that succeeds is one sweep of expired entries
    followed by entries appended to the log and applied.  [step] collects the
    operations; [logged] is what they have in common. *)

From S2P Require Import Prelude Text Command EngineError Store State Wildcard Engine Transaction.
From S2P Require Import TxFacts BatchFacts StorageFacts.

(** * A keyspace and its replay

    The engine drops expired entries without logging that it did, so a keyspace
    rebuilt from the log may still hold them.  [tracks now s r] says that [r] is
    [s] with additional entries that have expired at [now]: clients cannot tell
    the two apart from [now] on.  Logged operations preserve it. *)

Definition tracks (now : Z) (s r : EngineStore) : Prop :=
  forall k, match s !! k with
            | Some e => r !! k = Some e
            | None => forall e, r !! k = Some e -> EngineStore.is_expired now e = true
            end.

Lemma tracks_refl now s : tracks now s s.
Proof. intros k. by destruct (s !! k). Qed.

(** Both give every later reader the same entries. *)
Lemma tracks_live now t s r : tracks now s r -> now <= t -> live t s = live t r.
Proof.
  intros Ht Hle. apply map_eq. intros k. rewrite !lookup_live. specialize (Ht k).
  destruct (s !! k) as [e|]; [by rewrite Ht|]. destruct (r !! k) as [e|]; [|done]. cbn.
  by rewrite (is_expired_mono now t) by auto.
Qed.

Lemma tracks_later now t s r : tracks now s r -> now <= t -> tracks t s r.
Proof.
  intros Ht Hle k. specialize (Ht k). destruct (s !! k); [done|].
  intros e He. eapply is_expired_mono; eauto.
Qed.

Lemma tracks_purge now t s r : tracks now s r -> now <= t -> tracks t (live t s) r.
Proof.
  intros Ht Hle k. rewrite lookup_live. specialize (Ht k). destruct (s !! k) as [e|]; cbn.
  - destruct (EngineStore.is_expired t e) eqn:E; [|done]. intros e' He'. congruence.
  - intros e He. eapply is_expired_mono; eauto.
Qed.

(** ** Operations *)

(** INCR and DECR log a relative change: it replays alike unless the key has
    lapsed here and is still there in the replay. *)
Definition counter_fresh (s r : EngineStore) (op : WalOperation) : Prop :=
  match op with
  | WalCheckInteger key _ => s !! key = None -> r !! key = None
  | _ => True
  end.

Fixpoint counters_fresh (s r : EngineStore) (ops : list WalOperation) : Prop :=
  match ops with
  | [] => True
  | op :: ops => counter_fresh s r op /\
      forall s' r', op_step s op = Ok s' -> op_step r op = Ok r' -> counters_fresh s' r' ops
  end.

Lemma tracks_insert now s r k e : tracks now s r -> tracks now (<[k := e]> s) (<[k := e]> r).
Proof.
  intros Ht j. destruct (decide (j = k)) as [->|Hne]; [by rewrite !lookup_insert_eq|].
  rewrite !lookup_insert_ne by done. apply Ht.
Qed.

Lemma tracks_delete now s r k : tracks now s r -> tracks now (delete k s) (delete k r).
Proof.
  intros Ht j. destruct (decide (j = k)) as [->|Hne]; [by rewrite !lookup_delete_eq|].
  rewrite !lookup_delete_ne by done. apply Ht.
Qed.

Lemma tracks_alter now s r k f :
  is_Some (s !! k) -> tracks now s r -> tracks now (alter f k s) (alter f k r).
Proof.
  intros [e He] Ht. pose proof (Ht k) as Hk. rewrite He in Hk.
  rewrite !alter_lookup_insert, He, Hk. by apply tracks_insert.
Qed.

Lemma op_step_tracks now s r op s' :
  tracks now s r -> op_grounded s op -> counter_fresh s r op -> op_step s op = Ok s' ->
  exists r', op_step r op = Ok r' /\ tracks now s' r'.
Proof.
  intros Ht Hg Hc. destruct op as [k v ver|k|k t|k| |k d]; cbn in *.
  - intros [= <-]. eexists. split; [done|]. by apply tracks_insert.
  - intros [= <-]. eexists. split; [done|]. by apply tracks_delete.
  - intros [= <-]. eexists. split; [done|]. by apply tracks_alter.
  - intros [= <-]. eexists. split; [done|]. by apply tracks_alter.
  - intros [= <-]. eexists. split; [done|]. apply tracks_refl.
  - assert (r !! k = s !! k) as ->.
    { specialize (Ht k). destruct (s !! k); [done | by apply Hc]. }
    intros (p & Hp & Hn)%result_bind_ok. rewrite Hp. cbn.
    apply result_bind_ok in Hn as (n & -> & Hn). injection Hn as <-. cbn.
    eexists. split; [done|]. by apply tracks_insert.
Qed.

Lemma ops_run_tracks now s r ops s' :
  tracks now s r -> grounded s ops -> counters_fresh s r ops -> ops_run s ops = Ok s' ->
  exists r', ops_run r ops = Ok r' /\ tracks now s' r'.
Proof.
  revert s r. induction ops as [|op ops IH]; intros s r Ht Hg Hc Hr; cbn in *.
  { injection Hr as <-. by exists r. }
  apply result_bind_ok in Hr as (s1 & Hs & Hr). destruct Hg as [Hg Hgs], Hc as [Hc Hcs].
  destruct (op_step_tracks now s r op s1) as (r1 & Hr1 & Ht1); [done..|].
  rewrite Hr1. cbn. apply (IH s1); auto.
Qed.

(** ** Entries *)

Definition log_ops (entries : list WalEntry) : list WalOperation :=
  mjoin (we_operations <$> entries).

Lemma ops_run_app s ops1 ops2 :
  ops_run s (ops1 ++ ops2) = s' ← ops_run s ops1; ops_run s' ops2.
Proof. apply foldM_app. Qed.

(** The metadata after replaying [entries]. *)
Definition stamped (m : EngineMetadata) (entries : list WalEntry) : EngineMetadata :=
  match last entries with
  | Some e => set_updated_at (set_last_applied m (we_sequence e)) (we_created_at_ms e)
  | None => m
  end.

Lemma stamped_cons m e entries :
  stamped (set_updated_at (set_last_applied m (we_sequence e)) (we_created_at_ms e)) entries =
    stamped m (e :: entries).
Proof.
  unfold stamped. rewrite last_cons. by destruct (last entries).
Qed.

(** Replaying entries is running all their operations. *)
Lemma apply_entries_run st entries :
  match ops_run (es_store st) (log_ops entries) with
  | Ok s => apply_entries st entries = (mkEngineState s (stamped (es_metadata st) entries), Ok tt)
  | Err e => exists st', apply_entries st entries = (st', Err e)
  end.
Proof.
  revert st. induction entries as [|e entries IH]; intros st; cbn.
  { by destruct st. }
  rewrite ops_run_app. pose proof (apply_entry_run st e) as Ha.
  destruct (ops_run (es_store st) (we_operations e)) as [s|err]; cbn.
  - rewrite Ha. specialize (IH (applied st e s)). cbn in IH. unfold log_ops in IH.
    destruct (ops_run s _); [|done]. by rewrite IH, stamped_cons.
  - destruct Ha as [st' ->]. by eexists.
Qed.

Lemma apply_entries_ok st entries st' :
  apply_entries st entries = (st', Ok tt) <->
  ops_run (es_store st) (log_ops entries) = Ok (es_store st') /\
  es_metadata st' = stamped (es_metadata st) entries.
Proof.
  pose proof (apply_entries_run st entries) as Ha. destruct (ops_run _ _) as [s|e].
  - rewrite Ha. split; [by intros [= <-]|]. intros [[= ->] Hm]. rewrite <- Hm. by destruct st'.
  - destruct Ha as [st1 ->]. naive_solver.
Qed.

(** ** Absolute operations replay idempotently *)

Definition is_counter (op : WalOperation) : bool :=
  match op with WalCheckInteger _ _ => true | _ => false end.

Definition counter_free (ops : list WalOperation) : bool :=
  forallb (fun op => negb (is_counter op)) ops.

Definition with_deadline (x : option Z) (e : StoredValue) : StoredValue :=
  mkStoredValue (sv_value e) x (sv_version e).

(** What an operation other than a counter does to the entry at [k]. *)
Definition act (k : string) (v : option StoredValue) (op : WalOperation) : option StoredValue :=
  match op with
  | WalSet k' value version => if decide (k = k') then Some (mkStoredValue value None version) else v
  | WalDelete k' => if decide (k = k') then None else v
  | WalExpire k' t => if decide (k = k') then with_deadline (Some t) <$> v else v
  | WalPersist k' => if decide (k = k') then with_deadline None <$> v else v
  | WalClear => None
  | WalCheckInteger _ _ => v
  end.

Lemma op_step_act s op :
  is_counter op = false ->
  exists s', op_step s op = Ok s' /\ forall k, s' !! k = act k (s !! k) op.
Proof.
  intros Hc. destruct op as [k' v ver|k'|k' t|k'| |k' d]; try done; cbn; eexists; (split; [done|]);
    intros k; try (by rewrite lookup_empty); case_decide as Hk; subst;
    rewrite ?lookup_insert_eq, ?lookup_delete_eq, ?lookup_alter_eq; try done;
    by rewrite ?lookup_insert_ne, ?lookup_delete_ne, ?lookup_alter_ne by done.
Qed.

Lemma ops_run_act s ops :
  counter_free ops = true ->
  exists s', ops_run s ops = Ok s' /\ forall k, s' !! k = foldl (act k) (s !! k) ops.
Proof.
  revert s. induction ops as [|op ops IH]; intros s Hc; cbn; [by exists s|].
  cbn in Hc. apply andb_prop in Hc as [Hop%negb_true_iff Hc].
  destruct (op_step_act s op Hop) as (s1 & -> & Hs1). cbn.
  destruct (IH s1 Hc) as (s' & Hr & Hs'). exists s'. split; [done|].
  intros k. by rewrite Hs', Hs1.
Qed.

(** On one key a sequence of operations overwrites, moves the deadline, or does
    nothing. *)
Lemma act_shape k ops :
  (exists c, forall v, foldl (act k) v ops = c) \/
  (exists x, forall v, foldl (act k) v ops = with_deadline x <$> v) \/
  (forall v, foldl (act k) v ops = v).
Proof.
  induction ops as [|op ops IH] using rev_ind; [by right; right|].
  setoid_rewrite foldl_snoc.
  destruct op as [k' value ver|k'|k' t|k'| |k' d]; cbn; try case_decide; eauto.
  - destruct IH as [[c IH]|[[x IH]|IH]]; [left|right; left..].
    + exists (with_deadline (Some t) <$> c). intros v. by rewrite IH.
    + exists (Some t). intros v. rewrite IH. by destruct v.
    + exists (Some t). intros v. by rewrite IH.
  - destruct IH as [[c IH]|[[x IH]|IH]]; [left|right; left..].
    + exists (with_deadline None <$> c). intros v. by rewrite IH.
    + exists None. intros v. rewrite IH. by destruct v.
    + exists None. intros v. by rewrite IH.
Qed.

(** Replaying a log of absolute operations over (the unexpired part of) the
    keyspace it already produced changes nothing a client can see. *)
Lemma replay_again now x ops r s :
  counter_free ops = true -> ops_run x ops = Ok r -> tracks now s r ->
  exists r', ops_run s ops = Ok r' /\ tracks now s r'.
Proof.
  intros Hc Hx Ht. destruct (ops_run_act x ops Hc) as (r0 & Hr0 & Hlx). rewrite Hx in Hr0.
  injection Hr0 as <-. destruct (ops_run_act s ops Hc) as (r' & Hr' & Hls). exists r'.
  split; [done|]. intros k. specialize (Ht k). specialize (Hlx k). specialize (Hls k).
  destruct (act_shape k ops) as [[c Hsh]|[[d Hsh]|Hsh]]; rewrite Hsh in Hlx, Hls.
  - destruct (s !! k); [by rewrite Hls, <- Hlx|]. rewrite Hls, <- Hlx. done.
  - destruct (s !! k) as [e|]; [|rewrite Hls; done]. rewrite Hls. cbn. rewrite Hlx in Ht.
    destruct (x !! k); [|done]. cbn in Ht. by injection Ht as <-.
  - rewrite Hls. by destruct (s !! k).
Qed.

(** ** Counters on keys that have not lapsed *)

Definition counter_keys (ops : list WalOperation) : list string :=
  omap (fun op => match op with WalCheckInteger k _ => Some k | _ => None end) ops.

Lemma op_step_agree s r op s' r' k :
  s !! k = r !! k -> op_step s op = Ok s' -> op_step r op = Ok r' -> s' !! k = r' !! k.
Proof.
  destruct op as [k' v ver|k'|k' t|k'| |k' d]; cbn; intros Hk Hs Hr; inv_ok; try done;
    destruct (decide (k = k')) as [->|Hne]; rewrite ?lookup_insert_eq, ?lookup_delete_eq,
      ?lookup_alter_eq, ?lookup_insert_ne, ?lookup_delete_ne, ?lookup_alter_ne by done;
    rewrite ?Hk; congruence.
Qed.

Lemma counters_fresh_agree s r ops :
  (forall k, k ∈ counter_keys ops -> s !! k = r !! k) -> counters_fresh s r ops.
Proof.
  revert s r. induction ops as [|op ops IH]; intros s r Hk; [done|]. cbn. split.
  - destruct op as [| | | | |k d]; try done. cbn. intros Hn. rewrite <- Hk; [done|]. cbn. left.
  - intros s' r' Hs Hr. apply IH. intros k Hin. eapply op_step_agree; [|done|done].
    apply Hk. destruct op; cbn; try done. by right.
Qed.

Lemma counter_free_keys ops : counter_free ops = true -> counter_keys ops = [].
Proof.
  induction ops as [|op ops IH]; [done|]. cbn. intros [Hop Hc]%andb_prop.
  destruct op; try done; by apply IH.
Qed.

(** * What the engine logs *)

Section history.
Context {W : Type} `{WalWriter W} `{EntryChecksum}.

Notation last_sequence st := (md_last_applied_sequence (es_metadata st)).

(** [st0] is [st], possibly swept at [now]. *)
Definition swept_state (now : Z) (st st0 : EngineState) : Prop :=
  (es_store st0 = es_store st \/ es_store st0 = live now (es_store st)) /\
  last_sequence st0 = last_sequence st.

Record logged (now : Z) (eng eng' : Engine W) (st0 : EngineState) (entries : list WalEntry)
    : Prop := {
  lg_swept : swept_state now (en_state eng) st0;
  lg_applied : apply_entries st0 entries = (en_state eng', Ok tt);
  lg_grounded : grounded (es_store st0) (log_ops entries);
  lg_cache : en_wal_entries eng' = en_wal_entries eng ++ entries;
  lg_writer : appended eng eng' entries;
  lg_sequences :
    we_sequence <$> entries =
      seqZ (last_sequence (en_state eng) + 1) (Z.of_nat (length entries));
}.

Lemma swept_refl now st : swept_state now st st.
Proof. by split; [left|]. Qed.

Lemma swept_purge now st : swept_state now st (purge_state now st).
Proof. split; [right; apply purge_state_store | apply purge_state_sequence]. Qed.

Lemma live_entries_swept now st : swept_state now st (EngineState.live_entries st now).1.
Proof.
  unfold swept_state, EngineState.live_entries, EngineStore.live_entries_sorted.
  rewrite <- purge_expired_live. destruct (EngineStore.purge_expired _ _). split; [by right|done].
Qed.

(** An operation that logs nothing. *)
Lemma logged_nothing now (eng eng' : Engine W) :
  swept_state now (en_state eng) (en_state eng') -> same_log eng eng' ->
  en_wal_writer eng' = en_wal_writer eng -> logged now eng eng' (en_state eng') [].
Proof.
  intros Hs Hl Hw. split; try done; [|by apply appended_nothing]. destruct Hl. by rewrite app_nil_r.
Qed.

(** An operation that appends the operations [ops] after a sweep. *)
Lemma append_logged now entry_ms ops st0 s (eng eng' : Engine W) :
  swept_state now (en_state eng) st0 -> last_sequence (en_state eng) + 1 <= u64_max ->
  0 <= last_sequence (en_state eng) ->
  ops_run (es_store st0) ops = Ok s -> grounded (es_store st0) ops ->
  Engine.append_and_apply entry_ms ops (Engine.with_state eng st0) = (eng', Ok tt) ->
  exists entry, we_operations entry = ops /\ logged now eng eng' st0 [entry].
Proof.
  intros Hsw Hb H0' Hrun Hg Ha. cbn in Ha.
  set (entry := Engine.next_entry (Engine.with_state eng st0) entry_ms ops) in *.
  destruct (commit_entry_spec (Engine.with_state eng st0) entry s _ _ Hrun Ha) as (Hst & Hlog & Hw).
  exists entry. split; [done|]. split; try done.
  - apply apply_entries_ok. rewrite Hst. cbn. rewrite app_nil_r. done.
  - cbn. by rewrite app_nil_r.
  - cbn. destruct Hsw as [_ ->]. rewrite seqZ_cons, seqZ_nil by lia. f_equal.
    unfold wrapping_add. rewrite Z.mod_small; [done|]. unfold_widths. lia.
Qed.

(** ** Transactions and batches *)

Section bounded.
Context (now : Z) (Hnow : 0 <= now < u64_max).

Lemma transaction_logged entry_ms cs rs (eng eng' : Engine W) :
  Forall command_typed cs -> 0 <= last_sequence (en_state eng) < u64_max ->
  Transaction.execute_transaction now entry_ms cs eng = (eng', Ok rs) ->
  exists st0 entries, logged now eng eng' st0 entries.
Proof.
  intros Hcs Hseq Hx.
  destruct (execute_transaction_spec _ _ _ _ _ _ Hnow Hcs Hx) as (working & ops & Hev & Hst & Hc).
  apply evaluate_commands_replays in Hev as (new & Hn & Hrun & Hg & _); [|done|done|apply purge_state_purges].
  cbn in Hn, Hrun, Hg. subst new. exists (purge_state now (en_state eng)).
  destruct ops as [|op ops].
  - destruct Hc as (Hs & Hc & [Hw _]). exists []. rewrite <- Hs. apply logged_nothing; [|done|done].
    rewrite Hs. apply swept_purge.
  - destruct Hc as (entry & Hops & Hes & Ha & Hc & Hw). exists [entry].
    split; try done.
    + apply swept_purge.
    + cbn. by rewrite Ha.
    + cbn. by rewrite Hops, app_nil_r.
    + cbn. rewrite Hes, purge_state_sequence, seqZ_cons, seqZ_nil by lia. f_equal.
      unfold wrapping_add. rewrite Z.mod_small; [done|]. unfold_widths. lia.
Qed.

Lemma batch_logged cs rs (eng eng' : Engine W) :
  Forall command_typed cs -> (forall e, is_ok (checksum e) = true) ->
  is_u64 (last_sequence (en_state eng)) ->
  is_u64 (last_sequence (en_state eng) + 1 + Z.of_nat (length cs)) ->
  Transaction.execute_command_batch now cs eng = (eng', Ok rs) ->
  exists st0 entries, logged now eng eng' st0 entries.
Proof.
  intros Hcs Hsum Hs1 Hs2 Hx.
  destruct (execute_command_batch_spec _ _ _ _ _ Hnow Hcs Hsum Hs1 Hs2 Hx)
    as (entries & working & Ha & Hseq & Hc & Hw & Hev & _).
  apply evaluate_commands_replays in Hev as (new & Hn & _ & Hg & _); [|done|done|apply purge_state_purges].
  cbn in Hn, Hg. subst new. exists (purge_state now (en_state eng)), entries.
  split; try done. apply swept_purge.
Qed.

(** ** The storage trait *)

Lemma outcome_logged entry_ms c r (eng eng' : Engine W) :
  command_typed c -> 0 <= last_sequence (en_state eng) < u64_max ->
  commit_outcome entry_ms (evaluate_transaction_command now c (en_state eng, []))
    (purged_engine now eng) = (eng', Ok r) ->
  exists st0 entries, logged now eng eng' st0 entries.
Proof.
  intros Hc Hseq. destruct (evaluate_transaction_command _ _ _) as [[st ops] [r'|e]] eqn:Ev.
  2:{ by destruct ops. }
  apply evaluate_replays in Ev as (new & Hn & Hrun & Hg & _); [|done|done].
  cbn in Hn, Hrun, Hg. subst new. destruct ops as [|op ops]; cbn [commit_outcome].
  - intros [= <- _]. eexists _, []. apply logged_nothing; [|done|done]. apply swept_purge.
  - intros (eng1 & [] & Ha & Hr)%fallible_bind_ok. injection Hr as <- _.
    destruct (append_logged now entry_ms (op :: ops) (purge_state now (en_state eng)) (es_store st) eng eng1)
      as (entry & _ & Hl); [apply swept_purge|lia|lia|done..|by eauto].
Qed.

(** Operations that replay on any keyspace. *)
Definition overwrites (op : WalOperation) : Prop :=
  match op with WalSet _ _ _ | WalDelete _ | WalClear => True | _ => False end.

Lemma sets_run s es :
  Forall overwrites es ->
  (exists s', ops_run s es = Ok s') /\ grounded s es.
Proof.
  intros Hf. revert s. induction Hf as [|op ops Hop _ IH]; intros s.
  { split; [by eexists | done]. }
  assert (exists s1, op_step s op = Ok s1) as [s1 Hs] by (destruct op; done || by eexists).
  destruct (IH s1) as [[s' Hr] Hg]. cbn. rewrite Hs. split; [by exists s'|].
  split; [by destruct op|]. by intros s2 [= <-].
Qed.

Lemma mset_operations_sets st m es :
  Forall overwrites (Engine.mset_operations st m es).
Proof. revert m. induction es as [|[k v] es IH]; intros m; cbn; constructor; [done|apply IH]. Qed.

Lemma with_state_id (eng : Engine W) : Engine.with_state eng (en_state eng) = eng.
Proof. by destruct eng. Qed.

Lemma mset_logged entry_ms es r (eng eng' : Engine W) :
  0 <= last_sequence (en_state eng) < u64_max ->
  Engine.mset entry_ms es eng = (eng', Ok r) -> exists st0 entries, logged now eng eng' st0 entries.
Proof.
  intros Hseq Ha. destruct r.
  destruct (sets_run (es_store (en_state eng)) _ (mset_operations_sets (en_state eng) ∅ es))
    as [[s Hrun] Hg].
  destruct (append_logged now entry_ms (Engine.mset_operations (en_state eng) ∅ es) (en_state eng) s eng eng')
    as (entry & _ & Hl); [apply swept_refl|lia|lia|done|done|by rewrite with_state_id|by eauto].
Qed.

Lemma clear_logged entry_ms r (eng eng' : Engine W) :
  0 <= last_sequence (en_state eng) < u64_max ->
  Engine.clear entry_ms eng = (eng', Ok r) -> exists st0 entries, logged now eng eng' st0 entries.
Proof.
  intros Hseq. destruct r. unfold Engine.clear, mbind, fallible_bind, Prelude.mget.
  destruct (EngineState.is_empty (en_state eng)).
  { intros [= <-]. eexists _, []. apply logged_nothing; [apply swept_refl|done|done]. }
  intros Ha. destruct (append_logged now entry_ms [WalClear] (en_state eng) ∅ eng eng')
    as (entry & _ & Hl); [apply swept_refl|lia|lia|done|done|by rewrite with_state_id|by eauto].
Qed.

Lemma delete_logged entry_ms keys n (eng eng' : Engine W) :
  0 <= last_sequence (en_state eng) < u64_max ->
  Engine.delete_many now entry_ms keys eng = (eng', Ok n) ->
  exists st0 entries, logged now eng eng' st0 entries.
Proof.
  intros Hseq. unfold Engine.delete_many. rewrite purge_bind.
  unfold mbind at 1, fallible_bind at 1, Prelude.mget. cbn [en_state Engine.with_state].
  destruct (_ =? 0).
  { intros [= <- _]. eexists _, []. apply logged_nothing; [|done|done]. apply swept_purge. }
  intros (eng1 & [] & Ha & Hr)%fallible_bind_ok. injection Hr as <- _.
  destruct (sets_run (es_store (purge_state now (en_state eng))) (WalDelete <$> keys)) as [[s Hrun] Hg].
  { apply Forall_fmap, Forall_true. done. }
  destruct (append_logged now entry_ms (WalDelete <$> keys) (purge_state now (en_state eng)) s eng eng1)
    as (entry & _ & Hl); [apply swept_purge|lia|lia|done..|by eauto].
Qed.

Lemma rename_logged entry_ms s d b (eng eng' : Engine W) :
  0 <= last_sequence (en_state eng) < u64_max ->
  Engine.rename now entry_ms s d eng = (eng', Ok b) ->
  exists st0 entries, logged now eng eng' st0 entries.
Proof.
  intros Hseq. unfold Engine.rename. rewrite purge_bind.
  unfold mbind at 1, fallible_bind at 1, Prelude.mget. cbn [en_state Engine.with_state].
  destruct (EngineState.raw_entry _ s) as [entry|].
  2:{ intros [= <- _]. eexists _, []. apply logged_nothing; [|done|done]. apply swept_purge. }
  set (ver := next_value_version _). set (ops := _ ++ _).
  intros (eng1 & [] & Ha & Hr)%fallible_bind_ok. injection Hr as <- _.
  assert ((exists s', ops_run (es_store (purge_state now (en_state eng))) ops = Ok s') /\
          grounded (es_store (purge_state now (en_state eng))) ops) as [[s' Hrun] Hg].
  { unfold ops. destruct (sv_expires_at_ms entry); cbn; (split; [by eexists|]); split_and?; try done.
    intros s1 [= <-]. split; [done|]. intros s2 [= <-]. split; [|done]. by rewrite lookup_insert_eq. }
  destruct (append_logged now entry_ms ops (purge_state now (en_state eng)) s' eng eng1)
    as (e & _ & Hl); [apply swept_purge|lia|lia|done..|by eauto].
Qed.

Lemma storage_logged entry_ms c r (eng eng' : Engine W) :
  command_typed c -> 0 <= last_sequence (en_state eng) < u64_max ->
  storage_command now entry_ms c eng = (eng', Ok r) ->
  exists st0 entries, logged now eng eng' st0 entries.
Proof.
  intros Hc Hseq. destruct (one_path c) eqn:Hp.
  { pose proof (one_path_agrees now entry_ms c eng Hp) as Ha. unfold agrees in Ha. rewrite Ha.
    by apply outcome_logged. }
  destruct c; try done; cbn [storage_command]; intros (eng1 & a & Ha & Hr)%fallible_bind_ok;
    injection Hr as <- _.
  - by eapply mset_logged.
  - by eapply delete_logged.
  - by eapply rename_logged.
  - unfold Engine.rename_nx in Ha. rewrite purge_bind in Ha.
    unfold mbind at 1, fallible_bind at 1, Prelude.mget in Ha. cbn [en_state Engine.with_state] in Ha.
    cbn in Hp. apply bool_decide_eq_false, dec_stable in Hp as ->.
    destruct (EngineState.raw_contains_key _ _) eqn:Ek.
    + injection Ha as <- _. eexists _, []. apply logged_nothing; [|done|done]. apply swept_purge.
    + unfold Engine.rename in Ha. rewrite purge_bind in Ha.
      unfold mbind at 1, fallible_bind at 1, Prelude.mget in Ha. cbn [en_state Engine.with_state] in Ha.
      rewrite (purge_state_id now (purge_state now (en_state eng))) in Ha by apply purge_state_purges.
      unfold EngineState.raw_contains_key, EngineStore.contains_key in Ek.
      unfold EngineState.raw_entry, EngineStore.get in Ha.
      destruct (es_store (purge_state now (en_state eng)) !! destination); [done|].
      injection Ha as <- _. eexists _, []. apply logged_nothing; [|done|done]. apply swept_purge.
  - rewrite scan_run in Ha. injection Ha as <- _. eexists _, [].
    apply logged_nothing; [|done|done]. split; [by right|done].
  - unfold Engine.list in Ha. rewrite read_state_run in Ha. injection Ha as <- _. eexists _, [].
    apply logged_nothing; [apply live_entries_swept|done|done].
  - by eapply clear_logged.
Qed.

End bounded.

(** ** Steps of the engine *)

Inductive step (now : Z) (eng eng' : Engine W) : Prop :=
| StepTransaction entry_ms cs results :
    Forall command_typed cs ->
    Transaction.execute_transaction now entry_ms cs eng = (eng', Ok results) -> step now eng eng'
| StepRejected entry_ms cs error :
    Forall command_typed cs ->
    Transaction.execute_transaction now entry_ms cs eng = (eng', Err error) ->
    en_wal_writer eng' = en_wal_writer eng -> step now eng eng'
| StepBatch cs results :
    Forall command_typed cs ->
    last_sequence (en_state eng) + 1 + Z.of_nat (length cs) <= u64_max ->
    Transaction.execute_command_batch now cs eng = (eng', Ok results) -> step now eng eng'
| StepCommand entry_ms c reply :
    command_typed c ->
    storage_command now entry_ms c eng = (eng', Ok reply) -> step now eng eng'
| StepNoop entry_ms :
    Engine.append_noop entry_ms eng = (eng', Ok tt) -> step now eng eng'
| StepSweep removed :
    Engine.sweep_expired now eng = (eng', Ok removed) -> step now eng eng'
| StepTerm term :
    Engine.set_consensus_term term eng = (eng', Ok tt) -> step now eng eng'.

Lemma step_logged now (eng eng' : Engine W) :
  0 <= now < u64_max -> 0 <= last_sequence (en_state eng) < u64_max ->
  (forall e, is_ok (checksum e) = true) -> step now eng eng' ->
  exists st0 entries, logged now eng eng' st0 entries.
Proof.
  intros Hnow Hseq Hsum. destruct 1 as [ms cs rs Hcs Hx|ms cs e Hcs Hx Hw|cs rs Hcs Hb Hx
    |ms c r Hc Hx|ms Hx|n Hx|term Hx].
  - by eapply transaction_logged.
  - destruct (execute_transaction_spec _ _ _ _ _ _ Hnow Hcs Hx) as [Hst Hc].
    eexists _, []. apply logged_nothing; [|done|done]. rewrite Hst. apply swept_purge.
  - eapply batch_logged; try done; unfold is_u64; lia.
  - by eapply storage_logged.
  - destruct (append_logged now ms [] (en_state eng) (es_store (en_state eng)) eng eng')
      as (entry & _ & Hl); [apply swept_refl|lia|lia|done|done|by rewrite with_state_id|by eauto].
  - unfold Engine.sweep_expired in Hx. rewrite purge_run in Hx. injection Hx as <- _.
    eexists _, []. apply logged_nothing; [|done|done]. apply swept_purge.
  - injection Hx as <-. eexists _, []. apply logged_nothing; [|done|done]. apply swept_refl.
Qed.

(** ** Replaying the log *)

(** Replaying [log] on [base] gives the keyspace of [st], up to entries that have
    expired at [now]. *)
Definition rebuilds (base : EngineState) (log : list WalEntry) (now : Z) (st : EngineState) : Prop :=
  exists r, apply_entries base log = (r, Ok tt) /\ tracks now (es_store st) (es_store r) /\
    last_sequence r = last_sequence st.

(** No counter among [entries] has lapsed in [st0] while the replay keeps it. *)
Definition no_lapsed_counter (base : EngineState) (log : list WalEntry) (st0 : EngineState)
    (entries : list WalEntry) : Prop :=
  forall r k, apply_entries base log = (r, Ok tt) -> k ∈ counter_keys (log_ops entries) ->
    es_store st0 !! k = None -> es_store r !! k = None.

Lemma swept_tracks now now' st st0 r :
  swept_state now' st st0 -> now <= now' -> tracks now (es_store st) r ->
  tracks now' (es_store st0) r.
Proof.
  intros [[->| ->] _] Hle Ht; [by eapply tracks_later | by eapply tracks_purge].
Qed.

Lemma apply_entries_snoc base log entries r r' :
  apply_entries base log = (r, Ok tt) -> apply_entries r entries = (r', Ok tt) ->
  apply_entries base (log ++ entries) = (r', Ok tt).
Proof. intros H1 H2. by rewrite apply_entries_app, H1. Qed.

Lemma stamped_sequence m m' entries :
  md_last_applied_sequence m = md_last_applied_sequence m' ->
  md_last_applied_sequence (stamped m entries) = md_last_applied_sequence (stamped m' entries).
Proof. unfold stamped. by destruct (last entries). Qed.

Lemma logged_rebuilds base now now' (eng eng' : Engine W) st0 entries :
  rebuilds base (en_wal_entries eng) now (en_state eng) -> now <= now' ->
  logged now' eng eng' st0 entries ->
  no_lapsed_counter base (en_wal_entries eng) st0 entries ->
  rebuilds base (en_wal_entries eng') now' (en_state eng').
Proof.
  intros (r & Hr & Ht & Hs) Hle Hl Hc. pose proof (lg_swept _ _ _ _ _ Hl) as Hsw.
  pose proof (swept_tracks _ _ _ _ _ Hsw Hle Ht) as Ht0.
  pose proof (lg_applied _ _ _ _ _ Hl) as [Hrun Hm]%apply_entries_ok.
  destruct (ops_run_tracks now' (es_store st0) (es_store r) (log_ops entries) (es_store (en_state eng')))
    as (r' & Hr' & Ht'); [done|apply Hl| |done|].
  { apply counters_fresh_agree. intros k Hk. specialize (Ht0 k). specialize (Hc r k Hr Hk).
    destruct (es_store st0 !! k); [done|]. by rewrite Hc. }
  exists (mkEngineState r' (stamped (es_metadata r) entries)). rewrite (lg_cache _ _ _ _ _ Hl).
  split_and!; [|done|].
  - eapply apply_entries_snoc; [done|]. by apply apply_entries_ok.
  - cbn. rewrite Hm. apply stamped_sequence. destruct Hsw as [_ ->]. done.
Qed.

End history.

