(* ===== verification/ReplicaFacts.v ===== *)
(** * ReplicaFacts: leaders and followers agree

    A follower applies exactly the entries that continue its log, or nothing;
    what a leader serves is the tail of its log; a replaced suffix leaves the
    follower's own prefix followed by the leader's entries. *)

From S2P Require Import Prelude Text Command EngineError Store State Crypto Wal WalFacts.
From S2P Require Import WalLayout Engine Transaction TxFacts BatchFacts StorageFacts History.
From S2P Require Import Replication.

(** ** Applying shipped entries *)

Lemma stage_entries_ok st last entries st' last' :
  0 <= last -> last + Z.of_nat (length entries) <= u64_max ->
  stage_entries st last entries = Ok (st', last') <->
  contiguous (last + 1) entries /\ apply_entries st entries = (st', Ok tt) /\
  last' = last + Z.of_nat (length entries).
Proof.
  revert st last. induction entries as [|e entries IH]; intros st last H0' Hb; cbn.
  { unfold contiguous. rewrite Z.add_0_r. naive_solver. }
  cbn [length] in Hb. rewrite contiguous_cons.
  assert (saturating_add last 1 = last + 1) as -> by (unfold saturating_add; lia).
  destruct (Z.eqb_spec (we_sequence e) (last + 1)) as [->|Hne]; cbn [negb].
  2:{ split; [done|]. intros [[]]. done. }
  destruct (apply_entry st e) as [st1 [u|err]]; [|by split; [|intros (_ & ? & _)]].
  rewrite IH by lia. split.
  - intros (? & ? & ->). split_and!; [done|done|done|lia].
  - intros ([] & ? & ->). split_and!; [done|done|lia].
Qed.

Section replica.
Context {W : Type} `{WalWriter W} `{EntryChecksum}.

Notation last_sequence st := (md_last_applied_sequence (es_metadata st)).

(** The entries can be applied to the engine: they continue its sequence, replay, and
    have checksums to remember them by. *)
Definition applicable (eng : Engine W) (entries : list WalEntry) : Prop :=
  contiguous (last_sequence (en_state eng) + 1) entries /\
  (apply_entries (en_state eng) entries).2 = Ok tt /\
  is_ok (build_wal_entry_identities entries) = true.

(** Every outcome of [apply_replication_entries]. *)
Lemma apply_replication_entries_spec (eng eng' : Engine W) entries r :
  0 <= last_sequence (en_state eng) ->
  last_sequence (en_state eng) + Z.of_nat (length entries) <= u64_max ->
  apply_replication_entries entries eng = (eng', r) ->
  match r with
  | Ok last =>
      contiguous (last_sequence (en_state eng) + 1) entries /\
      apply_entries (en_state eng) entries = (en_state eng', Ok tt) /\
      last = last_sequence (en_state eng) + Z.of_nat (length entries) /\
      en_wal_entries eng' = en_wal_entries eng ++ entries /\
      wal_append_batch (en_wal_writer eng) entries = (en_wal_writer eng', Ok tt) /\
      remembered eng eng' entries
  | Err e =>
      en_state eng' = en_state eng /\ same_log eng eng' /\
      (~ applicable eng entries /\ eng' = eng \/
       applicable eng entries /\ wal_append_batch (en_wal_writer eng) entries = (en_wal_writer eng', Err e))
  end.
Proof.
  intros H0' Hb. unfold apply_replication_entries, mbind, fallible_bind, Prelude.mget, mpure.
  destruct (stage_entries _ _ _) as [[staged last]|e] eqn:Es.
  2: { intros [= <- <-]. split_and!; [done|done|]. left. split; [|done]. intros (Hc & Ha & _).
       destruct (apply_entries _ _) as [st [[]|]] eqn:E; [|done].
       rewrite (proj2 (stage_entries_ok _ _ entries st (last_sequence (en_state eng) + Z.of_nat (length entries))
                         H0' Hb)) in Es; [done|by split_and!]. }
  apply stage_entries_ok in Es as (Hc & Ha & ->); [|done|done].
  destruct (build_wal_entry_identities entries) as [ids|e] eqn:Ei.
  2: { intros [= <- <-]. split_and!; [done|done|]. left. split; [|done]. intros (_ & _ & Hi). by rewrite Ei in Hi. }
  assert (applicable eng entries) as Happ by (unfold applicable; by rewrite Ha, Ei).
  unfold Engine.append_batch.
  destruct (wal_append_batch _ _) as [w [[]|e]] eqn:Ew; intros [= <- <-]; split_and!; try done.
  - by exists ids.
  - by right.
Qed.

(** ** Serving the log *)

(** A strictly increasing list is pushed entry by entry. *)
Lemma push_increasing n acc es :
  contiguous n es -> (forall e, last acc = Some e -> we_sequence e < n) ->
  foldM push_unique_wal_entry acc es = Ok (acc ++ es).
Proof.
  revert n acc. induction es as [|e es IH]; intros n acc Hc Hl; [by rewrite app_nil_r|].
  apply contiguous_cons in Hc as [Hs Hc]. cbn.
  assert (push_unique_wal_entry acc e = Ok (acc ++ [e])) as ->.
  { unfold push_unique_wal_entry. destruct (last acc) as [l|] eqn:El; [|done].
    specialize (Hl l eq_refl). rewrite (proj2 (Z.ltb_ge _ _)), (proj2 (Z.eqb_neq _ _)) by lia. done. }
  cbn. rewrite (IH (n + 1)); [by rewrite <- app_assoc|done|].
  intros l. rewrite last_snoc. intros [= <-]. lia.
Qed.

Lemma contiguous_ge n es e : contiguous n es -> e ∈ es -> n <= we_sequence e.
Proof.
  intros Hc Hin. apply (list_elem_of_fmap_2 we_sequence) in Hin. rewrite Hc in Hin.
  apply elem_of_seqZ in Hin. lia.
Qed.

(** Filtering a contiguous log by sequence cuts it. *)
Lemma filter_after n es after :
  contiguous n es -> n <= after + 1 ->
  List.filter (fun e => after <? we_sequence e) es = drop (Z.to_nat (after + 1 - n)) es.
Proof.
  revert n. induction es as [|e es IH]; intros n Hc Hn; [by rewrite drop_nil|].
  destruct (decide (n = after + 1)) as [->|Hne].
  - rewrite Z.sub_diag. apply filter_all. intros x Hx%(contiguous_ge _ _ _ Hc). lia.
  - apply contiguous_cons in Hc as [Hs Hc]. cbn. rewrite (proj2 (Z.ltb_ge _ _)) by lia.
    rewrite (IH (n + 1)) by (done || lia).
    replace (Z.to_nat (after + 1 - n)) with (S (Z.to_nat (after + 1 - (n + 1)))) by lia. done.
Qed.

Lemma filter_upto n es upto :
  contiguous n es ->
  List.filter (fun e => we_sequence e <=? upto) es = take (Z.to_nat (upto + 1 - n)) es.
Proof.
  revert n. induction es as [|e es IH]; intros n Hc; [by rewrite take_nil|].
  destruct (decide (upto < n)) as [Hlt|Hge].
  - replace (Z.to_nat (upto + 1 - n)) with 0%nat by lia. apply filter_none.
    intros x Hx%(contiguous_ge _ _ _ Hc). lia.
  - apply contiguous_cons in Hc as [Hs Hc]. cbn. rewrite (proj2 (Z.leb_le _ _)) by lia.
    rewrite (IH (n + 1)) by done.
    replace (Z.to_nat (upto + 1 - n)) with (S (Z.to_nat (upto + 1 - (n + 1)))) by lia. done.
Qed.

Lemma contiguous_drop n es k :
  contiguous n es -> contiguous (n + Z.of_nat (Nat.min k (length es))) (drop k es).
Proof.
  intros Hc. rewrite <- (take_drop k es) in Hc. apply contiguous_app in Hc as [_ Hc].
  by rewrite length_take in Hc.
Qed.

Lemma contiguous_take n es k : contiguous n es -> contiguous n (take k es).
Proof. intros Hc. rewrite <- (take_drop k es) in Hc. by apply contiguous_app in Hc as [Hc _]. Qed.

Lemma take_upto n es upto :
  contiguous n es -> Forall (fun e => we_sequence e <= upto) (take (Z.to_nat (upto + 1 - n)) es).
Proof.
  intros Hc. rewrite <- (filter_upto n) by done. apply Forall_forall.
  intros e [_ He%Z.leb_le]%list_elem_of_In%filter_In. done.
Qed.

Lemma drop_upto n es upto :
  contiguous n es -> Forall (fun e => upto < we_sequence e) (drop (Z.to_nat (upto + 1 - n)) es).
Proof.
  intros Hc. set (k := Z.to_nat _). apply Forall_forall. intros e He.
  assert (k < length es)%nat.
  { apply list_elem_of_lookup_1 in He as [i Hi%lookup_lt_Some]. rewrite length_drop in Hi. lia. }
  pose proof (contiguous_ge _ _ _ (contiguous_drop n es k Hc) He). lia.
Qed.

(** A leader serves the part of its log after the follower's sequence. *)
Lemma wal_entries_since_ok (eng : Engine W) n after limit :
  contiguous n (en_wal_entries eng) -> n <= after + 1 ->
  wal_entries_since eng after limit =
    Ok (let rest := drop (Z.to_nat (after + 1 - n)) (en_wal_entries eng) in
        if Nat.ltb 0 limit then take limit rest else rest).
Proof.
  intros Hc Hn. unfold wal_entries_since, wal_entries_since_capped.
  rewrite (filter_ext _ (fun e => after <? we_sequence e)) by (intros e; apply andb_true_r).
  rewrite (filter_after n) by done.
  rewrite (push_increasing (n + Z.of_nat (Nat.min (Z.to_nat (after + 1 - n)) (length (en_wal_entries eng)))))
    by (done || by apply contiguous_drop).
  cbn [mbind result_bind app]. cbv zeta. set (rest := drop _ _).
  destruct (Nat.ltb_spec 0 limit); cbn [andb]; [|done].
  destruct (Nat.ltb_spec limit (length rest)); [done|]. by rewrite take_ge.
Qed.

End replica.

(** ** Replacing a suffix *)

Section suffix.
Context `{EntryChecksum}.

Lemma push_unique_cases acc e acc' :
  push_unique_wal_entry acc e = Ok acc' -> acc' = acc \/ acc' = acc ++ [e].
Proof.
  unfold push_unique_wal_entry. destruct (last acc) as [l|]; [|by intros [= <-]; right].
  destruct (_ <? _); [done|]. destruct (_ =? _); [|by intros [= <-]; right].
  destruct (negb _); [done|]. intros Hr. inv_ok. destruct (negb _); [done|].
  injection Hr as <-. by left.
Qed.

(** The replacement is made of shipped entries. *)
Lemma replacement_incl retained base prefix acc entries acc' :
  foldM (replacement_step retained base prefix) acc entries = Ok acc' ->
  (forall x, x ∈ acc' -> x ∈ acc \/ x ∈ entries) /\
  (length acc' <= length acc + length entries)%nat.
Proof.
  revert acc. induction entries as [|e entries IH]; intros acc; cbn.
  { intros [= <-]. split; [by left|lia]. }
  intros (acc1 & H1' & Hr)%result_bind_ok. destruct (IH _ Hr) as [Hin Hlen].
  assert (acc1 = acc \/ acc1 = acc ++ [e]) as [->| ->].
  { unfold replacement_step in H1'. destruct (_ <=? _); [inv_ok; by left|]. by apply push_unique_cases. }
  - split; [|lia]. intros x Hx. destruct (Hin x Hx); [by left|right; by right].
  - rewrite length_app in Hlen. cbn in Hlen. split; [|lia]. intros x Hx.
    destruct (Hin x Hx) as [[?|<-%list_elem_of_singleton]%elem_of_app|?];
      [by left|right; left|right; by right].
Qed.

(** The first entry of each run of entries of one sequence number, after an entry of
    number [previous]. *)
Fixpoint firsts (previous : option Z) (entries : list WalEntry) : list WalEntry :=
  match entries with
  | [] => []
  | e :: entries =>
      if bool_decide (previous = Some (we_sequence e)) then firsts previous entries
      else e :: firsts (Some (we_sequence e)) entries
  end.

(** Two entries that the engine takes for the same. *)
Definition repeats_entry (e e' : WalEntry) : Prop :=
  we_sequence e = we_sequence e' /\ we_term e = we_term e' /\ checksum e = checksum e'.

(** [new] is what the shipped entries put behind the prefix: all of those behind it, in
    their order, and once where an entry is repeated. *)
Definition replaces (prefix : Z) (entries new : list WalEntry) : Prop :=
  new = firsts None (List.filter (fun e => prefix <? we_sequence e) entries) /\
  forall x, x ∈ entries -> prefix < we_sequence x -> exists y, y ∈ new /\ repeats_entry x y.

Lemma push_unique_repeats acc e acc' :
  push_unique_wal_entry acc e = Ok acc' ->
  (exists l, last acc = Some l /\ acc' = acc /\ repeats_entry e l) \/
  we_sequence <$> last acc <> Some (we_sequence e) /\ acc' = acc ++ [e].
Proof.
  unfold push_unique_wal_entry. destruct (last acc) as [l|]; [|by intros [= <-]; right].
  destruct (Z.ltb_spec (we_sequence e) (we_sequence l)); [done|].
  destruct (Z.eqb_spec (we_sequence e) (we_sequence l)); [|intros [= <-]; right; cbn; split; congruence].
  destruct (Z.eqb_spec (we_term e) (we_term l)); [|done]. cbn [negb].
  intros (c1 & Hc1 & (c2 & Hc2 & Hr)%result_bind_ok)%result_bind_ok.
  destruct (Z.eqb_spec c1 c2) as [->|]; [|done]. injection Hr as <-. left. exists l.
  split_and!; [done..|]. unfold repeats_entry. split_and!; congruence.
Qed.

Lemma replacement_replaces retained base prefix acc entries acc' :
  foldM (replacement_step retained base prefix) acc entries = Ok acc' ->
  acc' = acc ++ firsts (we_sequence <$> last acc) (List.filter (fun e => prefix <? we_sequence e) entries) /\
  forall x, x ∈ entries -> prefix < we_sequence x -> exists y, y ∈ acc' /\ repeats_entry x y.
Proof.
  revert acc. induction entries as [|e entries IH]; intros acc; cbn.
  { intros [= <-]. rewrite app_nil_r. split; [done|]. by intros x ?%elem_of_nil. }
  intros (acc1 & H1' & Hr)%result_bind_ok. destruct (IH _ Hr) as [Heq Hin]. unfold replacement_step in H1'.
  destruct (Z.leb_spec (we_sequence e) prefix) as [Hle|Hlt].
  { apply result_bind_ok in H1' as (u & _ & [= <-]). rewrite (proj2 (Z.ltb_ge _ _)) by done. split; [done|].
    intros x [->|Hx]%elem_of_cons Hp; [lia|by apply Hin]. }
  rewrite (proj2 (Z.ltb_lt _ _)) by done. cbn [firsts].
  destruct (push_unique_repeats _ _ _ H1') as [(l & Hl & -> & Hsame)|[Hne ->]].
  - rewrite Hl in *. cbn in *. rewrite bool_decide_eq_true_2 by (f_equal; symmetry; apply Hsame).
    split; [done|]. intros x [->|Hx]%elem_of_cons Hp; [|by apply Hin]. exists l. split; [|done].
    rewrite Heq. apply elem_of_app. left. by apply last_Some_elem_of.
  - rewrite bool_decide_eq_false_2 by done. rewrite last_snoc, <- app_assoc in Heq. split; [done|].
    intros x [->|Hx]%elem_of_cons Hp; [|by apply Hin]. exists e. split; [|done].
    rewrite Heq. set_solver.
Qed.

Lemma check_replacement_ok prefix idx entries :
  0 <= prefix -> 0 <= idx -> prefix + idx + Z.of_nat (length entries) <= u64_max ->
  check_replacement prefix idx entries = Ok tt -> contiguous (prefix + idx + 1) entries.
Proof.
  revert idx. induction entries as [|e entries IH]; intros idx Hp Hi Hb; [done|]. cbn.
  cbn [length] in Hb.
  assert (saturating_add (saturating_add prefix idx) 1 = prefix + idx + 1) as ->
    by (unfold saturating_add; lia).
  destruct (Z.eqb_spec (we_sequence e) (prefix + idx + 1)); [|done]. cbn. intros Hc.
  apply contiguous_cons. split; [done|]. specialize (IH (idx + 1)).
  rewrite Z.add_assoc in IH. apply IH; (done || lia).
Qed.

Notation last_sequence st := (md_last_applied_sequence (es_metadata st)).

(** A successful replacement keeps the log up to the prefix and continues it
    with shipped entries; the kept part reaches the prefix, or the snapshot does. *)
Lemma rebuild_suffix_ok base log prefix entries retained st n :
  contiguous n log -> 0 <= prefix ->
  prefix + Z.of_nat (length entries) <= u64_max ->
  rebuild_suffix base log prefix entries = Ok (retained, st) ->
  let kept := take (Z.to_nat (prefix + 1 - n)) log in
  exists new, retained = kept ++ new /\ contiguous (prefix + 1) new /\
    (forall x, x ∈ new -> x ∈ entries) /\ (length new <= length entries)%nat /\
    apply_entries base retained = (st, Ok tt) /\ last_sequence base <= prefix /\
    (kept = [] /\ prefix = last_sequence base \/
     kept <> [] /\ n + Z.of_nat (length kept) = prefix + 1) /\ replaces prefix entries new.
Proof.
  intros Hc H0' Hb. unfold rebuild_suffix. cbv zeta.
  destruct (Z.ltb_spec prefix (last_sequence base)); [done|].
  rewrite (filter_upto n) by done. set (kept := take _ log).
  rewrite (push_increasing n) by (done || by apply contiguous_take). cbn [mbind result_bind app].
  intros (u & Hlast & Hr)%result_bind_ok.
  apply result_bind_ok in Hr as (new & Hnew & Hr). apply result_bind_ok in Hr as ([] & Hchk & Hr).
  destruct (apply_entries base (kept ++ new)) as [st' [[]|e]] eqn:Ha; [|done]. injection Hr as <- <-.
  destruct (replacement_incl _ _ _ _ _ _ Hnew) as [Hin Hlen]. cbn in Hlen.
  apply check_replacement_ok in Hchk; [|done|done|lia]. rewrite Z.add_0_r in Hchk.
  exists new. split_and!; try done.
  - intros x Hx. destruct (Hin x Hx) as [Hx'|]; [by apply elem_of_nil in Hx'|done].
  - destruct (last kept) as [l|] eqn:El.
    + right. split; [by intros E; rewrite E in El|].
      destruct (Z.eqb_spec (we_sequence l) prefix) as [Heq|]; [|done].
      rewrite (contiguous_last n kept l) in Heq; [lia|by apply contiguous_take|done].
    + left. split; [by apply last_None|]. by destruct (Z.eqb_spec prefix (last_sequence base)).
  - exact (replacement_replaces _ _ _ _ _ _ Hnew).
Qed.

End suffix.
