(* ===== verification/DiskLog.v ===== *)
(** * DiskLog: the disk log behind the engine

    The writer of [WalWriter.v] with the keyring the engine passes to it
    discharges the interface the engine's theorems are proved against. *)

From S2P Require Import Prelude Text EngineError Store State Crypto Wal WalFacts WalLayout Engine.

Record DiskLog := mkDiskLog {
  dl_writer : DiskWriter;
  dl_keyring : option StorageKeyring;
}.

Section disk_log.
Context `{Crc32} `{CryptoLib} `{Binary WalEntry} `{NonceSource}.

Definition disk_append_batch (l : DiskLog) (entries : list WalEntry)
    : DiskLog * result EngineError unit :=
  let '(w, r) := DiskWriter.handle_append_batch entries (dl_keyring l) (dl_writer l) in
  (mkDiskLog w (dl_keyring l), r).

(** The entries a restart would read. *)
Definition disk_durable (l : DiskLog) : list WalEntry :=
  match replay (dk_wal (dw_disk (dl_writer l))) (dl_keyring l) with
  | Ok replay => wr_entries replay
  | Err _ => []
  end.

(** The writer's directory is laid out and its handle is on the active file. *)
Record writer_ok (keyring : option StorageKeyring) (w : DiskWriter) (n : Z)
    (segs : list (list WalEntry * list byte)) (act : list WalEntry * list byte) : Prop := {
  wk_layout : wal_layout keyring (dk_wal (dw_disk w)) n segs act;
  wk_file : dw_file w = Some (active_segment_path (seg_end n segs));
  wk_path : sf_path (dw_active w) = active_segment_path (seg_end n segs);
  wk_start : sf_start_sequence (dw_active w) = seg_end n segs;
}.

Definition next_sequence (n : Z) (segs : list (list WalEntry * list byte))
    (act : list WalEntry * list byte) : Z := seg_end n segs + seg_len act.

Definition fits (keyring : option StorageKeyring) (entry : WalEntry) : Prop :=
  entry_fits keyring (nonce_for entry) entry.

(** The batch continues a laid-out log and each entry is one the reader takes. *)
Definition disk_accepts (l : DiskLog) (entries : list WalEntry) : Prop :=
  exists n segs act,
    writer_ok (dl_keyring l) (dl_writer l) n segs act /\ keyring_ok (dl_keyring l) /\
    contiguous (next_sequence n segs act) entries /\ Forall (fits (dl_keyring l)) entries /\
    next_sequence n segs act + Z.of_nat (length entries) <= u64_max.

Lemma write_all_ok path bs d d' :
  write_all path bs d = (d', Ok tt) ->
  dk_wal d' = alter (fun content => content ++ bs) path (dk_wal d).
Proof.
  unfold write_all. destruct (dk_space d); [|by intros [= <-]].
  destruct (_ <=? _); [by intros [= <-] | done].
Qed.

Lemma append_encoded_ok path keyring nonce entry d d' written :
  append_encoded_entry path keyring nonce entry d = (d', Ok written) ->
  exists bs, encode_frame keyring nonce entry = Ok bs /\
    dk_wal d' = alter (fun content => content ++ frame_bytes bs) path (dk_wal d).
Proof.
  unfold append_encoded_entry. intros Ha.
  apply fallible_bind_ok in Ha as (d0 & bs & Hf & Ha). injection Hf as <- Hf.
  apply fallible_bind_ok in Ha as (d1 & [] & H1'%write_all_ok & Ha).
  apply fallible_bind_ok in Ha as (d2 & [] & H2'%write_all_ok & Ha).
  apply fallible_bind_ok in Ha as (d3 & [] & H3'%write_all_ok & Ha). injection Ha as <- _.
  exists bs. split; [done|]. rewrite H3', H2', H1'.
  apply map_eq. intros k. unfold frame_bytes. destruct (decide (k = path)) as [->|Hne].
  - rewrite !lookup_alter_eq. destruct (dk_wal d !! path); [|done].
    cbn [fmap option_fmap option_map]. by rewrite !app_assoc.
  - by rewrite !lookup_alter_ne by done.
Qed.

(** What appending one entry did: the frame is behind the active file, which was
    sealed when it grew past the limit. *)
Lemma append_one_steps keyring entry w w' path :
  dw_file w = Some path -> DiskWriter.append_one keyring entry w = (w', Ok tt) ->
  exists bs, encode_frame keyring (nonce_for entry) entry = Ok bs /\
    let dir := alter (fun content => content ++ frame_bytes bs) path (dk_wal (dw_disk w)) in
    let next := saturating_add (we_sequence entry) 1 in
    (dk_wal (dw_disk w') = dir /\ dw_active w' = dw_active w /\ dw_file w' = Some path) \/
    (dk_wal (dw_disk w') =
       open_append
         (rename_file (sf_path (dw_active w))
            (sealed_segment_path (sf_start_sequence (dw_active w)) (we_sequence entry)) dir)
         (active_segment_path next) /\
     dw_active w' = mkSegmentFile (active_segment_path next) next None true /\
     dw_file w' = Some (active_segment_path next)).
Proof.
  intros Hf Ha. unfold DiskWriter.append_one in Ha.
  apply fallible_bind_ok in Ha as (w0 & path' & Hpath & Ha).
  unfold DiskWriter.file_mut in Hpath. rewrite Hf in Hpath. injection Hpath as <- <-.
  apply fallible_bind_ok in Ha as (w1 & written & Hw & Ha). unfold DiskWriter.on_disk in Hw.
  destruct (append_encoded_entry _ _ _ _ (dw_disk w)) as [d r] eqn:Ed. injection Hw as <- ->.
  apply append_encoded_ok in Ed as (bs & He & Hd). exists bs. split; [done|].
  apply fallible_bind_ok in Ha as (w2 & [] & Hm & Ha). injection Hm as <-.
  apply fallible_bind_ok in Ha as (w3 & w3' & Hg & Ha). injection Hg as <- <-.
  destruct ((_ <? _) && _); [right|left].
  - apply fallible_bind_ok in Ha as (w4 & p4 & Hp4 & Ha). unfold DiskWriter.file_mut in Hp4.
    cbn in Hp4. rewrite Hf in Hp4. injection Hp4 as <- <-.
    unfold DiskWriter.rotate_after in Ha. cbn in Ha. injection Ha as <-. cbn. by rewrite Hd.
  - injection Ha as <-. by cbn.
Qed.

Lemma append_one_ok keyring w w' n segs act entry :
  writer_ok keyring w n segs act -> keyring_ok keyring -> fits keyring entry ->
  we_sequence entry = next_sequence n segs act ->
  next_sequence n segs act + 1 <= u64_max ->
  DiskWriter.append_one keyring entry w = (w', Ok tt) ->
  exists segs' act', writer_ok keyring w' n segs' act' /\
    layout_log segs' act' = layout_log segs act ++ [entry] /\
    next_sequence n segs' act' = next_sequence n segs act + 1.
Proof.
  intros [Hl Hf Hp Hst] Hk (bs & He & Hlen) Hseq Hb Ha.
  destruct (append_one_steps _ _ _ _ _ Hf Ha) as (bs' & He' & Hcase). rewrite He in He'.
  injection He' as <-. cbv zeta in Hcase. set (dir := alter _ _ _) in *. unfold next_sequence in *.
  assert (wal_layout keyring dir n segs (act.1 ++ [entry], act.2 ++ frame_bytes bs)) as Hl'.
  { apply layout_append; [done| | |cbn; lia].
    - eapply reads_as_frame; [done|apply nonce_for_length|done|done].
    - apply contiguous_cons. by split. }
  assert (seg_len (act.1 ++ [entry], act.2 ++ frame_bytes bs) = seg_len act + 1) as Hsl
    by (unfold seg_len; cbn; rewrite length_app; cbn; lia).
  assert (saturating_add (we_sequence entry) 1 = we_sequence entry + 1) as Hsat
    by (rewrite Hseq; unfold saturating_add; lia).
  rewrite Hsat in Hcase. destruct Hcase as [(Hd & Ha' & Hf')|(Hd & Ha' & Hf')].
  - exists segs, (act.1 ++ [entry], act.2 ++ frame_bytes bs).
    split; [|split; [unfold layout_log; cbn; by rewrite app_assoc | lia]].
    split; [by rewrite Hd|done|by rewrite Ha'|by rewrite Ha'].
  - exists (segs ++ [(act.1 ++ [entry], act.2 ++ frame_bytes bs)]), ([], []).
    pose proof (layout_rotate keyring _ n segs _ (we_sequence entry) Hl') as Hrot.
    assert (seg_end n (segs ++ [(act.1 ++ [entry], act.2 ++ frame_bytes bs)]) =
              we_sequence entry + 1) as Hend by (rewrite seg_end_app; lia).
    rewrite Hp, Hst in Hd. split; [|split].
    + split; rewrite ?Hend, ?Ha', ?Hd; try done. apply Hrot; [by destruct act.1 | lia].
    + rewrite layout_log_seal. unfold layout_log. cbn. by rewrite app_assoc.
    + rewrite Hend. change (seg_len ([], [])) with 0. lia.
Qed.

Lemma append_many_ok keyring entries w w' n segs act :
  writer_ok keyring w n segs act -> keyring_ok keyring -> Forall (fits keyring) entries ->
  contiguous (next_sequence n segs act) entries ->
  next_sequence n segs act + Z.of_nat (length entries) <= u64_max ->
  mfor (DiskWriter.append_one keyring) entries w = (w', Ok tt) ->
  exists segs' act', writer_ok keyring w' n segs' act' /\
    layout_log segs' act' = layout_log segs act ++ entries.
Proof.
  intros Hw Hk Hfit. revert w segs act Hw.
  induction Hfit as [|entry entries Hf _ IH]; intros w segs act Hw Hc Hb Ha.
  { injection Ha as <-. exists segs, act. by rewrite app_nil_r. }
  apply contiguous_cons in Hc as [Hseq Hc]. cbn in Hb.
  apply fallible_bind_ok in Ha as (w1 & [] & H1' & Ha).
  destruct (append_one_ok keyring w w1 n segs act entry) as (segs1 & act1 & Hw1 & Hlog & Hn);
    [done|done|done|done|lia|done|].
  destruct (IH w1 segs1 act1 Hw1) as (segs2 & act2 & Hw2 & Hlog2);
    [by rewrite Hn | lia | done |].
  exists segs2, act2. split; [done|]. rewrite Hlog2, Hlog, <- app_assoc. done.
Qed.

Lemma writer_durable keyring w n segs act :
  writer_ok keyring w n segs act ->
  disk_durable (mkDiskLog w keyring) = layout_log segs act.
Proof.
  intros [Hl _ _ _]. unfold disk_durable. cbn.
  destruct (replay_layout keyring _ _ _ _ Hl) as [c ->]. done.
Qed.

Lemma disk_append_durable l es l' :
  disk_accepts l es -> disk_append_batch l es = (l', Ok tt) ->
  disk_durable l' = disk_durable l ++ es.
Proof.
  intros (n & segs & act & Hw & Hk & Hc & Hfit & Hb). destruct l as [w kr].
  unfold disk_append_batch. cbn [dl_writer dl_keyring] in *.
  destruct es as [|e es]; [intros [= <-]; by rewrite app_nil_r|].
  destruct (DiskWriter.handle_append_batch (e :: es) kr w) as [w1 r] eqn:Ea. intros [= <- ->].
  cbn in Ea. apply fallible_bind_ok in Ea as (w2 & [] & Ha & Hr).
  destruct (append_many_ok kr (e :: es) w w2 n segs act) as (segs' & act' & Hw' & Hlog); try done.
  apply fallible_bind_ok in Hr as (w3 & p & Hp & Hr). injection Hp as <- _. injection Hr as <-.
  by rewrite (writer_durable _ _ _ _ _ Hw'), (writer_durable _ _ _ _ _ Hw), Hlog.
Qed.

#[export] Instance disk_wal_writer : WalWriter DiskLog := {|
  wal_append_batch := disk_append_batch;
  wal_durable := disk_durable;
  wal_accepts := disk_accepts;
  wal_append_durable := disk_append_durable;
|}.

Lemma append_encoded_succeeds path keyring nonce entry d bs :
  dk_space d = None -> encode_frame keyring nonce entry = Ok bs ->
  exists d' written, append_encoded_entry path keyring nonce entry d = (d', Ok written) /\
    dk_space d' = None.
Proof.
  intros Hs He. destruct d as [wal snap man key leg space]. cbn in Hs. subst space.
  unfold append_encoded_entry, mbind, fallible_bind, mpure. rewrite He. by eexists _, _.
Qed.

(** On a disk that does not fill up, entries that can be encoded are appended. *)
Lemma append_one_succeeds keyring entry w path bs :
  dk_space (dw_disk w) = None -> dw_file w = Some path ->
  encode_frame keyring (nonce_for entry) entry = Ok bs ->
  exists w', DiskWriter.append_one keyring entry w = (w', Ok tt) /\
    dk_space (dw_disk w') = None /\ is_Some (dw_file w').
Proof.
  intros Hs Hf He. unfold DiskWriter.append_one, DiskWriter.file_mut, mbind, fallible_bind.
  rewrite Hf. cbn [ok_or]. unfold DiskWriter.on_disk.
  destruct (append_encoded_succeeds path keyring (nonce_for entry) entry (dw_disk w) bs Hs He)
    as (d' & written & -> & Hs'). cbn. rewrite Hf.
  destruct ((_ <? _) && _); eexists; by split_and!.
Qed.

Lemma append_batch_succeeds keyring entries w :
  dk_space (dw_disk w) = None -> is_Some (dw_file w) ->
  Forall (fun entry => is_ok (encode_frame keyring (nonce_for entry) entry) = true) entries ->
  exists w', DiskWriter.handle_append_batch entries keyring w = (w', Ok tt).
Proof.
  intros Hs Hf He.
  assert (exists w', mfor (DiskWriter.append_one keyring) entries w = (w', Ok tt) /\
            is_Some (dw_file w')) as (w' & Hm & [path Hp]).
  { revert w Hs Hf. induction He as [|entry entries Hok _ IH]; intros w Hs Hf; [by exists w|].
    destruct (encode_frame keyring (nonce_for entry) entry) as [bs|] eqn:Eb; [|done].
    destruct Hf as [path Hf]. destruct (append_one_succeeds _ _ _ _ _ Hs Hf Eb) as (w1 & Ha & Hs1 & Hf1).
    destruct (IH w1 Hs1 Hf1) as (w' & Hm & Hf'). exists w'. split; [|done].
    cbn. unfold mbind, fallible_bind. by rewrite Ha. }
  destruct entries as [|e es]; [by exists w|]. exists w'.
  unfold DiskWriter.handle_append_batch, DiskWriter.worker_step, DiskWriter.append_batch, mbind,
    fallible_bind. rewrite Hm. cbn. by rewrite Hp.
Qed.

(** A writer opened on an empty directory has an empty log. *)
Lemma open_fresh d sync max n keyring :
  is_u64 n -> dk_wal d = ∅ -> writer_ok keyring (DiskWriter.open d sync max n) n [] ([], []).
Proof.
  intros Hn Hd. unfold DiskWriter.open. rewrite Hd.
  change (active_segment_file ∅) with (@None SegmentFile). cbn. split; try done. cbn.
  unfold open_append. rewrite lookup_empty. by apply (layout_fresh keyring).
Qed.

(** Reopening a laid-out directory continues its log. *)
Lemma open_layout d sync max start n segs act keyring :
  wal_layout keyring (dk_wal d) n segs act ->
  writer_ok keyring (DiskWriter.open d sync max start) n segs act.
Proof.
  intros Hl. unfold DiskWriter.open. rewrite (active_segment_layout _ _ _ _ _ Hl).
  assert (dk_wal d !! active_segment_path (seg_end n segs) = Some act.2) as Hact.
  { eapply layout_lookup; [done|]. rewrite file_list_split. apply elem_of_app. right. left. }
  split; cbn; try done. unfold open_append. by rewrite Hact.
Qed.

End disk_log.
