(* ===== verification/Storage.v ===== *)
(** * Storage: snapshot, manifest and keyring files

    Models crates/engine/src/store/{durable,snapshot,serializer,manifest,keyring}.rs
    and the serialised forms of state.rs.  A file is replaced through a temporary
    file and a rename, so a write that fails leaves the old content; the temporary
    files are never read and are not modelled.  The [rmp_serde] encodings are
    [Binary] and [SnapshotCodec]; random bytes, fresh key ids and clock readings
    are arguments. *)

From S2P Require Import Prelude Text EngineError Store State Crypto Wal.

(** ** Replacing a file (durable.rs) *)

Definition put_snapshot (d : Disk) (bytes : list byte) : Disk :=
  mkDisk (dk_wal d) (Some bytes) (dk_manifest d) (dk_keyring d) (dk_legacy_wal d) (dk_space d).

Definition put_manifest (d : Disk) (bytes : list byte) : Disk :=
  mkDisk (dk_wal d) (dk_snapshot d) (Some bytes) (dk_keyring d) (dk_legacy_wal d) (dk_space d).

Definition put_keyring (d : Disk) (bytes : list byte) : Disk :=
  mkDisk (dk_wal d) (dk_snapshot d) (dk_manifest d) (Some bytes) (dk_legacy_wal d) (dk_space d).

(** [atomic_replace]: [put] is the rename into place. *)
Definition atomic_replace (put : Disk -> list byte -> Disk) (bytes : list byte) : disk unit :=
  fun d =>
    match dk_space d with
    | None => (put d bytes, Ok tt)
    | Some space =>
        let len := Z.of_nat (length bytes) in
        if len <=? space then (put (with_space d (Some (space - len))) bytes, Ok tt)
        else (with_space d (Some 0), Err (Io "no space left on device"))
    end.

(** ** The serialised state (state.rs, serializer.rs) *)

Record PersistedEngineState := mkPersistedEngineState {
  pe_data : gmap string StoredValue;
  pe_metadata : EngineMetadata;
}.

(** What a snapshot may hold: the current form, or the one of format 2. *)
Inductive PersistedEngineStateWire :=
| WireV3 (data : gmap string StoredValue) (metadata : EngineMetadata)
| WireV2 (data : gmap string string) (expirations : gmap string Z) (metadata : EngineMetadata).

(** [rmp_serde] on the persisted forms; the untagged enum tries [V3] first. *)
Class SnapshotCodec := {
  encode_persisted : PersistedEngineState -> result string (list byte);
  decode_wire : list byte -> result string PersistedEngineStateWire;
  decode_encode_persisted p bs :
    encode_persisted p = Ok bs -> decode_wire bs = Ok (WireV3 (pe_data p) (pe_metadata p));
}.

Definition serialize `{SnapshotCodec} (st : EngineState) : result EngineError (list byte) :=
  map_err SnapshotSerialize
    (encode_persisted (mkPersistedEngineState (EngineStore.to_entries (es_store st)) (es_metadata st))).

(** [Deserialize for EngineState]. *)
Definition of_wire (wire : PersistedEngineStateWire) : EngineState :=
  match wire with
  | WireV3 data metadata => mkEngineState (EngineStore.from_entries data) metadata
  | WireV2 data expirations metadata =>
      mkEngineState (EngineStore.from_parts (as_bytes <$> data) expirations) metadata
  end.

Definition deserialize `{SnapshotCodec} (bytes : list byte) : result EngineError EngineState :=
  wire ← map_err SnapshotDeserialize (decode_wire bytes); Ok (of_wire wire).

(** ** Snapshots (snapshot.rs) *)

Section snapshot.
Context `{Crc32} `{CryptoLib}.

Definition save_snapshot (data : list byte) (keyring : option StorageKeyring) (nonce : list byte)
    : disk unit :=
  durable_bytes ← mpure (match keyring with
                         | Some keyring => encrypt (kr_active keyring) "snapshot" nonce data
                         | None => Ok data
                         end);
  atomic_replace put_snapshot durable_bytes.

Definition load_snapshot (d : Disk) (keyring : option StorageKeyring)
    : result EngineError (option (list byte)) :=
  match dk_snapshot d with
  | Some bytes =>
      decoded ← match keyring with
                | Some keyring => decrypt keyring "snapshot" bytes
                | None => Ok bytes
                end;
      Ok (Some decoded)
  | None => Ok None
  end.

End snapshot.

(** ** Manifest (manifest.rs) *)

Definition STORAGE_FORMAT_VERSION : Z := 3.

Record Manifest := mkManifest {
  mf_storage_format_version : Z;
  mf_engine_version : Z;
  mf_last_snapshot_sequence : Z;
  mf_last_snapshot_at_ms : Z;
  mf_snapshot_size_bytes : Z;
  mf_snapshot_checksum : Z;
  mf_active_wal_start_sequence : Z;
  mf_oldest_retained_sequence : Z;
}.

Definition save_manifest `{Binary Manifest} (manifest : Manifest) : disk unit :=
  bytes ← mpure (map_err ManifestSerialize (binary_encode manifest));
  atomic_replace put_manifest bytes.

Definition load_manifest `{Binary Manifest} (d : Disk) : result EngineError (option Manifest) :=
  match dk_manifest d with
  | Some bytes =>
      manifest ← map_err ManifestDeserialize (binary_decode bytes); Ok (Some manifest)
  | None => Ok None
  end.

(** ** Keyring (keyring.rs) *)

Definition DEFAULT_SECRET_BYTES : nat := 32.
Definition DEFAULT_ROTATION_MS : Z := 30 * 24 * 60 * 60 * 1000.

Record StoredKey := mkStoredKey {
  stk_id : list byte;
  stk_secret : string;
  stk_created_at_ms : Z;
}.

Record StoredKeyring := mkStoredKeyring {
  skr_active : StoredKey;
  skr_previous : list StoredKey;
}.

Definition HEX : list byte := as_bytes "0123456789abcdef".

(** [random_secret] on the bytes it drew. *)
Definition random_secret (bytes : list byte) : string :=
  of_bytes (mjoin ((fun b =>
    let z := bval b in
    [default x00 (HEX !! Z.to_nat (Z.shiftr z 4)); default x00 (HEX !! Z.to_nat (Z.land z 15))])
      <$> bytes)).

Definition key_to_runtime (key : StoredKey) : StorageKey :=
  mkStorageKey (stk_id key) (stk_secret key) (stk_created_at_ms key).

Definition to_runtime (keyring : StoredKeyring) : StorageKeyring :=
  mkStorageKeyring (key_to_runtime (skr_active keyring))
    (key_to_runtime <$> skr_previous keyring).

Definition key_from_runtime (key : StorageKey) : StoredKey :=
  mkStoredKey (sk_id key) (sk_secret key) (sk_created_at_ms key).

Definition from_runtime (keyring : StorageKeyring) : StoredKeyring :=
  mkStoredKeyring (key_from_runtime (kr_active keyring))
    (key_from_runtime <$> kr_previous keyring).

Section keyring.
Context `{Binary StoredKeyring}.

Definition save_keyring (keyring : StorageKeyring) : disk unit :=
  bytes ← mpure (map_err ManifestSerialize (binary_encode (from_runtime keyring)));
  atomic_replace put_keyring bytes.

Definition load_keyring (d : Disk) : result EngineError (option StorageKeyring) :=
  match dk_keyring d with
  | Some bytes =>
      stored ← map_err ManifestDeserialize (binary_decode bytes); Ok (Some (to_runtime stored))
  | None => Ok None
  end.

Definition load_or_create_keyring (id random : list byte) (now_ms : Z) : disk StorageKeyring :=
  d ← mget;
  loaded ← mpure (load_keyring d);
  match loaded with
  | Some keyring => mret keyring
  | None =>
      let keyring := mkStorageKeyring (mkStorageKey id (random_secret random) now_ms) [] in
      _ ← save_keyring keyring;
      mret keyring
  end.

(** [rotate_if_due]: the keyring is returned as the source leaves it, on the
    error path too. *)
Definition rotate_if_due (id random : list byte) (now_ms : Z)
    : fallible (Disk * StorageKeyring) EngineError bool :=
  fun '(d, keyring) =>
    if saturating_sub now_ms (sk_created_at_ms (kr_active keyring)) <? DEFAULT_ROTATION_MS
    then ((d, keyring), Ok false)
    else
      let keyring :=
        mkStorageKeyring (mkStorageKey id (random_secret random) now_ms)
          (kr_previous keyring ++ [kr_active keyring]) in
      let '(d, r) := save_keyring keyring d in
      ((d, keyring), match r with Ok _ => Ok true | Err e => Err e end).

End keyring.

(** ** What is saved is loaded *)

Lemma atomic_replace_ok put bytes d d' :
  atomic_replace put bytes d = (d', Ok tt) ->
  exists space, d' = put (with_space d space) bytes.
Proof.
  unfold atomic_replace. destruct (dk_space d) as [space|] eqn:E.
  - destruct (_ <=? _); intros [= <-]. by eexists.
  - intros [= <-]. exists None. by destruct d; cbn in *; subst.
Qed.

(** A failed replacement leaves every file as it was. *)
Lemma atomic_replace_err put bytes d d' e :
  atomic_replace put bytes d = (d', Err e) -> d' = with_space d (Some 0).
Proof.
  unfold atomic_replace. destruct (dk_space d) as [space|]; [|done].
  destruct (_ <=? _); [done|]. by intros [= <- _].
Qed.

Lemma to_from_runtime keyring : to_runtime (from_runtime keyring) = keyring.
Proof.
  assert (forall k, key_to_runtime (key_from_runtime k) = k) as Hk by (by intros []).
  destruct keyring as [a p]. unfold to_runtime, from_runtime. cbn. rewrite Hk. f_equal.
  rewrite <- list_fmap_compose. rewrite <- (list_fmap_id p) at 2. apply list_fmap_ext.
  intros i k _. apply Hk.
Qed.

Lemma deserialize_serialize `{SnapshotCodec} st bytes :
  serialize st = Ok bytes -> deserialize bytes = Ok st.
Proof.
  unfold serialize, deserialize. destruct (encode_persisted _) as [bs|] eqn:E; [|done].
  intros [= <-]. rewrite (decode_encode_persisted _ _ E). by destruct st.
Qed.

Lemma load_saved_manifest `{Binary Manifest} m d d' :
  save_manifest m d = (d', Ok tt) -> load_manifest d' = Ok (Some m).
Proof.
  unfold save_manifest. intros (d1 & bs & Hp & Hr)%fallible_bind_ok. injection Hp as <- Hp.
  destruct (binary_encode m) as [b|] eqn:E; [|done]. injection Hp as ->.
  apply atomic_replace_ok in Hr as [space ->]. unfold load_manifest. cbn.
  by rewrite (binary_decode_encode _ _ E).
Qed.

Lemma load_saved_keyring `{Binary StoredKeyring} keyring d d' :
  save_keyring keyring d = (d', Ok tt) -> load_keyring d' = Ok (Some keyring).
Proof.
  unfold save_keyring. intros (d1 & bs & Hp & Hr)%fallible_bind_ok. injection Hp as <- Hp.
  destruct (binary_encode (from_runtime keyring)) as [b|] eqn:E; [|done]. injection Hp as ->.
  apply atomic_replace_ok in Hr as [space ->]. unfold load_keyring. cbn.
  rewrite (binary_decode_encode _ _ E). cbn. by rewrite to_from_runtime.
Qed.

Section snapshot_files.
Context `{Crc32} `{CryptoLib}.

(** The envelope of a snapshot, which the length field of an envelope bounds. *)
Definition snapshot_fits (keyring : option StorageKeyring) (nonce data : list byte) : Prop :=
  match keyring with
  | Some keyring =>
      length (sk_id (kr_active keyring)) = KEY_ID_LEN /\ length nonce = NONCE_LEN /\
      match encrypt (kr_active keyring) "snapshot" nonce data with
      | Ok envelope => Z.of_nat (length envelope) <= u32_max
      | Err _ => True
      end
  | None => True
  end.

Lemma load_saved_snapshot data keyring nonce d d' :
  snapshot_fits keyring nonce data -> save_snapshot data keyring nonce d = (d', Ok tt) ->
  load_snapshot d' keyring = Ok (Some data).
Proof.
  unfold save_snapshot, load_snapshot, snapshot_fits. intros Hf (d1 & bs & Hp & Hr)%fallible_bind_ok.
  injection Hp as <- Hp. apply atomic_replace_ok in Hr as [space ->]. cbn.
  destruct keyring as [kr|]; [|by injection Hp as ->].
  destruct Hf as (Hid & Hn & Hl). rewrite Hp in Hl.
  rewrite (decrypt_encrypt kr (kr_active kr) _ nonce data); try done.
  unfold keyring_get. by rewrite bool_decide_eq_true_2.
Qed.

Lemma save_snapshot_other data keyring nonce d d' r :
  save_snapshot data keyring nonce d = (d', r) ->
  dk_wal d' = dk_wal d /\ dk_manifest d' = dk_manifest d /\ dk_keyring d' = dk_keyring d /\
  dk_legacy_wal d' = dk_legacy_wal d /\ (r <> Ok tt -> dk_snapshot d' = dk_snapshot d).
Proof.
  unfold save_snapshot, mbind, fallible_bind, mpure.
  destruct (match keyring with Some _ => _ | None => _ end) as [bs|e]; [|by intros [= <- <-]].
  intros Hr. destruct r as [[]|e].
  - apply atomic_replace_ok in Hr as [space ->]. done.
  - apply atomic_replace_err in Hr as ->. done.
Qed.

End snapshot_files.
