(* ===== verification/DiskEngine.v ===== *)
(** * DiskEngine: the engine on its data directory (crates/engine/src/engine/core.rs, config.rs)

    The rest of the source's [Engine] struct around the core of [Engine.v]:
    opening and recovery, snapshots, inspection, migration of the legacy layout,
    point-in-time restore, and the replication operations that replace files.
    The data directory is the [Disk] inside the log writer; the keyring of the
    options is the one the log passes to the writer.  Clock readings, random
    bytes and fresh key ids are arguments, in the order the source takes them. *)

From S2P Require Import Prelude Text EngineError Store State Crypto Wal WalFacts WalLayout Engine.
From S2P Require Import DiskLog Replication Storage.

(** ** Options and reports *)

Record EngineOptions := mkEngineOptions {
  eo_wal_sync : WalSyncPolicy;
  eo_keyring : option StorageKeyring;
  eo_wal_segment_size_bytes : Z;
  eo_wal_retain_segments : Z;
}.

(** [EngineOptions::default]; [WalSyncPolicy] defaults to [Flush]. *)
Definition EngineOptions_default : EngineOptions :=
  mkEngineOptions Flush None DEFAULT_WAL_SEGMENT_SIZE_BYTES DEFAULT_WAL_RETAIN_SEGMENTS.

Record ReplicationSnapshot := mkReplicationSnapshot {
  rs_state : EngineState;
  rs_storage_format_version : Z;
  rs_exported_at_ms : Z;
}.

Record StorageInspection := mkStorageInspection {
  si_snapshot_present : bool;
  si_storage_format_version : Z;
  si_snapshot_size_bytes : Z;
  si_last_snapshot_sequence : Z;
  si_last_snapshot_at_ms : option Z;
  si_wal_segment_count : Z;
  si_sealed_wal_segment_count : Z;
  si_active_wal_segment_count : Z;
  si_active_wal_start_sequence : Z;
  si_oldest_retained_sequence : option Z;
  si_newest_sequence : option Z;
  si_wal_size_bytes : Z;
}.

Inductive PointInTimeTarget :=
| PitSequence (sequence : Z)
| PitTimestampMs (timestamp_ms : Z).

Definition build_storage_inspection (snapshot : option (list byte)) (manifest : option Manifest)
    (wal_report : WalSegmentReport) : StorageInspection :=
  mkStorageInspection
    (is_some snapshot)
    (default STORAGE_FORMAT_VERSION (mf_storage_format_version <$> manifest))
    (match manifest with
     | Some value => mf_snapshot_size_bytes value
     | None => match snapshot with Some bytes => Z.of_nat (length bytes) | None => 0 end
     end)
    (default 0 (mf_last_snapshot_sequence <$> manifest))
    (mf_last_snapshot_at_ms <$> manifest)
    (sr_segment_count wal_report)
    (sr_sealed_segment_count wal_report)
    (sr_active_segment_count wal_report)
    (sr_active_start_sequence wal_report)
    (sr_oldest_retained_sequence wal_report)
    (sr_newest_sequence wal_report)
    (sr_total_size_bytes wal_report).

(** ** The engine *)

Record DiskEngine := mkDiskEngine {
  de_core : Engine DiskLog;
  de_wal_retain_segments : Z;
  de_recovery_duration_ms : Z;
  de_wal_entries_replayed_total : Z;
  de_last_snapshot_duration_ms : option Z;
}.

Definition de_state (de : DiskEngine) : EngineState := en_state (de_core de).
Definition de_log (de : DiskEngine) : DiskLog := en_wal_writer (de_core de).
Definition de_disk (de : DiskEngine) : Disk := dw_disk (dl_writer (de_log de)).
Definition de_keyring (de : DiskEngine) : option StorageKeyring := dl_keyring (de_log de).

(** The options the engine was opened with, with the keyring as it is now. *)
Definition de_options (de : DiskEngine) : EngineOptions :=
  mkEngineOptions (dw_sync_policy (dl_writer (de_log de))) (de_keyring de)
    (dw_max_segment_size_bytes (dl_writer (de_log de))) (de_wal_retain_segments de).

Definition with_core (de : DiskEngine) (core : Engine DiskLog) : DiskEngine :=
  mkDiskEngine core (de_wal_retain_segments de) (de_recovery_duration_ms de)
    (de_wal_entries_replayed_total de) (de_last_snapshot_duration_ms de).

Section disk_engine.
Context `{Crc32} `{CryptoLib} `{Binary WalEntry} `{Binary Manifest} `{Binary StoredKeyring}
  `{SnapshotCodec} `{NonceSource}.

(** [WalEntry::checksum]. *)
#[export] Instance entry_checksum : EntryChecksum :=
  fun entry => encoded ← map_err WalSerialize (binary_encode entry); Ok (crc32 encoded).

(** ** Recovery *)

Definition validate_manifest_snapshot (snapshot : option (list byte)) (st : EngineState)
    (manifest : Manifest) : result EngineError unit :=
  if negb (mf_storage_format_version manifest =? STORAGE_FORMAT_VERSION) then
    Err (UnsupportedStorageFormat "manifest")
  else
    match snapshot with
    | None => Err (ChecksumMismatch "snapshot")
    | Some snapshot =>
        let sequence := md_last_applied_sequence (es_metadata st) in
        if negb (mf_snapshot_size_bytes manifest =? Z.of_nat (length snapshot)) then
          Err (ChecksumMismatch "snapshot")
        else if negb (crc32 snapshot =? mf_snapshot_checksum manifest) then
          Err (ChecksumMismatch "snapshot")
        else if negb (sequence =? mf_last_snapshot_sequence manifest) then
          Err (ManifestDeserialize
                 ("snapshot sequence " +:+ int_to_string sequence +:+
                  " does not match manifest sequence " +:+
                  int_to_string (mf_last_snapshot_sequence manifest)))
        else Ok tt
    end.

(** The state a manifest that matches it leaves. *)
Definition adopt_manifest (st : EngineState) (manifest : Manifest) : EngineState :=
  let m := set_last_snapshot_at (es_metadata st) (Some (mf_last_snapshot_at_ms manifest)) in
  mkEngineState (es_store st)
    (set_last_applied m
       (Z.max (md_last_applied_sequence m) (mf_last_snapshot_sequence manifest))).

(** The state before the log is replayed: the snapshot checked against the
    manifest, or a new state at [new_ms]. *)
Definition load_base (d : Disk) (keyring : option StorageKeyring) (new_ms : Z)
    : result EngineError EngineState :=
  loaded ← load_snapshot d keyring;
  st ← match loaded with Some bytes => deserialize bytes | None => Ok (EngineState.new new_ms) end;
  manifest ← load_manifest d;
  match manifest with
  | Some manifest => _ ← validate_manifest_snapshot loaded st manifest; Ok (adopt_manifest st manifest)
  | None => Ok st
  end.

(** [state.apply_entry(entry)?] over a list. *)
Definition replay_onto (st : EngineState) (entries : list WalEntry) : result EngineError EngineState :=
  let '(st, r) := apply_entries st entries in _ ← r; Ok st.

Definition from_paths_with_options (started_ms new_ms finished_ms : Z) (d : Disk)
    (options : EngineOptions) : result EngineError DiskEngine :=
  if is_some (dk_legacy_wal d) then Err (StorageMigrationRequired "legacy wal layout")
  else
    base ← load_base d (eo_keyring options) new_ms;
    replay ← replay (dk_wal d) (eo_keyring options);
    let wal_entries := wr_entries replay in
    wal_entry_identities ← build_wal_entry_identities wal_entries;
    st ← replay_onto base wal_entries;
    let writer := DiskWriter.open d (eo_wal_sync options) (eo_wal_segment_size_bytes options)
                    (saturating_add (md_last_applied_sequence (es_metadata st)) 1) in
    Ok (mkDiskEngine
          (mkEngine st (mkDiskLog writer (eo_keyring options)) wal_entries wal_entry_identities 0)
          (eo_wal_retain_segments options) (saturating_sub finished_ms started_ms)
          (Z.of_nat (length wal_entries)) None).

(** ** Inspection *)

Definition inspect_storage (d : Disk) (keyring : option StorageKeyring)
    : result EngineError StorageInspection :=
  loaded ← load_snapshot d keyring;
  manifest ← load_manifest d;
  Ok (build_storage_inspection loaded manifest (inspect (dk_wal d))).

(** The method of an open engine: unreadable parts are left out, and the
    snapshot is the raw file. *)
Definition storage_inspection (de : DiskEngine) : StorageInspection :=
  let d := de_disk de in
  build_storage_inspection (dk_snapshot d)
    (match load_manifest d with Ok manifest => manifest | Err _ => None end)
    (inspect (dk_wal d)).

Definition verify_storage (started_ms new_ms finished_ms : Z) (d : Disk) (options : EngineOptions)
    : result EngineError StorageInspection :=
  de ← from_paths_with_options started_ms new_ms finished_ms d options; Ok (storage_inspection de).

Definition replication_snapshot (de : DiskEngine) (now_ms : Z) : ReplicationSnapshot :=
  mkReplicationSnapshot (de_state de) STORAGE_FORMAT_VERSION now_ms.

(** [info_entries] of the trait's INFO; [uuid_to_string] prints a key id. *)
Definition info_entries (uuid_to_string : list byte -> string) (de : DiskEngine)
    (metadata : EngineMetadata) (key_count : Z) : list (string * string) :=
  let report := inspect (dk_wal (de_disk de)) in
  let optional (o : option Z) := match o with Some n => int_to_string n | None => "none" end in
  [("engine_version", int_to_string (md_version metadata));
   ("created_at_ms", int_to_string (md_created_at_ms metadata));
   ("updated_at_ms", int_to_string (md_updated_at_ms metadata));
   ("last_snapshot_at_ms", optional (md_last_snapshot_at_ms metadata));
   ("last_applied_sequence", int_to_string (md_last_applied_sequence metadata));
   ("key_count", int_to_string key_count);
   ("wal_size_bytes", int_to_string (sr_total_size_bytes report));
   ("wal_segment_count", int_to_string (sr_segment_count report));
   ("oldest_retained_sequence", optional (sr_oldest_retained_sequence report));
   ("wal_sync_policy", WalSyncPolicy_as_str (eo_wal_sync (de_options de)));
   ("wal_entries_replayed_total", int_to_string (de_wal_entries_replayed_total de));
   ("recovery_duration_ms", int_to_string (de_recovery_duration_ms de));
   ("last_snapshot_duration_ms", optional (de_last_snapshot_duration_ms de));
   ("wal_segment_size_bytes", int_to_string (eo_wal_segment_size_bytes (de_options de)));
   ("wal_retain_segments", int_to_string (de_wal_retain_segments de));
   ("storage_encryption", if is_some (de_keyring de) then "enabled" else "disabled");
   ("storage_key_id", match de_keyring de with
                      | Some keyring => uuid_to_string (sk_id (kr_active keyring))
                      | None => "none"
                      end)]%string.

(** INFO of the storage trait. *)
Definition info (uuid_to_string : list byte -> string) (now_ms : Z)
    : fallible DiskEngine EngineError (list (string * string)) :=
  fun de =>
    let de := with_core de (Engine.purge now_ms (de_core de)).1 in
    (de, Ok (info_entries uuid_to_string de (es_metadata (de_state de))
               (EngineState.key_count (de_state de)))).

(** ** Operations that replace files *)

Notation M := (fallible DiskEngine EngineError).

Definition with_log (de : DiskEngine) (l : DiskLog) : DiskEngine :=
  with_core de (Engine.with_writer (de_core de) l).

Definition on_core {A} (m : fallible (Engine DiskLog) EngineError A) : M A :=
  fun de => let '(core, r) := m (de_core de) in (with_core de core, r).

Definition on_writer {A} (m : fallible DiskWriter EngineError A) : M A :=
  fun de =>
    let '(w, r) := m (dl_writer (de_log de)) in (with_log de (mkDiskLog w (de_keyring de)), r).

Definition on_disk {A} (m : disk A) : M A := on_writer (DiskWriter.on_disk m).

(** An operation on the files of the WAL directory alone. *)
Definition on_wal_dir {A} (m : fallible WalDir EngineError A) : M A :=
  on_disk (fun d => let '(dir, r) := m (dk_wal d) in (with_wal d dir, r)).

Definition set_state (st : EngineState) : M unit :=
  on_core (Engine.modify_state (fun _ => st)).

(** Replaces the in-memory copy of the log and its identities. *)
Definition set_wal_entries (entries : list WalEntry) : M unit :=
  _ ← on_core (fun eng => (mkEngine (en_state eng) (en_wal_writer eng) entries
                             (en_wal_entry_identities eng) (en_current_consensus_term eng), Ok tt));
  identities ← mpure (build_wal_entry_identities entries);
  on_core (fun eng => (mkEngine (en_state eng) (en_wal_writer eng) (en_wal_entries eng) identities
                         (en_current_consensus_term eng), Ok tt)).

Definition reset_wal_writer (start_sequence : Z) : M unit :=
  on_writer (DiskWriter.handle_reset start_sequence).

(** The rotation step of [snapshot]: the options' keyring changes in place. *)
Definition rotate_keyring (id random : list byte) (now_ms : Z) : M unit :=
  fun de =>
    match de_keyring de with
    | None => (de, Ok tt)
    | Some keyring =>
        let '((d, keyring), r) := rotate_if_due id random now_ms (de_disk de, keyring) in
        (with_log de (mkDiskLog (DiskWriter.with_disk (dl_writer (de_log de)) d) (Some keyring)),
         match r with Ok _ => Ok tt | Err e => Err e end)
    end.

(** What a snapshot reads from outside the engine. *)
Record SnapshotInputs := mkSnapshotInputs {
  in_started_ms : Z;
  in_purge_ms : Z;
  in_rotate_ms : Z;
  in_snapshot_ms : Z;
  in_finished_ms : Z;
  in_key_id : list byte;
  in_random : list byte;
  in_nonce : list byte;
}.

Definition snapshot_manifest (st : EngineState) (serialized : list byte)
    (sequence at_ms active_start oldest : Z) : Manifest :=
  mkManifest STORAGE_FORMAT_VERSION (md_version (es_metadata st)) sequence at_ms
    (Z.of_nat (length serialized)) (crc32 serialized) active_start oldest.

Definition snapshot (i : SnapshotInputs) : M unit :=
  _ ← on_core (Engine.purge (in_purge_ms i));
  _ ← rotate_keyring (in_key_id i) (in_random i) (in_rotate_ms i);
  de ← mget;
  let sequence := md_last_applied_sequence (es_metadata (de_state de)) in
  let durable_state := EngineState.mark_snapshot (de_state de) (in_snapshot_ms i) sequence in
  serialized ← mpure (serialize durable_state);
  _ ← on_disk (save_snapshot serialized (de_keyring de) (in_nonce i));
  _ ← on_writer DiskWriter.handle_close_active;
  _ ← on_wal_dir (seal_active (de_keyring de));
  let active_wal_start_sequence := saturating_add sequence 1 in
  _ ← on_wal_dir (fun dir => (create_active_segment dir active_wal_start_sequence, Ok tt));
  _ ← reset_wal_writer active_wal_start_sequence;
  _ ← on_wal_dir (fun dir =>
        let '(dir, removed) := prune_sealed_segments (de_wal_retain_segments de) dir in
        (dir, Ok removed));
  de ← mget;
  let oldest_retained_sequence :=
    default active_wal_start_sequence
      (sr_oldest_retained_sequence (inspect (dk_wal (de_disk de)))) in
  _ ← on_disk (save_manifest
        (snapshot_manifest durable_state serialized sequence (in_snapshot_ms i)
           active_wal_start_sequence oldest_retained_sequence));
  _ ← set_state durable_state;
  replay ← mpure (replay (dk_wal (de_disk de)) (de_keyring de));
  _ ← set_wal_entries (wr_entries replay);
  mmodify (fun de =>
    mkDiskEngine (de_core de) (de_wal_retain_segments de) (de_recovery_duration_ms de)
      (de_wal_entries_replayed_total de)
      (Some (saturating_sub (in_finished_ms i) (in_started_ms i)))).

Definition apply_replication_snapshot (persisted_at_ms : Z) (nonce : list byte)
    (snapshot : ReplicationSnapshot) : M unit :=
  if negb (rs_storage_format_version snapshot =? STORAGE_FORMAT_VERSION) then
    mfail (UnsupportedStorageFormat "replication snapshot")
  else
    let m := es_metadata (rs_state snapshot) in
    let sequence := md_last_applied_sequence m in
    let next := saturating_add sequence 1 in
    let st := mkEngineState (es_store (rs_state snapshot))
                (set_updated_at (set_last_snapshot_at m (Some persisted_at_ms)) persisted_at_ms) in
    _ ← set_state st;
    serialized ← mpure (serialize st);
    de ← mget;
    _ ← on_disk (save_snapshot serialized (de_keyring de) nonce);
    _ ← on_writer DiskWriter.handle_close_active;
    _ ← on_wal_dir (fun _ => (create_active_segment ∅ next, Ok tt));
    _ ← reset_wal_writer next;
    _ ← on_core (fun eng => (mkEngine (en_state eng) (en_wal_writer eng) [] ∅
                               (en_current_consensus_term eng), Ok tt));
    on_disk (save_manifest (snapshot_manifest st serialized sequence persisted_at_ms next next)).

Definition replace_replication_suffix (new_ms prefix_sequence : Z) (entries : list WalEntry) : M Z :=
  de ← mget;
  loaded ← mpure (load_snapshot (de_disk de) (de_keyring de));
  snapshot_state ← mpure (match loaded with
                          | Some bytes => deserialize bytes
                          | None => Ok (EngineState.new new_ms)
                          end);
  let baseline_sequence := md_last_applied_sequence (es_metadata snapshot_state) in
  '(retained, rebuilt_state) ← mpure (rebuild_suffix snapshot_state
                                        (en_wal_entries (de_core de)) prefix_sequence entries);
  _ ← on_writer DiskWriter.handle_close_active;
  _ ← match retained with
      | [] => on_wal_dir (fun _ =>
                (create_active_segment ∅ (saturating_add baseline_sequence 1), Ok tt))
      | _ => on_disk (write_entries retained (eo_wal_sync (de_options de)) (de_keyring de)
                        (eo_wal_segment_size_bytes (de_options de)))
      end;
  let next_sequence := match last retained with
                       | Some entry => saturating_add (we_sequence entry) 1
                       | None => saturating_add baseline_sequence 1
                       end in
  _ ← reset_wal_writer next_sequence;
  _ ← set_state rebuilt_state;
  _ ← set_wal_entries retained;
  mret (md_last_applied_sequence (es_metadata rebuilt_state)).

(** ** Offline tools *)

Definition migrate_storage (options : EngineOptions) : disk StorageInspection :=
  d ← mget;
  _ ← (if is_some (dk_legacy_wal d) then
         _ ← migrate_legacy (eo_wal_sync options) (eo_keyring options)
               (eo_wal_segment_size_bytes options);
         mret tt
       else mret tt);
  d ← mget;
  _ ← (if sr_active_segment_count (inspect (dk_wal d)) =? 0 then
         manifest ← mpure (load_manifest d);
         let start_sequence :=
           match manifest with
           | Some manifest => saturating_add (mf_last_snapshot_sequence manifest) 1
           | None => 1
           end in
         mmodify (fun d => with_wal d (create_active_segment (dk_wal d) start_sequence))
       else mret tt);
  d ← mget;
  mpure (inspect_storage d (eo_keyring options)).

Definition restore_target (target : PointInTimeTarget) : WalReplayTarget :=
  match target with
  | PitSequence sequence => TargetSequence sequence
  | PitTimestampMs timestamp_ms => TargetTimestampMs timestamp_ms
  end.

(** The state at the restore point, read from the source directory. *)
Definition state_at_point (source : Disk) (keyring : option StorageKeyring) (new_ms : Z)
    (target : PointInTimeTarget) : result EngineError EngineState :=
  if is_some (dk_legacy_wal source) then Err (StorageMigrationRequired "legacy wal layout")
  else
    st ← load_base source keyring new_ms;
    manifest ← load_manifest source;
    let snapshot_sequence := default 0 (mf_last_snapshot_sequence <$> manifest) in
    let snapshot_time_ms := default 0 (mf_last_snapshot_at_ms <$> manifest) in
    _ ← match target with
        | PitSequence sequence =>
            if sequence <? snapshot_sequence then
              Err (RestorePointUnavailable
                     ("sequence " +:+ int_to_string sequence +:+
                      " is older than snapshot baseline " +:+ int_to_string snapshot_sequence))
            else Ok tt
        | PitTimestampMs timestamp_ms =>
            if timestamp_ms <? snapshot_time_ms then
              Err (RestorePointUnavailable
                     ("timestamp " +:+ int_to_string timestamp_ms +:+
                      " is older than snapshot baseline " +:+ int_to_string snapshot_time_ms))
            else Ok tt
        end;
    replay ← replay_until (dk_wal source) keyring (restore_target target);
    _ ← match target with
        | PitSequence sequence =>
            if default snapshot_sequence (wr_newest_sequence replay) <? sequence then
              Err (RestorePointUnavailable
                     ("sequence " +:+ int_to_string sequence +:+ " is outside retained WAL history"))
            else Ok tt
        | PitTimestampMs _ => Ok tt
        end;
    replay_onto st (wr_entries replay).

(** [restore_to_point] on the target directory; [same_dir] compares the two
    paths.  The target's auth and maintenance files, which the source also
    removes, belong to the server and are not part of [Disk]. *)
Definition restore_to_point (same_dir : bool) (source : Disk) (options : EngineOptions)
    (target : PointInTimeTarget) (new_ms restored_at_ms : Z) (nonce : list byte)
    : disk StorageInspection :=
  if same_dir then
    mfail (InvalidStorageOperation "source and target data directories must differ")
  else
    st ← mpure (state_at_point source (eo_keyring options) new_ms target);
    _ ← mmodify (fun d => mkDisk ∅ None None None (dk_legacy_wal d) (dk_space d));
    _ ← match eo_keyring options with
        | Some keyring => save_keyring keyring
        | None => mret tt
        end;
    let sequence := md_last_applied_sequence (es_metadata st) in
    let st := EngineState.mark_snapshot st restored_at_ms sequence in
    let next := saturating_add sequence 1 in
    serialized ← mpure (serialize st);
    _ ← save_snapshot serialized (eo_keyring options) nonce;
    _ ← mmodify (fun d => with_wal d (create_active_segment (dk_wal d) next));
    _ ← save_manifest (snapshot_manifest st serialized sequence restored_at_ms next next);
    d ← mget;
    mpure (inspect_storage d (eo_keyring options)).

End disk_engine.
