(* ===== verification/EngineWorker.v ===== *)
(** * EngineWorker: the thread that owns the engine (crates/server/src/server/engine_worker.rs, commands.rs)

    Requests reach the engine through a queue; one thread takes them in turn and
    joins neighbouring writes into a batch.  A reply that cannot be delivered is
    dropped by the source, and so is the channel here: an operation returns what
    the thread sends.  [DiskEngine] is the engine behind the storage trait. *)

From S2P Require Import Prelude Text Command Wire Request Response EngineError Store State Crypto.
From S2P Require Import ServerError Wal WalFacts WalLayout Engine Transaction Backup Replication.
From S2P Require Import DiskLog Storage DiskEngine.

(** What a command reads from outside the engine: the clock at its start, before a
    second sweep and when an entry is stamped, and the inputs of a snapshot. *)
Record CommandInputs := mkCommandInputs {
  ci_now_ms : Z;
  ci_now2_ms : Z;
  ci_entry_ms : Z;
  ci_snapshot : SnapshotInputs;
}.

Record LogAppendResult := mkLogAppendResult {
  la_last_applied_sequence : Z;
  la_last_applied_term : option Z;
  la_last_applied_checksum : option Z;
}.

Record ExecuteResult := mkExecuteResult {
  er_response : Response;
  er_last_applied : LogAppendResult;
}.

(** ** Responses (commands.rs) *)

Definition value_or_not_found (request_id : Uuid) (value : option (list byte))
    : result ServerError Response :=
  match value with
  | Some value => from_transport (Response.value_bytes request_id value)
  | None => Ok (Response.not_found request_id)
  end.

Definition render_set_response (request_id : Uuid) (return_previous conditional_write : bool)
    (outcome : SetOutcome) : result ServerError Response :=
  if return_previous then value_or_not_found request_id (so_previous outcome)
  else if conditional_write then Ok (Response.boolean request_id (so_applied outcome))
  else Ok (Response.ok request_id).

(** The structured payload of an error; the fallback is static and always fits. *)
Definition error_response (request_id : Uuid) (code name message : string)
    : result TransportError Response :=
  match Response.error request_id code name message with
  | Ok response => Ok response
  | Err _ => Response.error request_id "TRN-011" "Remote Error Encoding Failure"
               "failed to encode structured error payload"
  end.

Definition map_transaction_result_payload (r : TransactionResult) : ExecResultPayload :=
  match r with
  | TrOk => ExecOk
  | TrNotFound => ExecNotFound
  | TrValue value => ExecValue value
  | TrBoolean value => ExecBoolean value
  | TrCount value => ExecCount value
  | TrInteger value => ExecInteger value
  | TrEntries entries => ExecEntries entries
  | TrStrings values => ExecStrings values
  | TrScan page => ExecScan (mkScanPayload (sp_next_cursor page) (sp_keys page))
  end.

Definition render_transaction_result (request_id : Uuid) (r : TransactionResult)
    : result ServerError Response :=
  match r with
  | TrOk => Ok (Response.ok request_id)
  | TrNotFound => Ok (Response.not_found request_id)
  | TrValue value => from_transport (Response.value_bytes request_id value)
  | TrBoolean value => Ok (Response.boolean request_id value)
  | TrCount value => Ok (Response.count request_id value)
  | TrInteger value => Ok (Response.integer request_id value)
  | TrEntries entries => from_transport (Response.byte_entries request_id entries)
  | TrStrings values => from_transport (Response.byte_strings request_id values)
  | TrScan page => from_transport (Response.scan request_id (sp_next_cursor page) (sp_keys page))
  end.

(** Commands that may not be queued between MULTI and EXEC. *)
Definition validate_transaction_command (command : Command) : result ServerError unit :=
  match command with
  | CmdInfo | CmdMetrics | CmdMetricsProm | CmdSave | CmdSnapshot | CmdBackup | CmdBackupTo _
  | CmdBackupVerify _ | CmdBackupVerifyFrom _ | CmdRestore _ | CmdRestoreFrom _
  | CmdRestoreCheck _ | CmdRestoreCheckFrom _ | CmdAlterUserPassword _ _ | CmdCreateUser _ _
  | CmdDropUser _ | CmdCreateRole _ | CmdDropRole _ | CmdGrantRole _ _ | CmdRevokeRole _ _
  | CmdGrantPermission _ _ _ | CmdRevokePermission _ _ _ | CmdShowUsers | CmdShowRoles
  | CmdShowGrants | CmdShowGrantsForUser _ | CmdShowGrantsForRole _ | CmdWhoAmI
  | CmdMaintenanceOn | CmdMaintenanceOff | CmdMaintenanceStatus | CmdHealth | CmdShowCluster
  | CmdShowReplication | CmdPromoteFollower | CmdPauseReplication | CmdResumeReplication
  | CmdAuth _ _ | CmdHelp | CmdExit | CmdMulti | CmdExec | CmdDiscard =>
      Err SrvUnsupportedRemoteCommand
  | _ => Ok tt
  end.

Definition is_batchable_engine_write (command : Command) : bool :=
  match command with
  | CmdSet _ _ _ | CmdSetNx _ _ | CmdGetDel _ | CmdGetEx _ (Some _) _ | CmdGetEx _ _ true
  | CmdMSet _ | CmdDelete _ | CmdExpire _ _ | CmdPersist _ | CmdRename _ _ | CmdRenameNx _ _
  | CmdClear => true
  | _ => false
  end.

Section worker.
Context `{Crc32} `{CryptoLib} `{Binary WalEntry} `{Binary Manifest} `{Binary StoredKeyring}
  `{SnapshotCodec} `{NonceSource} `{Base64} `{BackupJson} (uuid_to_string : list byte -> string).

Notation M := (fallible DiskEngine ServerError).

(** [engine.operation(..)?]. *)
Definition call {A} (m : fallible DiskEngine EngineError A) : M A :=
  fun de => let '(de, r) := m de in (de, from_engine r).
Definition core {A} (m : fallible (Engine DiskLog) EngineError A) : M A := call (on_core m).

(** ** One command (commands.rs) *)

Definition execute_command (i : CommandInputs) (request_id : Uuid) (command : Command)
    : M Response :=
  let now := ci_now_ms i in
  let entry_ms := ci_entry_ms i in
  let reply_bool (m : fallible (Engine DiskLog) EngineError bool) : M Response :=
    b ← core m; mret (Response.boolean request_id b) in
  let reply_integer (m : fallible (Engine DiskLog) EngineError Z) : M Response :=
    n ← core m; mret (Response.integer request_id n) in
  let reply_count (m : fallible (Engine DiskLog) EngineError Z) : M Response :=
    n ← core m; mret (Response.count request_id n) in
  let reply_value (m : fallible (Engine DiskLog) EngineError (option (list byte))) : M Response :=
    value ← core m; mpure (value_or_not_found request_id value) in
  match command with
  | CmdPing message =>
      mpure (from_transport (Response.value request_id (default "PONG"%string message)))
  | CmdGet key => reply_value (Engine.get now key)
  | CmdGetDel key => reply_value (Engine.get_del now entry_ms key)
  | CmdGetEx key expiration persist =>
      reply_value (Engine.get_ex now entry_ms key (map_command_expiration expiration) persist)
  | CmdSet key value options =>
      outcome ← core (Engine.set_with_options now entry_ms key value
                        (map_command_set_options options));
      mpure (render_set_response request_id (so_return_previous options)
               (is_some (so_condition options) || is_some (so_if_version options)) outcome)
  | CmdSetNx key value => reply_bool (Engine.set_nx now entry_ms key value)
  | CmdMGet keys =>
      values ← core (Engine.mget now keys);
      mpure (from_transport (Response.byte_strings request_id values))
  | CmdMSet entries => _ ← core (Engine.mset entry_ms entries); mret (Response.ok request_id)
  | CmdDelete keys => reply_count (Engine.delete_many now entry_ms keys)
  | CmdExists key => reply_bool (Engine.exists_ now key)
  | CmdIncr key => reply_integer (Engine.incr now entry_ms key)
  | CmdDecr key => reply_integer (Engine.decr now entry_ms key)
  | CmdExpire key seconds => reply_bool (Engine.expire now entry_ms key seconds)
  | CmdTtl key => reply_integer (Engine.ttl now key)
  | CmdPersist key => reply_bool (Engine.persist now entry_ms key)
  | CmdRename source destination => reply_bool (Engine.rename now entry_ms source destination)
  | CmdRenameNx source destination =>
      reply_bool (Engine.rename_nx now (ci_now2_ms i) entry_ms source destination)
  | CmdScan cursor pattern count =>
      page ← core (Engine.scan now cursor pattern count);
      mpure (from_transport (Response.scan request_id (sp_next_cursor page) (sp_keys page)))
  | CmdDbSize | CmdCount => reply_count (Engine.db_size now)
  | CmdInfo =>
      entries ← call (info uuid_to_string now);
      mpure (from_transport (Response.entries request_id entries))
  | CmdList =>
      entries ← core (Engine.list now);
      mpure (from_transport (Response.byte_entries request_id entries))
  | CmdClear => _ ← core (Engine.clear entry_ms); mret (Response.ok request_id)
  | CmdSave | CmdSnapshot => _ ← call (snapshot (ci_snapshot i)); mret (Response.ok request_id)
  | CmdBackup =>
      dump ← core (logical_backup now);
      mpure (from_transport (Response.value request_id dump))
  | CmdRestore dump => reply_count (restore_logical_backup now entry_ms dump)
  | _ => mfail SrvUnsupportedRemoteCommand
  end.

(** ** Requests of the queue (engine_worker.rs) *)

Definition applied_state_for_sequence (de : DiskEngine) (sequence : Z) : LogAppendResult :=
  mkLogAppendResult sequence (wal_entry_term (de_core de) sequence)
    (wal_entry_checksum (de_core de) sequence).

Definition last_applied_state (de : DiskEngine) : LogAppendResult :=
  applied_state_for_sequence de (md_last_applied_sequence (es_metadata (de_state de))).

Definition set_consensus_term (term : Z) : M unit := core (Engine.set_consensus_term term).

(** [process_single_execute]. *)
Definition process_single_execute (i : CommandInputs) (term : Z) (request_id : Uuid)
    (command : Command) : M ExecuteResult :=
  _ ← set_consensus_term term;
  response ← execute_command i request_id command;
  de ← mget;
  mret (mkExecuteResult response (last_applied_state de)).

(** The reply to one command of a batch; the cache of positions has no effect. *)
Definition batch_reply (de : DiskEngine) (request_id : Uuid) (r : CommandBatchResult)
    : result ServerError ExecuteResult :=
  response ← render_transaction_result request_id (cb_result r);
  Ok (mkExecuteResult response (applied_state_for_sequence de (cb_last_applied_sequence r))).

Definition process_explicit_write_batch (now_ms term : Z) (batch : list (Uuid * Command))
    : M (list ExecuteResult) :=
  _ ← set_consensus_term term;
  results ← core (Transaction.execute_command_batch now_ms (snd <$> batch));
  de ← mget;
  mpure (mapM (fun '(id, r) => batch_reply de id r) (zip (fst <$> batch) results)).

(** [process_write_batch] after the batch is drained: each reply goes to its own
    sender, so the rendering error of one does not reach the others. *)
Definition run_write_batch (now_ms term : Z) (batch : list (Uuid * Command)) (de : DiskEngine)
    : DiskEngine * list (result ServerError ExecuteResult) :=
  match (_ ← set_consensus_term term;
         core (Transaction.execute_command_batch now_ms (snd <$> batch))) de with
  | (de, Ok results) => (de, zip_with (batch_reply de) (fst <$> batch) results)
  | (de, Err err) =>
      (de, match batch with
           | [] => []
           | _ :: rest => Err err :: ((fun _ => Err SrvEngineWorkerClosed) <$> rest)
           end)
  end.

Definition execute_batch (now_ms entry_ms term : Z) (commands : list Command)
    : M (list TransactionResult) :=
  _ ← set_consensus_term term;
  core (Transaction.execute_transaction now_ms entry_ms commands).

Definition worker_append_noop (entry_ms term : Z) : M LogAppendResult :=
  _ ← set_consensus_term term;
  _ ← core (Engine.append_noop entry_ms);
  de ← mget;
  mret (last_applied_state de).

End worker.

(** ** The engine as the server's replication code sees it

    [EngineHandle] has the operations of the queue that replication uses and
    [EngineHandleLaws] what it relies on of them: the engine is a log of entries
    without gaps that ends at the last applied one, and its operations extend it or
    replace its tail. *)

Notation last_sequence st := (md_last_applied_sequence (es_metadata st)).

Class EngineHandle (E : Type) := {
  eh_state : E -> EngineState;
  eh_wal_entry_term : E -> Z -> option Z;
  eh_wal_entry_checksum : E -> Z -> option Z;
  eh_wal_entries_since : E -> Z -> nat -> result EngineError (list WalEntry);
  eh_apply_replication_entries : list WalEntry -> fallible E EngineError Z;
  eh_replace_replication_suffix : Z -> Z -> list WalEntry -> fallible E EngineError Z;
  eh_apply_replication_snapshot : Z -> list byte -> ReplicationSnapshot -> fallible E EngineError unit;
  eh_replication_snapshot : Z -> E -> ReplicationSnapshot;
  eh_append_noop : Z -> Z -> fallible E ServerError LogAppendResult;
  eh_execute_write_batch : Z -> Z -> list (Uuid * Command) -> fallible E ServerError (list ExecuteResult);
}.

(** The entry at a sequence of the log. *)
Definition entry_at (s : Z) (log : list WalEntry) : option WalEntry :=
  List.find (fun entry => we_sequence entry =? s) log.

(** What followers compare of two entries: term and checksum. *)
Definition entry_identity `{EntryChecksum} (entry : WalEntry) : option WalEntryIdentity :=
  match wal_entry_identity entry with Ok identity => Some identity | Err _ => None end.

Definition upto (s : Z) (log : list WalEntry) : list WalEntry :=
  List.filter (fun entry => we_sequence entry <=? s) log.
Definition after (s : Z) (log : list WalEntry) : list WalEntry :=
  List.filter (fun entry => s <? we_sequence entry) log.

Class EngineHandleLaws (E : Type) `{EngineHandle E} `{EntryChecksum} := {
  eh_log : E -> list WalEntry;
  eh_ok : E -> Prop;
  eh_ok_log e : eh_ok e -> exists n, 0 < n /\ contiguous n (eh_log e) /\
    n + Z.of_nat (length (eh_log e)) = last_sequence (eh_state e) + 1;
  eh_term_law e s : eh_ok e ->
    eh_wal_entry_term e s = wi_term <$> (entry_at s (eh_log e) ≫= entry_identity);
  eh_checksum_law e s : eh_ok e ->
    eh_wal_entry_checksum e s = wi_checksum <$> (entry_at s (eh_log e) ≫= entry_identity);
  eh_since_law e s limit : eh_ok e ->
    eh_wal_entries_since e s limit =
      Ok (match limit with O => after s (eh_log e) | _ => take limit (after s (eh_log e)) end);
  eh_apply_law e es e' s :
    eh_ok e -> last_sequence (eh_state e) + Z.of_nat (length es) <= u64_max ->
    eh_apply_replication_entries es e = (e', Ok s) ->
    eh_ok e' /\ eh_log e' = eh_log e ++ es /\ contiguous (last_sequence (eh_state e) + 1) es /\
    s = last_sequence (eh_state e') /\ s = last_sequence (eh_state e) + Z.of_nat (length es);
  eh_replace_law e ms prefix es e' s :
    eh_ok e -> 0 <= prefix -> prefix + 1 + Z.of_nat (length es) <= u64_max ->
    contiguous (prefix + 1) es ->
    eh_replace_replication_suffix ms prefix es e = (e', Ok s) ->
    eh_ok e' /\ eh_log e' = upto prefix (eh_log e) ++ es /\
    s = last_sequence (eh_state e') /\ s = prefix + Z.of_nat (length es);
}.
