(* ===== verification/WorkerQueue.v ===== *)
(** * WorkerQueue: the loop of the engine thread (crates/server/src/server/engine_worker.rs)

    The thread takes requests from [pending], then from the channel.  A write that
    can be batched takes neighbouring ones with it.  The sender half of a reply
    channel is a number; what is sent is recorded in order. *)

From S2P Require Import Prelude Text Command EngineError Store State Crypto Wal WalFacts.
From S2P Require Import WalLayout Wire Request Response ServerError Engine Transaction Backup.
From S2P Require Import Replication DiskLog Storage DiskEngine EngineWorker.

#[export] Instance WalSyncPolicy_eq_dec : EqDecision WalSyncPolicy.
Proof. solve_decision. Defined.

Record PendingExecute := mkPendingExecute {
  pe_request_id : Uuid;
  pe_consensus_term : Z;
  pe_command : Command;
  pe_respond_to : nat;
}.

Inductive EngineRequest :=
| ReqExecute (execute : PendingExecute)
| ReqExecuteBatch (consensus_term : Z) (commands : list Command) (respond_to : nat)
| ReqExecuteWriteBatch (consensus_term : Z) (commands : list (Uuid * Command)) (respond_to : nat)
| ReqAppendNoop (consensus_term : Z) (respond_to : nat)
| ReqLastAppliedState (respond_to : nat)
| ReqInfo (respond_to : nat)
| ReqSnapshot (respond_to : nat)
| ReqValidateBackup (dump : string) (respond_to : nat)
| ReqSweepExpired (respond_to : nat)
| ReqReplicationSnapshot (respond_to : nat)
| ReqWalEntriesSince (after_sequence : Z) (limit : nat) (respond_to : nat)
| ReqWalEntryChecksum (sequence : Z) (respond_to : nat)
| ReqWalEntryTerm (sequence : Z) (respond_to : nat)
| ReqApplyReplicationSnapshot (snapshot : ReplicationSnapshot) (respond_to : nat)
| ReqApplyReplicationEntries (entries : list WalEntry) (respond_to : nat)
| ReqReplaceReplicationSuffix (prefix_sequence : Z) (entries : list WalEntry) (respond_to : nat).

(** What is sent back, by the type of the channel. *)
Inductive EngineReply :=
| RepExecute (r : result ServerError ExecuteResult)
| RepTransaction (r : result ServerError (list TransactionResult))
| RepWriteBatch (r : result ServerError (list ExecuteResult))
| RepPosition (r : result ServerError LogAppendResult)
| RepEntries (r : result ServerError (list (string * string)))
| RepUnit (r : result ServerError unit)
| RepCount (r : result ServerError Z)
| RepSnapshot (r : result ServerError ReplicationSnapshot)
| RepWal (r : result ServerError (list WalEntry))
| RepField (r : result ServerError (option Z)).

(** The requests still queued and the replies sent. *)
Record Worker := mkWorker {
  wk_engine : DiskEngine;
  wk_receiver : list EngineRequest;
  wk_pending : list EngineRequest;
  wk_sent : list (nat * EngineReply);
}.

Definition respond_to (request : EngineRequest) : nat :=
  match request with
  | ReqExecute execute => pe_respond_to execute
  | ReqExecuteBatch _ _ to | ReqExecuteWriteBatch _ _ to | ReqAppendNoop _ to
  | ReqLastAppliedState to | ReqInfo to | ReqSnapshot to | ReqValidateBackup _ to
  | ReqSweepExpired to | ReqReplicationSnapshot to | ReqWalEntriesSince _ _ to
  | ReqWalEntryChecksum _ to | ReqWalEntryTerm _ to | ReqApplyReplicationSnapshot _ to
  | ReqApplyReplicationEntries _ to | ReqReplaceReplicationSuffix _ _ to => to
  end.

Definition MAX_WRITE_BATCH : nat := 64.

(** [drain_write_batch] on the requests that are in the channel; the request that
    ends the batch goes to [pending]. *)
Fixpoint drain_write_batch (consensus_term : Z) (receiver pending : list EngineRequest)
    (batch : list PendingExecute) : list EngineRequest * list EngineRequest * list PendingExecute :=
  if Nat.ltb (length batch) MAX_WRITE_BATCH then
    match receiver with
    | [] => ([], pending, batch)
    | ReqExecute execute :: receiver =>
        if (pe_consensus_term execute =? consensus_term) && is_batchable_engine_write (pe_command execute)
        then drain_write_batch consensus_term receiver pending (batch ++ [execute])
        else (receiver, pending ++ [ReqExecute execute], batch)
    | other :: receiver => (receiver, pending ++ [other], batch)
    end
  else (receiver, pending, batch).

Section queue.
Context `{Crc32} `{CryptoLib} `{Binary WalEntry} `{Binary Manifest} `{Binary StoredKeyring}
  `{SnapshotCodec} `{NonceSource} `{Base64} `{BackupJson} (uuid_to_string : list byte -> string).

Definition wal_sync_policy (de : DiskEngine) : WalSyncPolicy := dw_sync_policy (dl_writer (de_log de)).

(** [process_write_batch]: what is in the channel is drained; with the strictest sync
    policy a batch that is not full waits, and takes what is there then ([late]
    arrives in the meantime). *)
Definition process_write_batch (i : CommandInputs) (late : list EngineRequest) (first : PendingExecute)
    (w : Worker) : Worker :=
  let term := pe_consensus_term first in
  let '(receiver, pending, batch) := drain_write_batch term (wk_receiver w) (wk_pending w) [first] in
  let '(receiver, pending, batch) :=
    if bool_decide (wal_sync_policy (wk_engine w) = SyncData) && Nat.ltb (length batch) MAX_WRITE_BATCH
    then drain_write_batch term (receiver ++ late) pending batch
    else (receiver ++ late, pending, batch) in
  let '(engine, replies) :=
    run_write_batch (ci_now_ms i) term
      ((fun execute => (pe_request_id execute, pe_command execute)) <$> batch) (wk_engine w) in
  mkWorker engine receiver pending
    (wk_sent w ++ zip (pe_respond_to <$> batch) (RepExecute <$> replies)).

(** The other requests: one operation of the engine each. *)
Definition serve (i : CommandInputs) (request : EngineRequest) (de : DiskEngine)
    : DiskEngine * EngineReply :=
  let reply {A} (rep : result ServerError A -> EngineReply) (m : fallible DiskEngine ServerError A) :=
    let '(de, r) := m de in (de, rep r) in
  let now := ci_now_ms i in
  match request with
  | ReqExecute execute =>
      reply RepExecute (process_single_execute uuid_to_string i (pe_consensus_term execute)
                          (pe_request_id execute) (pe_command execute))
  | ReqExecuteBatch term commands _ =>
      reply RepTransaction (execute_batch now (ci_entry_ms i) term commands)
  | ReqExecuteWriteBatch term commands _ =>
      reply RepWriteBatch (process_explicit_write_batch now term commands)
  | ReqAppendNoop term _ => reply RepPosition (worker_append_noop (ci_entry_ms i) term)
  | ReqLastAppliedState _ => (de, RepPosition (Ok (last_applied_state de)))
  | ReqInfo _ => reply RepEntries (call (info uuid_to_string now))
  | ReqSnapshot _ => reply RepUnit (call (snapshot (ci_snapshot i)))
  | ReqValidateBackup dump _ => reply RepCount (core (validate_logical_backup now dump))
  | ReqSweepExpired _ => reply RepCount (core (Engine.sweep_expired now))
  | ReqReplicationSnapshot _ => (de, RepSnapshot (Ok (replication_snapshot de now)))
  | ReqWalEntriesSince after_sequence limit _ =>
      (de, RepWal (from_engine (wal_entries_since (de_core de) after_sequence limit)))
  | ReqWalEntryChecksum sequence _ => (de, RepField (Ok (wal_entry_checksum (de_core de) sequence)))
  | ReqWalEntryTerm sequence _ => (de, RepField (Ok (wal_entry_term (de_core de) sequence)))
  | ReqApplyReplicationSnapshot snapshot _ =>
      reply RepCount (_ ← call (apply_replication_snapshot now (in_nonce (ci_snapshot i)) snapshot);
                      mret (md_last_applied_sequence (es_metadata (rs_state snapshot))))
  | ReqApplyReplicationEntries entries _ =>
      reply RepCount (core (apply_replication_entries entries))
  | ReqReplaceReplicationSuffix prefix entries _ =>
      reply RepCount (call (replace_replication_suffix now prefix entries))
  end.

Definition serve_one (i : CommandInputs) (late : list EngineRequest) (request : EngineRequest)
    (w : Worker) : Worker :=
  let '(engine, reply) := serve i request (wk_engine w) in
  mkWorker engine (wk_receiver w ++ late) (wk_pending w) (wk_sent w ++ [(respond_to request, reply)]).

Definition handle_request (i : CommandInputs) (late : list EngineRequest) (request : EngineRequest)
    (w : Worker) : Worker :=
  match request with
  | ReqExecute execute =>
      if is_batchable_engine_write (pe_command execute)
      then process_write_batch i late execute w else serve_one i late request w
  | _ => serve_one i late request w
  end.

(** One turn of the loop, in which [late] arrives; the thread waits when nothing is
    queued. *)
Definition turn (i : CommandInputs) (late : list EngineRequest) (w : Worker) : Worker :=
  match wk_pending w, wk_receiver w with
  | request :: pending, receiver =>
      handle_request i late request (mkWorker (wk_engine w) receiver pending (wk_sent w))
  | [], request :: receiver =>
      handle_request i late request (mkWorker (wk_engine w) receiver [] (wk_sent w))
  | [], [] => mkWorker (wk_engine w) late [] (wk_sent w)
  end.

(** Turns without new requests. *)
Fixpoint turns (inputs : list CommandInputs) (w : Worker) : Worker :=
  match inputs with
  | [] => w
  | i :: inputs => turns inputs (turn i [] w)
  end.

End queue.
