(* ===== verification/Node.v ===== *)
(** * Node: replication handlers of a server (crates/server/src/server/mod.rs, ha_write_coordinator.rs)

    A node is its engine, its replication runtime and its read index.  The handlers
    of append and snapshot requests, the fetch of a follower, the fan-out of a
    leader and the write coordinator are state transformers of the node; where the
    source waits for the network, a handler ends and the answer is the argument of
    the next one.  Handlers hold the apply lock, so they do not interleave.  Metrics
    and logging are left out. *)

From S2P Require Import Prelude Text Command EngineError Store State Wire Request Response.
From S2P Require Import ServerError ReadIndex Consensus Engine DiskEngine EngineWorker.
Import ReplicationRuntime.

(** ** Messages (replication/mod.rs) *)

Record AppendEntriesRequest := mkAppendEntriesRequest {
  aq_term : Z;
  aq_leader_node_id : string;
  aq_leader_addr : string;
  aq_commit_sequence : Z;
  aq_leader_frontier_sequence : Z;
  aq_prev_sequence : Z;
  aq_prev_term : option Z;
  aq_prev_entry_checksum : option Z;
  aq_entries : list WalEntry;
  aq_members : list ClusterMember;
}.

Record AppendEntriesResponse := mkAppendEntriesResponse {
  ap_term : Z;
  ap_accepted : bool;
  ap_match_sequence : Z;
}.

Record SnapshotInstallRequest := mkSnapshotInstallRequest {
  sq_term : Z;
  sq_leader_node_id : string;
  sq_leader_addr : string;
  sq_commit_sequence : Z;
  sq_members : list ClusterMember;
  sq_snapshot : ReplicationSnapshot;
}.

Record SnapshotInstallResponse := mkSnapshotInstallResponse {
  sp_term : Z;
  sp_accepted : bool;
  sp_applied_sequence : Z;
}.

Record ReplicationFetchRequest := mkReplicationFetchRequest {
  fq_after_sequence : Z;
  fq_limit : nat;
}.

Record ReplicationAckRequest := mkReplicationAckRequest {
  kq_follower_node_id : string;
  kq_applied_sequence : Z;
  kq_term : Z;
  kq_leader_node_id : string;
}.

(** What a leader sends to one peer. *)
Inductive PeerMessage :=
| SendAppend (request : AppendEntriesRequest)
| SendSnapshot (request : SnapshotInstallRequest).

Record Node (E : Type) := mkNode {
  nd_engine : E;
  nd_runtime : ReplicationRuntime;
  nd_index : ReadIndexState;
}.
#[global] Arguments mkNode {E} _ _ _.
#[global] Arguments nd_engine {E} _.
#[global] Arguments nd_runtime {E} _.
#[global] Arguments nd_index {E} _.

(** ** Commands of a leader *)

Definition is_write_command (command : Command) : bool :=
  match command with
  | CmdSet _ _ _ | CmdSetNx _ _ | CmdGetDel _ | CmdGetEx _ (Some _) _ | CmdGetEx _ _ true
  | CmdMSet _ | CmdDelete _ | CmdIncr _ | CmdDecr _ | CmdExpire _ _ | CmdPersist _
  | CmdRename _ _ | CmdRenameNx _ _ | CmdClear | CmdSave | CmdSnapshot | CmdRestore _
  | CmdRestoreFrom _ | CmdAlterUserPassword _ _ | CmdCreateUser _ _ | CmdDropUser _
  | CmdCreateRole _ | CmdDropRole _ | CmdGrantRole _ _ | CmdRevokeRole _ _
  | CmdGrantPermission _ _ _ | CmdRevokePermission _ _ _ | CmdMaintenanceOn | CmdMaintenanceOff
  | CmdMulti | CmdExec | CmdDiscard | CmdPromoteFollower | CmdPauseReplication
  | CmdResumeReplication | CmdClusterJoin _ _ | CmdClusterRemove _ => true
  | _ => false
  end.

Definition replication_role_accepts_writes (role : ReplicationRole) : bool :=
  match role with RoleStandalone | RoleLeader => true | _ => false end.

Definition enforce_leader_writeability (rt : ReplicationRuntime) (command : Command)
    : result ServerError unit :=
  if negb (is_write_command command) then Ok tt
  else if negb (replication_role_accepts_writes (role rt)) then Err SrvReplicationReadOnly
  else if negb (write_window_available rt) then Err SrvReplicationAckUnavailable
  else Ok tt.

Definition should_use_read_fast_path (rt : ReplicationRuntime) : bool :=
  match role rt with RoleStandalone | RoleLeader => true | _ => false end.

Definition is_ha_write_coordinator_command (command : Command) : bool :=
  match command with
  | CmdSet _ _ _ | CmdSetNx _ _ | CmdGetDel _ | CmdGetEx _ (Some _) _ | CmdGetEx _ _ true
  | CmdMSet _ | CmdDelete _ | CmdExpire _ _ | CmdPersist _ | CmdRename _ _ | CmdRenameNx _ _
  | CmdClear => true
  | _ => false
  end.

Definition replacement_entries_after (prefix_sequence : Z) (entries : list WalEntry)
    : list WalEntry :=
  List.filter (fun entry => prefix_sequence <? we_sequence entry) entries.

Section node.
Context {E : Type} `{EngineHandle E} `{EntryChecksum} `{ReplicationJson}.

Notation M := (fallible (Node E) ServerError).

Definition on_engine {A} (m : fallible E EngineError A) : M A :=
  fun node =>
    let '(e, r) := m (nd_engine node) in
    (mkNode e (nd_runtime node) (nd_index node), from_engine r).
Definition on_worker {A} (m : fallible E ServerError A) : M A :=
  fun node =>
    let '(e, r) := m (nd_engine node) in (mkNode e (nd_runtime node) (nd_index node), r).
Definition on_runtime {A} (m : fallible ReplicationRuntime ServerError A) : M A :=
  fun node =>
    let '(rt, r) := m (nd_runtime node) in (mkNode (nd_engine node) rt (nd_index node), r).
Definition on_index {A} (m : fallible ReadIndexState ServerError A) : M A :=
  fun node =>
    let '(index, r) := m (nd_index node) in (mkNode (nd_engine node) (nd_runtime node) index, r).
Definition with_runtime (f : ReplicationRuntime -> ReplicationRuntime) : M unit :=
  on_runtime (mmodify f).

Definition engine_sequence (node : Node E) : Z := last_sequence (eh_state (nd_engine node)).

(** The term and checksum of the last applied entry go to the runtime. *)
Definition publish_applied (sequence : Z) : M unit :=
  node ← mget;
  with_runtime (set_local_last_applied_state sequence
    (eh_wal_entry_term (nd_engine node) sequence)
    (eh_wal_entry_checksum (nd_engine node) sequence)).

(** ** The read index follows the log *)

(** The loop of [advance_read_index_to]. *)
Fixpoint advance_loop (fuel : nat) (target_sequence : Z) : M unit :=
  node ← mget;
  if target_sequence <=? ri_committed_sequence (nd_index node) then mret tt
  else
    match fuel with
    | O => mret tt
    | S fuel =>
        entries ← mpure (from_engine (eh_wal_entries_since (nd_engine node)
                     (ri_committed_sequence (nd_index node))
                     (rc_fetch_batch_size (rr_config (nd_runtime node)))));
        match entries with
        | [] => mret tt
        | _ =>
            _ ← on_index (CommittedReadIndex.apply_entries entries);
            advance_loop fuel target_sequence
        end
    end.

(** Every round moves the index by an entry at least, so the distance to the
    target bounds the number of rounds. *)
Definition advance_read_index_to (target_sequence : Z) : M unit :=
  node ← mget;
  advance_loop (Z.to_nat (target_sequence - ri_committed_sequence (nd_index node))) target_sequence.

(** ** A follower takes entries of a leader *)

(** The loop over the entries of a request: [inl prefix] when the local entry
    behind [prefix] differs, [inr last] when all entries up to [last] agree. *)
Fixpoint find_overlap (e : E) (current_sequence overlap_match_sequence : Z)
    (entries : list WalEntry) : result EngineError (Z + Z) :=
  match entries with
  | [] => Ok (inr overlap_match_sequence)
  | entry :: entries =>
      if current_sequence <? we_sequence entry then Ok (inr overlap_match_sequence)
      else
        entry_checksum ← checksum entry;
        if negb (bool_decide (eh_wal_entry_term e (we_sequence entry) = Some (we_term entry))) ||
           negb (bool_decide (eh_wal_entry_checksum e (we_sequence entry) = Some entry_checksum))
        then Ok (inl (saturating_sub (we_sequence entry) 1))
        else find_overlap e current_sequence (we_sequence entry) entries
  end.

(** [skip_while(|entry| entry.sequence < suffix_start)]. *)
Fixpoint skip_below (start : Z) (entries : list WalEntry) : list WalEntry :=
  match entries with
  | [] => []
  | entry :: rest => if we_sequence entry <? start then skip_below start rest else entries
  end.

(** The entries of a request reach the log; the result is the sequence applied. *)
Definition merge_entries (ms : Z) (current_sequence prev_sequence : Z) (entries : list WalEntry)
    : M Z :=
  node ← mget;
  overlap ← mpure (from_engine (find_overlap (nd_engine node) current_sequence prev_sequence entries));
  match overlap with
  | inl prefix_sequence =>
      on_engine (eh_replace_replication_suffix ms prefix_sequence
                   (replacement_entries_after prefix_sequence entries))
  | inr overlap_match_sequence =>
      match skip_below (saturating_add overlap_match_sequence 1) entries with
      | [] =>
          if overlap_match_sequence <? current_sequence
          then on_engine (eh_replace_replication_suffix ms overlap_match_sequence [])
          else mret (Z.max current_sequence overlap_match_sequence)
      | (first :: _) as suffix =>
          if negb (saturating_add current_sequence 1 =? we_sequence first) then
            on_engine (eh_replace_replication_suffix ms overlap_match_sequence
                         (replacement_entries_after overlap_match_sequence suffix))
          else on_engine (eh_apply_replication_entries suffix)
      end
  end.

(** What both ways out of the request do with the applied sequence. *)
Definition finish_append (payload : AppendEntriesRequest) (target_sequence applied_sequence term : Z)
    : M AppendEntriesResponse :=
  _ ← publish_applied applied_sequence;
  _ ← with_runtime (observe_leader_commit (aq_commit_sequence payload));
  node ← mget;
  _ ← advance_read_index_to (Z.min (commit_sequence (nd_runtime node)) applied_sequence);
  _ ← (if target_sequence <=? applied_sequence
       then with_runtime (update_follower_phase PhaseStreaming (Some 0) (Some 0)) else mret tt);
  mret (mkAppendEntriesResponse term true applied_sequence).

(** The request behind the heartbeat: the log is compared and merged. *)
Definition append_entries (ms : Z) (payload : AppendEntriesRequest) (term : Z)
    : M AppendEntriesResponse :=
  node ← mget;
  let current_sequence := engine_sequence node in
  let prev := aq_prev_sequence payload in
  let target_sequence :=
    Z.max (match last (aq_entries payload) with
           | Some entry => we_sequence entry
           | None => aq_commit_sequence payload
           end) (aq_commit_sequence payload) in
  let reject (match_sequence : Z) := mret (mkAppendEntriesResponse term false match_sequence) in
  _ ← with_runtime (note_leader_frontier target_sequence);
  _ ← (if current_sequence <? target_sequence
       then with_runtime (update_follower_phase PhaseCatchingUp None None) else mret tt);
  if negb (bool_decide (eh_wal_entry_term (nd_engine node) prev = aq_prev_term payload)) ||
     negb (bool_decide (eh_wal_entry_checksum (nd_engine node) prev = aq_prev_entry_checksum payload))
  then reject (saturating_sub prev 1)
  else
    match aq_entries payload with
    | [] =>
        if current_sequence <? prev then reject current_sequence
        else
          applied_sequence ← (if prev <? current_sequence
                              then on_engine (eh_replace_replication_suffix ms prev [])
                              else mret current_sequence);
          finish_append payload target_sequence applied_sequence term
    | entries =>
        applied_sequence ← merge_entries ms current_sequence prev entries;
        finish_append payload target_sequence applied_sequence term
    end.

(** The request [ReplicationAppend]. *)
Definition handle_append (env : Env) (ms : Z) (payload : AppendEntriesRequest)
    : M AppendEntriesResponse :=
  node ← mget;
  let reject (term : Z) (node : Node E) :=
    mret (mkAppendEntriesResponse term false (local_last_applied_sequence (nd_runtime node))) in
  if aq_term payload <? current_term (nd_runtime node)
  then reject (current_term (nd_runtime node)) node
  else
    heartbeat ← on_runtime (handle_heartbeat env
      (mkHeartbeatRequest (aq_term payload) (aq_leader_node_id payload) (aq_leader_addr payload)
         (aq_commit_sequence payload) (aq_leader_frontier_sequence payload) (aq_members payload)));
    node ← mget;
    if negb (hs_accepted heartbeat) then reject (hs_term heartbeat) node
    else append_entries ms payload (hs_term heartbeat).

(** The request [ReplicationInstallSnapshot]. *)
Definition handle_install_snapshot (env : Env) (ms : Z) (nonce : list byte)
    (payload : SnapshotInstallRequest) : M SnapshotInstallResponse :=
  node ← mget;
  if sq_term payload <? current_term (nd_runtime node) then
    mret (mkSnapshotInstallResponse (current_term (nd_runtime node)) false
            (local_last_applied_sequence (nd_runtime node)))
  else
    _ ← on_runtime (handle_heartbeat env
      (mkHeartbeatRequest (sq_term payload) (sq_leader_node_id payload) (sq_leader_addr payload)
         (sq_commit_sequence payload) (sq_commit_sequence payload) (sq_members payload)));
    _ ← on_engine (eh_apply_replication_snapshot ms nonce (sq_snapshot payload));
    let applied_sequence := last_sequence (rs_state (sq_snapshot payload)) in
    _ ← publish_applied applied_sequence;
    _ ← with_runtime (observe_leader_commit (sq_commit_sequence payload));
    node ← mget;
    _ ← on_index (mput (CommittedReadIndex.rebuild_from_engine_state (eh_state (nd_engine node))));
    mret (mkSnapshotInstallResponse (current_term (nd_runtime node)) true applied_sequence).

(** The other replication requests. *)
Definition handle_fetch (payload : ReplicationFetchRequest) : M (list WalEntry) :=
  node ← mget;
  mpure (from_engine (eh_wal_entries_since (nd_engine node) (fq_after_sequence payload)
                        (fq_limit payload))).

Definition handle_ack (env : Env) (payload : ReplicationAckRequest) : M unit :=
  with_runtime (register_follower_ack env (kq_follower_node_id payload)
                  (kq_applied_sequence payload) (kq_term payload) (kq_leader_node_id payload)).

(** ** A follower fetches (run_replication_round_from) *)

(** Up to the fetch: the status of the leader is adopted; [None] when the local
    log is not behind. *)
Definition round_status (env : Env) (upstream : string) (status : ReplicationStatusSnapshot)
    : M (option ReplicationFetchRequest) :=
  if negb (bool_decide (ss_role status = "leader"%string))
  then mfail (SrvInvalidArguments ("replication source " +:+ upstream +:+ " is not leader"))
  else
    _ ← on_runtime (observe_leader_status env (ss_node_id status) (ss_advertise_addr status)
          (ss_current_term status) (ss_commit_sequence status)
          (Z.max (ss_local_last_applied_sequence status) (ss_commit_sequence status))
          (ss_members status));
    node ← mget;
    let local_sequence := engine_sequence node in
    if (ss_commit_sequence status <? local_sequence) ||
       (ss_local_last_applied_sequence status <? local_sequence)
    then mret None
    else mret (Some (mkReplicationFetchRequest local_sequence
                       (rc_fetch_batch_size (rr_config (nd_runtime node))))).

(** From the fetched entries to the acknowledgement. *)
Definition round_apply (status : ReplicationStatusSnapshot) (entries : list WalEntry)
    : M (option ReplicationAckRequest) :=
  node ← mget;
  let current_sequence := engine_sequence node in
  if (ss_commit_sequence status <? current_sequence) ||
     (ss_local_last_applied_sequence status <? current_sequence)
  then mret None
  else
    let entries := List.filter (fun entry => (current_sequence <? we_sequence entry) &&
                     (we_sequence entry <=? ss_commit_sequence status)) entries in
    let expected := saturating_add current_sequence 1 in
    let ack (sequence : Z) :=
      Some (mkReplicationAckRequest (rc_node_id (rr_config (nd_runtime node))) sequence
              (ss_current_term status) (ss_node_id status)) in
    match entries with
    | [] => mret (ack current_sequence)
    | first :: _ =>
        if negb (we_sequence first =? expected) then
          mfail (SrvInvalidArguments ("replication fetch gap: expected " +:+ int_to_string expected
                   +:+ ", got " +:+ int_to_string (we_sequence first)))
        else
          applied_sequence ← on_engine (eh_apply_replication_entries entries);
          _ ← publish_applied applied_sequence;
          mret (ack applied_sequence)
    end.

(** What is left to fetch when the acknowledgement was taken. *)
Definition round_lag (status : ReplicationStatusSnapshot) (current_sequence : Z) : Z * bool :=
  let lag_entries := saturating_sub (ss_commit_sequence status) current_sequence in
  (lag_entries, lag_entries =? 0).

(** ** A leader sends (send_cluster_appends_locked) *)

(** One peer: entries behind its position, or a snapshot when the log no longer
    has the entry before them. *)
Definition plan_peer (now_ms : Z) (node : Node E) (heartbeat : HeartbeatRequest)
    (members : list ClusterMember) (cached_entries : list WalEntry) (prev_sequence : Z)
    : result EngineError PeerMessage :=
  let fetch_batch_size := rc_fetch_batch_size (rr_config (nd_runtime node)) in
  let append (prev_term prev_checksum : option Z) :=
    SendAppend (mkAppendEntriesRequest (hb_term heartbeat) (hb_leader_node_id heartbeat)
      (hb_leader_addr heartbeat) (hb_commit_sequence heartbeat)
      (hb_leader_frontier_sequence heartbeat) prev_sequence prev_term prev_checksum
      (take fetch_batch_size
         (List.filter (fun entry => prev_sequence <? we_sequence entry) cached_entries))
      members) in
  if prev_sequence =? 0 then Ok (append None None)
  else
    (* collecting into a map keeps the last entry of a sequence *)
    match List.find (fun entry => we_sequence entry =? prev_sequence) (reverse cached_entries) with
    | Some prev_entry =>
        prev_checksum ← checksum prev_entry;
        Ok (append (Some (we_term prev_entry)) (Some prev_checksum))
    | None =>
        Ok (SendSnapshot (mkSnapshotInstallRequest (hb_term heartbeat) (hb_leader_node_id heartbeat)
              (hb_leader_addr heartbeat) (hb_commit_sequence heartbeat) members
              (eh_replication_snapshot now_ms (nd_engine node))))
    end.

Definition minimum (d : Z) (l : list Z) : Z := match l with [] => d | x :: l => foldr Z.min x l end.

Definition plan_appends (env : Env) (now_ms : Z) : M (list (ClusterMember * PeerMessage)) :=
  node ← mget;
  if negb (bool_decide (role (nd_runtime node) = RoleLeader)) then mret []
  else
    let local_sequence := engine_sequence node in
    _ ← publish_applied local_sequence;
    node ← mget;
    match leader_heartbeat_payload (nd_runtime node) with
    | None => mret []
    | Some heartbeat =>
        _ ← with_runtime (note_leader_activity env);
        node ← mget;
        let peers := List.filter (fun member => cm_voter member &&
                       negb (bool_decide (cm_node_id member = hb_leader_node_id heartbeat)))
                       (hb_members heartbeat) in
        let prev (member : ClusterMember) :=
          saturating_sub (follower_next_sequence (cm_node_id member) (nd_runtime node)) 1 in
        let cache_after_sequence :=
          saturating_sub (minimum local_sequence (prev <$> peers)) 1 in
        let batch := Z.of_nat (rc_fetch_batch_size (rr_config (nd_runtime node))) in
        let cache_limit :=
          Z.max (saturating_add (saturating_sub local_sequence cache_after_sequence) batch) batch in
        cached_entries ← mpure (from_engine (eh_wal_entries_since (nd_engine node)
                           cache_after_sequence (Z.to_nat cache_limit)));
        mpure (from_engine (mapM (fun member =>
          message ← plan_peer now_ms node heartbeat (current_members (nd_runtime node))
                      cached_entries (prev member);
          Ok (member, message)) peers))
    end.

(** One answer of the fan-out; a snapshot's answer counts like an append's. *)
Definition take_answer (env : Env) (term : Z) (leader_node_id : string) (member : ClusterMember)
    (answer : AppendEntriesResponse) : M unit :=
  if term <? ap_term answer then on_runtime (observe_remote_term env (ap_term answer))
  else with_runtime (record_append_result env (cm_node_id member) (ap_accepted answer)
                       (ap_match_sequence answer) term leader_node_id).

(** ** The write coordinator (ha_write_coordinator.rs) *)

Definition rollback_uncommitted_tail (ms : Z) : M unit :=
  node ← mget;
  let commit := commit_sequence (nd_runtime node) in
  if engine_sequence node <=? commit then mret tt
  else
    applied_sequence ← on_engine (eh_replace_replication_suffix ms commit []);
    publish_applied applied_sequence.

(** [max_by_key] of the positions: the last of the largest ones. *)
Definition later_position (acc : option LogAppendResult) (r : ExecuteResult) : option LogAppendResult :=
  match acc with
  | Some best =>
      if la_last_applied_sequence best <=? la_last_applied_sequence (er_last_applied r)
      then Some (er_last_applied r) else acc
  | None => Some (er_last_applied r)
  end.

(** [process_batch] up to the fan-out: the batch is executed and its frontier
    published. *)
Definition coordinate_writes (now_ms rollback_ms : Z) (batch : list (Uuid * Command))
    : M (list ExecuteResult * Z) :=
  node ← mget;
  if negb (bool_decide (role (nd_runtime node) = RoleLeader)) then mfail SrvReplicationReadOnly
  else
    _ ← mpure (foldM (fun _ request => enforce_leader_writeability (nd_runtime node) request.2) tt batch);
    let consensus_term := current_term (nd_runtime node) in
    results ← on_worker (eh_execute_write_batch now_ms consensus_term batch);
    node ← mget;
    if negb (bool_decide (role (nd_runtime node) = RoleLeader)) ||
       negb (is_leader_for_term consensus_term (nd_runtime node))
    then _ ← rollback_uncommitted_tail rollback_ms; mfail SrvReplicationAckUnavailable
    else
      match foldl later_position None results with
      | None => mfail SrvEngineWorkerClosed
      | Some frontier =>
          _ ← with_runtime (set_local_last_applied_state (la_last_applied_sequence frontier)
                (la_last_applied_term frontier) (la_last_applied_checksum frontier));
          mret (results, la_last_applied_sequence frontier)
      end.

(** [process_batch] after the fan-out, with the outcome of [drive_write_commit].  An
    error is the answer to the first request of the batch; the others are told that
    no acknowledgement is available. *)
Definition finish_writes (rollback_ms : Z) (results : list ExecuteResult) (frontier : Z)
    (driven : result ServerError unit) : M (list (result ServerError Response)) :=
  match driven with
  | Err err => _ ← rollback_uncommitted_tail rollback_ms; mfail err
  | Ok _ =>
      _ ← advance_read_index_to frontier;
      mret ((fun r =>
        if la_last_applied_sequence (er_last_applied r) <=? frontier then Ok (er_response r)
        else Err SrvReplicationAckUnavailable) <$> results)
  end.

(** What a new leader does once it has won: an empty entry of its term. *)
Definition lead (entry_ms term : Z) : M unit :=
  node ← mget;
  if negb (is_leader_for_term term (nd_runtime node)) then mret tt
  else
    noop ← on_worker (eh_append_noop entry_ms term);
    with_runtime (set_local_last_applied_state (la_last_applied_sequence noop)
      (la_last_applied_term noop) (la_last_applied_checksum noop)).

(** A read command where the fast path applies. *)
Definition fast_read (now_ms : Z) (request_id : Uuid) (command : Command) (node : Node E)
    : option (result ServerError Response) :=
  if is_fast_path_read command && should_use_read_fast_path (nd_runtime node)
  then Some (CommittedReadIndex.read_command (nd_index node) now_ms request_id command)
  else None.

End node.
