(* ===== verification/WritePath.v ===== *)
(** * WritePath: from a write to its acknowledgement (crates/server/src/server/mod.rs,
    ha_write_coordinator.rs, replication/mod.rs)

    A leader sends its log to the other voters and waits until enough of them hold
    the entries of a write.  What the network does is an argument: the answers that
    arrive in a round, in their order, and the acknowledgements that arrive while the
    leader waits.  Deadlines are reached when the rounds that were given are used up. *)

From S2P Require Import Prelude Text Command EngineError Store State Wire Request Response.
From S2P Require Import ServerError ReadIndex Consensus Engine DiskEngine EngineWorker Node.
Import ReplicationRuntime.

(** What happens in one round of the fan-out and until the next one. *)
Record FanOut := mkFanOut {
  fo_env : Env;
  fo_now_ms : Z;
  fo_answers : list (string * AppendEntriesResponse);
  fo_timed_out : bool;
  fo_acks : list (Env * ReplicationAckRequest);
}.

Section write_path.
Context {E : Type} `{EngineHandle E} `{EntryChecksum} `{ReplicationJson}.

Notation M := (fallible (Node E) ServerError).

(** The loop over the answers of the fan-out. *)
Fixpoint take_answers (env : Env) (term : Z) (leader_node_id : string) (local_sequence : Z)
    (answers : list (ClusterMember * AppendEntriesResponse)) : M unit :=
  match answers with
  | [] => mret tt
  | (member, answer) :: answers =>
      _ ← take_answer env term leader_node_id member answer;
      if term <? ap_term answer then mret tt
      else
        node ← mget;
        if bool_decide (rc_write_ack_mode (rr_config (nd_runtime node)) = AckReplica) &&
           (local_sequence <=? commit_sequence (nd_runtime node))
        then mret tt
        else take_answers env term leader_node_id local_sequence answers
  end.

(** The answers to requests that were sent. *)
Definition answers_of (plans : list (ClusterMember * PeerMessage))
    (answers : list (string * AppendEntriesResponse)) : list (ClusterMember * AppendEntriesResponse) :=
  answers ≫= fun '(node_id, answer) =>
    match List.find (fun plan => bool_decide (cm_node_id plan.1 = node_id)) plans with
    | Some plan => [(plan.1, answer)]
    | None => []
    end.

Definition send_cluster_appends_locked (round : FanOut) : M unit :=
  plans ← plan_appends (fo_env round) (fo_now_ms round);
  node ← mget;
  take_answers (fo_env round) (current_term (nd_runtime node)) (rc_node_id (rr_config (nd_runtime node)))
    (engine_sequence node) (answers_of plans (fo_answers round)).

(** With the time limit around it; the answers before it are in effect. *)
Definition send_cluster_heartbeats_with_timeout (round : FanOut) : M unit :=
  _ ← send_cluster_appends_locked round;
  if fo_timed_out round then mfail SrvReplicationAckUnavailable else mret tt.

(** The result of an action whose error is looked at. *)
Definition attempt {A} (m : M A) : M (result ServerError A) :=
  fun node => let '(node, r) := m node in (node, Ok r).

Definition receive_acks (acks : list (Env * ReplicationAckRequest)) : M unit :=
  mfor (fun '(env, ack) => handle_ack env ack) acks.

(** [wait_for_write_ack], woken up by each of [wakeups]. *)
Fixpoint wait_for_write_ack (env : Env) (wakeups : list (list (Env * ReplicationAckRequest)))
    (sequence : Z) : M unit :=
  node ← mget;
  if bool_decide (rc_write_ack_mode (rr_config (nd_runtime node)) = AckLocal) then mret tt
  else if sequence <=? commit_sequence (nd_runtime node) then mret tt
  else
    match wakeups with
    | acks :: wakeups => _ ← receive_acks acks; wait_for_write_ack env wakeups sequence
    | [] =>
        let deadline := Z.min (ev_clock env 0) (ev_clock env 1) in
        mpure (default (Ok tt) (poll_write_ack env deadline sequence (nd_runtime node)))
    end.

(** The loop of [drive_write_commit]; when it runs into its deadline it waits once
    more ([env] and [wakeups]). *)
Fixpoint drive_loop (env : Env) (wakeups : list (list (Env * ReplicationAckRequest)))
    (sequence : Z) (rounds : list FanOut) : M unit :=
  node ← mget;
  if sequence <=? commit_sequence (nd_runtime node) then mret tt
  else if negb (bool_decide (role (nd_runtime node) = RoleLeader)) then mfail SrvReplicationAckUnavailable
  else
    match rounds with
    | [] => wait_for_write_ack env wakeups sequence
    | round :: rounds =>
        sent ← attempt (send_cluster_heartbeats_with_timeout round);
        node ← mget;
        if sequence <=? commit_sequence (nd_runtime node) then mret tt
        else
          match sent, rounds with
          | Err _, [] => wait_for_write_ack env wakeups sequence
          | _, _ => _ ← receive_acks (fo_acks round); drive_loop env wakeups sequence rounds
          end
    end.

Definition drive_write_commit (env : Env) (wakeups : list (list (Env * ReplicationAckRequest)))
    (rounds : list FanOut) (sequence : Z) : M unit :=
  node ← mget;
  if bool_decide (rc_write_ack_mode (rr_config (nd_runtime node)) = AckLocal) then mret tt
  else drive_loop env wakeups sequence rounds.

(** ** Writes *)

(** What a write waits through: a first fan-out when the node leads, the rounds of
    [drive_write_commit], and the time of a rollback. *)
Record WriteInputs := mkWriteInputs {
  wt_first : FanOut;
  wt_rounds : list FanOut;
  wt_env : Env;
  wt_wakeups : list (list (Env * ReplicationAckRequest));
  wt_rollback_ms : Z;
}.

Definition commit_write (i : WriteInputs) (sequence : Z) : M unit :=
  driven ← attempt (drive_write_commit (wt_env i) (wt_wakeups i) (wt_rounds i) sequence);
  match driven with
  | Err err => _ ← rollback_uncommitted_tail (wt_rollback_ms i); mfail err
  | Ok _ => advance_read_index_to sequence
  end.

(** What follows a write of the engine: its position is published, sent, and waited
    for; without enough acknowledgements it is undone. *)
Definition publish_and_commit (i : WriteInputs) (fan_out : bool) (position : LogAppendResult) : M unit :=
  let sequence := la_last_applied_sequence position in
  _ ← with_runtime (set_local_last_applied_state sequence (la_last_applied_term position)
        (la_last_applied_checksum position));
  node ← mget;
  _ ← (if fan_out && bool_decide (role (nd_runtime node) = RoleLeader)
       then attempt (send_cluster_heartbeats_with_timeout (wt_first i)) else mret (Ok tt));
  commit_write i sequence.

(** [process_batch] of the write coordinator. *)
Definition process_batch (i : WriteInputs) (now_ms : Z) (batch : list (Uuid * Command))
    : M (list (result ServerError Response)) :=
  executed ← coordinate_writes now_ms (wt_rollback_ms i) batch;
  _ ← attempt (send_cluster_heartbeats_with_timeout (wt_first i));
  driven ← attempt (drive_write_commit (wt_env i) (wt_wakeups i) (wt_rounds i) executed.2);
  finish_writes (wt_rollback_ms i) executed.1 executed.2 driven.

End write_path.
