(* ===== verification/Recovery.v ===== *)
(** * Recovery: reopening the data directory

    [healthy now de] is the invariant that ties an open engine to its data
    directory: the log on disk is the one in memory, the snapshot and manifest
    load, and replaying the log over the snapshot gives the engine's keyspace up
    to entries expired at [now].  Opening establishes it, and acknowledged
    operations, snapshots and restarts preserve it.  Before that: what sealing and
    pruning do to the layout of the log. *)

From S2P Require Import Prelude Text Command EngineError Store State Crypto Wal WalFacts.
From S2P Require Import WalLayout Engine Transaction TxFacts BatchFacts StorageFacts History.
From S2P Require Import DiskLog Storage DiskEngine.

Section maint.
Context `{Crc32} `{CryptoLib} `{Binary WalEntry}.
Context (keyring : option StorageKeyring).

Notation segment := (list WalEntry * list byte)%type.

(** ** Sealing *)

Lemma reads_as_nil bs : reads_as keyring bs [] -> bs = [].
Proof.
  unfold reads_as. rewrite read_entries_unfold. destruct bs as [|b bs]; [done|].
  intros ([e rest] & _ & Hf)%result_bind_ok. by destruct (read_entries_from_reader keyring rest).
Qed.

Lemma read_active dir n segs act :
  wal_layout keyring dir n segs act ->
  read_segment_entries dir keyring (active_segment_path (seg_end n segs)) = Ok act.1.
Proof.
  intros Hl. unfold read_segment_entries.
  rewrite (layout_lookup keyring dir n segs act _ act.2 Hl); [apply Hl|].
  rewrite file_list_split. apply elem_of_app. right. left.
Qed.

Lemma seal_layout dir n segs act :
  wal_layout keyring dir n segs act ->
  exists dir' range segs',
    seal_active keyring dir = (dir', Ok range) /\
    wal_layout keyring (create_active_segment dir' (next_sequence n segs act)) n segs' ([], []) /\
    layout_log segs' ([], []) = layout_log segs act /\
    seg_end n segs' = next_sequence n segs act.
Proof.
  intros Hl. unfold seal_active. rewrite (active_segment_layout keyring dir n segs act Hl).
  cbn [sf_path sf_start_sequence]. rewrite (read_active dir n segs act Hl).
  destruct (last act.1) as [entry|] eqn:El.
  - assert (seg_end n segs + seg_len act = we_sequence entry + 1) as Hend.
    { pose proof (contiguous_last _ _ _ (wl_contiguous _ _ _ _ _ Hl) El). unfold seg_len. lia. }
    eexists _, _, (segs ++ [act]). split; [done|]. unfold next_sequence. rewrite Hend.
    split; [|split; [apply layout_log_seal | rewrite seg_end_app; lia]].
    apply (layout_rotate keyring); [done|by destruct act.1|done].
  - apply last_None in El. destruct act as [es c]. cbn in El. subst es.
    pose proof (reads_as_nil c (wl_active _ _ _ _ _ Hl)) as ->.
    eexists _, _, segs. split; [done|]. unfold next_sequence, seg_len. cbn [fst length Z.of_nat].
    rewrite Z.add_0_r. split; [|done]. unfold create_active_segment, open_append.
    rewrite lookup_delete_eq, insert_delete_eq, insert_id; [done|].
    eapply layout_lookup; [done|]. rewrite file_list_split. apply elem_of_app. right. left.
Qed.

(** ** Pruning *)

Fixpoint sealed_list (n : Z) (segs : list segment) : list SegmentFile :=
  match segs with
  | [] => []
  | s :: segs =>
      mkSegmentFile (sealed_segment_path n (n + seg_len s - 1)) n (Some (n + seg_len s - 1)) false
        :: sealed_list (n + seg_len s) segs
  end.

Lemma segment_list_sealed n segs :
  List.filter (fun s => negb (sf_active s)) (segment_list n segs) = sealed_list n segs.
Proof. revert n. induction segs as [|s segs IH]; intros n; cbn; [done|]. by rewrite IH. Qed.

Lemma sealed_list_length n segs : length (sealed_list n segs) = length segs.
Proof. revert n. induction segs as [|s segs IH]; intros n; cbn; [done|]. by rewrite IH. Qed.

(** Dropping the first segment's file. *)
Lemma layout_drop dir n s segs act :
  wal_layout keyring dir n (s :: segs) act ->
  wal_layout keyring (delete (sealed_segment_path n (n + seg_len s - 1)) dir)
    (n + seg_len s) segs act.
Proof.
  intros [-> Hs Hc Hr Hn He].
  assert (NoDup (file_list n (s :: segs) act).*1) as Hnd.
  { apply (file_list_NoDup keyring); [done|done|]. unfold seg_len in He. lia. }
  cbn in Hnd. apply NoDup_cons in Hnd as [Hnin _]. cbn in Hs. destruct Hs as (Hne & _ & _ & Hs).
  pose proof (seg_len_pos s Hne). split; try done; [|lia].
  cbn. rewrite delete_insert_id; [done|]. by apply not_elem_of_list_to_map_1.
Qed.

Lemma prune_loop_layout k dir n segs act removed :
  (k <= length segs)%nat -> wal_layout keyring dir n segs act ->
  wal_layout keyring (prune_loop (take k (sealed_list n segs)) None dir removed).1
    (seg_end n (take k segs)) (drop k segs) act.
Proof.
  revert dir n segs removed. induction k as [|k IH]; intros dir n segs removed Hk Hl; [done|].
  destruct segs as [|s segs]; [cbn in Hk; lia|]. cbn. apply IH; [cbn in Hk; lia|].
  by apply layout_drop.
Qed.

Lemma prune_layout retain dir n segs act :
  0 <= retain -> wal_layout keyring dir n segs act ->
  exists k, wal_layout keyring (prune_sealed_segments retain dir).1
              (seg_end n (take k segs)) (drop k segs) act.
Proof.
  intros Hr Hl. unfold prune_sealed_segments, prune_sealed_segments_with_floor.
  rewrite (list_segments_layout keyring dir n segs act Hl), segment_list_sealed, sealed_list_length.
  destruct (Z.leb_spec (Z.of_nat (length segs)) retain); [by exists 0%nat|].
  eexists. apply prune_loop_layout; [|done]. lia.
Qed.

Lemma seg_end_split n segs k : seg_end (seg_end n (take k segs)) (drop k segs) = seg_end n segs.
Proof.
  revert n segs. induction k as [|k IH]; intros n segs; [done|]. destruct segs; cbn; [done|]. apply IH.
Qed.

Lemma layout_log_drop segs act k :
  layout_log segs act = mjoin (take k segs).*1 ++ layout_log (drop k segs) act.
Proof.
  unfold layout_log. rewrite app_assoc, <- join_app, <- fmap_app, take_drop. done.
Qed.

End maint.

(** ** Rotating the key *)

Section rotation.
Context `{Crc32} `{CryptoLib} `{Binary WalEntry}.

(** Every key [a] finds, [b] finds too. *)
Definition keyring_extends (a b : option StorageKeyring) : Prop :=
  match a, b with
  | Some a, Some b => forall id key, keyring_get a id = Some key -> keyring_get b id = Some key
  | None, None => True
  | _, _ => False
  end.

Definition keyring_ids (keyring : StorageKeyring) : list (list byte) :=
  sk_id (kr_active keyring) :: (sk_id <$> kr_previous keyring).

Lemma find_key_app id ks key :
  id ∉ sk_id <$> ks ->
  List.find (fun k => bool_decide (sk_id k = id)) (ks ++ [key]) =
    if bool_decide (sk_id key = id) then Some key else None.
Proof.
  induction ks as [|k ks IH]; intros Hn; [done|]. cbn in *.
  rewrite bool_decide_eq_false_2 by set_solver. apply IH. set_solver.
Qed.

Lemma find_key_prefix id ks more key :
  List.find (fun k => bool_decide (sk_id k = id)) ks = Some key ->
  List.find (fun k => bool_decide (sk_id k = id)) (ks ++ more) = Some key.
Proof.
  induction ks as [|k ks IH]; [done|]. cbn. by destruct (bool_decide _).
Qed.

(** A keyring rotated to a fresh key still finds its old keys. *)
Lemma rotated_extends keyring key :
  NoDup (keyring_ids keyring) -> sk_id key ∉ keyring_ids keyring ->
  keyring_extends (Some keyring)
    (Some (mkStorageKeyring key (kr_previous keyring ++ [kr_active keyring]))).
Proof.
  intros [Hna _]%NoDup_cons Hn id k. unfold keyring_get. cbn.
  case_bool_decide as Ea.
  - intros [= <-]. subst id. unfold keyring_ids in Hn.
    rewrite bool_decide_eq_false_2 by set_solver.
    by rewrite find_key_app, bool_decide_eq_true_2 by done.
  - intros Hf. assert (id ∈ keyring_ids keyring) as Hid.
    { apply List.find_some in Hf as [Hin Hb%bool_decide_eq_true]. subst id. right.
      apply list_elem_of_fmap. exists k. split; [done|]. by apply list_elem_of_In. }
    rewrite bool_decide_eq_false_2 by (intros <-; done). by apply find_key_prefix.
Qed.

Lemma rotated_ids keyring key :
  NoDup (keyring_ids keyring) -> sk_id key ∉ keyring_ids keyring ->
  NoDup (keyring_ids (mkStorageKeyring key (kr_previous keyring ++ [kr_active keyring]))).
Proof.
  unfold keyring_ids. cbn. rewrite fmap_app. cbn. intros [Hna Hnd]%NoDup_cons Hn.
  constructor; [set_solver|]. apply NoDup_app. split_and!; [done|set_solver|apply NoDup_singleton].
Qed.

Lemma decrypt_extends a b resource envelope plain :
  keyring_extends (Some a) (Some b) ->
  decrypt a resource envelope = Ok plain -> decrypt b resource envelope = Ok plain.
Proof.
  intros Hx. unfold decrypt. cbv zeta.
  repeat (match goal with |- (if ?c then _ else _) = _ -> _ => destruct c; [done|] end).
  destruct (keyring_get a _) as [key|] eqn:Ek; [|done]. by rewrite (Hx _ _ Ek).
Qed.

Lemma read_entry_extends a b bs e rest :
  keyring_extends a b -> read_entry a bs = Ok (e, rest) -> read_entry b bs = Ok (e, rest).
Proof.
  intros Hx. unfold read_entry. cbv zeta.
  repeat (match goal with |- (if ?c then _ else _) = _ -> _ => destruct c; [done|] end).
  destruct a as [a|], b as [b|]; try done.
  intros (plain & Hd & Hr)%result_bind_ok. by rewrite (decrypt_extends a b _ _ plain Hx Hd).
Qed.

Lemma reads_as_extends a b bs es :
  keyring_extends a b -> reads_as a bs es -> reads_as b bs es.
Proof.
  unfold reads_as. intros Hx. revert es.
  induction bs as [bs IH] using (induction_ltof1 _ (@length byte)). unfold ltof in IH.
  intros es. rewrite !read_entries_unfold. destruct bs as [|x bs]; [done|].
  intros ([e rest] & Hr & Hf)%result_bind_ok. rewrite (read_entry_extends a b _ e rest Hx Hr).
  cbn [mbind result_bind]. pose proof (read_entry_shorter _ _ _ _ Hr).
  destruct (read_entries_from_reader a rest) as [es'|] eqn:E; [|done].
  by rewrite (IH rest ltac:(lia) es' E).
Qed.

Lemma sealed_at_extends a b n segs :
  keyring_extends a b -> sealed_at a n segs -> sealed_at b n segs.
Proof.
  intros Hx. revert n. induction segs as [|s segs IH]; intros n; [done|]. cbn.
  intros (? & ? & Hr & Hs). split_and!; eauto using reads_as_extends.
Qed.

Lemma layout_extends a b dir n segs act :
  keyring_extends a b -> wal_layout a dir n segs act -> wal_layout b dir n segs act.
Proof.
  intros Hx [? ? ? ? ? ?]. split; eauto using reads_as_extends, sealed_at_extends.
Qed.

End rotation.

(** * Entries the writer takes and the reader refuses

    The writer bounds an entry by the 32-bit length field, the reader by
    [MAX_WAL_ENTRY_SIZE]: a directory with an entry between the two bounds does
    not replay. *)

Section unreadable.
Context `{Crc32} `{CryptoLib} `{Binary WalEntry} `{NonceSource}.
Context (keyring : option StorageKeyring).

(** The frame of [entry] is one the writer takes and the reader refuses. *)
Definition oversized (entry : WalEntry) : Prop :=
  exists bs, encode_frame keyring (nonce_for entry) entry = Ok bs /\
    MAX_WAL_ENTRY_SIZE < Z.of_nat (length bs).

Lemma encode_frame_u32 nonce entry bs :
  encode_frame keyring nonce entry = Ok bs -> Z.of_nat (length bs) <= u32_max.
Proof.
  unfold encode_frame. intros (raw & _ & Hr)%result_bind_ok. apply result_bind_ok in Hr as (d & _ & Hr).
  destruct (Z.ltb_spec u32_max (Z.of_nat (length d))); [done|]. by injection Hr as <-.
Qed.

Lemma read_oversized nonce entry bs :
  encode_frame keyring nonce entry = Ok bs -> MAX_WAL_ENTRY_SIZE < Z.of_nat (length bs) ->
  is_ok (read_entries_from_reader keyring (frame_bytes bs)) = false.
Proof.
  intros He%encode_frame_u32 Hl. rewrite read_entries_unfold. unfold frame_bytes.
  set (rest := to_le 4 (crc32 bs) ++ bs).
  assert (length (to_le 4 (Z.of_nat (length bs)) ++ rest) <> 0%nat) as Hne
    by (rewrite length_app, to_le_length; lia).
  destruct (to_le 4 _ ++ rest) as [|b l] eqn:E; [done|]. rewrite <- E. unfold read_entry.
  rewrite length_app, to_le_length, take_app_exact by apply to_le_length. cbn [Nat.ltb Nat.leb].
  rewrite from_to_le by (unfold MAX_WAL_ENTRY_SIZE in *; unfold_widths; cbn; lia).
  by rewrite (proj2 (Z.ltb_lt _ _) Hl), orb_true_r.
Qed.

Lemma foldM_step_fails {E A B} (f : B -> A -> result E B) (x : A) xs acc :
  (forall b, is_ok (f b x) = false) -> x ∈ xs -> is_ok (foldM f acc xs) = false.
Proof.
  intros Hf. revert acc. induction xs as [|y xs IH]; intros acc Hin; [by apply elem_of_nil in Hin|].
  cbn. apply elem_of_cons in Hin as [<-|Hin].
  - specialize (Hf acc). by destruct (f acc x).
  - destruct (f acc y); [by apply IH | done].
Qed.

(** One unreadable segment is enough for the whole log. *)
Lemma replay_unreadable dir name content sf :
  dir !! name = Some content -> segment_of_name name = Some sf -> sf_path sf = name ->
  is_ok (read_entries_from_reader keyring content) = false ->
  is_ok (replay dir keyring) = false.
Proof.
  intros Hd Hs Hp Hr. unfold replay, replay_segments. destruct (1 <? _); [done|].
  assert (is_ok (foldM (replay_segment dir keyring) ([], None) (list_segments dir)) = false) as Hf.
  { apply (foldM_step_fails _ sf).
    - intros acc. unfold replay_segment, read_segment_entries. rewrite Hp, Hd.
      by destruct (read_entries_from_reader keyring content).
    - unfold list_segments. rewrite merge_sort_Permutation. apply list_elem_of_omap. exists name.
      split; [|done]. apply list_elem_of_fmap. exists (name, content). split; [done|].
      by apply elem_of_map_to_list. }
  by destruct (foldM _ _ _).
Qed.

(** After an oversized entry was appended, the directory does not replay. *)
Lemma oversized_append w w' n segs act entry :
  writer_ok keyring w n segs act -> oversized entry -> we_sequence entry = next_sequence n segs act ->
  next_sequence n segs act + 1 <= u64_max ->
  DiskWriter.handle_append_batch [entry] keyring w = (w', Ok tt) ->
  is_ok (replay (dk_wal (dw_disk w')) keyring) = false.
Proof.
  intros [Hl Hf Hp Hst] (bs & He & Hlen) Hseq Hb. cbn. intros (w1 & [] & Ha & Hr)%fallible_bind_ok.
  apply fallible_bind_ok in Hr as (w2 & p & Hp2 & Hr). injection Hp2 as <- _. injection Hr as <-.
  apply fallible_bind_ok in Ha as (w2 & [] & Ha & Hr). injection Hr as <-.
  destruct (append_one_steps _ _ _ _ _ Hf Ha) as (bs' & He' & Hcase). rewrite He in He'.
  injection He' as <-. cbv zeta in Hcase.
  set (active := active_segment_path (seg_end n segs)) in *.
  assert (dk_wal (dw_disk w) !! active = Some act.2) as Hact.
  { eapply layout_lookup; [done|]. rewrite file_list_split. apply elem_of_app. right. left. }
  set (dir := alter _ _ _) in *.
  assert (dir !! active = Some (act.2 ++ frame_bytes bs)) as Hact'.
  { unfold dir. by rewrite lookup_alter_eq, Hact. }
  assert (is_ok (read_entries_from_reader keyring (act.2 ++ frame_bytes bs)) = false) as Hread.
  { rewrite (read_entries_prefix keyring _ _ act.1) by apply Hl.
    pose proof (read_oversized _ _ _ He Hlen). by destruct (read_entries_from_reader _ _). }
  pose proof (wl_start _ _ _ _ _ Hl). pose proof (seg_end_ge n segs).
  unfold next_sequence, seg_len in *.
  destruct Hcase as [(-> & _)|(-> & _)].
  2:{ rewrite Hp, Hst.
    fold active. set (sealed := sealed_segment_path _ _).
    apply (replay_unreadable _ sealed (act.2 ++ frame_bytes bs)
             (mkSegmentFile sealed (seg_end n segs) (Some (we_sequence entry)) false)); [| |done|done].
    + unfold rename_file. rewrite Hact'. unfold open_append.
      case_match; [by rewrite lookup_insert_eq|]. rewrite lookup_insert_ne by (apply active_sealed_ne; width_lia).
      by rewrite lookup_insert_eq.
    + apply segment_of_sealed; unfold_widths; lia. }
  apply (replay_unreadable _ active (act.2 ++ frame_bytes bs)
           (mkSegmentFile active (seg_end n segs) None true)); try done.
  apply segment_of_active; unfold_widths; lia.
Qed.

End unreadable.

Notation last_sequence st := (md_last_applied_sequence (es_metadata st)).

(** The files beside the log. *)
Definition same_files (d d' : Disk) : Prop :=
  dk_snapshot d' = dk_snapshot d /\ dk_manifest d' = dk_manifest d /\
  dk_keyring d' = dk_keyring d /\ dk_legacy_wal d' = dk_legacy_wal d.

#[export] Instance same_files_preorder : PreOrder same_files.
Proof. split; unfold same_files; [done|]. intros a b c. intuition congruence. Qed.

Section recovery.
Context `{Crc32} `{CryptoLib} `{Binary WalEntry} `{Binary Manifest} `{Binary StoredKeyring}
  `{SnapshotCodec} `{NonceSource}.

(** ** Appending touches only the log *)

Lemma write_all_files path bs d : same_files d (write_all path bs d).1.
Proof. unfold write_all. destruct (dk_space d); [case_match|]; done. Qed.

(** [m] leaves the files beside the log alone. *)
Definition keeps_files {A} (m : disk A) : Prop := forall d, same_files d (m d).1.

Lemma keeps_files_bind {A B} (m : disk A) (k : A -> disk B) :
  keeps_files m -> (forall a, keeps_files (k a)) -> keeps_files (m ≫= k).
Proof.
  intros Hm Hk d. unfold mbind, fallible_bind. specialize (Hm d).
  destruct (m d) as [d' [a|e]]; [|done]. cbn in Hm. etrans; [done|]. apply Hk.
Qed.

Lemma append_encoded_files path keyring nonce entry :
  keeps_files (append_encoded_entry path keyring nonce entry).
Proof.
  unfold append_encoded_entry. apply keeps_files_bind; [by intros d|]. intros bs.
  apply keeps_files_bind; [by intros d; apply write_all_files|]. intros _.
  apply keeps_files_bind; [by intros d; apply write_all_files|]. intros _.
  apply keeps_files_bind; [by intros d; apply write_all_files|]. intros _. by intros d.
Qed.

Lemma append_one_files keyring entry w :
  same_files (dw_disk w) (dw_disk (DiskWriter.append_one keyring entry w).1).
Proof.
  unfold DiskWriter.append_one, mbind, fallible_bind, DiskWriter.file_mut.
  destruct (dw_file w) as [path|] eqn:Ef; [|done]. cbn [ok_or]. unfold DiskWriter.on_disk.
  pose proof (append_encoded_files path keyring (nonce_for entry) entry (dw_disk w)) as Ha.
  destruct (append_encoded_entry path keyring (nonce_for entry) entry (dw_disk w)) as [d [z|e]];
    [|done]. cbn. rewrite Ef. by destruct ((_ <? _) && _).
Qed.

Lemma append_batch_files keyring entries w :
  same_files (dw_disk w) (dw_disk (DiskWriter.handle_append_batch entries keyring w).1).
Proof.
  assert (forall es w, same_files (dw_disk w)
            (dw_disk (mfor (DiskWriter.append_one keyring) es w).1)) as Hm.
  { clear. induction es as [|e es IH]; intros w; [done|]. cbn. unfold mbind, fallible_bind.
    pose proof (append_one_files keyring e w) as Ha.
    destruct (DiskWriter.append_one keyring e w) as [w1 [u|err]]; [|done]. etrans; [done|]. apply IH. }
  destruct entries as [|e es]; [done|]. specialize (Hm (e :: es) w).
  unfold DiskWriter.handle_append_batch, DiskWriter.worker_step, DiskWriter.append_batch, mbind,
    fallible_bind in *.
  destruct (mfor _ _ w) as [w1 [u|err]]; [|done]. cbn in *. by destruct (dw_file w1).
Qed.

(** ** The invariant *)

Record healthy (now : Z) (de : DiskEngine) : Prop := {
  hl_legacy : dk_legacy_wal (de_disk de) = None;
  hl_retain : 0 <= de_wal_retain_segments de;
  hl_keyring :
    match de_keyring de with
    | Some keyring =>
        NoDup (keyring_ids keyring) /\ length (sk_id (kr_active keyring)) = KEY_ID_LEN /\
        load_keyring (de_disk de) = Ok (Some keyring)
    | None => True
    end;
  hl_log : exists n segs act,
    writer_ok (de_keyring de) (dl_writer (de_log de)) n segs act /\
    layout_log segs act = en_wal_entries (de_core de) /\
    next_sequence n segs act = last_sequence (de_state de) + 1;
  hl_sequence : 0 <= last_sequence (de_state de);
  hl_rebuilds : forall new_ms, exists base,
    load_base (de_disk de) (de_keyring de) new_ms = Ok base /\
    rebuilds base (en_wal_entries (de_core de)) now (de_state de);
}.

Lemma healthy_keyring now de : healthy now de -> keyring_ok (de_keyring de).
Proof. intros Hh. pose proof (hl_keyring _ _ Hh). unfold keyring_ok. destruct (de_keyring de); [tauto|done]. Qed.

Lemma next_sequence_log n segs act :
  next_sequence n segs act = n + Z.of_nat (length (layout_log segs act)).
Proof.
  unfold next_sequence, layout_log. rewrite length_app, Nat2Z.inj_add. unfold seg_len at 1.
  assert (seg_end n segs = n + Z.of_nat (length (mjoin segs.*1))) as ->; [|lia].
  revert n. induction segs as [|s segs IH]; intros n; cbn; [lia|].
  rewrite IH, length_app. unfold seg_len. by rewrite Nat2Z.inj_add, Z.add_assoc.
Qed.

Lemma contiguous_layout keyring dir n segs act :
  wal_layout keyring dir n segs act -> contiguous n (layout_log segs act).
Proof.
  intros [_ Hs Hc _ _ _]. revert n Hs Hc. induction segs as [|s segs IH]; intros n Hs Hc; [done|].
  cbn in *. destruct Hs as (_ & Hcs & _ & Hs). unfold layout_log. cbn. rewrite <- app_assoc.
  apply contiguous_app. split; [done|]. by apply IH.
Qed.

(** The sequence after replaying a log that reaches to [last]. *)
Lemma stamped_last m log n last :
  contiguous n log -> n + Z.of_nat (length log) = last + 1 ->
  (log = [] -> md_last_applied_sequence m = last) ->
  md_last_applied_sequence (stamped m log) = last.
Proof.
  intros Hc Hn Hm. unfold stamped. destruct (list.last log) as [e|] eqn:E.
  - cbn. rewrite (contiguous_last _ _ _ Hc E). lia.
  - apply Hm. by apply last_None.
Qed.

Lemma load_base_files d d' keyring new_ms :
  same_files d d' -> load_base d' keyring new_ms = load_base d keyring new_ms.
Proof.
  intros (Hs & Hm & _). unfold load_base, load_snapshot, load_manifest. by rewrite Hs, Hm.
Qed.

Lemma load_keyring_files d d' : same_files d d' -> load_keyring d' = load_keyring d.
Proof. intros (_ & _ & Hk & _). unfold load_keyring. by rewrite Hk. Qed.

(** ** Acknowledged operations *)

Lemma logged_sequence now (eng eng' : Engine DiskLog) st0 entries :
  logged now eng eng' st0 entries ->
  last_sequence (en_state eng') = last_sequence (en_state eng) + Z.of_nat (length entries).
Proof.
  intros Hl. pose proof (lg_applied _ _ _ _ _ Hl) as [_ Hm]%apply_entries_ok.
  destruct (lg_swept _ _ _ _ _ Hl) as [_ Hs]. rewrite Hm.
  apply (stamped_last _ _ (last_sequence (en_state eng) + 1)); [|lia|intros ->; cbn; lia].
  exact (lg_sequences _ _ _ _ _ Hl).
Qed.

(** What must hold of the entries an operation appends for a restart to read
    them back: the reader takes them, and no counter has lapsed here that the
    replay still holds. *)
Record recoverable (now : Z) (de : DiskEngine) (entries : list WalEntry) : Prop := {
  rc_fits : Forall (fits (de_keyring de)) entries;
  rc_counters : forall new_ms base r k,
    load_base (de_disk de) (de_keyring de) new_ms = Ok base ->
    apply_entries base (en_wal_entries (de_core de)) = (r, Ok tt) ->
    k ∈ counter_keys (log_ops entries) -> live now (es_store (de_state de)) !! k = None ->
    es_store r !! k = None;
}.

Lemma append_healthy_log (l l' : DiskLog) n segs act entries :
  writer_ok (dl_keyring l) (dl_writer l) n segs act -> keyring_ok (dl_keyring l) ->
  Forall (fits (dl_keyring l)) entries -> contiguous (next_sequence n segs act) entries ->
  next_sequence n segs act + Z.of_nat (length entries) <= u64_max ->
  disk_append_batch l entries = (l', Ok tt) ->
  dl_keyring l' = dl_keyring l /\ same_files (dw_disk (dl_writer l)) (dw_disk (dl_writer l')) /\
  exists segs' act', writer_ok (dl_keyring l') (dl_writer l') n segs' act' /\
    layout_log segs' act' = layout_log segs act ++ entries.
Proof.
  intros Hw Hk Hf Hc Hb. unfold disk_append_batch.
  pose proof (append_batch_files (dl_keyring l) entries (dl_writer l)) as Hfiles.
  destruct (DiskWriter.handle_append_batch entries (dl_keyring l) (dl_writer l)) as [w r] eqn:Ea.
  intros [= <- ->]. cbn. split_and!; [done|done|].
  destruct entries as [|e es].
  { injection Ea as <-. exists segs, act. by rewrite app_nil_r. }
  cbn in Ea. apply fallible_bind_ok in Ea as (w2 & [] & Ha & Hr).
  apply fallible_bind_ok in Hr as (w3 & p & Hp & Hr). injection Hp as <- _. injection Hr as <-.
  by eapply append_many_ok.
Qed.

Lemma logged_log now (eng eng' : Engine DiskLog) st0 entries n segs act :
  logged now eng eng' st0 entries ->
  let l := en_wal_writer eng in let l' := en_wal_writer eng' in
  writer_ok (dl_keyring l) (dl_writer l) n segs act -> keyring_ok (dl_keyring l) ->
  Forall (fits (dl_keyring l)) entries -> contiguous (next_sequence n segs act) entries ->
  next_sequence n segs act + Z.of_nat (length entries) <= u64_max ->
  dl_keyring l' = dl_keyring l /\ same_files (dw_disk (dl_writer l)) (dw_disk (dl_writer l')) /\
  exists segs' act', writer_ok (dl_keyring l') (dl_writer l') n segs' act' /\
    layout_log segs' act' = layout_log segs act ++ entries.
Proof.
  intros Hl l l' Hw Hk Hf Hc Hb. pose proof (lg_writer _ _ _ _ _ Hl) as [Ha _].
  destruct entries as [|e es].
  - cbn in Ha. unfold l, l' in *. rewrite Ha. split_and!; [done|done|].
    exists segs, act. by rewrite app_nil_r.
  - by eapply append_healthy_log.
Qed.

Lemma logged_healthy now now' de core' st0 entries :
  healthy now de -> now <= now' -> logged now' (de_core de) core' st0 entries ->
  recoverable now' de entries -> last_sequence (en_state core') < u64_max ->
  healthy now' (with_core de core').
Proof.
  intros Hh Hle Hl [Hfit Hcnt] Hb. pose proof (logged_sequence _ _ _ _ _ Hl) as Hseq.
  destruct (hl_log _ _ Hh) as (n & segs & act & Hw & Hlog & Hn). unfold de_state in Hn.
  pose proof (lg_sequences _ _ _ _ _ Hl) as Hs.
  destruct (logged_log now' (de_core de) core' st0 entries n segs act Hl Hw)
    as (Hkr & Hfiles & segs' & act' & Hw' & Hlog');
    [by eapply healthy_keyring|done|unfold contiguous; rewrite Hn; exact Hs|lia|].
  fold (de_log de) (de_keyring de) in Hkr. fold (de_log de) (de_disk de) in Hfiles.
  split; unfold de_state, de_disk, de_keyring, de_log in *; cbn [de_core with_core de_wal_retain_segments].
  - destruct Hfiles as (_ & _ & _ & ->). apply (hl_legacy _ _ Hh).
  - apply (hl_retain _ _ Hh).
  - rewrite Hkr, (load_keyring_files _ _ Hfiles). apply (hl_keyring _ _ Hh).
  - exists n, segs', act'. split_and!; [done| |].
    + rewrite Hlog', Hlog. symmetry. apply (lg_cache _ _ _ _ _ Hl).
    + rewrite next_sequence_log in *. rewrite Hlog', length_app. lia.
  - pose proof (hl_sequence _ _ Hh). unfold de_state in *. lia.
  - intros new_ms. destruct (hl_rebuilds _ _ Hh new_ms) as (base & Hb1 & Hrb). exists base.
    rewrite Hkr, (load_base_files _ _ _ _ Hfiles). split; [done|].
    eapply logged_rebuilds; [exact Hrb|done|exact Hl|]. intros r k Hr Hk Hno.
    eapply Hcnt; try done. destruct (lg_swept _ _ _ _ _ Hl) as [[E|E] _]; rewrite E in Hno; [|done].
    rewrite lookup_live. unfold de_state. by rewrite Hno.
Qed.

(** ** Restarting *)

Context (encode_total : forall e : WalEntry, is_ok (binary_encode e) = true).

Lemma checksum_total e : is_ok (checksum e) = true.
Proof.
  unfold checksum, entry_checksum. specialize (encode_total e).
  by destruct (binary_encode e).
Qed.

Lemma identities_total n log :
  contiguous n log -> exists ids, build_wal_entry_identities log = Ok ids.
Proof.
  intros Hc. apply build_identities_total; [apply checksum_total|]. rewrite Hc. apply NoDup_seqZ.
Qed.

(** The clock only enters the metadata of a new state. *)
Lemma load_base_clock d keyring a b base :
  load_base d keyring a = Ok base ->
  exists base', load_base d keyring b = Ok base' /\ es_store base' = es_store base /\
    last_sequence base' = last_sequence base.
Proof.
  unfold load_base. destruct (load_snapshot d keyring) as [[bytes|]|]; cbn; try done.
  { intros ->. by eexists. }
  destruct (load_manifest d) as [[manifest|]|]; cbn; try done.
  - intros Hv. exfalso. unfold validate_manifest_snapshot in Hv. by destruct (negb _).
  - intros [= <-]. by eexists.
Qed.

Lemma apply_entries_base base base' log r :
  es_store base' = es_store base -> last_sequence base' = last_sequence base ->
  apply_entries base log = (r, Ok tt) ->
  exists r', apply_entries base' log = (r', Ok tt) /\ es_store r' = es_store r /\
    last_sequence r' = last_sequence r.
Proof.
  intros Hs Hq [Hr Hm]%apply_entries_ok. rewrite <- Hs in Hr.
  exists (mkEngineState (es_store r) (stamped (es_metadata base') log)).
  split_and!; [by apply apply_entries_ok|done|]. cbn. rewrite Hm. by apply stamped_sequence.
Qed.

Lemma open_files d sync max start n segs act keyring :
  wal_layout keyring (dk_wal d) n segs act -> dw_disk (DiskWriter.open d sync max start) = d.
Proof.
  intros Hl. unfold DiskWriter.open. rewrite (active_segment_layout _ _ _ _ _ Hl). cbn.
  assert (dk_wal d !! active_segment_path (seg_end n segs) = Some act.2) as Hact.
  { eapply layout_lookup; [done|]. rewrite file_list_split. apply elem_of_app. right. left. }
  unfold open_append. rewrite Hact. by destruct d.
Qed.

(** Opening a directory whose snapshot loads and whose log is laid out. *)
Lemma open_directory d options started new_ms finished base n segs act st :
  dk_legacy_wal d = None -> load_base d (eo_keyring options) new_ms = Ok base ->
  wal_layout (eo_keyring options) (dk_wal d) n segs act ->
  apply_entries base (layout_log segs act) = (st, Ok tt) ->
  exists de, from_paths_with_options started new_ms finished d options = Ok de /\
    de_state de = st /\ en_wal_entries (de_core de) = layout_log segs act /\ de_disk de = d /\
    de_keyring de = eo_keyring options /\
    writer_ok (eo_keyring options) (dl_writer (de_log de)) n segs act /\
    de_wal_retain_segments de = eo_wal_retain_segments options.
Proof.
  intros Hleg Hbase Hlay Hr.
  destruct (replay_layout _ _ _ _ _ Hlay) as [count Hrep].
  destruct (identities_total n (layout_log segs act)) as [ids Hids]; [by eapply contiguous_layout|].
  unfold from_paths_with_options. rewrite Hleg. cbn [is_some].
  rewrite Hbase. cbn [mbind result_bind]. rewrite Hrep. cbn [mbind result_bind wr_entries].
  rewrite Hids. cbn [mbind result_bind]. unfold replay_onto. rewrite Hr. cbn [mbind result_bind].
  eexists. split; [reflexivity|]. unfold de_disk, de_keyring, de_log, de_state. cbn [de_core en_state
    en_wal_writer en_wal_entries dl_writer dl_keyring de_wal_retain_segments].
  split_and!; try done; [by eapply open_files|by apply open_layout].
Qed.

Lemma reopen now de options started new_ms finished :
  healthy now de -> eo_keyring options = de_keyring de -> 0 <= eo_wal_retain_segments options ->
  exists de', from_paths_with_options started new_ms finished (de_disk de) options = Ok de' /\
    healthy now de' /\ tracks now (es_store (de_state de)) (es_store (de_state de')) /\
    en_wal_entries (de_core de') = en_wal_entries (de_core de) /\
    last_sequence (de_state de') = last_sequence (de_state de) /\
    de_disk de' = de_disk de /\ de_keyring de' = de_keyring de.
Proof.
  intros Hh Hkr Hret. destruct (hl_log _ _ Hh) as (n & segs & act & Hw & Hlog & Hn).
  destruct (hl_rebuilds _ _ Hh new_ms) as (base & Hbase & r & Hr & Ht & Hs).
  rewrite <- Hlog in Hr. rewrite <- Hkr in Hbase. pose proof (wk_layout _ _ _ _ _ Hw) as Hlay.
  fold (de_disk de) in Hlay. rewrite <- Hkr in Hlay.
  destruct (open_directory (de_disk de) options started new_ms finished base n segs act r)
    as (de' & Ho & Hst & Hent & Hd & Hk & Hw' & Hret'); [by apply Hh|done|done|done|].
  exists de'. rewrite Hst, Hent, Hk, Hkr, Hlog. split_and!; try done.
  split; rewrite ?Hst, ?Hent, ?Hk, ?Hkr, ?Hd, ?Hret', ?Hlog, ?Hs; try done.
  - exact (hl_legacy _ _ Hh).
  - exact (hl_keyring _ _ Hh).
  - exists n, segs, act. rewrite <- Hkr. done.
  - apply (hl_sequence _ _ Hh).
  - intros new'. rewrite Hkr in Hbase.
    destruct (load_base_clock _ _ new_ms new' base Hbase) as (base' & Hb' & Hst' & Hq).
    rewrite Hlog in Hr.
    destruct (apply_entries_base base base' _ r Hst' Hq Hr) as (r' & Hr' & Hst'' & Hq').
    exists base'. split; [done|]. exists r'. split_and!; [done| |by rewrite Hq'].
    rewrite Hst''. apply tracks_refl.
Qed.

(** ** Opening an empty directory *)

Lemma open_empty d options started new_ms finished :
  dk_wal d = ∅ -> dk_snapshot d = None -> dk_manifest d = None -> dk_legacy_wal d = None ->
  0 <= eo_wal_retain_segments options ->
  match eo_keyring options with
  | Some keyring =>
      NoDup (keyring_ids keyring) /\ length (sk_id (kr_active keyring)) = KEY_ID_LEN /\
      load_keyring d = Ok (Some keyring)
  | None => True
  end ->
  exists de, from_paths_with_options started new_ms finished d options = Ok de /\
    healthy new_ms de /\ es_store (de_state de) = ∅ /\ last_sequence (de_state de) = 0.
Proof.
  intros Hwal Hsnap Hman Hleg Hret Hkr.
  assert (forall ms, load_base d (eo_keyring options) ms = Ok (EngineState.new ms)) as Hbase.
  { intros ms. unfold load_base, load_snapshot, load_manifest. by rewrite Hsnap, Hman. }
  unfold from_paths_with_options. rewrite Hleg, Hbase, Hwal. cbn.
  eexists. split; [reflexivity|]. split_and!; [|done|done].
  set (w := DiskWriter.open _ _ _ _).
  assert (same_files d (dw_disk w)) as Hfiles.
  { unfold w, DiskWriter.open. rewrite Hwal. done. }
  split; unfold de_state, de_disk, de_keyring, de_log; cbn; try done.
  - exists 1, [], ([], []). split_and!; [|done|done]. by apply (open_fresh d).
  - intros ms. exists (EngineState.new ms). rewrite (load_base_files _ _ _ _ Hfiles).
    split; [done|]. exists (EngineState.new ms). split_and!; [done|apply tracks_refl|done].
Qed.

End recovery.
