(* ===== verification/SnapshotFacts.v ===== *)
(** * SnapshotFacts: snapshots keep the directory recoverable

    A snapshot saves the keyspace, seals the log, prunes old segments and writes
    the manifest.  The entries it retains are replayed over the snapshot that
    already contains them, which is harmless for the operations that set
    absolute values: the theorem asks that the retained log has no INCR or DECR. *)

From S2P Require Import Prelude Text Command EngineError Store State Crypto Wal WalFacts.
From S2P Require Import WalLayout Engine Transaction TxFacts BatchFacts StorageFacts History.
From S2P Require Import DiskLog Recovery Storage DiskEngine.

Section snapshot.
Context `{Crc32} `{CryptoLib} `{Binary WalEntry} `{Binary Manifest} `{Binary StoredKeyring}
  `{SnapshotCodec} `{NonceSource}.

(** ** Running on the parts of the engine *)

Definition set_writer (de : DiskEngine) (w : DiskWriter) : DiskEngine :=
  with_log de (mkDiskLog w (de_keyring de)).

Lemma on_writer_ok {A} (m : fallible DiskWriter EngineError A) de de' a :
  on_writer m de = (de', Ok a) ->
  exists w, m (dl_writer (de_log de)) = (w, Ok a) /\ de' = set_writer de w.
Proof.
  unfold on_writer. destruct (m _) as [w r]. intros [= <- ->]. by exists w.
Qed.

Lemma on_disk_ok {A} (m : disk A) de de' a :
  on_disk m de = (de', Ok a) ->
  exists d, m (de_disk de) = (d, Ok a) /\
    de' = set_writer de (DiskWriter.with_disk (dl_writer (de_log de)) d).
Proof.
  intros (w & Hw & ->)%on_writer_ok. unfold DiskWriter.on_disk in Hw.
  fold (de_disk de) in Hw. destruct (m (de_disk de)) as [d r]. injection Hw as <- ->. by exists d.
Qed.

Lemma on_wal_dir_ok {A} (m : fallible WalDir EngineError A) de de' a :
  on_wal_dir m de = (de', Ok a) ->
  exists dir, m (dk_wal (de_disk de)) = (dir, Ok a) /\
    de' = set_writer de (DiskWriter.with_disk (dl_writer (de_log de)) (with_wal (de_disk de) dir)).
Proof.
  intros (d & Hd & ->)%on_disk_ok. destruct (m (dk_wal (de_disk de))) as [dir r].
  injection Hd as <- ->. by exists dir.
Qed.

(** ** What is saved is the new base *)

Lemma load_base_saved d keyring st serialized at_ms active oldest new_ms :
  load_snapshot d keyring = Ok (Some serialized) -> serialize st = Ok serialized ->
  load_manifest d =
    Ok (Some (snapshot_manifest st serialized (last_sequence st) at_ms active oldest)) ->
  md_last_snapshot_at_ms (es_metadata st) = Some at_ms ->
  load_base d keyring new_ms = Ok st.
Proof.
  intros Hs Hser Hm Hat. unfold load_base. rewrite Hs. cbn [mbind result_bind].
  rewrite (deserialize_serialize _ _ Hser). cbn [mbind result_bind]. rewrite Hm.
  cbn [mbind result_bind]. unfold validate_manifest_snapshot, snapshot_manifest. cbn.
  rewrite !Z.eqb_refl. cbn. f_equal. unfold adopt_manifest. cbn. rewrite <- Hat, Z.max_id.
  destruct st as [s m]. cbn. f_equal. by destruct m.
Qed.

Lemma save_keyring_other keyring d d' :
  save_keyring keyring d = (d', Ok tt) ->
  dk_wal d' = dk_wal d /\ dk_snapshot d' = dk_snapshot d /\ dk_manifest d' = dk_manifest d /\
  dk_legacy_wal d' = dk_legacy_wal d.
Proof.
  unfold save_keyring. intros (d1 & bs & Hp & Hr)%fallible_bind_ok. injection Hp as <- _.
  by apply atomic_replace_ok in Hr as [space ->].
Qed.

Lemma save_manifest_other m d d' :
  save_manifest m d = (d', Ok tt) ->
  dk_wal d' = dk_wal d /\ dk_snapshot d' = dk_snapshot d /\ dk_keyring d' = dk_keyring d /\
  dk_legacy_wal d' = dk_legacy_wal d.
Proof.
  unfold save_manifest. intros (d1 & bs & Hp & Hr)%fallible_bind_ok. injection Hp as <- _.
  by apply atomic_replace_ok in Hr as [space ->].
Qed.

(** ** The rotation step *)

Lemma load_snapshot_extends d d' a b bytes :
  keyring_extends a b -> dk_snapshot d' = dk_snapshot d ->
  load_snapshot d a = Ok bytes -> load_snapshot d' b = Ok bytes.
Proof.
  unfold load_snapshot. intros Hx ->. destruct (dk_snapshot d) as [raw|]; [|done].
  destruct a as [a|], b as [b|]; try done. intros (plain & Hd & Hr)%result_bind_ok.
  by rewrite (decrypt_extends a b _ _ _ Hx Hd).
Qed.

Lemma load_base_extends d d' a b new_ms base :
  keyring_extends a b -> dk_snapshot d' = dk_snapshot d -> dk_manifest d' = dk_manifest d ->
  load_base d a new_ms = Ok base -> load_base d' b new_ms = Ok base.
Proof.
  intros Hx Hs Hm. unfold load_base. intros (loaded & Hl & Hr)%result_bind_ok.
  rewrite (load_snapshot_extends d d' a b loaded Hx Hs Hl). cbn [mbind result_bind].
  unfold load_manifest in *. by rewrite Hm.
Qed.

(** The drawn key id is a new one of the right length. *)
Definition fresh_key_id (id : list byte) (keyring : option StorageKeyring) : Prop :=
  match keyring with
  | Some keyring => (id ∉ keyring_ids keyring) /\ length id = KEY_ID_LEN
  | None => True
  end.

Lemma rotate_healthy now id random ms de de' :
  healthy now de -> fresh_key_id id (de_keyring de) ->
  rotate_keyring id random ms de = (de', Ok tt) ->
  healthy now de' /\ de_state de' = de_state de /\
  en_wal_entries (de_core de') = en_wal_entries (de_core de) /\
  de_wal_retain_segments de' = de_wal_retain_segments de.
Proof.
  intros Hh Hfresh. unfold rotate_keyring. destruct (de_keyring de) as [kr|] eqn:Ek;
    [|by intros [= <-]].
  destruct Hfresh as [Hfresh Hidlen]. pose proof (hl_keyring _ _ Hh) as Hkr. rewrite Ek in Hkr.
  destruct Hkr as (Hnd & Hlen & Hload). unfold rotate_if_due. destruct (_ <? _).
  { intros [= <-]. assert (with_log de (mkDiskLog (DiskWriter.with_disk (dl_writer (de_log de)) (de_disk de)) (Some kr)) = de) as ->; [|done].
    rewrite <- Ek. unfold de_disk, de_keyring. destruct de as [[st [[? ? ? ? ? ?] ?] ? ? ?] ? ? ? ?]. done. }
  set (key := mkStorageKey id (random_secret random) ms). set (kr' := mkStorageKeyring key _).
  destruct (save_keyring kr' (de_disk de)) as [d [[]|e]] eqn:Es; [|done]. intros [= <-].
  assert (keyring_extends (Some kr) (Some kr')) as Hx by (by apply rotated_extends).
  destruct (save_keyring_other _ _ _ Es) as (Hwal & Hsnap & Hman & Hleg).
  destruct (hl_log _ _ Hh) as (n & segs & act & [Hlay Hfile Hpath Hstart] & Hlog & Hn).
  split_and!; try done. rewrite Ek in Hlay.
  split; unfold de_state, de_disk, de_keyring, de_log; cbn.
  - rewrite Hleg. exact (hl_legacy _ _ Hh).
  - exact (hl_retain _ _ Hh).
  - split_and!; [by apply rotated_ids|done|by apply load_saved_keyring with (d := de_disk de)].
  - exists n, segs, act. split_and!; [|done|done]. split; try done. cbn. rewrite Hwal.
    by eapply layout_extends.
  - exact (hl_sequence _ _ Hh).
  - intros new_ms. destruct (hl_rebuilds _ _ Hh new_ms) as (base & Hb & Hr). exists base.
    split; [|done]. rewrite Ek in Hb. by eapply load_base_extends.
Qed.

(** ** Sealing, resetting and pruning the log *)

Lemma maintain_log keyring d n segs act dir range retain sync max :
  wal_layout keyring (dk_wal d) n segs act -> 0 <= retain ->
  seal_active keyring (dk_wal d) = (dir, Ok range) ->
  let next := next_sequence n segs act in
  let w := DiskWriter.open (with_wal d (create_active_segment dir next)) sync max next in
  dw_disk w = with_wal d (create_active_segment dir next) /\
  exists n' segs' pruned,
    writer_ok keyring
      (DiskWriter.with_disk w
         (with_wal (dw_disk w) (prune_sealed_segments retain (dk_wal (dw_disk w))).1))
      n' segs' ([], []) /\
    layout_log segs act = pruned ++ layout_log segs' ([], []) /\
    next_sequence n' segs' ([], []) = next.
Proof.
  intros Hl Hr Hseal next w.
  destruct (seal_layout keyring _ _ _ _ Hl) as (dir' & range' & segs1 & Hs & Hl1 & Hlog & Hend).
  rewrite Hseal in Hs. injection Hs as <- <-. fold next in Hl1, Hend.
  set (d1 := with_wal d (create_active_segment dir next)) in *.
  assert (dw_disk w = d1) as Hd by (apply (open_files d1 sync max next n segs1 ([], []) keyring Hl1)).
  split; [done|].
  destruct (prune_layout keyring retain _ _ _ _ Hr Hl1) as [k Hk].
  destruct (open_layout d1 sync max next _ _ _ _ Hl1) as [_ Hf Hp Hst]. fold w in Hf, Hp, Hst.
  clearbody w. pose proof (seg_end_split n segs1 k) as Hsplit.
  exists (seg_end n (take k segs1)), (drop k segs1), (mjoin (take k segs1).*1). split_and!.
  - split; cbn; rewrite ?Hd, ?Hsplit; [exact Hk|done..].
  - by rewrite <- Hlog, (layout_log_drop segs1 ([], []) k).
  - unfold next_sequence at 1. rewrite Hsplit. change (seg_len ([], [])) with 0. lia.
Qed.

(** Replaying over a keyspace the entries it already contains. *)
Lemma rebuilds_again base pruned retained now p st m n :
  rebuilds base (pruned ++ retained) now st -> now <= p -> counter_free (log_ops retained) = true ->
  contiguous n retained -> n + Z.of_nat (length retained) = last_sequence st + 1 ->
  md_last_applied_sequence m = last_sequence st ->
  let st' := mkEngineState (live p (es_store st)) m in rebuilds st' retained p st'.
Proof.
  intros (r & Hr & Ht & Hs) Hle Hc Hcont Hn Hm st'.
  rewrite apply_entries_app in Hr. destruct (apply_entries base pruned) as [x [[]|e]]; [|done].
  apply apply_entries_ok in Hr as [Hr _].
  destruct (replay_again p (es_store x) (log_ops retained) (es_store r) (live p (es_store st)))
    as (r' & Hr' & Ht'); [done|done|by eapply tracks_purge|].
  exists (mkEngineState r' (stamped m retained)). split_and!; [by apply apply_entries_ok|done|].
  cbn. rewrite Hm. eapply stamped_last; [done|done|]. by intros _.
Qed.

Context (encode_total : forall e : WalEntry, is_ok (binary_encode e) = true).

Lemma purge_healthy now p de :
  healthy now de -> now <= p ->
  healthy p (with_core de (Engine.with_state (de_core de) (purge_state p (de_state de)))).
Proof.
  intros Hh Hle. destruct (hl_log _ _ Hh) as (n & segs & act & [Hlay _ _ _] & _ & Hn).
  pose proof (wl_end _ _ _ _ _ Hlay). unfold next_sequence in Hn.
  eapply (logged_healthy now p de _ _ []); [done|done| | |].
  - apply logged_nothing; [|done|done]. cbn. apply swept_purge.
  - split; [done|]. intros ? ? ? k _ _ Hk. by apply elem_of_nil in Hk.
  - cbn. rewrite purge_state_sequence. lia.
Qed.

(** What the environment owes a snapshot: time does not run back, a rotated key
    has a fresh id, the envelope's length field holds the snapshot, and the
    retained log has no counters. *)
Record snapshot_conditions (now : Z) (i : SnapshotInputs) (de de' : DiskEngine) : Prop := {
  sc_time : now <= in_purge_ms i;
  sc_key : fresh_key_id (in_key_id i) (de_keyring de);
  sc_fits : forall serialized, serialize (de_state de') = Ok serialized ->
    snapshot_fits (de_keyring de') (in_nonce i) serialized;
  sc_counters : counter_free (log_ops (en_wal_entries (de_core de'))) = true;
}.

(** The files a snapshot leaves, given those it started from. *)
Lemma snapshot_files keyring nonce st serialized d1 d2 d3 d4 at_ms active oldest new_ms :
  serialize st = Ok serialized -> snapshot_fits keyring nonce serialized ->
  save_snapshot serialized keyring nonce d1 = (d2, Ok tt) ->
  same_files d2 d3 ->
  save_manifest (snapshot_manifest st serialized (last_sequence st) at_ms active oldest) d3 =
    (d4, Ok tt) ->
  md_last_snapshot_at_ms (es_metadata st) = Some at_ms ->
  load_base d4 keyring new_ms = Ok st /\ dk_wal d4 = dk_wal d3 /\ dk_wal d2 = dk_wal d1 /\
  dk_legacy_wal d4 = dk_legacy_wal d1 /\ dk_keyring d4 = dk_keyring d1.
Proof.
  intros Hser Hfits Hsave (Hs3 & _ & Hk3 & Hl3) Hman Hat.
  destruct (save_snapshot_other _ _ _ _ _ _ Hsave) as (Hw2 & _ & Hk2 & Hl2 & _).
  destruct (save_manifest_other _ _ _ Hman) as (Hw4 & Hs4 & Hk4 & Hl4).
  pose proof (load_saved_snapshot _ _ _ _ _ Hfits Hsave) as Hload.
  split_and!; [|congruence..].
  eapply load_base_saved; [|done|by eapply load_saved_manifest|done].
  unfold load_snapshot in *. by rewrite Hs4, Hs3.
Qed.

(** The part of [snapshot] after the sweep and the rotation, on the writer. *)
Definition persist_steps (i : SnapshotInputs) (de : DiskEngine) (serialized : list byte)
    (w : DiskWriter) : Prop :=
  let st := EngineState.mark_snapshot (de_state de) (in_snapshot_ms i) (last_sequence (de_state de)) in
  let next := saturating_add (last_sequence (de_state de)) 1 in
  let w0 := dl_writer (de_log de) in
  exists d2 dir range oldest d4,
    serialize st = Ok serialized /\
    save_snapshot serialized (de_keyring de) (in_nonce i) (de_disk de) = (d2, Ok tt) /\
    seal_active (de_keyring de) (dk_wal d2) = (dir, Ok range) /\
    let w5 := DiskWriter.open (with_wal d2 (create_active_segment dir next)) (dw_sync_policy w0)
                (dw_max_segment_size_bytes w0) next in
    let d6 := with_wal (dw_disk w5)
                (prune_sealed_segments (de_wal_retain_segments de) (dk_wal (dw_disk w5))).1 in
    save_manifest (snapshot_manifest st serialized (last_sequence (de_state de))
                     (in_snapshot_ms i) next oldest) d6 = (d4, Ok tt) /\
    w = DiskWriter.with_disk w5 d4.

Lemma set_wal_entries_ok entries de de' :
  set_wal_entries entries de = (de', Ok tt) ->
  exists ids, build_wal_entry_identities entries = Ok ids /\
    de' = with_core de (mkEngine (de_state de) (de_log de) entries ids
                          (en_current_consensus_term (de_core de))).
Proof.
  unfold set_wal_entries. intros (de1 & [] & H1' & Hr)%fallible_bind_ok. injection H1' as <-.
  apply fallible_bind_ok in Hr as (de2 & ids & Hi & Hr). injection Hi as <- Hi.
  injection Hr as <-. by exists ids.
Qed.

Lemma snapshot_steps i de de' :
  snapshot i de = (de', Ok tt) ->
  exists de1 serialized w replayed ids,
    rotate_keyring (in_key_id i) (in_random i) (in_rotate_ms i)
      (with_core de (Engine.with_state (de_core de) (purge_state (in_purge_ms i) (de_state de)))) =
      (de1, Ok tt) /\
    persist_steps i de1 serialized w /\
    replay (dk_wal (dw_disk w)) (de_keyring de1) = Ok replayed /\
    build_wal_entry_identities (wr_entries replayed) = Ok ids /\
    de_core de' =
      mkEngine (EngineState.mark_snapshot (de_state de1) (in_snapshot_ms i) (last_sequence (de_state de1)))
        (mkDiskLog w (de_keyring de1)) (wr_entries replayed) ids
        (en_current_consensus_term (de_core de1)) /\
    de_wal_retain_segments de' = de_wal_retain_segments de1.
Proof.
  unfold snapshot. intros (de0 & n & Hp & Hx)%fallible_bind_ok.
  unfold on_core in Hp. rewrite purge_run in Hp. injection Hp as <- _.
  apply fallible_bind_ok in Hx as (de1 & [] & Hrot & Hx).
  apply fallible_bind_ok in Hx as (? & ? & [= <- <-] & Hx).
  apply fallible_bind_ok in Hx as (? & serialized & [= <- Hser] & Hx).
  apply fallible_bind_ok in Hx as (? & [] & (d2 & Hsave & ->)%on_disk_ok & Hx).
  apply fallible_bind_ok in Hx as (? & [] & (w3 & Hclose & ->)%on_writer_ok & Hx).
  injection Hclose as <-.
  apply fallible_bind_ok in Hx as (? & range & (dir & Hseal & ->)%on_wal_dir_ok & Hx).
  apply fallible_bind_ok in Hx as (? & [] & (dir4 & Hcreate & ->)%on_wal_dir_ok & Hx).
  injection Hcreate as <-.
  apply fallible_bind_ok in Hx as (? & [] & (w5 & Hreset & ->)%on_writer_ok & Hx).
  injection Hreset as <-.
  apply fallible_bind_ok in Hx as (? & removed & (dir6 & Hprune & ->)%on_wal_dir_ok & Hx).
  apply fallible_bind_ok in Hx as (? & ? & [= <- <-] & Hx).
  apply fallible_bind_ok in Hx as (? & [] & (d7 & Hman & ->)%on_disk_ok & Hx).
  apply fallible_bind_ok in Hx as (? & [] & [= <-] & Hx).
  apply fallible_bind_ok in Hx as (? & replayed & [= <- Hrep] & Hx).
  apply fallible_bind_ok in Hx as (? & [] & (ids & Hids & ->)%set_wal_entries_ok & Hx).
  injection Hx as <-.
  set (next := saturating_add (last_sequence (de_state de1)) 1) in *.
  set (w5 := DiskWriter.open (with_wal d2 (create_active_segment dir next))
               (dw_sync_policy (dl_writer (de_log de1)))
               (dw_max_segment_size_bytes (dl_writer (de_log de1))) next).
  assert (dir6 = (prune_sealed_segments (de_wal_retain_segments de1) (dk_wal (dw_disk w5))).1) as ->.
  { change (prune_sealed_segments _ _) with
      (prune_sealed_segments (de_wal_retain_segments de1) (dk_wal (dw_disk w5))) in Hprune.
    by destruct (prune_sealed_segments _ _); injection Hprune as -> _. }
  exists de1, serialized, (DiskWriter.with_disk w5 d7), replayed, ids.
  split_and!; [exact Hrot| | |exact Hids|reflexivity|reflexivity].
  - eexists d2, dir, range, _, d7.
    split_and!; [exact Hser|exact Hsave|exact Hseal|]. cbv zeta. split; [exact Hman|reflexivity].
  - destruct (save_manifest_other _ _ _ Hman) as (Hw & _). cbn [dw_disk DiskWriter.with_disk].
    rewrite Hw. exact Hrep.
Qed.

(** The engine a successful snapshot leaves, from the writer and log it ends with. *)
Lemma persist_healthy p i de serialized w de' :
  healthy p de -> persist_steps i de serialized w ->
  snapshot_fits (de_keyring de) (in_nonce i) serialized ->
  (forall replayed, replay (dk_wal (dw_disk w)) (de_keyring de) = Ok replayed ->
     en_wal_entries (de_core de') = wr_entries replayed) ->
  counter_free (log_ops (en_wal_entries (de_core de'))) = true ->
  de_log de' = mkDiskLog w (de_keyring de) ->
  de_state de' = EngineState.mark_snapshot (de_state de) (in_snapshot_ms i) (last_sequence (de_state de)) ->
  de_wal_retain_segments de' = de_wal_retain_segments de ->
  live p (es_store (de_state de)) = es_store (de_state de) ->
  healthy p de'.
Proof.
  intros Hh (d2 & dir & range & oldest & d4 & Hser & Hsave & Hseal & Hman & ->) Hfits Hent Hfree
    Hlog' Hst Hret Hlive.
  destruct (hl_log _ _ Hh) as (n & segs & act & [Hlay _ _ _] & Hlog & Hn).
  pose proof (hl_sequence _ _ Hh) as Hseq. pose proof (wl_end _ _ _ _ _ Hlay) as Hend.
  fold (next_sequence n segs act) in Hend. fold (de_disk de) in Hlay.
  assert (saturating_add (last_sequence (de_state de)) 1 = next_sequence n segs act) as Hnext
    by (unfold saturating_add; lia).
  rewrite Hnext in *. destruct (save_snapshot_other _ _ _ _ _ _ Hsave) as (Hw2 & _).
  rewrite <- Hw2 in Hlay.
  destruct (maintain_log (de_keyring de) d2 n segs act dir range (de_wal_retain_segments de)
    (dw_sync_policy (dl_writer (de_log de))) (dw_max_segment_size_bytes (dl_writer (de_log de)))
    Hlay (hl_retain _ _ Hh) Hseal) as (Hd5 & n' & segs' & pruned & Hw6 & Hsplit & Hn').
  set (w5 := DiskWriter.open _ _ _ _) in *. clearbody w5.
  set (d6 := with_wal (dw_disk w5) _) in *.
  assert (same_files d2 d6) as Hfiles by (unfold d6; rewrite Hd5; done).
  destruct (snapshot_files _ _ _ _ _ _ _ _ _ _ _ 0 Hser Hfits Hsave Hfiles Hman eq_refl)
    as (_ & Hw4 & _ & Hleg & Hkr).
  assert (forall new_ms, load_base d4 (de_keyring de) new_ms = Ok (de_state de')) as Hbase.
  { intros ms. rewrite Hst.
    by destruct (snapshot_files _ _ _ _ _ _ _ _ _ _ _ ms Hser Hfits Hsave Hfiles Hman eq_refl). }
  assert (writer_ok (de_keyring de) (DiskWriter.with_disk w5 d4) n' segs' ([], [])) as Hw7.
  { destruct Hw6 as [Hl6 ? ? ?]. split; try done. cbn. by rewrite Hw4. }
  pose proof (wk_layout _ _ _ _ _ Hw7) as Hl7. cbn in Hl7.
  destruct (replay_layout _ _ _ _ _ Hl7) as [count Hrep]. specialize (Hent _ Hrep). cbn in Hent.
  pose proof (contiguous_layout _ _ _ _ _ Hl7) as Hcont.
  pose proof (next_sequence_log n' segs' ([], [])) as Hlen. rewrite Hn', Hn in Hlen.
  assert (de_keyring de' = de_keyring de) as Ekr by (unfold de_keyring at 1; by rewrite Hlog').
  assert (de_disk de' = d4) as Ed by (unfold de_disk; by rewrite Hlog').
  assert (last_sequence (de_state de') = last_sequence (de_state de)) as Hq by (by rewrite Hst).
  split; rewrite ?Ekr, ?Ed, ?Hret, ?Hq; try done.
  - rewrite Hleg. exact (hl_legacy _ _ Hh).
  - exact (hl_retain _ _ Hh).
  - pose proof (hl_keyring _ _ Hh) as Hkey. unfold load_keyring in *. by rewrite Hkr.
  - exists n', segs', ([], []). rewrite Hlog', Hent. split_and!; [done|done|lia].
  - intros new_ms. exists (de_state de'). split; [apply Hbase|].
    destruct (hl_rebuilds _ _ Hh 0) as (base & _ & Hrb). rewrite <- Hlog, Hsplit, <- Hent in Hrb.
    pose proof (rebuilds_again base pruned _ p p (de_state de) (es_metadata (de_state de')) n' Hrb)
      as Hagain. rewrite Hlive in Hagain. rewrite Hent in Hfree, Hagain.
    assert (mkEngineState (es_store (de_state de)) (es_metadata (de_state de')) = de_state de') as E
      by (by rewrite Hst). rewrite E in Hagain. rewrite Hent.
    apply Hagain; [lia|done|done|lia|done].
Qed.

Lemma snapshot_healthy now i de de' :
  healthy now de -> snapshot i de = (de', Ok tt) -> snapshot_conditions now i de de' ->
  healthy (in_purge_ms i) de' /\
  es_store (de_state de') = live (in_purge_ms i) (es_store (de_state de)) /\
  last_sequence (de_state de') = last_sequence (de_state de).
Proof.
  intros Hh Hx [Htime Hkey Hfits Hfree].
  destruct (snapshot_steps _ _ _ Hx)
    as (de1 & serialized & w & replayed & ids & Hrot & Hpersist & Hrep & Hids & Hcore & Hret).
  pose proof (purge_healthy now (in_purge_ms i) de Hh Htime) as Hh0.
  destruct (rotate_healthy _ _ _ _ _ _ Hh0 Hkey Hrot) as (Hh1 & Hst1 & Hent1 & Hret1).
  assert (es_store (de_state de1) = live (in_purge_ms i) (es_store (de_state de))) as Hstore.
  { rewrite Hst1. cbn. apply purge_state_store. }
  assert (de_state de' = EngineState.mark_snapshot (de_state de1) (in_snapshot_ms i)
            (last_sequence (de_state de1))) as Hst' by (unfold de_state at 1; by rewrite Hcore).
  assert (de_keyring de' = de_keyring de1) as Ekr
    by (unfold de_keyring at 1, de_log; by rewrite Hcore).
  split_and!.
  - eapply (persist_healthy _ i de1 serialized w); try done.
    + rewrite <- Ekr. apply Hfits. rewrite Hst'. by destruct Hpersist as (? & ? & ? & ? & ? & ? & _).
    + intros replayed' Hrep'. rewrite Hcore. cbn. congruence.
    + unfold de_log at 1. by rewrite Hcore.
    + rewrite Hstore. apply live_idemp.
  - rewrite Hst'. exact Hstore.
  - rewrite Hst'. cbn. rewrite Hst1. cbn. apply purge_state_sequence.
Qed.

End snapshot.
