(* ===== verification/ReplicaDisk.v ===== *)
(** * ReplicaDisk: replication and restore keep a directory recoverable

    Installing a leader's snapshot, replacing a diverged suffix and restoring a
    directory to a point in time leave data directories that satisfy the
    recovery invariant again. *)

From S2P Require Import Prelude Text Command EngineError Store State Crypto Wal WalFacts.
From S2P Require Import WalLayout Engine Transaction TxFacts BatchFacts StorageFacts Replication.
From S2P Require Import History ReplicaFacts DiskLog Storage DiskEngine Recovery SnapshotFacts.

Section replica_disk.
Context `{Crc32} `{CryptoLib} `{Binary WalEntry} `{Binary Manifest} `{Binary StoredKeyring}
  `{SnapshotCodec} `{NonceSource}.

(** ** Installing a snapshot *)

(** The state a follower adopts. *)
Definition installed_state (at_ms : Z) (snap : ReplicationSnapshot) : EngineState :=
  let m := es_metadata (rs_state snap) in
  mkEngineState (es_store (rs_state snap))
    (set_updated_at (set_last_snapshot_at m (Some at_ms)) at_ms).

Lemma create_fresh n : create_active_segment ∅ n = {[active_segment_path n := []]}.
Proof. unfold create_active_segment, open_append. by rewrite lookup_empty. Qed.

(** The engine [apply_replication_snapshot] leaves, and the files it wrote. *)
Lemma install_steps ms nonce snap de de' :
  apply_replication_snapshot ms nonce snap de = (de', Ok tt) ->
  let st := installed_state ms snap in
  let next := saturating_add (last_sequence st) 1 in
  exists serialized d2 d4,
    let w := DiskWriter.open (with_wal d2 (create_active_segment ∅ next))
               (dw_sync_policy (dl_writer (de_log de)))
               (dw_max_segment_size_bytes (dl_writer (de_log de))) next in
    serialize st = Ok serialized /\
    save_snapshot serialized (de_keyring de) nonce (de_disk de) = (d2, Ok tt) /\
    save_manifest (snapshot_manifest st serialized (last_sequence st) ms next next) (dw_disk w) =
      (d4, Ok tt) /\
    de_log de' = mkDiskLog (DiskWriter.with_disk w d4) (de_keyring de) /\ de_state de' = st /\
    en_wal_entries (de_core de') = [] /\ de_wal_retain_segments de' = de_wal_retain_segments de.
Proof.
  unfold apply_replication_snapshot. destruct (negb _); [done|].
  intros (? & [] & Hset & Hx)%fallible_bind_ok. injection Hset as <-.
  apply fallible_bind_ok in Hx as (? & serialized & [= <- Hser] & Hx).
  apply fallible_bind_ok in Hx as (? & ? & [= <- <-] & Hx).
  apply fallible_bind_ok in Hx as (? & [] & (d2 & Hsave & ->)%on_disk_ok & Hx).
  apply fallible_bind_ok in Hx as (? & [] & (w3 & Hclose & ->)%on_writer_ok & Hx).
  injection Hclose as <-.
  apply fallible_bind_ok in Hx as (? & [] & (dir4 & Hcreate & ->)%on_wal_dir_ok & Hx).
  injection Hcreate as <-.
  apply fallible_bind_ok in Hx as (? & [] & (w5 & Hreset & ->)%on_writer_ok & Hx).
  injection Hreset as <-.
  apply fallible_bind_ok in Hx as (? & [] & [= <-] & Hx).
  apply on_disk_ok in Hx as (d4 & Hman & ->).
  exists serialized, d2, d4. cbv zeta.
  split; [exact Hser|]. split; [exact Hsave|]. split; [exact Hman|]. done.
Qed.

(** A directory reset to a fresh log at [next], over the files of [d]. *)
Lemma fresh_log keyring d sync max next :
  is_u64 next ->
  let w := DiskWriter.open (with_wal d (create_active_segment ∅ next)) sync max next in
  same_files d (dw_disk w) /\ writer_ok keyring w next [] ([], []).
Proof.
  intros Hn w.
  assert (wal_layout keyring (dk_wal (with_wal d (create_active_segment ∅ next))) next [] ([], [])) as Hl
    by (cbn; rewrite create_fresh; by apply layout_fresh).
  split; [|by apply open_layout]. unfold w. by rewrite (open_files _ sync max next _ _ _ keyring Hl).
Qed.

Lemma writer_ok_files keyring w d n segs act :
  writer_ok keyring w n segs act -> dk_wal d = dk_wal (dw_disk w) ->
  writer_ok keyring (DiskWriter.with_disk w d) n segs act.
Proof. intros [? ? ? ?] Hd. split; try done. cbn. by rewrite Hd. Qed.

Lemma install_snapshot_healthy p now ms nonce snap de de' :
  healthy p de -> 0 <= last_sequence (rs_state snap) < u64_max ->
  (forall serialized, serialize (installed_state ms snap) = Ok serialized ->
     snapshot_fits (de_keyring de) nonce serialized) ->
  apply_replication_snapshot ms nonce snap de = (de', Ok tt) ->
  healthy now de' /\ de_state de' = installed_state ms snap /\ en_wal_entries (de_core de') = [] /\
  de_keyring de' = de_keyring de.
Proof.
  intros Hh Hseq Hfits (serialized & d2 & d4 & Hser & Hsave & Hman & Hlog & Hst & Hent & Hret)%install_steps.
  set (st := installed_state ms snap) in *. set (next := saturating_add (last_sequence st) 1) in *.
  assert (next = last_sequence st + 1) as Hnext
    by (unfold next, saturating_add; change (last_sequence st) with (last_sequence (rs_state snap)); lia).
  destruct (fresh_log (de_keyring de) d2 (dw_sync_policy (dl_writer (de_log de)))
    (dw_max_segment_size_bytes (dl_writer (de_log de))) next) as [Hfiles Hw].
  { change (last_sequence st) with (last_sequence (rs_state snap)) in *. unfold is_u64. lia. }
  set (w := DiskWriter.open _ _ _ _) in *. clearbody w.
  assert (forall t, load_base d4 (de_keyring de) t = Ok st /\ dk_wal d4 = dk_wal (dw_disk w) /\
            dk_wal d2 = dk_wal (de_disk de) /\ dk_legacy_wal d4 = dk_legacy_wal (de_disk de) /\
            dk_keyring d4 = dk_keyring (de_disk de)) as Hbase.
  { intros t. by eapply snapshot_files; eauto. }
  destruct (Hbase 0) as (_ & Hw4 & _ & Hleg & Hkr).
  assert (de_keyring de' = de_keyring de) as Ekr by (unfold de_keyring at 1; by rewrite Hlog).
  assert (de_disk de' = d4) as Ed by (unfold de_disk; by rewrite Hlog).
  split_and!; [|done|done|done]. split; rewrite ?Ekr, ?Ed, ?Hst, ?Hret, ?Hent.
  - rewrite Hleg. exact (hl_legacy _ _ Hh).
  - exact (hl_retain _ _ Hh).
  - pose proof (hl_keyring _ _ Hh) as Hk. unfold load_keyring in *. by rewrite Hkr.
  - exists next, [], ([], []). rewrite Hlog. split_and!; [by apply writer_ok_files|done|].
    unfold next_sequence. change (seg_len ([], [])) with 0. cbn [seg_end]. lia.
  - apply Hseq.
  - intros t. exists st. split; [apply Hbase|]. exists st. split_and!; [done|apply tracks_refl|done].
Qed.

(** ** Replacing a suffix *)

Lemma write_entries_layout entries sync keyring max d d' n :
  write_entries entries sync keyring max d = (d', Ok tt) ->
  entries <> [] -> contiguous n entries -> 0 <= n -> n + Z.of_nat (length entries) <= u64_max ->
  keyring_ok keyring -> Forall (fits keyring) entries ->
  same_files d d' /\
  exists segs act, wal_layout keyring (dk_wal d') n segs act /\ layout_log segs act = entries.
Proof.
  destruct entries as [|first rest]; [done|]. intros Hw _ Hc Hn Hb Hk Hf.
  unfold write_entries in Hw. pose proof Hc as [Hfirst _]%contiguous_cons. rewrite Hfirst in Hw.
  set (entries := first :: rest) in *.
  pose proof (open_fresh (with_wal d ∅) sync max n keyring ltac:(unfold is_u64; lia) eq_refl) as Hok.
  assert (same_files d (dw_disk (DiskWriter.open (with_wal d ∅) sync max n))) as Hf1 by done.
  set (w := DiskWriter.open _ _ _ _) in *. clearbody w.
  pose proof (append_batch_files keyring entries w) as Hf2. unfold DiskWriter.handle_append_batch in Hf2.
  cbn [DiskWriter.worker_step] in Hf2. fold entries in Hw.
  change (match entries with [] => _ | _ => DiskWriter.append_batch entries keyring end)
    with (DiskWriter.append_batch entries keyring) in Hf2.
  destruct (DiskWriter.append_batch entries keyring w) as [w' r] eqn:Ea. injection Hw as <- ->.
  split; [by etrans|]. apply fallible_bind_ok in Ea as (w2 & [] & Ha & Hr).
  apply fallible_bind_ok in Hr as (w3 & p & Hp & Hr). injection Hp as <- _. injection Hr as <-.
  destruct (append_many_ok keyring entries w w2 n [] ([], [])) as (segs & act & [Hl _ _ _] & Hlog);
    try done; unfold next_sequence; cbn; change (seg_len ([], [])) with 0; rewrite ?Z.add_0_r; try done.
  by exists segs, act.
Qed.

(** The snapshot without the manifest's stamp is as good a base. *)
Lemma load_base_snapshot d keyring ms base :
  load_base d keyring ms = Ok base ->
  exists loaded st, load_snapshot d keyring = Ok loaded /\
    match loaded with Some bytes => deserialize bytes | None => Ok (EngineState.new ms) end = Ok st /\
    es_store st = es_store base /\ last_sequence st = last_sequence base.
Proof.
  unfold load_base. intros (loaded & Hl & Hr)%result_bind_ok.
  apply result_bind_ok in Hr as (st & Hst & Hr). exists loaded, st. split_and!; [done|done|..];
    apply result_bind_ok in Hr as ([m|] & _ & Hr); try (by injection Hr as <-);
    apply result_bind_ok in Hr as ([] & Hv & Hr); injection Hr as <-; [done|].
  unfold validate_manifest_snapshot in Hv. destruct (negb _); [done|]. destruct loaded; [|done].
  destruct (negb _); [done|]. destruct (negb _); [done|].
  destruct (Z.eqb_spec (last_sequence st) (mf_last_snapshot_sequence m)) as [E|]; [|done].
  cbn. rewrite <- E. lia.
Qed.

Lemma replace_steps ms prefix entries de de' seq :
  replace_replication_suffix ms prefix entries de = (de', Ok seq) ->
  exists loaded base retained st d,
    load_snapshot (de_disk de) (de_keyring de) = Ok loaded /\
    match loaded with Some bytes => deserialize bytes | None => Ok (EngineState.new ms) end = Ok base /\
    rebuild_suffix base (en_wal_entries (de_core de)) prefix entries = Ok (retained, st) /\
    match retained with
    | [] => d = with_wal (de_disk de) (create_active_segment ∅ (saturating_add (last_sequence base) 1))
    | _ => write_entries retained (eo_wal_sync (de_options de)) (de_keyring de)
             (eo_wal_segment_size_bytes (de_options de)) (de_disk de) = (d, Ok tt)
    end /\
    (exists next, de_log de' = mkDiskLog (DiskWriter.open d (eo_wal_sync (de_options de))
       (eo_wal_segment_size_bytes (de_options de)) next) (de_keyring de)) /\
    de_state de' = st /\ seq = last_sequence st /\ en_wal_entries (de_core de') = retained /\
    de_wal_retain_segments de' = de_wal_retain_segments de /\
    build_wal_entry_identities retained = Ok (en_wal_entry_identities (de_core de')).
Proof.
  unfold replace_replication_suffix. intros (? & ? & [= <- <-] & Hx)%fallible_bind_ok.
  apply fallible_bind_ok in Hx as (? & loaded & [= <- Hload] & Hx).
  apply fallible_bind_ok in Hx as (? & base & [= <- Hbase] & Hx).
  apply fallible_bind_ok in Hx as (? & [retained st] & [= <- Hreb] & Hx).
  apply fallible_bind_ok in Hx as (? & [] & (w3 & Hclose & ->)%on_writer_ok & Hx).
  injection Hclose as <-.
  apply fallible_bind_ok in Hx as (de3 & [] & Hwrite & Hx).
  apply fallible_bind_ok in Hx as (? & [] & (w5 & Hreset & ->)%on_writer_ok & Hx).
  injection Hreset as <-.
  apply fallible_bind_ok in Hx as (? & [] & Hset & Hx). injection Hset as <-.
  apply fallible_bind_ok in Hx as (? & [] & (ids & Hids & ->)%set_wal_entries_ok & Hx).
  injection Hx as <- <-. exists loaded, base, retained, st.
  destruct retained as [|first rest].
  - apply on_wal_dir_ok in Hwrite as (dir & [= <-] & ->). eexists.
    split_and!; [done|done|done|reflexivity|by eexists|done..].
  - apply on_disk_ok in Hwrite as (d & Hw & ->). exists d.
    split_and!; [done|done|done|exact Hw|by eexists|done..].
Qed.

(** The log a replacement wrote, whatever its form. *)
Lemma replaced_log keyring d d' base retained sync max n :
  match retained with
  | [] => d' = with_wal d (create_active_segment ∅ (saturating_add base 1))
  | _ => write_entries retained sync keyring max d = (d', Ok tt)
  end ->
  contiguous n retained -> 0 <= n -> n + Z.of_nat (length retained) <= u64_max ->
  (retained = [] -> n = base + 1) -> keyring_ok keyring -> Forall (fits keyring) retained ->
  same_files d d' /\
  exists segs act, wal_layout keyring (dk_wal d') n segs act /\ layout_log segs act = retained.
Proof.
  intros Hw Hc Hn Hb He Hk Hf. destruct retained as [|first rest]; [|by eapply write_entries_layout].
  subst d'. specialize (He eq_refl). cbn in Hb. split; [done|]. exists [], ([], []). split; [|done].
  cbn. replace (saturating_add base 1) with n by (unfold saturating_add; lia).
  rewrite create_fresh. apply layout_fresh. unfold is_u64. lia.
Qed.

Lemma snapshot_clock (loaded : option (list byte)) a b sa sb :
  match loaded with Some bytes => deserialize bytes | None => Ok (EngineState.new a) end = Ok sa ->
  match loaded with Some bytes => deserialize bytes | None => Ok (EngineState.new b) end = Ok sb ->
  es_store sb = es_store sa /\ last_sequence sb = last_sequence sa.
Proof. destruct loaded; [by intros -> [= ->] | by intros [= <-] [= <-]]. Qed.

(** Replaying over the snapshot is replaying over what recovery loads. *)
Lemma rebuilds_snapshot p now t ms de loaded base retained st :
  healthy p de -> load_snapshot (de_disk de) (de_keyring de) = Ok loaded ->
  match loaded with Some bytes => deserialize bytes | None => Ok (EngineState.new ms) end = Ok base ->
  apply_entries base retained = (st, Ok tt) ->
  exists base', load_base (de_disk de) (de_keyring de) t = Ok base' /\ rebuilds base' retained now st.
Proof.
  intros Hh Hl Hb Ha. destruct (hl_rebuilds _ _ Hh t) as (base' & Hb' & _). exists base'.
  split; [done|]. destruct (load_base_snapshot _ _ _ _ Hb') as (loaded' & st' & Hl' & Hst' & Hs & Hq).
  rewrite Hl in Hl'. injection Hl' as <-. destruct (snapshot_clock _ _ _ _ _ Hb Hst') as [Hs' Hq'].
  destruct (apply_entries_base base base' retained st) as (r & Hr & Hrs & Hrq);
    [congruence|congruence|done|].
  exists r. split_and!; [done| |done]. rewrite Hrs. apply tracks_refl.
Qed.

(** An engine whose log was rewritten under the same files. *)
Lemma log_replaced_healthy p now de de' d n segs act sync max next :
  healthy p de -> same_files (de_disk de) d -> wal_layout (de_keyring de) (dk_wal d) n segs act ->
  de_log de' = mkDiskLog (DiskWriter.open d sync max next) (de_keyring de) ->
  en_wal_entries (de_core de') = layout_log segs act ->
  next_sequence n segs act = last_sequence (de_state de') + 1 ->
  0 <= last_sequence (de_state de') -> de_wal_retain_segments de' = de_wal_retain_segments de ->
  (forall t, exists base, load_base (de_disk de) (de_keyring de) t = Ok base /\
     rebuilds base (layout_log segs act) now (de_state de')) ->
  healthy now de'.
Proof.
  intros Hh Hfiles Hlay Hlog Hent Hn Hseq Hret Hreb.
  assert (de_keyring de' = de_keyring de) as Ekr by (unfold de_keyring at 1; by rewrite Hlog).
  assert (de_disk de' = d) as Ed.
  { unfold de_disk. rewrite Hlog. by eapply open_files. }
  split; rewrite ?Ekr, ?Ed, ?Hret, ?Hent; try done.
  - destruct Hfiles as (_ & _ & _ & ->). exact (hl_legacy _ _ Hh).
  - exact (hl_retain _ _ Hh).
  - rewrite (load_keyring_files _ _ Hfiles). exact (hl_keyring _ _ Hh).
  - exists n, segs, act. rewrite Hlog. split_and!; [by apply open_layout|done|done].
  - intros t. rewrite (load_base_files _ _ _ _ Hfiles). apply Hreb.
Qed.

Lemma replace_suffix_healthy p now ms prefix entries de de' seq :
  healthy p de -> 0 <= prefix -> prefix + 1 + Z.of_nat (length entries) <= u64_max ->
  Forall (fits (de_keyring de)) (en_wal_entries (de_core de) ++ entries) ->
  replace_replication_suffix ms prefix entries de = (de', Ok seq) ->
  healthy now de' /\ seq = last_sequence (de_state de') /\
  exists kept dropped new,
    en_wal_entries (de_core de) = kept ++ dropped /\
    Forall (fun e => we_sequence e <= prefix) kept /\ Forall (fun e => prefix < we_sequence e) dropped /\
    en_wal_entries (de_core de') = kept ++ new /\ contiguous (prefix + 1) new /\
    replaces prefix entries new /\ seq = prefix + Z.of_nat (length new).
Proof.
  intros Hh Hp Hb [Hfl Hfe]%Forall_app
    (loaded & base & retained & st & d & Hload & Hbase & Hreb & Hwrite & (next & Hlog) & Hst & -> &
     Hent & Hret & _)%replace_steps.
  destruct (hl_log _ _ Hh) as (n & segs & act & [Hlay _ _ _] & Hlg & _).
  pose proof (contiguous_layout _ _ _ _ _ Hlay) as Hc. rewrite Hlg in Hc.
  destruct (rebuild_suffix_ok base _ prefix entries retained st n Hc Hp ltac:(lia) Hreb)
    as (new & Hretn & Hcn & Hin & Hlen & Happ & Hle & Hcase & Hrep).
  set (k := Z.to_nat (prefix + 1 - n)) in *.
  assert (exists m, contiguous m retained /\ 0 <= m /\
            m + Z.of_nat (length retained) = prefix + 1 + Z.of_nat (length new) /\
            (retained = [] -> m = last_sequence base + 1)) as (m & Hcm & Hm & Hml & Hme).
  { rewrite Hretn. destruct Hcase as [[-> Hpb]|[Hne Hk]].
    - exists (prefix + 1). cbn. split_and!; [done|lia|lia|by intros; lia].
    - exists n. rewrite length_app, Nat2Z.inj_add. split_and!; [|apply Hlay|lia|].
      + apply contiguous_app. split; [by apply contiguous_take|]. by rewrite Hk.
      + intros [E _]%app_eq_nil. done. }
  assert (last_sequence st = prefix + Z.of_nat (length new)) as Hseq.
  { apply apply_entries_ok in Happ as [_ Hmeta]. rewrite Hmeta. eapply stamped_last; [done|lia|].
    intros E. specialize (Hme E). rewrite E in Hml. cbn in Hml. lia. }
  destruct (replaced_log (de_keyring de) (de_disk de) d (last_sequence base) retained
    (eo_wal_sync (de_options de)) (eo_wal_segment_size_bytes (de_options de)) m)
    as (Hfiles & segs' & act' & Hlay' & Hlog'); [done|done|done|lia|done|by eapply healthy_keyring| |].
  { rewrite Hretn. apply Forall_app. split; [by apply Forall_take|].
    apply Forall_forall. intros x Hx. eapply Forall_forall; [exact Hfe|by apply Hin]. }
  split_and!; [|by rewrite Hst|].
  - eapply log_replaced_healthy; try done; rewrite ?Hlog', ?Hst; [done|by rewrite next_sequence_log, Hlog'; lia|lia|].
    intros t. by eapply rebuilds_snapshot.
  - exists (take k (en_wal_entries (de_core de))), (drop k (en_wal_entries (de_core de))), new.
    split_and!; [by rewrite take_drop|by apply take_upto|by apply drop_upto|by rewrite Hent|done..].
Qed.

(** ** Point-in-time restore *)

Context (encode_total : forall e : WalEntry, is_ok (binary_encode e) = true).

Lemma take_while_contiguous n es s :
  contiguous n es ->
  take_while (within (TargetSequence s)) es = List.filter (fun e => we_sequence e <=? s) es.
Proof.
  revert n. induction es as [|e es IH]; intros n Hc; [done|].
  pose proof Hc as [Hs Hc']%contiguous_cons. cbn. destruct (Z.leb_spec (we_sequence e) s).
  - f_equal. by eapply IH.
  - symmetry. apply filter_none. intros x Hx%(contiguous_ge _ _ _ Hc'). lia.
Qed.

(** The state read for a sequence is the replay of the log up to it. *)
Lemma state_at_sequence p de ms s st :
  healthy p de -> state_at_point (de_disk de) (de_keyring de) ms (PitSequence s) = Ok st ->
  exists base, load_base (de_disk de) (de_keyring de) ms = Ok base /\
    apply_entries base
      (List.filter (fun e => we_sequence e <=? s) (en_wal_entries (de_core de))) = (st, Ok tt).
Proof.
  intros Hh. unfold state_at_point. rewrite (hl_legacy _ _ Hh). cbn [is_some].
  intros (base & Hb & Hr)%result_bind_ok. exists base. split; [done|].
  apply result_bind_ok in Hr as (manifest & _ & Hr). cbv zeta in Hr.
  apply result_bind_ok in Hr as ([] & _ & Hr). apply result_bind_ok in Hr as (replay & Hrep & Hr).
  apply result_bind_ok in Hr as ([] & _ & Hr). unfold replay_until in Hrep.
  destruct (hl_log _ _ Hh) as (n & segs & act & [Hlay _ _ _] & Hlog & _). fold (de_disk de) in Hlay.
  destruct (replay_layout _ _ _ _ _ Hlay) as [count Hrl]. rewrite Hrl in Hrep. cbn in Hrep.
  injection Hrep as <-. cbn in Hr. rewrite Hlog in Hr.
  rewrite (take_while_contiguous n) in Hr by (rewrite <- Hlog; by eapply contiguous_layout).
  unfold replay_onto in Hr. destruct (apply_entries _ _) as [st' [[]|e]]; [|done].
  cbn in Hr. by injection Hr as <-.
Qed.

(** For the sequence an earlier engine of the same base had reached, it is that
    engine's state. *)
Lemma state_at_earlier p0 p de0 de later ms st :
  healthy p0 de0 -> healthy p de ->
  load_base (de_disk de) (de_keyring de) ms = load_base (de_disk de0) (de_keyring de0) ms ->
  en_wal_entries (de_core de) = en_wal_entries (de_core de0) ++ later ->
  Forall (fun e => last_sequence (de_state de0) < we_sequence e) later ->
  state_at_point (de_disk de) (de_keyring de) ms (PitSequence (last_sequence (de_state de0))) = Ok st ->
  tracks p0 (es_store (de_state de0)) (es_store st) /\ last_sequence st = last_sequence (de_state de0).
Proof.
  intros Hh0 Hh Hbase Hlog Hlater (base & Hb & Ha)%(state_at_sequence _ _ _ _ _ Hh).
  rewrite Hbase in Hb. destruct (hl_rebuilds _ _ Hh0 ms) as (base0 & Hb0 & r & Hr & Ht & Hs).
  rewrite Hb in Hb0. injection Hb0 as <-. rewrite Hlog, List.filter_app in Ha.
  destruct (hl_log _ _ Hh0) as (n & segs & act & [Hlay _ _ _] & Hlog0 & Hn).
  pose proof (contiguous_layout _ _ _ _ _ Hlay) as Hc. rewrite next_sequence_log in Hn.
  rewrite Hlog0 in *. rewrite (filter_upto n) in Ha by done.
  rewrite take_ge in Ha by lia. rewrite filter_none, app_nil_r, Hr in Ha.
  - injection Ha as <-. done.
  - intros x Hx. rewrite Forall_forall in Hlater. specialize (Hlater x Hx). lia.
Qed.

Lemma restore_steps source options target ms at_ms nonce d d' insp :
  restore_to_point false source options target ms at_ms nonce d = (d', Ok insp) ->
  exists st serialized d1 d2,
    state_at_point source (eo_keyring options) ms target = Ok st /\
    let st' := EngineState.mark_snapshot st at_ms (last_sequence st) in
    let next := saturating_add (last_sequence st) 1 in
    serialize st' = Ok serialized /\
    dk_wal d1 = ∅ /\ dk_legacy_wal d1 = dk_legacy_wal d /\
    match eo_keyring options with Some kr => load_keyring d1 = Ok (Some kr) | None => True end /\
    save_snapshot serialized (eo_keyring options) nonce d1 = (d2, Ok tt) /\
    save_manifest (snapshot_manifest st' serialized (last_sequence st') at_ms next next)
      (with_wal d2 (create_active_segment (dk_wal d2) next)) = (d', Ok tt).
Proof.
  unfold restore_to_point. intros (? & st & [= <- Hst] & Hx)%fallible_bind_ok.
  apply fallible_bind_ok in Hx as (? & [] & [= <-] & Hx).
  apply fallible_bind_ok in Hx as (d1 & [] & Hkr & Hx). cbv zeta in Hx.
  apply fallible_bind_ok in Hx as (? & serialized & [= <- Hser] & Hx).
  apply fallible_bind_ok in Hx as (d2 & [] & Hsave & Hx).
  apply fallible_bind_ok in Hx as (? & [] & [= <-] & Hx).
  apply fallible_bind_ok in Hx as (d3 & [] & Hman & Hx).
  apply fallible_bind_ok in Hx as (? & ? & [= <- <-] & Hx). injection Hx as <- _.
  exists st, serialized, d1, d2. split; [done|]. cbv zeta.
  destruct (eo_keyring options) as [kr|].
  - destruct (save_keyring_other _ _ _ Hkr) as (Hw & _ & _ & Hl).
    pose proof (load_saved_keyring _ _ _ Hkr). done.
  - injection Hkr as <-. done.
Qed.

Lemma restore_opens source options target ms at_ms nonce d d' insp started new_ms finished :
  restore_to_point false source options target ms at_ms nonce d = (d', Ok insp) ->
  dk_legacy_wal d = None ->
  (forall st serialized, state_at_point source (eo_keyring options) ms target = Ok st ->
     0 <= last_sequence st < u64_max /\
     (serialize (EngineState.mark_snapshot st at_ms (last_sequence st)) = Ok serialized ->
      snapshot_fits (eo_keyring options) nonce serialized)) ->
  exists st de,
    state_at_point source (eo_keyring options) ms target = Ok st /\
    from_paths_with_options started new_ms finished d' options = Ok de /\
    de_state de = EngineState.mark_snapshot st at_ms (last_sequence st) /\
    en_wal_entries (de_core de) = [].
Proof.
  intros (st & serialized & d1 & d2 & Hst & Hser & Hw1 & Hl1 & _ & Hsave & Hman)%restore_steps Hleg Hc.
  cbv zeta in *. destruct (Hc st serialized Hst) as [Hseq Hfits]. specialize (Hfits Hser).
  set (st' := EngineState.mark_snapshot st at_ms (last_sequence st)) in *.
  set (next := saturating_add (last_sequence st) 1) in *.
  set (d3 := with_wal d2 (create_active_segment (dk_wal d2) next)) in *.
  assert (same_files d2 d3) as Hfiles by done.
  destruct (snapshot_files (eo_keyring options) nonce st' serialized d1 d2 d3 d' at_ms next next new_ms
    Hser Hfits Hsave Hfiles Hman eq_refl) as (Hbase & Hw4 & Hw2 & Hl4 & _).
  assert (wal_layout (eo_keyring options) (dk_wal d') next [] ([], [])) as Hlay.
  { rewrite Hw4. cbn. rewrite Hw2, Hw1, create_fresh. apply layout_fresh.
    unfold next. apply saturating_add_u64; lia. }
  destruct (open_directory encode_total d' options started new_ms finished st' next [] ([], []) st')
    as (de & Ho & Hs & He & _); [congruence|done|done|done|]. by exists st, de.
Qed.

End replica_disk.

(** * Everything an engine goes through

    [history now de] collects the ways an engine on a data directory comes about:
    opening an empty directory, acknowledged operations, snapshots, the
    replication operations of a follower, and restarts from the directory alone.
    Every one of them is recoverable.

    It leaves out what the engine does not recover from.  Every entry is one the reader
    accepts, so its frame has at most [MAX_WAL_ENTRY_SIZE] bytes, and every append was
    acknowledged, so there is no torn frame behind the log; no INCR or DECR was applied to
    a key whose deadline has passed while the replay still has it ([recoverable] for both);
    no snapshot was taken that keeps segments with counters below
    it, which the replay would apply again ([snapshot_conditions]); and there is no log of
    the legacy format.  The theorems about [history] say nothing of engines with such a
    past; what happens to some of them is shown in RecoveryTheorems. *)

Section histories.
Context `{Crc32} `{CryptoLib} `{Binary WalEntry} `{Binary Manifest} `{Binary StoredKeyring}
  `{SnapshotCodec} `{NonceSource}.

Inductive history : Z -> DiskEngine -> Prop :=
| HistOpen d options started new_ms finished de :
    dk_wal d = ∅ -> dk_snapshot d = None -> dk_manifest d = None -> dk_legacy_wal d = None ->
    0 <= eo_wal_retain_segments options ->
    match eo_keyring options with
    | Some keyring =>
        NoDup (keyring_ids keyring) /\ length (sk_id (kr_active keyring)) = KEY_ID_LEN /\
        load_keyring d = Ok (Some keyring)
    | None => True
    end ->
    from_paths_with_options started new_ms finished d options = Ok de ->
    history new_ms de
| HistStep now now' de core' :
    history now de -> now <= now' -> 0 <= now' < u64_max ->
    step now' (de_core de) core' -> last_sequence (en_state core') < u64_max ->
    (forall entries, en_wal_entries core' = en_wal_entries (de_core de) ++ entries ->
       recoverable now' de entries) ->
    history now' (with_core de core')
| HistSnapshot now i de de' :
    history now de -> snapshot i de = (de', Ok tt) -> snapshot_conditions now i de de' ->
    history (in_purge_ms i) de'
| HistReplicate now de core' entries last :
    history now de -> apply_replication_entries entries (de_core de) = (core', Ok last) ->
    last_sequence (de_state de) + Z.of_nat (length entries) < u64_max ->
    grounded (es_store (de_state de)) (log_ops entries) -> recoverable now de entries ->
    history now (with_core de core')
| HistInstall now now' ms nonce snap de de' :
    history now de -> 0 <= last_sequence (rs_state snap) < u64_max ->
    (forall serialized, serialize (installed_state ms snap) = Ok serialized ->
       snapshot_fits (de_keyring de) nonce serialized) ->
    apply_replication_snapshot ms nonce snap de = (de', Ok tt) ->
    history now' de'
| HistReplace now now' ms prefix entries de de' seq :
    history now de -> 0 <= prefix -> prefix + 1 + Z.of_nat (length entries) <= u64_max ->
    Forall (fits (de_keyring de)) (en_wal_entries (de_core de) ++ entries) ->
    replace_replication_suffix ms prefix entries de = (de', Ok seq) ->
    history now' de'
| HistRestart now de options started new_ms finished de' :
    history now de -> eo_keyring options = de_keyring de -> 0 <= eo_wal_retain_segments options ->
    from_paths_with_options started new_ms finished (de_disk de) options = Ok de' ->
    history now de'.

Context (encode_total : forall e : WalEntry, is_ok (binary_encode e) = true).

Lemma healthy_bound now de : healthy now de -> 0 <= last_sequence (de_state de) < u64_max.
Proof.
  intros Hh. destruct (hl_log _ _ Hh) as (n & segs & act & [Hlay _ _ _] & _ & Hn).
  pose proof (wl_end _ _ _ _ _ Hlay). pose proof (hl_sequence _ _ Hh). unfold next_sequence in Hn. lia.
Qed.

(** Entries a follower applied are logged like its own. *)
Lemma replicated_logged now (eng eng' : Engine DiskLog) entries last :
  0 <= last_sequence (en_state eng) ->
  last_sequence (en_state eng) + Z.of_nat (length entries) <= u64_max ->
  apply_replication_entries entries eng = (eng', Ok last) ->
  grounded (es_store (en_state eng)) (log_ops entries) ->
  logged now eng eng' (en_state eng) entries.
Proof.
  intros H0' Hb (Hc & Ha & _ & Hlog & Hw & Hrem)%apply_replication_entries_spec Hg; [|done|done].
  split; try done; [apply swept_refl|]. split; [|done]. destruct entries; [|done]. cbn in *.
  unfold disk_append_batch in Hw. cbn in Hw. injection Hw as <-. by destruct (en_wal_writer eng).
Qed.

Lemma history_healthy now de : history now de -> healthy now de.
Proof.
  induction 1 as [d options started new_ms finished de Hw Hs Hm Hl Hr Hk Ho
    |now now' de core' _ IH Hle Hnow Hstep Hb Hrec|now i de de' _ IH Hx Hc
    |now de core' entries last _ IH Hx Hb Hg Hrec|now now' ms nonce snap de de' _ IH Hq Hf Hx
    |now now' ms prefix entries de de' seq _ IH Hp Hb Hf Hx
    |now de options started new_ms finished de' _ IH Hk Hr Ho].
  - destruct (open_empty d options started new_ms finished)
      as (de0 & Ho' & Hh & _); [done..|]. rewrite Ho in Ho'. by injection Ho' as <-.
  - pose proof (healthy_bound _ _ IH). unfold de_state in *.
    destruct (step_logged now' (de_core de) core') as (st0 & entries & Hlg);
      [done|lia|intros e; by apply checksum_total|done|].
    eapply logged_healthy; try done. apply Hrec. apply Hlg.
  - by eapply snapshot_healthy.
  - pose proof (healthy_bound _ _ IH). unfold de_state in *.
    assert (logged now (de_core de) core' (en_state (de_core de)) entries) as Hlg
      by (eapply replicated_logged; try done; lia).
    eapply logged_healthy; try done. rewrite (logged_sequence _ _ _ _ _ Hlg). done.
  - by eapply install_snapshot_healthy.
  - by eapply replace_suffix_healthy.
  - destruct (reopen encode_total now de options started new_ms finished IH Hk Hr)
      as (de0 & Ho' & Hh & _). rewrite Ho in Ho'. by injection Ho' as <-.
Qed.

End histories.
