(* ===== verification/DiskHandle.v ===== *)
(** * DiskHandle: the engine on its directory is a handle

    The identities an engine keeps beside its log are those of the log, and its
    replication operations satisfy the laws of [EngineHandleLaws]. *)

From S2P Require Import Prelude Text Command EngineError Store State Crypto Wal WalFacts.
From S2P Require Import WalLayout Wire Request ServerError Engine Transaction Backup TxFacts.
From S2P Require Import History Replication ReplicaFacts DiskLog Recovery Storage DiskEngine.
From S2P Require Import EngineWorker SnapshotFacts ReplicaDisk.

(** ** Entries of a log *)

Lemma entry_at_cons s e es :
  entry_at s (e :: es) = if we_sequence e =? s then Some e else entry_at s es.
Proof. done. Qed.

Lemma entry_at_app s a b :
  entry_at s (a ++ b) = match entry_at s a with Some e => Some e | None => entry_at s b end.
Proof.
  induction a as [|e a IH]; [done|]. cbn [app]. rewrite !entry_at_cons.
  by destruct (we_sequence e =? s).
Qed.

Lemma entry_at_below n es s : contiguous n es -> s < n -> entry_at s es = None.
Proof.
  intros Hc Hs. destruct (entry_at s es) as [e|] eqn:E; [|done].
  apply find_some in E as [He Heq]. apply list_elem_of_In, (contiguous_ge _ _ _ Hc) in He. lia.
Qed.

Lemma entry_at_lookup n es s :
  contiguous n es -> n <= s -> entry_at s es = es !! Z.to_nat (s - n).
Proof.
  revert n. induction es as [|e es IH]; intros n Hc Hs; [done|].
  apply contiguous_cons in Hc as [He Hc]. rewrite entry_at_cons, He.
  destruct (Z.eqb_spec n s) as [->|Hne]; [by rewrite Z.sub_diag|].
  rewrite (IH _ Hc) by lia. by replace (Z.to_nat (s - n)) with (S (Z.to_nat (s - (n + 1)))) by lia.
Qed.

(** ** Identities *)

Section identities.
Context `{EntryChecksum}.

Lemma identities_from n es acc ids :
  contiguous n es -> (forall s, n <= s -> acc !! s = None) ->
  foldM add_wal_entry_identity acc es = Ok ids ->
  forall s, ids !! s = match entry_at s es with Some e => entry_identity e | None => acc !! s end.
Proof.
  revert n acc. induction es as [|e es IH]; intros n acc Hc Hacc Hf s; cbn in Hf.
  { by injection Hf as <-. }
  apply contiguous_cons in Hc as [He Hc]. apply result_bind_ok in Hf as (acc' & Ha & Hf).
  unfold add_wal_entry_identity in Ha. apply result_bind_ok in Ha as (i & Hi & Ha).
  rewrite (Hacc (we_sequence e)) in Ha by lia. injection Ha as <-.
  assert (forall t, n + 1 <= t -> <[we_sequence e := i]> acc !! t = None) as Hacc'.
  { intros t Ht. rewrite lookup_insert_ne by lia. apply Hacc. lia. }
  rewrite (IH _ _ Hc Hacc' Hf).
  rewrite entry_at_cons. destruct (Z.eqb_spec (we_sequence e) s) as [<-|Hne].
  - rewrite (entry_at_below _ _ _ Hc) by lia. rewrite lookup_insert_eq. unfold entry_identity.
    by rewrite Hi.
  - by rewrite lookup_insert_ne.
Qed.

Definition log_ok {W} (eng : Engine W) : Prop :=
  (exists n, 0 < n /\ contiguous n (en_wal_entries eng) /\
     n + Z.of_nat (length (en_wal_entries eng)) = last_sequence (en_state eng) + 1) /\
  forall s, en_wal_entry_identities eng !! s = entry_at s (en_wal_entries eng) ≫= entry_identity.

Lemma built_identities n es ids :
  contiguous n es -> build_wal_entry_identities es = Ok ids ->
  forall s, ids !! s = entry_at s es ≫= entry_identity.
Proof.
  intros Hc Hb s. rewrite (identities_from n es ∅ ids Hc) by done.
  by destruct (entry_at s es).
Qed.

(** How a concrete engine is seen to have such a log. *)
Lemma built_log_ok {W} (eng : Engine W) n :
  0 < n -> contiguous n (en_wal_entries eng) ->
  n + Z.of_nat (length (en_wal_entries eng)) = last_sequence (en_state eng) + 1 ->
  build_wal_entry_identities (en_wal_entries eng) = Ok (en_wal_entry_identities eng) -> log_ok eng.
Proof. intros Hn Hc Hl Hb. split; [by exists n|]. by apply (built_identities n). Qed.

Lemma entry_at_bounds n es s e : contiguous n es -> entry_at s es = Some e -> n <= s < n + Z.of_nat (length es).
Proof.
  intros Hc He. destruct (decide (s < n)) as [Hs|Hs]; [by rewrite (entry_at_below n) in He|].
  rewrite (entry_at_lookup n) in He by (done || lia). apply lookup_lt_Some in He. lia.
Qed.

(** A log that was extended and whose identities were added is still one. *)
Lemma extended_log_ok {W} (eng eng' : Engine W) es :
  log_ok eng -> contiguous (last_sequence (en_state eng) + 1) es ->
  last_sequence (en_state eng') = last_sequence (en_state eng) + Z.of_nat (length es) ->
  en_wal_entries eng' = en_wal_entries eng ++ es -> remembered eng eng' es -> log_ok eng'.
Proof.
  intros [(n & Hn & Hc & Hl) Hids] Hce Hlast Hlog (ids & Hb & Hi). split.
  - exists n. rewrite Hlog, length_app, Nat2Z.inj_add. split_and!; [done| |lia].
    apply contiguous_app. split; [done|]. by replace (n + _) with (last_sequence (en_state eng) + 1) by lia.
  - intros t. rewrite Hlog, entry_at_app, Hi, lookup_union, (built_identities _ _ _ Hce Hb), Hids.
    destruct (entry_at t (en_wal_entries eng)) as [e|] eqn:E1; cbn.
    + apply (entry_at_bounds _ _ _ _ Hc) in E1. rewrite (entry_at_below _ es t Hce) by lia. cbn.
      by destruct (entry_identity e).
    + destruct (entry_at t es ≫= entry_identity); done.
Qed.

Lemma apply_entries_log_ok {W} `{WalWriter W} (eng eng' : Engine W) es s :
  log_ok eng -> last_sequence (en_state eng) + Z.of_nat (length es) <= u64_max ->
  apply_replication_entries es eng = (eng', Ok s) ->
  log_ok eng' /\ en_wal_entries eng' = en_wal_entries eng ++ es /\
  contiguous (last_sequence (en_state eng) + 1) es /\ s = last_sequence (en_state eng') /\
  s = last_sequence (en_state eng) + Z.of_nat (length es).
Proof.
  intros Hok Hb Ha. destruct (proj1 Hok) as (n & Hn & Hc & Hl).
  destruct (apply_replication_entries_spec eng eng' es (Ok s) ltac:(lia) Hb Ha)
    as (Hce & Hst & Hs & Hlog & _ & Hrem).
  assert (last_sequence (en_state eng') = s) as Hs'.
  { apply apply_entries_ok in Hst as [_ ->]. rewrite Hs.
    eapply stamped_last; [exact Hce|lia|]. intros ->. cbn. lia. }
  split_and!; try done. eapply extended_log_ok; try done. congruence.
Qed.

End identities.

(** ** The laws *)

Lemma replacement_exact `{EntryChecksum} retained base prefix n acc entries :
  contiguous n entries -> prefix < n -> (forall e, last acc = Some e -> we_sequence e < n) ->
  foldM (replacement_step retained base prefix) acc entries = Ok (acc ++ entries).
Proof.
  intros Hc Hp Hl. rewrite <- (push_increasing n acc entries Hc Hl).
  assert (Forall (fun e => prefix < we_sequence e) entries) as Hf.
  { apply Forall_forall. intros e He%(contiguous_ge _ _ _ Hc). lia. }
  clear -Hf. revert acc. induction Hf as [|e es He _ IH]; intros acc; [done|]. cbn.
  assert (replacement_step retained base prefix acc e = push_unique_wal_entry acc e) as ->
    by (unfold replacement_step; by rewrite (proj2 (Z.leb_gt _ _))).
  destruct (push_unique_wal_entry acc e); [apply IH|done].
Qed.

Lemma rebuild_suffix_exact `{EntryChecksum} base log prefix entries retained st n :
  contiguous n log -> 0 <= prefix -> prefix + Z.of_nat (length entries) <= u64_max ->
  contiguous (prefix + 1) entries ->
  rebuild_suffix base log prefix entries = Ok (retained, st) ->
  retained = upto prefix log ++ entries.
Proof.
  intros Hc Hp Hb Hce Hr. unfold rebuild_suffix in Hr. cbv zeta in Hr.
  destruct (Z.ltb_spec prefix (last_sequence base)); [done|]. fold (upto prefix log) in Hr.
  assert (upto prefix log = take (Z.to_nat (prefix + 1 - n)) log) as Hu by by apply filter_upto.
  rewrite (push_increasing n) in Hr by (try done; rewrite Hu; by apply contiguous_take).
  cbn [mbind result_bind app] in Hr. apply result_bind_ok in Hr as (? & _ & Hr).
  rewrite (replacement_exact _ _ _ (prefix + 1)) in Hr by (done || lia).
  apply result_bind_ok in Hr as (new & [= <-] & Hr). apply result_bind_ok in Hr as (? & _ & Hr).
  destruct (apply_entries _ _) as [? []]; [|done]. by injection Hr as <- _.
Qed.

Section disk_handle.
Context `{Crc32} `{CryptoLib} `{Binary WalEntry} `{Binary Manifest} `{Binary StoredKeyring}
  `{SnapshotCodec} `{NonceSource}.

#[export] Instance disk_handle : EngineHandle DiskEngine := {|
  eh_state := de_state;
  eh_wal_entry_term de := wal_entry_term (de_core de);
  eh_wal_entry_checksum de := wal_entry_checksum (de_core de);
  eh_wal_entries_since de := wal_entries_since (de_core de);
  eh_apply_replication_entries es := on_core (apply_replication_entries es);
  eh_replace_replication_suffix := replace_replication_suffix;
  eh_apply_replication_snapshot := apply_replication_snapshot;
  eh_replication_snapshot now de := replication_snapshot de now;
  eh_append_noop := worker_append_noop;
  eh_execute_write_batch := process_explicit_write_batch;
|}.

(** An operation of the engine keeps its log in order. *)
Lemma logged_log_ok now (eng eng' : Engine DiskLog) st0 entries :
  log_ok eng -> logged now eng eng' st0 entries -> log_ok eng'.
Proof.
  intros Hok Hl. eapply extended_log_ok; [done|exact (lg_sequences _ _ _ _ _ Hl)| | |].
  - apply (logged_sequence _ _ _ _ _ Hl).
  - apply (lg_cache _ _ _ _ _ Hl).
  - apply (lg_writer _ _ _ _ _ Hl).
Qed.

Lemma identities_zero (eng : Engine DiskLog) :
  log_ok eng -> en_wal_entry_identities eng !! 0 = None.
Proof. intros [(n & Hn & Hc & _) ->]. by rewrite (entry_at_below n). Qed.

Lemma replace_log_ok de ms prefix es de' s :
  log_ok (de_core de) -> 0 <= prefix -> prefix + 1 + Z.of_nat (length es) <= u64_max ->
  contiguous (prefix + 1) es ->
  replace_replication_suffix ms prefix es de = (de', Ok s) ->
  log_ok (de_core de') /\ en_wal_entries (de_core de') = upto prefix (en_wal_entries (de_core de)) ++ es /\
  s = last_sequence (de_state de') /\ s = prefix + Z.of_nat (length es).
Proof.
  intros [(n & Hn & Hc & Hl) Hids] Hp Hb Hce
    (loaded & base & retained & st & d & _ & _ & Hreb & _ & _ & Hst & -> & Hent & _ & Hbuild)%replace_steps.
  pose proof (rebuild_suffix_exact base _ prefix es _ _ n Hc Hp ltac:(lia) Hce Hreb) as Hret.
  destruct (rebuild_suffix_ok base _ prefix es _ _ n Hc Hp ltac:(lia) Hreb)
    as (new & Hretn & _ & _ & _ & Happ & _ & Hcase & _).
  assert (upto prefix (en_wal_entries (de_core de)) = take (Z.to_nat (prefix + 1 - n)) (en_wal_entries (de_core de)))
    as Hu by by apply filter_upto.
  rewrite <- Hu in Hretn, Hcase. rewrite Hret in Hretn. apply app_inv_head in Hretn as <-.
  assert (exists m, 0 < m /\ contiguous m retained /\
            m + Z.of_nat (length retained) = prefix + 1 + Z.of_nat (length es) /\
            (retained = [] -> m = last_sequence base + 1)) as (m & Hm & Hcm & Hml & Hme).
  { rewrite Hret. destruct Hcase as [[-> Hpb]|[Hne Hk]].
    - exists (prefix + 1). cbn. split_and!; [lia|done|lia|by intros; lia].
    - exists n. rewrite length_app, Nat2Z.inj_add. split_and!; [done| |lia|].
      + apply contiguous_app. split; [rewrite Hu; by apply contiguous_take|]. by rewrite Hk.
      + intros [E _]%app_eq_nil. done. }
  assert (last_sequence st = prefix + Z.of_nat (length es)) as Hseq.
  { apply apply_entries_ok in Happ as [_ ->]. eapply stamped_last; [done|lia|].
    intros E. specialize (Hme E). rewrite E in Hml. cbn in Hml. lia. }
  split_and!; [|by rewrite Hent|by rewrite Hst|done]. split.
  - exists m. rewrite Hent. fold (de_state de'). rewrite Hst. split_and!; [done|done|lia].
  - rewrite Hent. by apply (built_identities m).
Qed.

Lemma since_log de s limit :
  log_ok (de_core de) ->
  wal_entries_since (de_core de) s limit =
    Ok (match limit with
        | O => after s (en_wal_entries (de_core de))
        | _ => take limit (after s (en_wal_entries (de_core de)))
        end).
Proof.
  intros [(n & Hn & Hc & _) _]. unfold wal_entries_since, wal_entries_since_capped.
  rewrite (filter_ext _ (fun e => s <? we_sequence e)) by (intros e; apply andb_true_r).
  fold (after s (en_wal_entries (de_core de))).
  assert (exists m, contiguous m (after s (en_wal_entries (de_core de)))) as [m Hm].
  { unfold after. destruct (decide (n <= s + 1)).
    - rewrite (filter_after n) by done. eexists. by apply contiguous_drop.
    - exists n. rewrite filter_all; [done|]. intros e He%(contiguous_ge _ _ _ Hc). lia. }
  rewrite (push_increasing m) by done. cbn [mbind result_bind app].
  destruct limit as [|limit]; [done|]. cbn [Nat.ltb andb].
  destruct (Nat.ltb_spec (S limit) (length (after s (en_wal_entries (de_core de))))); [done|].
  by rewrite take_ge.
Qed.

#[export] Instance disk_handle_laws : EngineHandleLaws DiskEngine.
Proof.
  refine {| eh_log de := en_wal_entries (de_core de); eh_ok de := log_ok (de_core de) |}.
  - intros de [Hl _]. exact Hl.
  - intros de s Hok. cbn. unfold wal_entry_term. rewrite <- (proj2 Hok s).
    destruct (Z.eqb_spec s 0) as [->|]; [by rewrite identities_zero|done].
  - intros de s Hok. cbn. unfold wal_entry_checksum. rewrite <- (proj2 Hok s).
    destruct (Z.eqb_spec s 0) as [->|]; [by rewrite identities_zero|done].
  - intros de s limit. apply since_log.
  - intros de es de' s Hok Hb Ha. cbn in Ha. unfold on_core in Ha.
    destruct (apply_replication_entries es (de_core de)) as [c r] eqn:E. injection Ha as <- ->.
    by apply apply_entries_log_ok.
  - intros de ms prefix es de' s. apply replace_log_ok.
Defined.

End disk_handle.
