(* ===== verification/Dispatch.v ===== *)
(** * Dispatch: the commands of a client (crates/server/src/server/mod.rs,
    transactions.rs)

    [process_command] with its guards, logins and transactions, on a server with one
    session.  The engine is asked directly: [WorkerQueue] has the queue in front of
    it.  The values of the metrics are arguments; audit records are in [Connection]. *)

From S2P Require Import Prelude Text Command EngineError Store State Crypto Wal WalFacts.
From S2P Require Import WalLayout Opcode Wire Request Response Frame ServerError ReadIndex.
From S2P Require Import Consensus Auth Access Status BackupFiles Engine Transaction Backup.
From S2P Require Import Replication DiskLog Storage DiskEngine EngineWorker Node WritePath.
From S2P Require Import DiskHandle.
Import ReplicationRuntime.

(** The part of [ServerRuntimeConfig] that only INFO shows; times are in
    milliseconds. *)
Record ServerSettings := mkServerSettings {
  st_version : string;
  st_git_sha : string;
  st_transport : CodecOptions;
  st_insecure_auth_disabled : bool;
  st_insecure_default_credentials : bool;
  st_mtls_enabled : bool;
  st_idle_timeout : option Z;
  st_backup_dir : string;
  st_wal_segment_size_bytes : Z;
  st_wal_retain_segments : Z;
  st_snapshot_interval : option Z;
  st_expiration_sweep_interval : option Z;
  st_slow_command_threshold : option Z;
}.

(** The part that commands look at. *)
Record ServerConfig := mkServerConfig {
  sc_guards : ServerGuards;
  sc_auth_failure_window : Z;
  sc_auth_failure_limit : Z;
  sc_auth_lockout : Z;
  sc_transaction_max_duration : Z;
  sc_maintenance_path : string;
  sc_ha_write_coordinator : bool;
  sc_settings : ServerSettings;
}.

(** The shared state and the session of one connection. *)
Record Server := mkServer {
  sv_node : Node DiskEngine;
  sv_auth : option AuthStore;
  sv_maintenance : MaintenanceMode;
  sv_lockouts : AuthLockoutState;
  sv_files : Files;
  sv_session : SessionState;
}.

(** What a command draws from outside. *)
Record Inputs := mkInputs {
  in_clock : nat -> Z;
  in_command : CommandInputs;
  in_write : WriteInputs;
  in_env : Env;
  in_auth : AuthInputs;
  in_maintenance : PersistIo;
  in_metrics : Metrics;
  in_tls : option TlsMetadata;
  in_pool : PoolCounters;
  in_file_fails : FsCall -> option string;
  in_backup_io : nat -> WriteEnd;
}.

Section dispatch.
Context `{Crc32} `{CryptoLib} `{Binary WalEntry} `{Binary Manifest} `{Binary StoredKeyring}
  `{SnapshotCodec} `{NonceSource} `{Base64} `{BackupJson} `{ReplicationJson} `{PasswordHash} `{AuthJson}
  `{Sha256} `{DumpJson} (uuid_to_string : list byte -> string) (config : ServerConfig).

Notation M := (fallible Server ServerError).

Definition on_node {A} (m : fallible (Node DiskEngine) ServerError A) : M A :=
  fun server => let '(node, r) := m (sv_node server) in (server {{ sv_node := node }}, r).
Definition on_auth {A} (m : fallible AuthStore ServerError A) : M A :=
  fun server =>
    match sv_auth server with
    | None => (server, Err SrvUnsupportedRemoteCommand)
    | Some store => let '(store, r) := m store in (server {{ sv_auth := Some store }}, r)
    end.
Definition on_maintenance {A} (m : fallible MaintenanceMode ServerError A) : M A :=
  fun server => let '(mode, r) := m (sv_maintenance server) in (server {{ sv_maintenance := mode }}, r).
Definition on_files {A} (m : fallible Files ServerError A) : M A :=
  fun server => let '(files, r) := m (sv_files server) in (server {{ sv_files := files }}, r).
Definition put_session (session : SessionState) : M unit :=
  mmodify (fun server => server {{ sv_session := session }}).
Definition runtime (server : Server) : ReplicationRuntime := nd_runtime (sv_node server).
Definition reply (r : result TransportError Response) : M Response := mpure (from_transport r).

(** ** The engine *)

(** [engine.execute]: a write that can be batched and meets no others. *)
Definition execute (i : Inputs) (request_id : Uuid) (term : Z) (command : Command) : M ExecuteResult :=
  on_node (on_worker (
    if is_batchable_engine_write command
    then fun de =>
      match run_write_batch (ci_now_ms (in_command i)) term [(request_id, command)] de with
      | (de, reply :: _) => (de, reply)
      | (de, []) => (de, Err SrvEngineWorkerClosed)
      end
    else process_single_execute uuid_to_string (in_command i) term request_id command)).

Definition validate_backup (i : Inputs) (dump : string) : M Z :=
  on_node (on_worker (core (validate_logical_backup (ci_now_ms (in_command i)) dump))).

Definition verify_backup_dump (i : Inputs) (dump : string) : M (list (string * string)) :=
  manifest ← mpure (build_backup_manifest dump);
  live_entries ← validate_backup i dump;
  mret (dump_entries manifest live_entries).

(** ** Logins (handle_auth) *)

Definition anonymous : Identity :=
  mkIdentity "anonymous" permission_all (set_map everywhere permission_all).

Definition log_in (user : Identity) : M unit :=
  mmodify (fun server => server {{ sv_session ::= fun s => s {{ se_identity := Some user }} }}).
Definition on_lockouts (f : AuthLockoutState -> AuthLockoutState) : M unit :=
  mmodify (fun server => server {{ sv_lockouts ::= f }}).

Definition handle_auth (i : Inputs) (peer_addr : option string) (request_id : Uuid)
    (username password : string) : M Response :=
  server ← mget;
  match sv_auth server with
  | None => _ ← log_in anonymous; mret (Response.ok request_id)
  | Some store =>
      let lockout_key := auth_lockout_key username peer_addr in
      let username_lockout_key := auth_lockout_username_key username in
      let remaining (key : string) :=
        AuthLockoutState.remaining_lockout_seconds key (in_clock i 0) (sv_lockouts server) in
      match (match remaining lockout_key with
             | None => remaining username_lockout_key
             | seconds => seconds
             end) with
      | Some remaining_seconds => mfail (SrvAuthenticationLocked username remaining_seconds)
      | None =>
          verified ← mpure (AuthStore.verify store username password);
          match verified with
          | Some user =>
              _ ← log_in user;
              _ ← on_lockouts (AuthLockoutState.clear_success lockout_key);
              _ ← on_lockouts (AuthLockoutState.clear_success username_lockout_key);
              mret (Response.ok request_id)
          | None =>
              let fail (key : string) (limit : Z) (records : AuthLockoutState) :=
                (AuthLockoutState.record_failure key (in_clock i 1) (sc_auth_failure_window config) limit
                   (sc_auth_lockout config) records).1 in
              let limit := sc_auth_failure_limit config in
              _ ← on_lockouts (fail lockout_key limit);
              _ ← on_lockouts (fail username_lockout_key (Z.max (Z.min (limit * 3) u32_max) 1));
              mfail SrvAuthenticationFailed
          end
      end
  end.

(** ** Transactions (transactions.rs) *)

Definition clear_transaction : M unit :=
  mmodify (fun server => server {{ sv_session ::= fun s =>
    s {{ se_transaction_queue := []; se_transaction_started_at_ms := None }} }}).

Definition expire_transaction_if_needed (now_ms : Z) : M unit :=
  server ← mget;
  match se_transaction_started_at_ms (sv_session server) with
  | None => mret tt
  | Some started_at_ms =>
      if saturating_sub now_ms started_at_ms <=? sc_transaction_max_duration config then mret tt
      else
        _ ← clear_transaction;
        mfail (SrvTransactionExpired (sc_transaction_max_duration config / 1000))
  end.

(** [queued.remove(0)] when it is MULTI. *)
Definition without_multi (queue : list Command) : list Command :=
  match queue with CmdMulti :: rest => rest | _ => queue end.

Definition exec (i : Inputs) (request_id : Uuid) : M Response :=
  server ← mget;
  _ ← mpure (enforce_leader_writeability (runtime server) CmdExec);
  let queued := without_multi (se_transaction_queue (sv_session server)) in
  _ ← clear_transaction;
  _ ← mpure (foldM (fun _ command => validate_transaction_command command) tt queued);
  results ← on_node (on_worker (execute_batch (ci_now_ms (in_command i)) (ci_entry_ms (in_command i))
                                  (current_term (runtime server)) queued));
  server ← mget;
  _ ← on_node (publish_and_commit (in_write i) true (last_applied_state (nd_engine (sv_node server))));
  reply (Response.exec_results request_id (map_transaction_result_payload <$> results)).

Definition handle_transaction_command (i : Inputs) (request_id : Uuid) (command : Command) : M Response :=
  _ ← expire_transaction_if_needed (in_clock i 1);
  server ← mget;
  if negb (replication_role_accepts_writes (role (runtime server))) then mfail SrvReplicationReadOnly
  else
    match command with
    | CmdMulti => mfail SrvTransactionAlreadyActive
    | CmdDiscard => _ ← clear_transaction; mret (Response.ok request_id)
    | CmdExec => exec i request_id
    | CmdAuth _ _ => mfail SrvAuthenticationFailed
    | other =>
        let session := sv_session server in
        if sg_max_transaction_queue_len (sc_guards config) <=? Z.of_nat (length (se_transaction_queue session))
        then mfail SrvQuotaExceeded
        else
          _ ← mpure (validate_command (sc_guards config) other);
          _ ← mpure (validate_transaction_command other);
          _ ← mpure (if is_some (sv_auth server) then authorize_command other session else Ok tt);
          _ ← put_session (session {{ se_transaction_queue ::= fun queue => queue ++ [other] }});
          reply (Response.value request_id "QUEUED")
    end.

(** ** Commands of the engine (the last arm of process_command) *)

Definition command_path (i : Inputs) (request_id : Uuid) (command : Command) : M Response :=
  server ← mget;
  let rt := runtime server in
  if negb (is_write_command command) then
    match fast_read (ci_now_ms (in_command i)) request_id command (sv_node server) with
    | Some answer => mpure answer
    | None => r ← execute i request_id (current_term rt) command; mret (er_response r)
    end
  else if bool_decide (role rt = RoleStandalone) then
    r ← execute i request_id (current_term rt) command;
    _ ← on_node (publish_and_commit (in_write i) false (er_last_applied r));
    mret (er_response r)
  else if bool_decide (role rt = RoleLeader) && is_ha_write_coordinator_command command
          && sc_ha_write_coordinator config then
    responses ← on_node (process_batch (in_write i) (ci_now_ms (in_command i)) [(request_id, command)]);
    match responses with
    | response :: _ => mpure response
    | [] => mfail SrvEngineWorkerClosed
    end
  else
    _ ← mpure (enforce_leader_writeability rt command);
    let consensus_term := current_term rt in
    r ← execute i request_id consensus_term command;
    server ← mget;
    if bool_decide (role (runtime server) = RoleLeader) &&
       negb (is_leader_for_term consensus_term (runtime server))
    then mfail SrvReplicationAckUnavailable
    else
      _ ← on_node (publish_and_commit (in_write i) true (er_last_applied r));
      mret (er_response r).

(** ** Commands of operators *)

(** Entries by their keys. *)
Definition key_le (a b : string * string) : Prop := String.le a.1 b.1.
#[local] Instance key_le_dec : RelDecision key_le.
Proof. intros a b. unfold key_le. apply _. Defined.

(** The entries of [structured_info] on the build, the transport, the storage and the
    security of a server. *)
Definition server_entries (i : Inputs) (server : Server) (engine_entries : list (string * string))
    (replication : ReplicationStatusSnapshot) : list (string * string) :=
  let settings := sc_settings config in
  let transport := st_transport settings in
  let lookup (key : string) :=
    default "unknown"%string (snd <$> List.find (fun entry => String.eqb entry.1 key) engine_entries) in
  let number (value : option Z) := or_none (int_to_string <$> value) in
  let auth_required := is_some (sv_auth server) in
  let tls_enabled := is_some (in_tls i) in
  [("server.version", st_version settings);
   ("server.git_sha", st_git_sha settings);
   ("server.mode", if String.eqb (ss_role replication) "standalone" then "single-node" else "primary-replica");
   ("transport.protocol_magic", from_utf8_lossy MAGIC_BYTES);
   ("transport.protocol_version", int_to_string VERSION);
   ("transport.compression", CompressionMode_as_str (co_compression transport));
   ("transport.compression_mode", CompressionMode_as_str (co_compression transport));
   ("transport.compression_threshold_bytes", int_to_string (co_compression_threshold_bytes transport));
   ("transport.max_frame_len", int_to_string (co_max_frame_len transport));
   ("transport.max_decompressed_frame_len", int_to_string (co_max_decompressed_frame_len transport));
   ("storage.engine_version", lookup "engine_version");
   ("storage.key_count", lookup "key_count");
   ("storage.last_applied_sequence", lookup "last_applied_sequence");
   ("persistence.wal_size_bytes", lookup "wal_size_bytes");
   ("persistence.wal_segment_count", lookup "wal_segment_count");
   ("persistence.oldest_retained_sequence", lookup "oldest_retained_sequence");
   ("persistence.wal_sync_policy", lookup "wal_sync_policy");
   ("persistence.last_recovery_duration_ms", lookup "recovery_duration_ms");
   ("persistence.last_snapshot_at_ms", lookup "last_snapshot_at_ms");
   ("persistence.last_snapshot_duration_ms", lookup "last_snapshot_duration_ms");
   ("security.auth_required", bool_to_string auth_required);
   ("security.auth_mode", if auth_required then "password" else "disabled");
   ("security.insecure_auth_disabled", bool_to_string (st_insecure_auth_disabled settings));
   ("security.insecure_default_credentials", bool_to_string (st_insecure_default_credentials settings));
   ("security.rbac_enabled", bool_to_string auth_required);
   ("security.tls_enabled", bool_to_string tls_enabled);
   ("security.tls_mode", if tls_enabled then "tls" else "plaintext");
   ("security.mtls_enabled", bool_to_string (st_mtls_enabled settings));
   ("security.cert_not_after_ms", number (in_tls i ≫= tl_cert_not_after_ms));
   ("security.cert_days_remaining", number (in_tls i ≫= tl_cert_days_remaining));
   ("security.last_tls_reload_success_at_ms", number (in_tls i ≫= tl_last_reload_success_at_ms));
   ("security.last_tls_reload_failure_at_ms", number (in_tls i ≫= tl_last_reload_failure_at_ms));
   ("security.storage_encryption", lookup "storage_encryption");
   ("security.storage_key_id", lookup "storage_key_id")]%string.

(** The ones on its limits and its replication. *)
Definition runtime_entries (server : Server) (locked_auth_records : Z) (replication : ReplicationStatusSnapshot)
    : list (string * string) :=
  let settings := sc_settings config in
  let guards := sc_guards config in
  let number (value : option Z) := or_none (int_to_string <$> value) in
  let seconds (duration : Z) := int_to_string (duration / 1000) in
  let or_disabled (text : Z -> string) (duration : option Z) := default "disabled"%string (text <$> duration) in
  [("runtime.idle_timeout_seconds", or_disabled seconds (st_idle_timeout settings));
   ("runtime.backup_dir", st_backup_dir settings);
   ("runtime.maintenance_mode", bool_to_string (mm_enabled (sv_maintenance server)));
   ("runtime.max_request_payload_bytes", int_to_string (sg_max_request_payload_bytes guards));
   ("runtime.max_key_bytes", int_to_string (sg_max_key_bytes guards));
   ("runtime.max_value_bytes", int_to_string (sg_max_value_bytes guards));
   ("runtime.max_keys_per_batch", int_to_string (sg_max_keys_per_batch guards));
   ("runtime.max_transaction_queue_len", int_to_string (sg_max_transaction_queue_len guards));
   ("runtime.transaction_max_seconds", seconds (sc_transaction_max_duration config));
   ("runtime.requests_per_second", int_to_string (sg_requests_per_second guards));
   ("runtime.request_burst", int_to_string (sg_request_burst guards));
   ("runtime.auth_failure_window_seconds", seconds (sc_auth_failure_window config));
   ("runtime.auth_failure_limit", int_to_string (sc_auth_failure_limit config));
   ("runtime.auth_lockout_seconds", seconds (sc_auth_lockout config));
   ("runtime.wal_segment_size_bytes", int_to_string (st_wal_segment_size_bytes settings));
   ("runtime.wal_retain_segments", int_to_string (st_wal_retain_segments settings));
   ("runtime.locked_auth_records", int_to_string locked_auth_records);
   ("runtime.snapshot_interval_seconds", or_disabled seconds (st_snapshot_interval settings));
   ("runtime.expiration_sweep_interval_seconds", or_disabled seconds (st_expiration_sweep_interval settings));
   ("runtime.slow_command_threshold_ms", or_disabled int_to_string (st_slow_command_threshold settings));
   ("replication.role", ss_role replication);
   ("replication.node_id", ss_node_id replication);
   ("replication.group_id", ss_group_id replication);
   ("replication.write_ack_mode", ss_write_ack_mode replication);
   ("replication.leader_node_id", or_none (ss_leader_node_id replication));
   ("replication.upstream", or_none (ss_upstream replication));
   ("replication.paused", bool_to_string (ss_paused replication));
   ("replication.health", ss_health replication);
   ("replication.reason", or_none (ss_reason replication));
   ("replication.commit_sequence", int_to_string (ss_commit_sequence replication));
   ("replication.retention_floor_sequence", number (ss_retention_floor_sequence replication));
   ("health.status", ss_health replication)]%string.

Definition structured_info (i : Inputs) : M (list (string * string)) :=
  engine_entries ← on_node (on_worker (call (info uuid_to_string (ci_now_ms (in_command i)))));
  server ← mget;
  let '(lockouts, locked_auth_records) :=
    AuthLockoutState.active_lockout_count (in_clock i 1) (sv_lockouts server) in
  _ ← on_lockouts (fun _ => lockouts);
  let replication := snapshot (in_env i) (runtime server) in
  mret (merge_sort key_le
    (server_entries i server engine_entries replication ++
     runtime_entries server locked_auth_records replication ++
     ((fun '(key, value) => ("metrics." +:+ key, value)) <$> Metrics.snapshot (in_metrics i)) ++
     pool_snapshot (in_pool i))).

(** *** Files of backups *)

Definition resolve (i : Inputs) (path : string) (must_exist : bool) : M OsPath :=
  on_files (resolve_backup_path (in_file_fails i) (st_backup_dir (sc_settings config)) path must_exist).
Definition read_backup (i : Inputs) (path : OsPath) : M string := on_files (read_to_string (in_file_fails i) path).

(** RESTORE of a file that was read. *)
Definition restore_from (i : Inputs) (request_id : Uuid) (dump : string) : M Response :=
  server ← mget;
  r ← execute i request_id (current_term (runtime server)) (CmdRestore dump);
  _ ← on_node (publish_and_commit (in_write i) false (er_last_applied r));
  mret (er_response r).

(** BACKUP TO: the dump and its manifest are written. *)
Definition backup_to (i : Inputs) (request_id : Uuid) (path : string) : M Response :=
  let write (n : nat) (path : OsPath) (bytes : list byte) :=
    on_files (write_backup_file (in_file_fails i) (in_backup_io i n) path (path_text path) bytes) in
  r ← execute i request_id 0 CmdBackup;
  dump ← mpure (match Response.decode_value (er_response r) with
                | Ok dump => Ok dump
                | Err (Raised e) => Err (SrvTransport e)
                | Err _ => Err SrvConnectionPoolClosed (* not reached: the value was just encoded *)
                end);
  path ← resolve i path false;
  manifest ← mpure (build_backup_manifest dump);
  _ ← write 0%nat path (as_bytes dump);
  bytes ← mpure (map_err SrvIo (manifest_to_vec manifest));
  _ ← write 1%nat (backup_manifest_path path) bytes;
  mret (Response.ok request_id).

(** Backups and restores. *)
Definition backup_command (i : Inputs) (request_id : Uuid) (command : Command) : M Response :=
  match command with
  | CmdBackupTo path => backup_to i request_id path
  | CmdBackupVerify dump => entries ← verify_backup_dump i dump; reply (Response.entries request_id entries)
  | CmdBackupVerifyFrom path =>
      path ← resolve i path true;
      dump ← read_backup i path;
      manifest ← on_files (load_backup_manifest (in_file_fails i) (backup_manifest_path path));
      _ ← mpure (verify_backup_manifest dump manifest);
      entries ← verify_backup_dump i dump; reply (Response.entries request_id entries)
  | CmdRestoreFrom path => path ← resolve i path true; dump ← read_backup i path; restore_from i request_id dump
  | CmdRestoreCheck dump => count ← validate_backup i dump; mret (Response.count request_id count)
  | CmdRestoreCheckFrom path =>
      path ← resolve i path true;
      dump ← read_backup i path;
      count ← validate_backup i dump; mret (Response.count request_id count)
  | _ => mfail SrvUnsupportedRemoteCommand (* not reached *)
  end.

(** Users, roles and grants. *)
Definition users_command (i : Inputs) (request_id : Uuid) (command : Command) : M Response :=
  server ← mget;
  let session := sv_session server in
  let auth (m : fallible AuthStore ServerError unit) := _ ← on_auth m; mret (Response.ok request_id) in
  let listing (f : AuthStore -> result ServerError (list (string * string))) :=
    store ← mpure (ok_or (sv_auth server) SrvUnsupportedRemoteCommand);
    entries ← mpure (f store);
    reply (Response.entries request_id entries) in
  match command with
  | CmdCreateUser username password => auth (AuthStore.create_user (in_auth i) username password)
  | CmdAlterUserPassword username password => auth (AuthStore.alter_user_password (in_auth i) username password)
  | CmdDropUser username => auth (AuthStore.drop_user (in_auth i) username)
  | CmdCreateRole role => auth (AuthStore.create_role (in_auth i) role)
  | CmdDropRole role => auth (AuthStore.drop_role (in_auth i) role)
  | CmdGrantRole role username => auth (AuthStore.grant_role (in_auth i) role username)
  | CmdRevokeRole role username => auth (AuthStore.revoke_role (in_auth i) role username)
  | CmdGrantPermission permission pattern role =>
      auth (permission ← mpure (Permission_parse permission);
            AuthStore.grant_permission (in_auth i) permission pattern role)
  | CmdRevokePermission permission pattern role =>
      auth (permission ← mpure (Permission_parse permission);
            AuthStore.revoke_permission (in_auth i) permission pattern role)
  | CmdShowUsers => listing (fun store => Ok (AuthStore.users store))
  | CmdShowRoles => listing (fun store => Ok (AuthStore.roles store))
  | CmdShowGrants =>
      user ← mpure (ok_or (se_identity session) SrvAuthenticationRequired);
      if is_some (sv_auth server) then listing (fun store => AuthStore.grants_for_user store (id_username user))
      else reply (Response.entries request_id [("grants"%string, Identity.grants_csv user)])
  | CmdShowGrantsForUser username => listing (fun store => AuthStore.grants_for_user store username)
  | CmdShowGrantsForRole role => listing (fun store => AuthStore.grants_for_role store role)
  | CmdWhoAmI =>
      user ← mpure (ok_or (se_identity session) SrvAuthenticationRequired);
      reply (Response.entries request_id
        [("username", id_username user); ("permissions", Identity.permissions_csv user)]%string)
  | _ => mfail SrvUnsupportedRemoteCommand (* not reached *)
  end.

Definition dispatch_command (i : Inputs) (request_id : Uuid) (command : Command) : M Response :=
  server ← mget;
  let ok := mret (Response.ok request_id) in
  let session := sv_session server in
  let status := snapshot (in_env i) (runtime server) in
  match command with
  | CmdMulti =>
      _ ← put_session (session {{ se_transaction_queue ::= fun queue => queue ++ [CmdMulti];
                                  se_transaction_started_at_ms := Some (in_clock i 1) }}); ok
  | CmdExec | CmdDiscard => mfail SrvNoActiveTransaction
  | CmdMaintenanceOn => _ ← on_maintenance (MaintenanceMode.set (in_maintenance i) true); ok
  | CmdMaintenanceOff => _ ← on_maintenance (MaintenanceMode.set (in_maintenance i) false); ok
  | CmdMaintenanceStatus =>
      reply (Response.entries request_id
        [("enabled", bool_to_string (mm_enabled (sv_maintenance server)));
         ("path", sc_maintenance_path config)]%string)
  | CmdMetrics => reply (Response.entries request_id (Metrics.snapshot (in_metrics i)))
  | CmdMetricsProm => reply (Response.value request_id (Metrics.prometheus (in_metrics i)))
  | CmdHealth => reply (Response.entries request_id (health_entries (mm_enabled (sv_maintenance server)) status))
  | CmdInfo => entries ← structured_info i; reply (Response.entries request_id entries)
  | CmdShowReplication => reply (Response.entries request_id (replication_entries_from_snapshot status))
  | CmdShowCluster => reply (Response.entries request_id (cluster_entries_from_snapshot status))
  | CmdClusterJoin node_id address =>
      _ ← on_node (on_runtime (add_member (in_env i) (mkClusterMember node_id address true))); ok
  | CmdClusterRemove node_id => _ ← on_node (on_runtime (remove_member (in_env i) node_id)); ok
  | CmdPromoteFollower =>
      _ ← on_node (on_runtime (promote_follower (in_env i) (mm_enabled (sv_maintenance server)))); ok
  | CmdPauseReplication => _ ← on_node (with_runtime (set_paused true)); ok
  | CmdResumeReplication => _ ← on_node (with_runtime (set_paused false)); ok
  | CmdBackupTo _ | CmdBackupVerify _ | CmdBackupVerifyFrom _ | CmdRestoreFrom _
  | CmdRestoreCheck _ | CmdRestoreCheckFrom _ =>
      backup_command i request_id command
  | CmdCreateUser _ _ | CmdAlterUserPassword _ _ | CmdDropUser _ | CmdCreateRole _
  | CmdDropRole _ | CmdGrantRole _ _ | CmdRevokeRole _ _ | CmdGrantPermission _ _ _
  | CmdRevokePermission _ _ _ | CmdShowUsers | CmdShowRoles | CmdShowGrants
  | CmdShowGrantsForUser _ | CmdShowGrantsForRole _ | CmdWhoAmI =>
      users_command i request_id command
  | command => command_path i request_id command
  end.

(** ** All commands *)

Definition process_command (i : Inputs) (peer_addr : option string) (request_id : Uuid) (command : Command)
    : M Response :=
  match command with
  | CmdAuth username password => handle_auth i peer_addr request_id username password
  | _ =>
      server ← mget;
      if is_some (sv_auth server) && negb (is_authenticated (sv_session server)) &&
         negb (match command with CmdPing _ => true | _ => false end)
      then mfail SrvAuthenticationRequired
      else
        _ ← expire_transaction_if_needed (in_clock i 0);
        if mm_enabled (sv_maintenance server) && negb (is_allowed_during_maintenance command)
        then mfail SrvMaintenanceModeEnabled
        else
          _ ← mpure (enforce_leader_writeability (runtime server) command);
          server ← mget;
          if in_transaction (sv_session server) then handle_transaction_command i request_id command
          else
            _ ← mpure (if is_some (sv_auth server) then authorize_command command (sv_session server)
                       else Ok tt);
            dispatch_command i request_id command
  end.

(** The guard of [process_internal_replication_request]. *)
Definition authorize_replication (server : Server) : result ServerError unit :=
  match sv_auth server with
  | None => Ok tt
  | Some _ =>
      user ← ok_or (se_identity (sv_session server)) SrvAuthenticationRequired;
      if Identity.has user PermAdmin then Ok tt else Err SrvPermissionDenied
  end.

End dispatch.
