(* ===== verification/Connection.v ===== *)
(** * Connection: one connection of the server and the connections between servers
      (crates/server/src/server/mod.rs, replication_client.rs)

    [handle_client] from the hello to the end of the connection, with its audit
    records; the requests servers send each other; and the pool that sends them.  The
    stream is not modelled: what is read is an argument, and so is whether a response
    could be written. *)

From S2P Require Import Prelude Text Command EngineError Store State Crypto Wal WalFacts.
From S2P Require Import WalLayout Opcode Wire Request Response Frame Negotiation ServerError.
From S2P Require Import ReadIndex Consensus Auth Access Status BackupFiles AuditLog Engine.
From S2P Require Import Transaction Backup Replication DiskLog Storage DiskEngine EngineWorker.
From S2P Require Import Node WritePath DiskHandle Dispatch.
Import ReplicationRuntime.

(** ** Messages between servers *)

(** [serde_json] on a type: what was written is read back. *)
Class Json (A : Type) := {
  to_vec : A -> result string (list byte);
  from_slice : list byte -> result string A;
  from_to_vec a bytes : to_vec a = Ok bytes -> from_slice bytes = Ok a;
}.

Class ReplicationWire := {
  rw_status :: Json ReplicationStatusSnapshot;
  rw_snapshot :: Json ReplicationSnapshot;
  rw_entries :: Json (list WalEntry);
  rw_fetch :: Json ReplicationFetchRequest;
  rw_ack :: Json ReplicationAckRequest;
  rw_append :: Json AppendEntriesRequest;
  rw_appended :: Json AppendEntriesResponse;
  rw_install :: Json SnapshotInstallRequest;
  rw_installed :: Json SnapshotInstallResponse;
  rw_vote :: Json VoteRequest;
  rw_voted :: Json VoteResponse;
  rw_heartbeat :: Json HeartbeatRequest;
  rw_beaten :: Json HeartbeatResponse;
}.

Definition json_response {A} `{Json A} (request_id : Uuid) (value : A) : result ServerError Response :=
  payload ← map_err SrvInvalidArguments (to_vec value);
  Ok (Response.new request_id StatusOk payload).

Definition decode_json_payload {A} `{Json A} (payload : list byte) : result ServerError A :=
  map_err SrvInvalidArguments (from_slice payload).

(** ** Requests *)

(** The state a connection works on; the session of the server is the one of the
    connection. *)
Record Conn := mkConn {
  cn_server : Server;
  cn_audit : AuditLogger;
  cn_rate_limiter : RateLimiter;
}.

(** What a request draws from outside; clocks are indexed by the order of their use. *)
Record RequestInputs := mkRequestInputs {
  ri_command : Inputs;
  ri_instant : Z;
  ri_exported_ms : Z;
  ri_latency : nat -> Z;
  ri_audit_ms : nat -> Z;
  ri_audit_io : nat -> WriteEnd;
  ri_written : result TransportError unit;
}.

Definition is_healthcheck_client (hello : ClientHello) : bool :=
  String.eqb (ch_client_name hello) "vaylix-healthcheck".

(** The handshake: the hello to write and the options of the connection. *)
Definition greet_client (options : CodecOptions) (server_id : Uuid) (hello : ClientHello)
    : ServerHello * result ServerError CodecOptions :=
  match negotiate_server_options hello options server_id with
  | Ok (server_hello, transport) => (server_hello, Ok transport)
  | Err err =>
      (ServerHello.error (TransportError_code err) (TransportError_name err) (TransportError_text err),
       Err (SrvTransport err))
  end.

Section connection.
Context `{Crc32} `{CryptoLib} `{Binary WalEntry} `{Binary Manifest} `{Binary StoredKeyring}
  `{SnapshotCodec} `{NonceSource} `{Base64} `{BackupJson} `{ReplicationJson} `{PasswordHash} `{AuthJson}
  `{Sha256} `{DumpJson} `{AuditJson} `{ReplicationWire}
  (uuid_to_string : list byte -> string) (config : ServerConfig) (audit_commands : bool).

(** [process_internal_replication_request]. *)
Definition process_internal_replication_request (i : Inputs) (exported_ms : Z) (request : Request)
    : fallible Server ServerError Response :=
  server ← mget;
  _ ← mpure (authorize_replication server);
  let request_id := rq_request_id request in
  let now := ci_now_ms (in_command i) in
  match rq_opcode request with
  | OpReplicationStatus => mpure (json_response request_id (snapshot (in_env i) (runtime server)))
  | OpReplicationSnapshot =>
      mpure (json_response request_id (eh_replication_snapshot exported_ms (nd_engine (sv_node server))))
  | OpReplicationFetch =>
      payload ← mpure (decode_json_payload (rq_payload request));
      entries ← on_node (handle_fetch payload);
      mpure (json_response request_id entries)
  | OpReplicationAck =>
      payload ← mpure (decode_json_payload (rq_payload request));
      _ ← on_node (handle_ack (in_env i) payload);
      mret (Response.ok request_id)
  | OpReplicationAppend =>
      payload ← mpure (decode_json_payload (rq_payload request));
      answer ← on_node (handle_append (in_env i) now payload);
      mpure (json_response request_id answer)
  | OpReplicationInstallSnapshot =>
      payload ← mpure (decode_json_payload (rq_payload request));
      answer ← on_node (handle_install_snapshot (in_env i) now (in_nonce (ci_snapshot (in_command i))) payload);
      mpure (json_response request_id answer)
  | OpReplicationVote =>
      payload ← mpure (decode_json_payload (rq_payload request));
      answer ← on_node (on_runtime (handle_vote_request (in_env i) payload));
      mpure (json_response request_id answer)
  | OpReplicationHeartbeat =>
      payload ← mpure (decode_json_payload (rq_payload request));
      answer ← on_node (on_runtime (handle_heartbeat (in_env i) payload));
      mpure (json_response request_id answer)
  | _ => mfail SrvUnsupportedRemoteCommand
  end.

(** *** The loop of [handle_client] *)

Notation M := (fallible Conn (fault ServerError)).

(** [?] on a result of the server. *)
Definition try {A} (r : result ServerError A) : M A := mpure (map_err Raised r).

(** A call whose error is answered instead of returned. *)
Definition answered {A} (m : fallible Server ServerError A) : M (result ServerError A) :=
  fun conn =>
    let '(server, r) := m (cn_server conn) in (conn {{ cn_server := server }}, Ok r).

Definition audit (f : AuditLogger -> AuditLogger) : M unit :=
  mmodify (fun conn => conn {{ cn_audit ::= f }}).

(** [rate_limiter.allow()]. *)
Definition allow (ri : RequestInputs) : M bool :=
  fun conn =>
    let '(limiter, allowed) := RateLimiter.allow (ri_instant ri) (cn_rate_limiter conn) in
    (conn {{ cn_rate_limiter := limiter }}, Ok allowed).

Definition write_response (ri : RequestInputs) : M unit := try (from_transport (ri_written ri)).

(** [error_response(..)], whose fallback is expected to be encodable. *)
Definition refuse (request_id : Uuid) (code name text : string) : M Response :=
  match error_response request_id code name text with
  | Ok response => mret response
  | Err _ => mpure panic
  end.
Definition refuse_transport (request_id : Uuid) (err : TransportError) : M Response :=
  refuse request_id (TransportError_code err) (TransportError_name err) (TransportError_text err).
Definition refuse_server (request_id : Uuid) (err : ServerError) : M Response :=
  refuse request_id (ServerError_code err) (ServerError_name err) (ServerError_text err).
Definition response_of (request_id : Uuid) (r : result ServerError Response) : M Response :=
  match r with Ok response => mret response | Err err => refuse_server request_id err end.

Definition audit_context (connection_id : Z) (peer_addr : option string) (conn : Conn) (request_id : Uuid)
    (opcode : string) (status : Status) (error_code : option string) (latency_ms : Z) : AuditContext :=
  mkAuditContext connection_id peer_addr (sv_session (cn_server conn)) request_id opcode status error_code
    latency_ms.

(** A refusal that is recorded after it was written. *)
Definition refuse_audited (ri : RequestInputs) (connection_id : Z) (peer_addr : option string)
    (request_id : Uuid) (opcode code : string) (refusal : M Response) : M Response :=
  response ← refusal;
  _ ← write_response ri;
  conn ← mget;
  _ ← audit (record_audit_event uuid_to_string (ri_audit_io ri 0) (ri_audit_ms ri 0)
               (audit_context connection_id peer_addr conn request_id opcode (rs_status response)
                  (Some code) (ri_latency ri 0)));
  mret response.

(** A command that passed the guards of the connection. *)
Definition run_command (ri : RequestInputs) (connection_id : Z) (peer_addr : option string)
    (request_id : Uuid) (command : Command) : M Response :=
  let opcode := opcode_name command in
  r ← answered (process_command uuid_to_string config (ri_command ri) peer_addr request_id command);
  response ← response_of request_id r;
  let audit_error :=
    if bool_decide (rs_status response = StatusError) then
      match Response.decode_error response with Ok payload => Some (ep_code payload) | Err _ => None end
    else None in
  _ ← write_response ri;
  conn ← mget;
  let context (error_code : option string) (n : nat) :=
    audit_context connection_id peer_addr conn request_id opcode (rs_status response) error_code
      (ri_latency ri n) in
  _ ← audit (record_command_audit_event uuid_to_string audit_commands (ri_audit_io ri 0) (ri_audit_ms ri 0)
               (context audit_error 0%nat));
  _ ← audit (record_semantic_audit_event uuid_to_string (ri_audit_io ri 1) (ri_audit_ms ri 1)
               (context audit_error 1%nat) command);
  _ ← audit (record_slow_command_event uuid_to_string (st_slow_command_threshold (sc_settings config))
               (ri_audit_io ri 2) (ri_audit_ms ri 2) (context None 2%nat));
  mret response.

(** One request: the response that was written, or the error that ends the
    connection. *)
Definition handle_request (ri : RequestInputs) (connection_id : Z) (peer_addr : option string)
    (request : Request) : M Response :=
  let request_id := rq_request_id request in
  let write (m : M Response) := response ← m; _ ← write_response ri; mret response in
  conn ← mget;
  if bool_decide (rm_deadline_ms (rq_metadata request) = Some 0) then
    write (refuse_transport request_id TrnDeadlineExceeded)
  else if in_transaction (sv_session (cn_server conn)) && is_some (rm_sequence (rq_metadata request)) then
    write (refuse_transport request_id
             (TrnProtocolStateViolation "pipelined requests are not supported inside transactions"))
  else
  allowed ← allow ri;
  if negb allowed then
    refuse_audited ri connection_id peer_addr request_id "RATE_LIMIT" (ServerError_code SrvRateLimitExceeded)
      (refuse_server request_id SrvRateLimitExceeded)
  else
    _ ← try (validate_request request (sc_guards config));
    if is_internal_replication_opcode (rq_opcode request) then
      write (r ← answered (process_internal_replication_request (ri_command ri) (ri_exported_ms ri) request);
             response_of request_id r)
    else
      match into_command request with
      | Err Panicked => mpure panic
      | Err Diverged => mpure diverge
      | Err (Raised err) =>
          refuse_audited ri connection_id peer_addr request_id "DECODE" (TransportError_code err)
            (refuse_transport request_id err)
      | Ok command =>
          match validate_command (sc_guards config) command with
          | Err err =>
              refuse_audited ri connection_id peer_addr request_id (opcode_name command) (ServerError_code err)
                (refuse_server request_id err)
          | Ok _ => run_command ri connection_id peer_addr request_id command
          end
      end.

(** What the loop wakes up for. *)
Inductive ReadEvent :=
| RdRequest (request : Request) (ri : RequestInputs)
| RdFailed (err : TransportError)
| RdIdle
| RdShutdown.

(** The responses that were written; [Ok] when the connection ended by itself or is
    still open. *)
Fixpoint serve_client (connection_id : Z) (peer_addr : option string) (events : list ReadEvent)
    (written : list Response) (conn : Conn) : Conn * list Response * outcome ServerError unit :=
  match events with
  | [] => (conn, written, Ok tt)
  | RdFailed TrnUnexpectedEof :: _ | RdIdle :: _ | RdShutdown :: _ => (conn, written, Ok tt)
  | RdFailed err :: _ => (conn, written, Err (Raised (SrvTransport err)))
  | RdRequest request ri :: events =>
      match handle_request ri connection_id peer_addr request conn with
      | (conn, Ok response) => serve_client connection_id peer_addr events (written ++ [response]) conn
      | (conn, Err err) => (conn, written, Err err)
      end
  end.

(** A new connection: nobody is logged in, no transaction is open, and the bucket of the
    rate limiter is full. *)
Definition handle_client (accepted : Z) (connection_id : Z) (peer_addr : option string) (events : list ReadEvent)
    (conn : Conn) : Conn * list Response * outcome ServerError unit :=
  let guards := sc_guards config in
  serve_client connection_id peer_addr events []
    (conn {{ cn_server ::= fun server => server {{ sv_session := new_session }};
             cn_rate_limiter :=
               RateLimiter.new accepted (sg_requests_per_second guards) (sg_request_burst guards) }}).

End connection.

(** ** Connections between servers (replication_client.rs)

    [W] is the network with the servers behind it.  A worker of the pool without a
    connection behaves like one that was just started, so that the pool is the map of
    the open connections. *)

Record Network (W : Type) := mkNetwork {
  nw_fresh_id : W -> W * Uuid;
  nw_connect : ClusterMember -> W -> W * result string unit;
  nw_greet : ClusterMember -> ClientHello -> W -> W * result TransportError ServerHello;
  nw_exchange : ClusterMember -> CodecOptions -> Request -> W -> W * result TransportError Response;
}.
#[global] Arguments nw_fresh_id {W} _.
#[global] Arguments nw_connect {W} _.
#[global] Arguments nw_greet {W} _.
#[global] Arguments nw_exchange {W} _.

Record Pool (W : Type) := mkPool {
  pl_world : W;
  pl_connections : gmap string CodecOptions;
  pl_counters : PoolCounters;
}.
#[global] Arguments mkPool {W} _ _ _.
#[global] Arguments pl_world {W} _.
#[global] Arguments pl_connections {W} _.
#[global] Arguments pl_counters {W} _.

Definition peer_key (member : ClusterMember) : string := cm_node_id member +:+ "@" +:+ cm_advertise_addr member.

Definition ensure_replication_ok (response : Response) : result ServerError unit :=
  if bool_decide (rs_status response = StatusOk) then Ok tt
  else
    match Response.decode_error response with
    | Ok payload =>
        Err (SrvInvalidArguments ("replication peer returned " +:+ ep_code payload +:+ " " +:+ ep_name payload +:+
               ": " +:+ ep_message payload))
    | Err _ => Err SrvUnsupportedRemoteCommand
    end.

Section pool.
Context {W : Type} (network : Network W) (version : string) (upstream_username upstream_password : option string).

Notation M := (fallible (Pool W) ServerError).

Definition on_world {A} (m : W -> W * result ServerError A) : M A :=
  fun pool =>
    let '(w, r) := m (pl_world pool) in (mkPool w (pl_connections pool) (pl_counters pool), r).
Definition on_wire {A} (m : W -> W * result TransportError A) : M A :=
  on_world (fun w => let '(w, r) := m w in (w, from_transport r)).
Definition fresh_id : M Uuid := on_world (fun w => let '(w, id) := nw_fresh_id network w in (w, Ok id)).
Definition count (f : PoolCounters -> PoolCounters) : M unit :=
  mmodify (fun pool => mkPool (pl_world pool) (pl_connections pool) (f (pl_counters pool))).
Definition set_connection (member : ClusterMember) (connection : option CodecOptions) : M unit :=
  mmodify (fun pool =>
    mkPool (pl_world pool) (partial_alter (fun _ => connection) (peer_key member) (pl_connections pool))
      (pl_counters pool)).

Definition connect_replication_peer (member : ClusterMember) : M unit :=
  on_world (fun w => let '(w, r) := nw_connect network member w in (w, map_err SrvAccept r)).

Definition negotiate_replication_transport (member : ClusterMember) : M CodecOptions :=
  hello ← on_wire (nw_greet network member (new_client_hello "vaylix-replication" version));
  mpure (from_transport (client_options_from_server_hello hello)).

Definition authenticate_replication_peer (member : ClusterMember) (transport : CodecOptions) : M unit :=
  match upstream_username, upstream_password with
  | Some username, Some password =>
      id ← fresh_id;
      request ← mpure (from_transport (from_command id (CmdAuth username password)));
      response ← on_wire (nw_exchange network member transport request);
      if bool_decide (rs_status response = StatusOk) then mret tt else mfail SrvAuthenticationFailed
  | _, _ => mret tt
  end.

Definition open_peer (member : ClusterMember) : M CodecOptions :=
  _ ← connect_replication_peer member;
  transport ← negotiate_replication_transport member;
  _ ← authenticate_replication_peer member transport;
  mret transport.

Definition ensure_connection (member : ClusterMember) : M CodecOptions :=
  pool ← mget;
  match pl_connections pool !! peer_key member with
  | Some transport => mret transport
  | None =>
      transport ← open_peer member;
      _ ← set_connection member (Some transport);
      _ ← count (fun c => c {{ po_connections_opened ::= fun n => wrapping_add n 1 }});
      mret transport
  end.

(** A request and its answer over an open connection; the id of the answer is not
    looked at. *)
Definition call_peer {A B} `{Json A} `{Json B} (member : ClusterMember) (transport : CodecOptions)
    (opcode : Opcode) (payload : A) : M B :=
  id ← fresh_id;
  bytes ← mpure (map_err SrvInvalidArguments (to_vec payload));
  response ← on_wire (nw_exchange network member transport (new_request id opcode bytes));
  _ ← mpure (ensure_replication_ok response);
  mpure (map_err SrvInvalidArguments (from_slice (rs_payload response))).

Definition send_json_rpc_once {A B} `{Json A} `{Json B} (member : ClusterMember) (opcode : Opcode)
    (payload : A) : M B :=
  transport ← ensure_connection member;
  call_peer member transport opcode payload.

(** [first], and [second] when it fails. *)
Definition or_else {A} (first second : M A) : M A :=
  fun pool => match first pool with (pool, Ok a) => (pool, Ok a) | (pool, Err _) => second pool end.

Definition send_json_rpc {A B} `{Json A} `{Json B} (member : ClusterMember) (opcode : Opcode) (payload : A)
    : M B :=
  or_else (send_json_rpc_once member opcode payload)
    (_ ← set_connection member None; send_json_rpc_once member opcode payload).

Definition send_with_retry {A B} `{Json A} `{Json B} (member : ClusterMember) (opcode : Opcode) (payload : A)
    : M B :=
  or_else (send_json_rpc member opcode payload)
    (_ ← set_connection member None;
     _ ← count (fun c => c {{ po_reconnects ::= fun n => wrapping_add n 1 }});
     send_json_rpc member opcode payload).

(** The outcome of a call, which is looked at before it is returned. *)
Definition observe {A} (m : M A) : M (result ServerError A) :=
  fun pool => let '(pool, r) := m pool in (pool, Ok r).

Definition pool_append `{ReplicationWire} (elapsed_ms : Z) (member : ClusterMember)
    (payload : AppendEntriesRequest) : M AppendEntriesResponse :=
  r ← observe (send_with_retry member OpReplicationAppend payload);
  _ ← count (fun c => c {{ po_append_requests ::= fun n => wrapping_add n 1;
                           po_append_latency_total_ms ::= fun n => wrapping_add n (Z.min elapsed_ms u64_max) }});
  _ ← (if is_ok r then mret tt else count (fun c => c {{ po_append_failures ::= fun n => wrapping_add n 1 }}));
  mpure r.

Definition pool_heartbeat `{ReplicationWire} (member : ClusterMember) (payload : HeartbeatRequest)
    : M HeartbeatResponse :=
  r ← observe (send_with_retry member OpReplicationHeartbeat payload);
  _ ← (if is_ok r then mret tt else count (fun c => c {{ po_heartbeat_failures ::= fun n => wrapping_add n 1 }}));
  mpure r.

(** Votes and snapshots use a connection of their own. *)
Definition send_one_shot {A B} `{Json A} `{Json B} (member : ClusterMember) (opcode : Opcode) (payload : A)
    : M B :=
  transport ← open_peer member;
  call_peer member transport opcode payload.

Definition send_vote_request `{ReplicationWire} (member : ClusterMember) (payload : VoteRequest)
    : M VoteResponse := send_one_shot member OpReplicationVote payload.

Definition send_install_snapshot_request `{ReplicationWire} (member : ClusterMember)
    (payload : SnapshotInstallRequest) : M SnapshotInstallResponse :=
  send_one_shot member OpReplicationInstallSnapshot payload.

End pool.
