(* ===== verification/Loops.v ===== *)
(** * Loops: the tasks of a server (crates/server/src/server/mod.rs, lifecycle.rs, tls.rs)

    The loop that accepts connections, the TLS material and its reloader, the
    snapshotter and the sweeper, the follower that fetches from its leader, and the
    consensus loop with its heartbeats and elections.  What wakes a task up and what its
    clocks read are arguments; the network is the one of [Connection] or, for elections,
    an exchange with the other nodes. *)

From S2P Require Import Prelude Text Command EngineError Store State Crypto Wal WalFacts.
From S2P Require Import WalLayout Opcode Wire Request Response Frame Negotiation ServerError.
From S2P Require Import ReadIndex Consensus Elections Auth Access Status BackupFiles AuditLog.
From S2P Require Import Engine Transaction Backup Replication DiskLog Storage DiskEngine.
From S2P Require Import EngineWorker Node WritePath DiskHandle Dispatch Connection.
Import ReplicationRuntime.

(** ** Accepting connections ([start_with_signal]) *)

(** The permits of the semaphore that are free, the connections that hold one, the
    connection that waits for one, and how the loop ended. *)
Record Listener := mkListener {
  ln_free : nat;
  ln_running : gset Z;
  ln_waiting : option Z;
  ln_next_connection_id : Z;
  ln_metrics : Metrics;
  ln_ended : option (result ServerError unit);
}.

Definition open_listener (max_connections : nat) (metrics : Metrics) : Listener :=
  mkListener max_connections ∅ None 1 metrics None.

(** What the loop and the tasks it spawned wake up for: a connection, a failed
    accept, a permit for the connection that waits, the end of a connection, and the
    signal with the result of the last snapshot. *)
Inductive ListenerEvent :=
| LnAccepted
| LnAcceptFailed
| LnPermit
| LnConnectionEnded (connection_id : Z) (r : outcome ServerError unit)
| LnSignal (snapshot : result ServerError unit).

(** Both branches of the [select] are only waited for when no connection waits for a
    permit; a task that panics releases its permit and leaves the counters behind.
    [None] when the event cannot happen. *)
Definition listener_step (event : ListenerEvent) (l : Listener) : option Listener :=
  match ln_ended l, event, ln_waiting l with
  | Some _, _, _ => None
  | _, LnAccepted, None =>
      Some (l {{ ln_waiting := Some (ln_next_connection_id l);
                 ln_next_connection_id ::= fun n => wrapping_add n 1;
                 ln_metrics ::= fun m => m {{ me_accepted_connections ::= fun n => wrapping_add n 1;
                                              me_active_connections ::= fun n => wrapping_add n 1 }} }})
  | _, LnAcceptFailed, None => Some l
  | _, LnPermit, Some connection_id =>
      match ln_free l with
      | O => None
      | S free => Some (l {{ ln_free := free; ln_running ::= union {[connection_id]}; ln_waiting := None }})
      end
  | _, LnConnectionEnded connection_id r, _ =>
      if bool_decide (connection_id ∈ ln_running l) then
        let l := l {{ ln_free ::= S; ln_running ::= fun running => running ∖ {[connection_id]} }} in
        match r with
        | Ok _ | Err (Raised _) =>
            Some (l {{ ln_metrics ::= fun m => m {{ me_active_connections ::= fun n => wrapping_sub n 1;
                                                    me_completed_connections ::= fun n => wrapping_add n 1 }} }})
        | Err Panicked => Some l
        | Err Diverged => None
        end
      else None
  | _, LnSignal snapshot, None => Some (l {{ ln_ended := Some snapshot }})
  | _, _, _ => None
  end.

Fixpoint listener_run (events : list ListenerEvent) (l : Listener) : option Listener :=
  match events with
  | [] => Some l
  | event :: events => l ← listener_step event l; listener_run events l
  end.

(** ** TLS material (tls.rs, [spawn_tls_reloader]) *)

(** The libraries that read certificates and keys.  A file of certificates is read as
    a list, which ends with an error when one of them cannot be read. *)
Class Tls := {
  tls_config : Type;
  pem_certificates : list byte -> list (option (list byte));
  pem_private_key : list byte -> option (list byte);
  is_trust_anchor : list byte -> bool;
  tls_build : option (list (list byte)) -> list (list byte) -> list byte -> option tls_config;
  x509_not_after : list byte -> option Z;
}.

Definition MILLIS_PER_DAY : Z := 24 * 60 * 60 * 1000.

(** The time of expiry, and the days until then, rounded towards zero. *)
Definition inspect_certificate_expiry `{Tls} (now_ms : Z) (cert : list byte)
    : result ServerError (option Z * option Z) :=
  not_after ← ok_or (x509_not_after cert) SrvTlsConfiguration;
  let not_after_ms :=
    if (0 <=? not_after) && (not_after * 1000 <=? u64_max) then Some (not_after * 1000) else None in
  let days (value : Z) := Z.quot (Z.min value i64_max - now_ms) MILLIS_PER_DAY in
  Ok (not_after_ms, days <$> not_after_ms).

Record LoadedTlsConfig `{Tls} := mkLoadedTlsConfig {
  lt_server_config : tls_config;
  lt_cert_not_after_ms : option Z;
  lt_cert_days_remaining : option Z;
}.

Section tls.
Context `{Tls}.

(** The files, as reading them finds them. *)
Notation Files := (string -> result string (list byte)).

Definition read_certificates (files : Files) (path : string) : result ServerError (list (list byte)) :=
  bytes ← map_err (fun _ => SrvTlsConfiguration) (files path);
  ok_or (mapM id (pem_certificates bytes)) SrvTlsConfiguration.

Definition load_root_store (files : Files) (path : string) : result ServerError (list (list byte)) :=
  roots ← read_certificates files path;
  if negb (forallb is_trust_anchor roots) || bool_decide (roots = []) then Err SrvTlsConfiguration
  else Ok roots.

Definition load_tls_config (files : Files) (now_ms : Z) (cert_path key_path : string)
    (client_ca_path : option string) : result ServerError LoadedTlsConfig :=
  certs ← read_certificates files cert_path;
  match certs with
  | [] => Err SrvTlsConfiguration
  | first :: _ =>
      key_bytes ← map_err SrvIo (files key_path);
      private_key ← ok_or (pem_private_key key_bytes) SrvTlsConfiguration;
      roots ← match client_ca_path with
              | Some path => roots ← load_root_store files path; Ok (Some roots)
              | None => Ok None
              end;
      config ← ok_or (tls_build roots certs private_key) SrvTlsConfiguration;
      expiry ← inspect_certificate_expiry now_ms first;
      let '(not_after_ms, days_remaining) := expiry in
      if default false ((fun days => days <? 0) <$> days_remaining) then Err SrvTlsConfiguration
      else Ok (mkLoadedTlsConfig _ config not_after_ms days_remaining)
  end.

Record TlsState := mkTlsState {
  tt_cert_path : string;
  tt_key_path : string;
  tt_client_ca_path : option string;
  tt_config : tls_config;
  tt_metadata : TlsMetadata;
}.

Definition TlsState_load (files : Files) (now_ms : Z) (cert_path key_path : string)
    (client_ca_path : option string) : result ServerError TlsState :=
  loaded ← load_tls_config files now_ms cert_path key_path client_ca_path;
  Ok (mkTlsState cert_path key_path client_ca_path (lt_server_config loaded)
        (mkTlsMetadata (lt_cert_not_after_ms loaded) (lt_cert_days_remaining loaded) None None)).

(** [loaded_ms] is the time of the check of the certificate and [done_ms] the one that
    is noted. *)
Definition reload (files : Files) (loaded_ms done_ms : Z) : fallible TlsState ServerError unit :=
  fun state =>
    let metadata := tt_metadata state in
    match load_tls_config files loaded_ms (tt_cert_path state) (tt_key_path state) (tt_client_ca_path state) with
    | Ok loaded =>
        (mkTlsState (tt_cert_path state) (tt_key_path state) (tt_client_ca_path state) (lt_server_config loaded)
           (mkTlsMetadata (lt_cert_not_after_ms loaded) (lt_cert_days_remaining loaded) (Some done_ms)
              (tl_last_reload_failure_at_ms metadata)), Ok tt)
    | Err err =>
        (mkTlsState (tt_cert_path state) (tt_key_path state) (tt_client_ca_path state) (tt_config state)
           (mkTlsMetadata (tl_cert_not_after_ms metadata) (tl_cert_days_remaining metadata)
              (tl_last_reload_success_at_ms metadata) (Some done_ms)), Err err)
    end.

End tls.

(** ** Background tasks (lifecycle.rs) *)

(** A tick with what the task reads then, or a change of the shutdown channel. *)
Inductive Wake (A : Type) :=
| WakeTick (a : A)
| WakeShutdown (changed : bool) (shutdown : bool).
#[global] Arguments WakeTick {A} _.
#[global] Arguments WakeShutdown {A} _ _.

(** The loop of a task that works on ticks; [true] when it has ended. *)
Fixpoint task_loop {A S} (tick : A -> S -> S) (wakes : list (Wake A)) (s : S) : S * bool :=
  match wakes with
  | [] => (s, false)
  | WakeTick a :: wakes => task_loop tick wakes (tick a s)
  | WakeShutdown changed shutdown :: wakes =>
      if changed && shutdown then (s, true) else task_loop tick wakes s
  end.

Section tasks.
Context `{Crc32} `{CryptoLib} `{Binary WalEntry} `{Binary Manifest} `{Binary StoredKeyring}
  `{SnapshotCodec} `{NonceSource}.

Definition snapshotter_tick (i : SnapshotInputs) (s : DiskEngine * Metrics) : DiskEngine * Metrics :=
  let '(de, metrics) := s in
  match DiskEngine.snapshot i de with
  | (de, Ok _) => (de, metrics {{ me_snapshots_completed ::= fun n => wrapping_add n 1 }})
  | (de, Err _) => (de, metrics)
  end.
Definition spawn_snapshotter : list (Wake SnapshotInputs) -> DiskEngine * Metrics -> (DiskEngine * Metrics) * bool :=
  task_loop snapshotter_tick.

Definition sweeper_tick (now_ms : Z) (s : DiskEngine * Metrics) : DiskEngine * Metrics :=
  let '(de, metrics) := s in
  match on_core (Engine.sweep_expired now_ms) de with
  | (de, Ok removed) =>
      (de, metrics {{ me_expiration_sweeps ::= fun n => wrapping_add n 1;
                      me_expired_keys_removed ::= fun n => wrapping_add n removed }})
  | (de, Err _) => (de, metrics)
  end.
Definition spawn_expiration_sweeper : list (Wake Z) -> DiskEngine * Metrics -> (DiskEngine * Metrics) * bool :=
  task_loop sweeper_tick.

End tasks.

(** A hangup signal; the times are those of the reload and of the audit record. *)
Record Hangup := mkHangup {
  hu_files : string -> result string (list byte);
  hu_loaded_ms : Z;
  hu_done_ms : Z;
  hu_audit_ms : Z;
  hu_audit_io : WriteEnd;
}.

Section reloader.
Context `{Tls} `{Sha256} `{AuditJson} (uuid_to_string : list byte -> string).

Definition reloader_tick (i : Hangup) (s : TlsState * AuditLogger) : TlsState * AuditLogger :=
  let '(state, r) := reload (hu_files i) (hu_loaded_ms i) (hu_done_ms i) s.1 in
  let details : gmap string string :=
    match r with
    | Ok _ => {["result" := "ok"]}
    | Err err => <["error_code" := ServerError_code err]> {["result" := "error"]}
    end%string in
  (state, record_runtime_event uuid_to_string (hu_audit_io i) (hu_audit_ms i) "tls_reload" details s.2).
Definition spawn_tls_reloader : list (Wake Hangup) -> TlsState * AuditLogger -> (TlsState * AuditLogger) * bool :=
  task_loop reloader_tick.

End reloader.

(** ** A follower fetches from its leader *)

(** The addresses to fetch from, sorted and without repetitions. *)
Definition replication_sources (rt : ReplicationRuntime) : list string :=
  let others := List.filter (fun member => negb (bool_decide (cm_node_id member = rc_node_id (rr_config rt))))
                  (current_members rt) in
  let sources := option_list (rp_leader_advertise_addr (rr_state rt)) ++ option_list (rc_upstream (rr_config rt)) ++
                 (cm_advertise_addr <$> others) in
  dedup (merge_sort String.le sources).

(** The network and the node at this end of it. *)
Record Follower (W E : Type) := mkFollower {
  fw_pool : Pool W;
  fw_node : Node E;
}.
#[global] Arguments mkFollower {W E} _ _.
#[global] Arguments fw_pool {W E} _.
#[global] Arguments fw_node {W E} _.

Section follower.
Context {W E : Type} `{EngineHandle E} `{EntryChecksum} `{ReplicationJson} `{ReplicationWire}
  (network : Network W) (version : string) (upstream_username upstream_password : option string).

Notation M := (fallible (Follower W E) ServerError).

Definition over_network {A} (m : fallible (Pool W) ServerError A) : M A :=
  fun s => let '(pool, r) := m (fw_pool s) in (mkFollower pool (fw_node s), r).
Definition at_node {A} (m : fallible (Node E) ServerError A) : M A :=
  fun s => let '(node, r) := m (fw_node s) in (mkFollower (fw_pool s) node, r).

(** Only the address of a peer is connected to. *)
Definition at_address (upstream : string) : ClusterMember := mkClusterMember EmptyString upstream false.

(** A request on the connection of the round, and its payload when it succeeded. *)
Definition ask_upstream (upstream : string) (transport : CodecOptions) (opcode : Opcode) (bytes : list byte)
    : M (list byte) :=
  over_network (
    id ← fresh_id network;
    response ← on_wire (nw_exchange network (at_address upstream) transport (new_request id opcode bytes));
    if bool_decide (rs_status response = StatusOk) then mret (rs_payload response)
    else mfail SrvUnsupportedRemoteCommand).

Definition run_replication_round_from (env : Env) (upstream : string) : M (Z * bool) :=
  transport ← over_network (open_peer network version upstream_username upstream_password (at_address upstream));
  status_payload ← ask_upstream upstream transport OpReplicationStatus [];
  status ← mpure (decode_json_payload status_payload);
  fetch ← at_node (round_status env upstream status);
  match fetch with
  | None => mret (0, false)
  | Some fetch =>
      bytes ← mpure (map_err SrvInvalidArguments (to_vec fetch));
      fetch_payload ← ask_upstream upstream transport OpReplicationFetch bytes;
      entries ← mpure (decode_json_payload fetch_payload);
      ack ← at_node (round_apply status entries);
      match ack with
      | None => mret (0, false)
      | Some ack =>
          bytes ← mpure (map_err SrvInvalidArguments (to_vec ack));
          _ ← ask_upstream upstream transport OpReplicationAck bytes;
          mret (round_lag status (kq_applied_sequence ack))
      end
  end.

(** The sources in turn, until one serves the round. *)
Fixpoint try_sources (env : Env) (sources : list string) (last_error : option ServerError) : M (Z * bool) :=
  match sources with
  | [] => mfail (default (SrvInvalidArguments "replication source unavailable") last_error)
  | upstream :: sources =>
      fun s =>
        match run_replication_round_from env upstream s with
        | (s, Ok result) => (s, Ok result)
        | (s, Err err) => try_sources env sources (Some err) s
        end
  end.

Definition run_replication_round (env : Env) : M (Z * bool) :=
  s ← mget;
  match replication_sources (nd_runtime (fw_node s)) with
  | [] => mret (0, false)
  | sources => try_sources env sources None
  end.

(** A tick of [spawn_replication_follower_loop]; [elapsed_ms] is the length of the round. *)
Definition follower_tick (i : Env * Z) (s : Follower W E) : Follower W E :=
  let '(env, elapsed_ms) := i in
  let rt := nd_runtime (fw_node s) in
  let set_phase (phase : FollowerPhase) (lag_entries lag_ms : option Z) (s : Follower W E) :=
    (at_node (with_runtime (update_follower_phase phase lag_entries lag_ms)) s).1 in
  if negb (bool_decide (role rt = RoleFollower)) then s
  else if rp_paused (rr_state rt) then set_phase PhasePaused None None s
  else
    match run_replication_round env s with
    | (s, Ok (lag_entries, caught_up)) =>
        set_phase (if (caught_up : bool) then PhaseStreaming else PhaseCatchingUp) (Some lag_entries) (Some elapsed_ms) s
    | (s, Err _) => set_phase PhaseStale None None s
    end.
(** There is no task on a server that was configured to stand alone. *)
Definition spawn_replication_follower_loop (wakes : list (Wake (Env * Z))) (s : Follower W E)
    : option (Follower W E * bool) :=
  if bool_decide (rc_role (rr_config (nd_runtime (fw_node s))) = RoleStandalone) then None
  else Some (task_loop follower_tick wakes s).

End follower.

(** ** The consensus loop *)

(** How often the loop wakes up. *)
Definition consensus_tick_interval (config : ReplicationConfig) : Z :=
  Z.max (Z.min (rc_heartbeat_interval config) (from_millis 100)) (from_millis 25).

Definition heartbeat_due (rt : ReplicationRuntime) : bool := bool_decide (role rt = RoleLeader).

Section consensus.
Context {W E : Type} `{EngineHandle E} `{EntryChecksum} `{ReplicationJson}.

(** *** Heartbeats *)

Notation N := (fallible (Node E) ServerError).

(** The answers in the order in which they arrive; peers that fail have none. *)
Fixpoint take_heartbeats (env : Env) (term : Z) (answers : list HeartbeatResponse) : N unit :=
  match answers with
  | [] => mret tt
  | answer :: answers =>
      if term <? hs_term answer then on_runtime (observe_remote_term env (hs_term answer))
      else take_heartbeats env term answers
  end.

Definition send_cluster_liveness_heartbeats (env : Env) (answers : list HeartbeatResponse) : N unit :=
  node ← mget;
  if negb (bool_decide (role (nd_runtime node) = RoleLeader)) then mret tt
  else
    _ ← publish_applied (engine_sequence node);
    node ← mget;
    match leader_heartbeat_payload (nd_runtime node) with
    | None => mret tt
    | Some heartbeat =>
        _ ← with_runtime (note_leader_activity env);
        take_heartbeats env (hb_term heartbeat) answers
    end.

(** *** Elections *)

(** [W] is what is around the node; a vote request can change both, and while the
    node waits for the answer it can serve requests. *)
Notation M := (fallible (W * Node E) ServerError).
Context (ask : ClusterMember -> VoteRequest -> M VoteResponse).

Definition local {A} (m : N A) : M A :=
  fun s => let '(node, r) := m s.2 in ((s.1, node), r).

(** The answer to a request that may fail. *)
Definition asked (member : ClusterMember) (request : VoteRequest) : M (option VoteResponse) :=
  fun s => match ask member request s with
           | (s, Ok response) => (s, Ok (Some response))
           | (s, Err _) => (s, Ok None)
           end.

(** The first loop of [run_election_round]: the voters and the prevotes. *)
Fixpoint collect_prevotes (self : string) (request : VoteRequest) (members : list ClusterMember)
    (voters granted : nat) : M (nat * nat) :=
  match members with
  | [] => mret (voters, granted)
  | member :: members =>
      let voters := if cm_voter member then S voters else voters in
      if skipped self member then collect_prevotes self request members voters granted
      else
        answer ← asked member request;
        let granted := match answer with
                       | Some response => if vs_vote_granted response then S granted else granted
                       | None => granted
                       end in
        collect_prevotes self request members voters granted
  end.

(** The second one: [None] when an answer has a newer term. *)
Fixpoint collect_votes (env : Env) (self : string) (request : VoteRequest) (members : list ClusterMember)
    (voters granted : nat) : M (option (nat * nat)) :=
  match members with
  | [] => mret (Some (voters, granted))
  | member :: members =>
      let voters := if cm_voter member then S voters else voters in
      if skipped self member then collect_votes env self request members voters granted
      else
        answer ← asked member request;
        match answer with
        | Some response =>
            if vr_term request <? vs_term response then
              _ ← local (on_runtime (observe_remote_term env (vs_term response))); mret None
            else
              collect_votes env self request members voters
                (if vs_vote_granted response then S granted else granted)
        | None => collect_votes env self request members voters granted
        end
  end.

(** The clocks of a round in the order of their use, the time of the empty entry, and
    the rounds of its fan-out until the deadline, of which there is at least one. *)
Record ElectionInputs := mkElectionInputs {
  ei_env : nat -> Env;
  ei_noop_ms : Z;
  ei_rounds : list FanOut;
}.

(** What a new leader does: its empty entry is sent until it is committed. *)
Fixpoint commit_noop (sequence : Z) (rounds : list FanOut) : N unit :=
  match rounds with
  | [] => mret tt
  | round :: rounds =>
      _ ← send_cluster_heartbeats_with_timeout round;
      node ← mget;
      if negb (bool_decide (role (nd_runtime node) = RoleLeader)) then mret tt
      else if sequence <=? commit_sequence (nd_runtime node) then mret tt
      else commit_noop sequence rounds
  end.

(** The audit record of the election is left out. *)
Definition take_office (i : ElectionInputs) (term : Z) : N unit :=
  node ← mget;
  if negb (is_leader_for_term term (nd_runtime node)) then mret tt
  else
    noop ← on_worker (eh_append_noop (ei_noop_ms i) term);
    _ ← with_runtime (set_local_last_applied_state (la_last_applied_sequence noop)
          (la_last_applied_term noop) (la_last_applied_checksum noop));
    commit_noop (la_last_applied_sequence noop) (ei_rounds i).

Definition run_election_round (i : ElectionInputs) : M unit :=
  s ← mget;
  let rt := nd_runtime s.2 in
  let self := rc_node_id (rr_config rt) in
  if negb (election_due (ei_env i 0) rt) then mret tt
  else
    let '(probe_term, members, last_log_index, last_log_term) := election_probe rt in
    candidate_addr ← mpure (ok_or (local_advertise_addr rt)
                              (SrvInvalidArguments "candidate advertise address is unavailable"));
    prevotes ← collect_prevotes self
                 (mkVoteRequest probe_term self candidate_addr last_log_index last_log_term true) members 0 1;
    let '(voter_count, prevotes_granted) := prevotes in
    if Nat.ltb prevotes_granted (Nat.max voter_count 1 / 2 + 1)
    then local (with_runtime (defer_election (ei_env i 1)))
    else
      s ← mget;
      if negb (election_due (ei_env i 2) (nd_runtime s.2)) then mret tt
      else
        probe ← local (on_runtime (begin_election (ei_env i 3)));
        let '(term, members, last_log_index, last_log_term) := probe in
        votes ← collect_votes (ei_env i 4) self
                  (mkVoteRequest term self candidate_addr last_log_index last_log_term false) members 0 1;
        match votes with
        | None => mret tt
        | Some (voter_count, votes_granted) =>
            won ← local (on_runtime (finalize_election (ei_env i 5) term votes_granted (Nat.max voter_count 1)));
            if (won : bool) then local (take_office i term) else mret tt
        end.

(** A tick of [spawn_consensus_loop]: errors are logged. *)
Record ConsensusInputs := mkConsensusInputs {
  cs_heartbeat_env : Env;
  cs_heartbeats : list HeartbeatResponse;
  cs_round : option FanOut;
  cs_election_env : Env;
  cs_election : ElectionInputs;
}.

(** [cs_round] is [None] when one of the locks is held. *)
Definition consensus_tick (i : ConsensusInputs) (s : W * Node E) : W * Node E :=
  let when (due : ReplicationRuntime -> bool) (m : M unit) (s : W * Node E) :=
    if due (nd_runtime s.2) then (m s).1 else s in
  if Nat.leb (length (current_members (nd_runtime s.2))) 1 then s
  else
    let s := when heartbeat_due (local (send_cluster_liveness_heartbeats (cs_heartbeat_env i) (cs_heartbeats i))) s in
    let s := when heartbeat_due
               (local (match cs_round i with Some round => send_cluster_appends_locked round | None => mret tt end)) s in
    when (election_due (cs_election_env i)) (run_election_round (cs_election i)) s.
Definition spawn_consensus_loop (wakes : list (Wake ConsensusInputs)) (s : W * Node E)
    : option ((W * Node E) * bool) :=
  if bool_decide (rc_role (rr_config (nd_runtime s.2)) = RoleStandalone) then None
  else Some (task_loop consensus_tick wakes s).

End consensus.
