(* ===== verification/Process.v ===== *)
(** * Process: the server program (crates/server/src: args.rs, bootstrap.rs, admin.rs,
    healthcheck.rs, init.rs, main.rs, server/mod.rs; crates/engine/src/paths.rs)

    From the arguments to a running server: the launch configuration, which creates
    or opens the files of the data directory, and the start of the server on its
    engine; the operator tools, the health probe and the container entry point.
    Parsing of the command line is the work of the argument parser; TLS material is
    loaded by its library and stands for what loading it gave. *)

From S2P Require Import Prelude Text Command EngineError Store State Crypto Wal WalFacts.
From S2P Require Import WalLayout Opcode Wire Request Response Frame Negotiation ServerError.
From S2P Require Import ReadIndex Consensus Auth Access Status BackupFiles AuditLog Engine.
From S2P Require Import Transaction Backup Replication DiskLog Storage DiskEngine EngineWorker.
From S2P Require Import Node WritePath DiskHandle Dispatch Connection Loops.
Import ReplicationRuntime.

(** ** Arguments (args.rs) *)

Inductive WalSyncMode := ModeBuffered | ModeFlush | ModeSync.
Inductive ReplicationRoleMode := ModeStandalone | ModeLeader | ModeFollower.
Inductive WriteAckModeArg := ArgLocal | ArgReplica | ArgAll.

Record Args := mkArgs {
  ar_bind : string;
  ar_port : Z;
  ar_max_connections : Z;
  ar_snapshot_interval_seconds : option Z;
  ar_expiration_sweep_interval_seconds : option Z;
  ar_idle_timeout_seconds : option Z;
  ar_ssl : bool;
  ar_tls_cert : option string;
  ar_tls_key : option string;
  ar_tls_client_ca : option string;
  ar_data_dir : string;
  ar_backup_dir : option string;
  ar_wal_sync : WalSyncMode;
  ar_user : string;
  ar_password : string;
  ar_disable_auth : bool;
  ar_disable_compression : bool;
  ar_log_requests : bool;
  ar_max_request_payload_bytes : Z;
  ar_max_key_bytes : Z;
  ar_max_value_bytes : Z;
  ar_max_keys_per_batch : Z;
  ar_max_transaction_queue_len : Z;
  ar_requests_per_second : Z;
  ar_request_burst : Z;
  ar_audit_log_path : option string;
  ar_audit_commands : bool;
  ar_slow_command_threshold_ms : Z;
  ar_wal_segment_size_bytes : Z;
  ar_wal_retain_segments : Z;
  ar_transaction_max_seconds : Z;
  ar_auth_failure_window_seconds : Z;
  ar_auth_failure_limit : Z;
  ar_auth_lockout_seconds : Z;
  ar_replication_role : ReplicationRoleMode;
  ar_node_id : option string;
  ar_replication_group_id : string;
  ar_replication_advertise_addr : option string;
  ar_replication_upstream : option string;
  ar_replication_user : option string;
  ar_replication_password : option string;
  ar_write_ack_mode : WriteAckModeArg;
  ar_replication_ack_timeout_ms : Z;
  ar_replication_poll_interval_ms : Z;
  ar_replication_fetch_batch_size : Z;
  ar_replication_stale_after_seconds : Z;
  ar_replication_heartbeat_interval_ms : Z;
  ar_replication_election_timeout_min_ms : Z;
  ar_replication_election_timeout_max_ms : Z;
  ar_cluster_peers : list string;
}.

(** The defaults of the arguments. *)
Definition Args_default : Args := {|
  ar_bind := "127.0.0.1"; ar_port := 9173; ar_max_connections := 256;
  ar_snapshot_interval_seconds := None; ar_expiration_sweep_interval_seconds := None;
  ar_idle_timeout_seconds := None; ar_ssl := false; ar_tls_cert := None; ar_tls_key := None;
  ar_tls_client_ca := None; ar_data_dir := "./default.vaylix"; ar_backup_dir := None;
  ar_wal_sync := ModeFlush; ar_user := DEFAULT_USERNAME; ar_password := DEFAULT_PASSWORD;
  ar_disable_auth := false; ar_disable_compression := false; ar_log_requests := false;
  ar_max_request_payload_bytes := 1048576; ar_max_key_bytes := 1024; ar_max_value_bytes := 262144;
  ar_max_keys_per_batch := 256; ar_max_transaction_queue_len := 128; ar_requests_per_second := 200;
  ar_request_burst := 400; ar_audit_log_path := None; ar_audit_commands := false;
  ar_slow_command_threshold_ms := 100; ar_wal_segment_size_bytes := DEFAULT_WAL_SEGMENT_SIZE_BYTES;
  ar_wal_retain_segments := DEFAULT_WAL_RETAIN_SEGMENTS; ar_transaction_max_seconds := 30;
  ar_auth_failure_window_seconds := 300; ar_auth_failure_limit := 5; ar_auth_lockout_seconds := 900;
  ar_replication_role := ModeStandalone; ar_node_id := None; ar_replication_group_id := "default";
  ar_replication_advertise_addr := None; ar_replication_upstream := None; ar_replication_user := None;
  ar_replication_password := None; ar_write_ack_mode := ArgReplica; ar_replication_ack_timeout_ms := 5000;
  ar_replication_poll_interval_ms := 250; ar_replication_fetch_batch_size := 256;
  ar_replication_stale_after_seconds := 15; ar_replication_heartbeat_interval_ms := 300;
  ar_replication_election_timeout_min_ms := 1500; ar_replication_election_timeout_max_ms := 3000;
  ar_cluster_peers := [];
|}.

(** ** The launch configuration (bootstrap.rs) *)

(** [Path::join] with a relative path. *)
Definition path_join (dir name : string) : string :=
  if String.eqb dir EmptyString || bool_decide (last (as_bytes dir) = Some x2f) then dir +:+ name
  else dir +:+ "/" +:+ name.

Definition millis (seconds : Z) : Z := seconds * 1000.

Definition engine_options (args : Args) (keyring : option StorageKeyring) : EngineOptions :=
  mkEngineOptions
    (match ar_wal_sync args with ModeBuffered => Buffered | ModeFlush => Flush | ModeSync => SyncData end)
    keyring (ar_wal_segment_size_bytes args) (ar_wal_retain_segments args).

Definition parse_cluster_peer (peer : string) : result ServerError ClusterMember :=
  match split_once "@"%char peer with
  | None => Err (SrvInvalidArguments "cluster peers must use node_id@host:port form")
  | Some (node_id, advertise_addr) =>
      if String.eqb node_id EmptyString || String.eqb advertise_addr EmptyString
      then Err (SrvInvalidArguments "cluster peer entries must include both node_id and host:port")
      else Ok (mkClusterMember node_id advertise_addr true)
  end.
Definition parse_cluster_peers (peers : list string) : result ServerError (list ClusterMember) :=
  mapM parse_cluster_peer peers.

Definition validate_tls_args (args : Args) : result ServerError unit :=
  if negb (ar_ssl args) && (is_some (ar_tls_cert args) || is_some (ar_tls_key args) || is_some (ar_tls_client_ca args))
  then Err SrvTlsConfiguration else Ok tt.

(** [load] is what loading the material gives. *)
Definition build_tls_state (args : Args)
    (load : string -> string -> option string -> result ServerError TlsMetadata)
    : result ServerError (option TlsMetadata) :=
  if negb (ar_ssl args) then Ok None
  else
    cert ← ok_or (ar_tls_cert args) SrvTlsConfiguration;
    key ← ok_or (ar_tls_key args) SrvTlsConfiguration;
    metadata ← load cert key (ar_tls_client_ca args);
    Ok (Some metadata).

Definition transport_options (args : Args) : CodecOptions :=
  if ar_disable_compression args
  then CodecOptions_default {{ co_compression := CompressionNone; co_compression_threshold_bytes := 0 }}
  else CodecOptions_default.

Definition audit_log_path (args : Args) : string :=
  default (path_join (ar_data_dir args) "audit.log") (ar_audit_log_path args).

Definition replication_config (args : Args) (new_id : string) (initial_members : list ClusterMember)
    : ReplicationConfig := {|
  rc_node_id := default new_id (ar_node_id args);
  rc_group_id := ar_replication_group_id args;
  rc_advertise_addr := ar_replication_advertise_addr args;
  rc_role := match ar_replication_role args with
             | ModeStandalone => RoleStandalone
             | ModeLeader => RoleLeader
             | ModeFollower => RoleFollower
             end;
  rc_upstream := ar_replication_upstream args;
  rc_write_ack_mode := match ar_write_ack_mode args with
                       | ArgLocal => AckLocal
                       | ArgReplica => AckReplica
                       | ArgAll => AckAll
                       end;
  rc_ack_timeout := from_millis (ar_replication_ack_timeout_ms args);
  rc_fetch_batch_size := Z.to_nat (ar_replication_fetch_batch_size args);
  rc_stale_after := from_millis (millis (ar_replication_stale_after_seconds args));
  rc_heartbeat_interval := from_millis (ar_replication_heartbeat_interval_ms args);
  rc_election_timeout_min := from_millis (ar_replication_election_timeout_min_ms args);
  rc_election_timeout_max := from_millis (ar_replication_election_timeout_max_ms args);
  rc_initial_members := initial_members;
|}.

(** The login at the other servers. *)
Definition upstream_username (args : Args) : option string :=
  Some (default (ar_user args) (ar_replication_user args)).
Definition upstream_password (args : Args) : option string :=
  Some (default (ar_password args) (ar_replication_password args)).

Definition uses_default_credentials (args : Args) : bool :=
  String.eqb (ar_user args) DEFAULT_USERNAME && String.eqb (ar_password args) DEFAULT_PASSWORD.

(** The files below the data directory. *)
Record DataDir := mkDataDir {
  dd_disk : Disk;
  dd_auth : option (list byte);
  dd_audit : option (list byte);
  dd_maintenance : bool;
  dd_cluster : option (list byte);
}.

(** What the launch draws from outside: the outcome of creating directories and of
    opening files, random bytes and clocks. *)
Record LaunchInputs := mkLaunchInputs {
  li_data_dir : result string unit;
  li_key_id : list byte;
  li_key_random : list byte;
  li_key_ms : Z;
  li_auth : AuthInputs;
  li_auth_unreadable : option string;
  li_tls : string -> string -> option string -> result ServerError TlsMetadata;
  li_audit_dir : result string unit;
  li_audit_unreadable : option string;
  li_audit_opened : result string unit;
  li_backup_dir : result string unit;
  li_node_id : string;
  li_env : Env;
  li_cluster_unreadable : option string;
}.

Record ServerLaunchConfig := mkServerLaunchConfig {
  lc_bind : string;
  lc_port : Z;
  lc_max_connections : Z;
  lc_engine_options : EngineOptions;
  lc_config : ServerConfig;
  lc_log_requests : bool;
  lc_audit_commands : bool;
  lc_auth : option AuthStore;
  lc_tls : option TlsMetadata;
  lc_audit : AuditLogger;
  lc_maintenance : MaintenanceMode;
  lc_replication : ReplicationRuntime;
  lc_upstream_username : option string;
  lc_upstream_password : option string;
  lc_poll_interval : Z;
}.

(** A file that can be unreadable. *)
Definition read_file {A} (unreadable : option string) (file : A) : result string A :=
  match unreadable with Some message => Err message | None => Ok file end.

Section launch.
Context `{Crc32} `{CryptoLib} `{Binary WalEntry} `{Binary Manifest} `{Binary StoredKeyring}
  `{SnapshotCodec} `{NonceSource} `{Base64} `{BackupJson} `{ReplicationJson} `{PasswordHash} `{AuthJson}
  `{Sha256} `{DumpJson} `{AuditJson} (version git_sha : string).

Notation M := (fallible DataDir ServerError).

Definition on_disk {A} (m : disk A) : M A :=
  fun dir => let '(d, r) := m (dd_disk dir) in (dir {{ dd_disk := d }}, from_engine r).
Definition on_auth_file {A} (m : fallible (option (list byte)) ServerError A) : M A :=
  fun dir => let '(file, r) := m (dd_auth dir) in (dir {{ dd_auth := file }}, r).

Definition build_auth_config (args : Args) (i : LaunchInputs) (keyring : StorageKeyring)
    : M (option AuthStore) :=
  if ar_disable_auth args then mret None
  else
    store ← on_auth_file (load_or_bootstrap (li_auth i) keyring (ar_user args) (ar_password args)
                            (li_auth_unreadable i));
    mret (Some store).

Definition server_guards (args : Args) : ServerGuards :=
  mkServerGuards (ar_max_request_payload_bytes args) (ar_max_key_bytes args) (ar_max_value_bytes args)
    (ar_max_keys_per_batch args) (ar_max_transaction_queue_len args) (ar_requests_per_second args)
    (ar_request_burst args).

Definition server_settings (args : Args) : ServerSettings := {|
  st_version := version;
  st_git_sha := git_sha;
  st_transport := transport_options args;
  st_insecure_auth_disabled := ar_disable_auth args;
  st_insecure_default_credentials := uses_default_credentials args;
  st_mtls_enabled := is_some (ar_tls_client_ca args);
  st_idle_timeout := millis <$> ar_idle_timeout_seconds args;
  st_backup_dir := default (path_join (ar_data_dir args) "backups") (ar_backup_dir args);
  st_wal_segment_size_bytes := ar_wal_segment_size_bytes args;
  st_wal_retain_segments := ar_wal_retain_segments args;
  st_snapshot_interval := millis <$> ar_snapshot_interval_seconds args;
  st_expiration_sweep_interval := millis <$> ar_expiration_sweep_interval_seconds args;
  st_slow_command_threshold :=
    if ar_slow_command_threshold_ms args =? 0 then None else Some (ar_slow_command_threshold_ms args);
|}.

(** The write coordinator is only there once the server was built. *)
Definition server_config (args : Args) (ha_write_coordinator : bool) : ServerConfig := {|
  sc_guards := server_guards args;
  sc_auth_failure_window := millis (ar_auth_failure_window_seconds args);
  sc_auth_failure_limit := ar_auth_failure_limit args;
  sc_auth_lockout := millis (ar_auth_lockout_seconds args);
  sc_transaction_max_duration := millis (ar_transaction_max_seconds args);
  sc_maintenance_path := path_join (ar_data_dir args) "maintenance.mode";
  sc_ha_write_coordinator := ha_write_coordinator;
  sc_settings := server_settings args;
|}.

Definition build_server_launch_config (args : Args) (i : LaunchInputs) : M ServerLaunchConfig :=
  _ ← mpure (validate_tls_args args);
  _ ← mpure (from_engine (map_err Io (li_data_dir i)));
  keyring ← on_disk (load_or_create_keyring (li_key_id i) (li_key_random i) (li_key_ms i));
  auth_config ← build_auth_config args i keyring;
  cluster_members ← mpure (parse_cluster_peers (ar_cluster_peers args));
  tls_state ← mpure (build_tls_state args (li_tls i));
  dir ← mget;
  audit_logger ← mpure (AuditLogger.open (li_audit_dir i) (read_file (li_audit_unreadable i) (dd_audit dir))
                          (li_audit_opened i));
  _ ← mput (dir {{ dd_audit := Some (al_file audit_logger) }});
  _ ← mpure (map_err SrvIo (li_backup_dir i));
  runtime ← mpure (new (li_env i) (replication_config args (li_node_id i) cluster_members)
                     (read_file (li_cluster_unreadable i) (dd_cluster dir)));
  mret {|
    lc_bind := ar_bind args;
    lc_port := ar_port args;
    lc_max_connections := ar_max_connections args;
    lc_engine_options := engine_options args (Some keyring);
    lc_config := server_config args false;
    lc_log_requests := ar_log_requests args;
    lc_audit_commands := ar_audit_commands args;
    lc_auth := auth_config;
    lc_tls := tls_state;
    lc_audit := audit_logger;
    lc_maintenance := MaintenanceMode.load (dd_maintenance dir);
    lc_replication := runtime;
    lc_upstream_username := upstream_username args;
    lc_upstream_password := upstream_password args;
    lc_poll_interval := ar_replication_poll_interval_ms args;
  |}.

End launch.

(** ** The start of the server ([Server::new], [with_engine], [start_with_signal]) *)

(** The clocks of opening the engine and of INFO, the address that was bound, the write
    of the state file, and the files around the server. *)
Record StartInputs := mkStartInputs {
  st_started_ms : Z;
  st_new_ms : Z;
  st_finished_ms : Z;
  st_info_ms : Z;
  st_bound : result string string;
  st_env : Env;
  st_files : Files;
  st_initial_info_ms : Z;
}.

Definition Metrics_default : Metrics := mkMetrics 0 0 0 0 0 0 0 0 0 0 0 0 0 0 0 0 0 0 0 0 0 0 0.

(** A server that runs: its shared state, and what the connections and tasks use. *)
Record Running := mkRunning {
  rg_server : Server;
  rg_audit : AuditLogger;
  rg_config : ServerConfig;
  rg_metrics : Metrics;
  rg_listener : Listener;
  rg_local_addr : string;
}.

Section start.
Context `{Crc32} `{CryptoLib} `{Binary WalEntry} `{Binary Manifest} `{Binary StoredKeyring}
  `{SnapshotCodec} `{NonceSource} `{ReplicationJson} (uuid_to_string : list byte -> string).

(** The counter of replayed entries, from the text of INFO. *)
Definition recovered_entries (info : list (string * string)) : Z :=
  match List.find (fun entry => String.eqb entry.1 "wal_entries_replayed_total") info with
  | Some (_, value) => default 0 (parse_uint u64_max value)
  | None => 0
  end.

(** [parse_last_applied_sequence]. *)
Definition parse_last_applied_sequence (info : list (string * string)) : Z :=
  match List.find (fun entry => String.eqb entry.1 "last_applied_sequence") info with
  | Some (_, value) => default 0 (parse_uint u64_max value)
  | None => 0
  end.

Definition with_engine (launch : ServerLaunchConfig) (i : StartInputs) (de : DiskEngine)
    : result ServerError Running :=
  let '(de, info) := DiskEngine.info uuid_to_string (st_info_ms i) de in
  info ← from_engine info;
  local_addr ← map_err SrvBind (st_bound i);
  let '(runtime, persisted) := set_advertise_addr (st_env i) local_addr (lc_replication launch) in
  _ ← persisted;
  let metrics := Metrics_default {{ me_wal_entries_replayed_total := recovered_entries info }} in
  let node := mkNode de runtime (CommittedReadIndex.rebuild_from_engine_state (de_state de)) in
  Ok (mkRunning (mkServer node (lc_auth launch) (lc_maintenance launch) ∅ (st_files i) new_session) (lc_audit launch)
        ((lc_config launch) {{ sc_ha_write_coordinator := true }}) metrics
        (open_listener (Z.to_nat (lc_max_connections launch)) metrics) local_addr).

(** What happens before the first connection is accepted: the position of the log goes
    to the runtime. *)
Definition start_with_signal (i : StartInputs) (running : Running) : result ServerError Running :=
  let node := sv_node (rg_server running) in
  let '(de, info) := DiskEngine.info uuid_to_string (st_initial_info_ms i) (nd_engine node) in
  info ← from_engine info;
  let sequence := parse_last_applied_sequence info in
  let runtime := set_local_last_applied_state sequence (eh_wal_entry_term de sequence)
                   (eh_wal_entry_checksum de sequence) (nd_runtime node) in
  Ok (running {{ rg_server ::= fun server => server {{ sv_node := mkNode de runtime (nd_index node) }} }}).

Definition server_new (launch : ServerLaunchConfig) (i : StartInputs) (d : Disk) : result ServerError Running :=
  de ← from_engine (from_paths_with_options (st_started_ms i) (st_new_ms i) (st_finished_ms i) d
                      (lc_engine_options launch));
  with_engine launch i de.

Definition start_server (launch : ServerLaunchConfig) (i : StartInputs) (d : Disk) : result ServerError Running :=
  running ← server_new launch i d; start_with_signal i running.

End start.

(** ** The health probe (healthcheck.rs) *)

Inductive HealthcheckKind := Liveness | Readiness.

Record HealthcheckCommand := mkHealthcheckCommand {
  hc_kind : HealthcheckKind;
  hc_host : string;
  hc_port : option Z;
  hc_user : option string;
  hc_password : option string;
  hc_timeout_ms : Z;
}.

(** The variables of the environment; [Err] for one that is not Unicode. *)
Record Environment := mkEnvironment {
  vr_port : option (result string string);
  vr_user : option (result string string);
  vr_password : option (result string string);
}.

Definition resolve_server_port (vars : Environment) : result ServerError Z :=
  match vr_port vars with
  | Some (Ok value) =>
      ok_or (parse_uint u16_max value)
        (SrvInvalidArguments ("invalid VAYLIX_PORT for healthcheck: " +:+ value))
  | None => Ok 9173
  | Some (Err err) => Err (SrvInvalidArguments ("invalid VAYLIX_PORT for healthcheck: " +:+ err))
  end.

Definition resolve_credentials (vars : Environment) (command : HealthcheckCommand)
    : result ServerError (option (string * string)) :=
  let variable (v : option (result string string)) :=
    match v with Some (Ok value) => Some value | _ => None end in
  let or_variable (given : option string) (v : option (result string string)) :=
    match given with Some value => Some value | None => variable v end in
  match or_variable (hc_user command) (vr_user vars), or_variable (hc_password command) (vr_password vars) with
  | None, None => Ok None
  | Some username, Some password =>
      if String.eqb username EmptyString || String.eqb password EmptyString
      then Err (SrvInvalidArguments "healthcheck authentication requires both username and password")
      else Ok (Some (username, password))
  | _, _ => Err (SrvInvalidArguments "healthcheck authentication requires both username and password")
  end.

Definition Status_debug (status : Status) : string :=
  match status with StatusOk => "Ok" | StatusNotFound => "NotFound" | StatusError => "Error" end.

Definition ensure_ok (status : Status) (kind : string) : result ServerError unit :=
  if bool_decide (status = StatusOk) then Ok tt
  else Err (SrvHealthcheckFailed (kind +:+ " probe returned status " +:+ Status_debug status)).

Section healthcheck.
Context {W : Type} (uuid_to_string : list byte -> string)
  (exchange : CodecOptions -> Request -> W -> W * outcome TransportError Response).

Notation M := (fallible W (fault ServerError)).

Definition ensure_response_id (expected actual : Uuid) : result ServerError unit :=
  if bool_decide (expected = actual) then Ok tt
  else Err (SrvHealthcheckFailed ("mismatched healthcheck response id: expected " +:+ uuid_to_string expected +:+
              ", got " +:+ uuid_to_string actual)).

(** A command and its answer, which has to be for it and successful. *)
Definition probe (transport : CodecOptions) (id : Uuid) (command : Command) (kind : string) : M Response :=
  request ← mpure (map_err Raised (from_transport (from_command id command)));
  response ← (fun w => let '(w, r) := exchange transport request w in
                       (w, match r with
                           | Ok response => Ok response
                           | Err (Raised err) => Err (Raised (SrvTransport err))
                           | Err Panicked => Err Panicked
                           | Err Diverged => Err Diverged
                           end));
  _ ← mpure (map_err Raised (ensure_response_id id (rs_request_id response)));
  _ ← mpure (map_err Raised (ensure_ok (rs_status response) kind));
  mret response.

Definition authenticate (transport : CodecOptions) (id : Uuid) (username password : string) : M unit :=
  _ ← probe transport id (CmdAuth username password) "authentication"; mret tt.

Definition check_liveness (transport : CodecOptions) (id : Uuid) : M unit :=
  _ ← probe transport id (CmdPing None) "liveness"; mret tt.

Definition check_readiness (transport : CodecOptions) (id : Uuid) : M unit :=
  response ← probe transport id CmdHealth "readiness";
  entries ← mpure (match Response.decode_entries response with
                   | Ok entries => Ok entries
                   | Err (Raised err) => Err (Raised (SrvTransport err))
                   | Err Panicked => Err Panicked
                   | Err Diverged => Err Diverged
                   end);
  if existsb (fun '(key, value) => String.eqb key "ready" && String.eqb value "true") entries then mret tt
  else mfail (Raised (SrvHealthcheckFailed "readiness probe returned ready=false")).

(** [connected] is what connecting to the address gives and [greeted] the hello of the
    server. *)
Definition run_healthcheck (vars : Environment) (command : HealthcheckCommand)
    (connected : string -> result ServerError unit) (greeted : result TransportError ServerHello)
    (ids : nat -> Uuid) : M unit :=
  default_port ← mpure (map_err Raised (resolve_server_port vars));
  let port := default default_port (hc_port command) in
  credentials ← mpure (map_err Raised (match hc_kind command with
                                        | Liveness => Ok None
                                        | Readiness => resolve_credentials vars command
                                        end));
  _ ← mpure (map_err Raised (connected (hc_host command +:+ ":" +:+ int_to_string port)));
  hello ← mpure (map_err Raised (from_transport greeted));
  transport ← mpure (map_err Raised (from_transport (client_options_from_server_hello hello)));
  _ ← match credentials with
      | Some (username, password) => authenticate transport (ids 0%nat) username password
      | None => mret tt
      end;
  match hc_kind command with
  | Liveness => check_liveness transport (ids 1%nat)
  | Readiness => check_readiness transport (ids 1%nat)
  end.

End healthcheck.

(** ** Operator tools (admin.rs) *)

Inductive StorageAction :=
| StorageMigrate (data_dir : string)
| StorageVerify (data_dir : string).

Inductive PitrAction :=
| PitrInspect (data_dir : string)
| PitrRestore (source_dir target_dir : string) (to_sequence to_timestamp_ms : option Z).

Inductive AdminCommand :=
| AdminStorage (action : StorageAction)
| AdminPitr (action : PitrAction)
| AdminHealthcheck (command : HealthcheckCommand).

(** What two paths are compared by: whether they start at the root, and their components;
    a leading [.] is one of them. *)
Definition path_components (path : string) : bool * list string :=
  let absolute := String.prefix "/" path in
  match split_path path EmptyString with
  | "."%string :: words => (absolute, "."%string :: List.filter is_word words)
  | words => (absolute, List.filter is_word words)
  end.
Definition same_path (a b : string) : bool := bool_decide (path_components a = path_components b).

(** The directory a path without [..] leads to, from the working directory. *)
Definition directory_of (path : string) : string :=
  let '(absolute, words) := path_components path in
  foldl (fun dir word => dir +:+ "/" +:+ word) (if absolute then "/"%string else EmptyString)
    (List.filter (fun word => negb (String.eqb word ".")) words).

Definition fresh_disk : Disk := mkDisk ∅ None None None None None.

(** The data directories of the machine. *)
Notation Directories := (gmap string Disk).

Definition disk_at (path : string) (dirs : Directories) : Disk := default fresh_disk (dirs !! directory_of path).

(** The outcome of creating a directory, the clocks and a nonce. *)
Record AdminInputs := mkAdminInputs {
  ad_created : string -> result string unit;
  ad_started_ms : Z;
  ad_new_ms : Z;
  ad_finished_ms : Z;
  ad_nonce : list byte;
}.

Definition storage_inspection_lines (inspection : StorageInspection) : list string :=
  let optional (o : option Z) := match o with Some n => int_to_string n | None => "none"%string end in
  (fun '(key, value) => key +:+ "=" +:+ value) <$>
  [("snapshot_present", bool_to_string (si_snapshot_present inspection));
   ("storage_format_version", int_to_string (si_storage_format_version inspection));
   ("snapshot_size_bytes", int_to_string (si_snapshot_size_bytes inspection));
   ("last_snapshot_sequence", int_to_string (si_last_snapshot_sequence inspection));
   ("last_snapshot_at_ms", optional (si_last_snapshot_at_ms inspection));
   ("wal_segment_count", int_to_string (si_wal_segment_count inspection));
   ("sealed_wal_segment_count", int_to_string (si_sealed_wal_segment_count inspection));
   ("active_wal_segment_count", int_to_string (si_active_wal_segment_count inspection));
   ("active_wal_start_sequence", int_to_string (si_active_wal_start_sequence inspection));
   ("oldest_retained_sequence", optional (si_oldest_retained_sequence inspection));
   ("newest_sequence", optional (si_newest_sequence inspection));
   ("wal_size_bytes", int_to_string (si_wal_size_bytes inspection))]%string.

Section admin.
Context `{Crc32} `{CryptoLib} `{Binary WalEntry} `{Binary Manifest} `{Binary StoredKeyring}
  `{SnapshotCodec} `{NonceSource}.

Notation M := (fallible Directories ServerError).

(** [Paths::from_data_dir]. *)
Definition from_data_dir (i : AdminInputs) (path : string) : M unit :=
  _ ← mpure (from_engine (map_err Io (ad_created i path)));
  mmodify (fun dirs => <[directory_of path := disk_at path dirs]> dirs).

Definition in_directory {A} (path : string) (m : disk A) : M A :=
  fun dirs => let '(d, r) := m (disk_at path dirs) in (<[directory_of path := d]> dirs, from_engine r).

Definition run_admin_command (args : Args) (i : AdminInputs)
    (healthcheck : HealthcheckCommand -> result ServerError unit) (command : AdminCommand) : M (list string) :=
  match command with
  | AdminStorage (StorageMigrate data_dir) =>
      _ ← from_data_dir i data_dir;
      dirs ← mget;
      keyring ← mpure (from_engine (load_keyring (disk_at data_dir dirs)));
      inspection ← in_directory data_dir (migrate_storage (engine_options args keyring));
      mret (storage_inspection_lines inspection)
  | AdminStorage (StorageVerify data_dir) =>
      _ ← from_data_dir i data_dir;
      dirs ← mget;
      keyring ← mpure (from_engine (load_keyring (disk_at data_dir dirs)));
      inspection ← mpure (from_engine (verify_storage (ad_started_ms i) (ad_new_ms i) (ad_finished_ms i)
                                         (disk_at data_dir dirs) (engine_options args keyring)));
      mret (storage_inspection_lines inspection)
  | AdminPitr (PitrInspect data_dir) =>
      _ ← from_data_dir i data_dir;
      dirs ← mget;
      keyring ← mpure (from_engine (load_keyring (disk_at data_dir dirs)));
      inspection ← mpure (from_engine (inspect_storage (disk_at data_dir dirs) keyring));
      mret (storage_inspection_lines inspection)
  | AdminPitr (PitrRestore source_dir target_dir to_sequence to_timestamp_ms) =>
      _ ← from_data_dir i source_dir;
      _ ← from_data_dir i target_dir;
      target ← mpure (match to_sequence, to_timestamp_ms with
                      | Some sequence, _ => Ok (PitSequence sequence)
                      | None, Some timestamp_ms => Ok (PitTimestampMs timestamp_ms)
                      | None, None =>
                          Err (SrvInvalidArguments "pitr restore requires --to-sequence or --to-timestamp-ms")
                      end);
      dirs ← mget;
      keyring ← mpure (from_engine (load_keyring (disk_at source_dir dirs)));
      inspection ← in_directory target_dir
                     (restore_to_point (same_path source_dir target_dir) (disk_at source_dir dirs)
                        (engine_options args keyring) target (ad_new_ms i) (ad_finished_ms i) (ad_nonce i));
      mret (storage_inspection_lines inspection)
  | AdminHealthcheck command => _ ← mpure (healthcheck command); mret []
  end.

End admin.

(** ** The container entry point (init.rs) *)

(** The calls of the program to the system that change something, in their order. *)
Inductive SystemCall :=
| CallCreateDir (path : string)
| CallChown (path : string) (uid gid : Z)
| CallSetGid (gid : Z)
| CallSetUid (uid : Z)
| CallExec (argv : list string).

(** A directory with its entries; only directories have entries of their own, links are
    not followed. *)
Inductive Tree := Directory (entries : list (string * option Tree)).

(** What the program finds: its arguments and environment, the trees below the two
    directories, and the error of a call that fails. *)
Record InitInputs := mkInitInputs {
  it_argv : list string;
  it_data_dir : option string;
  it_backup_dir : option string;
  it_uid : option (result string string);
  it_gid : option (result string string);
  it_tree : string -> Tree;
  it_fails : SystemCall -> option string;
}.

Definition DEFAULT_CONTAINER_DATA_DIR : string := "/var/lib/vaylix".
Definition DEFAULT_UID : Z := 65532.
Definition DEFAULT_GID : Z := 65532.

(** [env_u32]; [invalid] is the text of the parse error. *)
Definition env_u32 (name invalid : string) (variable : option (result string string)) (default_id : Z)
    : result string Z :=
  match variable with
  | Some (Ok value) => ok_or (parse_uint u32_max value) (name +:+ " must be an unsigned 32-bit integer: " +:+ invalid)
  | None => Ok default_id
  | Some (Err err) => Err ("failed to read " +:+ name +:+ ": " +:+ err)
  end.

Section init.
Context (i : InitInputs).

Notation M := (fallible (list SystemCall) string).

(** A call; it is in the trace when it succeeded. *)
Definition syscall (c : SystemCall) : M unit :=
  match it_fails i c with
  | Some err => mfail err
  | None => mmodify (fun trace => trace ++ [c])
  end.

Definition chown_path (path : string) (uid gid : Z) : M unit := syscall (CallChown path uid gid).

Fixpoint chown_recursive (path : string) (uid gid : Z) (tree : Tree) {struct tree} : M unit :=
  _ ← chown_path path uid gid;
  match tree with
  | Directory entries =>
      (fix chown_entries (entries : list (string * option Tree)) : M unit :=
         match entries with
         | [] => mret tt
         | (name, below) :: entries =>
             let entry_path := path_join path name in
             _ ← chown_path entry_path uid gid;
             _ ← match below with Some tree => chown_recursive entry_path uid gid tree | None => mret tt end;
             chown_entries entries
         end) entries
  end.

Definition context {A} (text : string) (m : M A) : M A :=
  fun trace => let '(trace, r) := m trace in (trace, map_err (fun err => text +:+ ": " +:+ err) r).

Definition set_identity (uid gid : Z) : M unit :=
  _ ← context ("failed to setgid(" +:+ int_to_string gid +:+ ")") (syscall (CallSetGid gid));
  context ("failed to setuid(" +:+ int_to_string uid +:+ ")") (syscall (CallSetUid uid)).

(** [Path::starts_with]. *)
Definition path_starts_with (path base : string) : bool :=
  let '(absolute, words) := path_components path in
  let '(absolute', words') := path_components base in
  Bool.eqb absolute absolute' && bool_decide (take (length words') words = words').

Definition prepare_directories (data_dir backup_dir : string) (uid gid : Z) : M unit :=
  _ ← context ("failed to create data directory " +:+ data_dir) (syscall (CallCreateDir data_dir));
  _ ← context ("failed to create backup directory " +:+ backup_dir) (syscall (CallCreateDir backup_dir));
  _ ← context ("failed to chown " +:+ data_dir) (chown_recursive data_dir uid gid (it_tree i data_dir));
  if negb (path_starts_with backup_dir data_dir)
  then context ("failed to chown " +:+ backup_dir) (chown_recursive backup_dir uid gid (it_tree i backup_dir))
  else mret tt.

Definition init_run (invalid : string) : M unit :=
  match it_argv i with
  | [] => mfail "no command supplied to exec"%string
  | program :: _ =>
      let data_dir := default DEFAULT_CONTAINER_DATA_DIR (it_data_dir i) in
      let backup_dir := default (data_dir +:+ "/backups") (it_backup_dir i) in
      uid ← mpure (env_u32 "VAYLIX_RUNTIME_UID" invalid (it_uid i) DEFAULT_UID);
      gid ← mpure (env_u32 "VAYLIX_RUNTIME_GID" invalid (it_gid i) DEFAULT_GID);
      _ ← prepare_directories data_dir backup_dir uid gid;
      _ ← set_identity uid gid;
      context ("failed to exec " +:+ program) (syscall (CallExec (it_argv i)))
  end.

End init.
