(* ===== verification/Bench.v ===== *)
(** * Bench: the load generator (crates/bench)

    What the program asks of its surroundings is the record [Outside] of functions on
    a world: clocks, ids, sockets, files and processes.  The world is arbitrary, so
    that whatever other connections and servers do meanwhile is part of it.  Random
    numbers ([rand]), latency histograms ([hdrhistogram]), [rustls] and [rcgen] are
    parameters.  Every worker is a task; the order in which the tasks get their turns
    is an argument.  Reading the command line is the work of the argument parser. *)

From S2P Require Import Prelude Text Command Wire Opcode Request Response Crypto Frame Negotiation.
From S2P Require Import Access Loops Process.

(** ** Errors (error.rs) *)

(** Errors of other crates are their message. *)
Inductive BenchError :=
| BenchInvalidConfiguration (message : string)
| BenchIo (message : string)
| BenchTransport (err : TransportError)
| BenchCommand (message : string)
| BenchJson (message : string)
| BenchJoin (message : string)
| BenchTls (message : string)
| BenchTlsHandshake (message : string)
| BenchRcgen (message : string).

Definition BenchError_text (e : BenchError) : string :=
  match e with
  | BenchInvalidConfiguration message => "invalid benchmark configuration: " +:+ message
  | BenchIo message => "i/o failure: " +:+ message
  | BenchTransport err => "transport failure: " +:+ TransportError_text err
  | BenchCommand message => "command parse failure: " +:+ message
  | BenchJson message => "json failure: " +:+ message
  | BenchJoin message => "task join failure: " +:+ message
  | BenchTls message => "tls failure: " +:+ message
  | BenchTlsHandshake message => "tls handshake failure: " +:+ message
  | BenchRcgen message => "certificate generation failure: " +:+ message
  end.

(** An error of the transport crate. *)
Definition from_wire {A} (r : outcome TransportError A) : outcome BenchError A :=
  match r with
  | Ok a => Ok a
  | Err (Raised e) => Err (Raised (BenchTransport e))
  | Err Panicked => Err Panicked
  | Err Diverged => Err Diverged
  end.

(** ** Arguments (args.rs) *)

Inductive WorkloadKind :=
| WorkloadGet
| WorkloadSet
| WorkloadMixed
| WorkloadPing
| WorkloadTransactionFlow
| WorkloadBackupRestore
| WorkloadAuthRbacChurn
| WorkloadQuorumWriteCost.

Inductive ManagedWalSync := ManagedBuffered | ManagedFlush | ManagedSync.
Definition wal_sync_as_cli_value (mode : ManagedWalSync) : string :=
  match mode with ManagedBuffered => "buffered" | ManagedFlush => "flush" | ManagedSync => "sync" end.

Inductive ManagedWriteAckMode := ManagedLocal | ManagedMajority | ManagedAll.
Definition write_ack_as_cli_value (mode : ManagedWriteAckMode) : string :=
  match mode with ManagedLocal => "local" | ManagedMajority => "majority" | ManagedAll => "all" end.

Record TlsArgs := mkTlsArgs {
  ta_tls : bool;
  ta_tls_ca_cert : option string;
  ta_tls_client_cert : option string;
  ta_tls_client_key : option string;
}.

Record RunArgs := mkRunArgs {
  ra_addr : string;
  ra_username : option string;
  ra_password : option string;
  ra_tls : TlsArgs;
  ra_connections : Z;
  ra_pipeline_depth : option Z;
  ra_duration_seconds : Z;
  ra_keyspace : Z;
  ra_value_size : Z;
  ra_seed_keys : Z;
  ra_workload : WorkloadKind;
}.

Record BaselineArgs := mkBaselineArgs {
  ba_addr : string;
  ba_username : option string;
  ba_password : option string;
  ba_tls : TlsArgs;
  ba_duration_seconds : Z;
}.

Record ProfileArgs := mkProfileArgs {
  pa_addr : string;
  pa_username : option string;
  pa_password : option string;
  pa_tls : TlsArgs;
  pa_duration_seconds : Z;
  pa_connections : option Z;
  pa_pipeline_depth : option Z;
  pa_keyspace : option Z;
  pa_value_size : option Z;
  pa_seed_keys : option Z;
}.

Record ManagedArgs := mkManagedArgs {
  ma_server_bin : string;
  ma_duration_seconds : Z;
  ma_username : string;
  ma_password : string;
  ma_tls : bool;
  ma_mtls : bool;
  ma_workdir : option string;
  ma_connections : option Z;
  ma_pipeline_depth : option Z;
  ma_seed_keys : option Z;
  ma_keyspace : option Z;
  ma_value_size : option Z;
  ma_workload : option WorkloadKind;
  ma_wal_sync : ManagedWalSync;
  ma_write_ack_mode : ManagedWriteAckMode;
}.

Inductive BenchmarkCommand :=
| BenchRun (args : RunArgs)
| BenchBaselineSingleNode (args : BaselineArgs)
| BenchBaselineQuorum (args : BaselineArgs)
| BenchTransactionFlow (args : ProfileArgs)
| BenchBackupRestore (args : ProfileArgs)
| BenchAuthRbacChurn (args : ProfileArgs)
| BenchQuorumWriteCost (args : ProfileArgs)
| BenchManagedSingleNode (args : ManagedArgs)
| BenchManagedQuorum (args : ManagedArgs)
| BenchManagedTransactionFlow (args : ManagedArgs)
| BenchManagedBackupRestore (args : ManagedArgs)
| BenchManagedAuthRbacChurn (args : ManagedArgs)
| BenchManagedQuorumWriteCost (args : ManagedArgs)
| BenchExampleCerts (out_dir : string).

(** ** Configurations (client.rs, run.rs) *)

Record TlsConfig := mkTlsConfig {
  tc_enabled : bool;
  tc_ca_cert : option string;
  tc_client_cert : option string;
  tc_client_key : option string;
}.
Definition TlsConfig_default : TlsConfig := mkTlsConfig false None None None.

Record ConnectionConfig := mkConnectionConfig {
  cg_addr : string;
  cg_host_for_tls : string;
  cg_username : option string;
  cg_password : option string;
  cg_tls : TlsConfig;
}.

Record RunConfig := mkRunConfig {
  rc_profile_addr : string;
  rc_connection : ConnectionConfig;
  rc_connections : Z;
  rc_pipeline_depth : Z;
  rc_duration_seconds : Z;
  rc_keyspace : Z;
  rc_value_size : Z;
  rc_seed_keys : Z;
  rc_workload : WorkloadKind;
}.

Record ManagedCluster := mkManagedCluster {
  mc_children : list Z;
  mc_addr : string;
  mc_candidate_addrs : list string;
  mc_connection : ConnectionConfig;
  mc_workdir : string;
}.

Definition default_pipeline_depth (workload : WorkloadKind) : Z :=
  match workload with
  | WorkloadGet | WorkloadPing => 16
  | WorkloadMixed => 4
  | WorkloadSet | WorkloadQuorumWriteCost | WorkloadTransactionFlow | WorkloadBackupRestore
  | WorkloadAuthRbacChurn => 1
  end.

Record ProfileDefaults := mkProfileDefaults {
  pd_connections : Z;
  pd_pipeline_depth : Z;
  pd_keyspace : Z;
  pd_value_size : Z;
  pd_seed_keys : Z;
}.

Definition profile_defaults (workload : WorkloadKind) : ProfileDefaults :=
  match workload with
  | WorkloadTransactionFlow => mkProfileDefaults 16 1 10000 256 0
  | WorkloadBackupRestore => mkProfileDefaults 1 1 1000 256 128
  | WorkloadAuthRbacChurn => mkProfileDefaults 4 1 10000 64 0
  | WorkloadQuorumWriteCost => mkProfileDefaults 32 (default_pipeline_depth WorkloadQuorumWriteCost) 10000 256 0
  | WorkloadGet | WorkloadSet | WorkloadMixed | WorkloadPing =>
      mkProfileDefaults 32 (default_pipeline_depth workload) 10000 256 2048
  end.

Definition single_node_profile (args : BaselineArgs) : RunArgs :=
  mkRunArgs (ba_addr args) (ba_username args) (ba_password args) (ba_tls args) 64
    (Some (default_pipeline_depth WorkloadMixed)) (ba_duration_seconds args) 25000 512 8192 WorkloadMixed.

Definition quorum_profile (args : BaselineArgs) : RunArgs :=
  mkRunArgs (ba_addr args) (ba_username args) (ba_password args) (ba_tls args) 32
    (Some (default_pipeline_depth WorkloadSet)) (ba_duration_seconds args) 10000 256 4096 WorkloadSet.

Definition command_profile (args : ProfileArgs) (workload : WorkloadKind) : RunArgs :=
  let defaults := profile_defaults workload in
  mkRunArgs (pa_addr args) (pa_username args) (pa_password args) (pa_tls args)
    (default (pd_connections defaults) (pa_connections args))
    (Some (default (pd_pipeline_depth defaults) (pa_pipeline_depth args)))
    (pa_duration_seconds args)
    (default (pd_keyspace defaults) (pa_keyspace args))
    (default (pd_value_size defaults) (pa_value_size args))
    (default (pd_seed_keys defaults) (pa_seed_keys args))
    workload.

(** The arguments for a cluster the program has started. *)
Definition cluster_tls_args (cluster : ManagedCluster) : TlsArgs :=
  let tls := cg_tls (mc_connection cluster) in
  mkTlsArgs (tc_enabled tls) (tc_ca_cert tls) (tc_client_cert tls) (tc_client_key tls).

Definition managed_profile_run_args (args : ManagedArgs) (cluster : ManagedCluster) (workload : WorkloadKind)
    : RunArgs :=
  let defaults := profile_defaults workload in
  mkRunArgs (mc_addr cluster) (Some (ma_username args)) (Some (ma_password args)) (cluster_tls_args cluster)
    (default (pd_connections defaults) (ma_connections args))
    (Some (default (pd_pipeline_depth defaults) (ma_pipeline_depth args)))
    (ma_duration_seconds args)
    (default (pd_keyspace defaults) (ma_keyspace args))
    (default (pd_value_size defaults) (ma_value_size args))
    (default (pd_seed_keys defaults) (ma_seed_keys args))
    workload.

(** What [managed_single_node] and [managed_quorum] run. *)
Definition managed_single_node_args (args : ManagedArgs) (cluster : ManagedCluster) : RunArgs :=
  let workload := default WorkloadMixed (ma_workload args) in
  mkRunArgs (mc_addr cluster) (Some (ma_username args)) (Some (ma_password args)) (cluster_tls_args cluster)
    (default 64 (ma_connections args))
    (Some (default (default_pipeline_depth workload) (ma_pipeline_depth args)))
    (ma_duration_seconds args)
    (default 25000 (ma_keyspace args)) (default 512 (ma_value_size args)) (default 8192 (ma_seed_keys args))
    workload.

Definition managed_quorum_args (args : ManagedArgs) (cluster : ManagedCluster) : RunArgs :=
  mkRunArgs (mc_addr cluster) (Some (ma_username args)) (Some (ma_password args)) (cluster_tls_args cluster)
    (default 32 (ma_connections args))
    (Some (default (default_pipeline_depth WorkloadSet) (ma_pipeline_depth args)))
    (ma_duration_seconds args)
    (default 10000 (ma_keyspace args)) (default 256 (ma_value_size args)) (default 4096 (ma_seed_keys args))
    WorkloadSet.

Definition run_config (args : RunArgs) : RunConfig :=
  let tls := ra_tls args in
  mkRunConfig (ra_addr args)
    (mkConnectionConfig (ra_addr args) "localhost" (ra_username args) (ra_password args)
       (mkTlsConfig (ta_tls tls) (ta_tls_ca_cert tls) (ta_tls_client_cert tls) (ta_tls_client_key tls)))
    (ra_connections args)
    (Z.max (default (default_pipeline_depth (ra_workload args)) (ra_pipeline_depth args)) 1)
    (ra_duration_seconds args) (ra_keyspace args) (ra_value_size args) (ra_seed_keys args) (ra_workload args).

(** ** Reports (report.rs) *)

Record LatencySummary := mkLatencySummary {
  ls_min : Z;
  ls_p50 : Z;
  ls_p95 : Z;
  ls_p99 : Z;
  ls_max : Z;
  ls_mean : F64.t;
}.
Definition LatencySummary_zero : LatencySummary := mkLatencySummary 0 0 0 0 0 (F64.of_int 0).

Record BenchmarkReport := mkBenchmarkReport {
  br_profile : string;
  br_addr : string;
  br_connections : Z;
  br_pipeline_depth : Z;
  br_duration_seconds : Z;
  br_keyspace : Z;
  br_value_size : Z;
  br_seed_keys : Z;
  br_completed_operations : Z;
  br_failed_operations : Z;
  br_operations_per_second : F64.t;
  br_latency_us : LatencySummary;
  br_error_samples : list string;
}.

Definition MAX_ERROR_SAMPLES : nat := 8.

Definition push_error_sample (samples : list string) (error : string) : list string :=
  if Nat.leb MAX_ERROR_SAMPLES (length samples) || existsb (String.eqb error) samples then samples
  else samples ++ [error].

Definition extend_error_samples (samples errors : list string) : list string :=
  foldl push_error_sample samples errors.

(** ** Workloads (run.rs) *)

(** [SmallRng] of the [rand] crate. *)
Class SmallRng := {
  rng : Type;
  seed_from_u64 : Z -> rng;
  random_range : Z -> rng -> rng * Z;
  random_ratio : Z -> Z -> rng -> rng * bool;
  random_range_lt n r : 0 < n -> 0 <= (random_range n r).2 < n;
}.

(** [{n:06}], where the width is 6. *)
Definition zero_padded (width : nat) (n : Z) : string :=
  let digits := int_to_string n in
  String.concat EmptyString (replicate (width - String.length digits) "0"%string) +:+ digits.

Definition seed_key (idx : Z) : string := "seed-" +:+ zero_padded 6 idx.
Definition bench_key (index : Z) : string := "bench-" +:+ zero_padded 6 index.

Definition is_pipelined_workload (workload : WorkloadKind) : bool :=
  match workload with
  | WorkloadGet | WorkloadSet | WorkloadMixed | WorkloadPing | WorkloadQuorumWriteCost => true
  | _ => false
  end.

(** The message of a response that was not accepted. *)
Definition refusal_text (response : Response) : outcome BenchError string :=
  match Response.decode_error_message response with
  | Ok message => Ok message
  | Err (Raised _) => Ok "benchmark command returned non-OK status"%string
  | Err Panicked => Err Panicked
  | Err Diverged => Err Diverged
  end.

Section random.
Context `{SmallRng}.
Notation M := (fallible rng (fault BenchError)).

(** A draw from an empty range panics. *)
Definition draw (n : Z) : M Z :=
  fun r => if n <=? 0 then (r, panic) else let '(r, k) := random_range n r in (r, Ok k).

Definition ratio (numerator denominator : Z) : M bool :=
  fun r => let '(r, b) := random_ratio numerator denominator r in (r, Ok b).

Definition next_command (workload : WorkloadKind) (keyspace : Z) (value : string) : M Command :=
  index ← draw keyspace;
  let key := bench_key index in
  let set := CmdSet key (as_bytes value) SetOptions_default in
  match workload with
  | WorkloadGet => mret (CmdGet key)
  | WorkloadSet => mret set
  | WorkloadPing => mret (CmdPing None)
  | WorkloadMixed => get ← ratio 7 10; mret (if get : bool then CmdGet key else set)
  | WorkloadTransactionFlow | WorkloadBackupRestore | WorkloadAuthRbacChurn | WorkloadQuorumWriteCost =>
      mpure panic
  end.

(** The statuses that count as success. *)
Definition accepted_for (command : Command) : list Status :=
  match command with CmdGet _ => [StatusOk; StatusNotFound] | _ => [StatusOk] end.

Definition next_pipelined_operation (workload : WorkloadKind) (keyspace : Z) (value : string)
    : M (Command * list Status) :=
  match workload with
  | WorkloadQuorumWriteCost => command ← next_command WorkloadSet keyspace value; mret (command, [StatusOk])
  | WorkloadGet => command ← next_command workload keyspace value; mret (command, [StatusOk; StatusNotFound])
  | WorkloadSet | WorkloadPing => command ← next_command workload keyspace value; mret (command, [StatusOk])
  | WorkloadMixed => command ← next_command workload keyspace value; mret (command, accepted_for command)
  | WorkloadTransactionFlow | WorkloadBackupRestore | WorkloadAuthRbacChurn => mpure panic
  end.

End random.

(** One operation of a worker, on whatever answers its commands. *)
Section operations.
Context `{SmallRng} {S : Type} (send : Command -> fallible S (fault BenchError) Response).
Notation M := (fallible (S * rng) (fault BenchError)).

Definition ask (command : Command) : M Response :=
  fun '(s, r) => let '(s, response) := send command s in ((s, r), response).
Definition on_rng {A} (m : fallible rng (fault BenchError) A) : M A :=
  fun '(s, r) => let '(r, a) := m r in ((s, r), a).

Definition send_accepting (command : Command) (accepted : list Status) : M unit :=
  response ← ask command;
  if bool_decide (rs_status response ∈ accepted) then mret tt
  else message ← mpure (refusal_text response); mfail (Raised (BenchInvalidConfiguration message)).

Definition send_ok (command : Command) : M unit := send_accepting command [StatusOk].

Definition send_value (command : Command) : M string :=
  response ← ask command;
  if negb (bool_decide (rs_status response = StatusOk)) then
    message ← mpure (refusal_text response); mfail (Raised (BenchInvalidConfiguration message))
  else mpure (from_wire (Response.decode_value response)).

Definition transaction_item (worker_id operation_index keyspace : Z) (value : string) (item : Z) : M unit :=
  key_index ← on_rng (draw keyspace);
  let key := "tx:" +:+ int_to_string worker_id +:+ ":" +:+ zero_padded 6 key_index +:+ ":" +:+
             int_to_string operation_index +:+ ":" +:+ int_to_string item in
  send_ok (CmdSet key (as_bytes value) SetOptions_default).

Definition run_transaction_flow (worker_id operation_index keyspace : Z) (value : string) : M unit :=
  _ ← send_ok CmdMulti;
  _ ← transaction_item worker_id operation_index keyspace value 0;
  _ ← transaction_item worker_id operation_index keyspace value 1;
  _ ← transaction_item worker_id operation_index keyspace value 2;
  _ ← transaction_item worker_id operation_index keyspace value 3;
  send_ok CmdExec.

Definition run_backup_restore (worker_id operation_index : Z) (value : string) : M unit :=
  _ ← send_ok (CmdSet ("backup:" +:+ int_to_string worker_id +:+ ":stable")
                 (as_bytes (value +:+ ":" +:+ int_to_string operation_index)) SetOptions_default);
  dump ← send_value CmdBackup;
  _ ← send_ok (CmdRestoreCheck dump);
  send_ok (CmdRestore dump).

Definition run_auth_rbac_churn (worker_id operation_index : Z) : M unit :=
  let suffix := int_to_string worker_id +:+ "-" +:+ int_to_string operation_index in
  let username := "bench-user-" +:+ suffix in
  let role := "bench-role-" +:+ suffix in
  let pattern := "bench:" +:+ int_to_string worker_id +:+ ":*" in
  _ ← send_ok (CmdCreateUser username "password1234");
  _ ← send_ok (CmdCreateRole role);
  _ ← send_ok (CmdGrantPermission "read" pattern role);
  _ ← send_ok (CmdGrantRole role username);
  _ ← send_ok (CmdShowGrantsForUser username);
  _ ← send_ok (CmdRevokeRole role username);
  _ ← send_ok (CmdRevokePermission "read" pattern role);
  _ ← send_ok (CmdDropRole role);
  send_ok (CmdDropUser username).

Definition run_operation (worker_id operation_index : Z) (workload : WorkloadKind) (keyspace : Z) (value : string)
    : M unit :=
  match workload with
  | WorkloadTransactionFlow => run_transaction_flow worker_id operation_index keyspace value
  | WorkloadBackupRestore => run_backup_restore worker_id operation_index value
  | WorkloadAuthRbacChurn => run_auth_rbac_churn worker_id operation_index
  | WorkloadQuorumWriteCost => command ← on_rng (next_command WorkloadSet keyspace value); send_ok command
  | WorkloadGet =>
      command ← on_rng (next_command workload keyspace value);
      send_accepting command [StatusOk; StatusNotFound]
  | WorkloadSet | WorkloadPing => command ← on_rng (next_command workload keyspace value); send_ok command
  | WorkloadMixed =>
      command ← on_rng (next_command workload keyspace value); send_accepting command (accepted_for command)
  end.

End operations.

(** ** Surroundings *)

(** [rustls] for clients; [tls_message] is what the libraries say about a file. *)
Class TlsClient := {
  tls_client_config : Type;
  tls_client_build : list (list byte) -> option (list (list byte) * list byte) -> result string tls_client_config;
  valid_server_name : string -> bool;
  tls_message : string -> string;
}.

(** Certificates and keys as PEM texts. *)
Record Leaf := mkLeaf {
  lf_names : list string;
  lf_common_name : string;
  lf_client : bool;
}.

(** Instants are in nanoseconds.  [ow_incoming] is what the other end of a socket has
    sent and sends without being sent more; [ow_take] leaves what was not read.
    [ow_connect] sets the option against delays as well. *)
Record Outside `{TlsClient} (W : Type) := mkOutside {
  ow_now : W -> W * Z;
  ow_sleep : Z -> W -> W;
  ow_uuid : W -> W * Uuid;
  ow_connect : string -> W -> W * result string Z;
  ow_tls : Z -> tls_client_config -> string -> W -> W * result string unit;
  ow_write : Z -> list byte -> W -> W * result string unit;
  ow_flush : Z -> W -> W * result string unit;
  ow_incoming : Z -> W -> list byte;
  ow_take : Z -> list byte -> W -> W;
  ow_joined : W -> bool;
  ow_panic_text : nat -> string;
  ow_files : W -> string -> result string (list byte);
  ow_temp_dir : string;
  ow_system_nanos : W -> W * option Z;
  ow_create_dir_all : string -> W -> W * result string unit;
  ow_write_file : string -> list byte -> W -> W * result string unit;
  ow_free_port : W -> W * result string Z;
  ow_spawn : string -> list string -> W -> W * result string Z;
  ow_kill : Z -> W -> W;
  ow_ca : W -> W * result string (list byte);
  ow_leaf : list byte -> Leaf -> W -> W * result string (list byte * list byte);
}.
#[global] Arguments ow_now {_ W} _.
#[global] Arguments ow_sleep {_ W} _.
#[global] Arguments ow_uuid {_ W} _.
#[global] Arguments ow_connect {_ W} _.
#[global] Arguments ow_tls {_ W} _.
#[global] Arguments ow_write {_ W} _.
#[global] Arguments ow_flush {_ W} _.
#[global] Arguments ow_incoming {_ W} _.
#[global] Arguments ow_take {_ W} _.
#[global] Arguments ow_joined {_ W} _.
#[global] Arguments ow_panic_text {_ W} _.
#[global] Arguments ow_files {_ W} _.
#[global] Arguments ow_temp_dir {_ W} _.
#[global] Arguments ow_system_nanos {_ W} _.
#[global] Arguments ow_create_dir_all {_ W} _.
#[global] Arguments ow_write_file {_ W} _.
#[global] Arguments ow_free_port {_ W} _.
#[global] Arguments ow_spawn {_ W} _.
#[global] Arguments ow_kill {_ W} _.
#[global] Arguments ow_ca {_ W} _.
#[global] Arguments ow_leaf {_ W} _.

(** ** TLS of the client (client.rs) *)

Section tls.
Context `{Tls} `{TlsClient}.
Notation Files := (string -> result string (list byte)).

Definition pem_file (files : Files) (path : string) : result BenchError (list (option (list byte))) :=
  bytes ← map_err BenchIo (files path); Ok (pem_certificates bytes).

Definition load_cert_chain (files : Files) (path : string) : result BenchError (list (list byte)) :=
  items ← pem_file files path;
  certs ← ok_or (mapM id items) (BenchIo (tls_message path));
  if bool_decide (certs = []) then Err (BenchInvalidConfiguration "client certificate file is empty")
  else Ok certs.

Definition load_private_key (files : Files) (path : string) : result BenchError (list byte) :=
  bytes ← map_err BenchIo (files path); ok_or (pem_private_key bytes) (BenchIo (tls_message path)).

Definition build_tls_client_config (files : Files) (config : TlsConfig) : result BenchError tls_client_config :=
  ca_cert ← ok_or (tc_ca_cert config) (BenchInvalidConfiguration "tls requires --tls-ca-cert");
  items ← pem_file files ca_cert;
  roots ← ok_or (mapM (fun item => cert ← item; if is_trust_anchor cert then Some cert else None) items)
            (BenchIo (tls_message ca_cert));
  match tc_client_cert config, tc_client_key config with
  | Some client_cert, Some client_key =>
      certs ← load_cert_chain files client_cert;
      key ← load_private_key files client_key;
      map_err BenchTls (tls_client_build roots (Some (certs, key)))
  | None, None => map_err BenchTls (tls_client_build roots None)
  | _, _ =>
      Err (BenchInvalidConfiguration "tls client auth requires both --tls-client-cert and --tls-client-key")
  end.

End tls.

(** ** Connections (client.rs) *)

Record BenchmarkClient := mkBenchmarkClient {
  bc_stream : Z;
  bc_transport : CodecOptions;
}.

Section client.
Context `{Zstd} `{Crc32} `{Tls} `{TlsClient} {W : Type} (outside : Outside W).
Context (version : string) (uuid_to_string : Uuid -> string).
Notation M := (fallible W (fault BenchError)).

Definition outer {A} (f : W -> W * A) : M A := fun w => let '(w, a) := f w in (w, Ok a).
Definition outer_io {A} (f : W -> W * result string A) : M A :=
  fun w => let '(w, r) := f w in (w, map_err (fun message => Raised (BenchIo message)) r).

Definition now : M Z := outer (ow_now outside).

(** Through the transport crate, whose errors wrap those of the stream. *)
Definition outer_wire {A} (f : W -> W * result string A) : M A :=
  fun w => let '(w, r) := f w in (w, from_wire (map_err (fun message => Raised (TrnIo message)) r)).

Definition write_to (stream : Z) (wr : writer) : M unit :=
  bytes ← mpure (from_wire (map_err Raised (written wr)));
  _ ← outer_wire (ow_write outside stream bytes);
  outer_wire (ow_flush outside stream).

Definition read_stream {A} (stream : Z) (rd : reader A) : M A :=
  fun w =>
    let '(rest, r) := rd (ow_incoming outside stream w) in
    (ow_take outside stream rest w, from_wire r).

Definition connect_tls (stream : Z) (config : ConnectionConfig) : M unit :=
  w ← mget;
  client_config ← mpure (map_err Raised (build_tls_client_config (ow_files outside w) (cg_tls config)));
  if negb (valid_server_name (cg_host_for_tls config)) then
    mfail (Raised (BenchInvalidConfiguration "invalid TLS server name"))
  else outer_io (ow_tls outside stream client_config (cg_host_for_tls config)).

Definition read_response (client : BenchmarkClient) : M Response :=
  w ← mget;
  read_stream (bc_stream client)
    (read_response_from_async_with_options (ow_joined outside w) (bc_transport client)).

Definition send (client : BenchmarkClient) (command : Command) : M Response :=
  request_id ← outer (ow_uuid outside);
  request ← mpure (from_wire (map_err Raised (from_command request_id command)));
  w ← mget;
  _ ← write_to (bc_stream client)
        (write_request_to_async_with_options (ow_joined outside w) request (bc_transport client));
  response ← read_response client;
  if negb (bool_decide (rs_request_id response = request_id)) then
    mfail (Raised (BenchInvalidConfiguration
      ("mismatched response id: expected " +:+ uuid_to_string request_id +:+ ", got " +:+
       uuid_to_string (rs_request_id response))))
  else mret response.

Definition bench_hello (config : ConnectionConfig) : ClientHello :=
  let hello := new_client_hello "vaylix-bench" version in
  mkClientHello (ch_protocol_version hello) (ch_client_name hello) version (ch_supported_capabilities hello)
    (ch_desired_compression hello) (ch_max_frame_len hello) (is_some (cg_username config)).

Definition connect (config : ConnectionConfig) : M BenchmarkClient :=
  stream ← outer_io (ow_connect outside (cg_addr config));
  _ ← (if tc_enabled (cg_tls config) then connect_tls stream config else mret tt);
  _ ← write_to stream (write_client_hello_to (bench_hello config));
  server_hello ← read_stream stream read_server_hello_from;
  transport ← mpure (from_wire (map_err Raised (client_options_from_server_hello server_hello)));
  let client := mkBenchmarkClient stream transport in
  match cg_username config, cg_password config with
  | Some username, Some password =>
      response ← send client (CmdAuth username password);
      if negb (bool_decide (rs_status response = StatusOk)) then
        mfail (Raised (BenchInvalidConfiguration ("authentication failed against " +:+ cg_addr config)))
      else mret client
  | _, _ => mret client
  end.

(** The requests of a pipeline, each with an id of its own. *)
Fixpoint pipeline_requests (commands : list Command) : M (list Request) :=
  match commands with
  | [] => mret []
  | command :: commands =>
      request_id ← outer (ow_uuid outside);
      request ← mpure (from_wire (map_err Raised (from_command request_id command)));
      requests ← pipeline_requests commands;
      mret (request :: requests)
  end.

Fixpoint write_requests (client : BenchmarkClient) (requests : list Request) : M unit :=
  match requests with
  | [] => mret tt
  | request :: requests =>
      encoded ← mpure (from_wire (map_err Raised (encode_request_with_options request (bc_transport client))));
      _ ← outer_io (ow_write outside (bc_stream client) encoded);
      write_requests client requests
  end.

Fixpoint read_responses (client : BenchmarkClient) (n : nat) (responses : gmap (list byte) Response)
    : M (gmap (list byte) Response) :=
  match n with
  | O => mret responses
  | S n =>
      response ← read_response client;
      read_responses client n (<[rs_request_id response := response]> responses)
  end.

Fixpoint in_order (requests : list Request) (responses : gmap (list byte) Response) : M (list Response) :=
  match requests with
  | [] => mret []
  | request :: requests =>
      response ← mpure (ok_or (responses !! rq_request_id request) (Raised (BenchInvalidConfiguration
                   ("missing pipelined response id " +:+ uuid_to_string (rq_request_id request)))));
      ordered ← in_order requests (delete (rq_request_id request) responses);
      mret (response :: ordered)
  end.

Definition send_pipeline (client : BenchmarkClient) (commands : list Command) : M (list Response) :=
  match commands with
  | [] => mret []
  | _ =>
      requests ← pipeline_requests commands;
      _ ← write_requests client requests;
      _ ← outer_io (ow_flush outside (bc_stream client));
      responses ← read_responses client (length requests) ∅;
      in_order requests responses
  end.

(** [started.elapsed()]. *)
Definition elapsed (started : Z) : M Z := t ← now; mret (Z.max (t - started) 0).

(** Loops that wait are given the number of their turns. *)
Fixpoint ready_loop (patience : nat) (client : BenchmarkClient) (timeout started : Z) : M unit :=
  match patience with
  | O => mfail Diverged
  | S patience =>
      response ← send client (CmdPing None);
      if bool_decide (rs_status response = StatusOk) then mret tt
      else
        waited ← elapsed started;
        if timeout <=? waited then
          mfail (Raised (BenchInvalidConfiguration "server did not become ready before timeout"))
        else
          _ ← mmodify (ow_sleep outside 50);
          ready_loop patience client timeout started
  end.
Definition wait_until_ready (patience : nat) (client : BenchmarkClient) (timeout : Z) : M unit :=
  started ← now; ready_loop patience client timeout started.

(** The outcome of a step whose errors are handled. *)
Definition attempt {A} (m : M A) : M (result BenchError A) :=
  fun w =>
    match m w with
    | (w, Ok a) => (w, Ok (Ok a))
    | (w, Err (Raised err)) => (w, Ok (Err err))
    | (w, Err Panicked) => (w, Err Panicked)
    | (w, Err Diverged) => (w, Err Diverged)
    end.

Fixpoint connect_loop (patience : nat) (config : ConnectionConfig) (timeout started : Z) : M BenchmarkClient :=
  match patience with
  | O => mfail Diverged
  | S patience =>
      r ← attempt (connect config);
      match r with
      | Ok client => mret client
      | Err err =>
          waited ← elapsed started;
          if waited <? timeout then
            _ ← mmodify (ow_sleep outside 100);
            connect_loop patience config timeout started
          else mfail (Raised err)
      end
  end.
Definition connect_with_retry (patience : nat) (config : ConnectionConfig) (timeout : Z) : M BenchmarkClient :=
  started ← now; connect_loop patience config timeout started.

(** The keys of [0..seed_keys], from [idx] on. *)
Fixpoint seed_loop (n : nat) (client : BenchmarkClient) (idx : Z) (value : string) : M unit :=
  match n with
  | O => mret tt
  | S n =>
      response ← send client (CmdSet (seed_key idx) (as_bytes value) SetOptions_default);
      if negb (bool_decide (rs_status response = StatusOk)) then
        mfail (Raised (BenchInvalidConfiguration ("failed to seed benchmark key " +:+ int_to_string idx)))
      else seed_loop n client (idx + 1) value
  end.
Definition seed_dataset (client : BenchmarkClient) (seed_keys value_size : Z) : M unit :=
  seed_loop (Z.to_nat seed_keys) client 0 (of_bytes (replicate (Z.to_nat value_size) x78)).

End client.

(** ** Workers (run.rs) *)

(** [hdrhistogram]: recording and merging can fail, and the number of recorded values. *)
Class Histogram := {
  histogram : Type;
  hist_new : histogram;
  hist_record : Z -> histogram -> option histogram;
  hist_add : histogram -> histogram -> option histogram;
  hist_len : histogram -> Z;
  hist_min : histogram -> Z;
  hist_max : histogram -> Z;
  hist_mean : histogram -> F64.t;
  hist_value_at_quantile : F64.t -> histogram -> Z;
  hist_len_new : hist_len hist_new = 0;
  hist_len_record v h h' : hist_record v h = Some h' -> hist_len h' = hist_len h + 1;
  hist_len_add h k h' : hist_add h k = Some h' -> hist_len h' = hist_len h + hist_len k;
}.

Record WorkerReport `{Histogram} := mkWorkerReport {
  wr_completed : Z;
  wr_failed : Z;
  wr_histogram : histogram;
  wr_error_samples : list string;
}.

(** The variables of [run_worker]. *)
Record Worker `{Histogram} `{SmallRng} := mkWorker {
  wk_id : Z;
  wk_client : BenchmarkClient;
  wk_rng : rng;
  wk_report : WorkerReport;
  wk_operation_index : Z;
}.

(** A spawned worker: at its loop, at its end, or ended by a panic. *)
Inductive Task `{Histogram} `{SmallRng} :=
| TaskRunning (worker : Worker)
| TaskFinished (report : WorkerReport)
| TaskPanicked.

Section workers.
Context `{Zstd} `{Crc32} `{Tls} `{TlsClient} `{Histogram} `{SmallRng} {W : Type} (outside : Outside W).
Context (version : string) (uuid_to_string : Uuid -> string).
Notation M := (fallible W (fault BenchError)).

(** [histogram.record(latency_us.max(1)).expect(..)] of what started then. *)
Definition record_latency (started : Z) (report : WorkerReport) : M WorkerReport :=
  duration ← elapsed outside started;
  let latency_us := (duration / 1000) mod 2 ^ 64 in
  match hist_record (Z.max latency_us 1) (wr_histogram report) with
  | Some h => mret (mkWorkerReport _ (wr_completed report) (wr_failed report) h (wr_error_samples report))
  | None => mfail Panicked
  end.

Definition count_completed (report : WorkerReport) : WorkerReport :=
  mkWorkerReport _ (wr_completed report + 1) (wr_failed report) (wr_histogram report) (wr_error_samples report).
Definition count_failed (error : string) (report : WorkerReport) : WorkerReport :=
  mkWorkerReport _ (wr_completed report) (wr_failed report + 1) (wr_histogram report)
    (push_error_sample (wr_error_samples report) error).

Record PendingPipelineOperation := mkPendingPipelineOperation {
  po_command : Command;
  po_accepted : list Status;
  po_started : Z;
}.

Definition draw_from {A} (m : fallible rng (fault BenchError) A) (r : rng) : M (rng * A) :=
  fun w => let '(r, a) := m r in (w, x ← a; Ok (r, x)).

(** The operations of a pipeline: at most [n], and none after the deadline. *)
Fixpoint gather (n : nat) (workload : WorkloadKind) (deadline keyspace : Z) (value : string) (r : rng)
    : M (rng * list PendingPipelineOperation) :=
  match n with
  | O => mret (r, [])
  | S n =>
      t ← now outside;
      if t <? deadline then
        drawn ← draw_from (next_pipelined_operation workload keyspace value) r;
        let '(r, (command, accepted)) := drawn in
        started ← now outside;
        more ← gather n workload deadline keyspace value r;
        let '(r, pending) := more in
        mret (r, mkPendingPipelineOperation command accepted started :: pending)
      else mret (r, [])
  end.

Fixpoint take_responses (pending : list (PendingPipelineOperation * Response)) (report : WorkerReport)
    : M WorkerReport :=
  match pending with
  | [] => mret report
  | (operation, response) :: pending =>
      report ← record_latency (po_started operation) report;
      if bool_decide (rs_status response ∈ po_accepted operation) then
        take_responses pending (count_completed report)
      else
        message ← mpure (refusal_text response);
        take_responses pending (count_failed message report)
  end.

Fixpoint fail_pending (error : string) (pending : list PendingPipelineOperation) (report : WorkerReport)
    : M WorkerReport :=
  match pending with
  | [] => mret report
  | operation :: pending =>
      report ← record_latency (po_started operation) report;
      fail_pending error pending (count_failed error report)
  end.

(** One turn of the loop; [None] when it ends. *)
Definition pipeline_turn (workload : WorkloadKind) (deadline keyspace : Z) (value : string) (pipeline_depth : Z)
    (worker : Worker) : M (option Worker) :=
  gathered ← gather (Z.to_nat pipeline_depth) workload deadline keyspace value (wk_rng worker);
  let '(r, pending) := gathered in
  match pending with
  | [] => mret None
  | _ =>
      sent ← attempt (send_pipeline outside uuid_to_string (wk_client worker) (po_command <$> pending));
      report ← match sent with
               | Ok responses => take_responses (zip pending responses) (wk_report worker)
               | Err err => fail_pending (BenchError_text err) pending (wk_report worker)
               end;
      mret (Some (mkWorker _ _ (wk_id worker) (wk_client worker) r report
                    (wk_operation_index worker + Z.of_nat (length pending))))
  end.

Definition single_turn (workload : WorkloadKind) (keyspace : Z) (value : string) (worker : Worker)
    : M (option Worker) :=
  started ← now outside;
  ran ← (fun w =>
           let '((w, r), a) := run_operation (send outside uuid_to_string (wk_client worker)) (wk_id worker)
                                 (wk_operation_index worker) workload keyspace value (w, wk_rng worker) in
           match a with
           | Ok tt => (w, Ok (r, None))
           | Err (Raised err) => (w, Ok (r, Some err))
           | Err Panicked => (w, Err Panicked)
           | Err Diverged => (w, Err Diverged)
           end);
  let '(r, error) := ran in
  report ← record_latency started (wk_report worker);
  let report := match error with
                | None => count_completed report
                | Some err => count_failed (BenchError_text err) report
                end in
  mret (Some (mkWorker _ _ (wk_id worker) (wk_client worker) r report (wk_operation_index worker + 1))).

Definition worker_turn (workload : WorkloadKind) (deadline keyspace : Z) (value : string) (pipeline_depth : Z)
    (worker : Worker) : M (option Worker) :=
  t ← now outside;
  if negb (t <? deadline) then mret None
  else if (1 <? pipeline_depth) && is_pipelined_workload workload then
    pipeline_turn workload deadline keyspace value pipeline_depth worker
  else single_turn workload keyspace value worker.

(** ** Runs (run.rs) *)

Definition worker_new (worker_id : nat) (client : BenchmarkClient) : Worker :=
  mkWorker _ _ (Z.of_nat worker_id) client (seed_from_u64 (0x5eed + Z.of_nat worker_id))
    (mkWorkerReport _ 0 0 hist_new []) 0.

Definition task_turn (args : RunConfig) (deadline : Z) (task : Task) (w : W) : W * Task :=
  match task with
  | TaskRunning worker =>
      let value := of_bytes (replicate (Z.to_nat (rc_value_size args)) x76) in
      match worker_turn (rc_workload args) deadline (rc_keyspace args) value (Z.max (rc_pipeline_depth args) 1)
              worker w with
      | (w, Ok (Some worker)) => (w, TaskRunning worker)
      | (w, Ok None) => (w, TaskFinished (wk_report worker))
      | (w, Err _) => (w, TaskPanicked)
      end
  | _ => (w, task)
  end.

(** The schedule says which task has the next turn. *)
Fixpoint run_tasks (args : RunConfig) (deadline : Z) (schedule : list nat) (tasks : list Task) (w : W)
    : W * list Task :=
  match schedule with
  | [] => (w, tasks)
  | i :: schedule =>
      match tasks !! i with
      | Some task =>
          let '(w, task) := task_turn args deadline task w in
          run_tasks args deadline schedule (<[i := task]> tasks) w
      | None => run_tasks args deadline schedule tasks w
      end
  end.

(** Waiting for the tasks in turn: [n] is the number of the first one. *)
Fixpoint join_tasks (n : nat) (tasks : list Task) (total : WorkerReport) : outcome BenchError WorkerReport :=
  match tasks with
  | [] => Ok total
  | TaskRunning _ :: _ => diverge
  | TaskPanicked :: _ => fail (BenchJoin (ow_panic_text outside n))
  | TaskFinished report :: tasks =>
      match hist_add (wr_histogram total) (wr_histogram report) with
      | None => panic
      | Some h =>
          join_tasks (S n) tasks
            (mkWorkerReport _ (wr_completed total + wr_completed report) (wr_failed total + wr_failed report) h
               (extend_error_samples (wr_error_samples total) (wr_error_samples report)))
      end
  end.

Definition seconds (n : Z) : Z := n * 1000000000.

Fixpoint connect_all (patience : nat) (config : ConnectionConfig) (n : nat) : M (list BenchmarkClient) :=
  match n with
  | O => mret []
  | S n =>
      client ← connect_with_retry outside version uuid_to_string patience config (seconds 10);
      clients ← connect_all patience config n;
      mret (client :: clients)
  end.

Definition latency_summary (h : histogram) : LatencySummary :=
  let percent (n : Z) := hist_value_at_quantile (F64.div (F64.of_int n) (F64.of_int 100)) h in
  mkLatencySummary (hist_min h) (percent 50) (percent 95) (percent 99) (hist_max h) (hist_mean h).

Definition make_report (profile : string) (args : RunConfig) (total : WorkerReport) : BenchmarkReport :=
  mkBenchmarkReport profile (rc_profile_addr args) (rc_connections args) (rc_pipeline_depth args)
    (rc_duration_seconds args) (rc_keyspace args) (rc_value_size args) (rc_seed_keys args)
    (wr_completed total) (wr_failed total)
    (F64.div (F64.of_int (wr_completed total)) (F64.of_int (rc_duration_seconds args)))
    (latency_summary (wr_histogram total)) (wr_error_samples total).

Definition run_profile (patience : nat) (schedule : list nat) (profile : string) (args : RunConfig)
    : M BenchmarkReport :=
  let invalid (message : string) : M BenchmarkReport := mfail (Raised (BenchInvalidConfiguration message)) in
  if rc_connections args =? 0 then invalid "connections must be greater than zero"
  else if rc_keyspace args =? 0 then invalid "keyspace must be greater than zero"
  else if rc_duration_seconds args =? 0 then invalid "duration-seconds must be greater than zero"
  else
    seed_client ← connect_with_retry outside version uuid_to_string patience (rc_connection args) (seconds 10);
    _ ← wait_until_ready outside uuid_to_string patience seed_client (seconds 10);
    _ ← seed_dataset outside uuid_to_string seed_client (rc_seed_keys args) (rc_value_size args);
    clients ← connect_all patience (rc_connection args) (Z.to_nat (rc_connections args));
    started ← now outside;
    let deadline := started + seconds (rc_duration_seconds args) in
    tasks ← outer (run_tasks args deadline schedule (TaskRunning <$> imap worker_new clients));
    total ← mpure (join_tasks 0 tasks (mkWorkerReport _ 0 0 hist_new []));
    mret (make_report profile args total).

(** *** The leader of a cluster *)

Definition Status_debug (status : Status) : string :=
  match status with StatusOk => "Ok" | StatusError => "Error" | StatusNotFound => "NotFound" end.

(** [None] when the node takes a write. *)
Definition probe_addr (config : ConnectionConfig) (addr : string) : M (option string) :=
  let config := mkConnectionConfig addr (cg_host_for_tls config) (cg_username config) (cg_password config)
                  (cg_tls config) in
  let says (message : string) : M (option string) := mret (Some (addr +:+ ": " +:+ message)) in
  connected ← attempt (connect outside version uuid_to_string config);
  match connected with
  | Err err => says (BenchError_text err)
  | Ok client =>
      answered ← attempt (send outside uuid_to_string client
                            (CmdSet "__bench-leader-probe__" [x31] SetOptions_default));
      match answered with
      | Err err => says (BenchError_text err)
      | Ok response =>
          if bool_decide (rs_status response = StatusOk) then mret None
          else
            match Response.decode_error_message response with
            | Ok message => says message
            | Err (Raised _) => says ("status " +:+ Status_debug (rs_status response))
            | Err _ => mfail Panicked
            end
      end
  end.

Fixpoint probe_addrs (config : ConnectionConfig) (addrs last_errors : list string)
    : M (string + list string) :=
  match addrs with
  | [] => mret (inr last_errors)
  | addr :: addrs =>
      probed ← probe_addr config addr;
      match probed with
      | None => mret (inl addr)
      | Some error => probe_addrs config addrs (last_errors ++ [error])
      end
  end.

(** [Vec::dedup]: of equal neighbours the first one is kept. *)
Fixpoint dedup (xs : list string) : list string :=
  match xs with
  | x :: xs =>
      match dedup xs with
      | y :: ys => if String.eqb x y then y :: ys else x :: y :: ys
      | [] => [x]
      end
  | [] => []
  end.

Fixpoint select_loop (patience : nat) (cluster : ManagedCluster) (deadline : Z) (last_errors : list string)
    : M string :=
  match patience with
  | O => mfail Diverged
  | S patience =>
      probed ← probe_addrs (mc_connection cluster) (mc_candidate_addrs cluster) last_errors;
      match probed with
      | inl addr => mret addr
      | inr last_errors =>
          t ← now outside;
          if deadline <=? t then
            mfail (Raised (BenchInvalidConfiguration
              ("could not identify a writable quorum leader; last errors: " +:+
               String.concat " | " (dedup last_errors))))
          else
            _ ← mmodify (ow_sleep outside 200);
            select_loop patience cluster deadline last_errors
      end
  end.
Definition select_writable_addr (patience : nat) (cluster : ManagedCluster) : M string :=
  t ← now outside; select_loop patience cluster (t + seconds 10) [].

(** ** Servers of its own (launcher.rs) *)

Definition managed_root (base : option string) (label : string) : M string :=
  nanos ← outer (ow_system_nanos outside);
  unique ← mpure (ok_or nanos (Raised (BenchInvalidConfiguration "system clock before epoch")));
  let root := path_join (default (ow_temp_dir outside) base)
                ("vaylix-bench-" +:+ label +:+ "-" +:+ int_to_string unique) in
  _ ← outer_io (ow_create_dir_all outside root);
  mret root.

Record GeneratedCerts := mkGeneratedCerts {
  gc_ca_cert : string;
  gc_server_cert : string;
  gc_server_key : string;
  gc_client_cert : option string;
  gc_client_key : option string;
}.

Definition rcgen {A} (f : W -> W * result string A) : M A :=
  fun w => let '(w, r) := f w in (w, map_err (fun message => Raised (BenchRcgen message)) r).

Definition generate_example_certs (out_dir : string) (mtls : bool) : M GeneratedCerts :=
  let write (path : string) (pem : list byte) : M unit := outer_io (ow_write_file outside path pem) in
  _ ← outer_io (ow_create_dir_all outside out_dir);
  ca ← rcgen (ow_ca outside);
  server ← rcgen (ow_leaf outside ca (mkLeaf ["localhost"; "127.0.0.1"]%string "localhost" false));
  let ca_cert := path_join out_dir "ca.crt" in
  let server_cert := path_join out_dir "server.crt" in
  let server_key := path_join out_dir "server.key" in
  _ ← write ca_cert ca;
  _ ← write server_cert server.1;
  _ ← write server_key server.2;
  if mtls then
    client ← rcgen (ow_leaf outside ca (mkLeaf ["vaylix-bench-client"]%string "vaylix-bench-client" true));
    let client_cert := path_join out_dir "client.crt" in
    let client_key := path_join out_dir "client.key" in
    _ ← write client_cert client.1;
    _ ← write client_key client.2;
    mret (mkGeneratedCerts ca_cert server_cert server_key (Some client_cert) (Some client_key))
  else mret (mkGeneratedCerts ca_cert server_cert server_key None None).

Record SpawnServerConfig := mkSpawnServerConfig {
  ss_server_bin : string;
  ss_root : string;
  ss_node_id : string;
  ss_port : Z;
  ss_username : string;
  ss_password : string;
  ss_tls : option GeneratedCerts;
  ss_peers : list string;
  ss_role : string;
  ss_wal_sync : string;
  ss_write_ack_mode : string;
}.

Definition server_arguments (config : SpawnServerConfig) : list string :=
  ["--bind"; "127.0.0.1"; "--port"; int_to_string (ss_port config); "--data-dir"; ss_root config;
   "--user"; ss_username config; "--password"; ss_password config;
   "--requests-per-second"; "1000000"; "--request-burst"; "1000000"; "--slow-command-threshold-ms"; "0";
   "--node-id"; ss_node_id config; "--replication-role"; ss_role config;
   "--replication-advertise-addr"; "127.0.0.1:" +:+ int_to_string (ss_port config);
   "--wal-sync"; ss_wal_sync config; "--write-ack-mode"; ss_write_ack_mode config]%string ++
  (if bool_decide (ss_peers config = []) then []
   else ["--cluster-peers"; String.concat "," (ss_peers config)]%string) ++
  match ss_tls config with
  | None => []
  | Some tls =>
      ["--ssl"; "--tls-cert"; gc_server_cert tls; "--tls-key"; gc_server_key tls]%string ++
      (if is_some (gc_client_cert tls) then ["--tls-client-ca"; gc_ca_cert tls]%string else [])
  end.

(** Creating a file empties it. *)
Definition spawn_server (config : SpawnServerConfig) : M Z :=
  _ ← outer_io (ow_create_dir_all outside (ss_root config));
  _ ← outer_io (ow_write_file outside (path_join (ss_root config) "stdout.log") []);
  _ ← outer_io (ow_write_file outside (path_join (ss_root config) "stderr.log") []);
  outer_io (ow_spawn outside (ss_server_bin config) (server_arguments config)).

Definition certs_for (args : ManagedArgs) (workdir : string) : M (option GeneratedCerts) :=
  if ma_tls args then
    certs ← generate_example_certs (path_join workdir "certs") (ma_mtls args); mret (Some certs)
  else mret None.

Definition cluster_connection (args : ManagedArgs) (tls : option GeneratedCerts) (addr : string) : ConnectionConfig :=
  mkConnectionConfig addr "localhost" (Some (ma_username args)) (Some (ma_password args))
    match tls with
    | Some certs => mkTlsConfig true (Some (gc_ca_cert certs)) (gc_client_cert certs) (gc_client_key certs)
    | None => TlsConfig_default
    end.

Definition local_addr (port : Z) : string := "127.0.0.1:" +:+ int_to_string port.

Definition spawn_config (args : ManagedArgs) (workdir node_id role : string) (port : Z)
    (tls : option GeneratedCerts) (peers : list string) : SpawnServerConfig :=
  mkSpawnServerConfig (ma_server_bin args) (path_join workdir node_id) node_id port (ma_username args)
    (ma_password args) tls peers role (wal_sync_as_cli_value (ma_wal_sync args))
    (write_ack_as_cli_value (ma_write_ack_mode args)).

Definition single_node (args : ManagedArgs) : M ManagedCluster :=
  workdir ← managed_root (ma_workdir args) "single-node";
  port ← outer_io (ow_free_port outside);
  tls ← certs_for args workdir;
  child ← spawn_server (spawn_config args workdir "node-1" "standalone" port tls []);
  let addr := local_addr port in
  mret (mkManagedCluster [child] addr [addr] (cluster_connection args tls addr) workdir).

Definition quorum (args : ManagedArgs) : M ManagedCluster :=
  workdir ← managed_root (ma_workdir args) "quorum";
  tls ← certs_for args workdir;
  port1 ← outer_io (ow_free_port outside);
  port2 ← outer_io (ow_free_port outside);
  port3 ← outer_io (ow_free_port outside);
  let peers := ["node-1@" +:+ local_addr port1; "node-2@" +:+ local_addr port2;
                "node-3@" +:+ local_addr port3]%string in
  child1 ← spawn_server (spawn_config args workdir "node-1" "leader" port1 tls peers);
  child2 ← spawn_server (spawn_config args workdir "node-2" "follower" port2 tls peers);
  child3 ← spawn_server (spawn_config args workdir "node-3" "follower" port3 tls peers);
  let addr := local_addr port1 in
  mret (mkManagedCluster [child1; child2; child3] addr (local_addr <$> [port1; port2; port3])
          (cluster_connection args tls addr) workdir).

(** [Drop]: the servers are killed when the cluster goes out of scope, however the
    code that uses it ends. *)
Definition then_kill {A} (children : list Z) (m : M A) : M A :=
  fun w => let '(w, r) := m w in (foldl (fun w child => ow_kill outside child w) w children, r).

Definition with_cluster {A} (launch : M ManagedCluster) (use : ManagedCluster -> M A) : M A :=
  cluster ← launch; then_kill (mc_children cluster) (use cluster).

(** ** The program (run.rs, main.rs) *)

Definition at_leader (patience : nat) (cluster : ManagedCluster) : M ManagedCluster :=
  _ ← mmodify (ow_sleep outside 3000);
  addr ← select_writable_addr patience cluster;
  mret (mkManagedCluster (mc_children cluster) addr (mc_candidate_addrs cluster) (mc_connection cluster)
          (mc_workdir cluster)).

Definition managed_single_node (patience : nat) (schedule : list nat) (args : ManagedArgs) : M BenchmarkReport :=
  with_cluster (single_node args) (fun cluster =>
    _ ← mmodify (ow_sleep outside 1000);
    run_profile patience schedule "managed-single-node" (run_config (managed_single_node_args args cluster))).

Definition managed_quorum (patience : nat) (schedule : list nat) (args : ManagedArgs) : M BenchmarkReport :=
  with_cluster (quorum args) (fun cluster =>
    cluster ← at_leader patience cluster;
    run_profile patience schedule "managed-quorum" (run_config (managed_quorum_args args cluster))).

Definition managed_single_node_profile (patience : nat) (schedule : list nat) (args : ManagedArgs)
    (profile : string) (workload : WorkloadKind) : M BenchmarkReport :=
  with_cluster (single_node args) (fun cluster =>
    _ ← mmodify (ow_sleep outside 1000);
    run_profile patience schedule profile (run_config (managed_profile_run_args args cluster workload))).

Definition managed_quorum_write_cost (patience : nat) (schedule : list nat) (args : ManagedArgs)
    : M BenchmarkReport :=
  with_cluster (quorum args) (fun cluster =>
    cluster ← at_leader patience cluster;
    run_profile patience schedule "managed-quorum-write-cost"
      (run_config (managed_profile_run_args args cluster WorkloadQuorumWriteCost))).

Definition example_certs (out_dir : string) : M BenchmarkReport :=
  _ ← generate_example_certs out_dir true;
  mret (mkBenchmarkReport "example-certs" out_dir 0 0 0 0 0 0 0 0 (F64.of_int 0) LatencySummary_zero []).

Definition execute (patience : nat) (schedule : list nat) (command : BenchmarkCommand) : M BenchmarkReport :=
  let run (profile : string) (args : RunArgs) := run_profile patience schedule profile (run_config args) in
  match command with
  | BenchRun args => run "custom"%string args
  | BenchBaselineSingleNode args => run "baseline-single-node"%string (single_node_profile args)
  | BenchBaselineQuorum args => run "baseline-quorum"%string (quorum_profile args)
  | BenchTransactionFlow args => run "transaction-flow"%string (command_profile args WorkloadTransactionFlow)
  | BenchBackupRestore args => run "backup-restore"%string (command_profile args WorkloadBackupRestore)
  | BenchAuthRbacChurn args => run "auth-rbac-churn"%string (command_profile args WorkloadAuthRbacChurn)
  | BenchQuorumWriteCost args => run "quorum-write-cost"%string (command_profile args WorkloadQuorumWriteCost)
  | BenchManagedSingleNode args => managed_single_node patience schedule args
  | BenchManagedQuorum args => managed_quorum patience schedule args
  | BenchManagedTransactionFlow args =>
      managed_single_node_profile patience schedule args "managed-transaction-flow" WorkloadTransactionFlow
  | BenchManagedBackupRestore args =>
      managed_single_node_profile patience schedule args "managed-backup-restore" WorkloadBackupRestore
  | BenchManagedAuthRbacChurn args =>
      managed_single_node_profile patience schedule args "managed-auth-rbac-churn" WorkloadAuthRbacChurn
  | BenchManagedQuorumWriteCost args => managed_quorum_write_cost patience schedule args
  | BenchExampleCerts out_dir => example_certs out_dir
  end.

End workers.
