(* ===== verification/Client.v ===== *)
(** * Client: the interactive client (crates/client/src)

    Configuration, the connection, the exchange and rendering of commands, the session
    loop, and what the line editor is told about a line.  Sockets, TLS, the editor and
    the history file are not modelled: what the server does with a message is a function
    on the world [W], and the events of the editor are a list. *)

From S2P Require Import Prelude Text Command Lexer Parser Wire Opcode Request Response Frame.
From S2P Require Import Negotiation Store Consensus Auth.

(** ** Errors (error.rs) *)

Inductive ClientError :=
| CliCommand (err : CommandError)
| CliTransport (err : TransportError)
| CliIo (message : string)
| CliReadline (message : string)
| CliProjectDirsUnavailable
| CliResponseIdMismatch (expected actual : Uuid)
| CliLocalCommandResponse
| CliInvalidConfiguration (message : string).

Definition ClientError_code (e : ClientError) : string :=
  match e with
  | CliCommand err => CommandError_code err
  | CliTransport err => TransportError_code err
  | CliIo _ => "CLI-003"
  | CliReadline _ => "CLI-004"
  | CliProjectDirsUnavailable => "CLI-005"
  | CliResponseIdMismatch _ _ => "CLI-006"
  | CliLocalCommandResponse => "CLI-007"
  | CliInvalidConfiguration _ => "CLI-008"
  end.

Definition ClientError_name (e : ClientError) : string :=
  match e with
  | CliCommand err => CommandError_name err
  | CliTransport err => TransportError_name err
  | CliIo _ => "Filesystem I/O Failure"
  | CliReadline _ => "Readline Failure"
  | CliProjectDirsUnavailable => "Project Directories Unavailable"
  | CliResponseIdMismatch _ _ => "Response Id Mismatch"
  | CliLocalCommandResponse => "Local Command Response"
  | CliInvalidConfiguration _ => "Invalid Client Configuration"
  end.

(** [?] on a transport result; panics stay panics. *)
Definition from_wire {A} (r : outcome TransportError A) : outcome ClientError A :=
  match r with
  | Ok a => Ok a
  | Err (Raised err) => Err (Raised (CliTransport err))
  | Err Panicked => Err Panicked
  | Err Diverged => Err Diverged
  end.

(** ** Configuration (args.rs, config.rs) *)

Inductive OutputMode := OutPlain | OutTable | OutJson.

Record ClientArgs := mkClientArgs {
  ca_url : option string;
  ca_host : string;
  ca_port : Z;
  ca_ssl : bool;
  ca_tls_ca_cert : option string;
  ca_tls_client_cert : option string;
  ca_tls_client_key : option string;
  ca_user : option string;
  ca_password : option string;
  ca_disable_auth : bool;
  ca_disable_compression : bool;
  ca_output : OutputMode;
}.

Record ClientConfig := mkClientConfig {
  cc_host : string;
  cc_port : Z;
  cc_ssl : bool;
  cc_tls_ca_cert : option string;
  cc_tls_client_cert : option string;
  cc_tls_client_key : option string;
  cc_username : option string;
  cc_password : option string;
  cc_output : OutputMode;
  cc_transport : CodecOptions;
}.

(** What the [url] crate makes of a connection string. *)
Record ParsedUrl := mkParsedUrl {
  pu_scheme : string;
  pu_host : option string;
  pu_port : option Z;
  pu_username : string;
  pu_password : option string;
  pu_query : list (string * string);
}.
Class UrlParser := url_parse : string -> result string ParsedUrl.

Definition DEFAULT_CLIENT_USERNAME : string := "vaylix".
Definition DEFAULT_CLIENT_PASSWORD : string := "vaylix".

Definition validate_mtls_config (ssl : bool) (tls_client_cert tls_client_key : option string)
    : result ClientError unit :=
  if (is_some tls_client_cert || is_some tls_client_key) && negb ssl then
    Err (CliInvalidConfiguration "tls client certificate options require ssl=true or --ssl")
  else if negb (Bool.eqb (is_some tls_client_cert) (is_some tls_client_key)) then
    Err (CliInvalidConfiguration "tls_client_cert and tls_client_key must be provided together")
  else Ok tt.

Definition client_transport_options (disable_compression : bool) : CodecOptions :=
  if disable_compression
  then mkCodecOptions CompressionNone 0 (co_max_frame_len CodecOptions_default)
         (co_max_decompressed_frame_len CodecOptions_default)
  else CodecOptions_default.

(** The first pair with this key. *)
Definition query_value (query : list (string * string)) (key : string) : option string :=
  snd <$> List.find (fun pair => String.eqb pair.1 key) query.
Definition query_is (query : list (string * string)) (key value : string) : bool :=
  existsb (fun pair => String.eqb pair.1 key && eq_ignore_ascii_case pair.2 value) query.

(** The first [output] that names a mode. *)
Definition query_output (query : list (string * string)) : option OutputMode :=
  head (omap (fun pair : string * string =>
    if String.eqb pair.1 "output" then
      if String.eqb pair.2 "plain" then Some OutPlain
      else if String.eqb pair.2 "table" then Some OutTable
      else if String.eqb pair.2 "json" then Some OutJson
      else None
    else None) query).

(** [first.or(second)]. *)
Definition option_or {A} (first second : option A) : option A :=
  match first with Some a => Some a | None => second end.

Definition parse_client_config `{UrlParser} (args : ClientArgs) : result ClientError ClientConfig :=
  match ca_url args with
  | Some url =>
      parsed ← map_err CliIo (url_parse url);
      if negb (String.eqb (pu_scheme parsed) "vaylix") then
        Err (CliInvalidConfiguration "unsupported URL scheme")
      else
        let query := pu_query parsed in
        let parsed_username :=
          if bool_decide (pu_username parsed = EmptyString) then None else Some (pu_username parsed) in
        let url_ssl := default false ((fun value => eq_ignore_ascii_case value "true") <$> query_value query "ssl") in
        let ssl := ca_ssl args || url_ssl in
        let tls_ca_cert := option_or (ca_tls_ca_cert args) (query_value query "ca_cert") in
        let tls_client_cert := option_or (ca_tls_client_cert args) (query_value query "client_cert") in
        let tls_client_key := option_or (ca_tls_client_key args) (query_value query "client_key") in
        if is_some tls_ca_cert && negb ssl then
          Err (CliInvalidConfiguration "tls_ca_cert requires ssl=true or --ssl")
        else
          _ ← validate_mtls_config ssl tls_client_cert tls_client_key;
          let disable_auth := ca_disable_auth args || query_is query "auth" "false" in
          let disable_compression := ca_disable_compression args || query_is query "compression" "none" in
          Ok (mkClientConfig (default "127.0.0.1"%string (pu_host parsed)) (default 9173 (pu_port parsed)) ssl
            tls_ca_cert tls_client_cert tls_client_key
            (if disable_auth then None
             else Some (default DEFAULT_CLIENT_USERNAME (option_or (ca_user args) parsed_username)))
            (if disable_auth then None
             else Some (default DEFAULT_CLIENT_PASSWORD (option_or (ca_password args) (pu_password parsed))))
            (default (ca_output args) (query_output query)) (client_transport_options disable_compression))
  | None =>
      if is_some (ca_tls_ca_cert args) && negb (ca_ssl args) then
        Err (CliInvalidConfiguration "tls_ca_cert requires --ssl")
      else
        _ ← validate_mtls_config (ca_ssl args) (ca_tls_client_cert args) (ca_tls_client_key args);
        Ok (mkClientConfig (ca_host args) (ca_port args) (ca_ssl args)
          (ca_tls_ca_cert args) (ca_tls_client_cert args) (ca_tls_client_key args)
          (if ca_disable_auth args then None else Some (default DEFAULT_CLIENT_USERNAME (ca_user args)))
          (if ca_disable_auth args then None else Some (default DEFAULT_CLIENT_PASSWORD (ca_password args)))
          (ca_output args) (client_transport_options (ca_disable_compression args)))
  end.

(** ** Tables (client/render.rs, client/help.rs) *)

(** [{:<width$}] pads to a number of characters. *)
Definition repeat_text (n : nat) (text : string) : string := String.concat EmptyString (replicate n text).
Definition pad_right (width : nat) (text : string) : string :=
  text +:+ repeat_text (width - length (chars text)) " ".
Definition widest (least : nat) (texts : list string) : nat :=
  foldr (fun text n => Nat.max (String.length text) n) least texts.

Definition table_lines (first second : string) (width1 width2 : nat) (rows : list (string * string))
    : list string :=
  let line (row : string * string) := pad_right width1 row.1 +:+ " | " +:+ pad_right width2 row.2 in
  line (first, second) :: (repeat_text width1 "-" +:+ "-+-" +:+ repeat_text width2 "-") :: (line <$> rows).

Definition newline : string := of_bytes [x0a].

Definition render_table (entries : list (string * string)) : string :=
  String.concat newline
    (table_lines "key" "value" (widest 3 entries.*1) (widest 5 entries.*2) entries).

Definition help_text : string :=
  let rows := (fun command => (info_name command, info_usage command)) <$> COMMANDS in
  String.concat newline
    ("Vaylix command help"%string :: EmptyString ::
     table_lines "command" "usage" (widest 7 rows.*1) (widest 5 rows.*2) rows).

(** ** Rendering (client/render.rs) *)

Definition render_value_bytes (value : list byte) : string :=
  match from_utf8 value with
  | Some value => value
  | None => "0x" +:+ hex value
  end.

Definition render_optional (value : option (list byte)) : string :=
  match value with Some value => render_value_bytes value | None => "(nil)" end.

Definition render_exec_result (result : ExecResultPayload) : string :=
  match result with
  | ExecOk => "OK"
  | ExecNotFound => "NOT_FOUND"
  | ExecValue value => render_value_bytes value
  | ExecBoolean value => bool_to_string value
  | ExecCount value | ExecInteger value => int_to_string value
  | ExecEntries entries =>
      String.concat ", " ((fun '(key, value) => key +:+ "=" +:+ render_value_bytes value) <$> entries)
  | ExecStrings values => String.concat ", " (render_optional <$> values)
  | ExecScan scan =>
      "cursor=" +:+ int_to_string (scan_next_cursor scan) +:+ ", keys=[" +:+
        String.concat ", " (scan_keys scan) +:+ "]"
  end.

(** Entries by key, then by value. *)
Definition entry_le (a b : string * string) : Prop :=
  if decide (a.1 = b.1) then String.le a.2 b.2 else String.le a.1 b.1.
#[export] Instance entry_le_dec : RelDecision entry_le.
Proof. intros a b. unfold entry_le. destruct (decide (a.1 = b.1)); apply _. Defined.

(** [serde_json::to_string_pretty] of objects with a key and a value. *)
Class EntriesJson := entries_to_json_pretty : list (string * string) -> result string string.

Section session.
Context `{EntriesJson} (uuid_to_string : list byte -> string).

Definition render_entries (entries : list (string * string)) (output : OutputMode) : outcome ClientError string :=
  let sorted := merge_sort entry_le entries in
  match output with
  | OutPlain => Ok (String.concat ", " ((fun '(key, value) => key +:+ "=" +:+ value) <$> sorted))
  | OutTable => Ok (render_table sorted)
  | OutJson => map_err (fun message => Raised (CliIo message)) (entries_to_json_pretty sorted)
  end.

(** The answer to a command that did not fail. *)
Definition render_ok (command : Command) (response : Response) (output : OutputMode) : outcome ClientError string :=
  match command with
  | CmdAuth _ _ => Ok "OK"%string
  | CmdPing _ | CmdGet _ | CmdGetDel _ | CmdGetEx _ _ _ | CmdBackup | CmdMetricsProm =>
      value ← from_wire (Response.decode_value_bytes response); Ok (render_value_bytes value)
  | CmdSet _ _ options =>
      if so_return_previous options then
        value ← from_wire (Response.decode_value_bytes response); Ok (render_value_bytes value)
      else if is_some (so_condition options) || is_some (so_if_version options) then
        b ← from_wire (Response.decode_bool response); Ok (bool_to_string b)
      else Ok "OK"%string
  | CmdMSet _ | CmdBackupTo _ | CmdClear | CmdSave | CmdSnapshot | CmdAlterUserPassword _ _
  | CmdCreateUser _ _ | CmdDropUser _ | CmdCreateRole _ | CmdDropRole _ | CmdGrantRole _ _
  | CmdRevokeRole _ _ | CmdGrantPermission _ _ _ | CmdRevokePermission _ _ _ | CmdMulti
  | CmdMaintenanceOn | CmdMaintenanceOff | CmdDiscard => Ok "OK"%string
  | CmdExec =>
      results ← from_wire (Response.decode_exec_results response);
      Ok (String.concat newline (render_exec_result <$> results))
  | CmdSetNx _ _ | CmdExists _ | CmdExpire _ _ | CmdPersist _ | CmdRename _ _ | CmdRenameNx _ _ =>
      b ← from_wire (Response.decode_bool response); Ok (bool_to_string b)
  | CmdMGet _ =>
      values ← from_wire (Response.decode_byte_strings response);
      Ok (String.concat ", " (render_optional <$> values))
  | CmdDelete _ | CmdDbSize | CmdCount | CmdRestore _ | CmdRestoreFrom _ | CmdRestoreCheck _
  | CmdRestoreCheckFrom _ =>
      count ← from_wire (Response.decode_count response); Ok (int_to_string count)
  | CmdIncr _ | CmdDecr _ | CmdTtl _ =>
      value ← from_wire (Response.decode_integer response); Ok (int_to_string value)
  | CmdScan _ _ _ =>
      payload ← from_wire (Response.decode_scan response);
      let keys := match scan_keys payload with
                  | [] => "(empty)"%string
                  | keys => String.concat ", " keys
                  end in
      Ok ("cursor=" +:+ int_to_string (scan_next_cursor payload) +:+ ", keys=[" +:+ keys +:+ "]")
  | CmdInfo | CmdMetrics | CmdList | CmdBackupVerify _ | CmdBackupVerifyFrom _ | CmdShowUsers
  | CmdShowRoles | CmdShowGrants | CmdShowGrantsForUser _ | CmdShowGrantsForRole _ | CmdWhoAmI
  | CmdMaintenanceStatus | CmdHealth | CmdShowCluster | CmdShowReplication =>
      entries ← from_wire (Response.decode_entries response);
      render_entries entries output
  | CmdClusterJoin _ _ | CmdClusterRemove _ | CmdPromoteFollower | CmdPauseReplication
  | CmdResumeReplication => Ok "OK"%string
  | CmdHelp | CmdExit => Err (Raised CliLocalCommandResponse)
  end.

(** Any response whose payload reads as the text QUEUED is a queued command. *)
Definition render_response (command : Command) (response : Response) (output : OutputMode)
    : outcome ClientError string :=
  if match Response.decode_value response with Ok value => bool_decide (value = "QUEUED"%string) | Err _ => false end
  then Ok "QUEUED"%string
  else
    match rs_status response with
    | StatusNotFound => Ok "NOT_FOUND"%string
    | StatusError =>
        remote ← from_wire (Response.decode_error response);
        Ok ("ERROR [" +:+ ep_code remote +:+ "] " +:+ ep_name remote +:+ ": " +:+ ep_message remote)
    | StatusOk => render_ok command response output
    end.

(** ** Sessions (client/mod.rs) *)

Definition ClientError_text (e : ClientError) : string :=
  match e with
  | CliCommand err => "command parsing failed: " +:+ CommandError_text err
  | CliTransport err => "transport failure: " +:+ TransportError_text err
  | CliIo message => "filesystem I/O failed: " +:+ message
  | CliReadline message => "line editor failure: " +:+ message
  | CliProjectDirsUnavailable => "could not determine project directories"
  | CliResponseIdMismatch expected actual =>
      "mismatched response id: expected " +:+ uuid_to_string expected +:+ ", got " +:+ uuid_to_string actual
  | CliLocalCommandResponse => "local command should not receive a response"
  | CliInvalidConfiguration message => "invalid client configuration: " +:+ message
  end.

Definition log_line (level component message : string) : string :=
  "[" +:+ level +:+ "] [" +:+ component +:+ "] " +:+ message.

(** The server at the other end: how it answers a hello and a request. *)
Context {W : Type} (greet : ClientHello -> W -> W * outcome TransportError ServerHello)
  (exchange : CodecOptions -> Request -> W -> W * outcome TransportError Response).

(** The world and what was printed. *)
Notation M := (fallible (W * list string) (fault ClientError)).

Definition println (line : string) : M unit := mmodify (fun '(w, printed) => (w, printed ++ [line])).
Definition ask {A} (m : W -> W * outcome TransportError A) : M A :=
  fun '(w, printed) => let '(w, r) := m w in ((w, printed), from_wire r).

Definition client_execute (transport : CodecOptions) (output : OutputMode) (request_id : Uuid)
    (command : Command) : M unit :=
  request ← mpure (from_wire (map_err Raised (from_command request_id command)));
  response ← ask (exchange transport request);
  if negb (bool_decide (rs_request_id response = request_id)) then
    mfail (Raised (CliResponseIdMismatch request_id (rs_request_id response)))
  else
    text ← mpure (render_response command response output);
    println text.

(** [Client::new] once the paths are known and the socket is connected. *)
Definition connect (version : string) (config : ClientConfig) (request_id : Uuid) : M CodecOptions :=
  let addr := cc_host config +:+ ":" +:+ int_to_string (cc_port config) in
  _ ← println (log_line "INFO" "client.startup"
                 ("connecting to " +:+ addr +:+ " ssl=" +:+ bool_to_string (cc_ssl config)));
  let hello := new_client_hello "vaylix-client" version in
  server_hello ← ask (greet (mkClientHello (ch_protocol_version hello) (ch_client_name hello) version
    (ch_supported_capabilities hello) (co_compression (cc_transport config))
    (co_max_frame_len (cc_transport config) mod 2 ^ 32) (is_some (cc_username config))));
  transport ← mpure (from_wire (map_err Raised (client_options_from_server_hello server_hello)));
  _ ← println (log_line "INFO" "client.startup" "connection established");
  _ ← match cc_username config, cc_password config with
      | Some username, Some password =>
          client_execute transport (cc_output config) request_id (CmdAuth username password)
      | _, _ => mret tt
      end;
  mret transport.

(** What the editor returns; the id is what [Uuid::now_v7] draws if the line is sent. *)
Inductive Readline :=
| RlLine (line : string) (request_id : Uuid)
| RlInterrupted
| RlEof
| RlFailed (message : string).

(** How an iteration of [run] ends. *)
Inductive Flow := Continue | Break.

Definition error_line (code name text : string) : string := "[" +:+ code +:+ "] " +:+ name +:+ ": " +:+ text.

Definition leave (save_history : result string unit) : M Flow :=
  _ ← mpure (map_err (fun message => Raised (CliReadline message)) save_history); mret Break.

Definition run_step (save_history : result string unit) (transport : CodecOptions) (output : OutputMode)
    (event : Readline) : M Flow :=
  match event with
  | RlLine line request_id =>
      let line := trim line in
      if bool_decide (line = EmptyString) then mret Continue
      else
        match parse line with
        | Err (Raised err) =>
            _ ← println (error_line (CommandError_code err) (CommandError_name err) (CommandError_text err));
            mret Continue
        | Err Panicked => mpure panic
        | Err Diverged => mpure diverge
        | Ok CmdHelp => _ ← println help_text; mret Continue
        | Ok CmdExit =>
            _ ← println (log_line "INFO" "client.session" "received local exit command"); leave save_history
        | Ok command => _ ← client_execute transport output request_id command; mret Continue
        end
  | RlInterrupted =>
      _ ← println (log_line "INFO" "client.session" "readline interrupted");
      _ ← println "Exiting..."; leave save_history
  | RlEof =>
      _ ← println (log_line "INFO" "client.session" "reached end of input");
      _ ← println "Exiting..."; leave save_history
  | RlFailed message =>
      let err := CliReadline message in
      _ ← println (error_line (ClientError_code err) (ClientError_name err) (ClientError_text err));
      mret Continue
  end.

(** [run] on the events so far: [Continue] when it waits for another one. *)
Fixpoint run (save_history : result string unit) (transport : CodecOptions) (output : OutputMode)
    (events : list Readline) : M Flow :=
  match events with
  | [] => mret Continue
  | event :: events =>
      flow ← run_step save_history transport output event;
      match flow with
      | Continue => run save_history transport output events
      | Break => mret Break
      end
  end.

End session.

(** ** The line editor (helper.rs) *)

Definition known_root_token (token : string) : bool :=
  existsb (fun command =>
    match head (split_whitespace (info_name command)) with
    | Some root => eq_ignore_ascii_case root token
    | None => false
    end) COMMANDS.

(** [validate]: [None] when the line may be entered, else the message. *)
Definition validate_line (line : string) : option string :=
  let input := trim line in
  if bool_decide (input = EmptyString) then None
  else
    let command := default EmptyString (head (split_whitespace input)) in
    if known_root_token command then None else Some ("unknown command: " +:+ command).

(** [value.get(..n)]: nothing beyond the end or inside of a character. *)
Definition get_prefix (value : string) (n : nat) : option string :=
  let bytes := as_bytes value in
  let boundary := match bytes !! n with
                  | Some b => negb (is_cont b)
                  | None => Nat.eqb n (length bytes)
                  end in
  if boundary then Some (of_bytes (take n bytes)) else None.

Definition starts_with_ignore_ascii_case (value prefix : string) : bool :=
  if bool_decide (prefix = EmptyString) then true
  else
    match get_prefix value (String.length prefix) with
    | Some start => eq_ignore_ascii_case start prefix
    | None => false
    end.

Definition starts_with_full_phrase_ignore_ascii_case (input phrase : string) : bool :=
  match get_prefix input (String.length phrase) with
  | None => false
  | Some prefix =>
      eq_ignore_ascii_case prefix phrase &&
      match chars input !! String.length phrase with
      | None => true
      | Some c => is_whitespace c
      end
  end.

(** The words before the one that is completed, and what there is of it. *)
Definition completion_words (before_cursor : string) : list string * string :=
  let words := split_whitespace before_cursor in
  if match last (chars before_cursor) with Some c => is_whitespace c | None => false end
  then (words, EmptyString)
  else
    match last words with
    | Some partial => (removelast words, partial)
    | None => ([], EmptyString)
    end.

Definition completion_candidate (consumed : list string) (partial : string) (command : string)
    : outcome TransportError (option string) :=
  let tokens := split_whitespace command in
  if (length tokens <=? length consumed)%nat then Ok None
  else if negb (forallb (fun '(typed, token) => eq_ignore_ascii_case token typed) (zip consumed tokens)) then Ok None
  else
    candidate ← index tokens (length consumed);
    Ok (if starts_with_ignore_ascii_case candidate partial then Some candidate else None).

Definition complete_command_keywords (before_cursor : string) (commands : list string)
    : outcome TransportError (Z * list string) :=
  let '(consumed, partial) := completion_words before_cursor in
  candidates ← collect (completion_candidate consumed partial) commands;
  Ok (saturating_sub (str_len before_cursor) (str_len partial),
      elements_in_order (list_to_set (omap id candidates) : gset string)).

(** [max_by_key] of a length: the last of the longest ones. *)
Definition longest {A} (text : A -> string) (xs : list A) : option A :=
  foldl (fun best x =>
    match best with
    | Some y => if (String.length (text x) <? String.length (text y))%nat then best else Some x
    | None => Some x
    end) None xs.

(** [value.strip_prefix(prefix)]. *)
Definition strip_prefix (value prefix : string) : option string :=
  if String.prefix prefix value
  then Some (of_bytes (drop (String.length prefix) (as_bytes value)))
  else None.

Definition hint_for_input (line : string) : option string :=
  let trimmed := trim_end line in
  if bool_decide (trimmed = EmptyString) then None
  else
    command ← longest info_name (filter (fun command => eq_ignore_ascii_case (info_name command) trimmed) COMMANDS);
    let hint := default EmptyString (strip_prefix (info_usage command) (info_name command)) in
    if bool_decide (hint = EmptyString) then None else Some hint.

Definition highlightable_prefix (line : string) : option string :=
  longest id ((fun command => of_bytes (take (String.length (info_name command)) (as_bytes line))) <$>
    filter (fun command => starts_with_full_phrase_ignore_ascii_case line (info_name command)) COMMANDS).
