(* ===== verification/ClientFacts.v ===== *)
(** * ClientFacts: responses answer the command they are for

    What the decoders of the client make of the payloads the server builds, and that the
    response to every command, on every path through the server, has the payload that
    the client decodes for it. *)

From S2P Require Import Prelude Text Command EngineError Store State Crypto Wal WalFacts.
From S2P Require Import WalLayout Opcode Wire Request Response PayloadFacts Frame ServerError.
From S2P Require Import ReadIndex Consensus Auth Access Status BackupFiles AuditLog Engine.
From S2P Require Import Transaction Backup Replication DiskLog Storage DiskEngine EngineWorker.
From S2P Require Import Node WritePath DiskHandle Dispatch Connection Client.
Import ReplicationRuntime.

(** ** Payloads with any text

    [inverse] says what is read when texts are UTF-8.  Without that, what was written is
    read or fails with [InvalidUtf8]: lengths, counts and tags always fit. *)

Definition reads {A} (r : reader A) (bytes rest : list byte) : Prop :=
  (exists a, r (bytes ++ rest) = (rest, Ok a)) \/
  (exists buf, r (bytes ++ rest) = (buf, Err (Raised TrnInvalidUtf8))).

Definition readable {A} (w : writer) (r : reader A) : Prop :=
  forall buf buf', w buf = (buf', Ok tt) ->
  exists bytes, buf' = buf ++ bytes /\ forall rest, reads r bytes rest.

Lemma readable_inverse {A} w (r : reader A) a : inverse w r a -> readable w r.
Proof.
  intros Hi buf buf' Hw. destruct (Hi _ _ Hw) as (bytes & -> & Hr). exists bytes. split; [done|].
  intros rest. left. eauto.
Qed.

Lemma readable_seq {A B} `{Inhabited A} w1 w2 (r : reader A) (k : A -> reader B) :
  readable w1 r -> (forall a, readable w2 (k a)) -> readable (_ ← w1; w2) (r ≫= k).
Proof.
  intros H1 H2 buf buf' (buf1 & [] & Hw1 & Hw2)%fallible_bind_ok.
  destruct (H1 _ _ Hw1) as (bs1 & -> & Hr1). destruct (H2 inhabitant _ _ Hw2) as (bs2 & -> & _).
  exists (bs1 ++ bs2). split; [by rewrite app_assoc|]. intros rest. unfold reads, mbind, fallible_bind.
  rewrite <- app_assoc. destruct (Hr1 (bs2 ++ rest)) as [[a ->]|[buf2 ->]]; [|eauto].
  destruct (H2 a _ _ Hw2) as (bs & Hbs & Hr2). apply app_inv_head in Hbs as <-. apply Hr2.
Qed.

Lemma readable_map {A B} w (r : reader A) (f : A -> B) :
  readable w r -> readable w (x ← r; mret (f x)).
Proof.
  intros Hr buf buf' Hw. destruct (Hr _ _ Hw) as (bytes & -> & Hb). exists bytes. split; [done|].
  intros rest. unfold reads, mbind, fallible_bind. destruct (Hb rest) as [[a ->]|[b ->]]; eauto.
Qed.

Lemma readable_bytes_u32 bytes : readable (put_bytes_u32 bytes) read_bytes_u32.
Proof. eapply readable_inverse, inverse_bytes_u32. Qed.

(** A length-prefixed text. *)
Lemma readable_prefixed n max s :
  max < 256 ^ Z.of_nat n ->
  readable (length ← mpure (checked_len max (as_bytes s)); _ ← put_uint n length; extend_from_slice (as_bytes s))
    (_ ← need (Z.of_nat n); length ← get_uint n; read_string length).
Proof.
  intros Hmax buf buf' Hw. destruct (decide (str_ok s)) as [Hs|Hs].
  { eapply readable_inverse; [|exact Hw]. apply inverse_prefixed; [done|]. intros rest. by apply read_string_exact. }
  pose proof (inverse_prefixed n max (as_bytes s)
    (fun length => _ ← need length; copy_to_bytes (Z.to_nat length)) (as_bytes s) Hmax) as Hi.
  destruct (Hi ltac:(intros rest; cbv beta; rewrite need_app by lia; apply copy_exact; lia) _ _ Hw) as (bytes & -> & Hr).
  exists bytes. split; [done|]. intros rest. right. specialize (Hr rest).
  unfold read_string. revert Hr. unfold mbind, fallible_bind.
  destruct (need (Z.of_nat n) (bytes ++ rest)) as [b1 [[]|]]; [|done].
  destruct (get_uint n b1) as [b2 [z|]]; [|done]. destruct (need z b2) as [b3 [[]|]]; [|done].
  intros ->. unfold mpure, from_utf8, ok_or. unfold str_ok in Hs. apply not_true_is_false in Hs as ->. eauto.
Qed.

Lemma readable_string_u16 s : readable (put_string_u16 s) read_string_u16.
Proof. by apply (readable_prefixed 2 u16_max). Qed.

Lemma readable_string_u32 s : readable (put_string_u32 s) read_string_u32.
Proof. by apply (readable_prefixed 4 u32_max). Qed.

Lemma readable_many {A} `{Inhabited A} {B} (put : B -> writer) (read : reader A) xs :
  (forall x, readable (put x) read) -> readable (mfor put xs) (read_many (length xs) read).
Proof.
  intros Hx. induction xs as [|x xs IH]; [eapply readable_inverse, inverse_ret|]. cbn.
  apply readable_seq; [done|]. intros a. by apply (readable_map _ _ (cons a)).
Qed.

(** A number that is followed by more. *)
Lemma readable_need_uint {A} n z w (k : Z -> reader A) :
  0 <= z < 256 ^ Z.of_nat n -> readable w (k z) ->
  readable (_ ← put_uint n z; w) (_ ← need (Z.of_nat n); x ← get_uint n; k x).
Proof.
  intros Hz Hk buf buf' (buf1 & [] & [= <-] & Hw)%fallible_bind_ok.
  destruct (Hk _ _ Hw) as (bytes & -> & Hr). exists (to_be n z ++ bytes). split; [by rewrite app_assoc|].
  intros rest. unfold reads. rewrite <- app_assoc, need_app by (rewrite to_be_length; done).
  unfold mbind, fallible_bind, get_uint. unfold mbind, fallible_bind.
  rewrite copy_exact by apply to_be_length. cbn. rewrite from_to_be by done. apply Hr.
Qed.

(** A number at the end, whatever its value. *)
Lemma readable_need_last {A} n z (f : Z -> A) :
  readable (put_uint n z) (_ ← need (Z.of_nat n); x ← get_uint n; mret (f x)).
Proof.
  intros buf buf' [= <-]. exists (to_be n z). split; [done|]. intros rest. left.
  rewrite need_app by (rewrite to_be_length; done). unfold mbind, fallible_bind, get_uint.
  unfold mbind, fallible_bind. rewrite copy_exact by apply to_be_length. cbn. eauto.
Qed.

Lemma readable_list {A} `{Inhabited A} {B} (put : B -> writer) (read : reader A) xs :
  (forall x, readable (put x) read) -> readable (put_list put xs) (read_list read).
Proof.
  intros Hx buf buf' (? & z & [= <- Hz] & Hw)%fallible_bind_ok.
  unfold checked_len in Hz. destruct (Z.leb_spec (Z.of_nat (length xs)) u32_max); [|done]. injection Hz as <-.
  revert Hw. apply (readable_need_uint 4 _ _ (fun count => read_many (Z.to_nat count) read));
    [unfold_widths; cbn in *; lia|]. rewrite Nat2Z.id. by apply readable_many.
Qed.

Lemma readable_pair kv : readable (put_entry kv) read_pair.
Proof.
  apply readable_seq; [apply readable_string_u16|]. intros key.
  apply (readable_map _ _ (pair key)), readable_bytes_u32.
Qed.

Lemma readable_optional value : readable (put_optional value) read_optional.
Proof. eapply readable_inverse, inverse_optional. Qed.

(** A page of SCAN: both counts are checked for at once. *)
Lemma readable_page {A} cursor keys (f : Z -> list string -> A) :
  readable (_ ← put_u64 cursor; put_list put_string_u16 keys)
    (_ ← need 12; next ← get_u64; count ← get_u32;
     ks ← read_many (Z.to_nat count) read_string_u16; mret (f next ks)).
Proof.
  intros buf buf' (buf1 & [] & [= <-] & Hw)%fallible_bind_ok.
  apply fallible_bind_ok in Hw as (? & z & [= <- Hz] & Hw). unfold checked_len in Hz.
  destruct (Z.leb_spec (Z.of_nat (length keys)) u32_max) as [Hl|]; [|done]. injection Hz as <-.
  apply fallible_bind_ok in Hw as (buf2 & [] & [= <-] & Hw).
  destruct (readable_many put_string_u16 _ keys readable_string_u16 _ _ Hw) as (bytes & -> & Hr).
  exists (to_be 8 cursor ++ to_be 4 (Z.of_nat (length keys)) ++ bytes). split; [by rewrite !app_assoc|].
  intros rest. unfold reads. rewrite (app_assoc (to_be 8 cursor)), <- app_assoc.
  rewrite need_app by (rewrite length_app, !to_be_length; done). rewrite <- app_assoc.
  unfold mbind, fallible_bind. unfold get_u64, get_u32, get_uint, mbind, fallible_bind.
  rewrite !copy_exact by apply to_be_length. cbn -[to_be read_many].
  rewrite copy_exact by apply to_be_length. cbn -[to_be read_many].
  rewrite from_to_be by (unfold_widths; cbn; lia). rewrite Nat2Z.id.
  destruct (Hr rest) as [[a ->]|[b ->]]; eauto.
Qed.

Lemma readable_integer {A} n (f : Z -> A) : readable (put_i64 n) (_ ← need 8; x ← get_i64; mret (f x)).
Proof.
  intros buf buf' [= <-]. exists (to_be 8 (n mod 2 ^ 64)). split; [done|]. intros rest. left.
  rewrite need_app by (rewrite to_be_length; done). unfold get_i64, get_u64, get_uint.
  unfold mbind, fallible_bind. rewrite copy_exact by apply to_be_length. cbn. eauto.
Qed.

Lemma readable_exec_result result : readable (encode_exec_result result) decode_exec_result.
Proof.
  unfold decode_exec_result.
  destruct result as [| |v|b|n|n|es|vs|[c ks]]; cbn [encode_exec_result];
    try (by eapply readable_inverse, (inverse_need_last 1)); apply (readable_need_uint 1); try lia;
    cbn [Z.eqb Pos.eqb].
  - apply readable_map, readable_bytes_u32.
  - eapply readable_map, readable_inverse, inverse_bool.
  - apply (readable_need_last 8).
  - apply readable_integer.
  - apply readable_map, readable_list, readable_pair.
  - apply readable_map, readable_list, readable_optional.
  - apply (readable_page c ks (fun c ks => ExecScan (mkScanPayload c ks))).
Qed.

(** ** What the client expects *)

Inductive PayloadKind :=
| KindOk | KindValue | KindBool | KindCount | KindInteger | KindEntries | KindStrings | KindScan | KindExec
| KindLocal.

(** What [render_ok] decodes for a command. *)
Definition expected_kind (command : Command) : PayloadKind :=
  match command with
  | CmdPing _ | CmdGet _ | CmdGetDel _ | CmdGetEx _ _ _ | CmdBackup | CmdMetricsProm => KindValue
  | CmdSet _ _ options =>
      if so_return_previous options then KindValue
      else if is_some (so_condition options) || is_some (so_if_version options) then KindBool
      else KindOk
  | CmdExec => KindExec
  | CmdSetNx _ _ | CmdExists _ | CmdExpire _ _ | CmdPersist _ | CmdRename _ _ | CmdRenameNx _ _ => KindBool
  | CmdMGet _ => KindStrings
  | CmdDelete _ | CmdDbSize | CmdCount | CmdRestore _ | CmdRestoreFrom _ | CmdRestoreCheck _
  | CmdRestoreCheckFrom _ => KindCount
  | CmdIncr _ | CmdDecr _ | CmdTtl _ => KindInteger
  | CmdScan _ _ _ => KindScan
  | CmdInfo | CmdMetrics | CmdList | CmdBackupVerify _ | CmdBackupVerifyFrom _ | CmdShowUsers
  | CmdShowRoles | CmdShowGrants | CmdShowGrantsForUser _ | CmdShowGrantsForRole _ | CmdWhoAmI
  | CmdMaintenanceStatus | CmdHealth | CmdShowCluster | CmdShowReplication => KindEntries
  | CmdHelp | CmdExit => KindLocal
  | _ => KindOk
  end.

(** Decoded, or refused because of a text. *)
Definition decoded {A} (r : outcome TransportError A) : Prop :=
  (exists a, r = Ok a) \/ r = Err (Raised TrnInvalidUtf8).

Definition of_kind (kind : PayloadKind) (r : Response) : Prop :=
  match kind with
  | KindOk => True
  | KindValue => decoded (Response.decode_value_bytes r)
  | KindBool => decoded (Response.decode_bool r)
  | KindCount => decoded (Response.decode_count r)
  | KindInteger => decoded (Response.decode_integer r)
  | KindEntries => decoded (Response.decode_entries r)
  | KindStrings => decoded (Response.decode_byte_strings r)
  | KindScan => decoded (Response.decode_scan r)
  | KindExec => decoded (Response.decode_exec_results r)
  | KindLocal => False
  end.

Definition queued_reply (r : Response) : Prop := Response.decode_value r = Ok "QUEUED"%string.

(** A response that answers the request. *)
Definition answers (request_id : Uuid) (command : Command) (r : Response) : Prop :=
  rs_request_id r = request_id /\
  match rs_status r with
  | StatusOk => queued_reply r \/ of_kind (expected_kind command) r
  | StatusNotFound => True
  | StatusError => decoded (Response.decode_error r)
  end.

Definition shown (r : outcome ClientError string) : Prop :=
  (exists text, r = Ok text) \/ r = Err (Raised (CliTransport TrnInvalidUtf8)).

Lemma shown_bind {A} (r : outcome TransportError A) (f : A -> outcome ClientError string) :
  decoded r -> (forall a, shown (f a)) -> shown (from_wire r ≫= f).
Proof. intros [[a ->]| ->] Hf; [apply Hf|]. by right. Qed.

Lemma shown_ok text : shown (Ok text).
Proof. left. eauto. Qed.
#[local] Hint Resolve shown_ok : core.

Section rendering.
Context `{EntriesJson} (Hjson : forall entries, is_ok (entries_to_json_pretty entries) = true).

Lemma entries_shown entries output : shown (render_entries entries output).
Proof.
  unfold render_entries. destruct output; [apply shown_ok..|]. specialize (Hjson (merge_sort entry_le entries)).
  destruct (entries_to_json_pretty _); [apply shown_ok|done].
Qed.

Lemma render_ok_shown command r output :
  of_kind (expected_kind command) r -> shown (render_ok command r output).
Proof.
  intros Hk. unfold render_ok. destruct command; cbn in Hk |- *; try done;
    try (apply shown_bind; [done|intros a; apply shown_ok || apply entries_shown]).
  destruct (so_return_previous options); [apply shown_bind; auto|].
  destruct (_ || _); [apply shown_bind; auto|done].
Qed.

Lemma answers_shown request_id command r output :
  answers request_id command r -> shown (render_response command r output).
Proof.
  intros [_ Hs]. unfold render_response, queued_reply in *.
  destruct (Response.decode_value r) as [v|]; [case_bool_decide; [done|]|];
    (destruct (rs_status r); [destruct Hs as [Hq|Hk]; [congruence|by apply render_ok_shown]|apply shown_bind; auto|done]).
Qed.

End rendering.

(** ** What the server answers *)

Lemma built_decoded {A} id status w (r : reader A) resp :
  readable w r -> Response.build id status w = Ok resp ->
  rs_request_id resp = id /\ rs_status resp = status /\
  decoded (read_from (x ← r; _ ← ensure_empty; mret x) (rs_payload resp)).
Proof.
  intros Hr (p & Hp & [= <-])%result_bind_ok. split_and!; [done..|]. cbn. unfold written in Hp.
  destruct (w []) as [buf [[]|]] eqn:E; [|done]. injection Hp as <-. destruct (Hr _ _ E) as (bytes & -> & Hb).
  specialize (Hb []). unfold reads in Hb. rewrite app_nil_r in Hb. unfold read_from, mbind, fallible_bind. cbn [app].
  destruct Hb as [[a ->]|[b ->]]; [left; by exists a|by right].
Qed.

Lemma answers_ok id c : expected_kind c = KindOk -> answers id c (Response.ok id).
Proof. intros Hk. split; [done|]. right. by rewrite Hk. Qed.

Lemma answers_not_found id c : answers id c (Response.not_found id).
Proof. done. Qed.

Lemma answers_value_bytes id c value r :
  expected_kind c = KindValue -> Response.value_bytes id value = Ok r -> answers id c r.
Proof.
  intros Hk Hb. destruct (built_decoded _ _ _ _ _ (readable_bytes_u32 value) Hb) as (Hid & Hs & Hd).
  split; [done|]. rewrite Hs, Hk. by right.
Qed.

Lemma answers_queued id c r : Response.value id "QUEUED" = Ok r -> answers id c r.
Proof. intros [= <-]. split; [done|]. by left. Qed.

Lemma answers_bool id c b : expected_kind c = KindBool -> answers id c (Response.boolean id b).
Proof. intros Hk. split; [done|]. right. rewrite Hk. left. destruct b; eexists; reflexivity. Qed.

(** A fixed-width number alone. *)
Lemma number_decoded n z : decoded (read_from (_ ← need (Z.of_nat n); x ← get_uint n; _ ← ensure_empty; mret x) (to_be n z)).
Proof.
  left. unfold read_from. rewrite <- (app_nil_r (to_be n z)), need_app by (rewrite to_be_length; done).
  unfold mbind, fallible_bind, get_uint. unfold mbind, fallible_bind. rewrite copy_exact by apply to_be_length.
  cbn. eauto.
Qed.

Lemma answers_count id c z : expected_kind c = KindCount -> answers id c (Response.count id z).
Proof. intros Hk. split; [done|]. right. rewrite Hk. apply (number_decoded 8). Qed.

Lemma answers_integer id c z : expected_kind c = KindInteger -> answers id c (Response.integer id z).
Proof.
  intros Hk. split; [done|]. right. rewrite Hk. cbn. unfold Response.decode_integer, get_i64, get_u64.
  destruct (number_decoded 8 (z mod 2 ^ 64)) as [[a Ha]|Ha]; revert Ha; unfold read_from, decoded, mbind, fallible_bind;
    destruct (need _ _) as [b1 [[]|]]; try done; destruct (get_uint 8 b1) as [b2 [x|]]; try done;
    cbn; destruct b2; try done; eauto.
Qed.

Lemma utf8_decoded bytes : decoded (Response.utf8 bytes).
Proof. unfold Response.utf8, decoded. destruct (from_utf8 bytes); cbn; eauto. Qed.

Lemma answers_entries id c entries r :
  expected_kind c = KindEntries -> Response.byte_entries id entries = Ok r -> answers id c r.
Proof.
  intros Hk Hb. destruct (built_decoded _ _ _ _ _ (readable_list _ _ entries readable_pair) Hb) as (Hid & Hs & Hd).
  split; [done|]. rewrite Hs, Hk. right. cbn. unfold Response.decode_entries, Response.decode_byte_entries.
  destruct Hd as [[es ->]| ->]; [|by right]. cbn. induction es as [|[k v] es IH]; [left; by exists []|]. cbn.
  destruct (utf8_decoded v) as [[s ->]| ->]; cbn; [|by right].
  destruct IH as [[l ->]| ->]; [left; by eexists|by right].
Qed.

Lemma answers_strings id c values r :
  expected_kind c = KindStrings -> Response.byte_strings id values = Ok r -> answers id c r.
Proof.
  intros Hk Hb. destruct (built_decoded _ _ _ _ _ (readable_list _ _ values readable_optional) Hb) as (Hid & Hs & Hd).
  split; [done|]. rewrite Hs, Hk. by right.
Qed.

#[local] Instance ExecResultPayload_inhabited : Inhabited ExecResultPayload := populate ExecOk.

Lemma answers_exec id c results r :
  expected_kind c = KindExec -> Response.exec_results id results = Ok r -> answers id c r.
Proof.
  intros Hk Hb. destruct (built_decoded _ _ _ _ _ (readable_list _ _ results readable_exec_result) Hb) as (Hid & Hs & Hd).
  split; [done|]. rewrite Hs, Hk. by right.
Qed.

Lemma answers_scan id c cursor keys r :
  expected_kind c = KindScan -> Response.scan id cursor keys = Ok r -> answers id c r.
Proof.
  intros Hk Hb.
  assert (Response.build id StatusOk (_ ← put_u64 cursor; put_list put_string_u16 keys) = Ok r) as Hb'.
  { revert Hb. unfold Response.scan, Response.build, written, put_list, mbind, fallible_bind, mpure.
    cbn [put_u64 put_uint mmodify]. by destruct (checked_len u32_max keys). }
  destruct (built_decoded _ _ _ _ _ (readable_page cursor keys mkScanPayload) Hb') as (Hid & Hs & Hd).
  split; [done|]. rewrite Hs, Hk. right. revert Hd. cbn [of_kind]. unfold Response.decode_scan, read_from.
  unfold mbind, fallible_bind. generalize (rs_payload r) as bytes. intros bytes.
  destruct (need 12 bytes) as [b1 [[]|]]; [|done]. destruct (get_u64 b1) as [b2 [n|]]; [|done].
  destruct (get_u32 b2) as [b3 [m|]]; [|done]. destruct (read_many _ _ b3) as [b4 [ks|]]; [|done]. done.
Qed.

Lemma answers_error id c code name message r :
  Response.error id code name message = Ok r -> answers id c r.
Proof.
  intros Hb. assert (readable (encode_error_payload code name message)
    (a ← read_string_u16; b ← read_string_u16; m ← read_string_u32; mret (mkErrorPayload a b m))) as Hr.
  { apply readable_seq; [apply readable_string_u16|]. intros a. apply readable_seq; [apply readable_string_u16|].
    intros b. apply (readable_map _ _ (mkErrorPayload a b)), readable_string_u32. }
  destruct (built_decoded _ _ _ _ _ Hr Hb) as (Hid & Hs & Hd). split; [done|]. rewrite Hs. revert Hd.
  unfold Response.decode_error, decode_error_payload, read_from, mbind, fallible_bind.
  generalize (rs_payload r) as bytes. intros bytes.
  destruct (read_string_u16 bytes) as [b1 [a|]]; [|done]. destruct (read_string_u16 b1) as [b2 [b|]]; [|done].
  destruct (read_string_u32 b2) as [b3 [m|]]; [|done]. done.
Qed.

Lemma answers_error_response id c code name message r :
  error_response id code name message = Ok r -> answers id c r.
Proof.
  unfold error_response. destruct (Response.error _ _ _ _) eqn:E; [intros [= <-]|]; by eapply answers_error.
Qed.

(** *** Results of transactions and batches *)

Definition result_fits (c : Command) (r : TransactionResult) : Prop :=
  match r with
  | TrOk => expected_kind c = KindOk
  | TrNotFound => True
  | TrValue _ => expected_kind c = KindValue
  | TrBoolean _ => expected_kind c = KindBool
  | TrCount _ => expected_kind c = KindCount
  | TrInteger _ => expected_kind c = KindInteger
  | TrEntries _ => expected_kind c = KindEntries
  | TrStrings _ => expected_kind c = KindStrings
  | TrScan _ => expected_kind c = KindScan
  end.

Lemma evaluate_fits now c t t' r : evaluate_transaction_command now c t = (t', Ok r) -> result_fits c r.
Proof.
  unfold evaluate_transaction_command. destruct (eval_purge now t) as [st ops].
  destruct c; cbn [fst snd]; intros He; try discriminate He;
    unfold eval_get_del, eval_get_ex, eval_set, eval_set_nx, eval_incr_by, eval_expire, eval_persist, eval_rename,
      eval_scan, eval_clear, set_reply in He;
    repeat (lazymatch type of He with
            | context [match ?x with _ => _ end] => destruct x eqn:?
            end; try discriminate He);
    injection He as <- <-; cbn; try done; by rewrite ?Heqb, ?Heqb0, ?Heqb1.
Qed.

Lemma from_transport_ok {A} (r : result TransportError A) a : from_transport r = Ok a -> r = Ok a.
Proof. unfold from_transport. by destruct r; cbn; [intros [= ->]|]. Qed.

Lemma rendered_fits id c tr r : result_fits c tr -> render_transaction_result id tr = Ok r -> answers id c r.
Proof.
  intros Hf Hr. destruct tr; cbn in Hf, Hr; try (injection Hr as <-); try apply from_transport_ok in Hr;
    eauto using answers_ok, answers_not_found, answers_value_bytes, answers_bool, answers_count, answers_integer,
      answers_entries, answers_strings, answers_scan.
Qed.

Lemma batch_step_fits term now b c b' :
  Transaction.batch_step term now b c = Ok b' ->
  exists r, bs_results b' = bs_results b ++ [r] /\ result_fits c (cb_result r).
Proof.
  unfold Transaction.batch_step.
  destruct (evaluate_transaction_command _ _ _) as [[st [|op ops]] [r|e]] eqn:He; intros [= <-];
    apply evaluate_fits in He; cbn; by eexists.
Qed.

Lemma batch_fits term now b cs b' :
  foldM (Transaction.batch_step term now) b cs = Ok b' ->
  exists rs, bs_results b' = bs_results b ++ rs /\ Forall2 (fun c r => result_fits c (cb_result r)) cs rs.
Proof.
  revert b. induction cs as [|c cs IH]; intros b Hf; cbn in Hf.
  { injection Hf as <-. exists []. by rewrite app_nil_r. }
  apply result_bind_ok in Hf as (b1 & (r & Hr & Hc)%batch_step_fits & Hf).
  destruct (IH _ Hf) as (rs & -> & Hrs). exists (r :: rs). rewrite Hr, <- app_assoc. split; [done|by constructor].
Qed.

Lemma execute_command_batch_fits {W} `{WalWriter W} `{EntryChecksum} now cs (eng eng' : Engine W) rs :
  Transaction.execute_command_batch now cs eng = (eng', Ok rs) ->
  Forall2 (fun c r => result_fits c (cb_result r)) cs rs.
Proof.
  unfold Transaction.execute_command_batch. intros (e1 & n & _ & Hx)%fallible_bind_ok.
  apply fallible_bind_ok in Hx as (? & ? & [= <- <-] & Hx).
  destruct (foldM _ _ cs) as [b|[st e]] eqn:Ef; [|by apply fallible_bind_ok in Hx as (? & [] & _ & Hx)].
  apply batch_fits in Ef as (rs' & Hrs & Hf). cbn in Hrs. subst rs'.
  apply fallible_bind_ok in Hx as (e2 & [] & _ & Hx). destruct (bs_entries b); [by injection Hx as _ <-|].
  apply fallible_bind_ok in Hx as (? & ? & _ & Hx). apply fallible_bind_ok in Hx as (? & [] & _ & Hx).
  apply fallible_bind_ok in Hx as (? & [] & _ & Hx). by injection Hx as _ <-.
Qed.

(** ** Operations that answer

    [yields P m]: what [m] returns, if it does, has [P]. *)

Definition yields {S E A} (P : A -> Prop) (m : fallible S E A) : Prop :=
  forall s s' a, m s = (s', Ok a) -> P a.

Section yields.
Context {S E : Type}.
Implicit Types (s : S).

Lemma yields_bind {A B} (P : B -> Prop) (m : fallible S E A) (k : A -> fallible S E B) :
  (forall a, yields P (k a)) -> yields P (m ≫= k).
Proof. intros Hk s s' b (s1 & a & _ & Hb)%fallible_bind_ok. by eapply Hk. Qed.

Lemma yields_with {A B} (Q : A -> Prop) (P : B -> Prop) (m : fallible S E A) (k : A -> fallible S E B) :
  yields Q m -> (forall a, Q a -> yields P (k a)) -> yields P (m ≫= k).
Proof. intros Hm Hk s s' b (s1 & a & Ha & Hb)%fallible_bind_ok. eapply Hk; [|done]. by eapply Hm. Qed.

Lemma yields_ret {A} (P : A -> Prop) (a : A) : P a -> yields P (mret a : fallible S E A).
Proof. by intros Ha s s' b [= _ <-]. Qed.

Lemma yields_pure {A} (P : A -> Prop) (r : result E A) :
  (forall a, r = Ok a -> P a) -> yields P (mpure r : fallible S E A).
Proof. intros Hr s s' a [= _ Ha]. by apply Hr. Qed.

Lemma yields_fail {A} (P : A -> Prop) e : yields P (mfail e : fallible S E A).
Proof. done. Qed.

Lemma yields_weaken {A} (P Q : A -> Prop) (m : fallible S E A) :
  yields P m -> (forall a, P a -> Q a) -> yields Q m.
Proof. intros Hm Hpq s s' a Ha. apply Hpq. by eapply Hm. Qed.

End yields.

Section server.
Context `{Crc32} `{CryptoLib} `{Binary WalEntry} `{Binary Manifest} `{Binary StoredKeyring}
  `{SnapshotCodec} `{NonceSource} `{Base64} `{BackupJson} `{ReplicationJson} `{PasswordHash} `{AuthJson}
  `{Sha256} `{DumpJson} (uuid_to_string : list byte -> string) (config : ServerConfig).

(** *** The engine thread *)

Lemma value_answers id c value :
  expected_kind c = KindValue -> forall r, value_or_not_found id value = Ok r -> answers id c r.
Proof.
  intros Hk r. destruct value; cbn; [intros Hr%from_transport_ok; by eapply answers_value_bytes|].
  intros [= <-]. apply answers_not_found.
Qed.

(** Walks through an operation to the responses it returns. *)
Ltac answer_step :=
  lazymatch goal with
  | |- yields _ (mfail _) => apply yields_fail
  | |- yields _ (mbind _ _) => apply yields_bind; intros ?
  | |- yields _ (mret (Response.ok _)) => apply yields_ret, answers_ok; done
  | |- yields _ (mret (Response.boolean _ _)) => apply yields_ret, answers_bool; done
  | |- yields _ (mret (Response.count _ _)) => apply yields_ret, answers_count; done
  | |- yields _ (mret (Response.integer _ _)) => apply yields_ret, answers_integer; done
  | |- yields _ (mpure (value_or_not_found _ _)) => apply yields_pure, value_answers; done
  | |- yields _ (mpure (from_transport _)) => apply yields_pure; intros ? ?%from_transport_ok; answer_step
  | |- yields _ (reply _) => unfold reply; answer_step
  | H : Response.value_bytes _ _ = Ok ?r |- answers _ _ ?r => eapply answers_value_bytes; [|exact H]; done
  | H : Response.value _ "QUEUED" = Ok ?r |- answers _ _ ?r => eapply answers_queued; exact H
  | H : Response.value _ _ = Ok ?r |- answers _ _ ?r => eapply answers_value_bytes; [|exact H]; done
  | H : Response.byte_strings _ _ = Ok ?r |- answers _ _ ?r => eapply answers_strings; [|exact H]; done
  | H : Response.byte_entries _ _ = Ok ?r |- answers _ _ ?r => eapply answers_entries; [|exact H]; done
  | H : Response.entries _ _ = Ok ?r |- answers _ _ ?r => eapply answers_entries; [|exact H]; done
  | H : Response.scan _ _ _ = Ok ?r |- answers _ _ ?r => eapply answers_scan; [|exact H]; done
  | H : Response.exec_results _ _ = Ok ?r |- answers _ _ ?r => eapply answers_exec; [|exact H]; done
  | |- yields _ (if ?b then _ else _) => destruct b
  | |- yields _ (match ?x with _ => _ end) => destruct x
  end.

Lemma set_answers id key value options outcome r :
  render_set_response id (so_return_previous options)
    (is_some (so_condition options) || is_some (so_if_version options)) outcome = Ok r ->
  answers id (CmdSet key value options) r.
Proof.
  unfold render_set_response. destruct (so_return_previous options) eqn:Hp; [by apply value_answers; cbn; rewrite Hp|].
  destruct (_ || _) eqn:Hc; intros [= <-]; [apply answers_bool|apply answers_ok]; cbn; by rewrite Hp, Hc.
Qed.

Lemma execute_command_answers i id c : yields (answers id c) (execute_command uuid_to_string i id c).
Proof.
  unfold execute_command. destruct c; repeat answer_step. apply yields_pure, set_answers.
Qed.

Lemma single_answers i term id c :
  yields (fun r => answers id c (er_response r)) (process_single_execute uuid_to_string i term id c).
Proof.
  apply yields_bind. intros _. eapply yields_with; [apply execute_command_answers|]. intros r Hr.
  apply yields_bind. intros de. by apply yields_ret.
Qed.

Lemma batch_reply_answers de id c r er :
  result_fits c (cb_result r) -> batch_reply de id r = Ok er -> answers id c (er_response er).
Proof. intros Hf (x & Hx & [= <-])%result_bind_ok. cbn. by eapply rendered_fits. Qed.

Lemma core_batch_fits now cs :
  yields (fun rs => Forall2 (fun c r => result_fits c (cb_result r)) cs rs)
    (core (Transaction.execute_command_batch now cs)).
Proof.
  intros de de' rs Hr. unfold core, call, on_core in Hr.
  destruct (Transaction.execute_command_batch _ _ _) as [eng [rs'|]] eqn:E; [|done].
  injection Hr as _ <-. by eapply execute_command_batch_fits.
Qed.

(** A batch of one command. *)
Lemma run_one_answers now term id c de de' er replies :
  run_write_batch now term [(id, c)] de = (de', Ok er :: replies) -> answers id c (er_response er).
Proof.
  unfold run_write_batch.
  match goal with |- context [match ?m with (_, _) => _ end] => destruct m as [d1 [rs|e]] eqn:Er end; [|done].
  apply fallible_bind_ok in Er as (d2 & [] & _ & Er). apply core_batch_fits in Er. cbn in Er |- *.
  inversion Er as [|? r ? rs' Hf _]; subst. intros [= _ Hr _]. by eapply batch_reply_answers.
Qed.

Lemma explicit_one_answers now term id c :
  yields (Forall (fun er => answers id c (er_response er))) (process_explicit_write_batch now term [(id, c)]).
Proof.
  apply yields_bind. intros _. eapply yields_with; [apply core_batch_fits|]. intros rs Hrs.
  apply yields_bind. intros de. apply yields_pure. intros ers. cbn in *.
  inversion Hrs as [|? r ? rs' Hf Hrs']; subst. inversion Hrs'; subst. cbn.
  intros (er & Her & Hk)%result_bind_ok. cbn in Hk. injection Hk as <-.
  constructor; [by eapply batch_reply_answers|constructor].
Qed.

(** *** The write coordinator *)

Definition reply_answers (id : Uuid) (c : Command) (r : result ServerError Response) : Prop :=
  forall x, r = Ok x -> answers id c x.

Lemma coordinate_answers now rollback id c :
  yields (fun x => Forall (fun er => answers id c (er_response er)) x.1)
    (coordinate_writes now rollback [(id, c)] : fallible (Node DiskEngine) ServerError _).
Proof.
  apply yields_bind. intros node. destruct (negb _); [apply yields_fail|]. apply yields_bind. intros _.
  eapply (yields_with (Forall (fun er => answers id c (er_response er)))).
  - intros nd nd' ers. unfold on_worker. cbn [eh_execute_write_batch disk_handle].
    destruct (process_explicit_write_batch _ _ _ (nd_engine nd)) as [e [ers'|]] eqn:E; [|done].
    intros [= _ <-]. by eapply explicit_one_answers.
  - intros ers Hers. apply yields_bind. intros node'. destruct (_ || _); [apply yields_bind; intros _; apply yields_fail|].
    destruct (foldl _ _ _); [|apply yields_fail]. apply yields_bind. intros _. by apply yields_ret.
Qed.

Lemma process_batch_answers i now id c :
  yields (Forall (reply_answers id c)) (process_batch i now [(id, c)] : fallible (Node DiskEngine) ServerError _).
Proof.
  eapply yields_with; [apply coordinate_answers|]. intros [ers frontier] Hers. cbn in Hers.
  apply yields_bind. intros _. apply yields_bind. intros driven. unfold finish_writes. destruct driven; cycle 1.
  { apply yields_bind. intros _. apply yields_fail. }
  apply yields_bind. intros _. apply yields_ret. cbn. apply Forall_fmap. eapply Forall_impl; [exact Hers|].
  intros er Her x. cbn. destruct (_ <=? _); [by intros [= <-]|done].
Qed.

(** *** Commands *)

Lemma yields_on_node {A} (P : A -> Prop) (m : fallible (Node DiskEngine) ServerError A) :
  yields P m -> yields P (on_node m).
Proof.
  intros Hm s s' a. unfold on_node. destruct (m (sv_node s)) as [n r] eqn:E. intros [= _ ->]. by eapply Hm.
Qed.

Lemma yields_on_worker {A} (P : A -> Prop) (m : fallible DiskEngine ServerError A) :
  yields P m -> yields P (on_worker m).
Proof.
  intros Hm s s' a. unfold on_worker. destruct (m (nd_engine s)) as [n r] eqn:E. intros [= _ ->]. by eapply Hm.
Qed.

Lemma execute_answers i id term c :
  yields (fun r => answers id c (er_response r)) (execute uuid_to_string i id term c).
Proof.
  unfold execute. apply yields_on_node, yields_on_worker.
  destruct (is_batchable_engine_write c); [|apply single_answers]. intros de de' er.
  destruct (run_write_batch _ _ _ de) as [d1 [|[x|e] replies]] eqn:E; intros [= _ <-].
  by eapply run_one_answers.
Qed.

Lemma read_command_answers index now id c r :
  CommittedReadIndex.read_command index now id c = Ok r -> answers id c r.
Proof.
  destruct c; cbn; try done.
  - case_match; [|by intros [= <-]]. intros Hr%from_transport_ok. by eapply answers_value_bytes.
  - intros Hr%from_transport_ok. by eapply answers_strings.
  - intros [= <-]. by apply answers_bool.
  - intros [= <-]. by apply answers_integer.
Qed.

Lemma command_path_answers i id c : yields (answers id c) (command_path uuid_to_string config i id c).
Proof.
  unfold command_path. apply yields_bind. intros server.
  assert (forall term (k : ExecuteResult -> fallible Server ServerError Response),
    (forall r, answers id c (er_response r) -> yields (answers id c) (k r)) ->
    yields (answers id c) (execute uuid_to_string i id term c ≫= k)) as Hx.
  { intros term k. apply yields_with, execute_answers. }
  destruct (negb (is_write_command c)).
  { unfold fast_read. destruct (_ && _); [apply yields_pure, read_command_answers|].
    apply Hx. intros r. by apply yields_ret. }
  destruct (bool_decide _); [apply Hx; intros r Hr; apply yields_bind; intros _; by apply yields_ret|].
  destruct (_ && _ && _).
  { eapply yields_with; [apply yields_on_node, process_batch_answers|]. intros [|r rs] Hrs; [apply yields_fail|].
    inversion Hrs; subst. by apply yields_pure. }
  apply yields_bind. intros _. apply Hx. intros r Hr. apply yields_bind. intros server'.
  destruct (_ && _); [apply yields_fail|]. apply yields_bind. intros _. by apply yields_ret.
Qed.

Lemma restore_from_answers i id dump path :
  yields (answers id (CmdRestoreFrom path)) (restore_from uuid_to_string i id dump).
Proof.
  apply yields_bind. intros server. eapply yields_with; [apply execute_answers|]. intros r Hr.
  apply yields_bind. intros _. by apply yields_ret.
Qed.

Lemma backup_command_answers i id c : yields (answers id c) (backup_command uuid_to_string config i id c).
Proof. unfold backup_command, backup_to. destruct c; repeat answer_step. apply restore_from_answers. Qed.

Lemma users_command_answers i id c : yields (answers id c) (users_command i id c).
Proof. unfold users_command. apply yields_bind. intros server. destruct c; repeat answer_step. Qed.

Lemma dispatch_answers i id c : yields (answers id c) (dispatch_command uuid_to_string config i id c).
Proof.
  unfold dispatch_command. apply yields_bind. intros server.
  destruct c; first [apply command_path_answers | apply backup_command_answers | apply users_command_answers | repeat answer_step].
Qed.

Lemma transaction_answers i id c : yields (answers id c) (handle_transaction_command config i id c).
Proof.
  unfold handle_transaction_command, exec. apply yields_bind. intros _. apply yields_bind. intros server.
  destruct (negb _); [apply yields_fail|]. destruct c; repeat answer_step.
Qed.

Lemma handle_auth_answers i peer id username password c :
  expected_kind c = KindOk -> yields (answers id c) (handle_auth config i peer id username password).
Proof. intros Hk. unfold handle_auth. repeat answer_step. Qed.

Lemma process_command_answers i peer id c : yields (answers id c) (process_command uuid_to_string config i peer id c).
Proof.
  unfold process_command. destruct c; [by apply handle_auth_answers|..].
  all: apply yields_bind; intros server; destruct (_ && _ && _); [apply yields_fail|].
  all: apply yields_bind; intros _; destruct (_ && _); [apply yields_fail|].
  all: apply yields_bind; intros _; apply yields_bind; intros server'.
  all: destruct (in_transaction _); [apply transaction_answers|].
  all: apply yields_bind; intros _; apply dispatch_answers.
Qed.

End server.

(** ** Over a connection *)

Lemma error_response_ok id code name message : is_ok (error_response id code name message) = true.
Proof. unfold error_response. by destruct (Response.error id code name message). Qed.

Lemma external_opcode request c : into_command request = Ok c -> is_internal_replication_opcode (rq_opcode request) = false.
Proof. unfold into_command. by destruct (rq_opcode request). Qed.

(** What the rate limiter says to a request, and the connection after it. *)
Definition admitted (ri : RequestInputs) (conn : Conn) : bool :=
  (RateLimiter.allow (ri_instant ri) (cn_rate_limiter conn)).2.
Definition counted (ri : RequestInputs) (conn : Conn) : Conn :=
  conn {{ cn_rate_limiter := (RateLimiter.allow (ri_instant ri) (cn_rate_limiter conn)).1 }}.

Lemma allow_counted ri conn : allow ri conn = (counted ri conn, Ok (admitted ri conn)).
Proof. unfold allow, counted, admitted. by destruct (RateLimiter.allow _ _). Qed.

(** [settles P m]: [m] returns something with [P] or an error, and does not panic. *)
Definition settles {S E A} (P : A -> Prop) (m : fallible S (fault E) A) : Prop :=
  forall s, match (m s).2 with Ok a => P a | Err (Raised _) => True | Err _ => False end.

Section settles.
Context {S E : Type}.

Lemma settles_bind {A B} (P : A -> Prop) (Q : B -> Prop) (m : fallible S (fault E) A) (k : A -> fallible S (fault E) B) :
  settles P m -> (forall a, P a -> settles Q (k a)) -> settles Q (m ≫= k).
Proof.
  intros Hm Hk s. specialize (Hm s). unfold mbind, fallible_bind. destruct (m s) as [s' [a|[]]]; [|done..].
  by apply Hk.
Qed.

Lemma settles_ret {A} (P : A -> Prop) (a : A) : P a -> settles P (mret a : fallible S (fault E) A).
Proof. by intros Ha s. Qed.

Lemma settles_get (P : S -> Prop) : (forall s, P s) -> settles P (mget : fallible S (fault E) S).
Proof. intros Hs s. apply Hs. Qed.

End settles.

Section connection.
Context `{Crc32} `{CryptoLib} `{Binary WalEntry} `{Binary Manifest} `{Binary StoredKeyring}
  `{SnapshotCodec} `{NonceSource} `{Base64} `{BackupJson} `{ReplicationJson} `{PasswordHash} `{AuthJson}
  `{Sha256} `{DumpJson} `{AuditJson} `{ReplicationWire}
  (uuid_to_string : list byte -> string) (config : ServerConfig) (audit_commands : bool).

Lemma settles_try {A} (P : A -> Prop) (r : result ServerError A) : (forall a, r = Ok a -> P a) -> settles P (try r).
Proof. intros Hr conn. cbn. destruct r; [by apply Hr|done]. Qed.

Lemma settles_audit f : settles (fun _ => True) (audit f).
Proof. done. Qed.

Lemma settles_refuse id c code name text : settles (answers id c) (refuse id code name text).
Proof.
  intros conn. unfold refuse. pose proof (error_response_ok id code name text) as Hok.
  destruct (error_response _ _ _ _) eqn:E; [|done]. cbn. by eapply answers_error_response.
Qed.

Lemma settles_response_of id c r : reply_answers id c r -> settles (answers id c) (response_of id r).
Proof. intros Hr. destruct r; [by apply settles_ret, Hr|apply settles_refuse]. Qed.

Lemma settles_answered {A} (P : A -> Prop) (m : fallible Server ServerError A) :
  yields P m -> settles (fun r => forall a, r = Ok a -> P a) (answered m).
Proof.
  intros Hm conn. unfold answered. destruct (m (cn_server conn)) as [server r] eqn:E. cbn.
  intros a ->. by eapply Hm.
Qed.

Lemma settles_allow ri : settles (fun _ => True) (allow ri).
Proof. intros conn. by rewrite allow_counted. Qed.

Lemma settles_write ri : settles (fun _ => True) (write_response ri).
Proof. by apply settles_try. Qed.

Lemma settles_refuse_audited ri cid peer id c opcode code refusal :
  settles (answers id c) refusal ->
  settles (answers id c) (refuse_audited uuid_to_string ri cid peer id opcode code refusal).
Proof.
  intros Hr. eapply settles_bind; [exact Hr|]. intros r Ha. eapply settles_bind; [apply settles_write|]. intros _ _.
  eapply settles_bind; [by apply (settles_get (fun _ => True))|]. intros conn _.
  eapply settles_bind; [apply settles_audit|]. intros _ _. by apply settles_ret.
Qed.

Lemma run_command_answers ri cid peer id c :
  settles (answers id c) (run_command uuid_to_string config audit_commands ri cid peer id c).
Proof.
  eapply settles_bind; [apply settles_answered, process_command_answers|]. intros r Hr.
  eapply settles_bind; [by apply settles_response_of|]. intros x Hx.
  eapply settles_bind; [apply settles_write|]. intros _ _.
  eapply settles_bind; [by apply (settles_get (fun _ => True))|]. intros conn _.
  do 3 (eapply settles_bind; [apply settles_audit|]; intros _ _). by apply settles_ret.
Qed.

(** Every request that carries a command is answered, or ends the connection. *)
Lemma handle_request_answers ri cid peer request c :
  into_command request = Ok c ->
  settles (answers (rq_request_id request) c)
    (handle_request uuid_to_string config audit_commands ri cid peer request).
Proof.
  intros Hc. unfold handle_request. rewrite Hc, (external_opcode _ _ Hc).
  assert (forall m : fallible Conn (fault ServerError) Response, settles (answers (rq_request_id request) c) m ->
    settles (answers (rq_request_id request) c) (response ← m; _ ← write_response ri; mret response)) as Hw.
  { intros m Hm. eapply settles_bind; [exact Hm|]. intros r Hr.
    eapply settles_bind; [apply settles_write|]. intros _ _. by apply settles_ret. }
  eapply settles_bind; [by apply (settles_get (fun _ => True))|]. intros conn _.
  destruct (bool_decide _); [apply Hw, settles_refuse|]. destruct (_ && _); [apply Hw, settles_refuse|].
  eapply settles_bind; [apply settles_allow|]. intros allowed _.
  destruct (negb _); [apply settles_refuse_audited, settles_refuse|].
  eapply (settles_bind (fun _ => True)); [by apply settles_try|]. intros _ _.
  destruct (validate_command _ c); [apply run_command_answers|apply settles_refuse_audited, settles_refuse].
Qed.

(** The server at the other end of a client; an error ends the connection. *)
Definition remote (ri : RequestInputs) (cid : Z) (peer : option string) (transport : CodecOptions) (request : Request)
    (conn : Conn) : Conn * outcome TransportError Response :=
  match handle_request uuid_to_string config audit_commands ri cid peer request conn with
  | (conn, Ok response) => (conn, Ok response)
  | (conn, Err (Raised _)) => (conn, fail TrnUnexpectedEof)
  | (conn, Err _) => (conn, panic)
  end.

End connection.
