(* ===== verification/Samples.v ===== *)
(** * Samples: the interfaces can be implemented

    A model of each class that stands for third-party code or for a component
    behind an interface: an in-memory log, a toy checksum and cipher, and an
    encoding of any countable type as bytes.  Concrete runs of the development
    use them. *)

From S2P Require Import Prelude Text Command EngineError Store State Wildcard Engine Crypto Wal.
From S2P Require Import Storage Backup Wire Opcode Request Response Frame.

(** ** A log in memory *)

#[export] Instance memory_log : WalWriter (list WalEntry) := {|
  wal_append_batch w es := (w ++ es, Ok tt);
  wal_durable w := w;
  wal_accepts _ _ := True;
  wal_append_durable w es w' _ H := eq_sym (f_equal fst H);
|}.

Definition sample_checksum : EntryChecksum :=
  fun entry => Ok (we_sequence entry mod 2 ^ 32).

(** ** Primitives *)

Fixpoint sum_bytes (bs : list byte) : Z :=
  match bs with
  | [] => 0
  | b :: bs => bval b + sum_bytes bs
  end.

#[export] Instance sample_crc32 : Crc32.
Proof.
  refine {| crc32 bs := sum_bytes bs mod 2 ^ 32 |}.
  intros bs. pose proof (Z.mod_pos_bound (sum_bytes bs) (2 ^ 32) ltac:(lia)). unfold_widths. lia.
Defined.

(** A cipher that prefixes the key. *)
#[export] Instance sample_crypto : CryptoLib.
Proof.
  refine {|
    hash_password_into secret salt := Some (as_bytes secret ++ salt);
    aead_encrypt key nonce aad msg := Some (key ++ msg);
    aead_decrypt key nonce aad ciphertext :=
      if bool_decide (take (length key) ciphertext = key)
      then Some (drop (length key) ciphertext) else None;
  |}.
  intros key nonce aad msg ct [= <-].
  rewrite take_app_exact, bool_decide_eq_true_2, drop_app_exact by done. done.
Defined.

#[export] Instance sample_nonces : NonceSource.
Proof. refine {| nonce_for _ := replicate NONCE_LEN x00 |}. done. Defined.

(** ** Encodings *)

Fixpoint pos_bytes (p : positive) : list byte :=
  match p with
  | xI p => x01 :: pos_bytes p
  | xO p => x00 :: pos_bytes p
  | xH => [x02]
  end.

Fixpoint bytes_pos (bs : list byte) : option positive :=
  match bs with
  | x00 :: bs => xO <$> bytes_pos bs
  | x01 :: bs => xI <$> bytes_pos bs
  | [x02] => Some xH
  | _ => None
  end.

Lemma bytes_pos_bytes p : bytes_pos (pos_bytes p) = Some p.
Proof. induction p; cbn; by rewrite ?IHp. Qed.

Definition countable_decode {A} `{Countable A} (bs : list byte) : result string A :=
  ok_or (bytes_pos bs ≫= decode) "invalid encoding"%string.

Lemma countable_round_trip {A} `{Countable A} (a : A) bs :
  Ok (pos_bytes (encode a)) = Ok (E := string) bs -> countable_decode bs = Ok a.
Proof.
  intros [= <-]. unfold countable_decode. rewrite bytes_pos_bytes. cbn. by rewrite decode_encode.
Qed.

Definition sample_binary {A} `{Countable A} : Binary A := {|
  binary_encode a := Ok (pos_bytes (encode a));
  binary_decode := countable_decode;
  binary_decode_encode := countable_round_trip;
|}.

#[export] Instance StoredValue_countable : Countable StoredValue.
Proof.
  refine (inj_countable' (fun v => (sv_value v, sv_expires_at_ms v, sv_version v))
            (fun '(a, b, c) => mkStoredValue a b c) _). by intros [].
Defined.

#[export] Instance WalOperation_countable : Countable WalOperation.
Proof.
  refine (inj_countable'
    (fun op => match op with
               | WalSet k v ver => inl (inl (k, v, ver))
               | WalDelete k => inl (inr k)
               | WalExpire k t => inr (inl (inl (k, t)))
               | WalPersist k => inr (inl (inr k))
               | WalClear => inr (inr (inl tt))
               | WalCheckInteger k d => inr (inr (inr (k, d)))
               end)
    (fun x => match x with
              | inl (inl (k, v, ver)) => WalSet k v ver
              | inl (inr k) => WalDelete k
              | inr (inl (inl (k, t))) => WalExpire k t
              | inr (inl (inr k)) => WalPersist k
              | inr (inr (inl _)) => WalClear
              | inr (inr (inr (k, d))) => WalCheckInteger k d
              end) _). by intros [].
Defined.

#[export] Instance WalEntry_countable : Countable WalEntry.
Proof.
  refine (inj_countable'
    (fun e => (we_sequence e, we_term e, we_created_at_ms e, we_operations e))
    (fun '(a, b, c, d) => mkWalEntry a b c d) _). by intros [].
Defined.

#[export] Instance sample_wal_binary : Binary WalEntry := sample_binary.

Lemma sample_encode_total (e : WalEntry) : is_ok (binary_encode e) = true.
Proof. done. Qed.

#[export] Instance EngineMetadata_eq_dec : EqDecision EngineMetadata.
Proof. solve_decision. Defined.
#[export] Instance EngineMetadata_countable : Countable EngineMetadata.
Proof.
  refine (inj_countable'
    (fun m => (md_version m, md_created_at_ms m, md_updated_at_ms m, md_last_snapshot_at_ms m,
               md_last_applied_sequence m))
    (fun '(a, b, c, d, e) => mkEngineMetadata a b c d e) _). by intros [].
Defined.

#[export] Instance Manifest_eq_dec : EqDecision Manifest.
Proof. solve_decision. Defined.
#[export] Instance Manifest_countable : Countable Manifest.
Proof.
  refine (inj_countable'
    (fun m => (mf_storage_format_version m, mf_engine_version m, mf_last_snapshot_sequence m,
               mf_last_snapshot_at_ms m, mf_snapshot_size_bytes m, mf_snapshot_checksum m,
               mf_active_wal_start_sequence m, mf_oldest_retained_sequence m))
    (fun '(a, b, c, d, e, f, g, h) => mkManifest a b c d e f g h) _). by intros [].
Defined.

#[export] Instance sample_manifest_binary : Binary Manifest := sample_binary.

#[export] Instance StoredKey_eq_dec : EqDecision StoredKey.
Proof. solve_decision. Defined.
#[export] Instance StoredKey_countable : Countable StoredKey.
Proof.
  refine (inj_countable' (fun k => (stk_id k, stk_secret k, stk_created_at_ms k))
            (fun '(a, b, c) => mkStoredKey a b c) _). by intros [].
Defined.

#[export] Instance StoredKeyring_eq_dec : EqDecision StoredKeyring.
Proof. solve_decision. Defined.
#[export] Instance StoredKeyring_countable : Countable StoredKeyring.
Proof.
  refine (inj_countable' (fun k => (skr_active k, skr_previous k))
            (fun '(a, b) => mkStoredKeyring a b) _). by intros [].
Defined.

#[export] Instance sample_keyring_binary : Binary StoredKeyring := sample_binary.

#[export] Instance sample_snapshot_codec : SnapshotCodec.
Proof.
  refine {|
    encode_persisted p := Ok (pos_bytes (encode (pe_data p, pe_metadata p)));
    decode_wire bs :=
      match countable_decode bs with
      | Ok (data, metadata) => Ok (WireV3 data metadata)
      | Err e => Err e
      end;
  |}.
  intros p bs Hb. by rewrite (countable_round_trip _ _ Hb).
Defined.

(** ** Compression *)

#[export] Instance sample_zstd : Zstd.
Proof.
  refine {| zstd_compress bs := Some (x28 :: bs);
            zstd_decode c := match c with x28 :: bs => Some (bs, true) | _ => None end |}.
  by intros bs c [= <-].
Defined.

(** ** Backup documents *)

(** A countable document as text. *)
Definition countable_text {A} `{Countable A} (a : A) : string := of_bytes (pos_bytes (encode a)).

Lemma countable_text_round_trip {A} `{Countable A} (a : A) :
  countable_decode (as_bytes (countable_text a)) = Ok a.
Proof. unfold countable_text. rewrite as_bytes_of_bytes. by apply countable_round_trip. Qed.

#[export] Instance sample_base64 : Base64 := {|
  base64_encode := countable_text;
  base64_decode := countable_decode;
  base64_decode_encode := countable_text_round_trip;
|}.

#[export] Instance LogicalBackupEntry_eq_dec : EqDecision LogicalBackupEntry.
Proof. solve_decision. Defined.
#[export] Instance LogicalBackupEntry_countable : Countable LogicalBackupEntry.
Proof.
  refine (inj_countable' (fun e => (be_key e, be_value_base64 e, be_expires_at_ms e, be_version e))
            (fun '(a, b, c, d) => mkLogicalBackupEntry a b c d) _). by intros [].
Defined.

#[export] Instance LogicalBackup_eq_dec : EqDecision LogicalBackup.
Proof. solve_decision. Defined.
#[export] Instance LogicalBackup_countable : Countable LogicalBackup.
Proof.
  refine (inj_countable'
    (fun b => (lb_version b, lb_created_at_ms b, lb_source_engine_version b, lb_source_sequence b,
               lb_entries b))
    (fun '(a, b, c, d, e) => mkLogicalBackup a b c d e) _). by intros [].
Defined.

#[export] Instance sample_backup_json : BackupJson.
Proof.
  refine {|
    backup_to_string b := Ok (countable_text b);
    header_from_str s := lb_version <$> countable_decode (as_bytes s);
    backup_from_str s := countable_decode (as_bytes s);
    legacy_from_str _ := Err "not a version 1 backup"%string;
  |}.
  - intros b s [= <-]. by rewrite countable_text_round_trip.
  - intros b s [= <-]. apply countable_text_round_trip.
Defined.

(** ** An engine to run *)

Definition sample_metadata (sequence : Z) : EngineMetadata := mkEngineMetadata 3 0 0 None sequence.

(** Two counters without a deadline and a session that expires at 500. *)
Definition sample_state : EngineState :=
  mkEngineState
    (<["a"%string := mkStoredValue (as_bytes "1") None 4]>
       (<["b"%string := mkStoredValue (as_bytes "x") None 1]>
          (<["s"%string := mkStoredValue (as_bytes "t") (Some 500) 2]> ∅)))
    (sample_metadata 7).

Definition sample_engine (st : EngineState) : Engine (list WalEntry) := mkEngine st [] [] ∅ 1.
