(* ===== verification/Runs.v ===== *)
(** * Runs: concrete histories

    An engine on an empty directory of the sample interfaces, two transactions
    and a snapshot. *)

From S2P Require Import Prelude Text Command EngineError Store State Crypto Wal WalFacts.
From S2P Require Import WalLayout Engine Transaction TxFacts BatchFacts StorageFacts History.
From S2P Require Import Replication ReplicaFacts DiskLog Recovery Storage DiskEngine.
From S2P Require Import SnapshotFacts ReplicaDisk Samples.

Definition empty_disk : Disk := mkDisk ∅ None None None None None.
Definition sample_options : EngineOptions := mkEngineOptions Flush None 64 3.

(** Every clock reading of a snapshot at [ms]. *)
Definition inputs_at (ms : Z) : SnapshotInputs :=
  mkSnapshotInputs ms ms ms ms ms (replicate KEY_ID_LEN x01) [x02] (replicate NONCE_LEN x00).

Definition reopened (ms : Z) (d : Disk) : result EngineError DiskEngine :=
  from_paths_with_options ms ms ms d sample_options.

(** The engine after [m], whose result is checked where the run is used. *)
Definition after {A} (m : fallible DiskEngine EngineError A) (de : DiskEngine) : DiskEngine := (m de).1.

Definition unwrap {A} (default : A) (r : result EngineError A) : A :=
  match r with Ok a => a | Err _ => default end.

Definition blank_engine : DiskEngine :=
  mkDiskEngine (mkEngine (EngineState.new 0)
    (mkDiskLog (DiskWriter.open empty_disk Flush 64 1) None) [] ∅ 0) 3 0 0 None.

(** [fits] as a computation, for concrete entries. *)
Definition fitting (keyring : option StorageKeyring) (e : WalEntry) : bool :=
  match encode_frame keyring (nonce_for e) e with
  | Ok bs => (0 <? Z.of_nat (length bs)) && (Z.of_nat (length bs) <=? MAX_WAL_ENTRY_SIZE)
  | Err _ => false
  end.

Lemma fitting_fits keyring es : forallb (fitting keyring) es = true -> Forall (fits keyring) es.
Proof.
  rewrite forallb_forall, Forall_forall. intros Hf e He. apply list_elem_of_In in He.
  specialize (Hf e He). unfold fitting in Hf. destruct (encode_frame _ _ _) as [bs|] eqn:E; [|done].
  apply andb_prop in Hf as [Hl1 Hl2]. apply Z.ltb_lt in Hl1. apply Z.leb_le in Hl2. by exists bs.
Qed.

Definition value_of (key : string) (de : DiskEngine) : option string :=
  of_bytes <$> EngineState.raw_value (de_state de) key.

Definition run1 : DiskEngine := unwrap blank_engine (reopened 0 empty_disk).
Definition set_a : list Command :=
  [CmdSet "a" (as_bytes "1") SetOptions_default; CmdExpire "a" 100].
Definition write_a : fallible (Engine DiskLog) EngineError (list TransactionResult) :=
  Transaction.execute_transaction 5 6 set_a.
Definition run2 : DiskEngine := with_core run1 (write_a (de_core run1)).1.
Definition set_b : list Command := [CmdSet "b" (as_bytes "2") SetOptions_default; CmdDelete ["a"%string]].
Definition write_b : fallible (Engine DiskLog) EngineError (list TransactionResult) :=
  Transaction.execute_transaction 7 8 set_b.
Definition run2b : DiskEngine := with_core run2 (write_b (de_core run2)).1.
Definition run3 : DiskEngine := after (snapshot (inputs_at 10)) run2.

Lemma run1_history : history 0 run1.
Proof.
  by apply (HistOpen empty_disk sample_options 0 0 0).
Qed.

(** A committed transaction without counters extends a history. *)
Lemma transaction_history now now' entry_ms cmds results de entry :
  let run := Transaction.execute_transaction now' entry_ms cmds (de_core de) in
  history now de -> now <= now' -> 0 <= now' < u64_max -> Forall command_typed cmds ->
  run.2 = Ok results -> en_wal_entries run.1 = en_wal_entries (de_core de) ++ [entry] ->
  last_sequence (en_state run.1) < u64_max -> fits (de_keyring de) entry ->
  counter_keys (we_operations entry) = [] ->
  history now' (with_core de run.1).
Proof.
  intros run Hh Hle Hnow Hty Hr Hlog Hb Hfit Hc. eapply HistStep; try done.
  - apply (StepTransaction _ _ _ entry_ms cmds results); [done|].
    rewrite <- Hr. apply surjective_pairing.
  - intros entries He. rewrite Hlog in He. apply app_inv_head in He as <-.
    split; [by constructor|]. intros ms base r k _ _ Hk. 
    change (log_ops [entry]) with (we_operations entry ++ []) in Hk. rewrite app_nil_r, Hc in Hk. by apply elem_of_nil in Hk.
Qed.

Definition entry_of (eng : Engine DiskLog) : WalEntry :=
  default (mkWalEntry 0 0 0 []) (last (en_wal_entries eng)).

Lemma run2_history : history 5 run2.
Proof.
  apply (transaction_history 0 5 6 set_a [TrOk; TrBoolean true] run1
           (entry_of (write_a (de_core run1)).1)).
  - apply run1_history.
  - lia.
  - unfold_widths. lia.
  - repeat constructor; done.
  - vm_compute. reflexivity.
  - vm_compute. reflexivity.
  - vm_compute. reflexivity.
  - eexists. split; [vm_compute; reflexivity|]. split; vm_compute; congruence.
  - vm_compute. reflexivity.
Qed.

Lemma run2b_history : history 7 run2b.
Proof.
  apply (transaction_history 5 7 8 set_b [TrOk; TrCount 1] run2
           (entry_of (write_b (de_core run2)).1)).
  - apply run2_history.
  - lia.
  - unfold_widths. lia.
  - repeat constructor; done.
  - vm_compute. reflexivity.
  - vm_compute. reflexivity.
  - vm_compute. reflexivity.
  - eexists. split; [vm_compute; reflexivity|]. split; vm_compute; congruence.
  - vm_compute. reflexivity.
Qed.

Lemma run3_history : history 10 run3.
Proof.
  assert (Ok tt = (snapshot (inputs_at 10) run2).2) as Hr by (vm_compute; reflexivity).
  apply (HistSnapshot 5 (inputs_at 10) run2); [apply run2_history| |].
  - etrans; [apply surjective_pairing|]. by rewrite <- Hr.
  - assert (de_keyring run2 = None) as K2 by (vm_compute; reflexivity).
    assert (de_keyring run3 = None) as K3 by (vm_compute; reflexivity).
    split; [cbn; lia|by rewrite K2|intros ? _; by rewrite K3|vm_compute; reflexivity].
Qed.
