(* ===== verification/NodeFacts.v ===== *)
(** * NodeFacts: what the replication handlers do to the log

    Facts about [Node] for any engine behind [EngineHandleLaws]: which parts of a
    node a handler leaves alone, how the entries of a request end up in the log, and
    how far the read index goes. *)

From S2P Require Import Prelude Text Command Wire Request Response EngineError Store State.
From S2P Require Import ServerError ReadIndex Consensus Elections ElectionFacts WalFacts.
From S2P Require Import WalLayout Engine Transaction Replication History ReplicaFacts DiskLog.
From S2P Require Import Storage DiskEngine EngineWorker Node WritePath Recovery SnapshotFacts.
From S2P Require Import ReplicaDisk DiskHandle.
Import ReplicationRuntime.

Section facts.
Context {E : Type} `{EngineHandle E} `{EntryChecksum} `{!EngineHandleLaws E} `{ReplicationJson}.

(** ** Parts of a node *)

Lemma mapM_ok {Err A B} (f : A -> result Err B) l l' :
  mapM f l = Ok l' -> Forall2 (fun x y => f x = Ok y) l l'.
Proof.
  revert l'. induction l as [|x l IH]; intros l' Hm; cbn in Hm; [by injection Hm as <-|].
  apply result_bind_ok in Hm as (y & Hy & (ys & Hys & [= <-])%result_bind_ok). auto.
Qed.


Lemma bind_run {S Er A B} (m : fallible S Er A) (k : A -> fallible S Er B) s s' a :
  m s = (s', Ok a) -> (m ≫= k) s = k a s'.
Proof. intros Hm. unfold mbind, fallible_bind. by rewrite Hm. Qed.

Lemma on_engine_ok {A} (m : fallible E EngineError A) (node node' : Node E) a :
  on_engine m node = (node', Ok a) <->
  exists e, m (nd_engine node) = (e, Ok a) /\ node' = mkNode e (nd_runtime node) (nd_index node).
Proof.
  unfold on_engine. destruct (m (nd_engine node)) as [e [x|err]]; cbn; split.
  - intros [= <- <-]. by exists e.
  - intros (e' & [= <- <-] & ->). done.
  - done.
  - by intros (e' & ? & _).
Qed.

Lemma on_runtime_parts {A} (m : fallible ReplicationRuntime ServerError A) (node node' : Node E) r :
  on_runtime m node = (node', r) -> nd_engine node' = nd_engine node /\ nd_index node' = nd_index node.
Proof. unfold on_runtime. destruct (m (nd_runtime node)). by intros [= <- _]. Qed.

Lemma with_runtime_run f (node : Node E) :
  with_runtime f node = (mkNode (nd_engine node) (f (nd_runtime node)) (nd_index node), Ok tt).
Proof. done. Qed.

Lemma advance_loop_parts fuel target (node node' : Node E) r :
  advance_loop fuel target node = (node', r) ->
  nd_engine node' = nd_engine node /\ nd_runtime node' = nd_runtime node.
Proof.
  revert node. induction fuel as [|fuel IH]; intros node;
    cbn [advance_loop]; unfold mbind, fallible_bind, mget;
    cbn -[CommittedReadIndex.apply_entries].
  { destruct (_ <=? _); by intros [= <- _]. }
  destruct (_ <=? _); [by intros [= <- _]|]. unfold mpure.
  destruct (eh_wal_entries_since _ _ _) as [[|e es]|err];
    cbn -[CommittedReadIndex.apply_entries]; [by intros [= <- _]| |by intros [= <- _]].
  unfold on_index. destruct (CommittedReadIndex.apply_entries (e :: es) (nd_index node)) as [index [u|err]]; [|by intros [= <- _]].
  intros Hl%IH. done.
Qed.

Lemma finish_append_log payload target applied term (node node' : Node E) response :
  finish_append payload target applied term node = (node', Ok response) ->
  nd_engine node' = nd_engine node /\ response = mkAppendEntriesResponse term true applied.
Proof.
  unfold finish_append. intros (n1 & [] & [= <-] & Hx)%fallible_bind_ok.
  apply fallible_bind_ok in Hx as (? & [] & [= <-] & Hx).
  apply fallible_bind_ok in Hx as (? & ? & [= <- <-] & Hx).
  apply fallible_bind_ok in Hx as (n2 & [] & Ha & Hx).
  apply fallible_bind_ok in Hx as (n3 & [] & Hp & Hx). injection Hx as <- <-.
  unfold advance_read_index_to in Ha. apply fallible_bind_ok in Ha as (? & ? & [= <- <-] & Ha).
  apply advance_loop_parts in Ha as [He _]. split; [|done]. cbn in He. rewrite <- He.
  destruct (target <=? applied); by injection Hp as <-.
Qed.

(** ** Merging entries *)

(** The local entry at the place of [entry] is the same one. *)
Definition same_entry (log : list WalEntry) (entry : WalEntry) : Prop :=
  is_Some (entry_identity entry) /\
  entry_at (we_sequence entry) log ≫= entry_identity = entry_identity entry.

Lemma find_overlap_spec e current p entries o :
  eh_ok e -> 0 <= p -> p + Z.of_nat (length entries) <= u64_max ->
  contiguous (p + 1) entries -> find_overlap e current p entries = Ok o ->
  exists k : nat, (k <= length entries)%nat /\ Forall (same_entry (eh_log e)) (take k entries) /\
    p + Z.of_nat k <= Z.max p current /\
    match o with
    | inl prefix => prefix = p + Z.of_nat k /\ prefix < current /\ (k < length entries)%nat
    | inr m => m = p + Z.of_nat k /\ ((k < length entries)%nat -> current <= m)
    end.
Proof.
  intros Hok. revert p. induction entries as [|x entries IH]; intros p Hp Hb Hc Ho; cbn in Ho.
  { injection Ho as <-. exists 0%nat. cbn. split_and!; [lia|constructor|lia|lia|lia]. }
  apply contiguous_cons in Hc as [Hx Hc]. cbn [length] in Hb.
  destruct (Z.ltb_spec current (we_sequence x)) as [Hlt|Hge].
  { injection Ho as <-. exists 0%nat. cbn. split_and!; [lia|constructor|lia|lia|lia]. }
  apply result_bind_ok in Ho as (sum & Hsum & Ho).
  rewrite (eh_term_law _ _ Hok), (eh_checksum_law _ _ Hok) in Ho.
  assert (entry_identity x = Some (mkWalEntryIdentity (we_term x) sum)) as Hid
    by (unfold entry_identity, wal_entry_identity; by rewrite Hsum).
  destruct (entry_at (we_sequence x) (eh_log e) ≫= entry_identity) as [[t c]|] eqn:Eat; cbn in Ho;
    repeat case_bool_decide; cbn in Ho; simplify_eq.
  1: destruct (IH (we_sequence x)) as (k & Hk & Hs & Hmax & Hcase); [lia|lia|by rewrite Hx|done|].
  1: exists (S k); cbn [take length]; split_and!; [lia| |lia|].
  1: constructor; [split; [by rewrite Hid|congruence]|done].
  1: destruct o; rewrite Hx in Hcase; [destruct Hcase as (-> & ? & ?)|destruct Hcase as [-> ?]];
    split_and?; lia.
  all: exists 0%nat; cbn; unfold saturating_sub; split_and!; [lia|constructor|lia..].
Qed.

(** [log'] is [log] up to [prev] and the entries behind it. *)
Definition merged (prev : Z) (entries log log' : list WalEntry) : Prop :=
  (forall s, s <= prev -> entry_at s log' = entry_at s log) /\
  (forall s, prev < s -> entry_at s log' ≫= entry_identity = entry_at s entries ≫= entry_identity).

Lemma entry_at_filter f s log :
  entry_at s (List.filter (fun e => f (we_sequence e)) log) = if f s then entry_at s log else None.
Proof.
  induction log as [|e log IH]; [by destruct (f s)|]. cbn [List.filter]. rewrite entry_at_cons.
  destruct (Z.eqb_spec (we_sequence e) s) as [<-|Hne].
  - destruct (f (we_sequence e)) eqn:Hf; [by rewrite entry_at_cons, Z.eqb_refl|done].
  - destruct (f (we_sequence e)); [|done]. by rewrite entry_at_cons, (proj2 (Z.eqb_neq _ _)).
Qed.

Lemma entry_at_upto m s log : entry_at s (upto m log) = if s <=? m then entry_at s log else None.
Proof. apply (entry_at_filter (fun x => x <=? m)). Qed.

Lemma entry_at_after m s log : entry_at s (after m log) = if m <? s then entry_at s log else None.
Proof. apply (entry_at_filter (fun x => m <? x)). Qed.

Lemma merged_cut prev k entries log :
  contiguous (prev + 1) entries -> (k <= length entries)%nat ->
  Forall (same_entry log) (take k entries) ->
  merged prev entries log (upto (prev + Z.of_nat k) log ++ after (prev + Z.of_nat k) entries).
Proof.
  intros Hc Hk Hs. split; intros s Hp; rewrite entry_at_app, entry_at_upto, entry_at_after.
  - rewrite (proj2 (Z.leb_le _ _)), (proj2 (Z.ltb_ge _ _)) by lia. by destruct (entry_at s log).
  - destruct (Z.leb_spec s (prev + Z.of_nat k)) as [Hle|Hgt].
    + rewrite (proj2 (Z.ltb_ge _ _)) by lia.
      rewrite (entry_at_lookup _ _ _ Hc) by lia. set (i := Z.to_nat (s - (prev + 1))).
      destruct (lookup_lt_is_Some_2 entries i) as [x Hx]; [lia|]. rewrite Hx.
      assert (take k entries !! i = Some x) as Hi by (rewrite lookup_take_lt by lia; done).
      rewrite Forall_forall in Hs. destruct (Hs x) as [_ Hsame]; [by eapply list_elem_of_lookup_2|].
      assert (we_sequence x = s) as Hseq.
      { unfold contiguous in Hc. apply (f_equal (fun l => l !! i)) in Hc.
        rewrite list_lookup_fmap, Hx, lookup_seqZ_lt in Hc by lia. injection Hc as ->. lia. }
      rewrite Hseq in Hsame. cbn. rewrite <- Hsame. by destruct (entry_at s log).
    + by rewrite (proj2 (Z.ltb_lt _ _)) by lia.
Qed.

Lemma skip_below_after n m entries :
  contiguous n entries -> skip_below (m + 1) entries = after m entries.
Proof.
  revert n. induction entries as [|e entries IH]; intros n Hc; [done|].
  apply contiguous_cons in Hc as [He Hc]. cbn.
  destruct (Z.ltb_spec (we_sequence e) (m + 1)), (Z.ltb_spec m (we_sequence e)); try lia.
  - by apply (IH (n + 1)).
  - f_equal. symmetry. apply filter_all. intros x Hx%(contiguous_ge _ _ _ Hc). lia.
Qed.

Lemma after_drop prev k entries :
  contiguous (prev + 1) entries -> after (prev + Z.of_nat k) entries = drop k entries.
Proof.
  intros Hc. unfold after. rewrite (filter_after (prev + 1)) by (done || lia).
  f_equal. lia.
Qed.

Lemma upto_all (e : E) m : eh_ok e -> last_sequence (eh_state e) <= m -> upto m (eh_log e) = eh_log e.
Proof.
  intros (n & _ & Hc & Hl)%eh_ok_log Hm. unfold upto. rewrite (filter_upto n) by done.
  apply take_ge. lia.
Qed.

Lemma contiguous_after prev k entries :
  contiguous (prev + 1) entries -> (k <= length entries)%nat ->
  contiguous (prev + Z.of_nat k + 1) (after (prev + Z.of_nat k) entries).
Proof.
  intros Hc Hk. rewrite after_drop by done. pose proof (contiguous_drop _ _ k Hc) as Hd.
  rewrite Nat.min_l in Hd by done. by replace (prev + Z.of_nat k + 1) with (prev + 1 + Z.of_nat k) by lia.
Qed.

Lemma after_length prev k entries :
  contiguous (prev + 1) entries ->
  length (after (prev + Z.of_nat k) entries) = (length entries - k)%nat.
Proof. intros Hc. by rewrite after_drop, length_drop. Qed.

(** The log of [e'] is the one of [e] with the entries merged, and it ends there. *)
Definition took (prev : Z) (entries : list WalEntry) (e e' : E) (applied : Z) : Prop :=
  eh_ok e' /\ applied = last_sequence (eh_state e') /\ applied = prev + Z.of_nat (length entries) /\
  merged prev entries (eh_log e) (eh_log e').

Lemma replace_took ms prev k entries e e' applied :
  eh_ok e -> 0 <= prev -> prev + 1 + Z.of_nat (length entries) <= u64_max ->
  contiguous (prev + 1) entries -> (k <= length entries)%nat ->
  Forall (same_entry (eh_log e)) (take k entries) ->
  eh_replace_replication_suffix ms (prev + Z.of_nat k) (after (prev + Z.of_nat k) entries) e =
    (e', Ok applied) ->
  took prev entries e e' applied.
Proof.
  intros Hok Hp Hb Hc Hk Hs He. pose proof (after_length prev k entries Hc) as Hlen.
  apply eh_replace_law in He as (Hok' & Hl & Ha & Ha'); [|done|lia|lia|by apply contiguous_after].
  split_and!; [done|done|lia|]. rewrite Hl. by apply merged_cut.
Qed.

(** A merge that succeeds. *)
Lemma merge_entries_spec ms prev entries (node node' : Node E) applied :
  eh_ok (nd_engine node) -> 0 <= prev -> prev + 1 + Z.of_nat (length entries) <= u64_max ->
  contiguous (prev + 1) entries -> entries <> [] ->
  merge_entries ms (engine_sequence node) prev entries node = (node', Ok applied) ->
  took prev entries (nd_engine node) (nd_engine node') applied.
Proof.
  destruct node as [e rt index]. unfold engine_sequence. cbn [nd_engine].
  intros Hok Hp Hb Hc Hne (? & ? & [= <- <-] & Hx)%fallible_bind_ok. cbn [nd_engine] in Hx.
  remember (last_sequence (eh_state e)) as current eqn:Ecur.
  apply fallible_bind_ok in Hx as (? & o & Ho & Hx). unfold mpure in Ho. injection Ho as <- Ho.
  destruct (find_overlap e current prev entries) as [o'|] eqn:Ef; [|done]. injection Ho as ->.
  apply find_overlap_spec in Ef as (k & Hk & Hs & Hmax & Ho); [|done|done|lia|done].
  pose proof (replace_took ms prev k entries e) as Hreplace.
  pose proof (after_length prev k entries Hc) as Hlen.
  destruct o as [prefix|m].
  { destruct Ho as (-> & _ & _). apply on_engine_ok in Hx as (e' & He & ->). by apply Hreplace. }
  destruct Ho as (-> & Hcur).
  assert (saturating_add (prev + Z.of_nat k) 1 = prev + Z.of_nat k + 1) as Hsat
    by (unfold saturating_add; lia).
  rewrite Hsat, (skip_below_after _ _ _ Hc) in Hx.
  pose proof (merged_cut prev k entries (eh_log e) Hc Hk Hs) as Hm.
  destruct (after (prev + Z.of_nat k) entries) as [|first rest] eqn:Ea.
  - cbn in Hlen. assert (k = length entries /\ (0 < length entries)%nat) as [-> Hpos].
    { split; [lia|]. destruct entries; cbn; [done|lia]. }
    destruct (Z.ltb_spec (prev + Z.of_nat (length entries)) current) as [Hlt|Hge].
    + apply on_engine_ok in Hx as (e' & He & ->). by apply Hreplace.
    + injection Hx as <- <-. rewrite app_nil_r, upto_all in Hm by (done || lia).
      split_and!; [done|cbn [nd_engine]; lia|lia|done].
  - pose proof (contiguous_after prev k entries Hc Hk) as Hca. rewrite Ea in Hca.
    apply contiguous_cons in Hca as [Hf _]. rewrite Hf in Hx.
    specialize (Hcur ltac:(cbn in Hlen; lia)).
    assert (saturating_add current 1 = current + 1) as Hsc by (unfold saturating_add; lia).
    rewrite Hsc in Hx.
    destruct (Z.eqb_spec (current + 1) (prev + Z.of_nat k + 1)) as [Heq|Hneq]; cbn [negb] in Hx;
      apply on_engine_ok in Hx as (e' & He & ->).
    + apply eh_apply_law in He as (Hok' & Hl & _ & Ha & Ha'); [|done|rewrite Hlen; cbn; lia].
      cbn [nd_engine] in *. rewrite upto_all, <- Hl in Hm by (done || lia). rewrite Hlen in Ha'.
      split_and!; [done|done|lia|done].
    + apply Hreplace; try done. rewrite <- Ea in He. unfold replacement_entries_after in He.
      rewrite filter_all in He; [by rewrite Ea in He|].
      intros x [_ Hx]%list_elem_of_In%filter_In. done.
Qed.

(** ** Append requests *)

(** The entries of a request follow its position. *)
Definition well_formed (payload : AppendEntriesRequest) : Prop :=
  0 <= aq_prev_sequence payload /\
  aq_prev_sequence payload + 1 + Z.of_nat (length (aq_entries payload)) <= u64_max /\
  contiguous (aq_prev_sequence payload + 1) (aq_entries payload).

(** The local entry at the position of a request is the one the leader names. *)
Definition prev_matches (payload : AppendEntriesRequest) (log : list WalEntry) : Prop :=
  wi_term <$> (entry_at (aq_prev_sequence payload) log ≫= entry_identity) = aq_prev_term payload /\
  wi_checksum <$> (entry_at (aq_prev_sequence payload) log ≫= entry_identity) =
    aq_prev_entry_checksum payload.

Lemma took_nothing prev e :
  eh_ok e -> last_sequence (eh_state e) = prev -> took prev [] e e prev.
Proof.
  intros Hok <-. split_and!; [done|done|cbn; lia|]. split; [done|]. intros s Hs.
  destruct (eh_ok_log _ Hok) as (n & _ & Hc & Hl).
  destruct (entry_at s (eh_log e)) as [x|] eqn:Es; [|done].
  apply (entry_at_bounds _ _ _ _ Hc) in Es. lia.
Qed.

Lemma append_entries_spec ms payload term (node node' : Node E) response :
  eh_ok (nd_engine node) -> well_formed payload ->
  append_entries ms payload term node = (node', Ok response) ->
  if ap_accepted response then
    took (aq_prev_sequence payload) (aq_entries payload) (nd_engine node) (nd_engine node')
      (ap_match_sequence response) /\ prev_matches payload (eh_log (nd_engine node))
  else nd_engine node' = nd_engine node.
Proof.
  intros Hok (Hp & Hb & Hc) (? & ? & [= <- <-] & Hx)%fallible_bind_ok.
  apply fallible_bind_ok in Hx as (n1 & [] & [= <-] & Hx).
  apply fallible_bind_ok in Hx as (n2 & [] & Hph & Hx).
  assert (nd_engine n2 = nd_engine node) as He2 by (destruct (_ <? _) in Hph; by injection Hph as <-).
  rewrite (eh_term_law _ _ Hok), (eh_checksum_law _ _ Hok) in Hx.
  destruct (negb _ || negb _) eqn:Em; [by injection Hx as <- <-|].
  apply orb_false_iff in Em as [Hpt%negb_false_iff%bool_decide_eq_true Hpc%negb_false_iff%bool_decide_eq_true].
  destruct (aq_entries payload) as [|x xs] eqn:Ent.
  - destruct (Z.ltb_spec (engine_sequence node) (aq_prev_sequence payload)) as [|Hge]; [by injection Hx as <- <-|].
    apply fallible_bind_ok in Hx as (n3 & applied & Hr & Hx).
    apply finish_append_log in Hx as [He ->]. cbn. rewrite He. split; [|done].
    destruct (Z.ltb_spec (aq_prev_sequence payload) (engine_sequence node)) as [Hlt|Hle].
    + apply on_engine_ok in Hr as (e' & Hr & ->). cbn [nd_engine]. rewrite He2 in Hr.
      apply (replace_took ms (aq_prev_sequence payload) 0); try done. by rewrite Z.add_0_r.
    + injection Hr as <- <-. rewrite He2. unfold engine_sequence in *.
      replace (last_sequence _) with (aq_prev_sequence payload) by lia. apply took_nothing; [done|lia].
  - apply fallible_bind_ok in Hx as (n3 & applied & Hr & Hx).
    apply finish_append_log in Hx as [He ->]. cbn [ap_accepted ap_match_sequence]. rewrite He. split; [|done].
    replace (engine_sequence node) with (engine_sequence n2) in Hr
      by (unfold engine_sequence; by rewrite He2).
    rewrite <- He2. by eapply merge_entries_spec; rewrite ?He2.
Qed.

(** Every outcome of an append request that is answered. *)
Lemma handle_append_spec env ms payload (node node' : Node E) response :
  eh_ok (nd_engine node) -> well_formed payload ->
  handle_append env ms payload node = (node', Ok response) ->
  if ap_accepted response then
    took (aq_prev_sequence payload) (aq_entries payload) (nd_engine node) (nd_engine node')
      (ap_match_sequence response) /\ prev_matches payload (eh_log (nd_engine node))
  else nd_engine node' = nd_engine node.
Proof.
  intros Hok Hw (? & ? & [= <- <-] & Hx)%fallible_bind_ok.
  destruct (aq_term payload <? _); [by injection Hx as <- <-|].
  apply fallible_bind_ok in Hx as (n1 & hb & Hhb & Hx). apply on_runtime_parts in Hhb as [He _].
  apply fallible_bind_ok in Hx as (? & ? & [= <- <-] & Hx).
  destruct (negb (hs_accepted hb)); [by injection Hx as <- <-|].
  rewrite <- He. apply append_entries_spec in Hx; [done|by rewrite He|done].
Qed.

(** ** What a leader sends *)

(** The entries of a request are those of the leader's log behind its position, and
    a position other than 0 is one of its entries. *)
Definition planned (e : E) (payload : AppendEntriesRequest) : Prop :=
  0 <= aq_prev_sequence payload /\
  (exists batch, aq_entries payload = take batch (after (aq_prev_sequence payload) (eh_log e))) /\
  prev_matches payload (eh_log e) /\
  (0 < aq_prev_sequence payload ->
   is_Some (entry_at (aq_prev_sequence payload) (eh_log e) ≫= entry_identity)).

Lemma find_reverse n log s :
  contiguous n log ->
  List.find (fun entry => we_sequence entry =? s) (reverse log) = entry_at s log.
Proof.
  intros Hc. assert (NoDup (we_sequence <$> log)) as Hnd by (rewrite Hc; apply NoDup_seqZ).
  clear Hc. induction log as [|e log IH]; [done|]. apply NoDup_cons in Hnd as [Hne Hnd].
  rewrite reverse_cons, entry_at_cons. fold (entry_at s (reverse log ++ [e])). rewrite entry_at_app.
  change (entry_at s (reverse log)) with (List.find (fun entry => we_sequence entry =? s) (reverse log)).
  rewrite IH by done. rewrite entry_at_cons. destruct (Z.eqb_spec (we_sequence e) s) as [<-|Hs].
  - destruct (entry_at (we_sequence e) log) as [x|] eqn:Ex; [|done].
    apply find_some in Ex as [Hx Heq]. exfalso. apply Hne. apply Z.eqb_eq in Heq. rewrite <- Heq.
    apply list_elem_of_fmap_2, list_elem_of_In, Hx.
  - by destruct (entry_at s log).
Qed.

Lemma after_after a b log : a <= b -> after b (after a log) = after b log.
Proof.
  intros Hab. unfold after. induction log as [|e log IH]; [done|]. cbn.
  destruct (Z.ltb_spec a (we_sequence e)); cbn; [by rewrite IH|].
  rewrite IH. by rewrite (proj2 (Z.ltb_ge _ _)) by lia.
Qed.

Lemma after_contiguous n c log : contiguous n log -> exists m, contiguous m (after c log).
Proof.
  intros Hc. unfold after. destruct (decide (n <= c + 1)).
  - rewrite (filter_after n) by done. eexists. by apply contiguous_drop.
  - exists n. rewrite filter_all; [done|]. intros x Hx%(contiguous_ge _ _ _ Hc). lia.
Qed.

Lemma plan_peer_spec now_ms (node : Node E) hb members c prev message :
  eh_ok (nd_engine node) -> 0 <= prev -> c <= prev -> (0 < prev -> c < prev) ->
  plan_peer now_ms node hb members (after c (eh_log (nd_engine node))) prev = Ok message ->
  match message with
  | SendAppend payload => aq_prev_sequence payload = prev /\ planned (nd_engine node) payload
  | SendSnapshot request => sq_snapshot request = eh_replication_snapshot now_ms (nd_engine node)
  end.
Proof.
  intros Hok Hp Hcp Hlt. destruct (eh_ok_log _ Hok) as (n & Hn & Hc & _).
  unfold plan_peer. fold (after prev (after c (eh_log (nd_engine node)))). rewrite after_after by done.
  destruct (Z.eqb_spec prev 0) as [->|Hne].
  - intros [= <-]. cbn. split; [done|]. unfold planned, prev_matches. cbn.
    rewrite (entry_at_below n) by done. split_and!; [done|by eexists|done|done|lia].
  - destruct (after_contiguous n c (eh_log (nd_engine node)) Hc) as [m Hm].
    rewrite (find_reverse _ _ _ Hm), entry_at_after, (proj2 (Z.ltb_lt _ _)) by (apply Hlt; lia).
    destruct (entry_at prev (eh_log (nd_engine node))) as [x|] eqn:Ex; [|by intros [= <-]].
    intros (sum & Hsum & Hr)%result_bind_ok. injection Hr as <-. cbn. split; [done|].
    unfold planned, prev_matches, entry_identity, wal_entry_identity. cbn. rewrite Ex. cbn.
    rewrite Hsum. cbn. split_and!; [done|by eexists|done|done|by eexists].
Qed.

Lemma minimum_le d l x : x ∈ l -> minimum d l <= x.
Proof.
  destruct l as [|y l]; [by intros ?%elem_of_nil|]. cbn.
  intros [->|Hx]%elem_of_cons.
  - clear. induction l; cbn; lia.
  - induction l as [|z l IH]; [by apply elem_of_nil in Hx|]. cbn.
    apply elem_of_cons in Hx as [->|Hx]; [lia|]. specialize (IH Hx). lia.
Qed.

Lemma take_after_all (e : E) c (limit : nat) :
  eh_ok e -> last_sequence (eh_state e) - c <= Z.of_nat limit ->
  match limit with O => after c (eh_log e) | _ => take limit (after c (eh_log e)) end
  = after c (eh_log e).
Proof.
  intros Hok Hl. destruct limit as [|limit]; [done|]. apply take_ge.
  destruct (eh_ok_log _ Hok) as (n & Hn & Hc & Hlast). unfold after.
  destruct (decide (n <= c + 1)).
  - rewrite (filter_after n), length_drop by done. lia.
  - rewrite filter_all; [lia|]. intros x Hx%(contiguous_ge _ _ _ Hc). lia.
Qed.

(** The runtime of a leader with the fields the fan-out depends on. *)
Definition same_lead (rt rt' : ReplicationRuntime) : Prop :=
  rr_config rt' = rr_config rt /\ role rt' = role rt /\ current_term rt' = current_term rt /\
  rp_members (rr_state rt') = rp_members (rr_state rt) /\
  rp_followers (rr_state rt') = rp_followers (rr_state rt).

Lemma published_same_lead s t c rt : same_lead rt (set_local_last_applied_state s t c rt).
Proof.
  destruct rt as [config [r] file].
  unfold same_lead, set_local_last_applied_state, update, role, current_term. cbn. by destruct r.
Qed.

Lemma activity_same_lead env rt : same_lead rt (note_leader_activity env rt).
Proof.
  destruct rt as [config [r] file].
  unfold same_lead, note_leader_activity, update, role, current_term. cbn. by case_bool_decide.
Qed.

Lemma same_lead_trans rt1 rt2 rt3 : same_lead rt1 rt2 -> same_lead rt2 rt3 -> same_lead rt1 rt3.
Proof. unfold same_lead. intros (? & ? & ? & ? & ?) (? & ? & ? & ? & ?). split_and!; congruence. Qed.

(** The peers of a leader and the position it keeps for each. *)
Definition peers (rt : ReplicationRuntime) : list ClusterMember :=
  List.filter (fun member => cm_voter member &&
    negb (bool_decide (cm_node_id member = rc_node_id (rr_config rt)))) (values_in_order (rp_members (rr_state rt))).
Definition peer_prev (rt : ReplicationRuntime) (member : ClusterMember) : Z :=
  saturating_sub (follower_next_sequence (cm_node_id member) rt) 1.

(** What the fan-out of a leader comes to: every peer gets its plan from one read of
    the log that goes back behind all their positions. *)
Lemma plan_appends_run env now_ms (node : Node E) :
  eh_ok (nd_engine node) -> 0 <= last_sequence (eh_state (nd_engine node)) <= u64_max ->
  role (nd_runtime node) = RoleLeader ->
  exists rt hb c,
    same_lead (nd_runtime node) rt /\ hb_term hb = current_term rt /\
    hb_leader_node_id hb = rc_node_id (rr_config rt) /\
    (forall member, member ∈ peers rt ->
       c <= peer_prev rt member /\ (0 < peer_prev rt member -> c < peer_prev rt member)) /\
    let node' := mkNode (nd_engine node) rt (nd_index node) in
    plan_appends env now_ms node =
      (node', from_engine (mapM (fun member =>
         message ← plan_peer now_ms node' hb (current_members rt) (after c (eh_log (nd_engine node)))
                     (peer_prev rt member);
         Ok (member, message)) (peers rt))).
Proof.
  intros Hok Hseq Hr. unfold plan_appends. rewrite (bind_run _ _ node node node) by done.
  rewrite (bool_decide_eq_true_2 _ Hr). cbn [negb].
  erewrite bind_run by (unfold publish_applied; rewrite (bind_run _ _ node node node) by done; apply with_runtime_run).
  set (rt1 := set_local_last_applied_state _ _ _ _).
  assert (same_lead (nd_runtime node) rt1) as Hs1 by apply published_same_lead. clearbody rt1.
  erewrite bind_run by done. cbn [nd_runtime nd_engine nd_index].
  assert (rp_role (rr_state rt1) = RoleLeader) as Hr1 by (destruct Hs1 as (_ & Hr1 & _); by rewrite <- Hr).
  unfold leader_heartbeat_payload. rewrite (bool_decide_eq_true_2 _ Hr1). cbn [negb].
  set (hb := mkHeartbeatRequest _ _ _ _ _ _).
  erewrite bind_run by apply with_runtime_run. erewrite bind_run by done. cbn [nd_runtime nd_engine nd_index].
  set (rt := note_leader_activity env rt1).
  assert (same_lead rt1 rt) as Hs2 by apply activity_same_lead. clearbody rt.
  destruct Hs2 as (Hc2 & Hr2 & Ht2 & Hm2 & Hf2).
  change (List.filter _ (hb_members hb)) with (peers rt1).
  assert (peers rt1 = peers rt) as -> by (unfold peers; by rewrite Hm2, Hc2).
  change (fun member => saturating_sub (follower_next_sequence (cm_node_id member) rt) 1) with (peer_prev rt).
  unfold engine_sequence. set (c := saturating_sub (minimum _ _) 1).
  assert (0 <= c) as Hc0 by (unfold c, saturating_sub; lia).
  exists rt, hb, c. split_and!.
  - eapply same_lead_trans; [exact Hs1|]. by split_and!.
  - by rewrite Ht2.
  - by rewrite Hc2.
  - intros member Hin.
    assert (minimum (last_sequence (eh_state (nd_engine node))) (peer_prev rt <$> peers rt) <= peer_prev rt member)
      as Hmin by by apply minimum_le, list_elem_of_fmap_2.
    unfold c. unfold peer_prev, saturating_sub in *. lia.
  - erewrite bind_run by (unfold mpure; rewrite (eh_since_law _ _ _ Hok), take_after_all;
      [done|done|unfold saturating_add, saturating_sub; lia]). done.
Qed.

Lemma plan_appends_spec env now_ms (node node' : Node E) plans member message :
  eh_ok (nd_engine node) -> 0 <= last_sequence (eh_state (nd_engine node)) <= u64_max ->
  plan_appends env now_ms node = (node', Ok plans) ->
  (member, message) ∈ plans ->
  match message with
  | SendAppend payload => planned (nd_engine node) payload
  | SendSnapshot request => sq_snapshot request = eh_replication_snapshot now_ms (nd_engine node)
  end.
Proof.
  intros Hok Hseq Hx Hin. destruct (decide (role (nd_runtime node) = RoleLeader)) as [Hr|Hr].
  - destruct (plan_appends_run env now_ms node Hok Hseq Hr) as (rt & hb & c & _ & _ & _ & Hc & Hrun).
    rewrite Hrun in Hx. injection Hx as <- Hx. destruct (mapM _ _) as [l|] eqn:Em; [|done]. injection Hx as ->.
    apply mapM_ok in Em. apply list_elem_of_lookup_1 in Hin as [i Hi].
    destruct (Forall2_lookup_r _ _ _ _ _ Em Hi) as (m' & Hm' & Hplan).
    apply result_bind_ok in Hplan as (msg & Hplan & [= <- <-]).
    destruct (Hc m') as [Hle Hlt]; [by eapply list_elem_of_lookup_2|].
    apply (plan_peer_spec now_ms (mkNode (nd_engine node) rt (nd_index node))) in Hplan;
      [|done|unfold peer_prev, saturating_sub; lia|done|done].
    destruct msg; [apply Hplan|done].
  - unfold plan_appends in Hx. rewrite (bind_run _ _ node node node), bool_decide_eq_false_2 in Hx by done.
    injection Hx as <- <-. by apply elem_of_nil in Hin.
Qed.

(** The log goes back to the first entry. *)
Definition complete_log (e : E) : Prop :=
  Z.of_nat (length (eh_log e)) = last_sequence (eh_state e).

Lemma complete_entry (e : E) s :
  eh_ok e -> complete_log e -> 1 <= s <= last_sequence (eh_state e) -> is_Some (entry_at s (eh_log e)).
Proof.
  unfold complete_log. intros (n & Hn & Hc & Hl)%eh_ok_log Hcomp Hs.
  rewrite (entry_at_lookup n) by (done || lia). apply lookup_lt_is_Some. lia.
Qed.

(** A planned request is well formed when the log has what follows its position. *)
Lemma planned_well_formed (e : E) payload :
  eh_ok e -> last_sequence (eh_state e) < u64_max -> planned e payload ->
  (aq_prev_sequence payload = 0 -> complete_log e) ->
  well_formed payload /\
  aq_prev_sequence payload + Z.of_nat (length (aq_entries payload)) <= last_sequence (eh_state e) /\
  forall s, aq_prev_sequence payload < s <= aq_prev_sequence payload + Z.of_nat (length (aq_entries payload)) ->
    entry_at s (aq_entries payload) = entry_at s (eh_log e).
Proof.
  intros Hok Hb (Hp & [batch Hent] & _ & Hpos) Hone. destruct (eh_ok_log _ Hok) as (n & Hn & Hc & Hl).
  set (p := aq_prev_sequence payload) in *.
  assert (n <= p + 1 /\ p <= last_sequence (eh_state e)) as [Hnp Hpl].
  { destruct (decide (p = 0)) as [Hz|Hz].
    - specialize (Hone Hz). unfold complete_log in Hone. lia.
    - destruct (Hpos ltac:(lia)) as [i Hi]. destruct (entry_at p (eh_log e)) eqn:Ep; [|done].
      apply (entry_at_bounds _ _ _ _ Hc) in Ep. lia. }
  assert (contiguous (p + 1) (after p (eh_log e)) /\
          Z.of_nat (length (after p (eh_log e))) = last_sequence (eh_state e) - p) as [Hca Hla].
  { unfold after. rewrite (filter_after n), length_drop by done. split; [|lia].
    pose proof (contiguous_drop n (eh_log e) (Z.to_nat (p + 1 - n)) Hc) as Hd.
    rewrite Nat.min_l in Hd by lia. by replace (n + _) with (p + 1) in Hd by lia. }
  assert (contiguous (p + 1) (aq_entries payload)) as Hce by (rewrite Hent; by apply contiguous_take).
  assert (length (aq_entries payload) <= length (after p (eh_log e)))%nat as Hlen
    by (rewrite Hent, length_take; lia).
  split; [unfold well_formed; fold p; split_and!; [lia|lia|done]|]. split; [lia|]. intros s Hs.
  rewrite (entry_at_lookup _ _ _ Hce), Hent by lia. rewrite Hent, length_take in Hs.
  rewrite lookup_take_lt by lia. rewrite <- (entry_at_lookup _ _ _ Hca) by lia.
  by rewrite entry_at_after, (proj2 (Z.ltb_lt _ _)) by lia.
Qed.

(** The entry a request was accepted for is the leader's. *)
Lemma prev_matches_identity payload log log' :
  prev_matches payload log -> prev_matches payload log' ->
  entry_at (aq_prev_sequence payload) log ≫= entry_identity =
  entry_at (aq_prev_sequence payload) log' ≫= entry_identity.
Proof.
  unfold prev_matches. intros [<- <-] [Ht Hs].
  destruct (_ ≫= _) as [[t1 c1]|] in Ht, Hs |- *; destruct (_ ≫= _) as [[t2 c2]|] in Ht, Hs |- *;
    cbn in *; congruence.
Qed.

(** ** How a follower fails *)

Lemma fallible_bind_err {S Er A B} (m : fallible S Er A) (k : A -> fallible S Er B) s s' e :
  (m ≫= k) s = (s', Err e) ->
  m s = (s', Err e) \/ exists s1 a, m s = (s1, Ok a) /\ k a s1 = (s', Err e).
Proof. unfold mbind, fallible_bind. destruct (m s) as [s1 [a|e1]]; [|intros [= <- <-]]; eauto. Qed.

(** An engine [e] that is to take entries of [leader_log] fails: the file of the
    replication state is not written, the engine does not append entries that continue
    its log, it does not put entries behind a prefix of it, or the read index does not
    replay entries of the log. *)
Inductive follower_fault (env : Env) (ms : Z) (leader_log : list WalEntry) (e : E) : ServerError -> Prop :=
  | FaultStateFile rt error :
      (persist_state (ev_io env 0) rt).2 = Err error -> follower_fault env ms leader_log e error
  | FaultApply entries error :
      entries ⊆ leader_log -> contiguous (last_sequence (eh_state e) + 1) entries ->
      (eh_apply_replication_entries entries e).2 = Err error ->
      follower_fault env ms leader_log e (SrvEngine error)
  | FaultReplace prefix entries error :
      entries ⊆ leader_log -> contiguous (prefix + 1) entries ->
      (eh_replace_replication_suffix ms prefix entries e).2 = Err error ->
      follower_fault env ms leader_log e (SrvEngine error)
  | FaultIndex entries index error :
      entries ⊆ eh_log e ++ leader_log -> (CommittedReadIndex.apply_entries entries index).2 = Err error ->
      follower_fault env ms leader_log e error.

Lemma heartbeat_fault env request rt rt' error :
  handle_heartbeat env request rt = (rt', Err error) -> exists rt1, (persist_state (ev_io env 0) rt1).2 = Err error.
Proof.
  unfold handle_heartbeat. intros [|(? & ? & [= <- <-] & Hx)]%fallible_bind_err; [done|].
  destruct (_ || _); [done|]. apply fallible_bind_err in Hx as [|(rt1 & [] & _ & Hx)]; [done|].
  apply fallible_bind_err in Hx as [Hp|(rt2 & [] & _ & Hx)]; [exists rt1; by rewrite Hp|].
  apply fallible_bind_err in Hx as [|(? & ? & _ & Hx)]; done.
Qed.

Lemma advance_loop_fault fuel target (node node' : Node E) error :
  eh_ok (nd_engine node) -> advance_loop fuel target node = (node', Err error) ->
  exists entries index, entries ⊆ eh_log (nd_engine node) /\
    (CommittedReadIndex.apply_entries entries index).2 = Err error.
Proof.
  revert node. induction fuel as [|fuel IH]; intros node Hok; cbn [advance_loop];
    unfold mbind, fallible_bind, mget; cbn -[CommittedReadIndex.apply_entries]; destruct (_ <=? _); try done.
  unfold mpure. rewrite (eh_since_law _ _ _ Hok). cbn [from_engine map_err].
  set (entries := match rc_fetch_batch_size _ with O => _ | _ => _ end).
  assert (entries ⊆ eh_log (nd_engine node)) as Hin.
  { intros x. unfold entries, after. destruct (rc_fetch_batch_size _).
    - rewrite !list_elem_of_In. by intros [? _]%filter_In.
    - intros (i & Hx%list_elem_of_lookup_2 & _)%elem_of_take. apply list_elem_of_In, filter_In in Hx as [Hx _].
      by apply list_elem_of_In. }
  clearbody entries. destruct entries as [|x xs]; [done|]. unfold on_index.
  destruct (CommittedReadIndex.apply_entries (x :: xs) (nd_index node)) as [index [u|err]] eqn:Ei.
  - intros Hx. by apply IH in Hx.
  - intros [= _ <-]. exists (x :: xs), (nd_index node). by rewrite Ei.
Qed.

Lemma finish_append_fault payload target applied term (node node' : Node E) error :
  eh_ok (nd_engine node) -> finish_append payload target applied term node = (node', Err error) ->
  exists entries index, entries ⊆ eh_log (nd_engine node) /\
    (CommittedReadIndex.apply_entries entries index).2 = Err error.
Proof.
  intros Hok. unfold finish_append. intros [|(n1 & [] & [= <-] & Hx)]%fallible_bind_err; [done|].
  apply fallible_bind_err in Hx as [|(? & [] & [= <-] & Hx)]; [done|].
  apply fallible_bind_err in Hx as [|(? & ? & [= <- <-] & Hx)]; [done|].
  apply fallible_bind_err in Hx as [Ha|(n2 & [] & _ & Hx)].
  - unfold advance_read_index_to in Ha. apply fallible_bind_err in Ha as [|(? & ? & [= <- <-] & Ha)]; [done|].
    by apply advance_loop_fault in Ha.
  - apply fallible_bind_err in Hx as [|(? & [] & _ & ?)]; [by destruct (_ <=? _)|done].
Qed.

Lemma find_overlap_total e current p entries :
  (forall entry, is_ok (checksum entry) = true) -> exists o, find_overlap e current p entries = Ok o.
Proof.
  intros Hsum. revert p. induction entries as [|x entries IH]; intros p; [by eexists|]. cbn.
  destruct (_ <? _); [by eexists|]. pose proof (Hsum x). destruct (checksum x); [|done]. cbn [mbind result_bind].
  destruct (_ || _); [by eexists|apply IH].
Qed.

(** What an operation is asked to put behind [prefix] of the log. *)
Definition asked (prefix : Z) (entries es : list WalEntry) : Prop :=
  es ⊆ entries /\ 0 <= prefix /\ contiguous (prefix + 1) es /\ prefix + 1 + Z.of_nat (length es) <= u64_max.

(** A merge is one operation of the engine at most. *)
Lemma merge_entries_asks ms prev entries (node : Node E) :
  (forall entry, is_ok (checksum entry) = true) ->
  eh_ok (nd_engine node) -> 0 <= prev -> prev + 1 + Z.of_nat (length entries) <= u64_max ->
  contiguous (prev + 1) entries ->
  let merge := merge_entries ms (engine_sequence node) prev entries node in
  (exists applied, merge = (node, Ok applied)) \/
  (exists prefix es, asked prefix entries es /\ merge = on_engine (eh_replace_replication_suffix ms prefix es) node) \/
  (exists es, asked (engine_sequence node) entries es /\ merge = on_engine (eh_apply_replication_entries es) node).
Proof.
  intros Hsum Hok Hp Hb Hc merge. subst merge. remember (merge_entries _ _ _ _ _) as merge eqn:Hm.
  unfold merge_entries in Hm. rewrite (bind_run _ _ node node node) in Hm by done.
  destruct (find_overlap_total (nd_engine node) (engine_sequence node) prev entries Hsum) as [o Ef].
  rewrite (bind_run _ _ node node o) in Hm by (unfold mpure; by rewrite Ef).
  apply find_overlap_spec in Ef as (k & Hk & _ & Hmax & Ho); [|done|done|lia|done].
  assert (forall es, es = after (prev + Z.of_nat k) entries -> asked (prev + Z.of_nat k) entries es) as Hask.
  { intros es ->. pose proof (after_length prev k entries Hc) as Hlen.
    split_and!; [|lia|by apply contiguous_after|lia].
    intros x Hx. apply list_elem_of_In, filter_In in Hx as [Hx _]. by apply list_elem_of_In. }
  destruct o as [prefix|m].
  { destruct Ho as (-> & _ & _). right. left. exists (prev + Z.of_nat k), (after (prev + Z.of_nat k) entries).
    split; [by apply Hask|exact Hm]. }
  destruct Ho as (-> & Hcur).
  assert (saturating_add (prev + Z.of_nat k) 1 = prev + Z.of_nat k + 1) as Hsat by (unfold saturating_add; lia).
  rewrite Hsat, (skip_below_after _ _ _ Hc) in Hm.
  destruct (after (prev + Z.of_nat k) entries) as [|first rest] eqn:Ea.
  - destruct (_ <? _) in Hm; [|left; by eexists]. right. left. exists (prev + Z.of_nat k), [].
    split; [by apply Hask|exact Hm].
  - pose proof (Hask _ eq_refl) as (_ & _ & [Hf _]%contiguous_cons & Hb1).
    pose proof (after_length prev k entries Hc) as Hlen. rewrite Ea in Hlen. cbn [length] in Hlen, Hb1.
    specialize (Hcur ltac:(lia)). rewrite Hf in Hm.
    assert (saturating_add (engine_sequence node) 1 = engine_sequence node + 1) as Hs1 by (unfold saturating_add; lia).
    rewrite Hs1 in Hm.
    destruct (Z.eqb_spec (engine_sequence node + 1) (prev + Z.of_nat k + 1)) as [Heq|Hneq]; cbn [negb] in Hm.
    + right. right. exists (first :: rest). split; [|exact Hm].
      replace (engine_sequence node) with (prev + Z.of_nat k) by lia. by apply Hask.
    + right. left. exists (prev + Z.of_nat k), (first :: rest). split; [by apply Hask|].
      unfold replacement_entries_after in Hm. rewrite filter_all in Hm; [exact Hm|]. intros x Hx. rewrite <- Ea in Hx.
      by apply list_elem_of_In, filter_In in Hx as [_ Hx].
Qed.

(** An operation that succeeds leaves entries of the follower and of the request in the
    log; one that fails is a fault of the follower. *)
Definition taken_or_fault (env : Env) (ms : Z) (entries : list WalEntry) (e : E) (node' : Node E)
    {A} (r : result ServerError A) : Prop :=
  match r with
  | Ok _ => eh_ok (nd_engine node') /\ eh_log (nd_engine node') ⊆ eh_log e ++ entries
  | Err error => follower_fault env ms entries e error
  end.

Lemma upto_incl m (log : list WalEntry) : upto m log ⊆ log.
Proof. intros x Hx. apply list_elem_of_In, filter_In in Hx as [Hx _]. by apply list_elem_of_In. Qed.

Lemma replace_outcome env ms prefix entries es (node node' : Node E) r :
  eh_ok (nd_engine node) -> asked prefix entries es ->
  on_engine (eh_replace_replication_suffix ms prefix es) node = (node', r) ->
  taken_or_fault env ms entries (nd_engine node) node' r.
Proof.
  intros Hok (Hin & Hp & Hc & Hb). unfold on_engine.
  destruct (eh_replace_replication_suffix _ _ _ _) as [e' [s|err]] eqn:Ex; intros [= <- <-]; cbn.
  - apply eh_replace_law in Ex as (? & -> & _); [|done..]. split; [done|].
    pose proof (upto_incl prefix (eh_log (nd_engine node))). set_solver.
  - eapply FaultReplace; [done|done|by rewrite Ex].
Qed.

Lemma apply_outcome env ms entries es (node node' : Node E) r :
  eh_ok (nd_engine node) -> asked (engine_sequence node) entries es ->
  on_engine (eh_apply_replication_entries es) node = (node', r) ->
  taken_or_fault env ms entries (nd_engine node) node' r.
Proof.
  unfold engine_sequence. intros Hok (Hin & Hp & Hc & Hb). unfold on_engine.
  destruct (eh_apply_replication_entries _ _) as [e' [s|err]] eqn:Ex; intros [= <- <-]; cbn.
  - apply eh_apply_law in Ex as (? & -> & _); [|done|lia]. split; [done|]. set_solver.
  - eapply FaultApply; [done|done|by rewrite Ex].
Qed.

Lemma merge_entries_outcome env ms prev entries (node node' : Node E) r :
  (forall entry, is_ok (checksum entry) = true) ->
  eh_ok (nd_engine node) -> 0 <= prev -> prev + 1 + Z.of_nat (length entries) <= u64_max ->
  contiguous (prev + 1) entries ->
  merge_entries ms (engine_sequence node) prev entries node = (node', r) ->
  taken_or_fault env ms entries (nd_engine node) node' r.
Proof.
  intros Hsum Hok Hp Hb Hc Hx.
  destruct (merge_entries_asks ms prev entries node Hsum Hok Hp Hb Hc)
    as [[applied Hm]|[(prefix & es & Ha & Hm)|(es & Ha & Hm)]]; rewrite Hm in Hx.
  - injection Hx as <- <-. split; [done|]. set_solver.
  - by eapply replace_outcome.
  - by eapply apply_outcome.
Qed.

(** The index replays what is in the log by then. *)
Lemma finish_append_outcome env ms entries (e : E) payload target applied term (node node' : Node E) error :
  eh_ok (nd_engine node) -> eh_log (nd_engine node) ⊆ eh_log e ++ entries ->
  finish_append payload target applied term node = (node', Err error) -> follower_fault env ms entries e error.
Proof.
  intros Hok Hin (es & index & Hes & Hr)%finish_append_fault; [|done].
  eapply FaultIndex; [|exact Hr]. set_solver.
Qed.

Lemma append_entries_fault env ms payload term (node node' : Node E) error :
  (forall entry, is_ok (checksum entry) = true) -> eh_ok (nd_engine node) -> well_formed payload ->
  append_entries ms payload term node = (node', Err error) ->
  follower_fault env ms (aq_entries payload) (nd_engine node) error.
Proof.
  intros Hsum Hok (Hp & Hb & Hc). unfold append_entries.
  intros [|(? & ? & [= <- <-] & Hx)]%fallible_bind_err; [done|].
  apply fallible_bind_err in Hx as [|(n1 & [] & [= <-] & Hx)]; [done|].
  apply fallible_bind_err in Hx as [|(n2 & [] & Hph & Hx)]; [by destruct (_ <? _)|].
  assert (nd_engine n2 = nd_engine node) as He2 by (destruct (_ <? _) in Hph; by injection Hph as <-).
  assert (engine_sequence node = engine_sequence n2) as Hs2 by (unfold engine_sequence; by rewrite He2).
  rewrite <- He2 in Hok |- *. destruct (negb _ || negb _); [done|].
  destruct (aq_entries payload) as [|x xs] eqn:Ent.
  - destruct (_ <? _) in Hx; [done|].
    assert (asked (aq_prev_sequence payload) [] []) as Hask by (split_and!; try done; cbn in *; lia).
    apply fallible_bind_err in Hx as [Hr|(n3 & applied & Hr & Hx)].
    + destruct (_ <? _) in Hr; [|done]. by eapply (replace_outcome env) in Hr.
    + assert (taken_or_fault env ms [] (nd_engine n2) n3 (Ok (E := ServerError) applied)) as [Hok3 Hin3].
      { destruct (_ <? _) in Hr; [by eapply replace_outcome|]. injection Hr as <- _. split; [done|set_solver]. }
      by eapply finish_append_outcome.
  - rewrite Hs2 in Hx. apply fallible_bind_err in Hx as [Hr|(n3 & applied & Hr & Hx)].
    + by apply (merge_entries_outcome env) in Hr.
    + apply (merge_entries_outcome env) in Hr as [Hok3 Hin3]; [|done..]. by eapply finish_append_outcome.
Qed.

Lemma follower_fault_mono env ms log log' e error :
  log ⊆ log' -> follower_fault env ms log e error -> follower_fault env ms log' e error.
Proof.
  intros Hin [rt error' ?|entries error' ? ? ?|prefix entries error' ? ? ?|entries index error' ? ?].
  - by eapply FaultStateFile.
  - eapply FaultApply; [|done|done]. set_solver.
  - eapply FaultReplace; [|done|done]. set_solver.
  - eapply FaultIndex; [|done]. set_solver.
Qed.

(** Every way in which a follower fails on a request. *)
Lemma handle_append_fault env ms payload leader_log (node node' : Node E) error :
  (forall entry, is_ok (checksum entry) = true) -> eh_ok (nd_engine node) -> well_formed payload ->
  aq_entries payload ⊆ leader_log -> handle_append env ms payload node = (node', Err error) ->
  follower_fault env ms leader_log (nd_engine node) error.
Proof.
  intros Hsum Hok Hw Hin [|(? & ? & [= <- <-] & Hx)]%fallible_bind_err; [done|].
  destruct (aq_term payload <? _); [done|].
  apply fallible_bind_err in Hx as [Hhb|(n1 & hb & Hhb & Hx)].
  - unfold on_runtime in Hhb. destruct (handle_heartbeat _ _ _) as [rt [|err]] eqn:Eh; [done|].
    injection Hhb as _ ->. apply heartbeat_fault in Eh as [rt1 Hp]. by eapply FaultStateFile.
  - apply on_runtime_parts in Hhb as [He _]. rewrite <- He in *.
    apply fallible_bind_err in Hx as [|(? & ? & [= <- <-] & Hx)]; [done|].
    destruct (negb (hs_accepted hb)); [done|].
    apply (append_entries_fault env) in Hx; [|done..]. by eapply follower_fault_mono.
Qed.

End facts.

(** * Waiting for a write leaves the engine alone

    The fan-out and the wait for acknowledgements change the runtime of a node only;
    a wait that succeeds has seen the write committed. *)

Import ReplicationRuntime.

Section facts.
Context {E : Type} `{EngineHandle E} `{EntryChecksum} `{ReplicationJson}.

Notation M := (fallible (Node E) ServerError).

(** ** Steps that keep the engine and the configuration *)

Definition still {A} (m : M A) : Prop :=
  forall node, nd_engine (m node).1 = nd_engine node /\
    rr_config (nd_runtime (m node).1) = rr_config (nd_runtime node).

Lemma still_bind {A B} (m : M A) (f : A -> M B) : still m -> (forall a, still (f a)) -> still (m ≫= f).
Proof.
  intros Hm Hf node. destruct (Hm node) as [He Hc]. unfold mbind, fallible_bind.
  destruct (m node) as [node1 [a|e]]; [|done]. cbn in *. destruct (Hf a node1). split; congruence.
Qed.

Lemma still_get {A} (f : Node E -> M A) : (forall node, still (f node)) -> still (mget ≫= f).
Proof. intros Hf node. apply Hf. Qed.

Lemma still_pure {A} (r : result ServerError A) : still (mpure r).
Proof. by intros node. Qed.

Lemma still_ret {A} (a : A) : still (mret a).
Proof. by intros node. Qed.

Lemma still_attempt {A} (m : M A) : still m -> still (attempt m).
Proof. intros Hm node. specialize (Hm node). unfold attempt. by destruct (m node). Qed.

Lemma still_runtime {A} (m : fallible ReplicationRuntime ServerError A) :
  (forall rt, rr_config (m rt).1 = rr_config rt) -> still (on_runtime m).
Proof.
  intros Hm node. unfold on_runtime. specialize (Hm (nd_runtime node)). by destruct (m (nd_runtime node)).
Qed.

Lemma update_config f rt : rr_config (update f rt) = rr_config rt.
Proof. by destruct rt. Qed.

Lemma still_update (f : ReplicationRuntime -> ReplicationState -> ReplicationState) :
  still (with_runtime (fun rt => update (f rt) rt)).
Proof. apply still_runtime. intros rt. apply update_config. Qed.

Lemma still_observe_remote_term env term : still (on_runtime (observe_remote_term env term)).
Proof.
  apply still_runtime. intros [config st file]. unfold observe_remote_term, modify, persist_state. run_fallible.
  destruct (current_term _ <? term); [|done]. cbn. destruct (map_err _ _); [|done].
  by destruct (ev_io env 0) as [|[] ?].
Qed.

Ltac still_step :=
  lazymatch goal with
  | |- still (mpure _) => apply still_pure
  | |- still (mfail _) => apply still_pure
  | |- still (mret _) => apply still_ret
  | |- still (attempt _) => apply still_attempt
  | |- still (on_runtime (observe_remote_term _ _)) => apply still_observe_remote_term
  | |- still (with_runtime (record_append_result _ _ _ _ _ _)) => apply still_update
  | |- still (with_runtime (register_follower_ack _ _ _ _ _)) => apply still_update
  | |- still (with_runtime (note_leader_activity _)) => apply (still_update (fun _ => _))
  | |- still (with_runtime (set_local_last_applied_state _ _ _)) => apply still_update
  | |- still (mbind _ mget) => apply still_get; intros ?
  | |- still (mbind _ _) => apply still_bind; [|intros ?]
  | |- still (match _ with _ => _ end) => case_match
  end.

Lemma still_take_answers env term leader local answers : still (take_answers env term leader local answers).
Proof.
  induction answers as [|[member answer] answers IH]; [apply still_ret|]. cbn. apply still_bind.
  - unfold take_answer. repeat still_step.
  - intros _. repeat still_step. exact IH.
Qed.

Lemma still_fan_out round : still (send_cluster_heartbeats_with_timeout round).
Proof.
  unfold send_cluster_heartbeats_with_timeout, send_cluster_appends_locked, plan_appends, publish_applied.
  repeat still_step; apply still_take_answers.
Qed.

Lemma still_acks acks : still (receive_acks acks).
Proof.
  induction acks as [|[env ack] acks IH]; [apply still_ret|]. unfold receive_acks, handle_ack in *. cbn.
  repeat still_step. exact IH.
Qed.

Lemma still_wait env wakeups sequence : still (wait_for_write_ack env wakeups sequence).
Proof.
  induction wakeups as [|acks wakeups IH]; cbn; repeat still_step; [apply still_acks|exact IH].
Qed.

Lemma still_drive_loop env wakeups sequence rounds : still (drive_loop env wakeups sequence rounds).
Proof.
  induction rounds as [|round rounds IH]; cbn [drive_loop]; repeat still_step;
    try apply still_wait; try apply still_fan_out; try apply still_acks; exact IH.
Qed.

Lemma still_drive env wakeups rounds sequence : still (drive_write_commit env wakeups rounds sequence).
Proof. unfold drive_write_commit. repeat still_step. apply still_drive_loop. Qed.

(** ** Success means committed *)

Definition waits (node : Node E) : Prop := rc_write_ack_mode (rr_config (nd_runtime node)) <> AckLocal.

Lemma still_waits {A} (m : M A) node : still m -> waits node -> waits (m node).1.
Proof. intros Hm Hw. unfold waits. by rewrite (proj2 (Hm node)). Qed.

(** Steps that are done only when [sequence] is committed. *)
Definition commits (sequence : Z) (m : M unit) : Prop :=
  forall node node', waits node -> m node = (node', Ok tt) -> sequence <= commit_sequence (nd_runtime node').

Lemma commits_get sequence (f : Node E -> M unit) :
  (forall node, waits node -> (f node node).2 = Ok tt -> sequence <= commit_sequence (nd_runtime (f node node).1)) ->
  commits sequence (mget ≫= f).
Proof. intros Hf node node' Hw Hr. specialize (Hf node Hw). unfold mbind, fallible_bind, mget in Hr. by rewrite Hr in Hf; apply Hf. Qed.

Lemma commits_after {A} sequence (m : M A) (f : A -> M unit) :
  still m -> (forall a, commits sequence (f a)) -> commits sequence (m ≫= f).
Proof.
  intros Hm Hf node node' Hw Hr. unfold mbind, fallible_bind in Hr.
  pose proof (still_waits m node Hm Hw) as Hw1. destruct (m node) as [node1 [a|e]]; [|done].
  by eapply Hf.
Qed.

Lemma commits_wait env wakeups sequence : commits sequence (wait_for_write_ack env wakeups sequence).
Proof.
  induction wakeups as [|acks wakeups IH]; cbn [wait_for_write_ack]; apply commits_get; intros node Hw;
    rewrite bool_decide_eq_false_2 by done; destruct (Z.leb_spec sequence (commit_sequence (nd_runtime node))) as [Hle|Hgt]; try done.
  - unfold poll_write_ack. unfold commit_sequence in Hgt. rewrite (proj2 (Z.leb_gt _ _)) by done.
    destruct (_ && _ && _); [done|]. by rewrite (proj2 (Z.leb_le _ (ev_clock env 1))) by lia.
  - intros Hr. refine (commits_after sequence _ _ (still_acks acks) (fun _ => IH) node _ Hw _).
    rewrite <- Hr. apply surjective_pairing.
Qed.

Lemma commits_drive_loop env wakeups sequence rounds : commits sequence (drive_loop env wakeups sequence rounds).
Proof.
  induction rounds as [|round rounds IH]; cbn [drive_loop]; apply commits_get; intros node Hw;
    destruct (Z.leb_spec sequence (commit_sequence (nd_runtime node))) as [Hle|Hgt]; try done;
    (destruct (negb _); [done|]).
  - intros Hr. apply (commits_wait env wakeups sequence node); [done|]. rewrite <- Hr. apply surjective_pairing.
  - intros Hr. refine (commits_after sequence _ _ (still_attempt _ (still_fan_out round)) _ node _ Hw _);
      [|rewrite <- Hr; apply surjective_pairing].
    intros sent. apply commits_get. intros node1 Hw1.
    destruct (Z.leb_spec sequence (commit_sequence (nd_runtime node1))) as [Hle1|Hgt1]; [done|].
    assert (commits sequence (_ ← receive_acks (fo_acks round); drive_loop env wakeups sequence rounds)) as Hnext
      by (apply commits_after; [apply still_acks|done]).
    intros Hr1. destruct sent, rounds; try (by eapply Hnext; [exact Hw1|rewrite <- Hr1; apply surjective_pairing]).
    by eapply commits_wait; [exact Hw1|rewrite <- Hr1; apply surjective_pairing].
Qed.

Lemma commits_drive env wakeups rounds sequence : commits sequence (drive_write_commit env wakeups rounds sequence).
Proof.
  apply commits_get. intros node Hw. rewrite bool_decide_eq_false_2 by done. intros Hr.
  by eapply commits_drive_loop; [exact Hw|rewrite <- Hr; apply surjective_pairing].
Qed.

(** ** A batch of writes *)

Definition position (r : ExecuteResult) : Z := la_last_applied_sequence (er_last_applied r).

Lemma later_positions results acc frontier :
  foldl later_position acc results = Some frontier ->
  Forall (fun r => position r <= la_last_applied_sequence frontier) results /\
  forall best, acc = Some best -> la_last_applied_sequence best <= la_last_applied_sequence frontier.
Proof.
  revert acc. induction results as [|r results IH]; intros acc; cbn; [intros ->; split; [done|intros ? [= ->]; lia]|].
  intros [Hf Hb]%IH. unfold later_position in Hb. destruct acc as [best|].
  - destruct (Z.leb_spec (la_last_applied_sequence best) (la_last_applied_sequence (er_last_applied r))) as [Hle|Hlt];
      specialize (Hb _ eq_refl); (split; [constructor; [unfold position; lia|done]|intros ? [= <-]; lia]).
  - specialize (Hb _ eq_refl). split; [by constructor|done].
Qed.

Lemma coordinate_writes_ok now rollback_ms batch (node node' : Node E) results frontier :
  coordinate_writes now rollback_ms batch node = (node', Ok (results, frontier)) ->
  eh_execute_write_batch now (current_term (nd_runtime node)) batch (nd_engine node) = (nd_engine node', Ok results) /\
  rr_config (nd_runtime node') = rr_config (nd_runtime node) /\
  Forall (fun r => position r <= frontier) results.
Proof.
  unfold coordinate_writes. run_fallible. destruct (negb _); [done|].
  destruct (foldM _ _ _); [|done]. unfold on_worker.
  destruct (eh_execute_write_batch _ _ _ _) as [e [rs|err]]; cbn -[rollback_uncommitted_tail]; [|done].
  destruct (negb _ || negb _).
  { by destruct (rollback_uncommitted_tail rollback_ms _) as [? []]. }
  destruct (foldl later_position None rs) as [best|] eqn:Eb; [|done]. intros [= <- <- <-]. cbn.
  split; [done|]. split; [by destruct (nd_runtime node)|]. by apply later_positions in Eb as [Hp _].
Qed.

Lemma advance_parts target (node node' : Node E) r :
  advance_read_index_to target node = (node', r) ->
  nd_engine node' = nd_engine node /\ nd_runtime node' = nd_runtime node.
Proof. apply advance_loop_parts. Qed.

Lemma process_batch_ok i now batch (node node' : Node E) responses :
  waits node -> process_batch i now batch node = (node', Ok responses) ->
  exists e results, eh_execute_write_batch now (current_term (nd_runtime node)) batch (nd_engine node) = (e, Ok results) /\
    nd_engine node' = e /\ responses = (fun r => Ok (er_response r)) <$> results /\
    Forall (fun r => position r <= commit_sequence (nd_runtime node')) results.
Proof.
  intros Hw (node1 & [results frontier] & Hc & Hx)%fallible_bind_ok.
  apply coordinate_writes_ok in Hc as (He & Hconf & Hpos).
  apply fallible_bind_ok in Hx as (node2 & sent & Hs & Hx).
  pose proof (still_attempt _ (still_fan_out (wt_first i)) node1) as [He2 Hc2]. rewrite Hs in He2, Hc2. cbn in He2, Hc2.
  apply fallible_bind_ok in Hx as (node3 & driven & Hd & Hx). cbn in Hd, Hx.
  pose proof (still_attempt _ (still_drive (wt_env i) (wt_wakeups i) (wt_rounds i) frontier) node2) as [He3 _].
  rewrite Hd in He3. cbn in He3. unfold attempt in Hd.
  destruct (drive_write_commit _ _ _ _ node2) as [node3' r] eqn:Edrive. injection Hd as -> <-.
  unfold finish_writes in Hx. destruct r as [[]|err].
  - apply commits_drive in Edrive; [|unfold waits; congruence].
    apply fallible_bind_ok in Hx as (node4 & u & Ha%advance_parts & [= <- <-]). destruct Ha as [He4 Hr4].
    eexists _, results. split; [exact He|]. split; [congruence|]. rewrite Hr4. split.
    + apply list_fmap_ext. intros n r Hin%list_elem_of_lookup_2. rewrite Forall_forall in Hpos.
      by rewrite (proj2 (Z.leb_le _ _)) by (by apply Hpos).
    + eapply Forall_impl; [exact Hpos|]. cbn. lia.
  - apply fallible_bind_ok in Hx as (? & ? & _ & ?). done.
Qed.

End facts.

(** ** Catching up: a leader finds where a follower's log agrees

    [exchange] is one round of the fan-out with one peer: the leader's request, the
    follower's answer, the leader taking it.  [catch_up] repeats it until the
    follower accepts. *)

Import ReplicationRuntime.

Section catch_up.
Context {E : Type} `{EngineHandle E} `{EntryChecksum} `{!EngineHandleLaws E} `{ReplicationJson}.

Notation self node := (rc_node_id (rr_config (nd_runtime node))).

(** What the leader sends to [id], when it is entries. *)
Definition append_for (id : string) (plans : list (ClusterMember * PeerMessage))
    : option (ClusterMember * AppendEntriesRequest) :=
  match List.find (fun p => bool_decide (cm_node_id p.1 = id)) plans with
  | Some (member, SendAppend payload) => Some (member, payload)
  | _ => None
  end.

(** How a round ends: with an answer the leader has taken, or with the handler that
    failed, or without a request when the leader sends no entries to [id]. *)
Inductive Round :=
| Answered (leader follower : Node E) (answer : AppendEntriesResponse)
| FollowerFailed (error : ServerError)
| LeaderFailed (error : ServerError)
| NoRequest.

Definition exchange (env : Env) (ms : Z) (id : string) (leader follower : Node E) : Round :=
  match plan_appends env ms leader with
  | (_, Err error) => LeaderFailed error
  | (leader, Ok plans) =>
      match append_for id plans with
      | None => NoRequest
      | Some (member, payload) =>
          match handle_append env ms payload follower with
          | (_, Err error) => FollowerFailed error
          | (follower, Ok answer) =>
              match take_answer env (aq_term payload) (aq_leader_node_id payload) member answer leader with
              | (_, Err error) => LeaderFailed error
              | (leader, Ok _) => Answered leader follower answer
              end
          end
      end
  end.

Fixpoint catch_up (rounds : nat) (env : Env) (ms : Z) (id : string) (leader follower : Node E) : Round :=
  match exchange env ms id leader follower with
  | Answered leader follower answer =>
      if ap_accepted answer then Answered leader follower answer
      else
        match rounds with
        | O => Answered leader follower answer
        | S rounds => catch_up rounds env ms id leader follower
        end
  | failed => failed
  end.

(** ** Requests *)

(** The request for a member speaks for the leader and starts at the position the
    leader keeps for it. *)
Definition addressed (rt : ReplicationRuntime) (member : ClusterMember)
    (payload : AppendEntriesRequest) : Prop :=
  role rt = RoleLeader /\ aq_term payload = current_term rt /\
  aq_leader_node_id payload = rc_node_id (rr_config rt) /\
  aq_members payload = values_in_order (rp_members (rr_state rt)) /\
  aq_prev_sequence payload = saturating_sub (follower_next_sequence (cm_node_id member) rt) 1.

Lemma plan_peer_addressed now_ms (node : Node E) hb members cached prev payload :
  plan_peer now_ms node hb members cached prev = Ok (SendAppend payload) ->
  aq_term payload = hb_term hb /\ aq_leader_node_id payload = hb_leader_node_id hb /\
  aq_members payload = members /\ aq_prev_sequence payload = prev.
Proof.
  unfold plan_peer. destruct (prev =? 0); [by intros [= <-]|].
  destruct (List.find _ _); [|done]. intros (sum & _ & Hr)%result_bind_ok. by injection Hr as <-.
Qed.

Lemma plan_appends_addressed env now_ms (node node' : Node E) plans member payload :
  eh_ok (nd_engine node) -> 0 <= last_sequence (eh_state (nd_engine node)) <= u64_max ->
  role (nd_runtime node) = RoleLeader ->
  plan_appends env now_ms node = (node', Ok plans) -> (member, SendAppend payload) ∈ plans ->
  nd_engine node' = nd_engine node /\ same_lead (nd_runtime node) (nd_runtime node') /\
  addressed (nd_runtime node') member payload.
Proof.
  intros Hok Hseq Hr Hx Hin.
  destruct (plan_appends_run env now_ms node Hok Hseq Hr) as (rt & hb & c & Hs & Ht & Hl & _ & Hrun).
  rewrite Hrun in Hx. injection Hx as <- Hx. destruct (mapM _ _) as [l|] eqn:Em; [|done]. injection Hx as ->.
  apply mapM_ok in Em. apply list_elem_of_lookup_1 in Hin as [i Hi].
  destruct (Forall2_lookup_r _ _ _ _ _ Em Hi) as (m' & Hm' & Hplan).
  apply result_bind_ok in Hplan as (msg & Hplan & [= -> ->]).
  apply plan_peer_addressed in Hplan as (Ht' & Hl' & Hms & Hpr).
  split; [done|]. split; [done|]. cbn [nd_runtime]. destruct Hs as (_ & Hrl & _).
  unfold addressed. rewrite Ht', Hl', Hrl. done.
Qed.

Lemma append_for_in id plans member payload :
  append_for id plans = Some (member, payload) ->
  (member, SendAppend payload) ∈ plans /\ cm_node_id member = id.
Proof.
  unfold append_for. destruct (List.find _ plans) as [[m [p|]]|] eqn:Ef; intros Hx; simplify_eq.
  apply find_some in Ef as [Hin Heq]. apply list_elem_of_In in Hin.
  by apply bool_decide_eq_true in Heq.
Qed.

(** ** Answers *)

(** What the follower needs to know to listen to the leader. *)
Definition listens (leader follower : ReplicationRuntime) : Prop :=
  is_voting_member (rr_state follower) (rc_node_id (rr_config leader)) = true /\
  current_term follower <= current_term leader.

(** A leader that is a voter of its own members. *)
Definition leads (rt : ReplicationRuntime) : Prop :=
  well_keyed (rp_members (rr_state rt)) /\
  is_voting_member (rr_state rt) (rc_node_id (rr_config rt)) = true.

Lemma persist_state_state io rt rt' r :
  persist_state io rt = (rt', r) -> rr_state rt' = rr_state rt /\ rr_config rt' = rr_config rt.
Proof.
  unfold persist_state, mbind, fallible_bind, mget, mpure. cbn.
  destruct (map_err _ _); [|by intros [= <- _]].
  destruct io as [|[] m]; by intros [= <- _].
Qed.

(** A follower that listens takes the heartbeat of the request, and still listens. *)
Lemma heartbeat_listens env request leader rt rt' answer :
  listens leader rt -> leads leader ->
  hb_term request = current_term leader -> hb_leader_node_id request = rc_node_id (rr_config leader) ->
  hb_members request = values_in_order (rp_members (rr_state leader)) ->
  handle_heartbeat env request rt = (rt', Ok answer) ->
  answer = mkHeartbeatResponse (current_term leader) true /\ current_term rt' = current_term leader /\
  listens leader rt'.
Proof.
  destruct rt as [config st file].
  intros [Hv Ht] [Hk Hs] Eterm Eid Ems (? & ? & [= <- <-] & Hx)%fallible_bind_ok.
  rewrite Eid, Hv, (proj2 (Z.ltb_ge _ _)) in Hx by lia. cbn [negb orb] in Hx.
  apply fallible_bind_ok in Hx as (rt1 & [] & [= <-] & Hx).
  apply fallible_bind_ok in Hx as (rt2 & [] & Hp & Hx). apply fallible_bind_ok in Hx as (? & ? & [= <- <-] & [= <- <-]).
  apply persist_state_state in Hp as [Hst _].
  assert (current_term rt2 = current_term leader) as Ht2.
  { unfold current_term in *. rewrite Hst. cbn. rewrite Eterm.
    cbn in Ht. destruct (Z.ltb_spec (rp_current_term st) (rp_current_term (rr_state leader))); lia. }
  rewrite Ht2. split_and!; [done|done|]. split; [|lia].
  unfold is_voting_member in *. rewrite Hst. cbn. by rewrite Ems, insert_members_values.
Qed.

Lemma listens_same leader rt rt' : same_lead rt rt' -> listens leader rt -> listens leader rt'.
Proof.
  intros (_ & _ & Ht & Hm & _) [Hv Hle]. split; [|by rewrite Ht].
  unfold is_voting_member in *. by rewrite Hm.
Qed.

Lemma frontier_same_lead s rt : same_lead rt (note_leader_frontier s rt).
Proof.
  destruct rt as [config [r p] file].
  unfold same_lead, note_leader_frontier, update, role, current_term. cbn.
  case_bool_decide; [|done]. by destruct p.
Qed.

Lemma phase_same_lead phase l1 l2 rt : same_lead rt (update_follower_phase phase l1 l2 rt).
Proof.
  destruct rt as [config [r] file].
  unfold same_lead, update_follower_phase, update, role, current_term. cbn.
  destruct phase; try done; by case_bool_decide.
Qed.

(** A request is refused only for the entry before its own, and the answer names an
    earlier position. *)
Lemma append_entries_refused ms payload term (node node' : Node E) answer :
  eh_ok (nd_engine node) -> 0 <= aq_prev_sequence payload ->
  (aq_prev_sequence payload = 0 ->
   aq_prev_term payload = None /\ aq_prev_entry_checksum payload = None) ->
  append_entries ms payload term node = (node', Ok answer) ->
  ap_term answer = term /\
  (ap_accepted answer = false ->
   nd_engine node' = nd_engine node /\ same_lead (nd_runtime node) (nd_runtime node') /\
   0 <= ap_match_sequence answer < aq_prev_sequence payload).
Proof.
  intros Hok Hp Hzero (? & ? & [= <- <-] & Hx)%fallible_bind_ok.
  destruct (eh_ok_log _ Hok) as (n & Hn & Hc & Hl).
  apply fallible_bind_ok in Hx as (n1 & [] & [= <-] & Hx).
  apply fallible_bind_ok in Hx as (n2 & [] & Hph & Hx).
  assert (nd_engine n2 = nd_engine node /\ same_lead (nd_runtime node) (nd_runtime n2)) as [He2 Hs2].
  { destruct (_ <? _) in Hph; injection Hph as <-; (split; [done|]); cbn [nd_runtime].
    - eapply same_lead_trans; [apply frontier_same_lead|apply phase_same_lead].
    - apply frontier_same_lead. }
  destruct (negb _ || negb _) eqn:Em.
  { injection Hx as <- <-. split; [done|]. intros _. split; [done|]. split; [done|]. cbn.
    destruct (decide (aq_prev_sequence payload = 0)) as [Hz|Hz]; [|unfold saturating_sub; lia].
    destruct (Hzero Hz) as [Et Ec]. rewrite Et, Ec, (eh_term_law _ _ Hok), (eh_checksum_law _ _ Hok), Hz in Em.
    rewrite (entry_at_below n) in Em by done. cbn in Em. by rewrite !bool_decide_eq_true_2 in Em. }
  destruct (aq_entries payload) as [|x xs].
  - destruct (Z.ltb_spec (engine_sequence node) (aq_prev_sequence payload)) as [Hlt|Hge].
    { injection Hx as <- <-. split; [done|]. intros _. split_and!; try done. cbn. unfold engine_sequence. lia. }
    apply fallible_bind_ok in Hx as (n3 & applied & _ & [_ ->]%finish_append_log). done.
  - apply fallible_bind_ok in Hx as (n3 & applied & _ & [_ ->]%finish_append_log). done.
Qed.

(** The same for the whole request, of a leader the follower listens to. *)
Lemma handle_append_refused env ms payload leader (node node' : Node E) member answer :
  eh_ok (nd_engine node) -> leads leader -> listens leader (nd_runtime node) ->
  addressed leader member payload ->
  (aq_prev_sequence payload = 0 ->
   aq_prev_term payload = None /\ aq_prev_entry_checksum payload = None) ->
  handle_append env ms payload node = (node', Ok answer) ->
  ap_term answer = current_term leader /\
  (ap_accepted answer = false ->
   nd_engine node' = nd_engine node /\ listens leader (nd_runtime node') /\
   0 <= ap_match_sequence answer < aq_prev_sequence payload).
Proof.
  intros Hok Hlead [Hv Hle] (_ & Et & Eid & Ems & Epr) Hzero (? & ? & [= <- <-] & Hx)%fallible_bind_ok.
  rewrite Et, (proj2 (Z.ltb_ge _ _)) in Hx by done.
  apply fallible_bind_ok in Hx as (n1 & hb & Ehb & Hx). unfold on_runtime in Ehb.
  destruct (handle_heartbeat _ _ _) as [rt [hb'|]] eqn:Eb; [|done]. injection Ehb as <- <-.
  apply (heartbeat_listens _ _ leader) in Eb as (-> & _ & Hlis); [|done..].
  apply fallible_bind_ok in Hx as (? & ? & [= <- <-] & Hx). cbn [hs_accepted hs_term negb] in Hx.
  apply append_entries_refused in Hx as [Hat Href]; [|done|rewrite Epr; unfold saturating_sub; lia|done].
  split; [done|]. intros Ha. destruct (Href Ha) as (He & Hs & Hm).
  split; [done|]. split; [by eapply listens_same|done].
Qed.

(** ** The leader sends *)

(** The leader has entries to send to [id] behind the position it keeps for it. *)
Definition reachable_peer (id : string) (node : Node E) : Prop :=
  role (nd_runtime node) = RoleLeader /\ id <> self node /\
  (exists member, rp_members (rr_state (nd_runtime node)) !! id = Some member /\ cm_voter member = true) /\
  complete_log (nd_engine node) /\
  1 <= follower_next_sequence id (nd_runtime node) <= last_sequence (eh_state (nd_engine node)) + 1.

Context (checksum_total : forall entry, is_ok (checksum entry) = true).

Lemma plan_peer_total now_ms (node : Node E) hb members cached prev :
  exists message, plan_peer now_ms node hb members cached prev = Ok message.
Proof.
  unfold plan_peer. destruct (prev =? 0); [by eexists|]. destruct (List.find _ _) as [e|]; [|by eexists].
  pose proof (checksum_total e). destruct (checksum e); [|done]. by eexists.
Qed.

Lemma plan_peer_sends now_ms (node : Node E) hb members c prev message :
  eh_ok (nd_engine node) -> c < prev \/ prev = 0 ->
  (prev <> 0 -> is_Some (entry_at prev (eh_log (nd_engine node)))) ->
  plan_peer now_ms node hb members (after c (eh_log (nd_engine node))) prev = Ok message ->
  exists payload, message = SendAppend payload.
Proof.
  intros Hok Hcp Hin. destruct (eh_ok_log _ Hok) as (n & Hn & Hc & _). unfold plan_peer.
  destruct (Z.eqb_spec prev 0) as [->|Hne]; [intros [= <-]; by eexists|].
  destruct (after_contiguous n c (eh_log (nd_engine node)) Hc) as [m Hm].
  rewrite (find_reverse _ _ _ Hm), entry_at_after, (proj2 (Z.ltb_lt _ _)) by lia.
  destruct (Hin Hne) as [e ->]. intros (sum & _ & Hr)%result_bind_ok. injection Hr as <-. by eexists.
Qed.

Lemma mapM_total {Er A B} (f : A -> result Er B) l :
  (forall x, exists y, f x = Ok y) -> exists l', mapM f l = Ok l'.
Proof.
  intros Hf. induction l as [|x l [l' IH]]; [by eexists|]. destruct (Hf x) as [y Hy].
  exists (y :: l'). cbn. by rewrite Hy, IH.
Qed.

Lemma plan_appends_sends env now_ms id (node : Node E) :
  eh_ok (nd_engine node) -> 0 <= last_sequence (eh_state (nd_engine node)) <= u64_max ->
  well_keyed (rp_members (rr_state (nd_runtime node))) -> reachable_peer id node ->
  exists node' plans request,
    plan_appends env now_ms node = (node', Ok plans) /\ append_for id plans = Some request.
Proof.
  intros Hok Hseq Hkeyed (Hr & Hself & (member & Hmem & Hvoter) & Hcomplete & Hnext).
  destruct (plan_appends_run env now_ms node Hok Hseq Hr) as (rt & hb & c & Hs & _ & _ & Hc & Hrun).
  destruct Hs as (Hcfg & _ & _ & Hms & Hfol).
  destruct (mapM_total (fun member => message ← plan_peer now_ms (mkNode (nd_engine node) rt (nd_index node)) hb
      (current_members rt) (after c (eh_log (nd_engine node))) (peer_prev rt member);
      Ok (member, message)) (peers rt)) as [plans Hplans].
  { intros m. destruct (plan_peer_total now_ms (mkNode (nd_engine node) rt (nd_index node)) hb
      (current_members rt) (after c (eh_log (nd_engine node))) (peer_prev rt m)) as [msg Hmsg].
    rewrite Hmsg. by eexists. }
  cbv zeta in Hrun. rewrite Hplans in Hrun. apply mapM_ok in Hplans.
  assert (member ∈ peers rt) as Hin.
  { unfold peers. rewrite Hms, Hcfg. apply list_elem_of_In, filter_In. split.
    - apply list_elem_of_In, values_in_order_elem. by exists id.
    - rewrite Hvoter, (Hkeyed _ _ Hmem), bool_decide_eq_false_2; done. }
  apply list_elem_of_lookup_1 in Hin as [i Hi].
  destruct (Forall2_lookup_l _ _ _ _ _ Hplans Hi) as ([m' msg'] & Hi' & Hp').
  unfold append_for.
  destruct (List.find (fun p => bool_decide (cm_node_id p.1 = id)) plans) as [[m msg]|] eqn:Ef.
  - pose proof Ef as [Hin%list_elem_of_In Hid%bool_decide_eq_true]%find_some. cbn in Hid.
    apply list_elem_of_lookup_1 in Hin as [j Hj].
    destruct (Forall2_lookup_r _ _ _ _ _ Hplans Hj) as (m2 & Hm2 & Hp2).
    apply result_bind_ok in Hp2 as (msg2 & Hp2 & [= -> ->]).
    destruct (Hc m) as [Hle Hlt]; [by eapply list_elem_of_lookup_2|].
    assert (peer_prev rt m = follower_next_sequence id (nd_runtime node) - 1) as Hprev.
    { unfold peer_prev, saturating_sub, follower_next_sequence in *. rewrite Hfol, Hid. lia. }
    apply (plan_peer_sends now_ms (mkNode (nd_engine node) rt (nd_index node))) in Hp2 as [payload ->];
      cbn [nd_engine]; [|done|lia|].
    + eexists _, plans, _. split; [exact Hrun|]. by rewrite Ef.
    + intros Hne. apply (complete_entry (nd_engine node)); [done|done|lia].
  - apply result_bind_ok in Hp' as (? & _ & [= <- _]). exfalso.
    pose proof (find_none _ _ Ef _ (proj1 (list_elem_of_In _ _) (list_elem_of_lookup_2 _ _ _ Hi'))) as Hno.
    apply bool_decide_eq_false in Hno. by apply Hno, Hkeyed.
Qed.

(** ** Rounds *)

(** Two nodes between which entries can flow. *)
Definition paired (id : string) (leader follower : Node E) : Prop :=
  eh_ok (nd_engine leader) /\ eh_ok (nd_engine follower) /\
  0 <= last_sequence (eh_state (nd_engine leader)) < u64_max /\
  leads (nd_runtime leader) /\ listens (nd_runtime leader) (nd_runtime follower) /\
  reachable_peer id leader.

Lemma leads_same rt rt' : same_lead rt rt' -> leads rt -> leads rt'.
Proof.
  intros (Hc & _ & _ & Hm & _) [Hk Hv]. split; [by rewrite Hm|].
  unfold is_voting_member in *. by rewrite Hm, Hc.
Qed.

Lemma listens_leader leader leader' rt : same_lead leader leader' -> listens leader rt -> listens leader' rt.
Proof. intros (Hc & _ & Ht & _) [Hv Hle]. split; [by rewrite Hc|by rewrite Ht]. Qed.

(** A refusal moves the position back. *)
Lemma refusal_recorded env id m rt :
  role rt = RoleLeader -> 2 <= follower_next_sequence id rt -> m < follower_next_sequence id rt - 1 ->
  let rt' := record_append_result env id false m (current_term rt) (rc_node_id (rr_config rt)) rt in
  1 <= follower_next_sequence id rt' < follower_next_sequence id rt /\
  rr_config rt' = rr_config rt /\ role rt' = role rt /\ current_term rt' = current_term rt /\
  rp_members (rr_state rt') = rp_members (rr_state rt).
Proof.
  destruct rt as [config st file]. unfold role, current_term, follower_next_sequence. cbn [rr_state rr_config].
  intros Hr Hn Hm. unfold record_append_result, update.
  cbn -[Z.min Z.max saturating_add saturating_sub recompute_commit_sequence bool_decide Z.eqb default].
  rewrite (bool_decide_eq_true_2 _ Hr), Z.eqb_refl, bool_decide_eq_true_2 by done. cbn [negb orb].
  unfold recompute_commit_sequence. cbn -[Z.min Z.max saturating_add saturating_sub nth_highest_voter_match min_voter_match].
  rewrite lookup_insert_eq. cbn [fmap option_fmap option_map default fp_next_sequence].
  split; [|done]. remember (default 1 _) as next.
  unfold Datatypes.id, saturating_add, saturating_sub, u64_max in *. lia.
Qed.

(** A round of the two ends with the follower's answer or a fault of it; a refusal
    leaves them paired with the engines they had, one position further back at least. *)
Lemma exchange_paired env ms id (leader follower : Node E) :
  paired id leader follower ->
  match exchange env ms id leader follower with
  | Answered l f answer =>
      ap_accepted answer = false ->
      paired id l f /\ nd_engine l = nd_engine leader /\ nd_engine f = nd_engine follower /\
      follower_next_sequence id (nd_runtime l) < follower_next_sequence id (nd_runtime leader)
  | FollowerFailed error => follower_fault env ms (eh_log (nd_engine leader)) (nd_engine follower) error
  | LeaderFailed _ | NoRequest => False
  end.
Proof.
  intros (Hol & Hof & Hseq & Hlead & Hlis & Hpeer).
  assert (0 <= last_sequence (eh_state (nd_engine leader)) <= u64_max) as Hseq' by lia.
  destruct (plan_appends_sends env ms id leader Hol Hseq' (proj1 Hlead) Hpeer) as (l1 & plans & [member payload] & Ep & Hfor).
  destruct Hpeer as (Hr & Hself & Hmember & Hcomplete & Hnext).
  unfold exchange. rewrite Ep, Hfor. apply append_for_in in Hfor as [Hin Hid].
  pose proof (plan_appends_spec _ _ _ _ _ _ _ Hol Hseq' Ep Hin) as Hplanned.
  destruct (planned_well_formed _ _ Hol ltac:(lia) Hplanned ltac:(done)) as (Hwf & _ & _).
  destruct Hplanned as (Hprev & [batch Hent] & [Hpt Hpc] & _).
  destruct (plan_appends_addressed _ _ _ _ _ _ _ Hol Hseq' Hr Ep Hin) as (Hel & Hsl & Haddr).
  pose proof (leads_same _ _ Hsl Hlead) as Hlead1. pose proof (listens_leader _ _ _ Hsl Hlis) as Hlis1.
  destruct Hsl as (Hcl & Hrl & Htl & Hml & Hfl).
  destruct (handle_append env ms payload follower) as [f1 [a|]] eqn:Eh.
  2:{ eapply handle_append_fault; [exact checksum_total|done|done| |done]. rewrite Hent.
      intros x (i & Hx%list_elem_of_lookup_2 & _)%elem_of_take. apply list_elem_of_In, filter_In in Hx as [Hx _].
      by apply list_elem_of_In. }
  apply (handle_append_refused _ _ _ (nd_runtime l1) _ _ member) in Eh as [Hat Href]; [|done..|].
  2:{ intros Hz. destruct (eh_ok_log _ Hol) as (n & Hn & Hc & _).
      rewrite Hz, (entry_at_below n) in Hpt, Hpc by done. done. }
  destruct Haddr as (_ & Et & Eid & _ & Epr).
  unfold take_answer. rewrite Hat, Et, Eid, (proj2 (Z.ltb_ge _ _)), Hid, with_runtime_run by lia.
  intros Hacc. rewrite Hacc. destruct (Href Hacc) as (Hef & Hlis2 & Hm). cbn [nd_runtime].
  rewrite Hid in Epr. unfold saturating_sub, follower_next_sequence in Epr.
  assert (follower_next_sequence id (nd_runtime l1) = follower_next_sequence id (nd_runtime leader)) as Hn1
    by (unfold follower_next_sequence; by rewrite Hfl).
  destruct (refusal_recorded env id (ap_match_sequence a) (nd_runtime l1))
    as (Hdec & Hcfg & Hrole & Htm & Hmem); [by rewrite Hrl|unfold follower_next_sequence; lia..|].
  split; [|split_and!; [done|done|lia]]. unfold paired, reachable_peer. cbn [nd_engine nd_runtime]. rewrite Hel, Hef.
  split_and!; try done; try lia.
  - destruct Hlead1 as [Hk Hvl]. split; [by rewrite Hmem|].
    unfold is_voting_member in *. by rewrite Hmem, Hcfg.
  - destruct Hlis2 as [Hv2 Hle2]. split; [by rewrite Hcfg|by rewrite Htm].
  - by rewrite Hrole, Hrl.
  - by rewrite Hcfg, Hcl.
  - by rewrite Hmem, Hml.
Qed.

(** The leader needs no more rounds than the position it starts from. *)
Lemma catch_up_accepted rounds env ms id (leader follower : Node E) :
  paired id leader follower -> follower_next_sequence id (nd_runtime leader) <= Z.of_nat rounds + 1 ->
  match catch_up rounds env ms id leader follower with
  | Answered _ _ answer => ap_accepted answer = true
  | FollowerFailed error => follower_fault env ms (eh_log (nd_engine leader)) (nd_engine follower) error
  | LeaderFailed _ | NoRequest => False
  end.
Proof.
  revert leader follower. induction rounds as [|rounds IH]; intros leader follower Hp Hn; cbn [catch_up];
    pose proof (exchange_paired env ms id leader follower Hp) as He;
    destruct (exchange env ms id leader follower) as [l f a| | |]; try done;
    destruct (ap_accepted a) eqn:Ea; try done; destruct (He eq_refl) as (Hp' & Hel & Hef & Hlt).
  - destruct Hp' as (_ & _ & _ & _ & _ & _ & _ & _ & _ & Hge). lia.
  - rewrite <- Hel, <- Hef. apply IH; [done|lia].
Qed.

End catch_up.
