(* ===== verification/NodeRuns.v ===== *)
(** * NodeRuns: concrete runs of three servers

    Three nodes with engines on empty directories; [c] has won term 1.  A run is a
    computation in the option monad: it is [None] when a handler fails where the run
    expects an answer. *)

From S2P Require Import Prelude Text Command Wire Request Response EngineError Store State Crypto.
From S2P Require Import ServerError ReadIndex Consensus Elections Wal WalFacts WalLayout Engine.
From S2P Require Import Transaction Backup Replication DiskLog Storage DiskEngine EngineWorker.
From S2P Require Import Node ReplicaDisk DiskHandle NodeFacts Samples Runs.

(** * Clusters that run

    The steps of [Elections] that an election needs, as functions, and a sample
    encoding of the state file: a concrete list of actions computes the cluster it
    leads to. *)

Import ReplicationRuntime.

#[export] Instance ClusterMember_countable : Countable ClusterMember.
Proof.
  refine (inj_countable' (fun m => (cm_node_id m, cm_advertise_addr m, cm_voter m))
            (fun '(a, b, c) => mkClusterMember a b c) _). by intros [].
Defined.

#[export] Instance PersistedReplicationState_eq_dec : EqDecision PersistedReplicationState.
Proof. solve_decision. Defined.

#[export] Instance PersistedReplicationState_countable : Countable PersistedReplicationState.
Proof.
  refine (inj_countable' (fun p => (pr_current_term p, pr_voted_for p, pr_members p))
            (fun '(a, b, c) => mkPersistedReplicationState a b c) _). by intros [].
Defined.

#[export] Instance sample_json : ReplicationJson := {|
  persisted_to_json p := Ok (pos_bytes (encode p));
  persisted_from_json := countable_decode;
  persisted_from_to := countable_round_trip;
|}.

(** ** Actions *)

(** A request or a reply is named by its place in the list of those sent. *)
Inductive action :=
| Begin (n : string) (env : Env) (addr : string)
| Skip (n : string)
| Ask (n : string)
| Vote (request : nat) (env : Env)
| Receive (n : string) (reply : nat)
| GiveUp (n : string)
| Finalize (n : string) (env : Env).

#[export] Instance VoteRequest_eq_dec : EqDecision VoteRequest.
Proof. solve_decision. Defined.

Section runs.
Context `{ReplicationJson} (V : gset string).

Definition act (a : action) (c : Cluster) : option Cluster :=
  match a with
  | Begin n env addr =>
      rt ← cl_nodes c !! n;
      match begin_election env rt with
      | (rt', Ok probe) =>
          Some (c {{ cl_nodes ::= <[n := rt']>;
                     cl_rounds ::= <[n := start_round addr probe]>;
                     cl_started ::= cons (rn_term (start_round addr probe), n) }})
      | (_, Err _) => None
      end
  | Skip n =>
      r ← cl_rounds c !! n;
      member ← head (rn_rest r);
      if skipped n member then Some (c {{ cl_rounds ::= <[n := advance member false r]> }}) else None
  | Ask n =>
      r ← cl_rounds c !! n;
      member ← head (rn_rest r);
      if skipped n member then None
      else Some (c {{ cl_rounds ::= <[n := r {{ rn_waiting := true }}]>;
                      cl_requests ::= cons (cm_node_id member, round_request n r) }})
  | Vote i env =>
      q ← cl_requests c !! i;
      rt ← cl_nodes c !! q.1;
      match handle_vote_request env q.2 rt with
      | (rt', Ok response) =>
          Some (c {{ cl_nodes ::= <[q.1 := rt']>; cl_replies ::= cons (q.1, q.2, response) }})
      | (_, Err _) => None
      end
  | Receive n i =>
      r ← cl_rounds c !! n;
      member ← head (rn_rest r);
      p ← cl_replies c !! i;
      if rn_waiting r && bool_decide (p.1 = (cm_node_id member, round_request n r)) &&
         (vs_term p.2 <=? rn_term r)
      then Some (c {{ cl_rounds ::= <[n := advance member (vs_vote_granted p.2) r]> }})
      else None
  | GiveUp n =>
      r ← cl_rounds c !! n;
      member ← head (rn_rest r);
      if rn_waiting r then Some (c {{ cl_rounds ::= <[n := advance member false r]> }}) else None
  | Finalize n env =>
      r ← cl_rounds c !! n;
      rt ← cl_nodes c !! n;
      match rn_rest r with
      | [] =>
          let rt' := (finalize_election env (rn_term r) (rn_votes r) (Nat.max (rn_voters r) 1) rt).1 in
          Some (c {{ cl_nodes ::= <[n := rt']>;
                     cl_rounds ::= delete n;
                     cl_elected ::= if bool_decide (role rt' = RoleLeader)
                                    then cons (current_term rt', n) else id }})
      | _ => None
      end
  end.

Definition acts (l : list action) (c : Cluster) : option Cluster :=
  foldl (fun c a => c ≫= act a) (Some c) l.

Lemma act_step a c c' : act a c = Some c' -> step V c c'.
Proof.
  destruct a; cbn; intros Ha.
  - apply bind_Some in Ha as (rt & Hn & Ha).
    destruct (begin_election env rt) as [rt' [probe|]] eqn:E; [|done]. injection Ha as <-.
    by eapply StepBegin.
  - apply bind_Some in Ha as (r & Hr & (member & Hm & Ha)%bind_Some).
    destruct (skipped n member) eqn:E; [|done]. injection Ha as <-. by eapply StepSkip.
  - apply bind_Some in Ha as (r & Hr & (member & Hm & Ha)%bind_Some).
    destruct (skipped n member) eqn:E; [done|]. injection Ha as <-. by eapply StepAsk.
  - apply bind_Some in Ha as ([v q] & Hq & (rt & Hv & Ha)%bind_Some). cbn in Hv, Ha.
    destruct (handle_vote_request env q rt) as [rt' [response|]] eqn:E; [|done]. injection Ha as <-.
    eapply StepVote; [|done..]. by eapply list_elem_of_lookup_2.
  - apply bind_Some in Ha as (r & Hr & (member & Hm & ([[v q] response] & Hp & Ha)%bind_Some)%bind_Some).
    destruct (_ && _ && _) eqn:E; [|done]. injection Ha as <-.
    apply andb_prop in E as [[Hw Hb]%andb_prop Ht]. apply bool_decide_eq_true in Hb. cbn in *.
    injection Hb as -> ->. eapply StepReceive; [done..| |lia]. by eapply list_elem_of_lookup_2.
  - apply bind_Some in Ha as (r & Hr & (member & Hm & Ha)%bind_Some).
    destruct (rn_waiting r) eqn:E; [|done]. injection Ha as <-. by eapply StepGiveUp.
  - apply bind_Some in Ha as (r & Hr & (rt & Hn & Ha)%bind_Some).
    destruct (rn_rest r) eqn:E; [|done]. injection Ha as <-.
    eapply StepFinalize; [done..|]. apply surjective_pairing.
Qed.

Lemma acts_reachable l c c' : reachable V c -> acts l c = Some c' -> reachable V c'.
Proof.
  unfold acts. revert c. induction l as [|a l IH]; intros c Hc Ha; cbn in Ha.
  { by injection Ha as <-. }
  destruct (act a c) as [c1|] eqn:E.
  - apply (IH c1); [|done]. by eapply reachable_step, act_step.
  - exfalso. clear -Ha. induction l; cbn in *; auto; done.
Qed.

End runs.

(** ** Three nodes *)

Definition three_nodes : list string := ["a"; "b"; "c"]%string.
Definition three_voters : gset string := list_to_set three_nodes.

Definition three_config (n : string) : ReplicationConfig := {|
  rc_node_id := n;
  rc_group_id := "group";
  rc_advertise_addr := None;
  rc_role := RoleFollower;
  rc_upstream := None;
  rc_write_ack_mode := AckReplica;
  rc_ack_timeout := 0;
  rc_fetch_batch_size := 100;
  rc_stale_after := 0;
  rc_heartbeat_interval := 0;
  rc_election_timeout_min := 0;
  rc_election_timeout_max := 0;
  rc_initial_members := (fun n => mkClusterMember n n true) <$> three_nodes;
|}.

(** A clock that stands at [t], and a file system that works. *)
Definition at_time (t : Z) : Env := mkEnv (fun _ => t) 0 (fun _ => IoDone).

Definition three_start : Cluster :=
  mkCluster (list_to_map (omap (fun n =>
    match new (at_time 0) (three_config n) (Ok None) with
    | Ok rt => Some (n, rt)
    | Err _ => None
    end) three_nodes)) ∅ [] [] [] [] [].

Lemma three_members : members_ok three_voters (insert_members (rc_initial_members (three_config "a")) ∅).
Proof. split; [by apply (bool_decide_unpack _)|by vm_compute]. Qed.

Lemma three_start_initial : initial three_voters three_start.
Proof.
  split; [|done]. intros n rt Hn%elem_of_list_to_map_2.
  apply list_elem_of_omap in Hn as (m & Hm & E).
  destruct (new (at_time 0) (three_config m) (Ok None)) as [rt'|] eqn:Enew; [|done].
  injection E as -> ->. assert (rr_config rt = three_config n) as Hc by by injection Enew as <-.
  rewrite Hc. split_and!; [|done|apply three_members|by exists (at_time 0)].
  by apply elem_of_list_to_set, Hm.
Qed.

(** [c] asks [a] and [b]; [a] grants its vote. *)
Definition three_elect : list action :=
  [Begin "c" (at_time 1) "c"; Ask "c"; Vote 0 (at_time 1); Receive "c" 0; Ask "c"; GiveUp "c";
   Skip "c"; Finalize "c" (at_time 1)].

Definition three_elected : Cluster := default three_start (acts three_elect three_start).

Lemma three_elected_reachable : reachable three_voters three_elected.
Proof.
  apply (acts_reachable _ three_elect three_start).
  - apply reachable_initial, three_start_initial.
  - unfold three_elected. destruct (acts three_elect three_start) eqn:E; [done|].
    by vm_compute in E.
Qed.

(** * Three servers *)

Import ReplicationRuntime.

(** The node after a handler that succeeds, with what it returned. *)
Definition done {A} (m : fallible (Node DiskEngine) ServerError A) (node : Node DiskEngine)
    : option (Node DiskEngine * A) :=
  match m node with (node', Ok a) => Some (node', a) | (_, Err _) => None end.

Lemma done_ok {A} (m : fallible (Node DiskEngine) ServerError A) node node' a :
  done m node = Some (node', a) -> m node = (node', Ok a).
Proof. unfold done. by destruct (m node) as [? [?|?]]; intros [= <- <-]. Qed.

(** The log of a node is in order and goes back to the first entry. *)
Definition log_checks (node : Node DiskEngine) : bool :=
  let core := de_core (nd_engine node) in
  bool_decide (we_sequence <$> en_wal_entries core = seqZ 1 (Z.of_nat (length (en_wal_entries core)))) &&
  (Z.of_nat (length (en_wal_entries core)) =? last_sequence (en_state core)) &&
  match build_wal_entry_identities (en_wal_entries core) with
  | Ok identities => bool_decide (identities = en_wal_entry_identities core)
  | Err _ => false
  end.

Lemma log_checks_ok node :
  log_checks node = true -> log_ok (de_core (nd_engine node)) /\ complete_log (nd_engine node).
Proof.
  unfold log_checks. destruct (build_wal_entry_identities _) as [ids|] eqn:Eb; [|by rewrite andb_false_r].
  intros [[Hc%bool_decide_eq_true Hl%Z.eqb_eq]%andb_true_iff Hi%bool_decide_eq_true]%andb_true_iff.
  split; [|exact Hl]. apply (built_log_ok _ 1); [lia|done|lia|]. by rewrite <- Hi.
Qed.

(** Two nodes of a run are paired. *)
Definition pair_checks (id : string) (leader follower : Node DiskEngine) : bool :=
  let rt := nd_runtime leader in
  let self := rc_node_id (rr_config rt) in
  log_checks leader && log_checks follower &&
  (0 <=? engine_sequence leader) && (engine_sequence leader <? u64_max) &&
  bool_decide (map_Forall (fun k member => cm_node_id member = k) (rp_members (rr_state rt))) &&
  is_voting_member (rr_state rt) self && is_voting_member (rr_state (nd_runtime follower)) self &&
  (current_term (nd_runtime follower) <=? current_term rt) &&
  bool_decide (role rt = RoleLeader) && negb (bool_decide (id = self)) &&
  is_voting_member (rr_state rt) id &&
  (1 <=? follower_next_sequence id rt) && (follower_next_sequence id rt <=? engine_sequence leader + 1).

Lemma pair_checks_ok id leader follower : pair_checks id leader follower = true -> paired id leader follower.
Proof.
  unfold pair_checks. rewrite !andb_true_iff, !Z.leb_le, Z.ltb_lt, negb_true_iff, bool_decide_eq_false, !bool_decide_eq_true.
  intros [[[[[[[[[[[[[Hl Hcomp]%log_checks_ok [Hf _]%log_checks_ok] H0] H1] Hkey] Hself] Hfself] Hterm] Hrole] Hne] Hid] Hn1] Hn2].
  unfold paired, leads, listens, reachable_peer. split_and!; try done.
  unfold is_voting_member in Hid.
  destruct (rp_members (rr_state (nd_runtime leader)) !! id) as [member|]; [by exists member|done].
Qed.

Definition member_of (n : string) : ClusterMember := mkClusterMember n n true.
Definition request_id : Uuid := replicate 16 x00.
Definition set_to (key value : string) : list (Uuid * Command) :=
  [(request_id, CmdSet key (as_bytes value) SetOptions_default)].

Definition start_node (de : DiskEngine) (rt : ReplicationRuntime) : Node DiskEngine :=
  mkNode de rt (CommittedReadIndex.rebuild_from_engine_state (de_state de)).

(** A node of the elected cluster with a fresh engine. *)
Definition elected_node (n : string) : option (Node DiskEngine) :=
  start_node run1 <$> cl_nodes three_elected !! n.

(** The leader [leader] sends its plan; [member] handles the append it gets, and
    its answer is taken when [answered]. *)
Definition replicate_to (t : Z) (answered : bool) (leader : Node DiskEngine) (id : string)
    (member : Node DiskEngine) : option (Node DiskEngine * Node DiskEngine) :=
  '(leader, plans) ← done (plan_appends (at_time t) t) leader;
  '(_, message) ← List.find (fun p => bool_decide (cm_node_id p.1 = id)) plans;
  match message with
  | SendSnapshot _ => None
  | SendAppend payload =>
      '(member, answer) ← done (handle_append (at_time t) t payload) member;
      if answered then
        '(leader, _) ← done (take_answer (at_time t) (current_term (nd_runtime leader))
                               (rc_node_id (rr_config (nd_runtime leader))) (member_of id) answer) leader;
        Some (leader, member)
      else Some (leader, member)
  end.

(** The round of [run_election_round] in which only [voter] answers: prevote,
    election, and the first entry of the new leader. *)
Definition elect (t : Z) (candidate : Node DiskEngine) (voter : Node DiskEngine)
    : option (Node DiskEngine * Node DiskEngine) :=
  let self := rc_node_id (rr_config (nd_runtime candidate)) in
  let probe := election_probe (nd_runtime candidate) in
  '(voter, prevote) ← done (on_runtime (handle_vote_request (at_time t)
     ((round_request self (start_round self probe)) {{ vr_prevote := true }}))) voter;
  if election_due (at_time t) (nd_runtime candidate) && vs_vote_granted prevote then
    '(candidate, probe) ← done (on_runtime (begin_election (at_time t))) candidate;
    '(voter, answer) ← done (on_runtime (handle_vote_request (at_time t)
                               (round_request self (start_round self probe)))) voter;
    let votes := if vs_vote_granted answer then 2%nat else 1%nat in
    '(candidate, won) ← done (on_runtime (finalize_election (at_time t) (vs_term answer) votes 3)) candidate;
    if (won : bool) then
      '(candidate, _) ← done (lead t (vs_term answer)) candidate;
      Some (candidate, voter)
    else None
  else None.

(** A write of a leader up to the fan-out. *)
Definition write (t : Z) (key value : string) (leader : Node DiskEngine)
    : option (Node DiskEngine * (list ExecuteResult * Z)) :=
  done (coordinate_writes t t (set_to key value)) leader.

(** Its end: acknowledged when the frontier is committed, rolled back otherwise. *)
Definition finish (t : Z) (results : list ExecuteResult) (frontier : Z) (leader : Node DiskEngine)
    : Node DiskEngine * option (list (result ServerError Response)) :=
  let driven := if frontier <=? commit_sequence (nd_runtime leader) then Ok tt
                else Err SrvReplicationAckUnavailable in
  match finish_writes t results frontier driven leader with
  | (leader, Ok responses) => (leader, Some responses)
  | (leader, Err _) => (leader, None)
  end.

(** A write that [member] acknowledges. *)
Definition commit_write (t : Z) (key value : string) (leader : Node DiskEngine) (id : string)
    (member : Node DiskEngine)
    : option (Node DiskEngine * Node DiskEngine * list (result ServerError Response)) :=
  '(leader, (results, frontier)) ← write t key value leader;
  '(leader, member) ← replicate_to t true leader id member;
  match finish t results frontier leader with
  | (leader, Some responses) => Some (leader, member, responses)
  | (_, None) => None
  end.

(** A write that reaches [member], whose answer is lost, and that is rolled back. *)
Definition fail_write (t : Z) (key value : string) (leader : Node DiskEngine) (id : string)
    (member : Node DiskEngine) : option (Node DiskEngine * Node DiskEngine) :=
  '(leader, (results, frontier)) ← write t key value leader;
  '(leader, member) ← replicate_to t false leader id member;
  match finish t results frontier leader with
  | (_, Some _) => None
  | (leader, None) => Some (leader, member)
  end.

Definition Three : Type := Node DiskEngine * Node DiskEngine * Node DiskEngine.

(** The three nodes with the first entry of [c]. *)
Definition three_ready : option Three :=
  a ← elected_node "a";
  b ← elected_node "b";
  c ← elected_node "c";
  '(c, _) ← done (lead 2 1) c;
  '(c, b) ← replicate_to 3 true c "b" b;
  '(c, a) ← replicate_to 4 true c "a" a;
  Some (a, b, c).

(** What a client reads of ["k"] on a node, and what its engine holds. *)
Definition read_k (node : Node DiskEngine) : option (result ServerError Response) :=
  fast_read 50 request_id (CmdGet "k") node.
Definition k_of (node : Node DiskEngine) : option string := value_of "k" (nd_engine node).
Definition acknowledged : list (result ServerError Response) := [Ok (Response.ok request_id)].
Definition read_as (value : option string) : result ServerError Response :=
  match value with
  | Some value => from_transport (Response.value request_id value)
  | None => Ok (Response.not_found request_id)
  end.

(** ** Rolled back on the leader, kept by a follower *)

(** [c] writes ["x"], which only [b] gets and whose answer is lost, and rolls it
    back; then it writes ["y"] in its place, which [a] acknowledges. *)
Definition replaced_write : option (Three * list (result ServerError Response)) :=
  '(a, b, c) ← three_ready;
  '(c, b) ← fail_write 5 "k" "x" c "b" b;
  '(c, a, responses) ← commit_write 8 "k" "y" c "a" a;
  Some (a, b, c, responses).

(** [c] crashes; [b] wins term 2 with the vote of [a] and replicates its log. *)
Definition lost_write : option (Three * list (result ServerError Response)) :=
  '(a, b, c, responses) ← replaced_write;
  '(b, a) ← elect 20 b a;
  '(b, a) ← replicate_to 21 true b "a" a;
  Some (a, b, c, responses).

(** [b] gets ["y"] and its commit position from [c], and wins term 2. *)
Definition stale_index : option (Three * list (result ServerError Response)) :=
  '(a, b, c, responses) ← replaced_write;
  '(c, b) ← replicate_to 12 true c "b" b;
  '(c, b) ← replicate_to 13 true c "b" b;
  '(b, a) ← elect 20 b a;
  '(b, a) ← replicate_to 21 true b "a" a;
  Some (a, b, c, responses).

(** [a] acknowledges ["w"], ["x"] and then ["y"]; [c] crashes, [a] wins term 2 with the
    vote of [b], which is behind, and commits its first entry. *)
Definition failed_over : option (Three * list (result ServerError Response)) :=
  '(a, b, c) ← three_ready;
  '(c, a, _) ← commit_write 5 "k" "w" c "a" a;
  '(c, a, _) ← commit_write 6 "k" "x" c "a" a;
  '(c, a, responses) ← commit_write 8 "k" "y" c "a" a;
  '(a, b) ← elect 20 a b;
  '(a, b) ← replicate_to 21 true a "b" b;
  '(a, b) ← replicate_to 22 true a "b" b;
  Some (a, b, c, responses).

(** ["z"] is written to another key and [b] fetches it. *)
Definition fetched : option Three :=
  '(a, b, c, _) ← replaced_write;
  '(c, a, _) ← commit_write 10 "m" "z" c "a" a;
  let status := snapshot (at_time 11) (nd_runtime c) in
  '(b, request) ← done (round_status (at_time 11) "c" status) b;
  request ← request;
  '(c, entries) ← done (handle_fetch request) c;
  '(b, ack) ← done (round_apply status entries) b;
  ack ← ack;
  '(c, _) ← done (handle_ack (at_time 12) ack) c;
  '(c, b) ← replicate_to 13 true c "b" b;
  Some (a, b, c).

(** [b] acknowledges two writes and comes back with an empty directory. *)
Definition wiped : option (Node DiskEngine * Node DiskEngine) :=
  '(a, b, c) ← three_ready;
  '(c, b, _) ← commit_write 5 "k" "x" c "b" b;
  '(c, b, _) ← commit_write 8 "k" "y" c "b" b;
  b ← elected_node "b";
  Some (c, b).

(** ** Compacted logs *)

(** The same node with an engine that retains no sealed segments. *)
Definition forgetful (node : Node DiskEngine) : Node DiskEngine :=
  mkNode (unwrap blank_engine
            (from_paths_with_options 0 0 0 empty_disk (mkEngineOptions Flush None 64 0)))
    (nd_runtime node) (nd_index node).

Definition save (t : Z) (node : Node DiskEngine) : option (Node DiskEngine) :=
  fst <$> done (on_engine (DiskEngine.snapshot (inputs_at t))) node.

(** The leader sends a snapshot, which [member] installs. *)
Definition install_on (t : Z) (leader : Node DiskEngine) (id : string) (member : Node DiskEngine)
    : option (Node DiskEngine * Node DiskEngine) :=
  '(leader, plans) ← done (plan_appends (at_time t) t) leader;
  '(_, message) ← List.find (fun p => bool_decide (cm_node_id p.1 = id)) plans;
  match message with
  | SendSnapshot payload =>
      '(member, answer) ← done (handle_install_snapshot (at_time t) t (replicate NONCE_LEN x00) payload) member;
      '(leader, _) ← done (take_answer (at_time t) (sq_term payload) (sq_leader_node_id payload) (member_of id)
          (mkAppendEntriesResponse (sp_term answer) (sp_accepted answer) (sp_applied_sequence answer))) leader;
      Some (leader, member)
  | SendAppend _ => None
  end.

(** [c] writes ["x"], takes a snapshot and writes to ["m"]; [a] has everything and
    [b] was never reached. *)
Definition compacted : option Three :=
  a ← elected_node "a";
  b ← elected_node "b";
  c ← forgetful <$> elected_node "c";
  '(c, _) ← done (lead 2 1) c;
  '(c, a) ← replicate_to 3 true c "a" a;
  '(c, a, _) ← commit_write 5 "k" "x" c "a" a;
  c ← save 7 c;
  '(c, _) ← write 8 "m" "y" c;
  '(c, a) ← install_on 9 c "a" a;
  Some (a, b, c).

(** [a] has the first entry; [b] acknowledges ["x"] and, after [c] took a snapshot,
    installs it; [c] crashes and [a] asks [b] for its vote. *)
Definition forgotten_term : option (Three * list (result ServerError Response)) :=
  a ← elected_node "a";
  b ← elected_node "b";
  c ← forgetful <$> elected_node "c";
  '(c, _) ← done (lead 2 1) c;
  '(c, a) ← replicate_to 3 true c "a" a;
  '(c, b) ← replicate_to 4 true c "b" b;
  '(c, b, responses) ← commit_write 5 "k" "x" c "b" b;
  c ← save 7 c;
  '(c, b) ← install_on 8 c "b" b;
  '(a, b) ← elect 20 a b;
  Some (a, b, c, responses).
