(* ===== verification/AccessRuns.v ===== *)
(** * AccessRuns: a standalone server with users

    Sample hashes and documents for the users, and a server with an administrator
    and a user who may write the keys under [app:]. *)

From S2P Require Import Prelude Text Command EngineError Store State Crypto Wal WalFacts.
From S2P Require Import WalLayout Opcode Wire Request Response Frame ServerError ReadIndex.
From S2P Require Import Consensus Auth Access Status BackupFiles Engine Transaction Backup.
From S2P Require Import Replication DiskLog Storage DiskEngine EngineWorker Node WritePath.
From S2P Require Import DiskHandle Dispatch Samples Elections NodeRuns ReplicaDisk Runs.
Import ReplicationRuntime.

(** A hash that shows the password. *)
#[export] Instance sample_password_hash : PasswordHash.
Proof.
  refine {|
    ph_hash _ password := Some (String.append "$" password);
    ph_verify hash password := Some (bool_decide (hash = String.append "$" password));
  |}.
  intros salt password hash [= <-]. by rewrite bool_decide_eq_true_2.
Defined.

#[export] Instance UserRecord_eq_dec : EqDecision UserRecord.
Proof. solve_decision. Defined.
#[export] Instance UserRecord_countable : Countable UserRecord.
Proof.
  refine (inj_countable' (fun u => (ur_password_hash u, ur_roles u, ur_disabled u))
            (fun '(a, b, c) => mkUserRecord a b c) _). by intros [].
Defined.

#[export] Instance RoleRecord_eq_dec : EqDecision RoleRecord.
Proof. solve_decision. Defined.
#[export] Instance RoleRecord_countable : Countable RoleRecord.
Proof.
  refine (inj_countable' (fun r => (ro_permissions r, ro_grants r)) (fun '(a, b) => mkRoleRecord a b) _). by intros [].
Defined.

#[export] Instance StoredAuth_eq_dec : EqDecision StoredAuth.
Proof. solve_decision. Defined.
#[export] Instance StoredAuth_countable : Countable StoredAuth.
Proof.
  refine (inj_countable' (fun s => (sa_version s, sa_users s, sa_roles s, sa_bootstrap_admin s))
            (fun '(a, b, c, d) => mkStoredAuth a b c d) _). by intros [].
Defined.

#[export] Instance sample_auth_json : AuthJson := {|
  auth_to_json stored := Ok (pos_bytes (encode stored));
  auth_from_json := countable_decode;
  auth_from_to := countable_round_trip;
|}.

#[export] Instance sample_sha256 : Sha256 := fun bytes => take 32 bytes.
#[export] Instance BackupManifest_eq_dec : EqDecision BackupManifest.
Proof. solve_decision. Defined.
#[export] Instance BackupManifest_countable : Countable BackupManifest.
Proof.
  refine (inj_countable'
    (fun m => (bm_manifest_version m, bm_backup_version m, bm_created_at_ms m, bm_source_engine_version m,
               bm_source_sequence m, bm_entry_count m, bm_byte_len m, bm_hash_algorithm m, bm_sha256 m))
    (fun '(a, b, c, d, e, f, g, h, i) => mkBackupManifest a b c d e f g h i) _).
  by intros [].
Defined.
#[export] Instance sample_dump_json : DumpJson := {|
  document_from_str s :=
    b ← countable_decode (A := LogicalBackup) (as_bytes s);
    Ok (mkBackupDocumentHeader (lb_version b) (lb_created_at_ms b) (lb_source_engine_version b)
          (lb_source_sequence b) (length (lb_entries b)));
  manifest_to_vec manifest := Ok (pos_bytes (encode manifest));
  manifest_from_slice := countable_decode;
  manifest_from_to := countable_round_trip;
|}.

(** ** Users *)

Definition auth_inputs : AuthInputs := mkAuthInputs [x01] (replicate NONCE_LEN x00) IoDone.
Definition ignore {A E} (default : A) (r : result E A) : A := match r with Ok a => a | Err _ => default end.

Definition first_store : AuthStore :=
  ignore (mkAuthStore (mkStoredAuth 0 ∅ ∅ None) None None) (auth_new auth_inputs "root" "root-secret-1").

(** [app] may read and write under [app:]. *)
Definition add_app : fallible AuthStore ServerError unit :=
  _ ← AuthStore.create_user auth_inputs "app" "app-secret-12";
  _ ← AuthStore.create_role auth_inputs "apps";
  _ ← AuthStore.grant_permission auth_inputs PermRead "app:*" "apps";
  _ ← AuthStore.grant_permission auth_inputs PermWrite "app:*" "apps";
  AuthStore.grant_role auth_inputs "apps" "app".
Definition app_store : AuthStore := (add_app first_store).1.

Definition nobody : Identity := mkIdentity "nobody" ∅ ∅.
Definition login (store : AuthStore) (username password : string) : Identity :=
  default nobody (ignore None (AuthStore.verify store username password)).
Definition app : Identity := login app_store "app" "app-secret-12".
Definition root : Identity := login app_store "root" "root-secret-1".

(** ** The server *)

Definition lone_config : ReplicationConfig := {|
  rc_node_id := "a";
  rc_group_id := "group";
  rc_advertise_addr := None;
  rc_role := RoleStandalone;
  rc_upstream := None;
  rc_write_ack_mode := AckReplica;
  rc_ack_timeout := 0;
  rc_fetch_batch_size := 100;
  rc_stale_after := 0;
  rc_heartbeat_interval := 0;
  rc_election_timeout_min := 0;
  rc_election_timeout_max := 0;
  rc_initial_members := [];
|}.

(** What a call that succeeds returns. *)
Definition get_ok {E A} (r : result E A) : is_ok r = true -> A :=
  match r with Ok a => fun _ => a | Err _ => fun H => match Bool.diff_false_true H with end end.

Definition lone_runtime : ReplicationRuntime := get_ok (new (at_time 0) lone_config (Ok None)) eq_refl.

Definition no_guards : ServerConfig :=
  mkServerConfig (mkServerGuards 1000 1000 1000 1000 1000 1000 1000) 60000 3 300000 60000 "maintenance" false
    (mkServerSettings "1" "sha" CodecOptions_default false false false None "backups" 1 1 None None None).

Definition lone_server (user : option Identity) : Server :=
  mkServer (start_node run2 lone_runtime) (Some app_store) (MaintenanceMode.load false) ∅ (mkFiles ∅ [])
    (mkSessionState user [] None).

(** Every clock at [ms], and nobody to send to. *)
Definition call_at (ms : Z) : Inputs :=
  mkInputs (fun _ => ms) (mkCommandInputs ms ms ms (inputs_at ms))
    (mkWriteInputs (mkFanOut (at_time ms) ms [] false []) [] (at_time ms) [] ms)
    (at_time ms) auth_inputs IoDone
    (mkMetrics 0 0 0 0 0 0 0 0 0 0 0 0 0 0 0 0 0 0 0 0 0 0 0) None (mkPoolCounters 0 0 0 0 0 0) (fun _ => None)
    (fun _ => WriteDone).

Definition send (ms : Z) (command : Command) (server : Server) : Server * result ServerError Response :=
  process_command (fun _ => EmptyString) no_guards (call_at ms) None request_id command server.
