(* ===== verification/EngineTheorems.v ===== *)
(** * EngineTheorems: what the storage engine promises

    The properties of the keyspace, of log entries, and of the three ways to run
    commands on the engine: as a transaction, in a batch, and through the storage
    trait. *)

From S2P Require Import Prelude Text Command EngineError Store State Wildcard Engine Transaction.
From S2P Require Import TxFacts BatchFacts StorageFacts History Samples.

Notation last_sequence st := (md_last_applied_sequence (es_metadata st)).

#[local] Instance key_le_total {A} : Total (@EngineStore.key_le A).
Proof. intros x y. unfold EngineStore.key_le. apply (total String.le). Qed.

#[local] Instance key_le_trans {A} : Transitive (@EngineStore.key_le A).
Proof. intros x y z. unfold EngineStore.key_le. apply transitivity. Qed.

(** The sorted listing holds each key once, with its value. *)
Lemma live_entries_map (s : EngineStore) :
  list_to_map (merge_sort EngineStore.key_le ((fun kv => (kv.1, sv_value kv.2)) <$> map_to_list s)) =
    sv_value <$> s.
Proof.
  assert (((fun kv => (kv.1, sv_value kv.2)) <$> map_to_list s) = prod_map id sv_value <$> map_to_list s)
    as -> by (by apply list_fmap_ext; intros ? []).
  rewrite <- map_to_list_fmap. etrans; [|apply list_to_map_to_list].
  apply list_to_map_proper; [|apply merge_sort_Permutation].
  rewrite merge_sort_Permutation. apply NoDup_fst_map_to_list.
Qed.

(** ** A guarded SET *)

(** The deadline that the options give the entry. *)
Definition set_deadline (now : Z) (options : EngineSetOptions) (old : option StoredValue) : option Z :=
  match eso_expiration options with
  | Some expiration => Some (resolve_expiration now expiration)
  | None => if eso_keep_ttl options then old ≫= sv_expires_at_ms else None
  end.

Lemma set_allowed_iff condition if_version old :
  set_allowed condition if_version old = true <->
  (condition = Some IfMissing -> old = None) /\ (condition = Some IfPresent -> is_Some old) /\
  (forall expected, if_version = Some expected -> sv_version <$> old = Some expected).
Proof.
  unfold set_allowed. rewrite andb_true_iff. split.
  - intros [Hc Hv]. split_and!.
    + intros ->. by destruct old.
    + intros ->. by destruct old.
    + intros expected ->. by apply bool_decide_eq_true in Hv.
  - intros (Hn & Hx & Hv). split.
    + destruct condition as [[]|]; [by rewrite Hn|by destruct (Hx eq_refl) as [? ->]|done].
    + destruct if_version; [|done]. by apply bool_decide_eq_true, Hv.
Qed.

(** What the operations of an allowed SET leave of a swept keyspace. *)
Lemma guarded_set_run now key value options (s : EngineStore) :
  purged now s ->
  let old := s !! key in
  let deadline := set_deadline now options old in
  ops_run s
    (WalSet key value (next_value_version old) ::
     match eso_expiration options with
     | Some expiration =>
         let expires_at_ms := resolve_expiration now expiration in
         if expires_at_ms <=? now then [WalDelete key] else [WalExpire key expires_at_ms]
     | None =>
         if eso_keep_ttl options then
           match old ≫= sv_expires_at_ms with
           | Some expires_at_ms => [WalExpire key expires_at_ms]
           | None => []
           end
         else []
     end) =
  Ok (if default (now + 1) deadline <=? now then delete key s
      else <[key := mkStoredValue value deadline (next_value_version old)]> s).
Proof.
  intros Hp. cbv zeta. unfold set_deadline.
  destruct (eso_expiration options) as [x|]; cbn [default from_option id].
  - destruct (resolve_expiration now x <=? now); unfold ops_run; cbn.
    + by rewrite delete_insert_eq.
    + by rewrite alter_insert_eq.
  - assert (ops_run s [WalSet key value (next_value_version (s !! key))] =
      Ok (if default (now + 1) None <=? now then delete key s
          else <[key := mkStoredValue value None (next_value_version (s !! key))]> s)) as Hno.
    { change (default (now + 1) None) with (now + 1). by rewrite (proj2 (Z.leb_gt _ _)) by lia. }
    destruct (eso_keep_ttl options); [|exact Hno]. destruct (s !! key) as [e|] eqn:Ek; [|exact Hno].
    cbn [mbind option_bind]. destruct (sv_expires_at_ms e) as [d|] eqn:Ed; [|exact Hno].
    specialize (Hp key e Ek). unfold EngineStore.is_expired in Hp. rewrite Ed in Hp. cbn in Hp |- *.
    rewrite Hp. unfold ops_run. cbn. by rewrite alter_insert_eq.
Qed.

(** ** Running commands *)

Section commands.
Context {W : Type} `{WalWriter W} `{EntryChecksum}.

(** C3: MULTI/EXEC is atomic and logged as one entry.  A transaction that fails
    leaves the keyspace as the sweep of expired keys left it and nothing in the
    log; one that succeeds leaves the keyspace its commands produce one after
    the other, and, when they changed anything, appends exactly one entry with
    the next sequence number, whose replay from the swept keyspace gives the new
    state and which is durable once the log took it. *)
Theorem execute_transaction_atomic now entry_ms cs (eng eng' : Engine W) r :
  0 <= now < u64_max -> Forall command_typed cs ->
  Transaction.execute_transaction now entry_ms cs eng = (eng', r) ->
  let st0 := purge_state now (en_state eng) in
  match r with
  | Err _ => en_state eng' = st0 /\ en_wal_entries eng' = en_wal_entries eng
  | Ok results => exists working ops,
      evaluate_commands now cs [] (st0, []) = ((working, ops), Ok results) /\
      es_store (en_state eng') = es_store working /\
      match ops with
      | [] => en_state eng' = st0 /\ en_wal_entries eng' = en_wal_entries eng /\
              en_wal_writer eng' = en_wal_writer eng
      | _ => exists entry,
          we_operations entry = ops /\
          we_sequence entry = wrapping_add (last_sequence (en_state eng)) 1 /\
          apply_entry st0 entry = (en_state eng', Ok tt) /\
          en_wal_entries eng' = en_wal_entries eng ++ [entry] /\
          (wal_accepts (en_wal_writer eng) [entry] ->
           wal_durable (en_wal_writer eng') = wal_durable (en_wal_writer eng) ++ [entry])
      end
  end.
Proof.
  intros Hnow Hcs Hx. pose proof (execute_transaction_spec _ _ _ _ _ _ Hnow Hcs Hx) as Hs.
  cbv zeta. destruct r as [results|e]; [|by destruct Hs as [? [? _]]].
  destruct Hs as (working & ops & Hev & Hst & Hc). exists working, ops. split_and!; [done..|].
  unfold committed in Hc. rewrite purge_state_sequence in Hc. destruct ops as [|op ops].
  - destruct Hc as (? & [? _] & [? _]). done.
  - destruct Hc as (entry & ? & ? & ? & ? & Ha). exists entry. split_and!; try done.
    by apply appended_durable.
Qed.

(** C8: a batch gives every writing command an entry of its own.  When it succeeds, each
    command that has operations when the commands are evaluated one after another has
    one entry with just these operations, of the current term and the next sequence
    number, and a command without operations has none ([batch_entries]); each command is
    answered with the sequence of its own entry, or of the last one before it
    ([answered_at]).  The entries replay from the swept keyspace to the new state, carry
    together the operations of one transaction of all the commands, which gives the same
    replies, and are durable once the log took them.  When the batch fails, and it does
    not clear the keyspace after changing it, keyspace, metadata and cached log are as
    before. *)
Theorem execute_command_batch_correct now cs (eng eng' : Engine W) r :
  0 <= now < u64_max -> Forall command_typed cs -> (forall e, is_ok (checksum e) = true) ->
  is_u64 (last_sequence (en_state eng)) ->
  is_u64 (last_sequence (en_state eng) + 1 + Z.of_nat (length cs)) ->
  Transaction.execute_command_batch now cs eng = (eng', r) ->
  let st0 := purge_state now (en_state eng) in
  let operations := command_operations now cs st0 in
  match r with
  | Err _ => clear_safe cs = true ->
      en_state eng' = st0 /\ en_wal_entries eng' = en_wal_entries eng
  | Ok results => exists entries working,
      entries = batch_entries now (en_current_consensus_term eng) (last_sequence (en_state eng)) operations /\
      cb_last_applied_sequence <$> results = answered_at (last_sequence (en_state eng)) operations /\
      we_sequence <$> entries =
        seqZ (last_sequence (en_state eng) + 1) (Z.of_nat (length entries)) /\
      apply_entries st0 entries = (en_state eng', Ok tt) /\
      en_wal_entries eng' = en_wal_entries eng ++ entries /\
      (wal_accepts (en_wal_writer eng) entries ->
       wal_durable (en_wal_writer eng') = wal_durable (en_wal_writer eng) ++ entries) /\
      evaluate_commands now cs [] (st0, []) =
        ((working, log_ops entries), Ok (cb_result <$> results)) /\
      es_store (en_state eng') = es_store working
  end.
Proof.
  intros Hnow Hcs Hsum Hs1 Hs2 Hx.
  pose proof (execute_command_batch_spec _ _ _ _ _ Hnow Hcs Hsum Hs1 Hs2 Hx) as Hs.
  cbv zeta. destruct r as [results|e].
  - destruct Hs as (entries & working & ? & ? & Hlog & Ha & ? & ?).
    destruct (execute_command_batch_entries now cs eng eng' results Hnow Hcs) as [Hlog' ?];
      [apply Hs1|unfold is_u64 in Hs2; lia|done|].
    rewrite Hlog in Hlog'. apply app_inv_head in Hlog'. exists entries, working.
    split_and!; try done. by apply appended_durable.
  - intros Hc. destruct (Hs Hc) as [? [? _]]. done.
Qed.

(** C16: the source implements data commands twice.  For every command whose
    trait method sweeps expired keys first (all but MSET, DEL, CLEAR, SCAN, LIST
    and a RENAME of a key onto itself) the method and a one-command transaction
    give the same reply or error and the same engine. *)
Theorem storage_method_is_transaction now entry_ms c (eng : Engine W) :
  0 <= now < u64_max -> command_typed c -> one_path c = true ->
  storage_command now entry_ms c eng = single_transaction now entry_ms c eng.
Proof.
  intros Hnow Hc Hp. rewrite single_transaction_run by done. by apply one_path_agrees.
Qed.

(** C36: a guarded SET.  With [old] the unexpired entry of the key, the write is applied
    exactly when NX finds no entry, XX finds one and the expected version is that of the
    entry; the reply carries the old value.  An applied write stores the value with the
    successor of the old version and the deadline of its options (the old one under
    KEEPTTL), or removes the key if the deadline has passed, and leaves every other key
    alone; it is one entry of the log.  One that is not applied, or that fails, changes
    nothing but sweeping expired keys. *)
Theorem set_with_options_cas now entry_ms key value options (eng eng' : Engine W) r :
  Engine.set_with_options now entry_ms key value options eng = (eng', r) ->
  let swept := es_store (purge_state now (en_state eng)) in
  let old := swept !! key in
  let unchanged := en_state eng' = purge_state now (en_state eng) /\ en_wal_entries eng' = en_wal_entries eng in
  match r with
  | Err _ => unchanged
  | Ok outcome =>
      (so_applied outcome = true <->
         (eso_condition options = Some IfMissing -> old = None) /\
         (eso_condition options = Some IfPresent -> is_Some old) /\
         (forall expected, eso_if_version options = Some expected -> sv_version <$> old = Some expected)) /\
      so_previous outcome = sv_value <$> old /\
      (if so_applied outcome then
         so_version outcome = Some (next_value_version old) /\
         es_store (en_state eng') =
           (let deadline := set_deadline now options old in
            if default (now + 1) deadline <=? now then delete key swept
            else <[key := mkStoredValue value deadline (next_value_version old)]> swept) /\
         exists entry, en_wal_entries eng' = en_wal_entries eng ++ [entry]
       else so_version outcome = sv_version <$> old /\ unchanged)
  end.
Proof.
  unfold Engine.set_with_options. rewrite purge_bind. unfold mbind at 1, fallible_bind at 1, Prelude.mget.
  cbn [en_state Engine.with_state]. unfold EngineState.raw_entry, EngineStore.get.
  pose proof (purge_state_purges now (en_state eng)) as Hp.
  set (st0 := purge_state now (en_state eng)) in *. set (old := es_store st0 !! key) in *. cbv zeta.
  pose proof (set_allowed_iff (eso_condition options) (eso_if_version options) old) as Hiff.
  destruct (set_allowed _ _ old) eqn:Ea; cbn [negb]; [|by intros [= <- <-]].
  set (tail := match eso_expiration options with Some _ => _ | None => _ end).
  unfold Engine.append_and_apply, mbind, fallible_bind, Prelude.mget. cbv beta iota.
  destruct (Engine.commit_entry (Engine.next_entry (Engine.with_state eng st0) entry_ms
              (WalSet key value (next_value_version old) :: tail)) (Engine.with_state eng st0)) as [eng1 rc] eqn:Hc.
  pose proof (guarded_set_run now key value options (es_store st0) Hp) as Hrun.
  eapply (commit_entry_spec (Engine.with_state eng st0)) in Hc as Hs; [|exact Hrun].
  destruct rc as [[]|e]; intros [= <- <-]; cbn [so_applied so_previous so_version].
  - destruct Hs as (-> & ? & _). split_and!; try done. by eexists.
  - destruct Hs as [-> [? _]]. done.
Qed.

(** a client that starts SCAN at cursor 0 and follows the returned cursors
    sees, after at most one page per matching key and one more, every live key
    that matches the pattern exactly once, in order, whatever page size it asks
    for. *)
Theorem scan_complete now pattern count (eng : Engine W) :
  let keys := selected pattern (EngineStore.keys_sorted (live now (es_store (en_state eng)))) in
  exists eng', scan_all (S (length keys)) now pattern count 0 [] eng = (eng', Ok (Some keys)) /\
    es_store (en_state eng') = live now (es_store (en_state eng)) /\ NoDup keys.
Proof.
  cbv zeta. exists (swept now eng). split_and!; [|done|].
  - rewrite scan_all_from; cbn; [by rewrite drop_0 | lia | lia].
  - unfold selected. destruct pattern; [|apply keys_sorted_NoDup].
    apply NoDup_ListNoDup, List.NoDup_filter, NoDup_ListNoDup, keys_sorted_NoDup.
Qed.

(** reads answer from the live view.  GET, EXISTS, MGET, TTL, DBSIZE and
    LIST reply what the entries that have not expired at the time of the call
    say, and leave exactly those entries behind. *)
Theorem reads_see_live now key keys (eng : Engine W) :
  let view := live now (es_store (en_state eng)) in
  (Engine.get now key eng).2 = Ok (sv_value <$> view !! key) /\
  (Engine.exists_ now key eng).2 = Ok (is_some (view !! key)) /\
  (Engine.mget now keys eng).2 = Ok ((fun k => sv_value <$> view !! k) <$> keys) /\
  (Engine.ttl now key eng).2 = Ok (ttl_of now (view !! key)) /\
  (Engine.db_size now eng).2 = Ok (Z.of_nat (size view)) /\
  (exists entries, (Engine.list now eng).2 = Ok entries /\
     StronglySorted EngineStore.key_le entries /\ list_to_map entries = sv_value <$> view) /\
  es_store (en_state (Engine.get now key eng).1) = view.
Proof.
  cbv zeta. unfold Engine.get, Engine.exists_, Engine.ttl, Engine.list.
  rewrite !read_state_run. cbn [fst snd]. rewrite get_live_value, ttl_for_run.
  rewrite <- !(purge_state_store now (en_state eng)). split_and!; try done.
  - unfold EngineState.has_live_key, purge_state. by destruct (EngineState.purge_expired _ _).
  - unfold Engine.mget. by rewrite purge_bind.
  - unfold Engine.db_size. by rewrite purge_bind.
  - eexists. split; [done|].
    unfold EngineState.live_entries, EngineStore.live_entries_sorted, purge_state, EngineState.purge_expired.
    destruct (EngineStore.purge_expired (es_store (en_state eng)) now) as [s n]. cbn. split.
    + apply (StronglySorted_merge_sort EngineStore.key_le).
    + apply live_entries_map.
Qed.

End commands.

(** ** The keyspace *)

(** sweeping removes exactly the entries whose deadline has passed, keeps
    every other entry unchanged, and reports how many it removed. *)
Theorem purge_expired_exact (s : EngineStore) (now : Z) :
  let '(s', removed) := EngineStore.purge_expired s now in
  (forall k, s' !! k = match s !! k with
                       | Some e => if EngineStore.is_expired now e then None else Some e
                       | None => None
                       end) /\
  removed = Z.of_nat (size s) - Z.of_nat (size s').
Proof.
  pose proof (purge_expired_live s now) as Hl. pose proof (purge_expired_count s now) as Hc.
  destruct (EngineStore.purge_expired s now) as [s' removed]. cbn in Hl, Hc. subst. split.
  - intros k. rewrite lookup_live. by destruct (s !! k).
  - rewrite <- (live_size s now). lia.
Qed.

(** the glob matcher of SCAN fills its table correctly: a pattern matches a
    text exactly when the text splits into consecutive pieces, one per pattern
    character, any piece for a star, one character for a question mark, and the
    character itself otherwise. *)
Theorem wildcard_matches_correct (pattern text : string) :
  wildcard_matches pattern text = true <-> glob (chars pattern) (chars text).
Proof. apply wildcard_matches_glob. Qed.

(** ** Log entries *)

(** applying a log entry is all or nothing, for entries that clear the
    keyspace at most as their first operation: it either runs every operation and
    stamps the metadata with the entry, or reports the first error and leaves
    keyspace and metadata untouched. *)
Theorem apply_entry_atomic (st st' : EngineState) (entry : WalEntry) r :
  clear_first (we_operations entry) = true -> apply_entry st entry = (st', r) ->
  match r with
  | Ok _ => exists s, ops_run (es_store st) (we_operations entry) = Ok s /\ st' = applied st entry s
  | Err e => ops_run (es_store st) (we_operations entry) = Err e /\ st' = st
  end.
Proof.
  intros Hc Ha. destruct r as [[]|e]; [by apply apply_entry_ok|].
  split; [|by eapply apply_entry_rollback].
  pose proof (apply_entry_run st entry) as Hr. destruct (ops_run _ _) as [s|e'].
  - congruence.
  - destruct Hr as [st1 Hr]. congruence.
Qed.

Lemma apply_entry_atomic_witness :
  apply_entry sample_state (mkWalEntry 8 1 50 [WalSet "n" (as_bytes "2") 1; WalCheckInteger "b" 1]) =
    (sample_state, Err (InvalidIntegerValue "b" "x")) /\
  ops_run (es_store sample_state) [WalSet "n" (as_bytes "2") 1; WalCheckInteger "b" 1] =
    Err (InvalidIntegerValue "b" "x").
Proof.
  assert (apply_entry sample_state
    (mkWalEntry 8 1 50 [WalSet "n" (as_bytes "2") 1; WalCheckInteger "b" 1]) =
    (sample_state, Err (InvalidIntegerValue "b" "x"))) as Ha by (vm_compute; reflexivity).
  split; [exact Ha|].
  apply (apply_entry_atomic sample_state sample_state
    (mkWalEntry 8 1 50 [WalSet "n" (as_bytes "2") 1; WalCheckInteger "b" 1])
    (Err (InvalidIntegerValue "b" "x")) eq_refl Ha).
Defined.

(** ** Where the two implementations and the rollback fall short *)

#[local] Existing Instance sample_checksum.

(** the rollback of a failed batch is not exact when the batch cleared the
    keyspace after writing to it: the value the batch itself wrote stays, although
    every command of the batch is answered with the error and nothing is logged. *)
Theorem batch_rollback_keeps_write :
  exists eng', Transaction.execute_command_batch 10
      [CmdSet "n" (as_bytes "2") SetOptions_default; CmdClear;
       CmdSet "b" (as_bytes "x") SetOptions_default; CmdIncr "b"] (sample_engine sample_state) =
    (eng', Err (InvalidIntegerValue "b" "x")) /\
  es_store sample_state !! "n"%string = None /\
  es_store (en_state eng') !! "n"%string = Some (mkStoredValue (as_bytes "2") None 1) /\
  wal_durable (en_wal_writer eng') = [].
Proof. eexists. split; [vm_compute; reflexivity|]. vm_compute. done. Qed.

(** DEL counts a repeated key twice through the storage trait and once in a
    transaction. *)
Theorem delete_many_counts_repeats :
  (storage_command 10 10 (CmdDelete ["a"%string; "a"%string]) (sample_engine sample_state)).2 = Ok (TrCount 2) /\
  (single_transaction 10 10 (CmdDelete ["a"%string; "a"%string]) (sample_engine sample_state)).2 = Ok (TrCount 1).
Proof. vm_compute. done. Qed.

(** ** Concrete runs *)

Definition sample_transaction : list Command := [CmdIncr "a"; CmdExpire "a" 5; CmdTtl "s"].

Lemma execute_transaction_atomic_witness :
  exists eng' working ops,
    Transaction.execute_transaction 600 601 sample_transaction (sample_engine sample_state) =
      (eng', Ok [TrInteger 2; TrBoolean true; TrInteger (-2)]) /\
    evaluate_commands 600 sample_transaction [] (purge_state 600 sample_state, []) =
      ((working, ops), Ok [TrInteger 2; TrBoolean true; TrInteger (-2)]).
Proof.
  set (run := Transaction.execute_transaction 600 601 sample_transaction (sample_engine sample_state)).
  assert (run = (run.1, Ok [TrInteger 2; TrBoolean true; TrInteger (-2)])) as Hrun
    by (vm_compute; reflexivity).
  destruct (execute_transaction_atomic 600 601 sample_transaction (sample_engine sample_state) run.1
    (Ok [TrInteger 2; TrBoolean true; TrInteger (-2)])) as (working & ops & Hev & _).
  - unfold u64_max. lia.
  - repeat constructor; done.
  - exact Hrun.
  - exists run.1, working, ops. split; [exact Hrun | exact Hev].
Defined.

Definition sample_batch : list Command := [CmdIncr "a"; CmdGet "s"; CmdClear].

Lemma execute_command_batch_correct_witness :
  exists eng' results,
    Transaction.execute_command_batch 600 sample_batch (sample_engine sample_state) = (eng', Ok results) /\
    we_operations <$> drop (length (en_wal_entries (sample_engine sample_state))) (en_wal_entries eng') =
      [[WalCheckInteger "a" 1]; [WalClear]] /\
    cb_last_applied_sequence <$> results = [8; 8; 9].
Proof.
  set (run := Transaction.execute_command_batch 600 sample_batch (sample_engine sample_state)).
  set (results := [mkCommandBatchResult (TrInteger 2) 8; mkCommandBatchResult TrNotFound 8;
                   mkCommandBatchResult TrOk 9]).
  assert (run = (run.1, Ok results)) as Hrun by (vm_compute; reflexivity).
  destruct (execute_command_batch_correct 600 sample_batch (sample_engine sample_state) run.1
    (Ok results)) as (entries & working & He & Hr & _ & _ & Hlog & _).
  - unfold u64_max. lia.
  - repeat constructor; done.
  - done.
  - split; vm_compute; discriminate.
  - split; vm_compute; discriminate.
  - exact Hrun.
  - exists run.1, results. split; [exact Hrun|]. split; [|exact Hr].
    rewrite Hlog, drop_app_length, He. vm_compute. reflexivity.
Defined.

Lemma storage_method_is_transaction_witness :
  storage_command 600 601 (CmdRename "a" "b") (sample_engine sample_state) =
    single_transaction 600 601 (CmdRename "a" "b") (sample_engine sample_state).
Proof.
  apply storage_method_is_transaction; [unfold u64_max; lia | by split | reflexivity].
Defined.

Definition sample_cas : EngineSetOptions := mkEngineSetOptions None None false (Some 4).

Lemma set_with_options_cas_witness :
  exists eng' outcome,
    Engine.set_with_options 600 601 "a" (as_bytes "9") sample_cas (sample_engine sample_state) =
      (eng', Ok outcome) /\
    so_applied outcome = true /\ so_previous outcome = Some (as_bytes "1") /\
    es_store (en_state eng') !! "a"%string = Some (mkStoredValue (as_bytes "9") None 5).
Proof.
  set (run := Engine.set_with_options 600 601 "a" (as_bytes "9") sample_cas (sample_engine sample_state)).
  set (outcome := mkSetOutcome true (Some (as_bytes "1")) (Some 5)).
  assert (run = (run.1, Ok outcome)) as Hrun by (vm_compute; reflexivity).
  destruct (set_with_options_cas 600 601 "a" (as_bytes "9") sample_cas (sample_engine sample_state)
    run.1 (Ok outcome) Hrun) as (Ha & Hp & _ & Hst & _).
  exists run.1, outcome. split; [exact Hrun|]. split; [|split; [exact Hp|]].
  - apply Ha. split_and!; [discriminate|discriminate|]. intros expected [= <-]. vm_compute. reflexivity.
  - rewrite Hst. vm_compute. reflexivity.
Defined.
