(* ===== verification/RecoveryTheorems.v ===== *)
(** * RecoveryTheorems: durability of acknowledged operations

    The properties of the data directory: what a restart gives back, and the
    histories for which it gives back something else. *)

From S2P Require Import Prelude Text Command EngineError Store State Crypto Wal WalFacts.
From S2P Require Import WalLayout Engine Transaction TxFacts BatchFacts StorageFacts History.
From S2P Require Import DiskLog Recovery Storage DiskEngine SnapshotFacts ReplicaDisk Samples.
From S2P Require Import Runs.



(** ** Histories a restart does not give back *)

(** an INCR still in the retained log when a snapshot is taken is applied a
    second time by the next recovery: the counter reads 1 before the restart and
    2 after it. *)
Theorem recovery_repeats_incr :
  let de1 := after (on_core (Engine.incr 5 6 "n")) run1 in
  let de2 := after (snapshot (inputs_at 10)) de1 in
  (snapshot (inputs_at 10) de1).2 = Ok tt /\ value_of "n" de2 = Some "1"%string /\
  value_of "n" <$> reopened 20 (de_disk de2) = Ok (Some "2"%string).
Proof. vm_compute. done. Qed.

(** the sweep of an expired key is not logged.  INCR on a key that lapsed
    starts from 0 in the running engine and from the lapsed value in the replay:
    the counter reads 1 before the restart and 6 after it. *)
Theorem recovery_revives_lapsed_counter :
  let de1 := after (on_core (Transaction.execute_transaction 5 5
               [CmdSet "n" (as_bytes "5") (mkSetOptions None None (Some (Px 10)) false false)])) run1 in
  let de2 := after (on_core (Engine.incr 50 50 "n")) de1 in
  value_of "n" de2 = Some "1"%string /\
  value_of "n" <$> reopened 60 (de_disk de2) = Ok (Some "6"%string).
Proof. vm_compute. done. Qed.

(** a snapshot replaces the snapshot file before the manifest.  A crash
    between the two leaves a directory that cannot be opened any more, although
    every write was acknowledged. *)
Theorem crash_before_manifest_blocks_recovery :
  let de1 := after (snapshot (inputs_at 10)) run2 in
  let de2 := after (on_core (Engine.set 15 15 "b" (as_bytes "2"))) de1 in
  let de3 := after (snapshot (inputs_at 20)) de2 in
  let crashed := mkDisk (dk_wal (de_disk de2)) (dk_snapshot (de_disk de3)) (dk_manifest (de_disk de2))
                   (dk_keyring (de_disk de2)) None None in
  is_ok (reopened 30 (de_disk de2)) = true /\ is_ok (reopened 30 (de_disk de3)) = true /\
  reopened 30 crashed = Err (ChecksumMismatch "snapshot").
Proof. vm_compute. done. Qed.

(** ** Encryption at rest *)

Definition month_ms : Z := 31 * 24 * 60 * 60 * 1000.

(** The same directory with its space accounted as [space]. *)
Definition set_space (space : option Z) (de : DiskEngine) : DiskEngine :=
  after (on_disk (fun d => (with_space d space, Ok tt))) de.

Definition keyring_of (d : Disk) : option StorageKeyring := unwrap None (load_keyring d).

(** Opens the directory with the keyring it holds. *)
Definition reopened_encrypted (ms : Z) (d : Disk) : result EngineError DiskEngine :=
  from_paths_with_options ms ms ms d (mkEngineOptions Flush (keyring_of d) 64 3).

Definition encrypted1 : DiskEngine :=
  unwrap blank_engine (reopened_encrypted 0
    (load_or_create_keyring (replicate KEY_ID_LEN x07) [x09] 0 empty_disk).1).

(** a rotation replaces the keyring in memory before it saves it.  When the
    save fails (here for lack of space) the snapshot is reported as failed, but
    the next write is acknowledged and encrypted with a key that is on no disk,
    and the directory cannot be opened any more. *)
Theorem failed_rotation_loses_writes :
  let de1 := set_space (Some 10) encrypted1 in
  let de2 := set_space None (after (snapshot (inputs_at month_ms)) de1) in
  let write := on_core (Engine.set month_ms month_ms "a" (as_bytes "1")) in
  (snapshot (inputs_at month_ms) de1).2 = Err (Io "no space left on device") /\
  (write de2).2 = Ok tt /\
  is_ok (reopened_encrypted month_ms (de_disk de2)) = true /\
  reopened_encrypted month_ms (de_disk (after write de2)) =
    Err (UnsupportedStorageFormat "wal entry").
Proof. vm_compute. done. Qed.

(** an append that runs out of space leaves part of its entry in the log.
    The write is refused, but once there is space again later writes are
    acknowledged and appended behind the torn entry, and the directory cannot be
    opened any more. *)
Theorem torn_append_blocks_recovery :
  let write k := on_core (Engine.set 5 5 k (as_bytes "1")) in
  let de1 := set_space (Some 20) run1 in
  let de2 := set_space None (after (write "a"%string) de1) in
  (write "a"%string de1).2 = Err (Io "no space left on device") /\
  (write "b"%string de2).2 = Ok tt /\
  is_ok (reopened 30 (de_disk (after (write "b"%string) de2))) = false.
Proof. vm_compute. done. Qed.

(** ** Entries too large to read *)

(** the writer accepts entries up to the 32-bit length field, the reader
    refuses entries above 4 MiB.  Whatever the engine did before, once it has
    acknowledged an operation whose entry is larger, its directory cannot be
    opened any more. *)
Theorem oversized_write_blocks_recovery `{Crc32} `{CryptoLib} `{Binary WalEntry} `{Binary Manifest}
    `{Binary StoredKeyring} `{SnapshotCodec} `{NonceSource}
    (encode_total : forall e : WalEntry, is_ok (binary_encode e) = true)
    now now' de core' entry options started new_ms finished :
  history now de -> 0 <= now' < u64_max -> last_sequence (de_state de) + 1 < u64_max ->
  step now' (de_core de) core' ->
  en_wal_entries core' = en_wal_entries (de_core de) ++ [entry] ->
  oversized (de_keyring de) entry -> eo_keyring options = de_keyring de ->
  is_ok (from_paths_with_options started new_ms finished (de_disk (with_core de core')) options) = false.
Proof.
  intros Hh Hnow Hb Hstep Hlog Hover Hk. apply (history_healthy encode_total) in Hh.
  destruct (hl_log _ _ Hh) as (n & segs & act & Hw & _ & Hn). pose proof (hl_sequence _ _ Hh).
  unfold de_state in *.
  destruct (step_logged now' (de_core de) core') as (st0 & entries & Hl);
    [done|lia|by apply checksum_total|done|].
  pose proof (lg_cache _ _ _ _ _ Hl) as Hc. rewrite Hlog in Hc. apply app_inv_head in Hc as <-.
  pose proof (lg_writer _ _ _ _ _ Hl) as [Ha _]. pose proof (lg_sequences _ _ _ _ _ Hl) as Hs.
  cbn in Hs. injection Hs as Hs. cbn in Ha. unfold disk_append_batch in Ha.
  destruct (DiskWriter.handle_append_batch [entry] _ _) as [w r] eqn:Ed. injection Ha as Ha ->.
  assert (is_ok (replay (dk_wal (de_disk (with_core de core'))) (de_keyring de)) = false) as Hr.
  { unfold de_disk, de_log. cbn. rewrite <- Ha. cbn. eapply oversized_append; try done; lia. }
  unfold from_paths_with_options. destruct (is_some _); [done|]. rewrite Hk.
  destruct (load_base _ _ _); [|done]. cbn. by destruct (replay _ _).
Qed.

(** An encoding that pads every entry by [padding] bytes. *)
Section padded.
Context (padding : nat).

Lemma padded_round_trip (e : WalEntry) bs :
  Ok (replicate padding x00 ++ pos_bytes (encode e)) = Ok (E := string) bs ->
  countable_decode (drop padding bs) = Ok e.
Proof.
  intros [= <-]. rewrite drop_app_exact by apply length_replicate. by apply countable_round_trip.
Qed.

Definition padded_binary : Binary WalEntry := {|
  binary_encode e := Ok (replicate padding x00 ++ pos_bytes (encode e));
  binary_decode bs := countable_decode (drop padding bs);
  binary_decode_encode := padded_round_trip;
|}.

Lemma padded_frame entry :
  MAX_WAL_ENTRY_SIZE < Z.of_nat padding -> Z.of_nat padding + 10000 < u32_max ->
  Z.of_nat (length (pos_bytes (encode entry))) < 10000 ->
  oversized (H1 := padded_binary) None entry.
Proof.
  intros Hp Hu Hl. exists (replicate padding x00 ++ pos_bytes (encode entry)).
  unfold encode_frame. cbn [binary_encode padded_binary map_err mbind result_bind].
  rewrite length_app, length_replicate.
  rewrite (proj2 (Z.ltb_ge _ _)) by lia. split; [done|lia].
Qed.

#[local] Existing Instance padded_binary.

Lemma noop_succeeds (eng : Engine DiskLog) ms :
  dk_space (dw_disk (dl_writer (en_wal_writer eng))) = None ->
  is_Some (dw_file (dl_writer (en_wal_writer eng))) ->
  oversized (dl_keyring (en_wal_writer eng)) (Engine.next_entry eng ms []) ->
  exists eng', Engine.append_noop ms eng = (eng', Ok tt) /\
    en_wal_entries eng' = en_wal_entries eng ++ [Engine.next_entry eng ms []].
Proof.
  intros Hs Hf (bs & He & _). set (entry := Engine.next_entry eng ms []) in *.
  destruct (append_batch_succeeds (dl_keyring (en_wal_writer eng)) [entry]
    (dl_writer (en_wal_writer eng)) Hs Hf) as [w' Ha].
  { constructor; [by rewrite He|constructor]. }
  unfold Engine.append_noop, Engine.append_and_apply, mbind, fallible_bind, Prelude.mget.
  fold entry. unfold Engine.commit_entry, wal_entry_identity, checksum, entry_checksum.
  destruct (binary_encode entry) as [raw|] eqn:Er; [|by unfold encode_frame in He; rewrite Er in He].
  unfold mbind, fallible_bind, mpure. cbn [map_err result_bind].
  unfold Engine.append_batch, wal_append_batch, disk_wal_writer, disk_append_batch. rewrite Ha.
  unfold Engine.state_apply_entry. cbn. eexists. done.
Qed.

Lemma padded_run :
  MAX_WAL_ENTRY_SIZE < Z.of_nat padding -> Z.of_nat padding + 10000 < u32_max ->
  exists core' entry, history 0 run1 /\ step 5 (de_core run1) core' /\
    en_wal_entries core' = en_wal_entries (de_core run1) ++ [entry] /\ oversized None entry.
Proof.
  intros Hp Hu. set (entry := Engine.next_entry (de_core run1) 5 []).
  assert (oversized None entry) as Ho by (apply padded_frame; [done|done|vm_compute; reflexivity]).
  destruct (noop_succeeds (de_core run1) 5) as (core' & Hn & Hc); [done|by eexists|done|].
  exists core', entry. split_and!; [|by eapply StepNoop|done|done].
  by apply (HistOpen empty_disk sample_options 0 0 0).
Qed.

End padded.

Lemma oversized_write_blocks_recovery_witness :
  exists padding core',
    is_ok (from_paths_with_options (H1 := padded_binary padding) 9 9 9
             (de_disk (with_core run1 core')) sample_options) = false.
Proof.
  destruct (padded_run (Z.to_nat (MAX_WAL_ENTRY_SIZE + 1))) as (core' & entry & Hh & Hs & Hl & Ho).
  - rewrite Z2Nat.id by discriminate. reflexivity.
  - rewrite Z2Nat.id by discriminate. reflexivity.
  - exists (Z.to_nat (MAX_WAL_ENTRY_SIZE + 1)), core'.
    apply (oversized_write_blocks_recovery (H1 := padded_binary _) (fun e => eq_refl) 0 5 run1 core'
             entry sample_options 9 9 9); try done; unfold u64_max; cbn; lia.
Defined.
