(* ===== verification/ReplicationTheorems.v ===== *)
(** * ReplicationTheorems: replication, restore and backup

    The properties of the operations that move state between engines. *)

From S2P Require Import Prelude Text Command EngineError Store State Crypto Wal WalFacts.
From S2P Require Import WalLayout Engine Transaction TxFacts BatchFacts StorageFacts History.
From S2P Require Import Replication ReplicaFacts DiskLog Recovery Storage Backup DiskEngine.
From S2P Require Import SnapshotFacts ReplicaDisk Samples Runs.

(** C24: a follower applies shipped entries all together or not at all.  They are
    applied exactly when they continue its sequence without a gap, replay and have
    checksums ([applicable]) and the log takes them, and then they are the end of its
    log.  Otherwise state and log stay: entries that cannot be applied are noticed before
    anything is written, and the only other error is that of the log for these entries. *)
Theorem apply_replication_entries_exact {W} `{WalWriter W} `{EntryChecksum}
    (eng eng' : Engine W) entries r :
  0 <= last_sequence (en_state eng) ->
  last_sequence (en_state eng) + Z.of_nat (length entries) <= u64_max ->
  apply_replication_entries entries eng = (eng', r) ->
  (is_ok r = true <-> applicable eng entries /\ (wal_append_batch (en_wal_writer eng) entries).2 = Ok tt) /\
  match r with
  | Ok last =>
      contiguous (last_sequence (en_state eng) + 1) entries /\
      apply_entries (en_state eng) entries = (en_state eng', Ok tt) /\
      last = last_sequence (en_state eng) + Z.of_nat (length entries) /\
      en_wal_entries eng' = en_wal_entries eng ++ entries /\
      wal_append_batch (en_wal_writer eng) entries = (en_wal_writer eng', Ok tt)
  | Err e =>
      en_state eng' = en_state eng /\ same_log eng eng' /\
      (~ applicable eng entries /\ eng' = eng \/
       applicable eng entries /\ wal_append_batch (en_wal_writer eng) entries = (en_wal_writer eng', Err e))
  end.
Proof.
  intros H0' Hb Hx. pose proof (apply_replication_entries_spec eng eng' entries r H0' Hb Hx) as Hs.
  destruct r as [last|e]; cbn [is_ok].
  - destruct Hs as (Hc & Ha & ? & ? & Hw & ids & Hi & _). split; [|by split_and!]. split; [intros _|done].
    unfold applicable. by rewrite Ha, Hw, Hi.
  - split; [|done]. split; [done|]. intros [Happ Hw].
    destruct Hs as (_ & _ & [[Hn _]|[_ Hw']]); [by destruct Hn|]. by rewrite Hw' in Hw.
Qed.

Section sample.
#[local] Existing Instance sample_checksum.

(** An engine at sequence 7 and the entry that continues it. *)
Definition next_of_sample : WalEntry := mkWalEntry 8 1 50 [WalSet "n" (as_bytes "2") 1].

Lemma apply_replication_entries_exact_witness :
  let run := apply_replication_entries [next_of_sample] (sample_engine sample_state) in
  run.2 = Ok 8 /\ contiguous 8 [next_of_sample] /\
  en_wal_entries run.1 = [next_of_sample].
Proof.
  intros run. assert (run = (run.1, Ok 8)) as Hrun by (vm_compute; reflexivity).
  destruct (apply_replication_entries_exact (sample_engine sample_state) run.1 [next_of_sample] (Ok 8))
    as (_ & Hc & _ & _ & Hlog & _).
  - vm_compute. discriminate.
  - vm_compute. discriminate.
  - exact Hrun.
  - split; [by rewrite Hrun|]. split; [exact Hc | exact Hlog].
Defined.

End sample.




(** C23: replacing a diverged suffix.  A follower with a past within [history] that takes
    entries it can read back keeps its log up to the prefix, drops
    everything after it and continues with what the shipped entries put behind the
    prefix: every one of those behind it, in order, and once where an entry is repeated
    ([replaces]).  It can be restarted from its directory, and ends at the sequence it
    reports. *)
Theorem replace_replication_suffix_correct `{Crc32} `{CryptoLib} `{Binary WalEntry}
    `{Binary Manifest} `{Binary StoredKeyring} `{SnapshotCodec} `{NonceSource}
    (encode_total : forall e : WalEntry, is_ok (binary_encode e) = true)
    now ms prefix entries de de' seq options started new_ms finished :
  history now de -> 0 <= prefix -> prefix + 1 + Z.of_nat (length entries) <= u64_max ->
  Forall (fits (de_keyring de)) (en_wal_entries (de_core de) ++ entries) ->
  replace_replication_suffix ms prefix entries de = (de', Ok seq) ->
  eo_keyring options = de_keyring de' -> 0 <= eo_wal_retain_segments options ->
  exists kept dropped new reopened,
    en_wal_entries (de_core de) = kept ++ dropped /\
    Forall (fun e => we_sequence e <= prefix) kept /\
    Forall (fun e => prefix < we_sequence e) dropped /\
    en_wal_entries (de_core de') = kept ++ new /\ contiguous (prefix + 1) new /\
    replaces prefix entries new /\
    seq = prefix + Z.of_nat (length new) /\ last_sequence (de_state de') = seq /\
    from_paths_with_options started new_ms finished (de_disk de') options = Ok reopened /\
    en_wal_entries (de_core reopened) = kept ++ new /\
    forall t, now <= t ->
      live t (es_store (de_state reopened)) = live t (es_store (de_state de')).
Proof.
  intros Hh Hp Hb Hf Hx Hk Hr. apply (history_healthy encode_total) in Hh.
  destruct (replace_suffix_healthy now now ms prefix entries de de' seq Hh Hp Hb Hf Hx)
    as (Hh' & Hseq & kept & dropped & new & Hlog & Hkept & Hdropped & Hlog' & Hc & Hin & Hs).
  destruct (reopen encode_total now de' options started new_ms finished Hh' Hk Hr)
    as (de2 & Ho & _ & Ht & Hl2 & _).
  exists kept, dropped, new, de2. split_and!; try done; [by rewrite Hl2|].
  intros t Hle. symmetry. by eapply tracks_live.
Qed.

(** A competing second entry, of a later term: shipped behind the first entry, which the
    follower has, and shipped twice. *)
Definition other_second : WalEntry := mkWalEntry 2 9 8 [WalSet "c" (as_bytes "3") 1].
Definition shipped_entries : list WalEntry :=
  take 1 (en_wal_entries (de_core run2b)) ++ [other_second; other_second].
Definition replaced_run : DiskEngine * result EngineError Z :=
  replace_replication_suffix 0 1 shipped_entries run2b.

Lemma replace_replication_suffix_correct_witness :
  replaced_run.2 = Ok 2 /\
  exists kept dropped,
    en_wal_entries (de_core run2b) = kept ++ dropped /\ Forall (fun e => 1 < we_sequence e) dropped /\
    en_wal_entries (de_core replaced_run.1) = kept ++ [other_second].
Proof.
  assert (replaced_run = (replaced_run.1, Ok 2)) as Hrun by (vm_compute; reflexivity).
  split; [by rewrite Hrun|].
  destruct (replace_replication_suffix_correct sample_encode_total 7 0 1 shipped_entries run2b
    replaced_run.1 2 sample_options 9 9 9)
    as (kept & dropped & new & _ & Hlog & _ & Hdropped & Hlog' & _ & [Hnew _] & _).
  - apply run2b_history.
  - lia.
  - vm_compute. discriminate.
  - apply (fitting_fits None). vm_compute. reflexivity.
  - exact Hrun.
  - vm_compute. reflexivity.
  - vm_compute. discriminate.
  - exists kept, dropped. split; [exact Hlog|]. split; [exact Hdropped|]. rewrite Hlog', Hnew. reflexivity.
Defined.

(** installing a leader's snapshot.  The node holds the shipped keyspace at the
    shipped sequence with an empty log, and a restart of its directory gives the
    same. *)
Theorem install_snapshot_correct `{Crc32} `{CryptoLib} `{Binary WalEntry}
    `{Binary Manifest} `{Binary StoredKeyring} `{SnapshotCodec} `{NonceSource}
    (encode_total : forall e : WalEntry, is_ok (binary_encode e) = true)
    now ms nonce snap de de' options started new_ms finished :
  history now de -> 0 <= last_sequence (rs_state snap) < u64_max ->
  (forall serialized, serialize (installed_state ms snap) = Ok serialized ->
     snapshot_fits (de_keyring de) nonce serialized) ->
  apply_replication_snapshot ms nonce snap de = (de', Ok tt) ->
  eo_keyring options = de_keyring de' -> 0 <= eo_wal_retain_segments options ->
  es_store (de_state de') = es_store (rs_state snap) /\
  last_sequence (de_state de') = last_sequence (rs_state snap) /\
  en_wal_entries (de_core de') = [] /\
  exists reopened,
    from_paths_with_options started new_ms finished (de_disk de') options = Ok reopened /\
    last_sequence (de_state reopened) = last_sequence (rs_state snap) /\
    forall t, live t (es_store (de_state reopened)) = live t (es_store (rs_state snap)).
Proof.
  intros Hh Hseq Hfits Hx Hk Hr. apply (history_healthy encode_total) in Hh.
  assert (forall t, exists reopened,
    from_paths_with_options started new_ms finished (de_disk de') options = Ok reopened /\
    last_sequence (de_state reopened) = last_sequence (de_state de') /\
    tracks t (es_store (de_state de')) (es_store (de_state reopened))) as Hre.
  { intros t. destruct (install_snapshot_healthy now t ms nonce snap de de' Hh Hseq Hfits Hx) as (Hh' & _).
    destruct (reopen encode_total t de' options started new_ms finished Hh' Hk Hr)
      as (de2 & Ho & _ & Ht & _ & Hs & _). by exists de2. }
  destruct (install_snapshot_healthy now now ms nonce snap de de' Hh Hseq Hfits Hx)
    as (_ & Hst & Hlog & _).
  destruct (Hre now) as (de2 & Ho & Hs & _). rewrite Hst in *. split_and!; [done..|].
  exists de2. split_and!; [done|by rewrite Hs|]. intros t.
  destruct (Hre t) as (de3 & Ho3 & _ & Ht). rewrite Ho in Ho3. injection Ho3 as <-.
  symmetry. by apply (tracks_live t t (es_store (installed_state ms snap))).
Qed.

Definition shipped : ReplicationSnapshot := replication_snapshot run2b 0.
Definition installed_run : DiskEngine * result EngineError unit :=
  apply_replication_snapshot 20 (replicate NONCE_LEN x00) shipped run2.

Lemma install_snapshot_correct_witness :
  installed_run.2 = Ok tt /\
  es_store (de_state installed_run.1) = es_store (rs_state shipped) /\
  en_wal_entries (de_core installed_run.1) = [].
Proof.
  assert (installed_run = (installed_run.1, Ok tt)) as Hrun by (vm_compute; reflexivity).
  split; [by rewrite Hrun|].
  destruct (install_snapshot_correct sample_encode_total 5 20 (replicate NONCE_LEN x00) shipped run2
    installed_run.1 sample_options 9 9 9) as (Hs & _ & Hl & _).
  - apply run2_history.
  - split; vm_compute; [discriminate|reflexivity].
  - intros serialized _. assert (de_keyring run2 = None) as -> by (vm_compute; reflexivity). exact I.
  - exact Hrun.
  - vm_compute. reflexivity.
  - vm_compute. discriminate.
  - split; [exact Hs|exact Hl].
Defined.




(** C26: backup and restore.  A dump taken from one engine and restored on another
    at a later time replaces its keyspace by the entries of the source that are
    still live, with their values, deadlines and versions, in one log entry; a
    restore that fails leaves the target as it was. *)
Theorem backup_restore_round_trip `{Base64} `{BackupJson} {W W'} `{WalWriter W} `{WalWriter W'}
    `{EntryChecksum} now now' entry_ms (eng eng1 : Engine W) (target target' : Engine W') dump r :
  now <= now' -> map_Forall (fun _ e => 1 <= sv_version e) (es_store (en_state eng)) ->
  logical_backup now eng = (eng1, Ok dump) ->
  restore_logical_backup now' entry_ms dump target = (target', r) ->
  match r with
  | Ok restored =>
      es_store (en_state target') = live now' (es_store (en_state eng)) /\
      restored = EngineStore.len (live now' (es_store (en_state eng))) /\
      exists entry, en_wal_entries target' = en_wal_entries target ++ [entry] /\
        appended target target' [entry]
  | Err _ => en_state target' = en_state target /\ same_log target target'
  end.
Proof.
  intros Hle Hver Hdump. unfold logical_backup in Hdump.
  apply fallible_bind_ok in Hdump as (e1 & n & Hp & Hdump). rewrite purge_run in Hp.
  injection Hp as <- _. apply fallible_bind_ok in Hdump as (? & ? & [= <- <-] & Hdump).
  injection Hdump as <- Hdump. cbn in Hdump. set (st := purge_state now (en_state eng)) in *.
  destruct (backup_to_string (make_backup now st)) as [s|] eqn:Es; [|done]. injection Hdump as ->.
  pose proof (parse_made_backup _ _ _ Es) as Hparse.
  assert (restored_value <$> live now' (es_store st) = live now' (es_store (en_state eng))) as Hrest.
  { unfold st. rewrite purge_state_store, live_live by done. by apply restored_live. }
  destruct (restore_operations now' (es_store (en_state target)) (es_store st))
    as (ops & n' & Hops & -> & Hrun). rewrite Hrest in Hrun.
  unfold restore_logical_backup, mbind at 1, fallible_bind at 1, mpure. rewrite Hparse.
  unfold mbind at 1, fallible_bind at 1. cbn [lb_entries make_backup].
  unfold mpure. rewrite Hops. unfold mbind, fallible_bind, Engine.append_and_apply, Prelude.mget. cbn.
  unfold mbind, fallible_bind.
  set (entry := Engine.next_entry target entry_ms ops).
  destruct (Engine.commit_entry entry target) as [target2 [[]|e]] eqn:Ec;
    pose proof (commit_entry_spec target entry _ _ _ Hrun Ec) as Hs; intros [= <- <-]; [|done].
  destruct Hs as (-> & Hlog & Happ). split_and!; [done| |by exists entry].
  unfold st. rewrite purge_state_store. by rewrite live_live.
Qed.

Section backup_sample.
#[local] Existing Instance sample_checksum.

Definition source_engine : Engine (list WalEntry) := sample_engine sample_state.
Definition dump_run : Engine (list WalEntry) * result EngineError string :=
  logical_backup 100 source_engine.
Definition restore_run : Engine (list WalEntry) * result EngineError Z :=
  restore_logical_backup 600 600 (match dump_run.2 with Ok s => s | Err _ => EmptyString end)
    (sample_engine (EngineState.new 0)).

Lemma backup_restore_round_trip_witness :
  restore_run.2 = Ok 2 /\
  es_store (en_state restore_run.1) = live 600 (es_store sample_state).
Proof.
  assert (exists s, dump_run = (dump_run.1, Ok s)) as [s Hdump]
    by (eexists; vm_compute; reflexivity).
  assert (restore_run = (restore_run.1, Ok 2)) as Hrun by (vm_compute; reflexivity).
  split; [by rewrite Hrun|].
  refine (proj1 (backup_restore_round_trip 100 600 600 source_engine dump_run.1
    (sample_engine (EngineState.new 0)) restore_run.1 s (Ok 2) _ _ Hdump _)).
  - lia.
  - apply map_Forall_to_list. vm_compute map_to_list. repeat constructor; cbn; lia.
  - rewrite <- Hrun. unfold restore_run. by rewrite Hdump.
Defined.

End backup_sample.

(** ** Clocks that disagree *)

Section clocks.
#[local] Existing Instance sample_checksum.

(** Leader and follower hold [s] with the deadline 500.  The leader makes it
    persistent at 499 by its clock, the follower sweeps at 501 by its own. *)
Definition leader_persists : Engine (list WalEntry) :=
  (Engine.persist 499 499 "s" (sample_engine sample_state)).1.
Definition follower_sweeps : Engine (list WalEntry) :=
  (Engine.purge 501 (sample_engine sample_state)).1.
Definition follower_applies : Engine (list WalEntry) * result EngineError Z :=
  apply_replication_entries (en_wal_entries leader_persists) follower_sweeps.

(** replicas with different clocks diverge for good.  A follower that sweeps a
    key by its own clock before it receives the leader's PERSIST accepts the entry,
    reaches the leader's sequence and stays without the key the leader keeps. *)
Theorem follower_clock_divergence :
  follower_applies.2 = Ok 8 /\
  last_sequence (en_state follower_applies.1) = last_sequence (en_state leader_persists) /\
  forall t,
    live t (es_store (en_state leader_persists)) !! "s"%string =
      Some (mkStoredValue (as_bytes "t") None 2) /\
    live t (es_store (en_state follower_applies.1)) !! "s"%string = None.
Proof.
  split; [vm_compute; reflexivity|]. split; [vm_compute; reflexivity|]. intros t.
  assert (es_store (en_state leader_persists) !! "s"%string =
    Some (mkStoredValue (as_bytes "t") None 2)) as Hl by (vm_compute; reflexivity).
  assert (es_store (en_state follower_applies.1) !! "s"%string = None) as Hf by (vm_compute; reflexivity).
  by rewrite !lookup_live, Hl, Hf.
Qed.

End clocks.
