(* ===== verification/TransportTheorems.v ===== *)
(** * TransportTheorems: the wire protocol

    The properties of the transport crate: requests and responses survive the
    wire, the handshake gives both sides the same options, and malformed input
    is answered with an error. *)

From S2P Require Import Prelude Text Command Crypto Wire Opcode Request PayloadFacts Response.
From S2P Require Import Frame FrameFacts Negotiation Samples.

(** ** Requests on a stream *)

Section streams.
Context `{Zstd} `{Crc32}.

(** Commands as a client sends them, one frame after the other. *)
Definition send_commands (options : CodecOptions) (commands : list (Uuid * Command)) : writer :=
  mfor (fun '(id, c) => request ← mpure (from_command id c); write_request_to_with_options request options)
    commands.

Lemma sent_command o o' id c buf buf' :
  uuid_ok id -> command_typed c -> co_max_frame_len o <= u32_max -> within_limits o o' ->
  (request ← mpure (from_command id c); write_request_to_with_options request o) buf = (buf', Ok tt) ->
  exists bs r, buf' = buf ++ bs /\ rq_request_id r = id /\ into_command r = Ok c /\
    forall rest, read_request_from_with_options o' (bs ++ rest) = (rest, Ok r).
Proof.
  intros Hid Ht Hm Hl (b1 & r & [= <- Hr] & Hw)%fallible_bind_ok.
  destruct (command_round_trip id c r Ht Hr) as [Hrid Hc].
  assert (request_ok r) as Hok.
  { split; [by rewrite Hrid|]. destruct c; cbn [from_command] in Hr; try done;
      apply result_bind_ok in Hr as (p & _ & [= <-]); done. }
  apply fallible_bind_ok in Hw as (b2 & frame & [= <- Hf] & [= <-]).
  destruct (request_body_round_trip r Hok) as (body & Hb & Hd).
  unfold encode_request_with_options in Hf. rewrite Hb in Hf. cbn in Hf.
  exists frame, r. split_and!; try done. intros rest. unfold read_request_from_with_options, mbind, fallible_bind.
  rewrite (frame_round_trip _ _ _ _ _ Hf Hm Hl). unfold mpure. by rewrite Hd.
Qed.

Lemma sent_commands o o' commands buf buf' :
  Forall (fun ic => uuid_ok ic.1 /\ command_typed ic.2) commands ->
  co_max_frame_len o <= u32_max -> within_limits o o' ->
  send_commands o commands buf = (buf', Ok tt) ->
  exists bs requests, buf' = buf ++ bs /\
    (forall rest, read_many (length commands) (read_request_from_with_options o') (bs ++ rest) =
       (rest, Ok requests)) /\
    Forall2 (fun ic r => rq_request_id r = ic.1 /\ into_command r = Ok ic.2) commands requests.
Proof.
  intros Hok Hm Hl. revert buf. induction Hok as [|[id c] commands [Hid Ht] _ IH]; intros buf Hs.
  { injection Hs as <-. exists [], []. by rewrite app_nil_r. }
  apply fallible_bind_ok in Hs as (b1 & [] & Hw & Hs).
  destruct (sent_command o o' id c buf b1 Hid Ht Hm Hl Hw) as (bs1 & r & -> & Hr & Hc & Hread).
  destruct (IH _ Hs) as (bs2 & rs & -> & Hreads & Hrs).
  exists (bs1 ++ bs2), (r :: rs). split; [by rewrite app_assoc|]. split; [|by constructor].
  intros rest. cbn. unfold mbind, fallible_bind. by rewrite <- app_assoc, Hread, Hreads.
Qed.

End streams.

(** C17: pipelined requests.  Whatever sequence of commands a client writes to a
    stream, a server with at least its frame limits reads the same number of
    requests, with the ids and commands in order, and leaves what follows them
    unread. *)
Theorem requests_over_stream `{Zstd} `{Crc32} o o' commands stream rest :
  Forall (fun ic => uuid_ok ic.1 /\ command_typed ic.2) commands ->
  co_max_frame_len o <= u32_max -> within_limits o o' ->
  send_commands o commands [] = (stream, Ok tt) ->
  exists requests,
    read_many (length commands) (read_request_from_with_options o') (stream ++ rest) = (rest, Ok requests) /\
    Forall2 (fun ic r => rq_request_id r = ic.1 /\ into_command r = Ok ic.2) commands requests.
Proof.
  intros Hok Hm Hl Hs. destruct (sent_commands o o' commands [] stream Hok Hm Hl Hs)
    as (bs & requests & -> & Hr & Hf). exists requests. split; [apply Hr|done].
Qed.

Definition sample_ids : list Uuid := [replicate 16 x01; replicate 16 x02].
Definition sample_commands : list (Uuid * Command) :=
  zip sample_ids [CmdSet "k" (as_bytes "v") (mkSetOptions None (Some 3) (Some (Ex 60)) false true);
                  CmdScan 7 (Some "k*"%string) None].
Definition sample_stream : list byte := (send_commands CodecOptions_default sample_commands []).1.

Lemma requests_over_stream_witness :
  exists requests,
    read_many 2 (read_request_from_with_options CodecOptions_default) (sample_stream ++ [x00]) =
      ([x00], Ok requests) /\
    Forall2 (fun ic r => rq_request_id r = ic.1 /\ into_command r = Ok ic.2) sample_commands requests.
Proof.
  apply (requests_over_stream CodecOptions_default CodecOptions_default sample_commands sample_stream [x00]).
  - repeat constructor; done.
  - vm_compute. discriminate.
  - split; [|split; [|split]]; vm_compute; congruence.
  - vm_compute. reflexivity.
Defined.

(** ** The handshake *)

Lemma startup_frame `{Zstd} `{Crc32} body buf buf' rest :
  write_startup_frame_to body startup_options buf = (buf', Ok tt) ->
  exists bs, buf' = buf ++ bs /\
    read_frame_from_with_options CodecOptions_default (bs ++ rest) = (rest, Ok body).
Proof.
  intros (b1 & frame & [= <- Hf] & [= <-])%fallible_bind_ok. exists frame. split; [done|].
  apply (frame_round_trip body startup_options CodecOptions_default frame rest Hf); [done|].
  split_and!; done.
Qed.

(** A body below the frame limit can always be written. *)
Lemma startup_write `{Zstd} `{Crc32} body :
  Z.of_nat (length body) <= MAX_FRAME_LEN ->
  exists stream, write_startup_frame_to body startup_options [] = (stream, Ok tt).
Proof.
  intros Hl. unfold write_startup_frame_to, encode_frame, maybe_compress, should_compress.
  change (co_max_decompressed_frame_len startup_options) with MAX_FRAME_LEN.
  change (co_max_frame_len startup_options) with MAX_FRAME_LEN.
  rewrite (proj2 (Z.ltb_ge MAX_FRAME_LEN (Z.of_nat (length body)))) by lia. cbn [startup_options co_compression].
  rewrite bool_decide_false by done. cbn [andb negb mbind result_bind].
  rewrite (proj2 (Z.ltb_ge MAX_FRAME_LEN (Z.of_nat (length body)))) by lia.
  unfold FrameHeader.new. rewrite Z.mod_small by (unfold MAX_FRAME_LEN in Hl; lia).
  rewrite (proj2 (Z.ltb_ge MAX_FRAME_LEN (Z.of_nat (length body)))) by lia. by eexists.
Qed.

(** What the server answers. *)
Lemma negotiated h so id :
  client_hello_ok h -> ch_protocol_version h = VERSION -> uuid_ok id -> 0 <= co_max_frame_len so ->
  exists sh opts, negotiate_server_options h so id = Ok (sh, opts) /\ server_hello_ok sh /\
    sh_status sh = StatusOk /\ sh_protocol_version sh = VERSION /\
    sh_error_code sh = None /\ sh_error_name sh = None /\ sh_error_message sh = None /\
    sh_compression sh = co_compression opts /\ sh_max_frame_len sh = co_max_frame_len opts /\
    co_max_decompressed_frame_len opts = co_max_frame_len opts /\
    0 <= co_max_frame_len opts <= MAX_FRAME_LEN /\
    (co_compression opts = CompressionZstd ->
     co_compression so = CompressionZstd /\ ch_desired_compression h = CompressionZstd).
Proof.
  intros (Hv & Hn & Hcv & Hc & Hm) Hver Hid Hso. unfold negotiate_server_options. rewrite Hver, Z.eqb_refl.
  cbn [negb]. set (caps := Z.land (ch_supported_capabilities h) DEFAULT_CAPABILITIES).
  assert (is_u64 caps /\ is_u64 (Z.land caps (u64_max - CAP_ZSTD))) as [Hcaps Hcaps'].
  { assert (0 <= caps < 32) as Hb.
    { unfold caps. change DEFAULT_CAPABILITIES with (Z.ones 5). rewrite Z.land_ones by lia.
      apply Z.mod_pos_bound. lia. }
    unfold is_u64, u64_max. split; [lia|]. split; [apply Z.land_nonneg; lia|].
    pose proof (byte_check (fun c => Z.land c (2 ^ 64 - 1 - CAP_ZSTD) <=? 255) caps eq_refl ltac:(lia)) as Hl%Z.leb_le.
    lia. }
  set (max := Z.min _ MAX_FRAME_LEN).
  assert (0 <= max <= MAX_FRAME_LEN) as Hmax by (unfold max, MAX_FRAME_LEN; unfold_widths; lia).
  rewrite (Z.mod_small max) by (unfold MAX_FRAME_LEN in Hmax; lia).
  destruct (_ && _) eqn:Ez; eexists _, _; (split; [reflexivity|]); unfold server_hello_ok; cbn;
    unfold MAX_FRAME_LEN in *; split_and!; try done; try (unfold_widths; lia).
  apply andb_prop in Ez as [Ez _]. apply andb_prop in Ez as [E1%bool_decide_eq_true E2%bool_decide_eq_true]. done.
Qed.

(** C32: the handshake.  A client hello that was written is read by the server as it
    is; the server's answer is read by the client as it is; and the options the two
    sides derive have the same compression and the same limits, so that each side
    can read what the other writes.  Compression is on only when both sides want
    it. *)
Theorem handshake_agrees `{Zstd} `{Crc32} h so id stream :
  client_hello_ok h -> ch_protocol_version h = VERSION -> uuid_ok id -> 0 <= co_max_frame_len so ->
  write_client_hello_to h [] = (stream, Ok tt) ->
  exists sh opts stream' copts,
    read_client_hello_from stream = ([], Ok h) /\
    negotiate_server_options h so id = Ok (sh, opts) /\
    write_server_hello_to sh [] = (stream', Ok tt) /\
    read_server_hello_from stream' = ([], Ok sh) /\
    client_options_from_server_hello sh = Ok copts /\
    co_compression copts = co_compression opts /\
    within_limits opts copts /\ within_limits copts opts /\ co_max_frame_len opts <= MAX_FRAME_LEN /\
    (co_compression opts = CompressionZstd ->
     co_compression so = CompressionZstd /\ ch_desired_compression h = CompressionZstd).
Proof.
  intros Hh Hv Hid Hso (b1 & body & [= <- Hb] & Hw)%fallible_bind_ok.
  destruct (negotiated h so id Hh Hv Hid Hso) as (sh & opts & Hneg & Hsh & Hst & Hpv & Hec & Hen & Hem & Hcomp &
    Hlen & Hdec & Hmax & Hz).
  destruct (startup_frame body [] stream [] Hw) as (bs & -> & Hread). rewrite app_nil_r in Hread.
  set (reply := to_be 1 SERVER_HELLO ++ to_be 1 (sh_protocol_version sh) ++ to_be 8 (sh_accepted_capabilities sh) ++
    to_be 1 (compression_to_u8 (sh_compression sh)) ++ to_be 4 (sh_max_frame_len sh) ++ sh_server_id sh ++
    to_be 1 (status_to_u8 (sh_status sh)) ++ to_be 1 0 ++ to_be 1 0 ++ to_be 1 0).
  assert (written (encode_server_hello sh) = Ok reply) as Hreply.
  { apply emits_written. unfold encode_server_hello. rewrite Hec, Hen, Hem.
    repeat (apply emits_seq; [done|]). done. }
  destruct (startup_write reply) as [stream' Hs'].
  { destruct Hsh as (_ & _ & _ & Hu & _). unfold reply. rewrite !length_app, !to_be_length, Hu. done. }
  destruct (startup_frame reply [] stream' [] Hs') as (bs' & -> & Hread'). rewrite app_nil_r in Hread'.
  exists sh, opts, bs', (mkCodecOptions (sh_compression sh) 0 (sh_max_frame_len sh) (sh_max_frame_len sh)).
  split_and!; try done.
  - cbn [app]. unfold read_client_hello_from, mbind, fallible_bind. rewrite Hread. unfold mpure.
    by rewrite (inverse_end_written _ _ _ _ (client_hello_inverse h Hh) Hb).
  - unfold write_server_hello_to, mbind, fallible_bind, mpure. by rewrite Hreply.
  - cbn [app]. unfold read_server_hello_from, mbind, fallible_bind. rewrite Hread'. unfold mpure.
    by rewrite (inverse_end_written _ _ _ _ (server_hello_inverse sh Hsh) Hreply).
  - unfold client_options_from_server_hello. rewrite Hst, Hpv, bool_decide_true by done. done.
  - unfold within_limits. cbn. unfold MAX_FRAME_LEN in Hmax. width_lia.
  - unfold within_limits. cbn. unfold MAX_FRAME_LEN in Hmax. width_lia.
  - lia.
Qed.

Definition sample_client_hello : ClientHello := new_client_hello "vaylix-cli" "0.1.0".

Lemma handshake_agrees_witness :
  exists sh opts, negotiate_server_options sample_client_hello CodecOptions_default (replicate 16 x07) = Ok (sh, opts) /\
    co_compression opts = CompressionZstd.
Proof.
  destruct (handshake_agrees sample_client_hello CodecOptions_default (replicate 16 x07)
    (write_client_hello_to sample_client_hello []).1)
    as (sh & opts & stream' & copts & _ & Hneg & _).
  - split; [vm_compute; split; [discriminate|reflexivity]|]. split; [reflexivity|]. split; [reflexivity|].
    split; vm_compute; split; discriminate.
  - reflexivity.
  - reflexivity.
  - vm_compute. discriminate.
  - vm_compute. reflexivity.
  - exists sh, opts. split; [exact Hneg|]. vm_compute in Hneg. injection Hneg as _ <-. reflexivity.
Defined.

(** ** Payloads *)

(** payloads are canonical.  A payload the server decodes has a well-typed
    command and is exactly the payload a client encodes for it, apart from SET
    payloads of older clients that end before the version flag. *)
Theorem into_command_canonical r c :
  into_command r = Ok c ->
  command_typed c /\
  exists suffix, (suffix = [] \/ rq_opcode r = OpSet /\ suffix = [x00]) /\
    from_command (rq_request_id r) c =
      Ok (new_request (rq_request_id r) (rq_opcode r) (rq_payload r ++ suffix)).
Proof.
  unfold into_command, read_from. intros Hr.
  destruct (command_reader (rq_opcode r) (rq_payload r)) as [buf' res] eqn:E. cbn in Hr. subst res.
  by apply (command_reader_inv _ _ buf').
Qed.

Definition old_set : Request :=
  new_request (replicate 16 x01) OpSet (prefixed 2 (as_bytes "k") ++ prefixed 4 (as_bytes "v") ++ [x00; x00; x00; x01]).

Lemma into_command_canonical_witness :
  into_command old_set = Ok (CmdSet "k" (as_bytes "v") (mkSetOptions None None None false true)) /\
  command_typed (CmdSet "k" (as_bytes "v") (mkSetOptions None None None false true)).
Proof.
  assert (into_command old_set = Ok (CmdSet "k" (as_bytes "v") (mkSetOptions None None None false true))) as Hd
    by (vm_compute; reflexivity).
  split; [exact Hd|]. exact (proj1 (into_command_canonical _ _ Hd)).
Defined.

(** a command can be sent exactly when the lengths of its strings, values and
    lists fit the length fields of the payload; HELP and EXIT never. *)
Theorem from_command_succeeds id c : is_ok (from_command id c) = command_fits c.
Proof. apply from_command_fits. Qed.

Lemma into_command_scan_panics r :
  rq_opcode r = OpScan -> into_command r = panic <-> read_from decode_scan (rq_payload r) = panic.
Proof.
  intros Ho. unfold into_command, read_from. rewrite Ho. cbn [command_reader]. unfold mbind, fallible_bind.
  destruct (decode_scan (rq_payload r)) as [b [[[c p] n]|e]]; cbn [snd]; split; by intros [= ->].
Qed.

(** malformed requests.  Reading a frame from any stream and decoding it to a
    request never panics; decoding the command returns a command or an error for
    every payload, except that it panics exactly on SCAN payloads that end right
    behind their pattern. *)
Theorem only_scan_panics `{Zstd} `{Crc32} options stream :
  returns (read_request_from_with_options options stream).2 /\
  forall r,
    (returns (into_command r) \/ into_command r = panic) /\
    (into_command r = panic <->
     rq_opcode r = OpScan /\
     exists cursor pattern, length cursor = 8%nat /\ str_ok pattern /\ string_fits u16_max pattern /\
       rq_payload r = cursor ++ [x01] ++ prefixed 2 (as_bytes pattern)).
Proof.
  split.
  { apply (safe_bind 0); [apply safe_read_frame| |lia]. intros body. apply safe_pure, decode_request_body_returns. }
  intros r. destruct (decide (rq_opcode r = OpScan)) as [Ho|Ho].
  - rewrite into_command_scan_panics by done. split.
    + destruct (scan_returns_or_panics (rq_payload r)) as [Hr|Hp]; [left|by right].
      revert Hr. unfold into_command, read_from. rewrite Ho. cbn [command_reader]. unfold mbind, fallible_bind.
      by destruct (decode_scan (rq_payload r)) as [b [[[c p] n]|e]].
    + rewrite scan_panics. naive_solver.
  - assert (returns (into_command r)) as Hr by (apply read_from_returns; by apply command_reader_safe).
    split; [by left|]. split; [by intros ?%returns_not_panic|naive_solver].
Qed.

(** Eleven bytes are enough: an empty pattern and nothing behind it. *)
Definition scan_crash : Request := new_request (replicate 16 x01) OpScan (replicate 8 x00 ++ [x01; x00; x00]).

Lemma only_scan_panics_witness : into_command scan_crash = panic.
Proof.
  apply (proj2 (only_scan_panics CodecOptions_default sample_stream)). split; [reflexivity|].
  exists (replicate 8 x00), EmptyString. split; [reflexivity|]. split; [reflexivity|].
  split; [vm_compute; congruence|reflexivity].
Defined.

(** malformed handshakes.  The server's decoder of client hellos returns for
    every body; the client's decoder of server hellos panics on bodies that end
    right before the status byte. *)
Theorem hello_decoders body :
  returns (read_from decode_client_hello body) /\
  (read_from decode_server_hello body = panic <->
   exists kind version caps mode max id,
     body = kind ++ version ++ caps ++ mode ++ max ++ id /\
     length version = 1%nat /\ length caps = 8%nat /\ length max = 4%nat /\ uuid_ok id /\
     kind = to_be 1 SERVER_HELLO /\ (mode = to_be 1 0 \/ mode = to_be 1 1)).
Proof. split; [apply read_from_returns, safe_client_hello|apply server_hello_panics]. Qed.

(** ** Frames *)

(** the two frame decoders agree.  A buffer decodes to a body exactly when a
    stream of just these bytes does, neither panics, and no accepted body is longer
    than the limits allow. *)
Theorem frame_decoders_agree `{Zstd} `{Crc32} options frame :
  returns (decode_frame_borrowing frame options) /\
  returns (read_frame_from_with_options options frame).2 /\
  forall body,
    (decode_frame_borrowing frame options = Ok body <->
     read_frame_from_with_options options frame = ([], Ok body)) /\
    (decode_frame_borrowing frame options = Ok body ->
     Z.of_nat (length body) <= Z.max (co_max_frame_len options) (co_max_decompressed_frame_len options)).
Proof.
  split_and!; [apply decode_frame_returns|apply safe_read_frame; lia|]. intros body.
  split; [apply decode_frame_spec|]. intros Hb%decode_frame_spec. by eapply read_frame_bound.
Qed.

Lemma frame_decoders_agree_witness : returns (decode_frame_borrowing sample_stream CodecOptions_default).
Proof. exact (proj1 (frame_decoders_agree CodecOptions_default sample_stream)). Defined.

(** responses.  A batch of typed EXEC results that the server sends is what the
    client decodes, under the id of the request. *)
Theorem exec_response_round_trip `{Zstd} `{Crc32} o o' id results resp frame rest :
  uuid_ok id -> Forall exec_result_typed results ->
  Response.exec_results id results = Ok resp ->
  co_max_frame_len o <= u32_max -> within_limits o o' ->
  encode_response_with_options resp o = Ok frame ->
  exists resp', read_response_from_with_options o' (frame ++ rest) = (rest, Ok resp') /\
    rs_request_id resp' = id /\ rs_status resp' = StatusOk /\
    Response.decode_exec_results resp' = Ok results.
Proof.
  intros Hid Ht Hr Hm Hl Hf. assert (rs_request_id resp = id /\ rs_status resp = StatusOk) as [Hrid Hrst]
    by (by apply result_bind_ok in Hr as (p & _ & [= <-])).
  destruct (response_body_round_trip resp) as (body & Hb & Hd); [by rewrite Hrid|].
  unfold encode_response_with_options in Hf. rewrite Hb in Hf. cbn in Hf. exists resp.
  split_and!; try done; [|by eapply exec_results_round_trip].
  unfold read_response_from_with_options, mbind, fallible_bind.
  rewrite (frame_round_trip _ _ _ _ _ Hf Hm Hl). unfold mpure. by rewrite Hd.
Qed.

Definition sample_results : list ExecResultPayload :=
  [ExecOk; ExecInteger (-5); ExecStrings [None; Some (as_bytes "x")]; ExecScan (mkScanPayload 3 ["k"%string])].

Lemma exec_response_round_trip_witness :
  exists resp frame resp',
    Response.exec_results (replicate 16 x09) sample_results = Ok resp /\
    encode_response_with_options resp CodecOptions_default = Ok frame /\
    read_response_from frame = ([], Ok resp') /\ Response.decode_exec_results resp' = Ok sample_results.
Proof.
  assert (exists resp, Response.exec_results (replicate 16 x09) sample_results = Ok resp) as [resp Hr]
    by (eexists; vm_compute; reflexivity).
  assert (exists frame, encode_response_with_options resp CodecOptions_default = Ok frame) as [frame Hf]
    by (vm_compute in Hr; injection Hr as <-; eexists; vm_compute; reflexivity).
  destruct (exec_response_round_trip CodecOptions_default CodecOptions_default (replicate 16 x09)
    sample_results resp frame []) as (resp' & Hread & _ & _ & Hd).
  - reflexivity.
  - repeat constructor; vm_compute; discriminate.
  - exact Hr.
  - vm_compute. discriminate.
  - split; [|split; [|split]]; vm_compute; congruence.
  - exact Hf.
  - rewrite app_nil_r in Hread. exists resp, frame, resp'. split; [exact Hr|]. split; [exact Hf|].
    split; [exact Hread|exact Hd].
Defined.
