(* ===== verification/Serving.v ===== *)
(** * Serving: reads of a server that follows its own log

    How far [advance_read_index_to] takes the read index, and a server whose index
    is advanced behind every write: the path of a standalone server, and of a leader
    while it leads. *)

From S2P Require Import Prelude Text Command Wire Request Response EngineError Store State Crypto.
From S2P Require Import ServerError ReadIndex Consensus Wal WalFacts WalLayout Engine Transaction.
From S2P Require Import TxFacts BatchFacts StorageFacts Backup History Replication ReplicaFacts.
From S2P Require Import DiskLog Storage DiskEngine EngineWorker Node Recovery ReplicaDisk.
From S2P Require Import DiskHandle NodeFacts.

(** * The read index and the engine

    The index projects values and deadlines of a replayed keyspace.  As long as it
    is fed with the entries the engine logs, its answers are those of the engine. *)

Import CommittedReadIndex.

Definition project_entry (e : StoredValue) : ReadEntry :=
  mkReadEntry (sv_value e) (sv_expires_at_ms e).
Definition project (s : EngineStore) : gmap string ReadEntry := project_entry <$> s.

Lemma rebuild_project st :
  rebuild_from_engine_state st = mkReadIndexState (project (es_store st)) (last_sequence st).
Proof.
  unfold rebuild_from_engine_state, EngineState.to_persisted_parts, EngineStore.to_parts. cbn.
  f_equal. apply map_eq. intros k. unfold project. rewrite map_lookup_imap, !lookup_fmap, lookup_omap.
  by destruct (es_store st !! k) as [[v x ver]|].
Qed.

(** ** Operations *)

Lemma project_alter f g k s :
  (forall e, project_entry (f e) = g (project_entry e)) ->
  alter g k (project s) = project (alter f k s).
Proof.
  intros Hfg. apply map_eq. intros j. unfold project. rewrite lookup_fmap.
  destruct (decide (j = k)) as [->|Hne].
  - rewrite !lookup_alter_eq, lookup_fmap. destruct (s !! k); cbn; by rewrite ?Hfg.
  - by rewrite !lookup_alter_ne, lookup_fmap by done.
Qed.

Lemma index_operation_project s op s' :
  op_step s op = Ok s' -> index_operation op (project s) = (project s', Ok tt).
Proof.
  destruct op as [k v ver|k|k t|k| |k d]; cbn.
  - intros [= <-]. unfold mmodify, project. by rewrite fmap_insert.
  - intros [= <-]. unfold mmodify, project. by rewrite fmap_delete.
  - intros [= <-]. unfold mmodify. by erewrite project_alter.
  - intros [= <-]. unfold mmodify. by erewrite project_alter.
  - intros [= <-]. unfold mput, project. by rewrite fmap_empty.
  - intros (p & Hp & (n & Hn & Hs)%result_bind_ok)%result_bind_ok. injection Hs as <-.
    unfold mbind, fallible_bind, mget, mpure, mmodify. cbn.
    unfold project at 1. rewrite lookup_fmap, <- option_fmap_compose.
    change (re_value ∘ project_entry) with sv_value. rewrite Hp. cbn in *. rewrite Hn.
    unfold project. by rewrite fmap_insert.
Qed.

Lemma index_operations_project s ops s' :
  ops_run s ops = Ok s' -> mfor index_operation ops (project s) = (project s', Ok tt).
Proof.
  revert s. induction ops as [|op ops IH]; intros s Hr; cbn in Hr; [by injection Hr as <-|].
  apply result_bind_ok in Hr as (s1 & Hs & Hr). cbn. unfold mbind, fallible_bind.
  rewrite (index_operation_project _ _ _ Hs). by apply IH.
Qed.

(** Entries behind the index move it as replay moves the keyspace. *)
Lemma apply_entries_project s c entries s' :
  contiguous (c + 1) entries -> ops_run s (log_ops entries) = Ok s' ->
  apply_entries entries (mkReadIndexState (project s) c) =
    (mkReadIndexState (project s') (c + Z.of_nat (length entries)), Ok tt).
Proof.
  revert s c. induction entries as [|e entries IH]; intros s c Hc Hr.
  { injection Hr as <-. by rewrite Z.add_0_r. }
  apply contiguous_cons in Hc as [He Hc].
  change (log_ops (e :: entries)) with (we_operations e ++ log_ops entries) in Hr.
  rewrite ops_run_app in Hr. apply result_bind_ok in Hr as (s1 & Hs & Hr).
  unfold apply_entries in *. cbn [mfor]. unfold mbind, fallible_bind, apply_one at 1.
  cbn [ri_entries ri_committed_sequence]. rewrite (proj2 (Z.leb_gt _ _)) by lia.
  rewrite (index_operations_project _ _ _ Hs), He, (IH s1) by done. cbn [length].
  do 2 f_equal. lia.
Qed.

(** ** The index follows the engine *)

(** The index holds the replay of a keyspace that clients cannot tell from [st]. *)
Definition mirrors (now : Z) (st : EngineState) (index : ReadIndexState) : Prop :=
  exists r, tracks now (es_store st) r /\ index = mkReadIndexState (project r) (last_sequence st).

Lemma rebuild_mirrors now st : mirrors now st (rebuild_from_engine_state st).
Proof. exists (es_store st). split; [apply tracks_refl|apply rebuild_project]. Qed.

(** ** Answers *)

Lemma live_entry_project r k t : live_entry (project r) k t = project_entry <$> live t r !! k.
Proof.
  unfold live_entry, project. rewrite lookup_fmap, lookup_live.
  destruct (r !! k) as [[v [x|] ver]|]; cbn; try done. unfold EngineStore.is_expired. cbn.
  by destruct (x <=? t).
Qed.

Lemma live_entry_cached r k t : live_entry_with_cached_time r k t = live_entry r k t.
Proof.
  unfold live_entry, live_entry_with_cached_time. destruct (r !! k) as [[v [x|]]|]; cbn; try done.
  by rewrite Z.ltb_antisym; destruct (x <=? t).
Qed.

Section answers.
Context `{Crc32} `{CryptoLib} `{Binary WalEntry} `{Binary Manifest} `{Binary StoredKeyring}
  `{SnapshotCodec} `{NonceSource} `{Base64} `{BackupJson} (uuid_to_string : list byte -> string).

Lemma logged_mirrors now now' (eng eng' : Engine DiskLog) st0 entries index :
  mirrors now (en_state eng) index -> now <= now' -> logged now' eng eng' st0 entries ->
  (forall k, k ∈ counter_keys (log_ops entries) -> es_store st0 !! k = None ->
     ri_entries index !! k = None) ->
  exists index', apply_entries entries index = (index', Ok tt) /\ mirrors now' (en_state eng') index'.
Proof.
  intros (r & Ht & ->) Hle Hl Hc.
  pose proof (swept_tracks _ _ _ _ _ (lg_swept _ _ _ _ _ Hl) Hle Ht) as Ht0.
  pose proof (lg_applied _ _ _ _ _ Hl) as [Hrun Hm]%apply_entries_ok.
  destruct (ops_run_tracks now' (es_store st0) r (log_ops entries) (es_store (en_state eng')))
    as (r' & Hr' & Ht'); [done|apply Hl| |done|].
  { apply counters_fresh_agree. intros k Hk. specialize (Ht0 k).
    destruct (es_store st0 !! k) eqn:E; [done|]. specialize (Hc k Hk E). cbn in Hc.
    unfold project in Hc. rewrite lookup_fmap in Hc. by destruct (r !! k). }
  eexists. split; [apply apply_entries_project; [apply (lg_sequences _ _ _ _ _ Hl)|exact Hr']|].
  exists r'. split; [done|]. f_equal. symmetry. apply (logged_sequence _ _ _ _ _ Hl).
Qed.

Lemma mirrors_read p (de : DiskEngine) index i id c :
  mirrors p (de_state de) index -> p <= ci_now_ms i -> is_fast_path_read c = true ->
  read_command index (ci_now_ms i) id c = (execute_command uuid_to_string i id c de).2.
Proof.
  intros (r & Ht & ->) Hle Hc. destruct i as [now now2 entry_ms inputs]. cbn [ci_now_ms] in *.
  pose proof (tracks_live _ _ _ _ Ht Hle) as Hl. unfold de_state in *.
  rewrite <- (purge_state_store now) in Hl.
  destruct c; try done; cbn [read_command execute_command ri_entries];
    unfold mbind, fallible_bind, core, call, on_core.
  - unfold Engine.get. rewrite read_state_run, get_live_value, live_entry_project, <- Hl. cbn.
    unfold EngineState.raw_value, EngineStore.get_value. by destruct (es_store _ !! key).
  - unfold Engine.mget. rewrite purge_bind. unfold mbind, fallible_bind, mget. cbn. do 2 f_equal.
    apply list_fmap_ext. intros _ k _. rewrite live_entry_cached, live_entry_project, <- Hl.
    unfold EngineState.raw_value, EngineStore.get_value, purge_state.
    by destruct (es_store _ !! k).
  - unfold Engine.exists_. rewrite read_state_run, live_entry_project, <- Hl. cbn.
    unfold EngineState.has_live_key, purge_state. destruct (EngineState.purge_expired _ _). cbn.
    unfold EngineStore.contains_key. by destruct (es_store e !! key).
  - unfold Engine.ttl. rewrite read_state_run, ttl_for_run. cbn. rewrite Hl, lookup_live.
    unfold project. rewrite lookup_fmap. destruct (r !! key) as [[v [x|] ver]|]; cbn; try done.
    unfold entry_expired, EngineStore.is_expired. cbn. by destruct (x <=? now).
Qed.

End answers.

(** * Servers *)

Import CommittedReadIndex.

(** ** Rounds of the loop *)

Lemma mfor_app {S E A} (f : A -> fallible S E unit) xs ys s :
  mfor f (xs ++ ys) s =
    match mfor f xs s with (s', Ok _) => mfor f ys s' | (s', Err e) => (s', Err e) end.
Proof.
  revert s. induction xs as [|x xs IH]; intros s; [done|]. cbn. unfold mbind, fallible_bind.
  destruct (f x s) as [s' [[]|]]; [apply IH|done].
Qed.

Lemma apply_entries_committed c entries index index' :
  ri_committed_sequence index = c -> contiguous (c + 1) entries ->
  apply_entries entries index = (index', Ok tt) ->
  ri_committed_sequence index' = c + Z.of_nat (length entries).
Proof.
  revert c index. induction entries as [|e entries IH]; intros c index Hc Hcont Ha.
  { injection Ha as <-. cbn. lia. }
  apply contiguous_cons in Hcont as [He Hcont]. apply fallible_bind_ok in Ha as (index1 & [] & H1 & Ha).
  assert (ri_committed_sequence index1 = c + 1) as Hc1.
  { unfold apply_one in H1. rewrite (proj2 (Z.leb_gt _ _)) in H1 by lia.
    destruct (mfor index_operation _ _) as [? [|]]; [|done]. by injection H1 as <-. }
  rewrite (IH _ _ Hc1 Hcont Ha). cbn [length]. lia.
Qed.

Section loop.
Context {E : Type} `{EngineHandle E} `{EntryChecksum} `{!EngineHandleLaws E} `{ReplicationJson}.

(** The entries one round asks for. *)
Definition batch_after (e : E) (limit : nat) (c : Z) : list WalEntry :=
  match limit with O => after c (eh_log e) | _ => take limit (after c (eh_log e)) end.

Lemma batch_after_prefix e limit c :
  exists k, batch_after e limit c = take k (after c (eh_log e)) /\
    (batch_after e limit c = [] -> after c (eh_log e) = []).
Proof.
  destruct limit as [|limit]; cbn.
  - exists (length (after c (eh_log e))). rewrite take_ge by lia. done.
  - exists (S limit). split; [done|]. by destruct (after c (eh_log e)).
Qed.

(** The index is within the log. *)
Definition within (e : E) (c : Z) : Prop :=
  exists n, n <= c + 1 /\ contiguous n (eh_log e).

Lemma within_after e c : within e c -> contiguous (c + 1) (after c (eh_log e)).
Proof.
  intros (n & Hn & Hc). unfold after. rewrite (filter_after n) by (done || lia).
  pose proof (contiguous_drop n (eh_log e) (Z.to_nat (c + 1 - n)) Hc) as Hd.
  destruct (decide (Z.to_nat (c + 1 - n) <= length (eh_log e))%nat).
  - rewrite Nat.min_l in Hd by done. by replace (n + _) with (c + 1) in Hd by lia.
  - by rewrite drop_ge by lia.
Qed.

Lemma after_batch e k c :
  within e c ->
  after (c + Z.of_nat (length (take k (after c (eh_log e))))) (eh_log e) = drop k (after c (eh_log e)).
Proof.
  intros Hw. pose proof (within_after _ _ Hw) as Hc.
  rewrite <- (after_after c) by lia. rewrite after_drop by done.
  rewrite length_take. destruct (decide (k <= length (after c (eh_log e)))%nat).
  - by rewrite Nat.min_l.
  - by rewrite Nat.min_r, !drop_ge by lia.
Qed.

Lemma within_mono e c d : within e c -> c <= d -> within e d.
Proof. intros (n & Hn & Hc) Hd. exists n. split; [lia|done]. Qed.

Lemma advance_loop_done fuel target (node : Node E) :
  target <= ri_committed_sequence (nd_index node) -> advance_loop fuel target node = (node, Ok tt).
Proof.
  intros Hle. destruct fuel; cbn [advance_loop]; unfold mbind at 1, fallible_bind at 1, mget;
    by rewrite (proj2 (Z.leb_le _ _)).
Qed.

(** One round of the loop behind its guard. *)
Lemma advance_loop_round fuel target (node : Node E) :
  eh_ok (nd_engine node) -> ri_committed_sequence (nd_index node) < target ->
  advance_loop (S fuel) target node =
    match batch_after (nd_engine node) (rc_fetch_batch_size (rr_config (nd_runtime node)))
            (ri_committed_sequence (nd_index node)) with
    | [] => (node, Ok tt)
    | entries =>
        match apply_entries entries (nd_index node) with
        | (index, Ok _) => advance_loop fuel target (mkNode (nd_engine node) (nd_runtime node) index)
        | (index, Err e) => (mkNode (nd_engine node) (nd_runtime node) index, Err e)
        end
    end.
Proof.
  intros Hok Hlt. cbn [advance_loop]. unfold mbind at 1, fallible_bind at 1, mget.
  rewrite (proj2 (Z.leb_gt _ _)) by done.
  unfold mbind at 1, fallible_bind at 1, mpure. rewrite (eh_since_law _ _ _ Hok).
  fold (batch_after (nd_engine node) (rc_fetch_batch_size (rr_config (nd_runtime node)))
          (ri_committed_sequence (nd_index node))).
  cbn [from_engine map_err]. destruct (batch_after _ _ _) as [|x xs]; [done|].
  unfold mbind, fallible_bind, on_index. by destruct (apply_entries (x :: xs) (nd_index node)) as [? [|]].
Qed.

(** With the fuel of [advance_read_index_to], a loop that ends without an error has
    reached the target or the end of the log. *)
Lemma advance_loop_reaches fuel target (node node' : Node E) :
  eh_ok (nd_engine node) -> within (nd_engine node) (ri_committed_sequence (nd_index node)) ->
  target - ri_committed_sequence (nd_index node) <= Z.of_nat fuel ->
  advance_loop fuel target node = (node', Ok tt) ->
  ri_committed_sequence (nd_index node) <= ri_committed_sequence (nd_index node') /\
  (target <= ri_committed_sequence (nd_index node') \/
   after (ri_committed_sequence (nd_index node')) (eh_log (nd_engine node)) = []).
Proof.
  revert node. induction fuel as [|fuel IH]; intros [e rt index] Hok Hw Hf Ha; cbn [nd_engine nd_index] in *.
  { rewrite advance_loop_done in Ha by (cbn; lia). injection Ha as <-. cbn. split; [lia|left; lia]. }
  destruct (Z.leb_spec target (ri_committed_sequence index)) as [Hle|Hlt].
  { rewrite advance_loop_done in Ha by done. injection Ha as <-. cbn. split; [lia|by left]. }
  rewrite advance_loop_round in Ha by done. cbn [nd_engine nd_index nd_runtime] in Ha.
  destruct (batch_after_prefix e (rc_fetch_batch_size (rr_config rt)) (ri_committed_sequence index))
    as (k & Hk & Hnil).
  destruct (batch_after _ _ _) as [|x xs] eqn:Eb.
  { injection Ha as <-. cbn. split; [lia|right; by apply Hnil]. }
  destruct (apply_entries (x :: xs) index) as [index1 [[]|]] eqn:Ea; [|done].
  assert (contiguous (ri_committed_sequence index + 1) (x :: xs)) as Hcont.
  { rewrite Hk. by apply contiguous_take, within_after. }
  pose proof (apply_entries_committed _ _ _ _ eq_refl Hcont Ea) as Hc1. cbn [length] in Hc1.
  apply IH in Ha; cbn [nd_engine nd_index] in *; [|done| |lia].
  - destruct Ha as [Hmono Hend]. split; [lia|done].
  - eapply within_mono; [done|lia].
Qed.

(** When the entries behind the index apply, the loop applies them all. *)
Lemma advance_loop_all fuel (node : Node E) target index' :
  eh_ok (nd_engine node) -> within (nd_engine node) (ri_committed_sequence (nd_index node)) ->
  target = ri_committed_sequence (nd_index node) +
             Z.of_nat (length (after (ri_committed_sequence (nd_index node)) (eh_log (nd_engine node)))) ->
  target - ri_committed_sequence (nd_index node) <= Z.of_nat fuel ->
  apply_entries (after (ri_committed_sequence (nd_index node)) (eh_log (nd_engine node))) (nd_index node)
    = (index', Ok tt) ->
  advance_loop fuel target node = (mkNode (nd_engine node) (nd_runtime node) index', Ok tt).
Proof.
  revert node. induction fuel as [|fuel IH]; intros [e rt index] Hok Hw Ht Hf Ha; cbn [nd_engine nd_index nd_runtime] in *.
  { assert (after (ri_committed_sequence index) (eh_log e) = []) as Hn by (apply nil_length_inv; lia).
    rewrite Hn in Ha. injection Ha as <-. by rewrite advance_loop_done by (cbn; lia). }
  destruct (Z.leb_spec target (ri_committed_sequence index)) as [Hle|Hlt].
  { assert (after (ri_committed_sequence index) (eh_log e) = []) as Hn by (apply nil_length_inv; lia).
    rewrite Hn in Ha. injection Ha as <-. by rewrite advance_loop_done. }
  rewrite advance_loop_round by done. cbn [nd_engine nd_index nd_runtime].
  destruct (batch_after_prefix e (rc_fetch_batch_size (rr_config rt)) (ri_committed_sequence index))
    as (k & Hk & Hnil).
  pose proof (after_batch e k _ Hw) as Hrest. rewrite <- Hk in Hrest.
  pose proof (within_after _ _ Hw) as Hcont. pose proof (contiguous_take _ _ k Hcont) as Hck. rewrite <- Hk in Hck.
  rewrite <- (take_drop k (after _ _)), <- Hk in Ha. unfold apply_entries in Ha. rewrite mfor_app in Ha.
  fold (apply_entries (batch_after e (rc_fetch_batch_size (rr_config rt)) (ri_committed_sequence index))) in Ha.
  assert (Z.of_nat (length (batch_after e (rc_fetch_batch_size (rr_config rt)) (ri_committed_sequence index))) +
          Z.of_nat (length (drop k (after (ri_committed_sequence index) (eh_log e)))) =
          target - ri_committed_sequence index) as Hlen.
  { rewrite Hk, <- Nat2Z.inj_add, <- length_app, take_drop. lia. }
  destruct (batch_after _ _ _) as [|x xs]; [rewrite (Hnil eq_refl) in Ht; cbn [length] in Ht; lia|].
  destruct (apply_entries (x :: xs) index) as [index1 [[]|]] eqn:Ea; [|done].
  pose proof (apply_entries_committed _ _ _ _ eq_refl Hck Ea) as Hc1. rewrite <- Hc1 in Hrest.
  rewrite (IH (mkNode e rt index1)); cbn [nd_engine nd_index nd_runtime]; rewrite ?Hrest; try done.
  - eapply within_mono; [done|cbn in Hc1; lia].
  - lia.
  - cbn [length] in *. lia.
Qed.

End loop.

(** ** A server that writes and reads *)

Section serving.
Context `{Crc32} `{CryptoLib} `{Binary WalEntry} `{Binary Manifest} `{Binary StoredKeyring}
  `{SnapshotCodec} `{NonceSource}.

(** The counters among the entries from [core] to [core'] have not lapsed in the index:
    the key of an INCR or DECR is not in the index, or its deadline has not passed.  Where
    it has passed, index and engine count from different values, so what is proved of
    [serving] leaves such servers out. *)
Definition counters_current (now : Z) (core core' : Engine DiskLog) (index : ReadIndexState) : Prop :=
  forall entries k, en_wal_entries core' = en_wal_entries core ++ entries ->
    k ∈ counter_keys (log_ops entries) ->
    ri_entries index !! k = None \/ is_Some (live_entry (ri_entries index) k now).

(** The index starts from the state of the engine and is advanced behind every
    operation; the runtime may be anything. *)
Inductive serving : Z -> Node DiskEngine -> Prop :=
| ServeStart now de rt :
    log_ok (de_core de) -> 0 <= last_sequence (de_state de) < u64_max ->
    serving now (mkNode de rt (rebuild_from_engine_state (de_state de)))
| ServeStep now now' node core' rt :
    serving now node -> now <= now' -> 0 <= now' < u64_max ->
    step now' (de_core (nd_engine node)) core' -> last_sequence (en_state core') < u64_max ->
    counters_current now' (de_core (nd_engine node)) core' (nd_index node) ->
    serving now' (advance_read_index_to (last_sequence (en_state core'))
                    (mkNode (with_core (nd_engine node) core') rt (nd_index node))).1.

Lemma after_appended (core core' : Engine DiskLog) entries :
  log_ok core -> en_wal_entries core' = en_wal_entries core ++ entries ->
  contiguous (last_sequence (en_state core) + 1) entries ->
  after (last_sequence (en_state core)) (en_wal_entries core') = entries /\
  exists n, n <= last_sequence (en_state core) + 1 /\ contiguous n (en_wal_entries core').
Proof.
  intros [(n & Hn & Hc & Hl) _] -> He.
  assert (contiguous n (en_wal_entries core ++ entries)) as Happ.
  { apply contiguous_app. split; [done|]. by replace (n + _) with (last_sequence (en_state core) + 1) by lia. }
  split; [|exists n; split; [lia|done]].
  unfold after. rewrite (filter_after n) by (done || lia).
  replace (Z.to_nat _) with (length (en_wal_entries core)) by lia. apply drop_app_length.
Qed.

(** A key that is live in the index is one of the engine. *)
Lemma current_counter now now' st st0 index k :
  mirrors now st index -> now <= now' -> swept_state now' st st0 ->
  ri_entries index !! k = None \/ is_Some (live_entry (ri_entries index) k now') ->
  es_store st0 !! k = None -> ri_entries index !! k = None.
Proof.
  intros (r & Ht & ->) Hle Hsw [Hn|Hl] Hz; [done|]. cbn in *. exfalso.
  pose proof (tracks_live _ now' _ _ (swept_tracks _ _ _ _ _ Hsw Hle Ht) ltac:(lia)) as Heq.
  rewrite live_entry_project, <- Heq, lookup_live, Hz in Hl. by destruct Hl.
Qed.

Lemma serving_mirrors now node :
  (forall e : WalEntry, is_ok (binary_encode e) = true) -> serving now node ->
  log_ok (de_core (nd_engine node)) /\ 0 <= last_sequence (de_state (nd_engine node)) < u64_max /\
  mirrors now (de_state (nd_engine node)) (nd_index node).
Proof.
  intros Henc. induction 1 as [now de rt Hok Hseq|now now' [de rt0 index] core' rt _ IH Hle Hnow Hstep Hb Hcnt].
  { split; [done|]. split; [done|]. apply rebuild_mirrors. }
  destruct IH as (Hok & Hseq & Hm). cbn [nd_engine nd_index] in *. unfold de_state in *.
  destruct (step_logged now' (de_core de) core') as (st0 & entries & Hlg);
    [done|lia|intros e; by apply checksum_total|done|].
  destruct (logged_mirrors now now' (de_core de) core' st0 entries index) as (index' & Ha & Hm'); [done..| |].
  { intros k Hk. eapply current_counter; try done; [apply Hlg|].
    apply (Hcnt entries); [apply Hlg|done]. }
  destruct (after_appended (de_core de) core' entries Hok) as [Haft Hw];
    [apply Hlg|apply (lg_sequences _ _ _ _ _ Hlg)|].
  pose proof (logged_log_ok _ _ _ _ _ Hok Hlg) as Hok'.
  pose proof (logged_sequence _ _ _ _ _ Hlg) as Hlast.
  assert (ri_committed_sequence index = last_sequence (en_state (de_core de))) as Hci
    by (by destruct Hm as (? & _ & ->)).
  assert (advance_read_index_to (last_sequence (en_state core')) (mkNode (with_core de core') rt index)
          = (mkNode (with_core de core') rt index', Ok tt)) as ->.
  { unfold advance_read_index_to, mbind at 1, fallible_bind at 1, mget. cbn [nd_index].
    apply advance_loop_all; cbn [nd_index nd_engine]; rewrite ?Hci; cbn [eh_log disk_handle_laws de_core with_core];
      rewrite ?Haft; try done; lia. }
  cbn [fst nd_engine nd_index de_core with_core]. split; [done|]. split; [lia|done].
Qed.

End serving.
