(* ===== verification/NodeTheorems.v ===== *)
(** * NodeTheorems: replication between servers and the reads they serve

    What an accepted append establishes, that a leader finds the place where a
    follower agrees, that reads from the index are those of the engine, and runs of
    three servers in which acknowledged writes are lost or not seen. *)

From S2P Require Import Prelude Text Command EngineError Store State Crypto Wal Wire Request.
From S2P Require Import Response ServerError ReadIndex Consensus Elections ElectionFacts WalFacts.
From S2P Require Import WalLayout Engine Transaction History Backup Replication DiskLog Storage.
From S2P Require Import DiskEngine EngineWorker Node ReplicaDisk DiskHandle NodeFacts Recovery.
From S2P Require Import Serving Samples NodeRuns Runs WritePath.
Import ReplicationRuntime.

(** ** Append requests *)

(** C5: an accepted append makes the follower's log the leader's.  When a follower
    accepts what a leader planned for it, its log ends at the position it reports;
    from the entry before the request up to there it has the leader's entries, by
    term and checksum, and before it the log is as it was.  (A request from the
    beginning needs a leader whose log goes back to the first entry.) *)
Theorem append_agrees {E} `{EngineHandle E} `{EntryChecksum} `{!EngineHandleLaws E} `{ReplicationJson}
    env now_ms env' ms (leader leader' follower follower' : Node E) plans member payload response :
  eh_ok (nd_engine leader) -> 0 <= last_sequence (eh_state (nd_engine leader)) < u64_max ->
  eh_ok (nd_engine follower) ->
  plan_appends env now_ms leader = (leader', Ok plans) -> (member, SendAppend payload) ∈ plans ->
  (aq_prev_sequence payload = 0 -> complete_log (nd_engine leader)) ->
  handle_append env' ms payload follower = (follower', Ok response) ->
  ap_accepted response = true ->
  let prev := aq_prev_sequence payload in
  let matched := ap_match_sequence response in
  eh_ok (nd_engine follower') /\ engine_sequence follower' = matched /\
  prev <= matched <= engine_sequence leader /\
  (forall s, s <= prev ->
     entry_at s (eh_log (nd_engine follower')) = entry_at s (eh_log (nd_engine follower))) /\
  (forall s, prev <= s <= matched ->
     entry_at s (eh_log (nd_engine follower')) ≫= entry_identity =
     entry_at s (eh_log (nd_engine leader)) ≫= entry_identity).
Proof.
  intros Hol Hseq Hof Hplan Hin Hone Hx Hacc prev matched.
  pose proof (plan_appends_spec _ _ _ _ _ _ _ Hol ltac:(lia) Hplan Hin) as Hp. cbn in Hp.
  destruct (planned_well_formed _ _ Hol ltac:(lia) Hp Hone) as (Hw & Hle & Hent).
  pose proof (handle_append_spec _ _ _ _ _ _ Hof Hw Hx) as Hs. rewrite Hacc in Hs.
  destruct Hs as [(Hok' & Hlast & Hm & Hlow & Hhigh) Hprev].
  split_and!; [done|by unfold engine_sequence|unfold matched, prev; lia|unfold engine_sequence, matched; lia|done|].
  intros s Hs. destruct (decide (s = prev)) as [->|Hne].
  - rewrite Hlow by (unfold prev; lia). by apply prev_matches_identity, Hp.
  - unfold prev, matched in *. rewrite Hhigh by lia. by rewrite Hent by lia.
Qed.

(** [b] kept the write ["x"] that the leader [c] replaced by ["y"]; the next request
    of [c] repairs it. *)
Definition repair_run : option (Node DiskEngine * Node DiskEngine * Node DiskEngine * AppendEntriesResponse) :=
  '(_, b, c, _) ← replaced_write;
  '(_, plans) ← done (plan_appends (at_time 12) 12) c;
  '(_, payload) ← append_for "b" plans;
  '(b', response) ← done (handle_append (at_time 12) 12 payload) b;
  if (aq_prev_sequence payload =? 1) && pair_checks "b" c b && (engine_sequence c <? u64_max)
     && ap_accepted response && (ap_match_sequence response =? 2)
     && bool_decide (k_of b = Some "x"%string) && bool_decide (k_of b' = Some "y"%string)
  then Some (b, c, b', response) else None.

Lemma repair_run_done : is_Some repair_run.
Proof.
  assert (is_some repair_run = true) as Hr by (vm_compute; reflexivity).
  destruct repair_run as [run|]; [by exists run|discriminate].
Qed.

Lemma append_agrees_witness :
  exists b c b' response, repair_run = Some (b, c, b', response) /\
    k_of b = Some "x"%string /\ k_of b' = Some "y"%string /\ ap_match_sequence response = 2 /\
    forall s, 1 <= s <= 2 ->
      entry_at s (eh_log (nd_engine b')) ≫= entry_identity = entry_at s (eh_log (nd_engine c)) ≫= entry_identity.
Proof.
  destruct repair_run_done as [[[[b c] b'] response] Er]. exists b, c, b', response. split; [exact Er|].
  unfold repair_run in Er. apply bind_Some in Er as ([[[a b0] c0] r] & _ & Er).
  apply bind_Some in Er as ([c1 plans] & Hplan%done_ok & Er).
  apply bind_Some in Er as ([member payload] & [Hin _]%append_for_in & Er).
  apply bind_Some in Er as ([b1 answer] & Hx%done_ok & Er).
  destruct (_ && _) eqn:Ec in Er; [|discriminate]. injection Er as -> -> -> ->.
  rewrite !andb_true_iff, !bool_decide_eq_true, !Z.eqb_eq, Z.ltb_lt in Ec.
  destruct Ec as [[[[[[Hp (Hc & Hb & Hseq & _ & _ & _ & _ & _ & Hcc & _)%pair_checks_ok] Hhi] Hacc] Hm] Hx1] Hy].
  split; [exact Hx1|]. split; [exact Hy|]. split; [exact Hm|]. rewrite <- Hm, <- Hp.
  apply (append_agrees (at_time 12) 12 (at_time 12) 12 c c1 b b' plans member payload response);
    done.
Defined.






(** ** Reads *)

(** C13: reads from the index are those of the engine.  On a server whose index was
    built from its engine and is advanced behind every operation, a GET, MGET, EXISTS
    or TTL that takes the fast path gets the answer the engine would give, at every
    later time, with deadlines that have passed or not.  This holds as long as no INCR or
    DECR hits a key whose deadline has passed while the index still has it
    ([counters_current] in every step of [serving]); then it does not hold, as
    [lapsed_counter_read] shows. *)
Theorem fast_reads_exact `{Crc32} `{CryptoLib} `{Binary WalEntry} `{Binary Manifest} `{Binary StoredKeyring}
    `{SnapshotCodec} `{NonceSource} `{Base64} `{BackupJson} (uuid_to_string : list byte -> string)
    now (node : Node DiskEngine) i id c answer :
  (forall e : WalEntry, is_ok (binary_encode e) = true) -> serving now node -> now <= ci_now_ms i ->
  fast_read (ci_now_ms i) id c node = Some answer ->
  answer = (execute_command uuid_to_string i id c (nd_engine node)).2.
Proof.
  intros Henc Hs Hle Hf. unfold fast_read in Hf. destruct (is_fast_path_read c) eqn:Hc; [|done].
  destruct (should_use_read_fast_path _); [|done]. injection Hf as <-.
  by eapply mirrors_read; [apply serving_mirrors|..].
Qed.

(** The leader [c] with a key that expires after 100 seconds. *)
Definition served : option (Node DiskEngine) :=
  c ← elected_node "c";
  let core := (write_a (de_core run1)).1 in
  Some (advance_read_index_to (last_sequence (en_state core))
          (mkNode (with_core run1 core) (nd_runtime c)
             (CommittedReadIndex.rebuild_from_engine_state (de_state run1)))).1.

Lemma served_serving node : served = Some node -> serving 5 node.
Proof.
  unfold served. intros (c & _ & <-%(inj Some))%bind_Some.
  refine (ServeStep 0 5 (mkNode run1 (nd_runtime c) _) (write_a (de_core run1)).1 (nd_runtime c) _ _ _ _ _ _).
  - apply ServeStart; [|split; [done|reflexivity]]. apply (built_log_ok _ 1); [lia|vm_compute; reflexivity..].
  - lia.
  - by vm_compute.
  - apply (StepTransaction _ _ _ 6 set_a (unwrap [] (write_a (de_core run1)).2)).
    + repeat constructor; try done; vm_compute; done.
    + vm_compute. reflexivity.
  - by vm_compute.
  - intros entries k He Hk. vm_compute in He. subst entries. vm_compute in Hk. by apply elem_of_nil in Hk.
Qed.

Definition read_inputs : CommandInputs := mkCommandInputs 50 50 50 (inputs_at 50).

Lemma served_answers :
  (fun node => (fast_read 50 request_id (CmdGet "a") node, fast_read 50 request_id (CmdTtl "a") node)) <$> served =
    Some (Some (read_as (Some "1"%string)), Some (Ok (Response.integer request_id 100))).
Proof. vm_compute. reflexivity. Qed.

Lemma fast_reads_exact_witness :
  exists node, served = Some node /\
    (execute_command (fun _ => EmptyString) read_inputs request_id (CmdGet "a") (nd_engine node)).2
      = read_as (Some "1"%string) /\
    (execute_command (fun _ => EmptyString) read_inputs request_id (CmdTtl "a") (nd_engine node)).2
      = Ok (Response.integer request_id 100).
Proof.
  pose proof served_answers as Ha. destruct served as [node|] eqn:Es; [|discriminate].
  exists node. split; [reflexivity|]. apply served_serving in Es. injection Ha as Hg Ht. split.
  - symmetry. apply (fast_reads_exact _ 5 node read_inputs request_id (CmdGet "a")); [|exact Es|cbn; lia|exact Hg].
    done.
  - symmetry. apply (fast_reads_exact _ 5 node read_inputs request_id (CmdTtl "a")); [|exact Es|cbn; lia|exact Ht].
    done.
Defined.

(** an INCR of a lapsed key is read differently from the index and from the engine.
    The engine sweeps the key and counts from 0; the index, which gets the increment
    alone, counts from the value whose deadline has passed and drops the deadline. *)
Definition lapsed_counter : option (Node DiskEngine) :=
  c ← elected_node "c";
  let advance core index :=
    (advance_read_index_to (last_sequence (en_state core)) (mkNode (with_core run1 core) (nd_runtime c) index)).1 in
  let core1 := (Transaction.execute_transaction 5 6
                  [CmdSet "n" (as_bytes "5") SetOptions_default; CmdExpire "n" 1] (de_core run1)).1 in
  let node1 := advance core1 (CommittedReadIndex.rebuild_from_engine_state (de_state run1)) in
  Some (advance (Engine.incr 2000 2000 "n" core1).1 (nd_index node1)).

Theorem lapsed_counter_read :
  match lapsed_counter with
  | Some node =>
      fast_read 2001 request_id (CmdGet "n") node = Some (read_as (Some "6"%string)) /\
      (execute_command (fun _ => EmptyString) (mkCommandInputs 2001 2001 2001 (inputs_at 2001)) request_id
         (CmdGet "n") (nd_engine node)).2 = read_as (Some "1"%string)
  | None => False
  end.
Proof. vm_compute. auto. Qed.

(** ** Acknowledged writes that are lost or not seen *)

(** The run goes through, its last write was acknowledged, and the nodes are left so. *)
Definition acknowledges (run : option (Three * list (result ServerError Response)))
    (nodes : Node DiskEngine -> Node DiskEngine -> Node DiskEngine -> Prop) : Prop :=
  match run with
  | Some (a, b, c, responses) => responses = acknowledged /\ nodes a b c
  | None => False
  end.

(** a write that was rolled back can displace an acknowledged one.  The leader [c]
    appends ["x"], sends it to [b], gets no answer and rolls it back; it appends ["y"]
    at the same sequence and term, [a] has it, and the client is told that it is
    written.  [b] still has ["x"]; its log is as new as that of [a] by sequence and
    term, so [a] votes for it, and as leader of term 2 it replaces ["y"] everywhere. *)
Theorem acknowledged_write_lost :
  acknowledges lost_write (fun a b c =>
    role (nd_runtime b) = RoleLeader /\ current_term (nd_runtime b) = 2 /\
    commit_sequence (nd_runtime b) = 3 /\
    k_of c = Some "y"%string /\ k_of a = Some "x"%string /\ k_of b = Some "x"%string /\
    read_k b = Some (read_as (Some "x"%string))).
Proof. vm_compute. auto 10. Qed.

(** a leader can answer with an older value than the one acknowledged last.  [a]
    acknowledges three writes of ["k"]; the leader crashes, [a] is elected, its first
    entry and with it all the writes are committed.  It serves reads from its index,
    which follows the commit position of the requests it got as a follower and is
    not advanced when it starts to lead: a client reads ["x"] where ["y"] was
    acknowledged and is in the engine. *)
Theorem stale_read_after_failover :
  acknowledges failed_over (fun a b c =>
    role (nd_runtime a) = RoleLeader /\ current_term (nd_runtime a) = 2 /\
    commit_sequence (nd_runtime a) = engine_sequence a /\
    k_of a = Some "y"%string /\ k_of b = Some "y"%string /\
    read_k a = Some (read_as (Some "x"%string))).
Proof. vm_compute. auto 10. Qed.

(** the index can serve a write that was never committed.  The index of [b] is
    advanced in whole batches of the log, past the committed position it was asked
    for, so it takes ["x"] before it is committed.  The leader replaces ["x"] by ["y"] at
    the same sequence, which the index of [b] skips: when [b] leads, clients read the
    write that was rolled back, though all engines hold the acknowledged one. *)
Theorem rolled_back_write_read :
  acknowledges stale_index (fun a b c =>
    role (nd_runtime b) = RoleLeader /\
    k_of a = Some "y"%string /\ k_of b = Some "y"%string /\ k_of c = Some "y"%string /\
    read_k b = Some (read_as (Some "x"%string))).
Proof. vm_compute. auto 10. Qed.

(** a follower that fetches can stay different from its leader.  [b] has kept the
    write the leader replaced; the fetch asks for entries behind its last sequence and
    does not compare that entry.  [b] ends with as many entries as the others, its
    position is accepted by the leader's next append, and it holds another value. *)
Theorem fetch_keeps_divergence :
  match fetched with
  | Some (a, b, c) =>
      engine_sequence b = engine_sequence c /\
      commit_sequence (nd_runtime b) = commit_sequence (nd_runtime c) /\
      follower_next_sequence "b" (nd_runtime c) = engine_sequence c + 1 /\
      k_of c = Some "y"%string /\ k_of b = Some "x"%string
  | None => False
  end.
Proof. vm_compute. auto 10. Qed.

(** a new follower of a leader that compacted its log never catches up.  The
    leader's position for it is the beginning, for which it sends entries and not a
    snapshot, the first of which it no longer has; the follower fails on them, and the
    position stays.  A fetch fails on the same gap. *)
Theorem fresh_follower_stuck :
  match compacted with
  | Some (a, b, c) =>
      engine_sequence b = 0 /\ commit_sequence (nd_runtime c) = 3 /\
      (exists error, exchange (at_time 20) 20 "b" c b = FollowerFailed error) /\
      (let status := snapshot (at_time 20) (nd_runtime c) in
       match round_status (at_time 20) "c" status b with
       | (b', Ok (Some request)) =>
           match handle_fetch request c with
           | (_, Ok entries) => exists error, (round_apply status entries b').2 = Err error
           | _ => False
           end
       | _ => False
       end)
  | None => False
  end.
Proof. vm_compute. split; [done|]. split; [done|]. split; eexists; reflexivity. Qed.

(** a compacted node can elect a leader without its committed writes.  [b]
    acknowledged ["x"] and then installed a snapshot of the leader, after which its log
    is empty and the term of its last entry counts as 0.  A node that has only the
    first entry of term 1 then looks newer: [b] votes for it, and the leader it
    becomes does not have the acknowledged write. *)
Theorem compaction_loses_write :
  acknowledges forgotten_term (fun a b c =>
    role (nd_runtime a) = RoleLeader /\ current_term (nd_runtime a) = 2 /\
    commit_sequence (nd_runtime c) = 2 /\ k_of b = Some "x"%string /\ k_of c = Some "x"%string /\
    k_of a = None /\ read_k a = Some (read_as None)).
Proof. vm_compute. auto 10. Qed.


(** ** Writes of clients *)

(** C6: A write is acknowledged when it is committed.  The write coordinator runs a batch
    of writes, sends them to the other voters and waits.  Where writes are not
    acknowledged locally, if it answers at all, nothing of the batch has been undone,
    the clients get the answers of the engine, and the position of every write is
    committed. *)
Theorem acknowledged_committed {E} `{EngineHandle E} `{EntryChecksum} `{ReplicationJson} i now batch
    (node node' : Node E) responses :
  rc_write_ack_mode (rr_config (nd_runtime node)) <> AckLocal ->
  process_batch i now batch node = (node', Ok responses) ->
  exists results,
    eh_execute_write_batch now (current_term (nd_runtime node)) batch (nd_engine node) = (nd_engine node', Ok results) /\
    responses = (fun r => Ok (er_response r)) <$> results /\
    Forall (fun r => la_last_applied_sequence (er_last_applied r) <= commit_sequence (nd_runtime node')) results.
Proof.
  intros Hw Hr. destruct (process_batch_ok _ _ _ _ _ _ Hw Hr) as (e & results & He & <- & Hrest). by exists results.
Qed.

(** [c] leads three nodes; [b] takes the write, [a] does not answer. *)
Definition batch_inputs : WriteInputs :=
  mkWriteInputs (mkFanOut (at_time 10) 10 [("b"%string, mkAppendEntriesResponse 1 true 2)] false [])
    [] (at_time 10) [] 10.
Definition acknowledged_batch : option (Node DiskEngine * Node DiskEngine * list (result ServerError Response)) :=
  '(_, _, c) ← three_ready;
  match process_batch batch_inputs 10 (set_to "k" "1") c with
  | (c', Ok responses) => Some (c, c', responses)
  | _ => None
  end.

Lemma acknowledged_committed_witness :
  match acknowledged_batch with
  | Some (c, c', responses) =>
      responses = acknowledged /\ commit_sequence (nd_runtime c) = 1 /\
      exists results,
        eh_execute_write_batch 10 (current_term (nd_runtime c)) (set_to "k" "1") (nd_engine c) = (nd_engine c', Ok results) /\
        responses = (fun r => Ok (er_response r)) <$> results /\
        Forall (fun r => la_last_applied_sequence (er_last_applied r) <= commit_sequence (nd_runtime c')) results
  | None => False
  end.
Proof.
  assert (match acknowledged_batch with
          | Some (c, _, responses) =>
              responses = acknowledged /\ commit_sequence (nd_runtime c) = 1 /\
              rc_write_ack_mode (rr_config (nd_runtime c)) = AckReplica
          | None => False
          end) as Hc by (vm_compute; repeat split).
  unfold acknowledged_batch in *. destruct three_ready as [[[a b] c]|]; [|destruct Hc]. cbn in *.
  destruct (process_batch batch_inputs 10 (set_to "k" "1") c) as [c' [responses|]] eqn:Er; [|destruct Hc].
  destruct Hc as (Ha & Hs & Hm). split; [exact Ha|]. split; [exact Hs|].
  refine (acknowledged_committed batch_inputs 10 (set_to "k" "1") c c' responses _ Er). by rewrite Hm.
Defined.
