(* ===== verification/Confinement.v ===== *)
(** * Confinement: a session changes only what its user may change

    On a standalone server with users, every command of a logged-in session is
    followed through [process_command]: it changes the engine at most once, by a
    command or a transaction that was authorized. *)

From S2P Require Import Prelude Text Command Wire Opcode Request Response EngineError Store State.
From S2P Require Import Crypto ServerError ReadIndex Consensus Auth Access Status BackupFiles Wal.
From S2P Require Import WalFacts WalLayout Engine Transaction TxFacts BatchFacts StorageFacts.
From S2P Require Import Backup Replication DiskLog Storage DiskEngine EngineWorker Node WritePath.
From S2P Require Import Recovery DiskHandle Dispatch.

(** * The keys a command of a client changes

    A command that is executed for a client changes the live entries of its own keys
    only, apart from CLEAR and RESTORE. *)

(** From [now] on, clients see the same under [k]. *)
Definition same_at (now : Z) (k : string) (st st' : EngineState) : Prop :=
  forall t, now <= t -> live t (es_store st') !! k = live t (es_store st) !! k.

Lemma same_at_refl now k st : same_at now k st st.
Proof. by intros t _. Qed.

Lemma same_at_trans now k st1 st2 st3 : same_at now k st1 st2 -> same_at now k st2 st3 -> same_at now k st1 st3.
Proof. intros H1 H2 t Ht. by rewrite (H2 t Ht), (H1 t Ht). Qed.

Lemma same_at_purge now k st : same_at now k st (purge_state now st).
Proof. intros t Ht. by rewrite purge_state_store, live_live. Qed.

(** The entry of [k] is that of the swept state. *)
Lemma same_at_swept now k st st' :
  es_store st' !! k = es_store (purge_state now st) !! k -> same_at now k st st'.
Proof.
  intros Hk. eapply same_at_trans; [apply same_at_purge|]. intros t _. by rewrite !lookup_live, Hk.
Qed.

(** ** Evaluation *)

(** The keys a command can write. *)
Definition writes (c : Command) : list string :=
  match c with
  | CmdGet _ | CmdMGet _ | CmdExists _ | CmdTtl _ => []
  | _ => command_keys c
  end.

Lemma evaluate_writes now c t k :
  purged now (es_store t.1) -> is_clear_command c = false -> k ∉ writes c ->
  es_store (evaluate_transaction_command now c t).1.1 !! k = es_store t.1 !! k.
Proof.
  intros Hp Hc Hk. destruct c; try (by apply evaluate_frame).
  unfold evaluate_transaction_command. by rewrite eval_purge_purged.
Qed.

Lemma evaluate_commands_writes now cs k :
  Forall (fun c => is_clear_command c = false /\ k ∉ writes c) cs ->
  forall results t, 0 <= now < u64_max -> Forall command_typed cs -> purged now (es_store t.1) ->
  match evaluate_commands now cs results t with
  | (t', Ok _) => es_store t'.1 !! k = es_store t.1 !! k
  | _ => True
  end.
Proof.
  induction 1 as [|c cs [Hc Hk] _ IH]; intros results t Hnow Hty Hp; [done|].
  apply Forall_cons in Hty as [Hty1 Hty]. cbn. unfold mbind, fallible_bind.
  pose proof (evaluate_writes now c t k Hp Hc Hk) as He.
  destruct (evaluate_transaction_command now c t) as [t1 [r|]] eqn:E1; [|done]. cbn in He.
  apply evaluate_replays in E1; [|done..]. rewrite eval_purge_purged in E1 by done.
  destruct E1 as (_ & _ & _ & _ & _ & Hp1).
  specialize (IH (results ++ [r]) t1 Hnow Hty Hp1).
  destruct (evaluate_commands _ _ _ _) as [t2 []]; [|done]. congruence.
Qed.

(** ** Engines *)

Section engine.
Context {W : Type} `{WalWriter W} `{EntryChecksum}.

Lemma transaction_writes now entry_ms cs k (eng : Engine W) :
  0 <= now < u64_max -> Forall command_typed cs ->
  Forall (fun c => is_clear_command c = false /\ k ∉ writes c) cs ->
  same_at now k (en_state eng) (en_state (Transaction.execute_transaction now entry_ms cs eng).1).
Proof.
  intros Hnow Hty Hcs. destruct (Transaction.execute_transaction now entry_ms cs eng) as [eng' r] eqn:Ex.
  pose proof (execute_transaction_spec _ _ _ _ _ _ Hnow Hty Ex) as Hs. apply same_at_swept. cbn.
  destruct r as [results|]; [|by destruct Hs as [-> _]].
  destruct Hs as (working & ops & Hev & -> & _).
  pose proof (evaluate_commands_writes now cs k Hcs [] (purge_state now (en_state eng), []) Hnow Hty (purge_state_purges now (en_state eng))) as Hw.
  by rewrite Hev in Hw.
Qed.

Lemma batch_writes now cs k (eng : Engine W) :
  0 <= now < u64_max -> Forall command_typed cs -> (forall e, is_ok (checksum e) = true) ->
  is_u64 (md_last_applied_sequence (es_metadata (en_state eng))) ->
  is_u64 (md_last_applied_sequence (es_metadata (en_state eng)) + 1 + Z.of_nat (length cs)) ->
  Forall (fun c => is_clear_command c = false /\ k ∉ writes c) cs ->
  same_at now k (en_state eng) (en_state (Transaction.execute_command_batch now cs eng).1).
Proof.
  intros Hnow Hty Hsum H1 H2 Hcs. destruct (Transaction.execute_command_batch now cs eng) as [eng' r] eqn:Ex.
  pose proof (execute_command_batch_spec _ _ _ _ _ Hnow Hty Hsum H1 H2 Ex) as Hs. apply same_at_swept. cbn.
  destruct r as [results|].
  - destruct Hs as (entries & working & _ & _ & _ & _ & Hev & ->).
    pose proof (evaluate_commands_writes now cs k Hcs [] (purge_state now (en_state eng), []) Hnow Hty (purge_state_purges now (en_state eng))) as Hw.
    by rewrite Hev in Hw.
  - destruct Hs as [-> _]; [|done]. clear - Hcs. induction Hcs as [|c cs [Hc _] Hcs IH]; [done|]. cbn. rewrite Hc.
    destruct (mutates c); [|done]. clear - Hcs. apply forallb_forall. intros c Hc%list_elem_of_In.
    rewrite Forall_forall in Hcs. by destruct (Hcs c Hc) as [-> _].
Qed.

(** A command of the storage trait, where it is a transaction of one command. *)
Lemma storage_writes now entry_ms c k (eng : Engine W) :
  0 <= now < u64_max -> command_typed c -> one_path c = true -> is_clear_command c = false -> k ∉ writes c ->
  same_at now k (en_state eng) (en_state (storage_command now entry_ms c eng).1).
Proof.
  intros Hnow Hty Hone Hc Hk. rewrite (one_path_agrees _ _ _ eng Hone), <- single_transaction_run by done.
  pose proof (transaction_writes now entry_ms [c] k eng Hnow ltac:(by constructor) ltac:(by constructor)) as Hw.
  unfold single_transaction, mbind, fallible_bind.
  destruct (Transaction.execute_transaction _ _ _ _) as [eng' [[|r [|]]|]]; done.
Qed.

End engine.

Lemma same_at_later now now' k st st' : now <= now' -> same_at now k st st' -> same_at now' k st st'.
Proof. intros Hle Hs t Ht. apply Hs. lia. Qed.

Section disk.
Context `{Crc32} `{CryptoLib} `{Binary WalEntry} `{Binary Manifest} `{Binary StoredKeyring}
  `{SnapshotCodec} `{NonceSource} `{Base64} `{BackupJson} (uuid_to_string : list byte -> string).

(** ** Snapshots *)

(** Steps that keep the keyspace [s]. *)
Definition stores {A} (s : EngineStore) (m : fallible DiskEngine EngineError A) : Prop :=
  forall de, es_store (de_state de) = s -> es_store (de_state (m de).1) = s.

Lemma stores_bind {A B} s (m : fallible DiskEngine EngineError A) (f : A -> fallible DiskEngine EngineError B) :
  stores s m -> (forall a, stores s (f a)) -> stores s (m ≫= f).
Proof.
  intros Hm Hf de Hs. specialize (Hm de Hs). unfold mbind, fallible_bind.
  destruct (m de) as [de1 [a|e]]; [by apply Hf|done].
Qed.

Lemma stores_get {A} s (f : DiskEngine -> fallible DiskEngine EngineError A) :
  (forall de, es_store (de_state de) = s -> stores s (f de)) -> stores s (mget ≫= f).
Proof. intros Hf de Hs. by apply Hf. Qed.

Lemma stores_pure {A} s (r : result EngineError A) : stores s (mpure r).
Proof. by intros de. Qed.

Lemma stores_writer {A} s (m : fallible DiskWriter EngineError A) : stores s (on_writer m).
Proof. intros de Hs. unfold on_writer. by destruct (m _). Qed.

Lemma stores_disk {A} s (m : disk A) : stores s (on_disk m).
Proof. apply stores_writer. Qed.

Lemma stores_set_state s st : es_store st = s -> stores s (set_state st).
Proof. by intros <- de _. Qed.

Lemma stores_wal_entries s entries : stores s (set_wal_entries entries).
Proof.
  apply stores_bind; [by intros de|]. intros _. apply stores_bind; [apply stores_pure|]. by intros ids de.
Qed.

Lemma stores_rotate s id random now : stores s (rotate_keyring id random now).
Proof.
  intros de Hs. unfold rotate_keyring. destruct (de_keyring de); [|done].
  by destruct (rotate_if_due _ _ _ _) as [[? ?] ?].
Qed.

Lemma snapshot_store i de :
  es_store (de_state (snapshot i de).1) = es_store (purge_state (in_purge_ms i) (de_state de)).
Proof.
  unfold snapshot. unfold mbind at 1, fallible_bind at 1. unfold on_core at 1. rewrite purge_run.
  match goal with |- es_store (de_state (?m ?d).1) = ?s => enough (stores s m) as Hm by (by apply (Hm d)) end.
  apply stores_bind; [apply stores_rotate|intros _]. apply stores_get. intros d Hd.
  apply stores_bind; [apply stores_pure|intros bytes].
  apply stores_bind; [apply stores_disk|intros _].
  apply stores_bind; [apply stores_writer|intros _].
  apply stores_bind; [apply stores_disk|intros _].
  apply stores_bind; [apply stores_disk|intros _].
  apply stores_bind; [apply stores_writer|intros _].
  apply stores_bind; [apply stores_disk|intros _].
  apply stores_get. intros d2 Hd2.
  apply stores_bind; [apply stores_disk|intros _].
  apply stores_bind; [by apply stores_set_state|intros _].
  apply stores_bind; [apply stores_pure|intros rep].
  apply stores_bind; [apply stores_wal_entries|intros _]. by intros de3.
Qed.

(** ** Commands *)

Lemma bind_state {S E A B} (m : fallible S E A) (f : A -> fallible S E B) s :
  (forall a s, (f a s).1 = s) -> ((m ≫= f) s).1 = (m s).1.
Proof. intros Hf. unfold mbind, fallible_bind. destruct (m s) as [s1 [a|e]]; [apply Hf|done]. Qed.

Lemma core_state {A} (m : fallible (Engine DiskLog) EngineError A) de :
  de_state (core m de).1 = en_state (m (de_core de)).1.
Proof. unfold core, call, on_core. by destruct (m _). Qed.

Lemma live_entries_store now st :
  es_store (EngineState.live_entries st now).1 = live now (es_store st).
Proof.
  unfold EngineState.live_entries, EngineStore.live_entries_sorted.
  rewrite <- purge_expired_live. by destruct (EngineStore.purge_expired _ _).
Qed.

(** The commands that go to the engine one by one. *)
Lemma execute_command_writes i id c k de :
  0 <= ci_now_ms i < u64_max -> command_typed c -> is_batchable_engine_write c = false ->
  (forall dump, c <> CmdRestore dump) -> k ∉ writes c ->
  same_at (Z.max (ci_now_ms i) (in_purge_ms (ci_snapshot i))) k (de_state de)
    (de_state (execute_command uuid_to_string i id c de).1).
Proof.
  intros Hnow Hty Hb Hr Hk. set (now := ci_now_ms i) in *. set (later := Z.max _ _).
  assert (one_path c = true -> same_at later k (de_state de)
    (en_state (storage_command now (ci_entry_ms i) c (de_core de)).1)) as Hone.
  { intros Ho. apply (same_at_later now); [lia|]. apply storage_writes; [done..| |done]. by destruct c. }
  assert (forall st, es_store st = live now (es_store (de_state de)) -> same_at later k (de_state de) st) as Hread.
  { intros st Hst. apply (same_at_later now); [lia|]. apply same_at_swept. by rewrite purge_state_store, Hst. }
  destruct c; try discriminate Hb; try apply same_at_refl;
    try (specialize (Hone eq_refl); cbn [storage_command] in Hone; rewrite bind_state in Hone by done;
         unfold execute_command; rewrite bind_state, core_state by done; exact Hone).
  - (* SCAN *)
    unfold execute_command. rewrite bind_state, core_state by done. apply Hread. by rewrite scan_run.
  - (* INFO *)
    unfold execute_command. rewrite bind_state by done. apply Hread.
    unfold call, info. cbn. rewrite purge_run. cbn. apply purge_state_store.
  - (* LIST *)
    unfold execute_command. rewrite bind_state, core_state by done. apply Hread.
    unfold Engine.list. rewrite read_state_run. cbn. apply live_entries_store.
  - (* SAVE *)
    unfold execute_command. rewrite bind_state by done. apply (same_at_later (in_purge_ms (ci_snapshot i))); [lia|].
    apply same_at_swept. unfold call. pose proof (snapshot_store (ci_snapshot i) de) as Hs.
    destruct (snapshot (ci_snapshot i) de). cbn in *. by rewrite Hs.
  - (* BACKUP *)
    unfold execute_command. rewrite bind_state, core_state by done. apply Hread.
    unfold logical_backup, mbind, fallible_bind. rewrite purge_run. cbn. apply purge_state_store.
  - (* RESTORE *) by destruct (Hr dump).
  - (* SNAPSHOT *)
    unfold execute_command. rewrite bind_state by done. apply (same_at_later (in_purge_ms (ci_snapshot i))); [lia|].
    apply same_at_swept. unfold call. pose proof (snapshot_store (ci_snapshot i) de) as Hs.
    destruct (snapshot (ci_snapshot i) de). cbn in *. by rewrite Hs.
Qed.

Lemma run_write_batch_writes now term id c k de :
  0 <= now < u64_max -> command_typed c -> (forall e : WalEntry, is_ok (binary_encode e) = true) ->
  0 <= md_last_applied_sequence (es_metadata (de_state de)) <= u64_max - 2 ->
  is_clear_command c = false -> k ∉ writes c ->
  same_at now k (de_state de) (de_state (run_write_batch now term [(id, c)] de).1).
Proof.
  intros Hnow Hty Henc Hseq Hc Hk. unfold run_write_batch, set_consensus_term. cbn [fmap list_fmap snd].
  set (de1 := (core (Engine.set_consensus_term term) de).1).
  assert (de_state de1 = de_state de) as Hst by (unfold de1; by rewrite core_state).
  unfold mbind at 1, fallible_bind at 1.
  change (core (Engine.set_consensus_term term) de) with (de1, @Ok ServerError unit tt). cbn -[core].
  pose proof (batch_writes now [c] k (de_core de1) Hnow) as Hw.
  pose proof (core_state (Transaction.execute_command_batch now [c]) de1) as Hcs.
  destruct (core _ de1) as [de2 r] eqn:Er. cbn in Hcs.
  assert (same_at now k (de_state de1) (de_state de2)) as Hs.
  { rewrite Hcs. unfold de_state in *. apply Hw; [by constructor|intros e; by apply checksum_total|..|by constructor];
      rewrite Hst; cbn; width_lia. }
  rewrite Hst in Hs. by destruct r.
Qed.

End disk.

(** ** Authorization *)

(** What a user would need to change the entry of [k]. *)
Definition may_change (user : Identity) (k : string) : bool :=
  Identity.allows_key user PermWrite k || Identity.has user PermClear || Identity.has user PermRestore.

Lemma authorized_writes session user c k :
  se_identity session = Some user -> may_change user k = false -> authorize_command c session = Ok tt ->
  is_clear_command c = false /\ (forall dump, c <> CmdRestore dump) /\ k ∉ writes c.
Proof.
  intros Hu Hm Ha. unfold may_change in Hm. rewrite !orb_false_iff in Hm. destruct Hm as [[Hw Hcl] Hre].
  assert (forall keys, forallb (Identity.allows_key user PermWrite) keys = true -> k ∉ keys) as Hkeys.
  { intros keys Hf Hin. rewrite forallb_forall in Hf. rewrite (Hf k) in Hw; [done|by apply list_elem_of_In]. }
  unfold authorize_command in Ha. rewrite Hu in Ha.
  destruct c; cbn in Ha |- *; rewrite ?Hcl, ?Hre in Ha; try discriminate Ha;
    (split; [done|]; split; [done|]); try (by apply not_elem_of_nil);
    try (by apply Hkeys; cbn; destruct (_ && _)).
  - destruct entries as [|entry entries]; [by apply not_elem_of_nil|].
    apply Hkeys. cbn in *. by destruct (_ && _).
  - destruct keys as [|key keys]; [by apply not_elem_of_nil|]. apply Hkeys. cbn in *. by destruct (_ && _).
Qed.

(** * Sessions *)

Import ReplicationRuntime.

Section nodes.
Context `{Crc32} `{CryptoLib} `{Binary WalEntry} `{Binary Manifest} `{Binary StoredKeyring}
  `{SnapshotCodec} `{NonceSource} `{ReplicationJson}.

Notation N := (fallible (Node DiskEngine) ServerError).

(** ** Steps of a node that leave its engine and its role alone *)

Definition standalone (node : Node DiskEngine) : Prop := role (nd_runtime node) = RoleStandalone.

Definition calm {A} (m : N A) : Prop :=
  forall node, standalone node -> standalone (m node).1 /\ nd_engine (m node).1 = nd_engine node.

Lemma calm_bind {A B} (m : N A) (f : A -> N B) : calm m -> (forall a, calm (f a)) -> calm (m ≫= f).
Proof.
  intros Hm Hf node Hs. destruct (Hm node Hs) as [Hs1 He1]. unfold mbind, fallible_bind.
  destruct (m node) as [node1 [a|e]]; [|done]. cbn in *. destruct (Hf a node1 Hs1) as [Hs2 He2].
  split; [done|congruence].
Qed.

Lemma calm_get {A} (f : Node DiskEngine -> N A) :
  (forall node, standalone node -> calm (f node)) -> calm (mget ≫= f).
Proof. intros Hf node Hs. by apply Hf. Qed.

Lemma calm_pure {A} (r : result ServerError A) : calm (mpure r).
Proof. by intros node. Qed.

Lemma calm_ret {A} (a : A) : calm (mret a).
Proof. by intros node. Qed.

Lemma calm_index {A} (m : fallible ReadIndexState ServerError A) : calm (on_index m).
Proof. intros node Hs. unfold on_index. by destruct (m _). Qed.

Lemma calm_runtime {A} (m : fallible ReplicationRuntime ServerError A) :
  (forall rt, role rt = RoleStandalone -> role (m rt).1 = RoleStandalone) -> calm (on_runtime m).
Proof.
  intros Hm node Hs. unfold on_runtime. specialize (Hm (nd_runtime node) Hs).
  by destruct (m (nd_runtime node)) as [rt r].
Qed.

Lemma calm_advance_loop fuel target : calm (advance_loop fuel target).
Proof.
  induction fuel as [|fuel IH]; cbn; apply calm_get; intros node _; case_match; try apply calm_ret.
  apply calm_bind; [apply calm_pure|]. intros [|entry entries]; [apply calm_ret|].
  apply calm_bind; [apply calm_index|done].
Qed.

Lemma calm_advance target : calm (advance_read_index_to target).
Proof. apply calm_get. intros node _. apply calm_advance_loop. Qed.

Lemma published_standalone s t c rt :
  role rt = RoleStandalone ->
  role (set_local_last_applied_state s t c rt) = RoleStandalone /\
  commit_sequence (set_local_last_applied_state s t c rt) = s.
Proof.
  destruct rt as [config [] file]. unfold set_local_last_applied_state, update, role, commit_sequence.
  cbn. by intros ->.
Qed.

Lemma drive_committed env wakeups rounds sequence (node : Node DiskEngine) :
  commit_sequence (nd_runtime node) = sequence ->
  drive_write_commit env wakeups rounds sequence node = (node, Ok tt).
Proof.
  intros Hc. unfold drive_write_commit. run_fallible. case_bool_decide; [done|].
  destruct rounds; cbn [drive_loop]; run_fallible; by rewrite Hc, Z.leb_refl.
Qed.

(** On a standalone node a position is committed when it is published. *)
Lemma calm_publish_and_commit i fan_out position : calm (publish_and_commit i fan_out position).
Proof.
  intros node Hs. unfold publish_and_commit, with_runtime, on_runtime. run_fallible. cbn [fst snd].
  set (rt := set_local_last_applied_state _ _ _ _).
  assert (role rt = RoleStandalone /\ commit_sequence rt = la_last_applied_sequence position) as [Hr Hc]
    by (by apply published_standalone).
  clearbody rt. cbn -[commit_write]. rewrite Hr, (bool_decide_eq_false_2 (RoleStandalone = RoleLeader)) by done.
  rewrite andb_false_r. unfold commit_write, attempt. run_fallible. rewrite drive_committed by done.
  by apply (calm_advance _ (mkNode _ rt _)).
Qed.

End nodes.

Section server.
Context `{Crc32} `{CryptoLib} `{Binary WalEntry} `{Binary Manifest} `{Binary StoredKeyring}
  `{SnapshotCodec} `{NonceSource} `{Base64} `{BackupJson} `{ReplicationJson} `{PasswordHash} `{AuthJson}
  `{Sha256} `{DumpJson} (uuid_to_string : list byte -> string) (config : ServerConfig).
Context (user : Identity) (k : string) (T : Z).

Notation M := (fallible Server ServerError).

(** ** The session and its queue *)

(** A command that does not touch [k]. *)
Definition harmless (c : Command) : Prop :=
  command_typed c /\ is_clear_command c = false /\ (forall dump, c <> CmdRestore dump) /\ k ∉ writes c.

Record guarded (server : Server) : Prop := mkGuarded {
  gu_auth : is_some (sv_auth server) = true;
  gu_user : se_identity (sv_session server) = Some user;
  gu_role : standalone (sv_node server);
  gu_queue : Forall harmless (se_transaction_queue (sv_session server));
}.

Definition server_state (server : Server) : EngineState := de_state (nd_engine (sv_node server)).

(** Two more entries can be numbered. *)
Definition numbered (server : Server) : Prop :=
  0 <= md_last_applied_sequence (es_metadata (server_state server)) <= u64_max - 2.

(** ** Steps that do not touch the engine *)

Definition quiet {A} (m : M A) : Prop :=
  forall server, guarded server ->
  guarded (m server).1 /\ nd_engine (sv_node (m server).1) = nd_engine (sv_node server).

(** Steps that touch it once. *)
Definition confined {A} (m : M A) : Prop :=
  forall server, guarded server -> numbered server ->
  guarded (m server).1 /\ same_at T k (server_state server) (server_state (m server).1).

Lemma quiet_confined {A} (m : M A) : quiet m -> confined m.
Proof.
  intros Hm server Hg _. destruct (Hm server Hg) as [Hg' He]. split; [done|].
  unfold server_state. rewrite He. apply same_at_refl.
Qed.

Lemma quiet_bind {A B} (m : M A) (f : A -> M B) : quiet m -> (forall a, quiet (f a)) -> quiet (m ≫= f).
Proof.
  intros Hm Hf server Hg. destruct (Hm server Hg) as [Hg1 He1]. unfold mbind, fallible_bind.
  destruct (m server) as [server1 [a|e]]; [|done]. cbn in *. destruct (Hf a server1 Hg1) as [Hg2 He2].
  split; [done|congruence].
Qed.

(** The engine is touched after [m]. *)
Lemma confined_after {A B} (m : M A) (f : A -> M B) : quiet m -> (forall a, confined (f a)) -> confined (m ≫= f).
Proof.
  intros Hm Hf server Hg Hn. destruct (Hm server Hg) as [Hg1 He1]. unfold mbind, fallible_bind.
  unfold numbered, server_state in *.
  destruct (m server) as [server1 [a|e]]; cbn in *; rewrite <- He1 in *; [by apply Hf|].
  split; [done|apply same_at_refl].
Qed.

(** The engine is touched by [m]. *)
Lemma confined_before {A B} (m : M A) (f : A -> M B) : confined m -> (forall a, quiet (f a)) -> confined (m ≫= f).
Proof.
  intros Hm Hf server Hg Hn. destruct (Hm server Hg Hn) as [Hg1 Hs1]. unfold mbind, fallible_bind.
  destruct (m server) as [server1 [a|e]]; [|done]. cbn in *. destruct (Hf a server1 Hg1) as [Hg2 He2].
  split; [done|]. unfold server_state at 2. by rewrite He2.
Qed.

Lemma quiet_get {A} (f : Server -> M A) : (forall server, guarded server -> quiet (f server)) -> quiet (mget ≫= f).
Proof. intros Hf server Hg. by apply Hf. Qed.

Lemma confined_get {A} (f : Server -> M A) :
  (forall server, guarded server -> confined (f server)) -> confined (mget ≫= f).
Proof. intros Hf server Hg. by apply Hf. Qed.

Lemma quiet_pure {A} (r : result ServerError A) : quiet (mpure r).
Proof. by intros server. Qed.

Lemma quiet_ret {A} (a : A) : quiet (mret a).
Proof. by intros server. Qed.

(** What is checked on the way is known behind it. *)
Lemma confined_check {B} (r : result ServerError unit) (f : unit -> M B) :
  (r = Ok tt -> confined (f tt)) -> confined (mpure r ≫= f).
Proof. intros Hf server Hg Hn. destruct r as [[]|e]; [by apply Hf|]. split; [done|apply same_at_refl]. Qed.

Lemma quiet_node {A} (m : fallible (Node DiskEngine) ServerError A) : calm m -> quiet (on_node m).
Proof.
  intros Hm [node auth mode lockouts files session] [Ha Hu Hr Hq]. unfold on_node. cbn in *.
  destruct (Hm node Hr) as [Hr1 He1]. destruct (m node) as [node1 r]. by split.
Qed.

Lemma quiet_auth {A} (m : fallible AuthStore ServerError A) : quiet (on_auth m).
Proof.
  intros [node [store|] mode lockouts files session] [Ha Hu Hr Hq]; [|done]. unfold on_auth. cbn in *.
  destruct (m store). by split.
Qed.

Lemma quiet_maintenance {A} (m : fallible MaintenanceMode ServerError A) : quiet (on_maintenance m).
Proof.
  intros [node auth mode lockouts files session] [Ha Hu Hr Hq]. unfold on_maintenance. cbn. destruct (m mode). by split.
Qed.

Lemma quiet_files {A} (m : fallible Files ServerError A) : quiet (on_files m).
Proof.
  intros [node auth mode lockouts files session] [Ha Hu Hr Hq]. unfold on_files. cbn. destruct (m files). by split.
Qed.

Lemma quiet_lockouts f : quiet (on_lockouts f).
Proof. intros [node auth mode lockouts files session] [Ha Hu Hr Hq]. by split. Qed.

Lemma quiet_put_session session :
  se_identity session = Some user -> Forall harmless (se_transaction_queue session) -> quiet (put_session session).
Proof. intros Hi Hs [node auth mode lockouts files old] [Ha Hu Hr Hq]. by split. Qed.

Lemma quiet_clear : quiet clear_transaction.
Proof.
  intros [node auth mode lockouts files [id queue started]] [Ha Hu Hr Hq]. by repeat split.
Qed.

Lemma quiet_expire now : quiet (expire_transaction_if_needed config now).
Proof.
  apply quiet_get. intros server _. case_match; [|apply quiet_ret]. case_match; [apply quiet_ret|].
  apply quiet_bind; [apply quiet_clear|]. intros _. apply quiet_pure.
Qed.

(** ** Steps that touch the engine *)

Lemma confined_worker {A} (m : fallible DiskEngine ServerError A) :
  (forall de, 0 <= md_last_applied_sequence (es_metadata (de_state de)) <= u64_max - 2 ->
   same_at T k (de_state de) (de_state (m de).1)) -> confined (on_node (on_worker m)).
Proof.
  intros Hm [[de rt index] auth mode lockouts files session] [Ha Hu Hr Hq] Hn. unfold on_node, on_worker, server_state. cbn in *.
  specialize (Hm de Hn). destruct (m de) as [de1 r]. by split.
Qed.

Record timely (i : Inputs) : Prop := mkTimely {
  tm_clock : 0 <= ci_now_ms (in_command i) < u64_max;
  tm_now : ci_now_ms (in_command i) <= T;
  tm_purge : in_purge_ms (ci_snapshot (in_command i)) <= T;
}.

Context (Henc : forall e : WalEntry, is_ok (binary_encode e) = true).

Lemma confined_execute i request_id term c :
  timely i -> harmless c -> confined (execute uuid_to_string i request_id term c).
Proof.
  intros [Hc Hn Hp] (Hty & Hcl & Hre & Hk). apply confined_worker. intros de Hseq.
  destruct (is_batchable_engine_write c) eqn:Hb.
  - apply (same_at_later (ci_now_ms (in_command i))); [done|].
    pose proof (run_write_batch_writes (ci_now_ms (in_command i)) term request_id c k de Hc Hty Henc Hseq Hcl Hk) as Hw.
    by destruct (run_write_batch _ _ _ _) as [de' [|]].
  - apply (same_at_later (Z.max (ci_now_ms (in_command i)) (in_purge_ms (ci_snapshot (in_command i))))); [lia|].
    unfold process_single_execute, set_consensus_term.
    set (de1 := (core (Engine.set_consensus_term term) de).1).
    assert (de_state de1 = de_state de) as Hst by (unfold de1; by rewrite core_state).
    unfold mbind at 1, fallible_bind at 1.
    change (core (Engine.set_consensus_term term) de) with (de1, @Ok ServerError unit tt). cbv beta iota.
    rewrite bind_state by done. rewrite <- Hst. by apply execute_command_writes.
Qed.

Lemma confined_batch i term cs :
  timely i -> Forall harmless cs ->
  confined (on_node (on_worker (execute_batch (ci_now_ms (in_command i)) (ci_entry_ms (in_command i)) term cs))).
Proof.
  intros [Hc Hn Hp] Hcs. apply confined_worker. intros de Hseq.
  apply (same_at_later (ci_now_ms (in_command i))); [done|].
  unfold execute_batch, set_consensus_term. unfold mbind at 1, fallible_bind at 1.
  set (de1 := (core (Engine.set_consensus_term term) de).1).
  assert (de_state de1 = de_state de) as Hst by (unfold de1; by rewrite core_state).
  change (core (Engine.set_consensus_term term) de) with (de1, @Ok ServerError unit tt). cbv beta iota.
  rewrite core_state, <- Hst. apply transaction_writes; [done|..];
    eapply Forall_impl; try done; unfold harmless; naive_solver.
Qed.

Lemma confined_validate i dump : confined (validate_backup i dump).
Proof.
  apply confined_worker. intros de _. rewrite core_state. unfold validate_logical_backup.
  rewrite bind_state by done. apply same_at_refl.
Qed.

Lemma confined_info i : timely i -> confined (structured_info uuid_to_string config i).
Proof.
  intros [Hc Hn Hp]. unfold structured_info. apply confined_before.
  - apply confined_worker. intros de _. apply (same_at_later (ci_now_ms (in_command i))); [done|].
    apply same_at_swept. unfold call, info. cbn. by rewrite purge_run.
  - intros entries. apply quiet_get. intros server _. destruct (AuthLockoutState.active_lockout_count _ _).
    apply quiet_bind; [apply quiet_lockouts|]. intros _. apply quiet_ret.
Qed.

(** ** Commands *)

Hypothesis Hkept : may_change user k = false.

Lemma authorized_harmless c session :
  se_identity session = Some user -> command_typed c -> authorize_command c session = Ok tt -> harmless c.
Proof. intros Hu Hty Ha. split; [done|]. by eapply authorized_writes. Qed.

Lemma quiet_publish i fan_out position : quiet (on_node (publish_and_commit (in_write i) fan_out position)).
Proof. apply quiet_node, calm_publish_and_commit. Qed.

Lemma quiet_add_member env member : quiet (on_node (on_runtime (add_member env member))).
Proof.
  apply quiet_node, calm_runtime. intros [c [] f]. unfold add_member, persist_state, modify, role. run_fallible.
  cbn. intros ->. destruct (map_err _ _); [|done]. by destruct (ev_io env 0) as [|[] ?].
Qed.

Lemma quiet_remove_member env id : quiet (on_node (on_runtime (remove_member env id))).
Proof.
  apply quiet_node, calm_runtime. intros [c [] f]. unfold remove_member, persist_state, modify, role. run_fallible.
  cbn. intros ->. destruct (map_err _ _); [|done]. by destruct (ev_io env 0) as [|[] ?].
Qed.

Lemma quiet_promote env maintenance : quiet (on_node (on_runtime (promote_follower env maintenance))).
Proof.
  apply quiet_node, calm_runtime. intros rt Hr. unfold promote_follower. destruct maintenance; [|done].
  run_fallible. cbn. by rewrite Hr.
Qed.

Lemma quiet_set_paused paused : quiet (on_node (with_runtime (set_paused paused))).
Proof.
  apply quiet_node, calm_runtime. intros [c [] f]. unfold set_paused, update, role. cbn. by intros ->.
Qed.

Lemma restore_from_refused path session :
  se_identity session = Some user -> authorize_command (CmdRestoreFrom path) session <> Ok tt.
Proof.
  intros Hu Ha. unfold may_change in Hkept. rewrite !orb_false_iff in Hkept. destruct Hkept as [_ Hre].
  unfold authorize_command in Ha. rewrite Hu in Ha. cbn in Ha. by rewrite Hre in Ha.
Qed.

Ltac quiet_step :=
  lazymatch goal with
  | |- quiet (mpure _) => apply quiet_pure
  | |- quiet (mfail _) => apply quiet_pure
  | |- quiet (reply _) => apply quiet_pure
  | |- quiet (mret _) => apply quiet_ret
  | |- quiet (on_auth _) => apply quiet_auth
  | |- quiet (on_maintenance _) => apply quiet_maintenance
  | |- quiet (on_files _) => apply quiet_files
  | |- quiet (resolve _ _ _ _) => apply quiet_files
  | |- quiet (read_backup _ _) => apply quiet_files
  | |- quiet clear_transaction => apply quiet_clear
  | |- quiet (on_lockouts _) => apply quiet_lockouts
  | |- quiet (on_node (publish_and_commit _ _ _)) => apply quiet_publish
  | |- quiet (on_node (on_runtime (add_member _ _))) => apply quiet_add_member
  | |- quiet (on_node (on_runtime (remove_member _ _))) => apply quiet_remove_member
  | |- quiet (on_node (on_runtime (promote_follower _ _))) => apply quiet_promote
  | |- quiet (on_node (with_runtime (set_paused _))) => apply quiet_set_paused
  | |- quiet (mbind _ mget) => apply quiet_get; intros ??
  | |- quiet (mbind _ _) => apply quiet_bind; [|intros ?]
  | |- quiet (match _ with _ => _ end) => case_match
  end.
Ltac quiet_steps := repeat quiet_step.

Lemma confined_exec i request_id : timely i -> confined (exec i request_id).
Proof.
  intros Hi. apply confined_get. intros server [_ _ _ Hq]. apply confined_after; [apply quiet_pure|intros _].
  apply confined_after; [apply quiet_clear|intros _]. apply confined_after; [apply quiet_pure|intros _].
  apply confined_before; [|intros; quiet_steps]. apply confined_batch; [done|].
  unfold without_multi. destruct (se_transaction_queue _) as [|[] queue]; try done. by inversion Hq.
Qed.

Lemma confined_transaction i request_id c :
  timely i -> command_typed c -> confined (handle_transaction_command config i request_id c).
Proof.
  intros Hi Hty. apply confined_after; [apply quiet_expire|intros _]. apply confined_get. intros server Hg.
  destruct (negb _); [apply quiet_confined, quiet_pure|].
  assert (forall c, command_typed c -> confined
    (if sg_max_transaction_queue_len (sc_guards config) <=? Z.of_nat (length (se_transaction_queue (sv_session server)))
     then mfail SrvQuotaExceeded
     else
       _ ← mpure (validate_command (sc_guards config) c);
       _ ← mpure (validate_transaction_command c);
       _ ← mpure (if is_some (sv_auth server) then authorize_command c (sv_session server) else Ok tt);
       _ ← put_session ((sv_session server) {{ se_transaction_queue ::= fun queue => queue ++ [c] }});
       reply (Response.value request_id "QUEUED"))) as Hqueue.
  { clear c Hty. intros c Hty. case_match; [apply quiet_confined, quiet_pure|].
    apply confined_after; [apply quiet_pure|intros _]. apply confined_after; [apply quiet_pure|intros _].
    destruct Hg as [Ha Hu Hr Hq]. rewrite Ha. apply confined_check. intros Hau.
    apply quiet_confined, quiet_bind; [|intros; quiet_steps].
    pose proof (authorized_harmless c _ Hu Hty Hau) as Hc.
    destruct (sv_session server) as [id queue started]. apply quiet_put_session; [done|]. cbn.
    apply Forall_app. split; [done|by constructor]. }
  destruct c; try (by apply Hqueue); try (by apply confined_exec); apply quiet_confined; quiet_steps.
Qed.

Lemma confined_command_path i request_id c :
  timely i -> harmless c -> confined (command_path uuid_to_string config i request_id c).
Proof.
  intros Hi Hc. apply confined_get. intros server Hg. pose proof (gu_role _ Hg) as Hr.
  destruct (negb _).
  - case_match; [apply quiet_confined, quiet_pure|]. apply confined_before; [by apply confined_execute|].
    intros; quiet_steps.
  - unfold runtime. rewrite bool_decide_eq_true_2 by done. apply confined_before; [by apply confined_execute|].
    intros; quiet_steps.
Qed.

Lemma confined_verify i dump : confined (Dispatch.verify_backup_dump i dump).
Proof.
  apply confined_after; [apply quiet_pure|intros manifest]. apply confined_before; [apply confined_validate|].
  intros; quiet_steps.
Qed.

Lemma confined_backup_to i request_id path :
  timely i -> confined (backup_to uuid_to_string config i request_id path).
Proof.
  intros Hi. apply confined_before; [|intros; quiet_steps]. apply confined_execute; [done|].
  split; [done|]. split; [done|]. split; [done|]. apply not_elem_of_nil.
Qed.

Lemma confined_dispatch i request_id c :
  timely i -> harmless c -> (forall path, c <> CmdRestoreFrom path) ->
  confined (dispatch_command uuid_to_string config i request_id c).
Proof.
  intros Hi Hc Hrf. apply confined_get. intros server [Ha Hu Hr Hq].
  destruct c; unfold backup_command, users_command; cbv beta iota zeta;
    try lazymatch goal with
      | |- confined (command_path _ _ _ _ _) => by apply confined_command_path
      | |- _ => apply quiet_confined; solve [quiet_steps]
      end.
  - (* INFO *) apply confined_before; [by apply confined_info|]. intros; quiet_steps.
  - (* BACKUP TO *) by apply confined_backup_to.
  - (* BACKUP VERIFY *) apply confined_before; [apply confined_verify|]. intros; quiet_steps.
  - do 3 (apply confined_after; [apply quiet_files|intros ?]). apply confined_after; [apply quiet_pure|intros _].
    apply confined_before; [apply confined_verify|]. intros; quiet_steps.
  - (* RESTORE FROM *) by destruct (Hrf path).
  - (* RESTORE CHECK *) apply confined_before; [apply confined_validate|]. intros; quiet_steps.
  - do 2 (apply confined_after; [apply quiet_files|intros ?]).
    apply confined_before; [apply confined_validate|]. intros; quiet_steps.
  - (* MULTI *)
    apply quiet_confined, quiet_bind; [|intros; apply quiet_ret].
    destruct (sv_session server) as [id queue started]. apply quiet_put_session; [done|].
    apply Forall_app. split; [done|by constructor].
Qed.

Lemma confined_process i peer_addr request_id c :
  timely i -> command_typed c -> (forall name password, c <> CmdAuth name password) ->
  confined (process_command uuid_to_string config i peer_addr request_id c).
Proof.
  intros Hi Hty Hc.
  assert (confined (
    server ← mget;
    if is_some (sv_auth server) && negb (is_authenticated (sv_session server)) &&
       negb (match c with CmdPing _ => true | _ => false end)
    then mfail SrvAuthenticationRequired
    else
      _ ← expire_transaction_if_needed config (in_clock i 0);
      if mm_enabled (sv_maintenance server) && negb (is_allowed_during_maintenance c)
      then mfail SrvMaintenanceModeEnabled
      else
        _ ← mpure (enforce_leader_writeability (runtime server) c);
        server ← mget;
        if in_transaction (sv_session server) then handle_transaction_command config i request_id c
        else
          _ ← mpure (if is_some (sv_auth server) then authorize_command c (sv_session server) else Ok tt);
          dispatch_command uuid_to_string config i request_id c)) as Hm;
    [|destruct c; try exact Hm; exfalso; by eapply Hc].
  apply confined_get. intros server _. destruct (is_some _ && _ && _); [apply quiet_confined, quiet_pure|].
  apply confined_after; [apply quiet_expire|intros _]. destruct (_ && _); [apply quiet_confined, quiet_pure|].
  apply confined_after; [apply quiet_pure|intros _]. apply confined_get. intros server' [Ha Hu Hr Hq].
  destruct (in_transaction _); [by apply confined_transaction|]. rewrite Ha. apply confined_check. intros Hau.
  apply confined_dispatch; [done|by eapply authorized_harmless|]. intros path ->.
  by apply (restore_from_refused path) in Hau.
Qed.

(** ** Sessions *)

(** What a session does after its login: any commands but another one, as long as
    entries can be numbered. *)
Inductive session_run (server : Server) : Server -> Prop :=
| SessionStart : session_run server server
| SessionCommand server' i peer_addr request_id c :
    session_run server server' -> timely i -> command_typed c ->
    (forall name password, c <> CmdAuth name password) -> numbered server' ->
    session_run server (process_command uuid_to_string config i peer_addr request_id c server').1.

Lemma session_confined server server' :
  guarded server -> session_run server server' ->
  guarded server' /\ same_at T k (server_state server) (server_state server').
Proof.
  intros Hg. induction 1 as [|server' i peer_addr request_id c _ [Hg' Hs] Hi Hty Hc Hn]; [split; [done|apply same_at_refl]|].
  destruct (confined_process i peer_addr request_id c Hi Hty Hc server' Hg' Hn) as [Hg2 Hs2].
  split; [done|]. by eapply same_at_trans.
Qed.

End server.
