(* ===== verification/AccessTheorems.v ===== *)
(** * AccessTheorems: users, permissions and commands

    What users of a server can do and what they cannot: a store of users keeps an
    administrator, a session changes and sees the keys its user has grants for,
    failed logins lock an account, and requests above a rate are refused. *)

From S2P Require Import Prelude Text Command EngineError Store State Wildcard Crypto Wal WalFacts.
From S2P Require Import WalLayout Opcode Wire Request Response ServerError ReadIndex Consensus.
From S2P Require Import Auth AuthFacts Access Status BackupFiles Engine AccessFacts Transaction.
From S2P Require Import TxFacts BatchFacts StorageFacts Backup Replication DiskLog Storage.
From S2P Require Import DiskEngine EngineWorker Node WritePath Recovery DiskHandle Dispatch.
From S2P Require Import Confinement Samples Elections NodeRuns ReplicaDisk Runs AccessRuns.
Import ReplicationRuntime.

(** ** Users *)

(** C15: A store of users never locks everybody out.  Whatever operations clients send,
    whichever of them fail, whatever saves are lost, and over restarts from the file
    with the same or another configured administrator, somebody can log in and has
    every permission on every key and pattern. *)
Theorem admin_kept `{Crc32} `{CryptoLib} `{PasswordHash} `{AuthJson} keyring store :
  length (sk_id (kr_active keyring)) = 16%nat -> auth_history keyring store ->
  exists username password user,
    AuthStore.verify store username password = Ok (Some user) /\
    forall permission key pattern,
      Identity.has user permission = true /\ Identity.allows_key user permission key = true /\
      Identity.allows_pattern user permission pattern = true.
Proof.
  intros Hid Hh. destruct (kp_stored _ _ (history_keeps _ _ Hid Hh)) as [([username record] & Hu & Ha) (role & Hr & Hok) Hp].
  destruct (Hp _ _ Hu) as (salt & password & Hhash). cbn in *. apply andb_prop in Ha as [Hd%negb_true_iff Hadm]. cbn in Hd, Hadm.
  exists username, password. unfold AuthStore.verify, password_matches. rewrite Hu, Hd, (ph_verify_hash _ _ _ Hhash). cbn.
  destruct (AuthStore.resolve_permissions (as_stored store) record) as [permissions grants] eqn:E.
  eexists. split; [done|]. intros permission key pattern.
  assert (PermAdmin ∈ permissions) as Hin.
  { pose proof (proj1 (resolve_permissions_spec (as_stored store) record) PermAdmin) as Hs. rewrite E in Hs.
    apply Hs. exists ADMIN_ROLE. split; [by apply bool_decide_eq_true in Hadm|]. by exists role. }
  unfold Identity.has, Identity.allows_key, Identity.allows_pattern. cbn.
  by rewrite bool_decide_eq_true_2.
Qed.

Definition sample_keyring : StorageKeyring :=
  mkStorageKeyring (mkStorageKey (replicate 16 x01) "secret" 0) [].
Definition start (username password : string) (file : option (list byte))
    : option (list byte) * result ServerError AuthStore :=
  load_or_bootstrap auth_inputs sample_keyring username password None file.
Definition started (username password : string) (file : option (list byte)) : AuthStore :=
  ignore first_store (start username password file).2.

(** The only administrator cannot be dropped; after a restart with another one
    configured, the first is gone. *)
Definition kept_store : AuthStore :=
  (AuthStore.drop_user auth_inputs "root" (started "root" "root-secret-1" None)).1.
Definition restarted_store : AuthStore := started "admin" "admin-secret-1" (as_file kept_store).

Lemma start_ok username password file :
  is_ok (start username password file).2 = true ->
  exists file', start username password file = (file', Ok (started username password file)).
Proof. unfold started. destruct (start username password file) as [file' [store|]]; [by exists file'|done]. Qed.

Lemma admin_kept_witness :
  (AuthStore.drop_user auth_inputs "root" (started "root" "root-secret-1" None)).2 = Err SrvLastAdminUser /\
  sa_users (as_stored restarted_store) !! "root"%string = None /\
  exists username password user,
    AuthStore.verify restarted_store username password = Ok (Some user) /\
    forall permission key pattern,
      Identity.has user permission = true /\ Identity.allows_key user permission key = true /\
      Identity.allows_pattern user permission pattern = true.
Proof.
  split; [vm_compute; reflexivity|]. split; [vm_compute; reflexivity|].
  apply (admin_kept sample_keyring); [reflexivity|].
  destruct (start_ok "root" "root-secret-1" None) as [file Hs]; [vm_compute; reflexivity|].
  assert (is_ok (start "admin" "admin-secret-1" (as_file kept_store)).2 = true) as Hok by (vm_compute; reflexivity).
  destruct (start_ok _ _ _ Hok) as [file' Hr].
  assert (match as_file kept_store with Some bytes => Z.of_nat (length bytes) <=? u32_max | None => false end = true) as Hlen
    by (vm_compute; reflexivity).
  destruct (as_file kept_store) as [bytes|] eqn:Ef; [|discriminate Hlen].
  unfold restarted_store. rewrite Ef. eapply (AuthRestart _ kept_store auth_inputs); [|exact Ef|lia|reflexivity|exact Hr].
  apply AuthOperation; [|by constructor]. by eapply (AuthFirstStart _ auth_inputs).
Defined.

(** ** Confinement *)

(** C4: A session changes what its user has grants for, and nothing else.  On a
    standalone server with users, a session logged in as [user] sends any commands
    but another login: data commands, transactions, backups, changes of users, of
    the cluster and of maintenance mode, any of which may fail.  A key that no write
    grant of [user] covers, where the user may neither clear nor restore the
    database, reads the same afterwards. *)
Theorem writes_confined `{Crc32} `{CryptoLib} `{Binary WalEntry} `{Binary Manifest} `{Binary StoredKeyring}
    `{SnapshotCodec} `{NonceSource} `{Base64} `{BackupJson} `{ReplicationJson} `{PasswordHash} `{AuthJson}
    `{Sha256} `{DumpJson} (uuid_to_string : list byte -> string) config user key now server server' :
  (forall e : WalEntry, is_ok (binary_encode e) = true) ->
  is_some (sv_auth server) = true -> se_identity (sv_session server) = Some user ->
  se_transaction_queue (sv_session server) = [] -> role (runtime server) = RoleStandalone ->
  Identity.allows_key user PermWrite key = false ->
  Identity.has user PermClear = false -> Identity.has user PermRestore = false ->
  session_run uuid_to_string config now server server' ->
  forall t, now <= t ->
  live t (es_store (server_state server')) !! key = live t (es_store (server_state server)) !! key.
Proof.
  intros Henc Ha Hu Hq Hr Hw Hc Hre Hrun.
  eapply (session_confined uuid_to_string config user key now Henc); [| |exact Hrun].
  - unfold may_change. by rewrite Hw, Hc, Hre.
  - split; [done..|]. rewrite Hq. constructor.
Qed.

Definition app_session : list Command :=
  [CmdSet "app:1" (as_bytes "x") SetOptions_default; CmdSet "a" (as_bytes "x") SetOptions_default;
   CmdMulti; CmdRename "app:1" "app:2"; CmdRename "a" "app:3"; CmdExec; CmdClear].
Definition session_state (commands : list Command) : Server :=
  foldl (fun server c => (send 50 c server).1) (lone_server (Some app)) commands.

Lemma sample_session_run commands :
  Forall (fun c => command_typed c /\ forall name password, c <> CmdAuth name password) commands ->
  Forall (fun n => numbered (session_state (take n commands))) (seq 0 (length commands)) ->
  session_run (fun _ => EmptyString) no_guards 60 (lone_server (Some app)) (session_state commands).
Proof.
  induction commands as [|c commands IH] using rev_ind; intros Hc Hn; [constructor|].
  apply Forall_app in Hc as [Hc [[Hty Hna] _]%Forall_cons].
  rewrite length_app, Nat.add_1_r, seq_S in Hn. apply Forall_app in Hn as [Hn [Hl _]%Forall_cons]. cbn in Hl.
  rewrite take_app_length in Hl. unfold session_state. rewrite foldl_app. cbn.
  apply SessionCommand; [|split; cbn; [unfold u64_max|..]; lia|done..].
  apply IH; [done|]. apply Forall_forall. intros n Hin. rewrite Forall_forall in Hn. specialize (Hn n Hin).
  apply elem_of_seq in Hin. by rewrite take_app_le in Hn by lia.
Qed.

Lemma writes_confined_witness :
  live 60 (es_store (server_state (session_state app_session))) !! "app:2"%string <> None /\
  live 60 (es_store (server_state (session_state app_session))) !! "a"%string =
    live 60 (es_store (server_state (lone_server (Some app)))) !! "a"%string.
Proof.
  split; [vm_compute; discriminate|].
  refine (writes_confined (fun _ => EmptyString) no_guards app "a" 60 (lone_server (Some app))
            (session_state app_session) _ _ _ _ _ _ _ _ _ 60 _);
    [intros e; reflexivity|vm_compute; reflexivity..| |lia].
  apply sample_session_run.
  - repeat constructor; try discriminate; vm_compute; done.
  - repeat constructor; vm_compute; discriminate.
Defined.

(** C30: SCAN shows keys a user may read.  When the grants of the user are patterns with
    at most one star and no question mark, a SCAN that is authorized returns only
    keys that GET would be authorized for. *)
Theorem scan_shows_readable {W} `{WalWriter W} `{EntryChecksum} session user cursor pattern count now
    (eng eng' : Engine W) page key :
  se_identity session = Some user ->
  (forall grant, mkPermissionGrant PermRead grant ∈ id_grants user -> str_ok grant /\ plain_pattern grant) ->
  (forall k, is_Some (es_store (en_state eng) !! k) -> str_ok k) ->
  authorize_command (CmdScan cursor pattern count) session = Ok tt ->
  Engine.scan now cursor pattern count eng = (eng', Ok page) -> key ∈ sp_keys page ->
  authorize_command (CmdGet key) session = Ok tt.
Proof.
  intros Hu Hg Hkeys Ha Hs Hk. rewrite scan_run in Hs. injection Hs as _ <-.
  pose proof (authorized_scan _ _ _ _ _ Hu Ha) as Hp.
  assert (Identity.allows_key user PermRead key = true) as Hread;
    [|unfold authorize_command; cbn; by rewrite Hu, Hread].
  apply allows_key_spec. apply allows_pattern_spec in Hp as [Hadmin|(grant & Hin & Hcov)]; [by left|right].
  exists grant. split; [done|]. destruct pattern as [pattern|]; cbn in Hcov.
  - apply scan_page_matches in Hk as [Hk%keys_sorted_elem Hglob]. destruct (Hg grant Hin).
    eapply covered_key_matches; try done. apply Hkeys. destruct Hk as [e He].
    rewrite lookup_live in He. destruct (es_store (en_state eng) !! key); [by eexists|done].
  - by rewrite (covers_all _ Hcov).
Qed.

Definition app_keys : list Command :=
  [CmdSet "app:1" (as_bytes "x") SetOptions_default; CmdSet "other" (as_bytes "x") SetOptions_default].
Section scans.
#[local] Existing Instance sample_checksum.

Definition scanned_engine : Engine (list WalEntry) :=
  (Transaction.execute_transaction 5 5 app_keys (sample_engine sample_state)).1.

Lemma scan_shows_readable_witness :
  let session := mkSessionState (Some app) [] None in
  match Engine.scan 10 0 (Some "app:*"%string) None scanned_engine with
  | (_, Ok page) => sp_keys page = ["app:1"%string] /\ authorize_command (CmdGet "app:1") session = Ok tt
  | _ => False
  end.
Proof.
  assert (authorize_command (CmdScan 0 (Some "app:*"%string) None) (mkSessionState (Some app) [] None) = Ok tt) as Ha
    by (vm_compute; reflexivity).
  assert (match Engine.scan 10 0 (Some "app:*"%string) None scanned_engine with
          | (_, Ok page) => sp_keys page = ["app:1"%string]
          | _ => False
          end) as Hs by (vm_compute; reflexivity).
  assert (forallb (fun grant => bool_decide (str_ok (pg_pattern grant)) && bool_decide (pg_pattern grant = "app:*"%string))
            (elements (id_grants app)) = true) as Hg by (vm_compute; reflexivity).
  assert (forallb (fun k => bool_decide (str_ok k)) (EngineStore.keys_sorted (es_store (en_state scanned_engine))) = true)
    as Hk by (vm_compute; reflexivity).
  cbv zeta. destruct (Engine.scan 10 0 _ None scanned_engine) as [eng' [page|]] eqn:Escan; [|destruct Hs].
  split; [exact Hs|].
  refine (scan_shows_readable (mkSessionState (Some app) [] None) app 0 (Some "app:*"%string) None 10 scanned_engine eng' page _ eq_refl _ _ Ha Escan _).
  - intros grant Hin%elem_of_elements%list_elem_of_In. rewrite forallb_forall in Hg. specialize (Hg _ Hin).
    apply andb_prop in Hg as [Hok%bool_decide_eq_true Heq%bool_decide_eq_true]. split; [exact Hok|]. cbn in Heq.
    subst grant. right. exists (chars "app:"), []. split; [vm_compute; reflexivity|].
    split; [repeat constructor; vm_compute; discriminate|constructor].
  - intros k Hin%keys_sorted_elem%list_elem_of_In. rewrite forallb_forall in Hk. specialize (Hk _ Hin).
    by apply bool_decide_eq_true in Hk.
  - rewrite Hs. left.
Defined.

End scans.

(** With a question mark in a grant, SCAN shows keys that cannot be read. *)
Definition reader (grant : string) : Identity := mkIdentity "reader" ∅ {[mkPermissionGrant PermRead grant]}.

Theorem scan_shows_unreadable :
  let session := mkSessionState (Some (reader "user:?:*")) [] None in
  let command := CmdScan 0 (Some "user:?:*"%string) None in
  authorize_command command session = Ok tt /\
  sp_keys (scan_page ["user:1:name"; "user:12"]%string 0 (Some "user:?:*"%string) None) = ["user:1:name"%string] /\
  authorize_command (CmdGet "user:1:name") session = Err SrvPermissionDenied.
Proof. split_and!; vm_compute; reflexivity. Qed.

(** ** Lockouts *)

(** C34: An account is locked exactly while its open window of failed logins says so.
    After any logins of any accounts, failed or passed and at any times, with no INFO
    in between, the failures that count are those of the window that is open for the
    account ([open_window]): a failure later than [window] after the first one of the
    window opens the next, and a login that passes closes it.  The account is locked if
    they reach the limit, and until the lockout after the last of them has passed. *)
Theorem lockout_exact key window limit lockout events times now :
  0 <= window -> Z.of_nat (length events) <= u32_max -> open_window key window events times ->
  AuthLockoutState.remaining_lockout_seconds key now (logins window limit lockout events) =
  match times with
  | [] => None
  | t0 :: rest =>
      let until := saturating_add (List.last rest t0) lockout in
      if (limit <=? Z.of_nat (length times)) && (now <=? until)
      then Some ((until - now + 999) / 1000) else None
  end.
Proof.
  intros Hw Hl Ho. unfold AuthLockoutState.remaining_lockout_seconds.
  rewrite (logins_record key window limit lockout events times Hw Hl Ho).
  destruct times as [|t0 rest]; [done|]. cbn -[Z.leb length Z.of_nat].
  by destruct (limit <=? Z.of_nat (length (t0 :: rest))).
Qed.

(** Two failures, a third one after the window of the first, and two more: only the
    last three count, whatever the account [v] does. *)
Definition some_logins : list LoginEvent :=
  [LoginFailed "u" 0; LoginFailed "u" 50000; LoginFailed "v" 50001; LoginFailed "u" 60001; LoginPassed "v";
   LoginFailed "u" 60002; LoginFailed "u" 62000]%string.
Lemma some_windows :
  open_window "u" 60000 (take 4 some_logins) [60001] /\ open_window "u" 60000 some_logins [60001; 60002; 62000] /\
  open_window "u" 60000 (some_logins ++ [LoginPassed "u"]) [].
Proof.
  assert (open_window "u" 60000 (take 4 some_logins) [60001]) as H4.
  { apply (ow_reopens _ _ (take 3 some_logins) 0 [50000] 60001); [|lia].
    apply (ow_other_failed _ _ (take 2 some_logins) _ "v" 50001); [|done].
    apply (ow_within _ _ (take 1 some_logins) 0 [] 50000); [|lia]. apply (ow_opens _ _ [] 0), ow_none. }
  assert (open_window "u" 60000 some_logins [60001; 60002; 62000]) as H7.
  { apply (ow_within _ _ (take 6 some_logins) 60001 [60002] 62000); [|lia].
    apply (ow_within _ _ (take 5 some_logins) 60001 [] 60002); [|lia].
    by apply (ow_other_passed _ _ (take 4 some_logins) _ "v"). }
  split_and!; [done..|]. by eapply ow_passed.
Qed.

Lemma lockout_exact_witness :
  AuthLockoutState.remaining_lockout_seconds "u" 65000 (logins 60000 3 10000 some_logins) = Some 7 /\
  AuthLockoutState.remaining_lockout_seconds "u" 72001 (logins 60000 3 10000 some_logins) = None /\
  AuthLockoutState.remaining_lockout_seconds "u" 60001 (logins 60000 3 10000 (take 4 some_logins)) = None /\
  AuthLockoutState.remaining_lockout_seconds "u" 65000 (logins 60000 3 10000 (some_logins ++ [LoginPassed "u"])) = None.
Proof.
  destruct some_windows as (H4 & H7 & H8).
  split_and!; (erewrite lockout_exact; [|lia|by vm_compute|first [exact H7|exact H4|exact H8]]; vm_compute; reflexivity).
Defined.

(** INFO forgets failed logins.  It counts the lockouts with [active_lockout_count],
    which drops the records of accounts that are not locked: with a limit of three, an
    account takes two wrong passwords after every INFO and is never locked. *)
Definition wrong (ms : Z) (server : Server) : Server * result ServerError Response :=
  send ms (CmdAuth "app" "wrong-password-1") server.
Definition after_info : Server :=
  (wrong 4 (wrong 3 (send 2 CmdInfo (wrong 1 (wrong 0 (lone_server (Some root))).1).1).1).1).1.
Definition without_info : Server :=
  (wrong 4 (wrong 3 (wrong 1 (wrong 0 (lone_server (Some root))).1).1).1).1.

Theorem info_forgets_failures :
  (send 5 (CmdAuth "app" "app-secret-12") without_info).2 = Err (SrvAuthenticationLocked "app" 300) /\
  (send 5 (CmdAuth "app" "app-secret-12") after_info).2 = Ok (Response.ok request_id).
Proof. split; vm_compute; reflexivity. Qed.

(** ** The rate limiter *)

(** The decisions on requests at these instants. *)
Fixpoint decisions (l : RateLimiter) (instants : list Z) : list bool :=
  match instants with
  | [] => []
  | now :: instants => let '(l, allowed) := RateLimiter.allow now l in allowed :: decisions l instants
  end.

(** Instants that are whole seconds apart. *)
Fixpoint seconds_from (now : Z) (delays : list Z) : list Z :=
  match delays with
  | [] => []
  | s :: delays => let now := now + s * 1000000000 in now :: seconds_from now delays
  end.

(** A bucket of integers that gains [rate] tokens per second up to [capacity]. *)
Fixpoint bucket (capacity rate tokens : Z) (delays : list Z) : list bool :=
  match delays with
  | [] => []
  | s :: delays =>
      let tokens := Z.min (tokens + s * rate) capacity in
      if tokens <? 1 then false :: bucket capacity rate tokens delays
      else true :: bucket capacity rate (tokens - 1) delays
  end.

Definition passed (allowed : list bool) : Z := Z.of_nat (length (List.filter id allowed)).
Definition total (delays : list Z) : Z := foldr Z.add 0 delays.

Lemma bucket_bounded capacity rate delays : forall tokens, 0 <= tokens ->
  0 <= rate -> Forall (fun s => 0 <= s) delays -> 0 <= capacity ->
  passed (bucket capacity rate tokens delays) <= tokens + rate * total delays.
Proof.
  induction delays as [|s delays IH]; intros tokens Ht Hr Hd Hc; cbn [bucket total foldr]; [unfold passed; cbn; lia|].
  apply Forall_cons in Hd as [Hs Hd]. fold (total delays). cbv zeta.
  set (tokens' := Z.min (tokens + s * rate) capacity). destruct (Z.ltb_spec tokens' 1); unfold passed in *; cbn.
  - pose proof (IH tokens' ltac:(lia) Hr Hd Hc). lia.
  - pose proof (IH (tokens' - 1) ltac:(lia) Hr Hd Hc). lia.
Qed.

Lemma decisions_bucket capacity rate delays : forall tokens now,
  0 <= tokens <= capacity -> 0 <= capacity <= u32_max -> 0 <= rate <= u32_max ->
  Forall (fun s => 0 <= s <= 2 ^ 20) delays ->
  decisions (whole_limiter capacity tokens rate now) (seconds_from now delays) = bucket capacity rate tokens delays.
Proof.
  induction delays as [|s delays IH]; intros tokens now Ht Hc Hr Hd; [done|].
  apply Forall_cons in Hd as [Hs Hd]. cbn [seconds_from decisions bucket]. cbv zeta.
  assert (s * rate <= 2 ^ 20 * u32_max) as Hp by (apply Z.mul_le_mono_nonneg; lia).
  unfold u32_max in *. rewrite allow_whole by lia. cbv zeta.
  set (tokens' := Z.min (tokens + s * rate) capacity). assert (0 <= s * rate) by (apply Z.mul_nonneg_nonneg; lia).
  destruct (Z.ltb_spec tokens' 1); rewrite IH by (done || lia); done.
Qed.

(** C29: The rate limiter counts without rounding errors on requests that come whole seconds
    apart: it decides like a bucket of integers, so that at most [burst] requests pass at
    once, and at most [requests_per_second] more for every second. *)
Theorem rate_limiter_exact now requests_per_second burst delays :
  0 <= requests_per_second <= u32_max -> 0 <= burst <= u32_max -> Forall (fun s => 0 <= s <= 2 ^ 20) delays ->
  let allowed := decisions (RateLimiter.new now requests_per_second burst) (seconds_from now delays) in
  allowed = bucket burst requests_per_second burst delays /\
  passed allowed <= burst + requests_per_second * total delays.
Proof.
  intros Hr Hb Hd allowed.
  assert (allowed = bucket burst requests_per_second burst delays) as Ha by (apply decisions_bucket; (done || lia)).
  split; [done|]. rewrite Ha. apply bucket_bounded; [lia|lia| |lia].
  eapply Forall_impl; [exact Hd|]. cbn. lia.
Qed.

(** Three tokens and one per second. *)
Lemma rate_limiter_exact_witness :
  decisions (RateLimiter.new 7 1 3) (seconds_from 7 [0; 0; 0; 0; 2; 0; 0]) =
    [true; true; true; false; true; true; false] /\
  passed (decisions (RateLimiter.new 7 1 3) (seconds_from 7 [0; 0; 0; 0; 2; 0; 0])) <= 5.
Proof.
  destruct (rate_limiter_exact 7 1 3 [0; 0; 0; 0; 2; 0; 0]) as [Ha Hp]; [done|done| |].
  { repeat (apply Forall_cons; split; [done|]). apply Forall_nil; done. }
  split; [exact Ha|exact Hp].
Defined.

(** ** Promotion *)

Lemma expire_ok config now server server' :
  expire_transaction_if_needed config now server = (server', Ok tt) -> server' = server.
Proof.
  unfold expire_transaction_if_needed. run_fallible. destruct (se_transaction_started_at_ms _); [|by intros [= <-]].
  destruct (_ <=? _); [by intros [= <-]|done].
Qed.

(** PROMOTE FOLLOWER never succeeds.  In maintenance mode the command is refused, and
    outside it promotion is denied; as a write it is refused on followers anyway. *)
Theorem promotion_unreachable `{Crc32} `{CryptoLib} `{Binary WalEntry} `{Binary Manifest} `{Binary StoredKeyring}
    `{SnapshotCodec} `{NonceSource} `{Base64} `{BackupJson} `{ReplicationJson} `{PasswordHash} `{AuthJson}
    `{Sha256} `{DumpJson} (uuid_to_string : list byte -> string) config i peer_addr request_id server :
  is_ok (process_command uuid_to_string config i peer_addr request_id CmdPromoteFollower server).2 = false.
Proof.
  unfold process_command. unfold mbind at 1, fallible_bind at 1, mget.
  destruct (_ && _ && _); [done|]. unfold mbind at 1, fallible_bind at 1.
  destruct (expire_transaction_if_needed config (in_clock i 0) server) as [server1 [[]|]] eqn:Ee; [|done].
  apply expire_ok in Ee as ->. destruct (mm_enabled (sv_maintenance server)) eqn:Em; [done|]. cbn [andb].
  unfold mbind at 1, fallible_bind at 1, mpure at 1. destruct (enforce_leader_writeability _ _); [|done].
  unfold mbind at 1, fallible_bind at 1, mget. destruct (in_transaction _).
  - unfold handle_transaction_command. unfold mbind at 1, fallible_bind at 1.
    destruct (expire_transaction_if_needed config (in_clock i 1) server) as [server2 [[]|]]; [|done].
    unfold mbind at 1, fallible_bind at 1, mget. destruct (negb _); [done|]. by destruct (_ <=? _).
  - unfold mbind at 1, fallible_bind at 1, mpure at 1. destruct (if is_some _ then _ else _); [|done].
    unfold dispatch_command. run_fallible. by rewrite Em.
Qed.

(** ** The files of backups *)

Section tidy.
Context `{Crc32} `{CryptoLib} `{Binary WalEntry} `{Binary Manifest} `{Binary StoredKeyring}
  `{SnapshotCodec} `{NonceSource} `{Base64} `{BackupJson} `{ReplicationJson} `{PasswordHash} `{AuthJson}
  `{Sha256} `{DumpJson} (uuid_to_string : list byte -> string) (config : ServerConfig).

Notation M := (fallible Server ServerError).
Notation backup_dir := (st_backup_dir (sc_settings config)).

(** Steps that leave the files outside of the backup directory alone. *)
Definition tidy {A} (m : M A) : Prop :=
  forall server, kept backup_dir (sv_files server) (sv_files (m server).1).

Lemma tidy_bind {A B} (m : M A) (k : A -> M B) : tidy m -> (forall a, tidy (k a)) -> tidy (m ≫= k).
Proof.
  intros Hm Hk server. specialize (Hm server). unfold mbind, fallible_bind.
  destruct (m server) as [server' [a|e]]; [|done]. etransitivity; [exact Hm|apply Hk].
Qed.

Lemma tidy_still {A} (m : M A) : (forall server, sv_files (m server).1 = sv_files server) -> tidy m.
Proof. intros Hm server. by rewrite Hm. Qed.

Lemma tidy_files {A} (m : fallible Files ServerError A) :
  (forall files, kept backup_dir files (m files).1) -> tidy (on_files m).
Proof. intros Hm server. unfold on_files. specialize (Hm (sv_files server)). by destruct (m (sv_files server)). Qed.

Lemma tidy_node {A} (m : fallible (Node DiskEngine) ServerError A) : tidy (on_node m).
Proof. apply tidy_still. intros server. unfold on_node. by destruct (m _). Qed.
Lemma tidy_auth {A} (m : fallible AuthStore ServerError A) : tidy (on_auth m).
Proof. apply tidy_still. intros server. unfold on_auth. destruct (sv_auth server); [|done]. by destruct (m _). Qed.
Lemma tidy_maintenance {A} (m : fallible MaintenanceMode ServerError A) : tidy (on_maintenance m).
Proof. apply tidy_still. intros server. unfold on_maintenance. by destruct (m _). Qed.

Lemma tidy_resolve i path must_exist : tidy (resolve config i path must_exist).
Proof.
  apply tidy_files. intros files. apply resolve_kept.
Qed.

Lemma read_bytes_still fails path files : (read_bytes fails path files).1 = files.
Proof. unfold read_bytes, system. by destruct (fails _). Qed.
Lemma tidy_read {A} i path (k : list byte -> fallible Files ServerError A) :
  (forall bytes files, (k bytes files).1 = files) -> tidy (on_files (read_bytes (in_file_fails i) path ≫= k)).
Proof.
  intros Hk. apply tidy_files. intros files. pose proof (read_bytes_still (in_file_fails i) path files) as Hs.
  unfold mbind, fallible_bind. destruct (read_bytes _ _ _) as [files' [bytes|e]]; cbn in Hs; subst files'; [|reflexivity].
  by rewrite Hk.
Qed.

(** One step of a command. *)
Ltac tidy_step :=
  lazymatch goal with
  | |- tidy (on_node _) => apply tidy_node
  | |- tidy (on_auth _) => apply tidy_auth
  | |- tidy (on_maintenance _) => apply tidy_maintenance
  | |- tidy (resolve _ _ _ _) => apply tidy_resolve
  | |- tidy (read_backup _ _) => by apply tidy_read
  | |- tidy (on_files (load_backup_manifest _ _)) => by apply tidy_read
  | |- tidy (mpure _) => by apply tidy_still
  | |- tidy (mret _) => by apply tidy_still
  | |- tidy (mfail _) => by apply tidy_still
  | |- tidy (reply _) => by apply tidy_still
  | |- tidy mget => by apply tidy_still
  | |- tidy (put_session _) => by apply tidy_still
  | |- tidy (on_lockouts _) => by apply tidy_still
  | |- tidy (log_in _) => by apply tidy_still
  | |- tidy clear_transaction => by apply tidy_still
  | |- tidy (execute _ _ _ _ _) => apply tidy_node
  | |- tidy (validate_backup _ _) => apply tidy_node
  | |- tidy (mbind _ _) => apply tidy_bind; [|intros ?]
  | |- tidy (let '(_, _) := ?x in _) => destruct x
  | |- tidy (match ?x with _ => _ end) => destruct x
  | |- tidy (if ?x then _ else _) => destruct x
  | |- tidy _ => progress unfold expire_transaction_if_needed, exec, restore_from, structured_info,
      Dispatch.verify_backup_dump, users_command
  end.

Lemma tidy_backup_to i request_id path : tidy (backup_to uuid_to_string config i request_id path).
Proof.
  unfold backup_to. do 2 (apply tidy_bind; [tidy_step|intros ?]). intros server.
  unfold resolve, on_files, mbind, fallible_bind, mpure.
  pose proof (resolve_kept backup_dir (in_file_fails i) path false (sv_files server)) as K1.
  destruct (resolve_backup_path _ _ _ _ (sv_files server)) as [f1 [p|e]] eqn:E; [|done].
  pose proof (resolve_inside _ _ _ _ _ _ E) as Hin.
  destruct (build_backup_manifest _) as [manifest|e]; [|done]. change (sv_files (server {{ sv_files := f1 }})) with f1.
  pose proof (write_kept _ (in_file_fails i) (in_backup_io i 0) p (path_text p) (as_bytes a0) f1 Hin) as K2.
  destruct (write_backup_file _ _ _ _ _ f1) as [f2 [[]|e]]; [|by transitivity f1].
  destruct (manifest_to_vec manifest) as [bytes|e]; [|by transitivity f1]. cbn [map_err].
  change (sv_files (server {{ sv_files := f1; sv_files := f2 }})) with f2.
  pose proof (write_kept _ (in_file_fails i) (in_backup_io i 1) (backup_manifest_path p)
    (path_text (backup_manifest_path p)) bytes f2 (inside_manifest _ _ _ (inside_kept _ _ _ _ K2 Hin))) as K3.
  destruct (write_backup_file _ _ _ _ _ f2) as [f3 [[]|e]]; (transitivity f1; [done|by transitivity f2]).
Qed.

Lemma tidy_process i peer_addr request_id c : tidy (process_command uuid_to_string config i peer_addr request_id c).
Proof.
  assert (forall c, tidy (command_path uuid_to_string config i request_id c)) as Hp
    by (intros c'; unfold command_path; repeat tidy_step).
  assert (tidy (dispatch_command uuid_to_string config i request_id c)) as Hd.
  { unfold dispatch_command. apply tidy_bind; [tidy_step|intros server].
    destruct c; try apply Hp; try (unfold backup_command; repeat tidy_step). all: apply tidy_backup_to. }
  assert (tidy (handle_transaction_command config i request_id c)) as Ht
    by (unfold handle_transaction_command; repeat tidy_step).
  unfold process_command. destruct c; unfold handle_auth; repeat first [apply Hd | apply Ht | tidy_step].
Qed.

End tidy.

(** C27: A path that a client names does not lead out of the backup directory. The tree
    is that of the files which commands reach through paths of the client ([Files]); the
    server's own files (log, snapshots, users, maintenance flag, audit log) are at paths of
    the configuration and not part of it. Whoever sends which commands with which paths,
    whatever symbolic links there are and whichever calls fail: after any requests an entry
    of this tree is what it was, or a directory where there was nothing, or a file whose
    place, with every link resolved, is below the backup directory. *)
Theorem backups_confined `{Crc32} `{CryptoLib} `{Binary WalEntry} `{Binary Manifest} `{Binary StoredKeyring}
    `{SnapshotCodec} `{NonceSource} `{Base64} `{BackupJson} `{ReplicationJson} `{PasswordHash} `{AuthJson}
    `{Sha256} `{DumpJson} (uuid_to_string : list byte -> string) config
    (requests : list (Inputs * option string * Uuid * Command)) server :
  let server' := foldl (fun server '(i, peer_addr, id, c) =>
                          (process_command uuid_to_string config i peer_addr id c server).1) server requests in
  let before := fl_tree (sv_files server) in
  let after := fl_tree (sv_files server') in
  forall q,
    after !! q = before !! q \/
    before !! q = None /\ after !! q = Some EntryDirectory \/
    exists base bytes, locate (sv_files server') (path_of (st_backup_dir (sc_settings config))) = Ok base /\
      base `prefix_of` q /\ after !! q = Some (EntryFile bytes).
Proof.
  intros server' before after. apply kp_outside. subst server' before after.
  induction requests as [|[[[i peer_addr] id] c] requests IH] in server |- *; [reflexivity|]. cbn [foldl].
  etransitivity; [apply (tidy_process uuid_to_string config i peer_addr id c)|apply IH].
Qed.

(** A backup directory with a link to a file outside of it. *)
Definition linked_server : Server :=
  (lone_server (Some root)) {{ sv_files := mkFiles
    (<[["etc"] := EntryDirectory]> (<[["etc"; "passwd"] := EntryFile [x31]]>
     (<[["backups"] := EntryDirectory]> {[["backups"; "link"] := EntryLink "../etc/passwd"]}))) [] }}%string.

(** BACKUP TO a path outside of the backup directory is rejected only after the
    directories of the path were created; a link is not followed. *)
Theorem rejected_backup_creates_directory :
  let absolute := send 5 (CmdBackupTo "/etc/cron.d/job") linked_server in
  let linked := send 5 (CmdBackupTo "link") linked_server in
  absolute.2 = Err (SrvBackupPathRejected "/etc/cron.d/job") /\
  fl_tree (sv_files absolute.1) !! ["etc"; "cron.d"]%string = Some EntryDirectory /\
  linked.2 = Err (SrvBackupPathRejected "link") /\ sv_files linked.1 = sv_files linked_server.
Proof. vm_compute. split_and!; reflexivity. Qed.

(** *** Backups that are read back *)





