(* ===== verification/AuditTheorems.v ===== *)
(** * AuditTheorems: what the audit log is good for

    The log is read back as it was written, changed events change the end of the
    chain, and a write that was cut off makes the log unreadable later. *)

From S2P Require Import Prelude Text Command Wire Request Response EngineError Store ServerError.
From S2P Require Import Consensus Auth Access Status BackupFiles AuditLog Samples.

(** * Lines and chains of the audit log

    What a written line is read as, and what a verified chain says about its events. *)

(** ** Hexadecimal digits *)

Definition digit_value (b : byte) : Z := if bval b <=? 0x39 then bval b - 0x30 else bval b - 0x57.

Lemma digit_value_hex n : 0 <= n < 16 -> digit_value (hex_digit n) = n.
Proof.
  intros Hn. assert (Forall (fun d => digit_value (hex_digit d) = d) (seqZ 0 16)) as Hd
    by (vm_compute; repeat constructor).
  rewrite Forall_forall in Hd. apply Hd, elem_of_seqZ. lia.
Qed.

Lemma hex_inj a b : hex a = hex b -> a = b.
Proof.
  unfold hex. intros Hh. apply (f_equal as_bytes) in Hh. rewrite !as_bytes_of_bytes in Hh.
  revert b Hh. induction a as [|x a IH]; intros [|y b]; cbn; intros Hh; try done.
  injection Hh as Hd1 Hd2 Hr. f_equal; [|by apply IH].
  apply (f_equal digit_value) in Hd1, Hd2. pose proof (bval_range x). pose proof (bval_range y).
  rewrite !digit_value_hex in Hd1 by (Z.to_euclidean_division_equations; lia).
  rewrite !digit_value_hex in Hd2 by (Z.to_euclidean_division_equations; lia).
  rewrite <- (byte_of_Z_bval x), <- (byte_of_Z_bval y). f_equal.
  rewrite (Z.div_mod (bval x) 16), (Z.div_mod (bval y) 16) by lia. congruence.
Qed.

(** ** Lines *)

(** Files that end with a line feed. *)
Definition whole (bytes : list byte) : Prop := bytes = [] \/ exists rest, bytes = rest ++ [x0a].

Lemma lines_from_app line a b : lines_from line (a ++ x0a :: b) = lines_from line (a ++ [x0a]) ++ lines b.
Proof.
  revert line. induction a as [|c a IH]; intros line; [done|].
  cbn. destruct c; rewrite ?IH; done.
Qed.

Lemma lines_app a b : whole a -> lines (a ++ b) = lines a ++ lines b.
Proof.
  intros [->|(rest & ->)]; [done|]. unfold lines at 1 2. rewrite <- app_assoc. cbn. apply lines_from_app.
Qed.

Lemma whole_app a b : whole b -> whole a -> whole (a ++ b).
Proof. intros [->|(rest & ->)] Ha; [by rewrite app_nil_r|]. right. exists (a ++ rest). by rewrite app_assoc. Qed.

Lemma lines_from_text line text rest :
  x0a ∉ text -> lines_from line (text ++ rest) = lines_from (reverse text ++ line) rest.
Proof.
  revert line. induction text as [|c text IH]; intros line Ht; [done|]. apply not_elem_of_cons in Ht as [Hc Ht].
  rewrite reverse_cons, <- app_assoc. cbn [app]. rewrite <- IH by done. by destruct c.
Qed.

(** An object on one line. *)
Definition object (bytes : list byte) : Prop := (exists body, bytes = x7b :: (body ++ [x7d])) /\ x0a ∉ bytes.

Lemma lines_object bytes : object bytes -> lines bytes = [bytes] /\ lines (bytes ++ [x0a]) = [bytes].
Proof.
  intros [(body & Hb) Hn]. unfold lines. rewrite lines_from_text by done.
  rewrite <- (app_nil_r bytes) at 1. rewrite lines_from_text, app_nil_r by done.
  cbn [lines_from]. rewrite reverse_involutive. split.
  - rewrite Hb, reverse_cons. by destruct (reverse (body ++ [x7d])).
  - f_equal. unfold strip_cr. by rewrite Hb, app_comm_cons, last_snoc.
Qed.

Lemma object_app a b : object a -> object b -> object (a ++ b).
Proof.
  intros [(x & ->) Ha] [(y & ->) Hb]. split.
  - exists (x ++ [x7d] ++ x7b :: y). cbn. by rewrite <- !app_assoc.
  - rewrite elem_of_app. tauto.
Qed.

Section facts.
Context `{Sha256} `{AuditJson}.

Lemma written_object e bytes : chained_to_json e = Ok bytes -> object bytes.
Proof. intros (Hb & Hn & _)%chained_object. done. Qed.

Lemma object_not_blank bytes : object bytes -> is_blank (of_bytes bytes) = false.
Proof. intros [(body & ->) _]. unfold is_blank, chars. by rewrite as_bytes_of_bytes. Qed.

(** ** Verification *)

Lemma verify_lines_snoc ls l :
  verify_lines (ls ++ [l]) = st ← verify_lines ls; verify_line (Z.of_nat (length ls) + 1) st l.
Proof.
  unfold verify_lines. rewrite imap_app, foldM_app. cbn. rewrite Nat.add_0_r.
  destruct (foldM _ _ _) as [st|]; [|done]. cbn. by destruct (verify_line _ _ _).
Qed.

(** The event of a line. *)
Definition line_event (line : list byte) : option AuditEvent :=
  match chained_from_json (of_bytes line) with Ok e => Some (ca_event e) | Err _ => None end.

(** What is hashed for a line. *)
Definition line_payload (line : list byte) : option (list byte) :=
  match chained_from_json (of_bytes line) with
  | Ok e =>
      match payload_to_json (mkHashPayload AUDIT_VERSION (ca_sequence e) (ca_previous_hash e) HASH_ALGORITHM (ca_event e)) with
      | Ok payload => Some payload
      | Err _ => None
      end
  | Err _ => None
  end.

Lemma verify_line_ok n st line st' :
  verify_line n st line = Ok st' ->
  exists event payload, line_event line = Some event /\ line_payload line = Some payload /\
    payload_to_json (mkHashPayload AUDIT_VERSION (ac_next_sequence st) (ac_previous_hash st) HASH_ALGORITHM event) =
      Ok payload /\
    hex (sha256 payload) = ac_previous_hash st' /\ ac_next_sequence st' = ac_next_sequence st + 1.
Proof.
  unfold verify_line, line_event, line_payload. intros (text & Ht & Hx)%result_bind_ok.
  destruct (from_utf8 line) as [text'|] eqn:Eu; [|done]. injection Ht as ->.
  apply from_utf8_ok in Eu as [-> _]. destruct (is_blank _); [done|].
  apply result_bind_ok in Hx as (e & He & Hx). destruct (chained_from_json _) as [e'|]; [|done]. injection He as ->.
  do 4 (match type of Hx with (if ?b then _ else _) = _ => destruct b eqn:?; [done|] end).
  repeat match goal with H : negb _ = false |- _ => apply negb_false_iff in H end.
  rewrite ?Z.eqb_eq, ?bool_decide_eq_true in *.
  apply result_bind_ok in Hx as (h & Hh & Hx). destruct (bool_decide (ca_event_hash e = h)) eqn:Hb; [|done].
  apply bool_decide_eq_true in Hb. injection Hx as <-. apply result_bind_ok in Hh as (payload & Hp & [= <-]).
  destruct (payload_to_json _) as [payload'|] eqn:E in Hp; [|done]. injection Hp as ->.
  exists (ca_event e), payload. rewrite E. cbn. split_and!; try done. congruence.
Qed.

Lemma verify_written n seq prev event hash bytes :
  compute_hash seq prev event = Ok hash ->
  chained_to_json (mkChainedAuditEvent AUDIT_VERSION seq prev hash HASH_ALGORITHM event) = Ok bytes ->
  verify_line n (mkAuditChainState seq prev) bytes = Ok (mkAuditChainState (seq + 1) hash) /\
  line_event bytes = Some event.
Proof.
  intros Hh Hb. pose proof (object_not_blank _ (written_object _ _ Hb)) as Hn.
  pose proof (chained_from_to _ _ Hb) as Hf. destruct (chained_object _ _ Hb) as (_ & _ & Hu).
  unfold verify_line, line_event. rewrite (proj2 (from_utf8_ok bytes _)) by done. cbn. rewrite Hn, Hf. cbn.
  rewrite Z.eqb_refl, !bool_decide_eq_true_2 by done. cbn. rewrite Hh. cbn. by rewrite bool_decide_eq_true_2.
Qed.

(** ** Loggers *)

Definition logged (bytes : list byte) : list AuditEvent := omap line_event (lines bytes).

(** The file of a logger verifies up to its chain, and ends with a whole line. *)
Record intact (logger : AuditLogger) : Prop := mkIntact {
  in_chain : verify_lines (lines (al_file logger)) = Ok (al_chain logger);
  in_whole : whole (al_file logger);
}.

(** What a record adds. *)
Lemma record_done event logger logger' :
  AuditLogger.record WriteDone event logger = (logger', Ok tt) ->
  exists hash bytes,
    compute_hash (ac_next_sequence (al_chain logger)) (ac_previous_hash (al_chain logger)) event = Ok hash /\
    chained_to_json (mkChainedAuditEvent AUDIT_VERSION (ac_next_sequence (al_chain logger))
      (ac_previous_hash (al_chain logger)) hash HASH_ALGORITHM event) = Ok bytes /\
    logger' = mkAuditLogger (al_file logger ++ bytes ++ [x0a])
                (mkAuditChainState (ac_next_sequence (al_chain logger) + 1) hash).
Proof.
  unfold AuditLogger.record. run_fallible. destruct (compute_hash _ _ _) as [hash|]; [|done].
  destruct (chained_to_json _) as [bytes|] eqn:Eb; [|done]. cbn. intros [= <-]. by exists hash, bytes.
Qed.

Lemma intact_line logger hash bytes event :
  intact logger ->
  compute_hash (ac_next_sequence (al_chain logger)) (ac_previous_hash (al_chain logger)) event = Ok hash ->
  chained_to_json (mkChainedAuditEvent AUDIT_VERSION (ac_next_sequence (al_chain logger))
    (ac_previous_hash (al_chain logger)) hash HASH_ALGORITHM event) = Ok bytes ->
  verify_lines (lines (al_file logger) ++ [bytes]) =
    Ok (mkAuditChainState (ac_next_sequence (al_chain logger) + 1) hash) /\ line_event bytes = Some event.
Proof.
  intros [Hc _] Hh Hb. rewrite verify_lines_snoc, Hc. cbn. destruct (al_chain logger) as [seq prev]. by apply verify_written.
Qed.

Lemma record_intact event logger logger' :
  intact logger -> AuditLogger.record WriteDone event logger = (logger', Ok tt) ->
  intact logger' /\ logged (al_file logger') = logged (al_file logger) ++ [event].
Proof.
  intros Hi (hash & bytes & Hh & Hb & ->)%record_done. destruct (intact_line _ _ _ _ Hi Hh Hb) as [Hv He].
  pose proof (proj2 (lines_object _ (written_object _ _ Hb))) as Hl.
  unfold logged. cbn. rewrite (lines_app _ _ (in_whole _ Hi)), Hl, omap_app. cbn. rewrite He. split; [|done].
  split; cbn; [by rewrite (lines_app _ _ (in_whole _ Hi)), Hl|].
  apply whole_app; [|by apply in_whole]. right. by exists bytes.
Qed.

Lemma records_intact events logger logger' :
  intact logger -> mfor (AuditLogger.record WriteDone) events logger = (logger', Ok tt) ->
  intact logger' /\ logged (al_file logger') = logged (al_file logger) ++ events.
Proof.
  revert logger. induction events as [|event events IH]; intros logger Hi; cbn.
  - intros [= <-]. by rewrite app_nil_r.
  - intros (logger1 & [] & H1 & H2)%fallible_bind_ok. destruct (record_intact _ _ _ Hi H1) as [Hi1 Hl1].
    destruct (IH _ Hi1 H2) as [Hi2 Hl2]. split; [done|]. by rewrite Hl2, Hl1, <- app_assoc.
Qed.

Lemma fresh_intact : intact (mkAuditLogger [] first_link).
Proof. split; [done|by left]. Qed.

Lemma intact_opens logger :
  intact logger -> AuditLogger.open (Ok tt) (Ok (Some (al_file logger))) (Ok tt) = Ok logger.
Proof. intros [Hc _]. unfold AuditLogger.open. cbn -[verify_lines]. rewrite Hc. by destruct logger. Qed.

(** ** Chains *)

(** Equal hashes have equal events behind them. *)
Lemma verify_lines_length ls st : verify_lines ls = Ok st -> ac_next_sequence st = Z.of_nat (length ls) + 1.
Proof.
  revert st. induction ls as [|l ls IH] using rev_ind; intros st; [by intros [= <-]|].
  rewrite verify_lines_snoc. intros (st1 & H1%IH & (event & payload & _ & _ & _ & _ & ->)%verify_line_ok)%result_bind_ok.
  rewrite length_app. cbn. lia.
Qed.

Lemma same_chain ls1 ls2 st :
  verify_lines ls1 = Ok st -> verify_lines ls2 = Ok st ->
  (forall a b, a ∈ omap line_payload ls1 -> b ∈ omap line_payload ls2 -> sha256 a = sha256 b -> a = b) ->
  omap line_event ls1 = omap line_event ls2.
Proof.
  revert ls2 st. induction ls1 as [|l1 ls1 IH] using rev_ind; intros ls2 st H1 H2 Hfree;
    pose proof (verify_lines_length _ _ H1) as Hn1; pose proof (verify_lines_length _ _ H2) as Hn2;
    destruct ls2 as [|l2 ls2 _] using rev_ind; rewrite ?length_app in *; cbn in *; try lia; [done|].
  rewrite verify_lines_snoc in H1, H2.
  apply result_bind_ok in H1 as (st1 & Hv1 & (event1 & p1 & He1 & Hl1 & Hp1 & Hh1 & Hs1)%verify_line_ok).
  apply result_bind_ok in H2 as (st2 & Hv2 & (event2 & p2 & He2 & Hl2 & Hp2 & Hh2 & Hs2)%verify_line_ok).
  rewrite !omap_app in Hfree. cbn in Hfree. rewrite Hl1, Hl2 in Hfree.
  assert (p1 = p2) as <- by (apply Hfree; [set_solver..|]; apply hex_inj; by rewrite Hh1, Hh2).
  pose proof (payload_to_json_inj _ _ _ Hp1 Hp2) as Hp. injection Hp as Hseq Hprev <-.
  assert (st1 = st2) as <- by (destruct st1, st2; cbn in *; congruence).
  rewrite !omap_app, (IH _ _ Hv1 Hv2) by (intros; apply Hfree; set_solver). cbn. by rewrite He1, He2.
Qed.

(** ** A line without its end *)

(** The next record ends up on the same line, and the log cannot be opened. *)
Lemma joined_line_fails base e bytes later event next :
  whole base -> chained_to_json e = Ok bytes -> al_file later = base ++ bytes ->
  AuditLogger.record WriteDone event later = (next, Ok tt) ->
  is_ok (AuditLogger.open (Ok tt) (Ok (Some (al_file next))) (Ok tt)) = false.
Proof.
  intros Hw Hb Hf (hash & bytes' & Hh & Hb' & ->)%record_done. unfold AuditLogger.open. cbn -[verify_lines]. rewrite Hf.
  pose proof (object_app _ _ (written_object _ _ Hb) (written_object _ _ Hb')) as Ho.
  rewrite <- app_assoc, lines_app by done. rewrite (app_assoc bytes), (proj2 (lines_object _ Ho)), verify_lines_snoc.
  destruct (verify_lines (lines base)) as [st|]; [|done]. cbn. unfold verify_line.
  destruct (from_utf8 _) as [text|] eqn:Eu; [|done]. apply from_utf8_ok in Eu as [-> _]. cbn.
  rewrite (object_not_blank _ Ho). pose proof (chained_trailing _ _ _ _ Hb Hb') as Ht.
  by destruct (chained_from_json _).
Qed.

End facts.

(** * Theorems *)

(** ** Round trip *)

(** C31: An audit log is opened as it was left.  After any events were recorded in a new
    log, opening its file verifies the chain and continues with the same sequence
    number and hash, and the lines of the file are the events in their order. *)
Theorem audit_reopens `{Sha256} `{AuditJson} events logger :
  mfor (AuditLogger.record WriteDone) events (mkAuditLogger [] first_link) = (logger, Ok tt) ->
  AuditLogger.open (Ok tt) (Ok (Some (al_file logger))) (Ok tt) = Ok logger /\
  logged (al_file logger) = events.
Proof.
  intros [Hi Hl]%(records_intact _ _ _ fresh_intact). split; [by apply intact_opens|exact Hl].
Qed.

(** ** Tampering *)

(** What verifying a file hashes. *)
Definition hashed `{AuditJson} (bytes : list byte) : list (list byte) := omap line_payload (lines bytes).

(** C20: Events cannot be changed under the same end of the chain.  Two files that both
    verify and end with the same sequence number and hash have the same events, in
    the same order, if SHA-256 gives different hashes to the different texts that are
    hashed when the two files are verified. *)
Theorem audit_tamper_evident `{Sha256} `{AuditJson} file file' chain :
  verify_existing_chain (Ok (Some file)) = Ok chain -> verify_existing_chain (Ok (Some file')) = Ok chain ->
  (forall a b, a ∈ hashed file -> b ∈ hashed file' -> sha256 a = sha256 b -> a = b) ->
  logged file = logged file'.
Proof. apply same_chain. Qed.

(** ** Writes that are cut off *)

(** A record without its line feed makes the log unreadable.  When a record was
    written up to its line feed and not further, the log can still be opened; but the
    next record, of the same or of a restarted server, is appended to the same line,
    and from then on the log cannot be opened.  (The server does not look at the
    outcome of a record, and does not start without its log.) *)
Theorem torn_record_blocks_start `{Sha256} `{AuditJson} logger event complete torn :
  intact logger -> AuditLogger.record WriteDone event logger = (complete, Ok tt) ->
  al_file complete = torn ++ [x0a] ->
  is_ok (AuditLogger.open (Ok tt) (Ok (Some torn)) (Ok tt)) = true /\
  forall later event' next,
    al_file later = torn -> AuditLogger.record WriteDone event' later = (next, Ok tt) ->
    is_ok (AuditLogger.open (Ok tt) (Ok (Some (al_file next))) (Ok tt)) = false.
Proof.
  intros Hi (hash & bytes & Hh & Hb & ->)%record_done Ht. cbn in Ht. rewrite app_assoc in Ht.
  apply app_inj_tail in Ht as [<- _]. split.
  - unfold AuditLogger.open. cbn -[verify_lines]. rewrite (lines_app _ _ (in_whole _ Hi)).
    rewrite (proj1 (lines_object _ (written_object _ _ Hb))). by rewrite (proj1 (intact_line _ _ _ _ Hi Hh Hb)).
  - intros later event' next Hf Hr. exact (joined_line_fails _ _ _ _ _ _ (in_whole _ Hi) Hb Hf Hr).
Qed.

(** ** Sample documents *)

#[export] Instance AuditEvent_eq_dec : EqDecision AuditEvent.
Proof. solve_decision. Defined.
#[export] Instance AuditEvent_countable : Countable AuditEvent.
Proof.
  refine (inj_countable (fun e => (ae_timestamp_ms e, ae_connection_id e, ae_latency_ms e, ae_details e,
            [ae_peer e; ae_username e; Some (ae_request_id e); Some (ae_opcode e); Some (ae_status e);
             ae_error_code e; Some (ae_event_type e)]))
            (fun '(a, b, i, k, fields) =>
               match fields with
               | [c; d; Some e; Some f; Some g; h; Some j] => Some (mkAuditEvent a b c d e f g h i j k)
               | _ => None
               end) _). by intros [].
Defined.
#[export] Instance HashPayload_eq_dec : EqDecision HashPayload.
Proof. solve_decision. Defined.
#[export] Instance HashPayload_countable : Countable HashPayload.
Proof.
  refine (inj_countable' (fun p => (hp_audit_version p, hp_sequence p, (hp_previous_hash p, hp_hash_algorithm p, hp_event p)))
            (fun '(a, b, (c, d, e)) => mkHashPayload a b c d e) _). by intros [].
Defined.
#[export] Instance ChainedAuditEvent_eq_dec : EqDecision ChainedAuditEvent.
Proof. solve_decision. Defined.
#[export] Instance ChainedAuditEvent_countable : Countable ChainedAuditEvent.
Proof.
  refine (inj_countable' (fun e => (ca_audit_version e, ca_sequence e,
            (ca_previous_hash e, ca_event_hash e, ca_hash_algorithm e, ca_event e)))
            (fun '(a, b, (c, d, e, f)) => mkChainedAuditEvent a b c d e f) _). by intros [].
Defined.

(** Braces around the encoding. *)
Definition braces (bytes : list byte) : list byte := x7b :: (bytes ++ [x7d]).
Definition unbraced (bytes : list byte) : list byte := removelast (tail bytes).

Lemma unbraced_braces bytes : unbraced (braces bytes) = bytes.
Proof. apply removelast_last. Qed.

Lemma pos_bytes_small p b : b ∈ pos_bytes p -> bval b <= 2.
Proof. revert b. induction p; intros b; cbn; rewrite ?elem_of_cons, ?elem_of_nil; intros; destruct_or!; subst; try done; auto. Qed.

Lemma bytes_pos_brace a b : bytes_pos (a ++ x7d :: b) = None.
Proof.
  induction a as [|x a IH]; [done|]. cbn. rewrite IH. destruct x; try done. by destruct a.
Qed.

#[export] Instance sample_audit_json : AuditJson.
Proof.
  refine {|
    payload_to_json p := Ok (pos_bytes (encode p));
    chained_to_json e := Ok (braces (pos_bytes (encode e)));
    chained_from_json s := countable_decode (unbraced (as_bytes s));
  |}.
  - intros p q bytes [= <-] [= Hpq]. apply (f_equal bytes_pos) in Hpq. rewrite !bytes_pos_bytes in Hpq.
    by injection Hpq as ->%encode_inj.
  - intros e bytes [= <-]. rewrite as_bytes_of_bytes, unbraced_braces. by apply countable_round_trip.
  - intros e bytes [= <-].
    assert (Forall (fun b => bval b < 128 /\ b <> x0a) (braces (pos_bytes (encode e)))) as Hall.
    { unfold braces. constructor; [done|]. apply Forall_app. split; [|by repeat constructor].
      apply Forall_forall. intros b Hb%pos_bytes_small. split; [lia|]. by intros ->. }
    split; [by eexists|]. split.
    + intros Hin. rewrite Forall_forall in Hall. by destruct (Hall _ Hin).
    + rewrite <- (as_bytes_of_bytes (braces _)). apply ascii_string_ok. unfold ascii_string.
      rewrite as_bytes_of_bytes. eapply Forall_impl; [exact Hall|]. by intros b [Hb _].
  - intros e e' bytes bytes' [= <-] [= <-]. rewrite as_bytes_of_bytes. unfold unbraced, braces. cbn [app tail].
    rewrite <- app_assoc. cbn [app]. rewrite (app_comm_cons _ _ x7b), app_comm_cons, app_assoc, removelast_last.
    unfold countable_decode. by rewrite bytes_pos_brace.
Defined.

Section runs.

#[local] Instance rolling_hash : Sha256 :=
  fun bytes => to_le 2 (foldl (fun h b => (h * 31 + bval b) mod 65521) 7 bytes).

Definition event_of (opcode : string) : AuditEvent :=
  mkAuditEvent 1 2 (Some "127.0.0.1:1"%string) (Some "alice"%string) "id" opcode "ok" None 3 "command" ∅.
Definition log_of (events : list AuditEvent) : AuditLogger :=
  (mfor (AuditLogger.record WriteDone) events (mkAuditLogger [] first_link)).1.

Lemma log_of_ok events :
  is_ok (mfor (AuditLogger.record WriteDone) events (mkAuditLogger [] first_link)).2 = true ->
  mfor (AuditLogger.record WriteDone) events (mkAuditLogger [] first_link) = (log_of events, Ok tt).
Proof. unfold log_of. by destruct (mfor _ _ _) as [logger [[]|]]. Qed.

Definition two_events : list AuditEvent := [event_of "GET"; event_of "SET"].

Lemma audit_reopens_witness :
  AuditLogger.open (Ok tt) (Ok (Some (al_file (log_of two_events)))) (Ok tt) = Ok (log_of two_events) /\
  logged (al_file (log_of two_events)) = two_events.
Proof. apply audit_reopens. apply log_of_ok. vm_compute. reflexivity. Defined.

(** The same log without its last line feed, and one whose first event was changed: its
    chain does not end like that of the log. *)
Definition changed_events : list AuditEvent := [event_of "DEL"; event_of "SET"].

Lemma audit_tamper_evident_witness :
  logged (al_file (log_of two_events)) = logged (removelast (al_file (log_of two_events))) /\
  verify_existing_chain (Ok (Some (al_file (log_of changed_events)))) <> Ok (al_chain (log_of two_events)).
Proof.
  assert (forall events, forallb (fun '(a, b) => bool_decide (sha256 a = sha256 b -> a = b))
    (list_prod (hashed (al_file (log_of two_events))) (hashed events)) = true ->
    forall a b, a ∈ hashed (al_file (log_of two_events)) -> b ∈ hashed events -> sha256 a = sha256 b -> a = b) as Hfree.
  { intros events Hall a b Ha%list_elem_of_In Hb%list_elem_of_In. rewrite forallb_forall in Hall.
    specialize (Hall (a, b) (in_prod _ _ _ _ Ha Hb)). cbn in Hall. by apply bool_decide_eq_true in Hall. }
  split.
  - apply (audit_tamper_evident _ _ (al_chain (log_of two_events))); [vm_compute; reflexivity..|].
    apply Hfree. vm_compute. reflexivity.
  - intros Hsame. pose proof (audit_tamper_evident (al_file (log_of two_events)) (al_file (log_of changed_events))
      (al_chain (log_of two_events))) as Ht.
    assert (logged (al_file (log_of two_events)) = logged (al_file (log_of changed_events))) as Hl.
    { apply Ht; [vm_compute; reflexivity|exact Hsame|]. apply Hfree. vm_compute. reflexivity. }
    vm_compute in Hl. discriminate Hl.
Defined.

Definition torn_file : list byte := removelast (al_file (log_of [event_of "GET"])).

Lemma torn_record_blocks_start_witness :
  is_ok (AuditLogger.open (Ok tt) (Ok (Some torn_file)) (Ok tt)) = true /\
  forall later event' next,
    al_file later = torn_file -> AuditLogger.record WriteDone event' later = (next, Ok tt) ->
    is_ok (AuditLogger.open (Ok tt) (Ok (Some (al_file next))) (Ok tt)) = false.
Proof.
  apply (torn_record_blocks_start (mkAuditLogger [] first_link) (event_of "GET") (log_of [event_of "GET"])).
  - apply fresh_intact.
  - assert (is_ok (AuditLogger.record WriteDone (event_of "GET") (mkAuditLogger [] first_link)).2 = true) as Hok
      by (vm_compute; reflexivity).
    unfold log_of. cbn [mfor]. unfold mbind, fallible_bind.
    by destruct (AuditLogger.record _ _ _) as [logger [[]|]].
  - assert (last (al_file (log_of [event_of "GET"])) = Some x0a) as Hlast by (vm_compute; reflexivity).
    unfold torn_file. apply last_Some in Hlast as [rest Hrest]. by rewrite Hrest, removelast_last.
Defined.

End runs.

