(* ===== verification/ServerTheorems.v ===== *)
(** * ServerTheorems: requests inside a server

    The thread that owns the engine answers every request once, and a batch of writes
    of several clients fails for the log only. *)

From S2P Require Import Prelude Text Command Wire Request Response EngineError Store State Crypto.
From S2P Require Import ServerError Wal WalFacts WalLayout Engine Transaction TxFacts BatchFacts.
From S2P Require Import Backup Replication DiskLog Recovery Storage DiskEngine EngineWorker WorkerQueue.
From S2P Require Import Samples Runs.

(** * No request to the engine thread is lost

    How draining splits the channel, that a batch answers each of its requests, and
    that a turn of the loop moves requests from the queue to the replies. *)

(** ** Draining *)

Notation ids := (fmap (M := list) respond_to).

(** What was in the channel is in the batch or still queued; the batch comes before
    the request that ended it, which comes before the rest. *)
Lemma drain_split term receiver pending batch receiver' pending' batch' :
  drain_write_batch term receiver pending batch = (receiver', pending', batch') ->
  exists taken stopped,
    batch' = batch ++ taken /\ pending' = pending ++ stopped /\ (length stopped <= 1)%nat /\
    receiver = (ReqExecute <$> taken) ++ stopped ++ receiver' /\
    (length taken + length batch <= Nat.max MAX_WRITE_BATCH (length batch))%nat.
Proof.
  revert batch. induction receiver as [|r receiver IH]; intros batch; cbn [drain_write_batch];
    destruct (Nat.ltb_spec (length batch) MAX_WRITE_BATCH) as [Hlt|Hge].
  1,2,4: intros [= <- <- <-]; exists [], []; rewrite !app_nil_r; split_and!; try done; cbn; lia.
  assert (forall x, (receiver, pending ++ [x], batch) = (receiver', pending', batch') ->
    exists taken stopped, batch' = batch ++ taken /\ pending' = pending ++ stopped /\
      (length stopped <= 1)%nat /\ x :: receiver = (ReqExecute <$> taken) ++ stopped ++ receiver' /\
      (length taken + length batch <= Nat.max MAX_WRITE_BATCH (length batch))%nat) as Hstop.
  { intros x [= <- <- <-]. exists [], [x]. rewrite app_nil_r. split_and!; try done; cbn; lia. }
  destruct r as [execute| | | | | | | | | | | | | | |]; try apply Hstop.
  destruct (_ && _); [|apply Hstop]. intros (taken & stopped & -> & -> & Hs & -> & Hl)%IH.
  exists (execute :: taken), stopped. rewrite <- app_assoc. split_and!; try done.
  rewrite length_app in Hl. cbn in *. lia.
Qed.

(** What a batch takes are writes that can be batched, of the batch's term. *)
Definition batch_member (term : Z) (execute : PendingExecute) : Prop :=
  is_batchable_engine_write (pe_command execute) = true /\ pe_consensus_term execute = term.

Lemma drain_members term receiver pending batch receiver' pending' batch' :
  drain_write_batch term receiver pending batch = (receiver', pending', batch') ->
  Forall (batch_member term) batch -> Forall (batch_member term) batch'.
Proof.
  revert batch. induction receiver as [|r receiver IH]; intros batch; cbn [drain_write_batch];
    destruct (Nat.ltb (length batch) MAX_WRITE_BATCH); try by intros [= <- <- <-].
  destruct r as [execute| | | | | | | | | | | | | | |]; try by intros [= <- <- <-].
  destruct (_ && _) eqn:E; [|by intros [= <- <- <-]]. apply andb_prop in E as [Et%Z.eqb_eq Eb].
  intros Hd Hb. apply (IH _ Hd), Forall_app. split; [done|]. by constructor.
Qed.

(** ** Batches *)

Section worker.
Context `{Crc32} `{CryptoLib} `{Binary WalEntry} `{Binary Manifest} `{Binary StoredKeyring}
  `{SnapshotCodec} `{NonceSource} `{Base64} `{BackupJson} (uuid_to_string : list byte -> string).

Lemma batch_step_results term now b c b' :
  Transaction.batch_step term now b c = Ok b' -> length (bs_results b') = S (length (bs_results b)).
Proof.
  unfold Transaction.batch_step. destruct (evaluate_transaction_command _ _ _) as [[st [|op ops]] [r|e]];
    intros [= <-]; cbn; rewrite length_app; cbn; lia.
Qed.

Lemma batch_results term now b cs b' :
  foldM (Transaction.batch_step term now) b cs = Ok b' ->
  length (bs_results b') = (length (bs_results b) + length cs)%nat.
Proof.
  revert b. induction cs as [|c cs IH]; intros b Hf; cbn in Hf; [injection Hf as <-; cbn; lia|].
  apply result_bind_ok in Hf as (b1 & Hb1 & Hf). apply IH in Hf. apply batch_step_results in Hb1. cbn. lia.
Qed.

Lemma execute_command_batch_results {W} `{WalWriter W} `{EntryChecksum} now cs (eng eng' : Engine W) rs :
  Transaction.execute_command_batch now cs eng = (eng', Ok rs) -> length rs = length cs.
Proof.
  unfold Transaction.execute_command_batch. intros (e1 & n & _ & Hx)%fallible_bind_ok.
  apply fallible_bind_ok in Hx as (? & ? & [= <- <-] & Hx).
  destruct (foldM _ _ cs) as [b|[st e]] eqn:Ef.
  - apply batch_results in Ef. cbn in Ef. apply fallible_bind_ok in Hx as (e2 & [] & _ & Hx).
    destruct (bs_entries b); [by injection Hx as _ <-|].
    apply fallible_bind_ok in Hx as (? & ? & _ & Hx). apply fallible_bind_ok in Hx as (? & [] & _ & Hx).
    apply fallible_bind_ok in Hx as (? & [] & _ & Hx). by injection Hx as _ <-.
  - apply fallible_bind_ok in Hx as (? & [] & _ & Hx). done.
Qed.

Lemma run_write_batch_replies now term batch de :
  length (run_write_batch now term batch de).2 = length batch.
Proof.
  unfold run_write_batch.
  match goal with |- context [match ?m with (_, _) => _ end] => destruct m as [de' [rs|e]] eqn:Er end.
  - apply fallible_bind_ok in Er as (d1 & [] & _ & Er). unfold core, call, on_core in Er.
    destruct (Transaction.execute_command_batch _ _ _) as [c [rs'|]] eqn:Eb; [|done]. injection Er as <- <-.
    apply execute_command_batch_results in Eb. cbn. rewrite length_zip_with, Eb, !length_fmap. lia.
  - destruct batch; [done|]. cbn. by rewrite length_fmap.
Qed.

(** ** Turns *)

Notation turn := (turn uuid_to_string).

Definition queued (w : Worker) : list EngineRequest := wk_pending w ++ wk_receiver w.
Definition answered (w : Worker) : list nat := fst <$> wk_sent w.

Lemma process_write_batch_ids i late first (w : Worker) :
  answered (process_write_batch i late first w) ++ ids (queued (process_write_batch i late first w)) ≡ₚ
  answered w ++ pe_respond_to first :: ids (queued w ++ late) /\
  (length (answered w) < length (answered (process_write_batch i late first w)))%nat.
Proof.
  unfold process_write_batch.
  destruct (drain_write_batch _ _ _ _) as [[receiver1 pending1] batch1] eqn:E1.
  apply drain_split in E1 as (taken1 & stopped1 & -> & -> & _ & Hr1 & _).
  match goal with |- context [if ?c then ?x else ?y] =>
    destruct (if c then x else y) as [[receiver2 pending2] batch2] eqn:E2 end.
  assert (exists taken2 stopped2, batch2 = ([first] ++ taken1) ++ taken2 /\
    pending2 = (wk_pending w ++ stopped1) ++ stopped2 /\
    receiver1 ++ late = (ReqExecute <$> taken2) ++ stopped2 ++ receiver2) as (taken2 & stopped2 & -> & -> & Hr2).
  { destruct (_ && _).
    - apply drain_split in E2 as (taken2 & stopped2 & -> & -> & _ & Hr & _). by exists taken2, stopped2.
    - injection E2 as <- <- <-. exists [], []. by rewrite !app_nil_r. }
  destruct (run_write_batch _ _ _ _) as [de' replies] eqn:Er.
  pose proof (run_write_batch_replies (ci_now_ms i) (pe_consensus_term first)
    ((fun e => (pe_request_id e, pe_command e)) <$> ([first] ++ taken1) ++ taken2) (wk_engine w)) as Hlen.
  rewrite Er, length_fmap in Hlen. cbn [snd] in Hlen.
  unfold answered, queued. cbn [wk_sent wk_pending wk_receiver].
  rewrite fmap_app, fst_zip by (rewrite !length_fmap, Hlen; lia).
  split; [|rewrite !length_app, !length_fmap, !length_app; cbn; lia].
  rewrite Hr1, <- !app_assoc, Hr2. cbn [app]. rewrite ?fmap_cons, ?fmap_app.
  cbn [app]. apply Permutation_app_head, Permutation_cons; [done|].
  rewrite <- !list_fmap_compose. change (respond_to ∘ ReqExecute) with pe_respond_to.
  rewrite (Permutation_app_swap_app (ids stopped1) (pe_respond_to <$> taken2)).
  rewrite !(Permutation_app_swap_app (ids (wk_pending w))). by rewrite <- !app_assoc.
Qed.

(** The batch that is formed, and what is done with it. *)
Lemma process_write_batch_forms i late first (w : Worker) :
  is_batchable_engine_write (pe_command first) = true ->
  exists batch de' replies,
    ReqExecute <$> batch `sublist_of` ReqExecute first :: wk_receiver w ++ late /\
    head batch = Some first /\ (length batch <= MAX_WRITE_BATCH)%nat /\
    Forall (batch_member (pe_consensus_term first)) batch /\
    run_write_batch (ci_now_ms i) (pe_consensus_term first)
      ((fun execute => (pe_request_id execute, pe_command execute)) <$> batch) (wk_engine w) = (de', replies) /\
    wk_sent (process_write_batch i late first w) =
      wk_sent w ++ zip (pe_respond_to <$> batch) (RepExecute <$> replies) /\
    wk_engine (process_write_batch i late first w) = de'.
Proof.
  intros Hfirst. unfold process_write_batch.
  destruct (drain_write_batch _ _ _ _) as [[receiver1 pending1] batch1] eqn:E1.
  pose proof (drain_members _ _ _ _ _ _ _ E1) as Hm1.
  apply drain_split in E1 as (taken1 & stopped1 & -> & -> & _ & Hr1 & Hl1).
  match goal with |- context [if ?c then ?x else ?y] =>
    destruct (if c then x else y) as [[receiver2 pending2] batch2] eqn:E2 end.
  assert (exists taken2 stopped2, batch2 = ([first] ++ taken1) ++ taken2 /\
    Forall (batch_member (pe_consensus_term first)) batch2 /\ (length batch2 <= MAX_WRITE_BATCH)%nat /\
    receiver1 ++ late = (ReqExecute <$> taken2) ++ stopped2 ++ receiver2) as (taken2 & stopped2 & -> & Hm2 & Hl2 & Hr2).
  { assert (Forall (batch_member (pe_consensus_term first)) ([first] ++ taken1)) as Hm
      by (apply Hm1; by repeat constructor).
    destruct (_ && _).
    - pose proof (drain_members _ _ _ _ _ _ _ E2 Hm) as Hm2.
      apply drain_split in E2 as (taken2 & stopped2 & -> & -> & _ & Hr & Hl2). exists taken2, stopped2.
      split_and!; try done. rewrite !length_app in *. unfold MAX_WRITE_BATCH in *. cbn in *. lia.
    - injection E2 as <- <- <-. exists [], []. rewrite !app_nil_r. split_and!; try done.
      unfold MAX_WRITE_BATCH in *. cbn in *. lia. }
  destruct (run_write_batch _ _ _ _) as [de' replies] eqn:Er.
  exists (([first] ++ taken1) ++ taken2), de', replies. split_and!; try done.
  rewrite Hr1, <- !app_assoc. cbn. apply sublist_skip. rewrite fmap_app. apply sublist_app; [done|].
  apply sublist_inserts_l. rewrite Hr2. by apply sublist_inserts_r.
Qed.

Lemma serve_one_ids i late request (w : Worker) :
  answered (serve_one uuid_to_string i late request w) ++ ids (queued (serve_one uuid_to_string i late request w)) =
  answered w ++ respond_to request :: ids (queued w ++ late) /\
  (length (answered w) < length (answered (serve_one uuid_to_string i late request w)))%nat.
Proof.
  unfold serve_one. destruct (serve _ _ _ _) as [e reply]. unfold answered, queued. cbn.
  rewrite fmap_app, length_app, <- !app_assoc. cbn. split; [done|lia].
Qed.

Lemma handle_request_ids i late request (w : Worker) :
  let w' := handle_request uuid_to_string i late request w in
  answered w' ++ ids (queued w') ≡ₚ answered w ++ respond_to request :: ids (queued w ++ late) /\
  (length (answered w) < length (answered w'))%nat.
Proof.
  cbv zeta. pose proof (serve_one_ids i late request w) as [Hs1 Hs2]. unfold handle_request.
  destruct request as [execute| | | | | | | | | | | | | | |]; try (split; [by rewrite Hs1|done]).
  destruct (is_batchable_engine_write _); [apply process_write_batch_ids|]. split; [by rewrite Hs1|done].
Qed.

Lemma turn_ids i late (w : Worker) :
  answered (turn i late w) ++ ids (queued (turn i late w)) ≡ₚ answered w ++ ids (queued w ++ late) /\
  (queued w <> [] -> (length (answered w) < length (answered (turn i late w)))%nat).
Proof.
  unfold turn. destruct w as [engine receiver pending sent]. cbn [wk_pending wk_receiver wk_engine wk_sent].
  destruct pending as [|request pending]; [destruct receiver as [|request receiver]; [done|]|].
  - destruct (handle_request_ids i late request (mkWorker engine receiver [] sent)) as [Hi Hl]. done.
  - destruct (handle_request_ids i late request (mkWorker engine receiver pending sent)) as [Hi Hl]. done.
Qed.

(** Every request is answered once, after at most as many turns as there are requests. *)
Lemma turns_answer inputs (w : Worker) :
  (length (queued w) <= length inputs)%nat ->
  queued (turns uuid_to_string inputs w) = [] /\
  answered (turns uuid_to_string inputs w) ≡ₚ answered w ++ ids (queued w).
Proof.
  revert w. induction inputs as [|i inputs IH]; intros w Hl; cbn [turns].
  { cbn in Hl. assert (queued w = []) as Hq by (apply nil_length_inv; lia). by rewrite Hq, app_nil_r. }
  destruct (turn_ids i [] w) as [Hids Hmore]. rewrite app_nil_r in Hids.
  pose proof (Permutation_length Hids) as Hlen. rewrite !length_app, !length_fmap in Hlen.
  destruct (IH (turn i [] w)) as [Hq Hp].
  - destruct (queued w) as [|r q] eqn:Eq; [cbn in Hlen|].
    + unfold turn. unfold queued in *. apply app_eq_nil in Eq as [E1 E2]. rewrite E1, E2. cbn. lia.
    + specialize (Hmore ltac:(done)). unfold answered in *. rewrite !length_fmap in *. cbn in *. lia.
  - split; [done|]. by rewrite Hp.
Qed.

(** ** Batches do not mix failures *)

(** The evaluation of a command that is batched does not fail. *)
Lemma batchable_evaluates now c t :
  is_batchable_engine_write c = true -> exists r, (evaluate_transaction_command now c t).2 = Ok r.
Proof.
  unfold evaluate_transaction_command. destruct (eval_purge now t) as [st ops] eqn:Ep. intros Hc.
  destruct c; try done; cbn [fst snd];
    unfold eval_get_del, eval_get_ex, eval_set, eval_set_nx, eval_expire, eval_persist, eval_rename, eval_clear;
    repeat case_match; simplify_eq/=; try by eexists.
Qed.

Lemma batchable_step term now b c :
  is_batchable_engine_write c = true -> exists b', Transaction.batch_step term now b c = Ok b'.
Proof.
  intros Hc. unfold Transaction.batch_step. destruct (batchable_evaluates now c (bs_state b, []) Hc) as [r Hr].
  destruct (evaluate_transaction_command _ _ _) as [[st [|op ops]] res]; cbn in Hr; subst res; by eexists.
Qed.

Lemma batchable_loop term now b cs :
  Forall (fun c => is_batchable_engine_write c = true) cs ->
  exists b', foldM (Transaction.batch_step term now) b cs = Ok b'.
Proof.
  intros Hcs. revert b. induction Hcs as [|c cs Hc _ IH]; intros b; [by eexists|].
  destruct (batchable_step term now b c Hc) as [b1 Hb1]. cbn. rewrite Hb1. apply IH.
Qed.

(** A batch of such commands fails exactly when the log does not take its entries. *)
Lemma batchable_batch_outcome {W} `{WalWriter W} `{EntryChecksum} now cs (eng eng' : Engine W) r :
  0 <= now < u64_max -> Forall command_typed cs ->
  Forall (fun c => is_batchable_engine_write c = true) cs -> (forall e, is_ok (checksum e) = true) ->
  0 <= last_sequence (en_state eng) -> last_sequence (en_state eng) + 1 + Z.of_nat (length cs) <= u64_max ->
  Transaction.execute_command_batch now cs eng = (eng', r) ->
  let entries := batch_entries now (en_current_consensus_term eng) (last_sequence (en_state eng))
                   (command_operations now cs (purge_state now (en_state eng))) in
  match entries, (wal_append_batch (en_wal_writer eng) entries).2 with
  | _ :: _, Err err => r = Err err
  | _, _ => is_ok r = true
  end.
Proof.
  intros Hnow Hty Hcs Hsum Hs1 Hs2. unfold Transaction.execute_command_batch.
  unfold mbind at 1, fallible_bind at 1. rewrite purge_run.
  unfold mbind at 1, fallible_bind at 1, Prelude.mget. cbn [en_state Engine.with_state en_current_consensus_term].
  rewrite <- (purge_state_sequence now) in *. pose proof (purge_state_purges now (en_state eng)) as Hp.
  set (st0 := purge_state now (en_state eng)) in *. set (term := en_current_consensus_term eng).
  destruct (batchable_loop term now (Transaction.batch_start st0) cs Hcs) as [b Hb]. rewrite Hb.
  assert (we_sequence <$> bs_entries b = seqZ (start_sequence st0 + 1) (Z.of_nat (length (bs_entries b)))) as Hsq.
  { apply (batch_loop_inv now term Hnow st0 Hp cs b Hty); [..|done]; unfold is_u64, start_sequence; lia. }
  apply (batch_loop_entries now term Hnow cs _ b st0) in Hb
    as [He _]; [|done|done|done|done|cbn; unfold saturating_add; lia|done].
  cbn [Transaction.batch_start bs_entries bs_visible_sequence app] in He. cbv zeta. rewrite <- He. clear He.
  unfold mbind at 1, fallible_bind at 1, Engine.modify_state.
  destruct (bs_entries b) as [|entry entries]; [by intros [= _ <-]|].
  destruct (build_identities_total (entry :: entries) Hsum) as [identities Hids].
  { rewrite Hsq. apply NoDup_seqZ. }
  unfold mbind, fallible_bind, mpure. rewrite Hids.
  unfold Transaction.append_or_rollback, Engine.append_batch. cbn [en_wal_writer Engine.with_state].
  destruct (wal_append_batch _ _) as [w [[]|e]]; by intros [= _ <-].
Qed.

(** The entries that a batch is to log. *)
Definition logged_by (now term : Z) (cs : list Command) (st : EngineState) : list WalEntry :=
  batch_entries now term (last_sequence st) (command_operations now cs (purge_state now st)).

Lemma run_write_batch_outcome now term (batch : list (Uuid * Command)) de de' replies :
  (forall e : WalEntry, is_ok (binary_encode e) = true) ->
  0 <= now < u64_max -> Forall command_typed batch.*2 ->
  Forall (fun c => is_batchable_engine_write c = true) batch.*2 ->
  0 <= last_sequence (de_state de) -> last_sequence (de_state de) + 1 + Z.of_nat (length batch) <= u64_max ->
  run_write_batch now term batch de = (de', replies) ->
  let entries := logged_by now term batch.*2 (de_state de) in
  match entries, (wal_append_batch (de_log de) entries).2 with
  | _ :: _, Err err =>
      replies = Err (SrvEngine err) :: ((fun _ => Err SrvEngineWorkerClosed) <$> tail batch)
  | _, _ => exists working operations results,
      evaluate_commands now batch.*2 [] (purge_state now (de_state de), []) =
        ((working, operations), Ok (cb_result <$> results)) /\
      es_store (de_state de') = es_store working /\ replies = zip_with (batch_reply de') batch.*1 results
  end.
Proof.
  intros Htot Hnow Hty Hcs H0' Hb. unfold run_write_batch, mbind, fallible_bind, set_consensus_term, core, call, on_core.
  cbn [Engine.set_consensus_term Prelude.mmodify]. set (eng := mkEngine _ _ _ _ term).
  destruct (Transaction.execute_command_batch now batch.*2 _) as [eng' r] eqn:Ex. cbn [from_engine map_err].
  pose proof (batchable_batch_outcome now batch.*2 eng eng' r Hnow Hty Hcs (checksum_total Htot) H0') as Ho.
  rewrite length_fmap in Ho. specialize (Ho Hb Ex). cbv zeta in Ho |- *.
  change (batch_entries _ _ _ _) with (logged_by now term batch.*2 (de_state de)) in Ho.
  change (en_wal_writer eng) with (de_log de) in Ho.
  assert (is_ok r = true -> exists working operations results, r = Ok results /\
    evaluate_commands now batch.*2 [] (purge_state now (de_state de), []) =
      ((working, operations), Ok (cb_result <$> results)) /\ es_store (en_state eng') = es_store working) as Hok.
  { destruct r as [results|]; [intros _|done].
    destruct (execute_command_batch_spec now batch.*2 eng eng' (Ok results) Hnow Hty (checksum_total Htot))
      as (entries & working & _ & _ & _ & _ & Hev & Hst);
      [split; [done|]; unfold de_state in *; cbn; lia
      |rewrite length_fmap; split; unfold de_state in *; cbn; lia|done|].
    by exists working, (mjoin (we_operations <$> entries)), results. }
  destruct (logged_by now term batch.*2 (de_state de)) as [|entry entries] eqn:El.
  { destruct (Hok Ho) as (working & operations & results & -> & ? & ?). intros [= <- <-]. by eexists _, _, _. }
  destruct (wal_append_batch _ _).2 as [u|err].
  { destruct (Hok Ho) as (working & operations & results & -> & ? & ?). intros [= <- <-]. by eexists _, _, _. }
  subst r. intros [= <- <-]. by destruct batch.
Qed.

End worker.

(** * Theorems *)

(** ** The engine thread *)

(** C19: the engine thread answers every request exactly once.  After at most as many
    turns of its loop as there are requests queued, whatever they are and however
    writes are batched, the queue is empty and every reply channel of the queue has
    got one reply behind those sent before. *)
Theorem worker_answers_all `{Crc32} `{CryptoLib} `{Binary WalEntry} `{Binary Manifest} `{Binary StoredKeyring}
    `{SnapshotCodec} `{NonceSource} `{Base64} `{BackupJson} (uuid_to_string : list byte -> string) inputs w :
  (length (queued w) <= length inputs)%nat ->
  queued (turns uuid_to_string inputs w) = [] /\
  answered (turns uuid_to_string inputs w) ≡ₚ answered w ++ (respond_to <$> queued w).
Proof. apply turns_answer. Qed.

(** Three writes with a question about the log between them. *)
Definition write_request (key : string) (to : nat) : EngineRequest :=
  ReqExecute (mkPendingExecute (replicate 16 x00) 1 (CmdSet key (as_bytes "1") SetOptions_default) to).
Definition busy_worker : Worker :=
  mkWorker run1
    [write_request "a" 0; write_request "b" 1; ReqWalEntryTerm 1 2; write_request "c" 3] [] [].
Definition worker_inputs : list CommandInputs := replicate 4 (mkCommandInputs 5 5 5 (inputs_at 5)).

Lemma worker_answers_all_witness :
  (length (queued busy_worker) <= length worker_inputs)%nat /\
  answered (turns (fun _ => EmptyString) worker_inputs busy_worker) ≡ₚ [0; 1; 2; 3]%nat /\
  wk_sent (turns (fun _ => EmptyString) worker_inputs busy_worker) !! 2%nat = Some (2%nat, RepField (Ok (Some 1))).
Proof.
  assert (length (queued busy_worker) <= length worker_inputs)%nat as Hl by (vm_compute; lia).
  split; [exact Hl|]. split; [|vm_compute; reflexivity].
  exact (proj2 (worker_answers_all (fun _ => EmptyString) worker_inputs busy_worker Hl)).
Defined.

(** C22: writes that share a batch do not fail each other.  The batch that the thread forms
    around a write takes writes that wait in the channel, in their order and at most 64,
    all of them batchable and of the same term.  It fails exactly when the log does not
    take the entries of its own commands, and then with the error of the log: no command
    of the batch is the reason.  Otherwise every client gets the reply to its own command,
    as the commands give them one after another. *)
Theorem batched_writes_independent `{Crc32} `{CryptoLib} `{Binary WalEntry} `{Binary Manifest}
    `{Binary StoredKeyring} `{SnapshotCodec} `{NonceSource} `{Base64} `{BackupJson} i late first (w : Worker) :
  (forall e : WalEntry, is_ok (binary_encode e) = true) ->
  0 <= ci_now_ms i < u64_max -> is_batchable_engine_write (pe_command first) = true ->
  (forall e, ReqExecute e ∈ ReqExecute first :: wk_receiver w ++ late -> command_typed (pe_command e)) ->
  0 <= last_sequence (de_state (wk_engine w)) ->
  last_sequence (de_state (wk_engine w)) + 1 + Z.of_nat MAX_WRITE_BATCH <= u64_max ->
  let w' := process_write_batch i late first w in
  exists batch replies,
    ReqExecute <$> batch `sublist_of` ReqExecute first :: wk_receiver w ++ late /\
    head batch = Some first /\ (length batch <= MAX_WRITE_BATCH)%nat /\
    Forall (batch_member (pe_consensus_term first)) batch /\
    wk_sent w' = wk_sent w ++ zip (pe_respond_to <$> batch) (RepExecute <$> replies) /\
    let st := de_state (wk_engine w) in
    let entries := logged_by (ci_now_ms i) (pe_consensus_term first) (pe_command <$> batch) st in
    match entries, (wal_append_batch (de_log (wk_engine w)) entries).2 with
    | _ :: _, Err err =>
        replies = Err (SrvEngine err) :: ((fun _ => Err SrvEngineWorkerClosed) <$> tail batch)
    | _, _ => exists working operations results,
        evaluate_commands (ci_now_ms i) (pe_command <$> batch) [] (purge_state (ci_now_ms i) st, []) =
          ((working, operations), Ok (cb_result <$> results)) /\
        es_store (de_state (wk_engine w')) = es_store working /\
        replies = zip_with (batch_reply (wk_engine w')) (pe_request_id <$> batch) results
    end.
Proof.
  intros Htot Hnow Hfirst Hty H0' Hb. cbv zeta.
  destruct (process_write_batch_forms i late first w Hfirst)
    as (batch & de' & replies & Hsub & Hhead & Hlen & Hmem & Hrun & Hsent & Heng).
  exists batch, replies. split_and!; try done. rewrite Heng.
  set (pairs := (fun execute => (pe_request_id execute, pe_command execute)) <$> batch) in *.
  assert (pairs.*2 = pe_command <$> batch) as E2 by (unfold pairs; by rewrite <- list_fmap_compose).
  assert (pairs.*1 = pe_request_id <$> batch) as E1 by (unfold pairs; by rewrite <- list_fmap_compose).
  assert (tail pairs = (fun execute => (pe_request_id execute, pe_command execute)) <$> tail batch) as Et
    by (unfold pairs; by destruct batch).
  pose proof (run_write_batch_outcome (ci_now_ms i) (pe_consensus_term first) pairs (wk_engine w) de' replies
    Htot Hnow) as Ho. rewrite E2, E1, Et in Ho. rewrite <- list_fmap_compose in Ho.
  apply Ho; [| |done| |done].
  - apply Forall_fmap, Forall_forall. intros e He. apply Hty. eapply elem_of_submseteq; [|by apply sublist_submseteq].
    by apply list_elem_of_fmap_2.
  - apply Forall_fmap. eapply Forall_impl; [exact Hmem|]. by intros e [].
  - unfold pairs. rewrite length_fmap. unfold MAX_WRITE_BATCH in *. lia.
Qed.

(** The writes of [busy_worker], and the same on a disk that is full. *)
Definition first_write : PendingExecute :=
  mkPendingExecute (replicate 16 x00) 1 (CmdSet "a" (as_bytes "1") SetOptions_default) 0.
Definition full_disk : Disk :=
  mkDisk (dk_wal (de_disk run1)) (dk_snapshot (de_disk run1)) (dk_manifest (de_disk run1))
    (dk_keyring (de_disk run1)) (dk_legacy_wal (de_disk run1)) (Some 0).
Definition full_engine : DiskEngine :=
  with_log run1 (mkDiskLog (DiskWriter.open full_disk SyncData 1000 1) None).
Definition channel : list EngineRequest := [write_request "b" 1; ReqWalEntryTerm 1 2; write_request "c" 3].
Definition batch_inputs : CommandInputs := mkCommandInputs 5 5 5 (inputs_at 5).

Lemma batched_writes_independent_witness :
  let w := mkWorker full_engine channel [] [] in
  let w' := process_write_batch batch_inputs [] first_write w in
  (exists batch replies, head batch = Some first_write /\ Forall (batch_member 1) batch /\
    wk_sent w' = zip (pe_respond_to <$> batch) (RepExecute <$> replies)) /\
  fst <$> wk_sent w' = [0; 1; 3]%nat /\
  exists err, snd <$> wk_sent w' =
    [RepExecute (Err (SrvEngine err)); RepExecute (Err SrvEngineWorkerClosed); RepExecute (Err SrvEngineWorkerClosed)].
Proof.
  intros w w'. split; [|split; [vm_compute; reflexivity|eexists; vm_compute; reflexivity]].
  destruct (batched_writes_independent batch_inputs [] first_write w) as (batch & replies & _ & Hh & _ & Hm & Hs & _).
  - exact sample_encode_total.
  - by vm_compute.
  - reflexivity.
  - intros e He%list_elem_of_In. cbn in He.
    destruct He as [[= <-]|[[= <-]|[E|[[= <-]|[]]]]]; by try discriminate E.
  - by vm_compute.
  - by vm_compute.
  - exists batch, replies. split; [exact Hh|]. split; [exact Hm|exact Hs].
Defined.
