(* ===== verification/ClientTheorems.v ===== *)
(** * ClientTheorems: the client and the server understand each other *)

From S2P Require Import Prelude Text Command Lexer Parser EngineError Store State Crypto Wal.
From S2P Require Import WalFacts WalLayout Opcode Wire Request Response PayloadFacts Frame.
From S2P Require Import ServerError ReadIndex Consensus Auth Access Status BackupFiles AuditLog.
From S2P Require Import Engine Transaction Backup Replication DiskLog Storage DiskEngine.
From S2P Require Import EngineWorker Node WritePath DiskHandle Dispatch Connection Client Samples.
From S2P Require Import Elections NodeRuns ReplicaDisk Runs NodeFacts AccessRuns AuditTheorems.
From S2P Require Import ClientFacts.

(** C14: Every command of the client that can be encoded gets an answer it can show, over any
    state of the connection: the answer carries the id of the request and a payload of the kind
    that the client decodes for this command.  What remains is that the server ends the
    connection, and texts that are not UTF-8. *)
Theorem client_understands_server `{Crc32} `{CryptoLib} `{Binary WalEntry} `{Binary Manifest} `{Binary StoredKeyring}
    `{SnapshotCodec} `{NonceSource} `{Base64} `{BackupJson} `{ReplicationJson} `{PasswordHash} `{AuthJson}
    `{Sha256} `{DumpJson} `{AuditJson} `{ReplicationWire} `{EntriesJson}
    (uuid_to_string : list byte -> string) config audit_commands ri cid peer transport output id c request conn printed :
  (forall entries, is_ok (entries_to_json_pretty entries) = true) ->
  command_typed c -> from_command id c = Ok request ->
  let exchange := remote uuid_to_string config audit_commands ri cid peer in
  let '((conn', printed'), r) := client_execute exchange transport output id c (conn, printed) in
  conn' = (handle_request uuid_to_string config audit_commands ri cid peer request conn).1 /\
  match r with
  | Ok _ => exists text, printed' = printed ++ [text]
  | Err (Raised (CliTransport TrnInvalidUtf8)) => printed' = printed
  | Err (Raised (CliTransport TrnUnexpectedEof)) =>
      exists err, (handle_request uuid_to_string config audit_commands ri cid peer request conn).2 = Err (Raised err)
  | Err _ => False
  end.
Proof.
  intros Hjson Ht Hc exchange. destruct (command_round_trip _ _ _ Ht Hc) as [Hid Hi].
  pose proof (handle_request_answers uuid_to_string config audit_commands ri cid peer _ _ Hi conn) as Ha.
  unfold client_execute, exchange, remote. rewrite Hc. cbn [map_err from_wire].
  unfold mbind at 1, fallible_bind at 1, mpure at 1. unfold mbind at 1, fallible_bind at 1, ask.
  destruct (handle_request _ _ _ _ _ _ _ conn) as [conn' [r|[err| |]]]; cbn in Ha; [| |done..].
  - cbn [from_wire]. rewrite Hid in Ha. rewrite bool_decide_eq_true_2 by apply Ha. cbn [negb].
    destruct (answers_shown Hjson _ _ _ output Ha) as [[text Ht']|Hu].
    + unfold mbind at 1, fallible_bind at 1, mpure. rewrite Ht'. cbn. eauto.
    + unfold mbind at 1, fallible_bind at 1, mpure. rewrite Hu. cbn. eauto.
  - cbn. eauto.
Qed.

(** *** A session with a standalone server *)

#[export] Instance sample_entries_json : EntriesJson := fun entries => Ok (render_table entries).

(** A type of which nothing, or one value, is ever written. *)
Definition no_json {A} : Json A.
Proof. by refine {| to_vec _ := Err "none"%string; from_slice _ := Err "none"%string |}. Defined.

#[export] Instance no_wire : ReplicationWire := {|
  rw_status := no_json; rw_snapshot := no_json; rw_entries := no_json; rw_fetch := no_json; rw_ack := no_json;
  rw_append := no_json; rw_appended := no_json; rw_install := no_json; rw_installed := no_json;
  rw_vote := no_json; rw_voted := no_json; rw_heartbeat := no_json; rw_beaten := no_json;
|}.

Definition request_at (ms : Z) : RequestInputs :=
  mkRequestInputs (call_at ms) (from_millis ms) ms (fun _ => 0) (fun _ => ms) (fun _ => WriteDone) (Ok tt).
Definition full_bucket : RateLimiter := RateLimiter.new 0 200 400.
Definition lone_connection : Conn := mkConn (lone_server (Some root)) (mkAuditLogger [] first_link) full_bucket.
Definition lone_exchange : CodecOptions -> Request -> Conn -> Conn * outcome TransportError Response :=
  remote (fun _ => EmptyString) no_guards false (request_at 5) 1 None.

Lemma client_understands_server_witness :
  exists conn text,
    client_execute lone_exchange CodecOptions_default OutPlain request_id (CmdGet "a") (lone_connection, []) =
      ((conn, [text]), Ok tt).
Proof.
  pose proof (client_understands_server (fun _ => EmptyString) no_guards false (request_at 5) 1 None
    CodecOptions_default OutPlain request_id (CmdGet "a") _ lone_connection []
    (fun _ => eq_refl) ltac:(vm_compute; reflexivity) eq_refl) as Hs.
  cbv zeta in Hs. change (remote _ _ _ _ _ _) with lone_exchange in Hs.
  assert (is_ok (client_execute lone_exchange CodecOptions_default OutPlain request_id (CmdGet "a")
    (lone_connection, [])).2 = true) as Hok by (vm_compute; reflexivity).
  destruct (client_execute _ _ _ _ _ _) as [[conn printed] [[]|]]; [|discriminate Hok].
  destruct Hs as [_ [text ->]]. exists conn, text. reflexivity.
Defined.

(** A LIST over a value that is not UTF-8 ends the session of the client: the other
    commands show such a value in hexadecimal, but LIST decodes texts, and the error leaves
    [run] instead of being shown. *)
Theorem list_ends_session :
  let binary := (lone_exchange CodecOptions_default
    (new_request request_id OpSet (ignore [] (written (encode_set "b" [xff] SetOptions_default)))) lone_connection).1 in
  let session (lines : list string) :=
    run (fun _ => EmptyString) lone_exchange (Ok tt) CodecOptions_default OutPlain
      ((fun line => RlLine line request_id) <$> lines) (binary, []) in
  (session ["get b"; "get a"]).1.2 = ["0xff"; "1"]%string /\
  (session ["list"; "get a"]).1.2 = [] /\
  (session ["list"; "get a"]).2 = Err (Raised (CliTransport TrnInvalidUtf8)).
Proof. vm_compute. split_and!; reflexivity. Qed.

(** The line editor does not accept every line that the parser does: it looks for the
    command up to the next blank, while the lexer also ends a word at a quote. *)
Theorem editor_refuses_command :
  let line := of_bytes (as_bytes "get" ++ [x22] ++ as_bytes "k" ++ [x22]) in
  parse line = Ok (CmdGet "k") /\ is_some (validate_line line) = true.
Proof. split; vm_compute; reflexivity. Qed.

(** A command is recorded after its response was written: with a client that is gone by then
    it takes effect without a record, also when every command is to be recorded. *)
Theorem unwritten_response_unaudited :
  let gone := (request_at 5) {{ ri_written := Err TrnUnexpectedEof }} in
  let send (opcode : Opcode) (payload : writer) :=
    handle_request (fun _ => EmptyString) no_guards true gone 1 None
      (new_request request_id opcode (ignore [] (written payload))) lone_connection in
  let stored := send OpSet (encode_set "b" [x31] SetOptions_default) in
  let created := send OpCreateUser (encode_key_value "eve" "eve-secret-12") in
  value_of "b" (nd_engine (sv_node (cn_server stored.1))) = Some "1"%string /\
  cn_audit stored.1 = cn_audit lone_connection /\ is_ok stored.2 = false /\
  match sv_auth (cn_server created.1) with
  | Some store => is_some (sa_users (as_stored store) !! "eve"%string) = true
  | None => False
  end /\
  cn_audit created.1 = cn_audit lone_connection /\ is_ok created.2 = false.
Proof. vm_compute. split_and!; reflexivity. Qed.

(** ** Servers as clients of each other *)

Section peers.
Context `{Crc32} `{CryptoLib} `{Binary WalEntry} `{Binary Manifest} `{Binary StoredKeyring}
  `{SnapshotCodec} `{NonceSource} `{Base64} `{BackupJson} `{ReplicationJson} `{PasswordHash} `{AuthJson}
  `{Sha256} `{DumpJson} `{AuditJson} `{ReplicationWire}
  (uuid_to_string : list byte -> string) (config : ServerConfig) (audit_commands : bool)
  (ids : nat -> Uuid) (inputs : Request -> RequestInputs) (options : CodecOptions) (server_id : Uuid).

(** A peer at the other end of the network, with the number of ids drawn so far; an
    error of the peer ends the connection. *)
Definition peer_network : Network (Conn * nat) := {|
  nw_fresh_id '(conn, n) := ((conn, S n), ids n);
  nw_connect _ w := (w, Ok tt);
  nw_greet _ hello w := (w, Ok (greet_client options server_id hello).1);
  nw_exchange _ transport request '(conn, n) :=
    match handle_request uuid_to_string config audit_commands (inputs request) 1 None request conn with
    | (conn, Ok response) => ((conn, n), Ok response)
    | (conn, Err _) => ((conn, n), Err TrnUnexpectedEof)
    end;
|}.

(** A request between servers that the guards of the connection let pass. *)
Lemma handle_internal id opcode payload ri conn :
  is_internal_replication_opcode opcode = true -> admitted ri conn = true -> ri_written ri = Ok tt ->
  Z.of_nat (length payload) <= sg_max_request_payload_bytes (sc_guards config) ->
  let request := new_request id opcode payload in
  handle_request uuid_to_string config audit_commands ri 1 None request conn =
    match process_internal_replication_request (ri_command ri) (ri_exported_ms ri) request (cn_server conn) with
    | (server, Ok response) => ((counted ri conn) {{ cn_server := server }}, Ok response)
    | (server, Err err) => refuse_server id err ((counted ri conn) {{ cn_server := server }})
    end.
Proof.
  intros Hi Ha Hw Hl request. unfold handle_request, validate_request, within_limit.
  unfold mbind, fallible_bind, mget, write_response, try, mpure, answered. rewrite andb_false_r.
  rewrite bool_decide_eq_false_2 by done. rewrite allow_counted, Ha, Hw. cbn [negb request new_request rq_payload rq_opcode rq_request_id].
  rewrite (proj2 (Z.ltb_ge _ _) Hl), Hi. cbn.
  destruct (process_internal_replication_request _ _ _ _) as [server [r|err]]; [done|].
  unfold response_of, refuse_server, refuse. by destruct (error_response _ _ _ _).
Qed.

Notation served := (handle_request uuid_to_string config audit_commands).

(** *** Requests that leave the node of the peer alone *)

Definition conn_node (conn : Conn) : Node DiskEngine := sv_node (cn_server conn).

Lemma error_status id code name text r : error_response id code name text = Ok r -> rs_status r = StatusError.
Proof.
  unfold error_response. destruct (Response.error _ _ _ _) eqn:Er; [intros [= <-]; revert Er|clear Er];
    unfold Response.error, Response.build; intros (? & _ & [= <-])%result_bind_ok; done.
Qed.

Lemma leaves_refuse id code name text :
  leaves conn_node (fun r => rs_status r = StatusError) (refuse id code name text).
Proof.
  unfold refuse. destruct (error_response _ _ _ _) eqn:Er; [by apply leaves_ret; eapply error_status|].
  by apply leaves_pure.
Qed.

Lemma leaves_audit f : leaves conn_node (fun _ => True) (audit f).
Proof. by apply leaves_modify. Qed.

Lemma leaves_allow ri : leaves conn_node (fun _ => True) (allow ri).
Proof. intros conn. by rewrite allow_counted. Qed.

Lemma leaves_refuse_audited ri id opcode code refusal :
  leaves conn_node (fun r => rs_status r = StatusError) refusal ->
  leaves conn_node (fun r => rs_status r = StatusError)
    (refuse_audited uuid_to_string ri 1 None id opcode code refusal).
Proof.
  intros Hr. unfold refuse_audited. eapply leaves_bind; [exact Hr|]. intros response Hs.
  eapply leaves_bind; [by apply (leaves_pure _ (fun _ => True))|]. intros _ _.
  eapply leaves_bind; [apply leaves_get|]. intros conn _.
  eapply leaves_bind; [apply leaves_audit|]. intros _ _. by apply leaves_ret.
Qed.

Lemma leaves_answered {A} (m : fallible Server ServerError A) :
  leaves sv_node (fun _ => True) m -> leaves conn_node (fun _ => True) (answered m).
Proof.
  intros Hm conn. unfold answered. destruct (Hm (cn_server conn)) as [Hn _].
  by destruct (m (cn_server conn)) as [server r]; split.
Qed.

Lemma leaves_handle_auth i id username password :
  leaves sv_node (fun _ => True) (handle_auth config i None id username password).
Proof.
  unfold handle_auth. eapply leaves_bind; [apply leaves_get|]. intros server _.
  destruct (sv_auth server) as [store|];
    [|by eapply leaves_bind; [by apply leaves_modify|]; intros _ _; apply leaves_ret].
  case_match; [by apply leaves_pure|]. eapply leaves_bind; [by apply (leaves_pure _ (fun _ => True))|].
  intros [user|] _; repeat (eapply leaves_bind; [by apply leaves_modify|]; intros _ _);
    [by apply leaves_ret|by apply leaves_pure].
Qed.

Lemma leaves_written ri (m : fallible Conn (fault ServerError) Response) (P : Response -> Prop) :
  leaves conn_node P m ->
  leaves conn_node P (response ← m; _ ← write_response ri; mret response).
Proof.
  intros Hm. eapply leaves_bind; [exact Hm|]. intros response Hs.
  eapply leaves_bind; [by apply (leaves_pure _ (fun _ => True))|]. intros _ _. by apply leaves_ret.
Qed.

(** A request above the quota is not served. *)
Lemma leaves_oversized ri id opcode payload :
  sg_max_request_payload_bytes (sc_guards config) < Z.of_nat (length payload) ->
  leaves conn_node (fun r => rs_status r = StatusError) (served ri 1 None (new_request id opcode payload)).
Proof.
  intros Hl. unfold handle_request. eapply leaves_bind; [apply leaves_get|]. intros conn _.
  rewrite andb_false_r, bool_decide_eq_false_2 by done.
  eapply leaves_bind; [apply leaves_allow|]. intros [] _; cbn [negb]; [|by apply leaves_refuse_audited, leaves_refuse].
  unfold validate_request, within_limit. cbn [rq_payload new_request]. rewrite (proj2 (Z.ltb_lt _ _) Hl).
  by eapply leaves_bind; [by apply (leaves_pure _ (fun _ => False))|].
Qed.

Lemma leaves_run_command ri id username password :
  leaves conn_node (fun _ => True)
    (run_command uuid_to_string config audit_commands ri 1 None id (CmdAuth username password)).
Proof.
  unfold run_command. eapply leaves_bind; [by apply leaves_answered, leaves_handle_auth|]. intros r _.
  eapply leaves_bind.
  { destruct r; [by apply (leaves_ret _ (fun _ => True))|].
    eapply leaves_weaken; [apply leaves_refuse|done]. }
  intros response _. eapply leaves_bind; [by apply (leaves_pure _ (fun _ => True))|]. intros _ _.
  eapply leaves_bind; [apply leaves_get|]. intros conn _.
  do 3 (eapply leaves_bind; [apply leaves_audit|]; intros _ _). by apply leaves_ret.
Qed.

(** AUTH changes the session, the lockouts and the audit log. *)
Lemma leaves_auth ri request :
  rq_opcode request = OpAuth -> leaves conn_node (fun _ => True) (served ri 1 None request).
Proof.
  intros Ho. unfold handle_request. eapply leaves_bind; [apply leaves_get|]. intros conn _.
  case_match; [by eapply leaves_weaken; [apply leaves_written, leaves_refuse|]|].
  case_match; [by eapply leaves_weaken; [apply leaves_written, leaves_refuse|]|].
  eapply leaves_bind; [apply leaves_allow|]. intros allowed _.
  case_match; [by eapply leaves_weaken; [apply leaves_refuse_audited, leaves_refuse|]|].
  eapply leaves_bind; [by apply (leaves_pure _ (fun _ => True))|]. intros _ _.
  unfold into_command. rewrite Ho. cbn [is_internal_replication_opcode command_reader].
  case_match eqn:Ec; [|case_match; [by eapply leaves_weaken; [apply leaves_refuse_audited, leaves_refuse|]|..];
    by apply leaves_pure].
  case_match; [|by eapply leaves_weaken; [apply leaves_refuse_audited, leaves_refuse|]].
  unfold read_from, mbind, fallible_bind in Ec. destruct (decode_key_value _) as [? [[username password]|]];
    [|discriminate]. injection Ec as <-. apply leaves_run_command.
Qed.

(** *** The pool over the network *)

Section calls.
Context (version : string) (username password : option string).

Definition peer_node (pool : Pool (Conn * nat)) : Node DiskEngine := conn_node (pl_world pool).1.

Lemma leaves_exchange (P : Response -> Prop) member transport request :
  (forall ri, leaves conn_node P (served ri 1 None request)) ->
  leaves peer_node P (on_wire (nw_exchange peer_network member transport request)).
Proof.
  intros Hs [[conn n] connections counters]. unfold on_wire, on_world. cbn [peer_network nw_exchange pl_world].
  destruct (Hs (inputs request) conn) as [Hn Hr].
  destruct (served _ _ _ _ _) as [conn' [response|err]]; cbn in *; [|by split].
  split; [exact Hn|]. intros ? [= <-]. by apply Hr.
Qed.

Lemma leaves_or_else {A} (P : A -> Prop) (first second : fallible (Pool (Conn * nat)) ServerError A) :
  leaves peer_node P first -> leaves peer_node P second -> leaves peer_node P (or_else first second).
Proof.
  intros Hf Hs pool. unfold or_else. destruct (Hf pool) as [Hn Ha].
  destruct (first pool) as [pool' [a|e]]; cbn in *; [by split|]. rewrite <- Hn. apply Hs.
Qed.

Lemma leaves_world {A} (m : Conn * nat -> (Conn * nat) * result ServerError A) :
  (forall w, (m w).1.1 = w.1) -> leaves peer_node (fun _ => True) (on_world m).
Proof.
  intros Hm [w connections counters]. unfold on_world. specialize (Hm w). cbn [pl_world] in *.
  destruct (m w) as [w' r]. cbn in *. split; [|done]. unfold peer_node. cbn [pl_world]. by rewrite Hm.
Qed.

Lemma leaves_fresh_id : leaves peer_node (fun _ => True) (fresh_id peer_network).
Proof. apply leaves_world. by intros [conn n]. Qed.

Lemma leaves_open_peer member : leaves peer_node (fun _ => True) (open_peer peer_network version username password member).
Proof.
  unfold open_peer. eapply leaves_bind; [by apply leaves_world; intros [conn n]|]. intros [] _.
  eapply leaves_bind.
  { unfold negotiate_replication_transport. eapply leaves_bind; [by apply leaves_world; intros [conn n]|].
    intros hello _. by apply (leaves_pure _ (fun _ => True)). }
  intros transport _. eapply leaves_bind; [|by intros ? _; apply leaves_ret].
  unfold authenticate_replication_peer. destruct username as [u|], password as [p|]; try by apply (leaves_ret _ (fun _ => True)).
  eapply leaves_bind; [apply leaves_fresh_id|]. intros id _.
  eapply leaves_bind; [apply (leaves_pure _ (fun request => rq_opcode request = OpAuth))|].
  { intros request Hr%from_transport_ok. by apply result_bind_ok in Hr as (? & _ & [= <-]). }
  intros request Ho. eapply leaves_bind; [by apply leaves_exchange; intros ri; apply leaves_auth|].
  intros response _. case_match; [by apply leaves_ret|by apply leaves_pure].
Qed.

Lemma leaves_connection member :
  leaves peer_node (fun _ => True) (ensure_connection peer_network version username password member).
Proof.
  unfold ensure_connection. eapply leaves_bind; [apply leaves_get|]. intros pool _.
  case_match; [by apply leaves_ret|]. eapply leaves_bind; [apply leaves_open_peer|]. intros transport _.
  do 2 (eapply leaves_bind; [by apply leaves_modify|]; intros _ _). by apply leaves_ret.
Qed.

Section oversized.
Context {A B : Type} `{Json A} `{Json B} (payload : A) (bytes : list byte).
Context (Hb : to_vec payload = Ok bytes).
Context (Hl : sg_max_request_payload_bytes (sc_guards config) < Z.of_nat (length bytes)).

Lemma oversized_call member transport opcode :
  leaves peer_node (fun _ : B => False) (call_peer peer_network member transport opcode payload).
Proof.
  unfold call_peer. rewrite Hb. eapply leaves_bind; [apply leaves_fresh_id|]. intros id _.
  eapply leaves_bind; [apply (leaves_pure _ (fun b => b = bytes)); by intros ? [= <-]|]. intros ? ->.
  eapply leaves_bind; [by apply leaves_exchange; intros ri; apply leaves_oversized|]. intros response Hs.
  eapply leaves_bind; [apply (leaves_pure _ (fun _ => False))|done].
  intros a. unfold ensure_replication_ok. rewrite Hs. cbn [bool_decide decide]. by destruct (Response.decode_error _).
Qed.

Lemma oversized_one_shot member opcode :
  leaves peer_node (fun _ : B => False) (send_one_shot peer_network version username password member opcode payload).
Proof. eapply leaves_bind; [apply leaves_open_peer|]. intros transport _. apply oversized_call. Qed.

Lemma oversized_retry member opcode :
  leaves peer_node (fun _ : B => False) (send_with_retry peer_network version username password member opcode payload).
Proof.
  assert (leaves peer_node (fun _ : B => False)
    (send_json_rpc_once peer_network version username password member opcode payload)) as Ho.
  { eapply leaves_bind; [apply leaves_connection|]. intros transport _. apply oversized_call. }
  assert (leaves peer_node (fun _ : B => False)
    (send_json_rpc peer_network version username password member opcode payload)) as Hr.
  { apply leaves_or_else; [exact Ho|]. eapply leaves_bind; [by apply leaves_modify|]. intros _ _. exact Ho. }
  apply leaves_or_else; [exact Hr|]. do 2 (eapply leaves_bind; [by apply leaves_modify|]; intros _ _). exact Hr.
Qed.

End oversized.

(** A request the peer serves comes back with what it answered. *)
Lemma call_served {A B} `{Json A} `{Json B} member transport opcode (payload : A) (answer : B) bytes conn n
    connections counters server' response :
  let request := new_request (ids n) opcode bytes in
  let ri := inputs request in
  is_internal_replication_opcode opcode = true -> admitted ri conn = true -> ri_written ri = Ok tt ->
  to_vec payload = Ok bytes -> Z.of_nat (length bytes) <= sg_max_request_payload_bytes (sc_guards config) ->
  process_internal_replication_request (ri_command ri) (ri_exported_ms ri) request (cn_server conn) =
    (server', Ok response) ->
  json_response (ids n) answer = Ok response ->
  call_peer peer_network member transport opcode payload (mkPool (conn, n) connections counters) =
    (mkPool ((counted ri conn) {{ cn_server := server' }}, S n) connections counters, Ok answer).
Proof.
  intros request ri Hi Ha Hw Hv Hl Hp Hr. unfold call_peer, fresh_id, on_wire, on_world. run_fallible.
  cbn [peer_network nw_fresh_id nw_exchange pl_world pl_connections pl_counters]. rewrite Hv. cbn [map_err].
  rewrite handle_internal by done. fold request ri. rewrite Hp. cbn [from_transport map_err].
  unfold json_response in Hr. apply result_bind_ok in Hr as (body & Hbody & [= <-]).
  cbn [ensure_replication_ok Response.new rs_status rs_payload]. destruct (to_vec answer) eqn:Et; [|discriminate].
  injection Hbody as ->. by rewrite (from_to_vec _ _ Et).
Qed.

Lemma append_served id i exported bytes payload server node' answer response :
  authorize_replication server = Ok tt -> to_vec payload = Ok bytes ->
  handle_append (in_env i) (ci_now_ms (in_command i)) payload (sv_node server) = (node', Ok answer) ->
  json_response id answer = Ok response ->
  process_internal_replication_request i exported (new_request id OpReplicationAppend bytes) server =
    (server {{ sv_node := node' }}, Ok response).
Proof.
  intros Hz Hv Ha Hr. unfold process_internal_replication_request, on_node, decode_json_payload. run_fallible.
  rewrite Hz. cbn [rq_opcode rq_payload new_request rq_request_id]. rewrite (from_to_vec _ _ Hv). cbn [map_err].
  by rewrite Ha, Hr.
Qed.

End calls.

End peers.

(** *** A follower behind a network *)

#[local] Instance AppendEntriesRequest_eq_dec : EqDecision AppendEntriesRequest.
Proof. solve_decision. Defined.
#[local] Instance AppendEntriesResponse_eq_dec : EqDecision AppendEntriesResponse.
Proof. solve_decision. Defined.
#[local] Instance EngineState_eq_dec : EqDecision EngineState.
Proof. solve_decision. Defined.
#[local] Instance ReplicationSnapshot_eq_dec : EqDecision ReplicationSnapshot.
Proof. solve_decision. Defined.
#[local] Instance SnapshotInstallRequest_eq_dec : EqDecision SnapshotInstallRequest.
Proof. solve_decision. Defined.

(** One message of [1500] bytes. *)
Definition one_json {A} `{EqDecision A} (value : A) : Json A.
Proof.
  refine {| to_vec a := if decide (a = value) then Ok (replicate 1500 x00) else Err "unknown"%string;
            from_slice _ := Ok value |}.
  intros a bytes. by destruct (decide (a = value)) as [->|].
Defined.

(** [b] kept the write ["x"] that the leader [c] replaced by ["y"]; the request that
    repairs it. *)
Definition planned_repair : option (Node DiskEngine * ClusterMember * AppendEntriesRequest) :=
  '(_, b, c, _) ← replaced_write;
  '(_, plans) ← done (plan_appends (at_time 12) 12) c;
  '(member, payload) ← append_for "b" plans;
  Some (b, member, payload).

Lemma planned_repair_some : is_some planned_repair = true.
Proof. vm_compute. reflexivity. Defined.

Definition repair : Node DiskEngine * ClusterMember * AppendEntriesRequest :=
  match planned_repair as o return is_some o = true -> _ with
  | Some run => fun _ => run
  | None => fun H => match Bool.diff_false_true H with end
  end planned_repair_some.
Definition repair_request : AppendEntriesRequest := repair.2.
Definition repaired : Node DiskEngine * result ServerError AppendEntriesResponse :=
  handle_append (at_time 12) 12 repair_request repair.1.1.
Definition repair_answer : AppendEntriesResponse :=
  match repaired.2 with Ok answer => answer | Err _ => mkAppendEntriesResponse 0 false 0 end.
Definition repair_install : SnapshotInstallRequest :=
  mkSnapshotInstallRequest 1 "c" "c:1" 2 []
    (mkReplicationSnapshot (eh_state (nd_engine repair.1.1)) 1 12).

#[local] Instance repair_wire : ReplicationWire := {|
  rw_status := no_json; rw_snapshot := no_json; rw_entries := no_json; rw_fetch := no_json; rw_ack := no_json;
  rw_append := one_json repair_request; rw_appended := one_json repair_answer;
  rw_install := one_json repair_install; rw_installed := no_json;
  rw_vote := no_json; rw_voted := no_json; rw_heartbeat := no_json; rw_beaten := no_json;
|}.

(** Requests of [b] are limited to [quota] bytes; it has no users. *)
Definition guarded (quota : Z) : ServerConfig :=
  no_guards {{ sc_guards := mkServerGuards quota 1000 1000 1000 1000 1000 1000 }}.
Definition repair_peer : Conn :=
  mkConn (mkServer repair.1.1 None (MaintenanceMode.load false) ∅ (mkFiles ∅ []) new_session) (mkAuditLogger [] first_link) full_bucket.
Definition repair_network (quota : Z) : Network (Conn * nat) :=
  peer_network (fun _ => EmptyString) (guarded quota) false (fun _ => request_id) (fun _ => request_at 12)
    CodecOptions_default request_id.
Definition repair_pool : Pool (Conn * nat) :=
  mkPool (repair_peer, 0%nat) {[peer_key repair.1.2 := CodecOptions_default]} (mkPoolCounters 0 0 0 0 0 0).

(** C11: An append that a leader sends through its pool of connections and that the
    follower can handle does at the follower what its handler does. Over an open connection
    of an administrator, for a request within the payload quota that the rate limiter
    admits, and where [handle_append] succeeds and its answer is written, the pool returns
    this answer, the follower is in the state that [handle_append] leaves after one call,
    and the connection stays open. *)
Theorem append_travels `{Crc32} `{CryptoLib} `{Binary WalEntry} `{Binary Manifest} `{Binary StoredKeyring}
    `{SnapshotCodec} `{NonceSource} `{Base64} `{BackupJson} `{ReplicationJson} `{PasswordHash} `{AuthJson}
    `{Sha256} `{DumpJson} `{AuditJson} `{ReplicationWire}
    (uuid_to_string : list byte -> string) config audit_commands ids inputs options server_id version username password
    elapsed_ms member payload bytes transport conn n connections counters node' answer :
  let ri := inputs (new_request (ids n) OpReplicationAppend bytes) in
  connections !! peer_key member = Some transport ->
  to_vec payload = Ok bytes -> Z.of_nat (length bytes) <= sg_max_request_payload_bytes (sc_guards config) ->
  authorize_replication (cn_server conn) = Ok tt -> admitted ri conn = true -> ri_written ri = Ok tt ->
  handle_append (in_env (ri_command ri)) (ci_now_ms (in_command (ri_command ri))) payload
    (sv_node (cn_server conn)) = (node', Ok answer) ->
  is_ok (to_vec answer) = true ->
  let network := peer_network uuid_to_string config audit_commands ids inputs options server_id in
  let '(pool, r) := pool_append network version username password elapsed_ms member payload
                      (mkPool (conn, n) connections counters) in
  r = Ok answer /\ peer_node pool = node' /\ pl_connections pool = connections /\
  po_append_requests (pl_counters pool) = wrapping_add (po_append_requests counters) 1 /\
  po_append_failures (pl_counters pool) = po_append_failures counters.
Proof.
  intros ri Hc Hv Hl Hz Hallow Hw Ha Hok network.
  destruct (to_vec answer) as [body|] eqn:Et; [|discriminate].
  assert (json_response (ids n) answer = Ok (Response.new (ids n) StatusOk body)) as Hr
    by (unfold json_response; by rewrite Et).
  pose proof (append_served (ids n) _ (ri_exported_ms ri) bytes payload _ _ _ _ Hz Hv Ha Hr) as Hp.
  unfold pool_append, observe, send_with_retry, send_json_rpc, or_else, send_json_rpc_once, ensure_connection.
  run_fallible. cbn [pl_connections]. rewrite Hc.
  pose proof (call_served uuid_to_string config audit_commands ids inputs options server_id member transport
    OpReplicationAppend payload answer bytes conn n connections counters _ _ eq_refl Hallow Hw Hv Hl Hp Hr) as Hcall.
  fold network in Hcall. rewrite Hcall. done.
Qed.

Lemma append_travels_witness :
  exists pool answer,
    pool_append (repair_network 2000) "1" None None 1 repair.1.2 repair_request repair_pool = (pool, Ok answer) /\
    ap_accepted answer = true /\ k_of repair.1.1 = Some "x"%string /\ k_of (peer_node pool) = Some "y"%string.
Proof.
  assert (match repaired with
          | (node, Ok answer) => ap_accepted answer && is_ok (to_vec answer) &&
              bool_decide (k_of node = Some "y"%string) && bool_decide (k_of repair.1.1 = Some "x"%string)
          | _ => false
          end = true) as Hc by (vm_compute; reflexivity).
  assert (to_vec repair_request = Ok (replicate 1500 x00)) as Hv by (vm_compute; reflexivity).
  destruct repaired as [node [answer|]] eqn:Er; [|discriminate Hc].
  rewrite !andb_true_iff, !bool_decide_eq_true in Hc. destruct Hc as [[[Hacc Hok] Hy] Hx].
  pose proof (append_travels (fun _ => EmptyString) (guarded 2000) false (fun _ => request_id)
    (fun _ => request_at 12) CodecOptions_default request_id "1" None None 1 repair.1.2 repair_request
    (replicate 1500 x00) CodecOptions_default repair_peer 0 ({[peer_key repair.1.2 := CodecOptions_default]} : gmap string CodecOptions)
    (mkPoolCounters 0 0 0 0 0 0) node answer ltac:(apply lookup_singleton_eq) Hv
    ltac:(vm_compute; discriminate) eq_refl eq_refl eq_refl Er Hok) as Ht.
  cbv zeta in Ht. fold (repair_network 2000) repair_pool in Ht.
  destruct (pool_append _ _ _ _ _ _ _ _) as [pool r]. destruct Ht as (-> & <- & _).
  exists pool, answer. split; [reflexivity|]. split; [exact Hacc|]. split; [exact Hx|exact Hy].
Defined.

(** A message between servers that is larger than the request quota never arrives: the quota of
    the clients is applied to appends and snapshots too, and ends the connection.  The pool
    connects again and fails again; the node of the follower does not change. *)
Theorem large_append_never_delivered `{Crc32} `{CryptoLib} `{Binary WalEntry} `{Binary Manifest} `{Binary StoredKeyring}
    `{SnapshotCodec} `{NonceSource} `{Base64} `{BackupJson} `{ReplicationJson} `{PasswordHash} `{AuthJson}
    `{Sha256} `{DumpJson} `{AuditJson} `{ReplicationWire}
    (uuid_to_string : list byte -> string) config audit_commands ids inputs options server_id version username password
    elapsed_ms member append append_bytes install install_bytes pool :
  let quota := sg_max_request_payload_bytes (sc_guards config) in
  to_vec append = Ok append_bytes -> quota < Z.of_nat (length append_bytes) ->
  to_vec install = Ok install_bytes -> quota < Z.of_nat (length install_bytes) ->
  let network := peer_network uuid_to_string config audit_commands ids inputs options server_id in
  let '(pool1, appended) := pool_append network version username password elapsed_ms member append pool in
  let '(pool2, installed) := send_install_snapshot_request network version username password member install pool in
  is_ok appended = false /\ peer_node pool1 = peer_node pool /\
  is_ok installed = false /\ peer_node pool2 = peer_node pool.
Proof.
  intros quota Ha Hal Hi Hil network.
  pose proof (oversized_retry uuid_to_string config audit_commands ids inputs options server_id version username
    password (B := AppendEntriesResponse) append append_bytes Ha Hal member OpReplicationAppend pool) as [Hn1 Hr1].
  pose proof (oversized_one_shot uuid_to_string config audit_commands ids inputs options server_id version username
    password (B := SnapshotInstallResponse) install install_bytes Hi Hil member OpReplicationInstallSnapshot pool)
    as [Hn2 Hr2].
  fold network in Hn1, Hr1, Hn2, Hr2. unfold pool_append, observe, send_install_snapshot_request. run_fallible.
  destruct (send_with_retry _ _ _ _ _ _ _ _) as [pool1 [a|e]]; [by destruct (Hr1 a)|].
  destruct (send_one_shot _ _ _ _ _ _ _ _) as [pool2 [b|e']]; [by destruct (Hr2 b)|].
  cbn in *. by split_and!.
Qed.

Lemma large_append_never_delivered_witness :
  let '(pool1, appended) := pool_append (repair_network 1024) "1" None None 1 repair.1.2 repair_request repair_pool in
  is_ok appended = false /\ peer_node pool1 = repair.1.1.
Proof.
  assert (to_vec repair_request = Ok (replicate 1500 x00)) as Hv by (vm_compute; reflexivity).
  assert (to_vec repair_install = Ok (replicate 1500 x00)) as Hi by (vm_compute; reflexivity).
  pose proof (large_append_never_delivered (fun _ => EmptyString) (guarded 1024) false (fun _ => request_id)
    (fun _ => request_at 12) CodecOptions_default request_id "1" None None 1 repair.1.2 repair_request
    (replicate 1500 x00) repair_install (replicate 1500 x00) repair_pool Hv eq_refl Hi eq_refl) as Hl.
  cbv zeta in Hl. fold (repair_network 1024) in Hl.
  destruct (pool_append _ _ _ _ _ _ _ _) as [pool1 appended].
  destruct (send_install_snapshot_request _ _ _ _ _ _ _) as [pool2 installed].
  destruct Hl as (Ha & Hn & _). split; [exact Ha|exact Hn].
Defined.
