(* ===== verification/ProcessTheorems.v ===== *)
(** * ProcessTheorems: the server as a process

    The limit on connections, elections as the consensus loop runs them, the start of
    a server and the probes of its health. *)

From S2P Require Import Prelude Text Command EngineError Store State Crypto Wal WalFacts.
From S2P Require Import WalLayout Opcode Wire Request Response Frame Negotiation ServerError.
From S2P Require Import ReadIndex Consensus Auth Access Status BackupFiles AuditLog Engine.
From S2P Require Import Transaction Backup Replication DiskLog Storage DiskEngine EngineWorker.
From S2P Require Import Node WritePath DiskHandle TxFacts History Recovery Serving Elections.
From S2P Require Import ElectionFacts PayloadFacts Dispatch Connection ClientFacts Loops Process.
From S2P Require Import Samples ReplicaDisk Runs NodeRuns AccessRuns AuditTheorems ClientTheorems.
Import ReplicationRuntime.

(** ** Connections *)

(** The connections that panicked among the events. *)
Definition panicked (events : list ListenerEvent) : nat :=
  length (List.filter (fun event => match event with LnConnectionEnded _ (Err Panicked) => true | _ => false end) events).

Definition waiting (l : Listener) : nat := match ln_waiting l with Some _ => 1 | None => 0 end.

(** What holds of the listener after [n] events, [lost] of which were panics. *)
Record listener_ok (max lost n : nat) (l : Listener) : Prop := {
  lo_next : 0 < ln_next_connection_id l <= 1 + Z.of_nat n;
  lo_slots : (size (ln_running l) + ln_free l = max)%nat;
  lo_fresh : forall id, (id ∈ ln_running l \/ ln_waiting l = Some id) -> id < ln_next_connection_id l;
  lo_apart : forall id, ln_waiting l = Some id -> id ∉ ln_running l;
  lo_active : me_active_connections (ln_metrics l) =
    (Z.of_nat (size (ln_running l) + waiting l + lost)) mod 2 ^ 64;
}.

Lemma size_without (id : Z) (X : gset Z) : id ∈ X -> size X = S (size (X ∖ {[id]})).
Proof.
  intros Hid. rewrite (union_difference_singleton_L id X Hid) at 1.
  rewrite size_union by set_solver. by rewrite size_singleton.
Qed.

Lemma wrapping_succ n : wrapping_add (Z.of_nat n mod 2 ^ 64) 1 = Z.of_nat (S n) mod 2 ^ 64.
Proof. unfold wrapping_add. rewrite Zplus_mod_idemp_l. f_equal. lia. Qed.
Lemma wrapping_pred n : wrapping_sub (Z.of_nat (S n) mod 2 ^ 64) 1 = Z.of_nat n mod 2 ^ 64.
Proof. unfold wrapping_sub. rewrite Zminus_mod_idemp_l. f_equal. lia. Qed.

Lemma listener_step_ok max lost n event l l' :
  1 + Z.of_nat n < u64_max -> listener_ok max lost n l -> listener_step event l = Some l' ->
  listener_ok max (lost + panicked [event]) (S n) l'.
Proof.
  destruct l as [free running wait next m ended]. intros Hn [Hnext Hs Hf Ha Hg] He.
  unfold listener_step in He. unfold waiting in *. cbn in *. destruct ended; [done|].
  destruct event as [| | |id r|snapshot]; cbn in *.
  - destruct wait; [done|]. injection He as <-. split; cbn; unfold waiting; cbn.
    + unfold wrapping_add. rewrite Z.mod_small by (unfold u64_max in *; lia). lia.
    + lia.
    + unfold wrapping_add. rewrite Z.mod_small by (unfold u64_max in *; lia).
      intros id [Hid|[= <-]]; [|lia]. pose proof (Hf id (or_introl Hid)). lia.
    + intros id [= <-] Hid. pose proof (Hf next (or_introl Hid)). lia.
    + fold (me_active_connections m). rewrite Hg, wrapping_succ. do 2 f_equal. lia.
  - destruct wait; [done|]. injection He as <-. split; cbn; unfold waiting; cbn; [lia|lia|done|done|].
    rewrite Hg. do 2 f_equal. lia.
  - destruct wait as [id|]; [|done]. destruct free as [|free]; [done|]. injection He as <-.
    pose proof (Ha id eq_refl) as Hid.
    assert (size ({[id]} ∪ running) = S (size running)) as Hsize.
    { rewrite size_union by set_solver. by rewrite size_singleton. }
    split; cbn; unfold waiting; cbn; [lia|lia| |done|].
    + intros x [Hx|]; [|done]. apply Hf. set_solver.
    + rewrite Hsize, Hg. do 2 f_equal. lia.
  - case_bool_decide as Hid; [|done]. pose proof (size_without id running Hid) as Hsize.
    assert (forall x, x ∈ running ∖ {[id]} \/ wait = Some x -> x < next) as Hf'.
    { intros x [Hx|Hx]; apply Hf; [left; set_solver|by right]. }
    destruct r as [[]|[err| |]]; [| | |done]; injection He as <-; split; cbn; unfold waiting; cbn;
      try lia; try done; try (intros x Hx; pose proof (Ha x Hx); set_solver).
    + fold (me_active_connections m). rewrite Hg, Hsize, Nat.add_0_r. apply wrapping_pred.
    + fold (me_active_connections m). rewrite Hg, Hsize, Nat.add_0_r. apply wrapping_pred.
    + rewrite Hg, Hsize. do 2 f_equal. lia.
  - destruct wait; [done|]. injection He as <-. split; cbn; unfold waiting; cbn; [lia|lia|done|done|].
    rewrite Hg. do 2 f_equal. lia.
Qed.

Lemma panicked_cons event events : panicked (event :: events) = (panicked [event] + panicked events)%nat.
Proof. unfold panicked. cbn. by destruct event as [| | |? [|[]]|]. Qed.

Lemma listener_run_ok max events : forall lost n l l',
  1 + Z.of_nat (n + length events) < u64_max -> listener_ok max lost n l -> listener_run events l = Some l' ->
  listener_ok max (lost + panicked events) (n + length events) l'.
Proof.
  induction events as [|event events IH]; intros lost n l l' Hn Hl Hr.
  - injection Hr as <-. by rewrite Nat.add_0_r, Nat.add_0_r.
  - cbn in Hr. apply bind_Some in Hr as (l1 & Hstep & Hr). cbn [length] in *.
    rewrite panicked_cons, Nat.add_assoc, <- Nat.add_succ_comm.
    apply (IH _ (S n) l1); [lia| |done]. eapply listener_step_ok; [lia|done..].
Qed.

Lemma run_listener_ok max_connections events l :
  1 + Z.of_nat (length events) < u64_max ->
  listener_run events (open_listener max_connections Metrics_default) = Some l ->
  listener_ok max_connections (panicked events) (length events) l.
Proof.
  intros Hn Hr. apply (listener_run_ok max_connections events 0 0 (open_listener max_connections Metrics_default) l Hn); [|done].
  split; cbn; [lia|done| |done|done]. intros id [Hid|]; [set_solver|done].
Qed.

(** C21: A server has at most [max_connections] connections at a time: every place is free or
    held by one of them, whatever is accepted, ends and panics.  As long as no connection
    has panicked, the gauge of active connections is their number whenever no accepted
    connection waits for a place. *)
Theorem connections_bounded max_connections events l :
  1 + Z.of_nat (length events) < u64_max -> Z.of_nat max_connections <= u64_max ->
  listener_run events (open_listener max_connections Metrics_default) = Some l ->
  (size (ln_running l) <= max_connections)%nat /\
  (size (ln_running l) + ln_free l)%nat = max_connections /\
  (panicked events = 0%nat -> ln_waiting l = None ->
   me_active_connections (ln_metrics l) = Z.of_nat (size (ln_running l))).
Proof.
  intros Hn Hmax [_ Hs _ _ Hg]%run_listener_ok; [|done]. split; [lia|]. split; [done|]. intros Hp Hw.
  rewrite Hg, Hp. unfold waiting. rewrite Hw. cbn. rewrite !Nat.add_0_r. apply Z.mod_small.
  unfold u64_max in Hmax. lia.
Qed.

(** Three connections to a server with two places: two end. *)
Definition calm_events : list ListenerEvent :=
  [LnAccepted; LnPermit; LnAccepted; LnPermit; LnAccepted;
   LnConnectionEnded 1 (Ok tt); LnPermit; LnConnectionEnded 2 (Ok tt)].
Definition calm_listener : Listener :=
  default (open_listener 0 Metrics_default) (listener_run calm_events (open_listener 2 Metrics_default)).

Lemma connections_bounded_witness :
  ln_running calm_listener = {[3]} /\ me_active_connections (ln_metrics calm_listener) = 1 /\
  (size (ln_running calm_listener) <= 2)%nat.
Proof.
  assert (listener_run calm_events (open_listener 2 Metrics_default) = Some calm_listener) as Hr
    by (vm_compute; reflexivity).
  destruct (connections_bounded 2 calm_events calm_listener ltac:(vm_compute; reflexivity)
    ltac:(vm_compute; discriminate) Hr) as (Hs & _ & Hg).
  split; [vm_compute; reflexivity|]. split; [|exact Hs].
  rewrite (Hg eq_refl ltac:(vm_compute; reflexivity)). vm_compute. reflexivity.
Defined.

(** Connections that panic stay in the gauge for ever, which is described as the number of
    active connections; the one that waits for a place is counted already. *)
Theorem gauge_keeps_panicked max_connections events l :
  1 + Z.of_nat (length events) < u64_max ->
  listener_run events (open_listener max_connections Metrics_default) = Some l ->
  me_active_connections (ln_metrics l) =
    Z.of_nat (size (ln_running l) + waiting l + panicked events) mod 2 ^ 64.
Proof. by intros Hn [_ _ _ _ Hg]%run_listener_ok. Qed.

Lemma gauge_keeps_panicked_witness :
  let events := [LnAccepted; LnPermit; LnConnectionEnded 1 (Err Panicked)] in
  forall l, listener_run events (open_listener 2 Metrics_default) = Some l ->
  ln_running l = ∅ /\ me_active_connections (ln_metrics l) = 1.
Proof.
  intros events l Hl. rewrite (gauge_keeps_panicked 2 events l ltac:(vm_compute; reflexivity) Hl).
  vm_compute in Hl. injection Hl as <-. split; vm_compute; reflexivity.
Defined.

(** A server with all places taken and one more connection accepted does not see the shutdown
    signal: it waits for a place where it is not listening for the signal, until one of
    the connections ends. *)
Theorem shutdown_waits_for_place events : forall l l',
  ln_ended l = None -> is_some (ln_waiting l) = true -> ln_free l = 0%nat ->
  Forall (fun event => match event with LnConnectionEnded _ _ => False | _ => True end) events ->
  listener_run events l = Some l' -> events = [].
Proof.
  intros l l' He Hw Hf Hn Hr. destruct events as [|event events]; [done|exfalso].
  cbn in Hr. apply bind_Some in Hr as (l1 & Hs & _). apply Forall_cons in Hn as [Hn _].
  unfold listener_step in Hs. destruct l as [free running [id|] next m ended]; [|done]. cbn in *. subst.
  by destruct event.
Qed.

(** ** Elections *)

(** What becomes of a vote request: it is lost, its answer is lost, or it is answered. *)
Inductive Fate := FateLost | FateUnanswered (env : Env) | FateAnswered (env : Env).

Section elections.
Context {E : Type} `{EngineHandle E} `{EntryChecksum} `{ReplicationJson} (V : gset string) (self : string).

Notation World := (gmap string ReplicationRuntime).
Notation M := (fallible (World * Node E) ServerError).

(** The other nodes handle the requests that reach them. *)
Definition deliver (fate : ClusterMember -> VoteRequest -> Fate) (member : ClusterMember) (request : VoteRequest)
    : M VoteResponse :=
  fun '(world, node) =>
    let lost := SrvAccept "connection lost" in
    let handled (env : Env) (answered : bool) :=
      match world !! cm_node_id member with
      | None => ((world, node), Err lost)
      | Some rt =>
          let '(rt, r) := handle_vote_request env request rt in
          ((<[cm_node_id member := rt]> world, node), if answered then r else Err lost)
      end in
    match fate member request with
    | FateLost => ((world, node), Err lost)
    | FateUnanswered env => handled env false
    | FateAnswered env => handled env true
    end.

(** The nodes of the cluster are those around the node and the node itself. *)
Definition shows (c : Cluster) (s : World * Node E) : Prop :=
  cl_nodes c = <[self := nd_runtime s.2]> s.1.

(** What a computation does to the node and the ones around it, the cluster can do. *)
Definition mimics {A} (m : M A) : Prop :=
  forall c s, shows c s -> exists c', rtc (step V) c c' /\ shows c' (m s).1.

Lemma mimics_bind {A B} (m : M A) (k : A -> M B) : mimics m -> (forall a, mimics (k a)) -> mimics (m ≫= k).
Proof.
  intros Hm Hk c s Hs. destruct (Hm c s Hs) as (c1 & Hc1 & Hs1). run_fallible.
  destruct (m s) as [s1 [a|e]]; [|by exists c1]. destruct (Hk a c1 s1 Hs1) as (c2 & Hc2 & Hs2).
  exists c2. split; [by etrans|done].
Qed.

Lemma mimics_pure {A} (r : result ServerError A) : mimics (mpure r).
Proof. intros c s Hs. by exists c. Qed.
Lemma mimics_get : mimics mget.
Proof. intros c s Hs. by exists c. Qed.

(** A computation on the node whose runtime makes steps of the cluster. *)
Definition advances {A} (m : fallible (Node E) ServerError A) : Prop :=
  forall c node, cl_nodes c !! self = Some (nd_runtime node) ->
  exists c', rtc (step V) c c' /\ cl_nodes c' = <[self := nd_runtime (m node).1]> (cl_nodes c).

Lemma mimics_local {A} (m : fallible (Node E) ServerError A) : advances m -> mimics (local m).
Proof.
  intros Hm c [world node] Hs. unfold shows in Hs. cbn in Hs.
  destruct (Hm c node) as (c' & Hc' & Hn); [rewrite Hs; apply lookup_insert_eq|].
  exists c'. split; [done|]. unfold shows, local. cbn. destruct (m node) as [node' r]. cbn in *.
  by rewrite Hn, Hs, insert_insert_eq.
Qed.

Lemma advances_bind {A B} (m : fallible (Node E) ServerError A) (k : A -> fallible (Node E) ServerError B) :
  advances m -> (forall a, advances (k a)) -> advances (m ≫= k).
Proof.
  intros Hm Hk c node Hs. destruct (Hm c node Hs) as (c1 & Hc1 & Hs1). run_fallible.
  destruct (m node) as [node1 [a|e]]; [|by exists c1]. cbn in Hs1.
  destruct (Hk a c1 node1) as (c2 & Hc2 & Hs2); [rewrite Hs1; apply lookup_insert_eq|].
  exists c2. split; [by etrans|]. by rewrite Hs2, Hs1, insert_insert_eq.
Qed.

Lemma advances_still {A} (m : fallible (Node E) ServerError A) :
  (forall node, nd_runtime (m node).1 = nd_runtime node) -> advances m.
Proof. intros Hm c node Hs. exists c. split; [done|]. by rewrite Hm, insert_id. Qed.

Lemma advances_local f : (forall rt, local_step rt (f rt)) -> advances (with_runtime f).
Proof.
  intros Hf c node Hs. eexists. split; [apply rtc_once; by eapply StepLocal|]. done.
Qed.

Lemma advances_term env term : advances (on_runtime (observe_remote_term env term)).
Proof.
  intros c node Hs. unfold on_runtime. destruct (observe_remote_term env term (nd_runtime node)) as [rt r] eqn:Er.
  eexists. split; [apply rtc_once; by eapply StepTerm|]. done.
Qed.

(** *** The work of a new leader *)

Lemma advances_get : advances mget.
Proof. by apply advances_still. Qed.
Lemma advances_pure {A} (r : result ServerError A) : advances (mpure r).
Proof. by apply advances_still. Qed.
Lemma advances_ret {A} (a : A) : advances (mret a).
Proof. by apply advances_still. Qed.

Lemma advances_publish sequence : advances (publish_applied sequence).
Proof.
  unfold publish_applied. apply advances_bind; [apply advances_get|]. intros node.
  apply advances_local. intros rt. apply LocalApplied.
Qed.

Lemma advances_answers env term leader sequence answers :
  advances (take_answers env term leader sequence answers).
Proof.
  induction answers as [|[member answer] answers IH]; [apply advances_ret|]. cbn [take_answers].
  apply advances_bind.
  - unfold take_answer. case_match; [apply advances_term|apply advances_local; intros rt; apply LocalAppend].
  - intros []. case_match; [apply advances_ret|]. apply advances_bind; [apply advances_get|]. intros node.
    case_match; [apply advances_ret|exact IH].
Qed.

Lemma advances_plan env now_ms : advances (plan_appends env now_ms).
Proof.
  unfold plan_appends. apply advances_bind; [apply advances_get|]. intros node.
  case_match; [apply advances_ret|]. apply advances_bind; [apply advances_publish|]. intros [].
  apply advances_bind; [apply advances_get|]. intros node'. case_match; [|apply advances_ret].
  apply advances_bind; [apply advances_local; intros rt; apply LocalActivity|]. intros [].
  apply advances_bind; [apply advances_get|]. intros node''.
  apply advances_bind; [apply advances_pure|]. intros entries. apply advances_pure.
Qed.

Lemma advances_fan_out round : advances (send_cluster_heartbeats_with_timeout round).
Proof.
  unfold send_cluster_heartbeats_with_timeout, send_cluster_appends_locked. apply advances_bind.
  - apply advances_bind; [apply advances_plan|]. intros plans. apply advances_bind; [apply advances_get|].
    intros node. apply advances_answers.
  - intros []. case_match; [apply advances_pure|apply advances_ret].
Qed.

Lemma advances_noop sequence rounds : advances (commit_noop sequence rounds).
Proof.
  induction rounds as [|round rounds IH]; [apply advances_ret|]. cbn [commit_noop].
  apply advances_bind; [apply advances_fan_out|]. intros []. apply advances_bind; [apply advances_get|]. intros node.
  repeat (case_match; [apply advances_ret|]). exact IH.
Qed.

Lemma advances_office i term : advances (take_office i term).
Proof.
  unfold take_office. apply advances_bind; [apply advances_get|]. intros node.
  case_match; [apply advances_ret|]. apply advances_bind.
  - apply advances_still. intros node'. unfold on_worker. by destruct (eh_append_noop _ _ _).
  - intros noop. apply advances_bind; [apply advances_local; intros rt; apply LocalApplied|]. intros []. apply advances_noop.
Qed.

(** *** The votes *)

Section votes.
Context (fate : ClusterMember -> VoteRequest -> Fate).

(** A prevote changes nothing. *)
Lemma prevote_still env request rt :
  vr_prevote request = true -> (handle_vote_request env request rt).1 = rt.
Proof.
  intros Hp. unfold handle_vote_request. run_fallible. case_match; [done|].
  case_match; [done|]. by rewrite Hp.
Qed.

Lemma deliver_prevote member request s :
  vr_prevote request = true -> (deliver fate member request s).1 = s.
Proof.
  intros Hp. destruct s as [world node]. unfold deliver. destruct (fate member request) as [|env|env]; [done| |];
    (destruct (world !! cm_node_id member) as [rt|] eqn:Er; [|done]);
    pose proof (prevote_still env request rt Hp) as Hs; destruct (handle_vote_request env request rt) as [rt' r];
    cbn in *; subst rt'; by rewrite insert_id.
Qed.

Lemma mimics_prevotes request members : forall voters granted,
  vr_prevote request = true -> mimics (collect_prevotes (deliver fate) self request members voters granted).
Proof.
  induction members as [|member members IH]; intros voters granted Hp; [apply mimics_pure|].
  cbn [collect_prevotes]. destruct (skipped self member); [by apply IH|].
  apply mimics_bind; [|intros answer; by apply IH].
  intros c s Hs. exists c. split; [done|]. unfold asked. pose proof (deliver_prevote member request s Hp) as Hd.
  destruct (deliver fate member request s) as [s' [r|e]]; cbn in *; by subst s'.
Qed.

Lemma deliver_vote c member request s s' res :
  cm_node_id member <> self -> (cm_node_id member, request) ∈ cl_requests c -> shows c s ->
  deliver fate member request s = (s', res) ->
  exists c', rtc (step V) c c' /\ shows c' s' /\ cl_rounds c' = cl_rounds c /\
    forall response, res = Ok response -> (cm_node_id member, request, response) ∈ cl_replies c'.
Proof.
  intros Hne Hreq Hs. destruct s as [world node]. unfold shows in Hs. cbn in Hs.
  assert (forall answered env, (match world !! cm_node_id member with
      | None => ((world, node), Err (SrvAccept "connection lost"))
      | Some rt => let '(rt, r) := handle_vote_request env request rt in
          ((<[cm_node_id member := rt]> world, node), if answered : bool then r else Err (SrvAccept "connection lost"))
      end) = (s', res) -> exists c', rtc (step V) c c' /\ shows c' s' /\ cl_rounds c' = cl_rounds c /\
    forall response, res = Ok response -> (cm_node_id member, request, response) ∈ cl_replies c') as Hd.
  { intros answered env. destruct (world !! cm_node_id member) as [rt|] eqn:Er.
    2: { intros [= <- <-]. exists c. by split_and!. }
    assert (cl_nodes c !! cm_node_id member = Some rt) as Hn by (by rewrite Hs, lookup_insert_ne).
    destruct (handle_vote_request env request rt) as [rt' r] eqn:Eh. intros [= <- <-].
    destruct r as [response|err].
    - eexists. split; [apply rtc_once; by eapply StepVote|]. split; [|split; [done|]].
      + unfold shows. cbn. fold (cl_nodes c). by rewrite Hs, insert_insert_ne.
      + intros response' Hr. cbn. destruct answered; [injection Hr as <-; left|discriminate].
    - eexists. split; [apply rtc_once; by eapply StepVoteFailed|]. split; [|split; [done|]].
      + unfold shows. cbn. fold (cl_nodes c). by rewrite Hs, insert_insert_ne.
      + by destruct answered. }
  unfold deliver. destruct (fate member request) as [|env|env]; [|by apply (Hd false)|by apply (Hd true)].
  intros [= <- <-]. exists c. by split_and!.
Qed.

Lemma skipped_false member : skipped self member = false -> cm_node_id member <> self.
Proof. unfold skipped. intros [_ Hs%bool_decide_eq_false]%orb_false_iff. done. Qed.

Lemma round_set c r : cl_rounds (c {{ cl_rounds ::= <[self := r]> }}) !! self = Some r.
Proof. cbn. apply lookup_insert_eq. Qed.

Lemma advance_rest member vote r members : rn_rest r = member :: members -> rn_rest (advance member vote r) = members.
Proof. intros Hr. change (tail (rn_rest r) = members). by rewrite Hr. Qed.

(** The loop over the votes is at [r], in the cluster as well. *)
Definition at_round (c : Cluster) (request : VoteRequest) (members : list ClusterMember) (voters granted : nat)
    (r : Round) : Prop :=
  cl_rounds c !! self = Some r /\ request = round_request self r /\
  rn_rest r = members /\ rn_voters r = voters /\ rn_votes r = granted.

Lemma at_round_advance c request member members voters granted vote r :
  at_round c request (member :: members) voters granted r ->
  at_round (c {{ cl_rounds ::= <[self := advance member vote r]> }}) request members
    (if cm_voter member then S voters else voters) (if vote then S granted else granted) (advance member vote r).
Proof.
  intros (Hr & Hreq & Hm & Hv & Hg). split; [exact (round_set c (advance member vote r))|]. split; [done|].
  split; [by apply advance_rest|]. subst voters granted. done.
Qed.

Lemma ask_step c request member members voters granted r s s' res :
  skipped self member = false -> at_round c request (member :: members) voters granted r -> shows c s ->
  deliver fate member request s = (s', res) ->
  exists c' r', rtc (step V) c c' /\ shows c' s' /\ at_round c' request (member :: members) voters granted r' /\
    rn_waiting r' = true /\
    forall response, res = Ok response -> (cm_node_id member, request, response) ∈ cl_replies c'.
Proof.
  intros Hsk (Hr & Hreq & Hm & Hv & Hg) Hs Hd.
  set (c1 := c {{ cl_rounds ::= <[self := r {{ rn_waiting := true }}]>;
                  cl_requests ::= cons (cm_node_id member, round_request self r) }}).
  assert (step V c c1) as Hc1 by (eapply StepAsk; [done|by rewrite Hm|done]).
  destruct (deliver_vote c1 member request s s' res) as (c2 & Hc2 & Hs2 & Hrounds & Hrep);
    [by apply skipped_false|rewrite Hreq; left|done|done|].
  exists c2, (r {{ rn_waiting := true }}). split; [by eapply rtc_l|]. split; [done|]. split; [|by split].
  split; [rewrite Hrounds; exact (round_set c (r {{ rn_waiting := true }}))|done].
Qed.

Lemma outvoted_step c s env r response :
  cl_rounds c !! self = Some r -> shows c s -> rn_term r < vs_term response ->
  exists c', rtc (step V) c c' /\ shows c' (local (on_runtime (observe_remote_term env (vs_term response))) s).1.
Proof.
  intros Hr Hs Hlt. unfold local, on_runtime.
  destruct (observe_remote_term env (vs_term response) (nd_runtime s.2)) as [rt' res] eqn:Eo.
  assert (cl_nodes c !! self = Some (nd_runtime s.2)) as Hn by (rewrite Hs; apply lookup_insert_eq).
  exists (c {{ cl_nodes ::= <[self := rt']>; cl_rounds ::= delete self }}).
  split; [apply rtc_once; by eapply StepOutvoted|].
  unfold shows. cbn. fold (cl_nodes c). by rewrite Hs, insert_insert_eq.
Qed.

Lemma mimics_votes env request members : forall c s voters granted r,
  shows c s -> at_round c request members voters granted r ->
  let '(s', res) := collect_votes (deliver fate) env self request members voters granted s in
  exists c', rtc (step V) c c' /\ shows c' s' /\
    forall v g, res = Ok (Some (v, g)) -> exists r', at_round c' request [] v g r'.
Proof.
  induction members as [|member members IH]; intros c s voters granted r Hs Hat.
  { cbn. exists c. split; [done|]. split; [done|]. intros v g [= <- <-]. by exists r. }
  cbn [collect_votes]. destruct (skipped self member) eqn:Esk.
  - destruct Hat as (Hr & Hat). pose proof (at_round_advance c request member members voters granted false r (conj Hr Hat)) as Hat'.
    set (c1 := c {{ cl_rounds ::= <[self := advance member false r]> }}) in Hat'.
    assert (shows c1 s) as Hs1 by exact Hs. specialize (IH c1 s _ _ _ Hs1 Hat').
    destruct (collect_votes _ _ _ _ _ _ _ _) as [s' res]. destruct IH as (c' & Hc' & Hs' & Hres).
    exists c'. split; [|by split]. eapply rtc_l; [|exact Hc'].
    eapply StepSkip; [done|by destruct Hat as (_ & -> & _)|done].
  - run_fallible. unfold asked. destruct (deliver fate member request s) as [s1 res1] eqn:Ed.
    destruct (ask_step c request member members voters granted r s s1 res1 Esk Hat Hs Ed)
      as (c1 & r1 & Hc1 & Hs1 & Hat1 & Hw1 & Hrep).
    assert (head (rn_rest r1) = Some member) as Hh by (by destruct Hat1 as (_ & _ & -> & _)).
    assert (forall vote, step V c1 (c1 {{ cl_rounds ::= <[self := advance member vote r1]> }}) ->
      let '(s', res) := collect_votes (deliver fate) env self request members
        (if cm_voter member then S voters else voters) (if vote then S granted else granted) s1 in
      exists c', rtc (step V) c c' /\ shows c' s' /\
        forall v g, res = Ok (Some (v, g)) -> exists r', at_round c' request [] v g r') as Hnext.
    { intros vote Hstep. pose proof (at_round_advance c1 request member members voters granted vote r1 Hat1) as Hat2.
      set (c2 := c1 {{ cl_rounds ::= <[self := advance member vote r1]> }}) in *.
      assert (shows c2 s1) as Hs2 by exact Hs1. specialize (IH c2 s1 _ _ _ Hs2 Hat2).
      destruct (collect_votes _ _ _ _ _ _ _ _) as [s' res]. destruct IH as (c' & Hc' & Hs' & Hres).
      exists c'. split; [|by split]. etrans; [exact Hc1|]. by eapply rtc_l. }
    destruct Hat1 as (Hr1 & Hreq & Hat1). destruct res1 as [response|err].
    + destruct (Z.ltb_spec (vr_term request) (vs_term response)) as [Hlt|Hge].
      * destruct (outvoted_step c1 s1 env r1 response Hr1 Hs1) as (c2 & Hc2 & Hs2); [by rewrite Hreq in Hlt|].
        destruct (local _ _) as [s2 [[]|e]]; (exists c2; split; [by etrans|]; by split).
      * apply (Hnext (vs_vote_granted response)). eapply StepReceive; [done|done|done| |].
        -- rewrite <- Hreq. by apply Hrep.
        -- rewrite Hreq in Hge. exact Hge.
    + apply (Hnext false). by eapply StepGiveUp.
Qed.

(** The count of a loop that came to its end. *)
Lemma mimics_finalize env request v g r c s :
  shows c s -> at_round c request [] v g r ->
  exists c', rtc (step V) c c' /\
    shows c' (local (on_runtime (finalize_election env (vr_term request) g (Nat.max v 1))) s).1.
Proof.
  intros Hs (Hr & -> & Hm & <- & <-). unfold local, on_runtime. cbn [round_request vr_term].
  destruct (finalize_election _ _ _ _ _) as [rt' res] eqn:Ef.
  assert (cl_nodes c !! self = Some (nd_runtime s.2)) as Hn by (rewrite Hs; apply lookup_insert_eq).
  eexists. split; [apply rtc_once; by eapply StepFinalize|].
  unfold shows. cbn. fold (cl_nodes c). by rewrite Hs, insert_insert_eq.
Qed.

(** The election itself: the term begins, the votes are collected and counted. *)
Lemma mimics_election i addr :
  mimics (probe ← local (on_runtime (begin_election (ei_env i 3)));
          let '(term, members, last_log_index, last_log_term) := probe in
          votes ← collect_votes (deliver fate) (ei_env i 4) self
                    (mkVoteRequest term self addr last_log_index last_log_term false) members 0 1;
          match votes with
          | None => mret tt
          | Some (voter_count, votes_granted) =>
              won ← local (on_runtime (finalize_election (ei_env i 5) term votes_granted (Nat.max voter_count 1)));
              if (won : bool) then local (take_office i term) else mret tt
          end).
Proof.
  intros c s Hs. assert (cl_nodes c !! self = Some (nd_runtime s.2)) as Hn by (rewrite Hs; apply lookup_insert_eq).
  unfold mbind at 1, fallible_bind at 1. unfold local at 1, on_runtime at 1.
  destruct (begin_election _ _) as [rt1 [probe|err]] eqn:Eb.
  2: { eexists. split; [apply rtc_once; by eapply StepBeginFailed|].
       unfold shows. cbn. fold (cl_nodes c). by rewrite Hs, insert_insert_eq. }
  destruct probe as [[[term members] index] log_term] eqn:Ep. rewrite <- Ep in Eb.
  set (c1 := c {{ cl_nodes ::= <[self := rt1]>; cl_rounds ::= <[self := start_round addr probe]>;
                  cl_started ::= cons (rn_term (start_round addr probe), self) }}).
  assert (step V c c1) as Hc1 by (by eapply StepBegin).
  set (s1 := (s.1, mkNode (nd_engine s.2) rt1 (nd_index s.2))).
  assert (shows c1 s1) as Hs1.
  { unfold shows. cbn. fold (cl_nodes c). by rewrite Hs, insert_insert_eq. }
  assert (at_round c1 (mkVoteRequest term self addr index log_term false) members 0 1 (start_round addr probe)) as Hat.
  { split; [apply lookup_insert_eq|]. by rewrite Ep. }
  pose proof (mimics_votes (ei_env i 4) _ members c1 s1 _ _ _ Hs1 Hat) as Hv.
  unfold mbind at 1, fallible_bind at 1. destruct (collect_votes _ _ _ _ _ _ _ _) as [s2 res].
  destruct Hv as (c2 & Hc2 & Hs2 & Hres). assert (rtc (step V) c c2) as Hc by (by eapply rtc_l).
  destruct res as [[[v g]|]|err]; [|by exists c2..].
  destruct (Hres v g eq_refl) as (r2 & Hat2).
  destruct (mimics_finalize (ei_env i 5) _ v g r2 c2 s2 Hs2 Hat2) as (c3 & Hc3 & Hs3). cbn [vr_term] in Hs3.
  unfold mbind, fallible_bind. destruct (local _ s2) as [s3 [[]|err]]; [|by exists c3; split; [etrans|]..].
  destruct (mimics_local (take_office i term) (advances_office i term) c3 s3 Hs3) as (c4 & Hc4 & Hs4).
  exists c4. split; [by etrans; [exact Hc|]; etrans|done].
Qed.

Lemma mimics_round i s c :
  rc_node_id (rr_config (nd_runtime s.2)) = self -> shows c s ->
  exists c', rtc (step V) c c' /\ shows c' (run_election_round (deliver fate) i s).1.
Proof.
  intros Hself Hs. unfold run_election_round. unfold mbind at 1, fallible_bind at 1, mget at 1. rewrite Hself.
  case_match; [by exists c|]. destruct (election_probe _) as [[[term members] index] log_term].
  match goal with |- exists c', _ /\ shows c' (?m s).1 => enough (mimics m) as Ht by exact (Ht c s Hs) end.
  apply mimics_bind; [apply mimics_pure|]. intros addr.
  apply mimics_bind; [by apply mimics_prevotes|]. intros [voters granted].
  case_match; [apply mimics_local, advances_local; intros rt; apply LocalDefer|].
  apply mimics_bind; [apply mimics_get|]. intros s'. case_match; [apply mimics_pure|].
  apply mimics_election.
Qed.

End votes.

End elections.

(** C7: The election rounds that the servers run are runs of the cluster for which elections are
    safe.  Whatever requests and answers are lost, whichever state files are not written and
    whatever the new leader gets answered: what a round does to the node and to the nodes
    it asks, a reachable cluster does as well, so that two nodes never win a term. *)
Theorem election_round_refines {E} `{EngineHandle E} `{EntryChecksum} `{ReplicationJson} (V : gset string) fate i
    (world : gmap string ReplicationRuntime) (node : Node E) c :
  let self := rc_node_id (rr_config (nd_runtime node)) in
  reachable V c -> cl_nodes c = <[self := nd_runtime node]> world ->
  let '((world', node'), _) := run_election_round (deliver fate) i (world, node) in
  exists c', reachable V c' /\ rtc (step V) c c' /\ cl_nodes c' = <[self := nd_runtime node']> world'.
Proof.
  intros self Hc Hs. destruct (mimics_round V self fate i (world, node) c eq_refl Hs) as (c' & Hsteps & Hs').
  destruct (run_election_round _ _ _) as [[world' node'] r]. exists c'. split; [|by split].
  clear Hs Hs'. induction Hsteps as [|x y z Hxy _ IH]; [done|]. apply IH. by eapply reachable_step.
Qed.

(** [c] asks the other two; [a] answers and the requests to [b] are lost. *)
Definition candidate : option (Node DiskEngine) := start_node run1 <$> cl_nodes three_start !! "c"%string.
Definition candidate_inputs : ElectionInputs :=
  mkElectionInputs (fun _ => at_time 100000) 100000 [mkFanOut (at_time 100000) 100000 [] false []].
Definition candidate_fate (member : ClusterMember) (request : VoteRequest) : Fate :=
  if String.eqb (cm_node_id member) "a" then FateAnswered (at_time 100000) else FateLost.
Definition candidate_round (node : Node DiskEngine)
    : (gmap string ReplicationRuntime * Node DiskEngine) * result ServerError unit :=
  run_election_round (deliver candidate_fate) candidate_inputs (delete "c"%string (cl_nodes three_start), node).

Lemma election_round_refines_witness :
  exists node node' c', candidate = Some node /\ (candidate_round node).1.2 = node' /\
    role (nd_runtime node') = RoleLeader /\ current_term (nd_runtime node') = 1 /\
    reachable three_voters c' /\ cl_nodes c' !! "c"%string = Some (nd_runtime node').
Proof.
  assert (match candidate with
          | Some node =>
              bool_decide (rc_node_id (rr_config (nd_runtime node)) = "c"%string) &&
              bool_decide (role (nd_runtime (candidate_round node).1.2) = RoleLeader) &&
              (current_term (nd_runtime (candidate_round node).1.2) =? 1)
          | None => false
          end = true) as Hc by (vm_compute; reflexivity).
  destruct candidate as [node|] eqn:En; [|discriminate Hc].
  rewrite !andb_true_iff, !bool_decide_eq_true, Z.eqb_eq in Hc. destruct Hc as [[Hid Hl] Ht].
  assert (cl_nodes three_start = <["c"%string := nd_runtime node]> (delete "c"%string (cl_nodes three_start))) as Hs.
  { unfold candidate in En. apply fmap_Some in En as (rt & Hrt & ->). by rewrite insert_delete_id. }
  pose proof (election_round_refines three_voters candidate_fate candidate_inputs
    (delete "c"%string (cl_nodes three_start)) node three_start) as Hr.
  cbv zeta in Hr. rewrite Hid in Hr. fold (candidate_round node) in Hr.
  specialize (Hr (reachable_initial _ _ three_start_initial) Hs).
  destruct (candidate_round node) as [[world' node'] r] eqn:Er. destruct Hr as (c' & Hreach & _ & Hnodes).
  exists node, node', c'. split; [reflexivity|]. rewrite Er. split; [reflexivity|]. split; [exact Hl|]. split; [exact Ht|].
  split; [exact Hreach|]. rewrite Hnodes. apply lookup_insert_eq.
Defined.

(** ** The start of a server *)

Section restart.
Context `{Crc32} `{CryptoLib} `{Binary WalEntry} `{Binary Manifest} `{Binary StoredKeyring}
  `{SnapshotCodec} `{NonceSource} `{Base64} `{BackupJson} `{ReplicationJson} (uuid_to_string : list byte -> string).






End restart.




(** ** Probes *)

Lemma entries_round_trip id entries r :
  Forall str_ok entries.*1 -> Forall str_ok entries.*2 -> Response.entries id entries = Ok r ->
  rs_request_id r = id /\ rs_status r = StatusOk /\ Response.decode_entries r = Ok entries.
Proof.
  intros Hk Hv Hr. unfold Response.entries, Response.byte_entries in Hr.
  assert (Forall str_ok ((fun '(key, value) => (key, as_bytes value)) <$> entries).*1) as Hk'.
  { rewrite <- list_fmap_compose. erewrite list_fmap_ext; [exact Hk|]. by intros ? [key value]. }
  destruct (build_decode _ _ _ _ _ _ (inverse_entries _ Hk') Hr) as (Hid & Hs & Hd).
  split; [done|]. split; [done|]. unfold Response.decode_entries, Response.decode_byte_entries. rewrite Hd. cbn.
  clear Hk' Hr Hid Hs Hd r. induction entries as [|[key value] entries IH]; [done|].
  apply Forall_cons in Hv as [Hv Hvs]. apply Forall_cons in Hk as [_ Hks]. cbn in *.
  assert (Response.utf8 (as_bytes value) = Ok value) as -> by (unfold Response.utf8; by rewrite from_utf8_as_bytes).
  cbn. by rewrite IH.
Qed.

Section probes.
Context `{Crc32} `{CryptoLib} `{Binary WalEntry} `{Binary Manifest} `{Binary StoredKeyring}
  `{SnapshotCodec} `{NonceSource} `{Base64} `{BackupJson} `{ReplicationJson} `{PasswordHash} `{AuthJson}
  `{Sha256} `{DumpJson} `{AuditJson} `{ReplicationWire}
  (uuid_to_string : list byte -> string) (config : ServerConfig) (audit_commands : bool)
  (ri : RequestInputs) (cid : Z) (peer : option string).

Lemma run_command_ok id command conn server' response :
  ri_written ri = Ok tt ->
  process_command uuid_to_string config (ri_command ri) peer id command (cn_server conn) = (server', Ok response) ->
  (run_command uuid_to_string config audit_commands ri cid peer id command conn).2 = Ok response.
Proof.
  intros Hw Hp. unfold run_command, answered, write_response, try, audit. run_fallible. rewrite Hp. cbn.
  by rewrite Hw.
Qed.

(** A command that passes the guards is run. *)
Lemma handle_command id opcode payload command conn :
  admitted ri conn = true -> Z.of_nat (length payload) <= sg_max_request_payload_bytes (sc_guards config) ->
  is_internal_replication_opcode opcode = false ->
  into_command (new_request id opcode payload) = Ok command ->
  validate_command (sc_guards config) command = Ok tt ->
  handle_request uuid_to_string config audit_commands ri cid peer (new_request id opcode payload) conn =
    run_command uuid_to_string config audit_commands ri cid peer id command (counted ri conn).
Proof.
  intros Ha Hl Hi Hc Hv. unfold handle_request, validate_request, within_limit.
  unfold mbind, fallible_bind, mget, try, mpure. rewrite andb_false_r.
  rewrite bool_decide_eq_false_2 by done. rewrite allow_counted, Ha. cbn [negb rq_payload rq_opcode rq_request_id new_request].
  rewrite (proj2 (Z.ltb_ge _ _) Hl), Hi. cbn [map_err].
  change (mkRequest _ _ _ _) with (new_request id opcode payload). by rewrite Hc, Hv.
Qed.

(** A session that is outside of a transaction. *)
Definition idle (session : SessionState) : Prop :=
  in_transaction session = false /\ se_transaction_started_at_ms session = None.

(** A command that needs no permission and is no write, of a user who may send it. *)
Lemma process_unrestricted id c server :
  idle (sv_session server) -> (c = CmdPing None \/ c = CmdHealth) ->
  (c = CmdPing None \/ is_some (sv_auth server) = false \/ is_authenticated (sv_session server) = true) ->
  process_command uuid_to_string config (ri_command ri) peer id c server =
    dispatch_command uuid_to_string config (ri_command ri) id c server.
Proof.
  intros [Ht Hs] Hc Hu.
  assert (is_some (sv_auth server) && negb (is_authenticated (sv_session server)) &&
          negb (match c with CmdPing _ => true | _ => false end) = false) as Hg.
  { destruct Hu as [-> |[-> | ->]]; by rewrite ?andb_false_r. }
  destruct Hc as [-> | ->]; cbn [process_command]; unfold expire_transaction_if_needed; run_fallible;
    rewrite Hg, Hs; cbn; rewrite ?andb_false_r; cbn; rewrite Ht; by destruct (is_some (sv_auth server)).
Qed.

Lemma dispatch_ping id server :
  exists server' response,
    dispatch_command uuid_to_string config (ri_command ri) id (CmdPing None) server = (server', Ok response) /\
    rs_request_id response = id /\ rs_status response = StatusOk.
Proof.
  eexists _, (Response.new id StatusOk (to_be 4 4 ++ as_bytes "PONG")). split; [|done].
  unfold dispatch_command, command_path, fast_read, execute, on_node, on_worker, process_single_execute.
  unfold EngineWorker.set_consensus_term, core, call, on_core, Engine.set_consensus_term. run_fallible.
  cbn [is_write_command negb is_fast_path_read andb is_batchable_engine_write execute_command]. reflexivity.
Qed.

Lemma dispatch_health id server :
  dispatch_command uuid_to_string config (ri_command ri) id CmdHealth server =
    (server, from_transport (Response.entries id
       (health_entries (mm_enabled (sv_maintenance server)) (snapshot (in_env (ri_command ri)) (runtime server))))).
Proof. reflexivity. Qed.

Notation over := (remote uuid_to_string config audit_commands ri cid peer).

(** An exchange of the probe with a command that the server runs. *)
Lemma probe_ok transport id command kind opcode payload conn server' response :
  from_command id command = Ok (new_request id opcode payload) ->
  admitted ri conn = true -> ri_written ri = Ok tt ->
  Z.of_nat (length payload) <= sg_max_request_payload_bytes (sc_guards config) ->
  is_internal_replication_opcode opcode = false -> into_command (new_request id opcode payload) = Ok command ->
  validate_command (sc_guards config) command = Ok tt ->
  process_command uuid_to_string config (ri_command ri) peer id command (cn_server conn) = (server', Ok response) ->
  rs_request_id response = id -> rs_status response = StatusOk ->
  exists conn', probe uuid_to_string over transport id command kind conn = (conn', Ok response).
Proof.
  intros Hf Ha Hw Hl Hi Hc Hv Hp Hid Hs. unfold probe, remote. rewrite Hf. run_fallible. cbn [map_err from_transport].
  rewrite (handle_command id opcode payload command conn) by done.
  pose proof (run_command_ok id command (counted ri conn) server' response Hw Hp) as Hr.
  destruct (run_command _ _ _ _ _ _ _ _ _) as [conn' r]. cbn in Hr. subst r. exists conn'.
  unfold ensure_response_id, ensure_ok. rewrite Hid, Hs. by rewrite !bool_decide_eq_true_2.
Qed.

End probes.

(** C35: The probes of a server tell what they are for.  On a connection outside of a transaction
    whose requests are not limited, the liveness probe succeeds, also without a login, in
    maintenance mode and on every node of a cluster.  The readiness probe, logged in
    where there are users, succeeds exactly when the node reports that it is ready. *)
Theorem probes_exact `{Crc32} `{CryptoLib} `{Binary WalEntry} `{Binary Manifest} `{Binary StoredKeyring}
    `{SnapshotCodec} `{NonceSource} `{Base64} `{BackupJson} `{ReplicationJson} `{PasswordHash} `{AuthJson}
    `{Sha256} `{DumpJson} `{AuditJson} `{ReplicationWire}
    (uuid_to_string : list byte -> string) config audit_commands ri cid peer transport id conn :
  admitted ri conn = true -> ri_written ri = Ok tt -> 1 <= sg_max_request_payload_bytes (sc_guards config) ->
  idle (sv_session (cn_server conn)) ->
  let over := remote uuid_to_string config audit_commands ri cid peer in
  let status := snapshot (in_env (ri_command ri)) (runtime (cn_server conn)) in
  let health := health_entries (mm_enabled (sv_maintenance (cn_server conn))) status in
  (check_liveness uuid_to_string over transport id conn).2 = Ok tt /\
  (is_some (sv_auth (cn_server conn)) = false \/ is_authenticated (sv_session (cn_server conn)) = true ->
   Forall str_ok health.*2 -> is_ok (Response.entries id health) = true ->
   (check_readiness uuid_to_string over transport id conn).2 =
     (if bool_decide (ss_health status = "ready"%string) then Ok tt
      else Err (Raised (SrvHealthcheckFailed "readiness probe returned ready=false")))).
Proof.
  intros Ha Hw Hq Hidle over status health. split.
  - destruct (dispatch_ping uuid_to_string config ri id (cn_server conn)) as (server' & response & Hd & Hid & Hs).
    rewrite <- (process_unrestricted uuid_to_string config ri peer) in Hd; [|done|by left|by left].
    destruct (probe_ok uuid_to_string config audit_commands ri cid peer transport id (CmdPing None) "liveness"
      OpPing [x00] conn server' response) as [conn' Hp]; try done.
    unfold over, check_liveness. run_fallible. by rewrite Hp.
  - intros Hu Hv Hok. pose proof (dispatch_health uuid_to_string config ri id (cn_server conn)) as Hd.
    rewrite <- (process_unrestricted uuid_to_string config ri peer) in Hd; [|done|by right|by right].
    fold status health in Hd. destruct (Response.entries id health) as [response|] eqn:Ee; [|done].
    assert (Forall str_ok health.*1) as Hk.
    { unfold health, health_entries. destruct (ss_follower_phase status); by apply (bool_decide_unpack _). }
    destruct (entries_round_trip id health response Hk Hv Ee) as (Hid & Hs & Hdec).
    destruct (probe_ok uuid_to_string config audit_commands ri cid peer transport id CmdHealth "readiness"
      OpHealth [] conn (cn_server conn) response) as [conn' Hp]; try done; [cbn; lia|].
    unfold over, check_readiness. run_fallible. rewrite Hp, Hdec.
    assert (existsb (fun '(key, value) => String.eqb key "ready" && String.eqb value "true") health =
      bool_decide (ss_health status = "ready"%string)) as ->.
    { unfold health, health_entries. by case_bool_decide; destruct (ss_follower_phase status). }
    by case_bool_decide.
Qed.

Lemma probes_exact_witness :
  let over := remote (fun _ => EmptyString) no_guards false (request_at 5) 1 None in
  let stranger := mkConn (lone_server None) (mkAuditLogger [] first_link) full_bucket in
  (check_liveness (fun _ => EmptyString) over CodecOptions_default request_id stranger).2 = Ok tt /\
  (check_readiness (fun _ => EmptyString) over CodecOptions_default request_id lone_connection).2 = Ok tt.
Proof.
  split.
  - refine (proj1 (probes_exact (fun _ => EmptyString) no_guards false (request_at 5) 1 None CodecOptions_default
      request_id (mkConn (lone_server None) (mkAuditLogger [] first_link) full_bucket) eq_refl eq_refl _ (conj eq_refl eq_refl))).
    vm_compute. discriminate.
  - pose proof (proj2 (probes_exact (fun _ => EmptyString) no_guards false (request_at 5) 1 None CodecOptions_default
      request_id lone_connection eq_refl eq_refl ltac:(vm_compute; discriminate) (conj eq_refl eq_refl))
      (or_intror eq_refl) ltac:(apply (bool_decide_unpack _); vm_compute; reflexivity)
      ltac:(vm_compute; reflexivity)) as Hr.
    etransitivity; [exact Hr|]. vm_compute. reflexivity.
Defined.

(** ** Configuration *)

(** The nodes of the documented cluster, which listen on all interfaces. *)
Definition documented_args (node : string) : Args :=
  Args_default {{ ar_bind := "0.0.0.0"%string; ar_node_id := Some node; ar_replication_role := ModeFollower;
                  ar_replication_advertise_addr := Some (node +:+ ".internal:9173");
                  ar_cluster_peers := ["node-1@node-1.internal:9173"; "node-2@node-2.internal:9173";
                                       "node-3@node-3.internal:9173"]%string }}.
Definition documented_runtime (node : string) : result ServerError ReplicationRuntime :=
  members ← parse_cluster_peers (ar_cluster_peers (documented_args node));
  rt ← new (at_time 0) (replication_config (documented_args node) "new" members) (Ok None);
  let '(rt, started) := set_advertise_addr (at_time 0) "0.0.0.0:9173" rt in
  _ ← started;
  Ok rt.

(** The address a node listens on replaces the one it advertises in its own list of members,
    and a leader hands this list to its followers: in the documented cluster they
    believe that the leader is at the address of all interfaces, which is their own. *)
Theorem bind_address_spreads :
  match documented_runtime "node-1", documented_runtime "node-2" with
  | Ok leader, Ok follower =>
      let leader := (finalize_election (at_time 1) 1 2 3 (begin_election (at_time 1) leader).1).1 in
      match leader_heartbeat_payload leader with
      | Some heartbeat =>
          let '(follower, answer) := handle_heartbeat (at_time 2) heartbeat follower in
          hb_leader_addr heartbeat = "node-1.internal:9173"%string /\
          (exists response, answer = Ok response /\ hs_accepted response = true) /\
          cm_advertise_addr <$> (rp_members (rr_state follower) !! "node-1"%string) = Some "0.0.0.0:9173"%string /\
          cm_advertise_addr <$> (rp_members (rr_state follower) !! "node-3"%string) = Some "node-3.internal:9173"%string
      | None => False
      end
  | _, _ => False
  end.
Proof. vm_compute. split; [reflexivity|]. split; [|split; reflexivity]. eexists. split; reflexivity. Qed.

(** The interval of heartbeats has no effect beyond the interval at which the loop looks. *)
Theorem heartbeat_interval_ignored config :
  from_millis 100 <= rc_heartbeat_interval config -> consensus_tick_interval config = from_millis 100.
Proof. unfold consensus_tick_interval, from_millis. lia. Qed.

(** A probe with a port of its own still fails when the variable for the port of the server is
    not a number. *)
Theorem probe_needs_port_variable {W} uuid_to_string exchange vars command connected greeted ids (w : W) value :
  vr_port vars = Some (Ok value) -> parse_uint u16_max value = None ->
  (run_healthcheck uuid_to_string exchange vars command connected greeted ids w).2 =
    Err (Raised (SrvInvalidArguments ("invalid VAYLIX_PORT for healthcheck: " +:+ value))).
Proof. intros Hv Hp. unfold run_healthcheck, resolve_server_port. rewrite Hv, Hp. reflexivity. Qed.

(** ** Restoring a directory onto itself *)

Definition sample_directories : gmap string Disk := {["/data"%string := de_disk run2b]}.
Definition sample_admin : AdminInputs := mkAdminInputs (fun _ => Ok tt) 20 20 20 (replicate NONCE_LEN x00).
Definition restore_between (source target : string) : gmap string Disk * result ServerError (list string) :=
  run_admin_command (Args_default {{ ar_wal_sync := ModeFlush }}) sample_admin (fun _ => Ok tt)
    (AdminPitr (PitrRestore source target (Some 1) None)) sample_directories.

(** A restore into the directory it reads from is refused by comparing the two paths, which
    takes one directory that is written in two ways for two: the restore replaces the
    history it was taken from. *)
Theorem restore_onto_itself :
  is_ok (restore_between "data" "data/").2 = false /\
  is_ok (restore_between "data" "./data").2 = true /\
  (fun de => last_sequence (de_state de)) <$> reopened 30 (disk_at "data" sample_directories) = Ok 2 /\
  (fun de => last_sequence (de_state de)) <$> reopened 30 (disk_at "data" (restore_between "data" "./data").1) = Ok 1.
Proof. vm_compute. split_and!; reflexivity. Qed.

(** ** Certificates *)

Lemma expiry_of `{Tls} now_ms cert not_after : x509_not_after cert = Some not_after ->
  exists t, inspect_certificate_expiry now_ms cert =
    Ok (t, (fun t => Z.quot (Z.min t i64_max - now_ms) MILLIS_PER_DAY) <$> t) /\
    forall now', inspect_certificate_expiry now' cert =
      Ok (t, (fun t => Z.quot (Z.min t i64_max - now') MILLIS_PER_DAY) <$> t).
Proof. intros found. eexists. split; [|intros now']; unfold inspect_certificate_expiry; rewrite found; reflexivity. Qed.

Lemma quot_negative a b : 0 < b -> (Z.quot a b <? 0) = (a <=? - b).
Proof.
  intros positive. destruct (decide (0 <= a)) as [up | down].
  - pose proof (Z.quot_pos a b up positive). lia.
  - replace a with (- - a) at 1 by lia. rewrite Z.quot_opp_l, Z.quot_div_nonneg by lia.
    destruct (decide (b <= - a)) as [large | small].
    + pose proof (Z.div_str_pos (- a) b ltac:(lia)). lia.
    + rewrite (Z.div_small (- a) b) by lia. lia.
Qed.

(** Material that was loaded once is loaded at another time exactly when its certificate
    has not been expired for a whole day: until then an expired certificate is taken, and
    counts as one with 0 days remaining. *)
Theorem certificate_expiry_exact `{Tls} files now_ms cert_path key_path client_ca_path loaded t now' :
  load_tls_config files now_ms cert_path key_path client_ca_path = Ok loaded ->
  lt_cert_not_after_ms loaded = Some t -> t <= i64_max ->
  load_tls_config files now' cert_path key_path client_ca_path =
    if now' <? t + MILLIS_PER_DAY
    then Ok (mkLoadedTlsConfig _ (lt_server_config loaded) (Some t) (Some (Z.quot (t - now') MILLIS_PER_DAY)))
    else Err SrvTlsConfiguration.
Proof.
  unfold load_tls_config. intros run expires small.
  destruct (read_certificates files cert_path) as [certs|]; [|done]. cbn in run |- *.
  destruct certs as [|first certs]; [done|].
  destruct (files key_path) as [bytes|]; [|done]. cbn in run |- *.
  destruct (pem_private_key bytes) as [key|]; [|done]. cbn in run |- *.
  destruct (match client_ca_path with Some path => _ | None => _ end) as [roots|]; [|done]. cbn in run |- *.
  destruct (tls_build roots _ key) as [config|]; [|done]. cbn in run |- *.
  destruct (x509_not_after first) as [not_after|] eqn:found.
  2: { unfold inspect_certificate_expiry in run. by rewrite found in run. }
  destruct (expiry_of now_ms first not_after found) as (t' & read & others).
  rewrite read in run. rewrite (others now'). cbn in run |- *.
  assert (t' = Some t) as ->.
  { destruct (default false _) in run; [done|]. injection run as <-. exact expires. }
  cbn in run |- *. destruct (_ <? 0) in run; [done|]. injection run as <-. cbn.
  rewrite (Z.min_l t i64_max small), quot_negative by reflexivity.
  destruct (Z.leb_spec (t - now') (- MILLIS_PER_DAY)), (Z.ltb_spec now' (t + MILLIS_PER_DAY)); try lia; done.
Qed.

(** A library for which every file is one certificate that expires after its first
    byte in seconds, and every key fits. *)
Definition plain_tls : Tls := {|
  tls_config := list byte;
  pem_certificates bytes := [Some bytes];
  pem_private_key := Some;
  is_trust_anchor _ := true;
  tls_build _ _ key := Some key;
  x509_not_after cert := bval <$> head cert;
|}.

Lemma certificate_expiry_exact_witness :
  let files (path : string) : result string (list byte) := Ok (as_bytes path) in
  let loaded := mkLoadedTlsConfig plain_tls [x6b] (Some 99000) (Some 0) in
  load_tls_config (H := plain_tls) files 5 "cert" "k" None = Ok loaded /\
  load_tls_config (H := plain_tls) files 99001 "cert" "k" None = Ok loaded /\
  load_tls_config (H := plain_tls) files 86499000 "cert" "k" None = Err SrvTlsConfiguration.
Proof.
  split_and!; [reflexivity | |].
  - apply (certificate_expiry_exact (H := plain_tls) (fun path => Ok (as_bytes path)) 5 "cert" "k" None
             (mkLoadedTlsConfig plain_tls [x6b] (Some 99000) (Some 0)) 99000 99001); done.
  - apply (certificate_expiry_exact (H := plain_tls) (fun path => Ok (as_bytes path)) 5 "cert" "k" None
             (mkLoadedTlsConfig plain_tls [x6b] (Some 99000) (Some 0)) 99000 86499000); done.
Defined.

(** A server always serves the material of the last reload that succeeded: one that
    fails changes no configuration, whatever is in the files. *)
Theorem reloads_keep_material `{Tls} `{Sha256} `{AuditJson} uuid_to_string hangups : forall state logger,
  tt_config (spawn_tls_reloader uuid_to_string (WakeTick <$> hangups) (state, logger)).1.1 =
  foldl (fun config h =>
           match load_tls_config (hu_files h) (hu_loaded_ms h) (tt_cert_path state) (tt_key_path state)
                   (tt_client_ca_path state) with
           | Ok loaded => lt_server_config loaded
           | Err _ => config
           end) (tt_config state) hangups.
Proof.
  induction hangups as [|h hangups IH]; intros state logger; [done|].
  unfold spawn_tls_reloader in *. cbn [fmap list_fmap task_loop foldl]. unfold reloader_tick at 2.
  cbn [fst snd]. unfold reload. destruct (load_tls_config _ _ _ _ _) as [loaded | err]; rewrite IH; reflexivity.
Qed.

(** ** The entry point of the container *)

(** Calls that prepare the directories. *)
Definition prepares (c : SystemCall) : bool :=
  match c with CallCreateDir _ | CallChown _ _ _ => true | _ => false end.

Section init.
Context (i : InitInputs).

(** A part of the program that only prepares, when it succeeds. *)
Definition preparing {A} (m : fallible (list SystemCall) string A) : Prop :=
  forall trace, exists more, (m trace).1 = trace ++ more /\ Forall (fun c => prepares c = true) more.

Lemma preparing_bind {A B} (m : fallible (list SystemCall) string A) (k : A -> fallible (list SystemCall) string B) :
  preparing m -> (forall a, preparing (k a)) -> preparing (m ≫= k).
Proof.
  intros Hm Hk trace. run_fallible. destruct (Hm trace) as (more & Ht & Hmore).
  destruct (m trace) as [trace' [a|e]]; cbn in *; subst trace'; [|by exists more].
  destruct (Hk a (trace ++ more)) as (more' & Ht' & Hmore'). exists (more ++ more').
  split; [by rewrite Ht', app_assoc|by apply Forall_app].
Qed.

Lemma preparing_ret {A} (a : A) : preparing (mret a).
Proof. intros trace. exists []. by rewrite app_nil_r. Qed.
Lemma preparing_pure {A} (r : result string A) : preparing (mpure r).
Proof. intros trace. exists []. by rewrite app_nil_r. Qed.

Lemma preparing_call c : prepares c = true -> preparing (syscall i c).
Proof.
  intros Hc trace. unfold syscall. destruct (it_fails i c); [exists []; by rewrite app_nil_r|].
  exists [c]. split; [done|by repeat constructor].
Qed.

Lemma preparing_context {A} text (m : fallible (list SystemCall) string A) : preparing m -> preparing (context text m).
Proof.
  intros Hm trace. destruct (Hm trace) as (more & Ht & Hmore). exists more. unfold context.
  by destruct (m trace) as [trace' r].
Qed.

Fixpoint preparing_chown path uid gid (tree : Tree) {struct tree} : preparing (chown_recursive i path uid gid tree).
Proof.
  destruct tree as [entries]. cbn [chown_recursive]. apply preparing_bind; [by apply preparing_call|]. intros _.
  induction entries as [|[name below] entries IH]; [apply preparing_ret|].
  apply preparing_bind; [by apply preparing_call|]. intros _. apply preparing_bind; [|by intros _].
  destruct below as [tree|]; [apply preparing_chown|apply preparing_ret].
Qed.

Lemma preparing_directories data_dir backup_dir uid gid : preparing (prepare_directories i data_dir backup_dir uid gid).
Proof.
  unfold prepare_directories.
  do 2 (apply preparing_bind; [by apply preparing_context, preparing_call|]; intros _).
  apply preparing_bind; [apply preparing_context, preparing_chown|]. intros _.
  case_match; [apply preparing_context, preparing_chown|apply preparing_ret].
Qed.

(** The last three calls. *)
Lemma rights_dropped before uid gid program :
  Forall (fun c => prepares c = true) before ->
  let '(trace, r) := (_ ← set_identity i uid gid;
                      context ("failed to exec " +:+ program) (syscall i (CallExec (it_argv i)))) before in
  forall argv, CallExec argv ∈ trace ->
    argv = it_argv i /\ r = Ok tt /\ trace = before ++ [CallSetGid gid; CallSetUid uid; CallExec argv].
Proof.
  intros Hb. assert (forall argv more, Forall (fun c => match c with CallExec _ => false | _ => true end = true) more ->
    ~ CallExec argv ∈ before ++ more) as Hno.
  { intros argv more Hm [Hin|Hin]%elem_of_app; [|by apply (proj1 (Forall_forall _ _) Hm) in Hin].
    by apply (proj1 (Forall_forall _ _) Hb) in Hin. }
  unfold set_identity, context, syscall. run_fallible.
  destruct (it_fails i (CallSetGid gid)); cbn.
  { intros argv Hin. rewrite <- (app_nil_r before) in Hin. by apply Hno in Hin. }
  destruct (it_fails i (CallSetUid uid)); cbn; [intros argv Hin; by apply Hno in Hin; [|repeat constructor]|].
  destruct (it_fails i (CallExec (it_argv i))); cbn.
  { intros argv Hin. rewrite <- app_assoc in Hin. by apply Hno in Hin; [|repeat constructor]. }
  intros argv [Hin|Hin]%elem_of_app.
  - rewrite <- app_assoc in Hin. by apply Hno in Hin; [|repeat constructor].
  - apply list_elem_of_singleton in Hin. injection Hin as ->. by rewrite <- !app_assoc.
Qed.

End init.

(** The program of the container starts the server with the rights it was told to: when the
    command is started, it is the last thing that happens, the group and then the user
    were given up just before, and everything before that only prepared the directories. *)
Theorem init_drops_rights i invalid trace r argv :
  init_run i invalid [] = (trace, r) -> CallExec argv ∈ trace ->
  argv = it_argv i /\ r = Ok tt /\
  exists uid gid before,
    env_u32 "VAYLIX_RUNTIME_UID" invalid (it_uid i) DEFAULT_UID = Ok uid /\
    env_u32 "VAYLIX_RUNTIME_GID" invalid (it_gid i) DEFAULT_GID = Ok gid /\
    trace = before ++ [CallSetGid gid; CallSetUid uid; CallExec argv] /\
    Forall (fun c => prepares c = true) before.
Proof.
  unfold init_run. destruct (it_argv i) as [|program rest] eqn:Ea; [by intros [= <- <-] ?%not_elem_of_nil|]. cbv zeta.
  rewrite <- Ea. destruct (env_u32 _ _ (it_uid i) _) as [uid|] eqn:Eu; [|by intros [= <- <-] ?%not_elem_of_nil].
  destruct (env_u32 _ _ (it_gid i) _) as [gid|] eqn:Eg; [|by intros [= <- <-] ?%not_elem_of_nil].
  unfold mpure at 1 2. unfold mbind at 1, fallible_bind at 1. unfold mbind at 1, fallible_bind at 1.
  unfold mbind at 1, fallible_bind at 1.
  match goal with |- context [prepare_directories ?j ?a ?b uid gid ?t] =>
    destruct (preparing_directories j a b uid gid t) as (before & Ht & Hb);
    destruct (prepare_directories j a b uid gid t) as [trace' [[]|err]] end; cbn in Ht; subst trace'.
  - intros Hr Hin. pose proof (rights_dropped i before uid gid program Hb) as Hg. rewrite Hr in Hg.
    destruct (Hg argv Hin) as (-> & -> & ->). split; [done|]. split; [done|]. by exists uid, gid, before.
  - intros [= <- <-] Hin. by apply (proj1 (Forall_forall _ _) Hb) in Hin.
Qed.
