(* ===== verification/ConsensusTheorems.v ===== *)
(** * ConsensusTheorems: elections and commit positions

    At most one node wins a term, every leader won its term, and the commit
    position of a leader is what enough voters hold. *)

From S2P Require Import Prelude Text Store State ServerError Consensus Elections ElectionFacts.
From S2P Require Import Samples NodeRuns.

Import ReplicationRuntime.

Section safety.
Context `{ReplicationJson} (V : gset string) (HV : (2 <= size V)%nat).

(** [v] has voted for [n] in term [t]: for itself when it began an election, or in
    a reply. *)
Definition vote (c : Cluster) (t : Z) (v n : string) : Prop :=
  (t, n) ∈ cl_started c /\ v = n \/
  exists request response, (v, request, response) ∈ cl_replies c /\
    vs_vote_granted response = true /\ vr_term request = t /\ vr_candidate_node_id request = n.

(** The vote for [n] in [t] binds a node with this term and vote. *)
Definition promised (elected : list (Z * string)) (t : Z) (n : string) (term : Z) (voted : option string)
    : Prop :=
  t < term \/
  t = term /\ (voted = Some n \/ exists leader, (t, leader) ∈ elected /\ voted = Some leader).

Lemma promised_continues elected t n term voted term' voted' :
  t < u64_max -> promised elected t n term voted -> continues elected term voted term' voted' ->
  promised elected t n term' voted'.
Proof.
  intros Ht [?|[-> Hv]] [?|[?|[<- Hc]]]; try (left; lia).
  right. split; [done|]. destruct Hc as [->|[->|Hc]]; [done| |by right].
  destruct Hv as [?|(? & ? & ?)]; done.
Qed.

Definition node_inv (n : string) (rt : ReplicationRuntime) : Prop :=
  n ∈ V /\ rc_node_id (rr_config rt) = n /\
  members_ok V (insert_members (rc_initial_members (rr_config rt)) ∅) /\
  members_ok V (rp_members (rr_state rt)) /\
  forall p, on_file rt = Some p -> members_ok V (insert_members (pr_members p) ∅).

(** The votes counted so far in a round. *)
Definition round_inv (c : Cluster) (n : string) (r : Round) : Prop :=
  n ∈ V /\ (rn_term r, n) ∈ cl_started c /\
  NoDup (cm_node_id <$> rn_rest r) /\
  (rn_voters r + length (List.filter cm_voter (rn_rest r)))%nat = size V /\
  exists G : gset string, G ⊆ V /\ (n ∉ G) /\ S (size G) = rn_votes r /\
    (forall v, v ∈ G -> vote c (rn_term r) v n) /\
    (forall member, member ∈ rn_rest r -> cm_node_id member ∉ G).

Definition wins (c : Cluster) (t : Z) (n : string) : Prop :=
  exists Q : gset string, Q ⊆ V /\ (quorum_size (size V) <= size Q)%nat /\
    forall v, v ∈ Q -> vote c t v n /\ forall n', vote c t v n' -> n' = n.

Record election_inv (c : Cluster) : Prop := {
  inv_nodes : map_Forall node_inv (cl_nodes c);
  inv_promised t v n rt : t < u64_max -> vote c t v n -> cl_nodes c !! v = Some rt ->
    promised (cl_elected c) t n (current_term rt) (rp_voted_for (rr_state rt)) /\
    exists p, on_file rt = Some p /\
      promised (cl_elected c) t n (pr_current_term p) (pr_voted_for p);
  inv_unique t v n1 n2 : t < u64_max -> vote c t v n1 -> vote c t v n2 ->
    n1 = n2 \/ (t, n1) ∈ cl_elected c \/ (t, n2) ∈ cl_elected c;
  inv_elected t n : t < u64_max -> (t, n) ∈ cl_elected c -> wins c t n;
  inv_heartbeats request : request ∈ cl_heartbeats c ->
    (hb_term request, hb_leader_node_id request) ∈ cl_elected c /\
    members_ok V (insert_members (hb_members request) ∅);
  inv_leaders n rt : cl_nodes c !! n = Some rt -> role rt = RoleLeader ->
    (current_term rt, n) ∈ cl_elected c;
  inv_rounds : map_Forall (round_inv c) (cl_rounds c);
  inv_requests v request : (v, request) ∈ cl_requests c ->
    vr_prevote request = false /\ v <> vr_candidate_node_id request;
  inv_replies v request response : (v, request, response) ∈ cl_replies c ->
    (v, request) ∈ cl_requests c /\ v ∈ V;
}.

(** Two quorums meet. *)
Lemma quorums_meet (Q1 Q2 : gset string) :
  Q1 ⊆ V -> Q2 ⊆ V -> (quorum_size (size V) <= size Q1)%nat -> (quorum_size (size V) <= size Q2)%nat ->
  exists v, v ∈ Q1 /\ v ∈ Q2.
Proof.
  intros Hq1 Hq2 Hs1 Hs2. destruct (decide (Q1 ∩ Q2 = ∅)) as [He|Hn].
  - exfalso. assert (size (Q1 ∪ Q2) <= size V)%nat by (apply subseteq_size; set_solver).
    rewrite size_union in * by set_solver. unfold quorum_size in *.
    pose proof (Nat.div_mod (size V) 2 ltac:(lia)). pose proof (Nat.mod_upper_bound (size V) 2 ltac:(lia)). lia.
  - apply set_choose_L in Hn as [v Hv]. exists v. set_solver.
Qed.

Lemma wins_unique c t n1 n2 : wins c t n1 -> wins c t n2 -> n1 = n2.
Proof.
  intros (Q1 & ? & ? & Hw1) (Q2 & ? & ? & Hw2).
  destruct (quorums_meet Q1 Q2) as (v & Hv1 & Hv2); try done.
  destruct (Hw1 v Hv1) as [_ Hu]. destruct (Hw2 v Hv2) as [Hv _]. symmetry. by apply Hu.
Qed.

(** ** Steps that cast no vote *)

(** A step of one node that keeps its promises. *)
Lemma inv_follows c n rt rt' :
  election_inv c -> cl_nodes c !! n = Some rt -> follows V (cl_elected c) rt rt' ->
  election_inv (c {{ cl_nodes ::= <[n := rt']> }}).
Proof.
  intros Hi Hn [Hc Hm Hv Hf Hr]. destruct (inv_nodes c Hi n rt Hn) as (Hin & Hid & Hinit & Hmem & Hfile).
  split; cbn; try apply Hi.
  - apply map_Forall_insert_2; [|apply Hi]. unfold node_inv. rewrite Hc. split_and!; try done.
    + apply Hm; [by rewrite Hid|done].
    + destruct Hf as [E|(p' & Hp & _ & Hpm)].
      * unfold on_file in *. by rewrite E.
      * intros p Hp'. rewrite Hp in Hp'. injection Hp' as <-. apply Hpm; [by rewrite Hid|done].
  - intros t v n' rt0 Ht Hvote. destruct (decide (v = n)) as [->|Hne];
      [|rewrite lookup_insert_ne by done; by apply (inv_promised c Hi)].
    rewrite lookup_insert_eq. intros [= <-].
    destruct (inv_promised c Hi t n n' rt Ht Hvote Hn) as [Hp (p & Hfp & Hpp)].
    split; [exact (promised_continues _ _ _ _ _ _ _ Ht Hp Hv)|].
    destruct Hf as [E|(p' & Hp' & Hcp & _)].
    + exists p. split; [|done]. unfold on_file in *. by rewrite E.
    + exists p'. split; [done|]. exact (promised_continues _ _ _ _ _ _ _ Ht Hp Hcp).
  - intros n0 rt0. destruct (decide (n0 = n)) as [->|Hne];
      [|rewrite lookup_insert_ne by done; by apply (inv_leaders c Hi)].
    rewrite lookup_insert_eq. intros [= <-] [Hl ->]%Hr. by apply (inv_leaders c Hi).
Qed.

Lemma inv_rounds_change c f :
  election_inv c -> map_Forall (round_inv c) (f (cl_rounds c)) ->
  election_inv (c {{ cl_rounds ::= f }}).
Proof. intros Hi Hr. split; cbn; try apply Hi. exact Hr. Qed.

Lemma round_inv_mono c c' n r :
  (forall t m, (t, m) ∈ cl_started c -> (t, m) ∈ cl_started c') ->
  (forall t v m, vote c t v m -> vote c' t v m) -> round_inv c n r -> round_inv c' n r.
Proof.
  intros Hs Hv (? & ? & ? & ? & G & ? & ? & ? & Hg & ?). split_and!; auto.
  exists G. split_and!; auto.
Qed.

(** ** Casting a vote *)

(** A vote for [n] by a node that can still vote for it conflicts with no earlier
    one, unless [n] is a leader already. *)
Lemma vote_free c v rt t n m :
  election_inv c -> cl_nodes c !! v = Some rt -> t < u64_max -> current_term rt <= t ->
  (current_term rt = t -> rp_voted_for (rr_state rt) = None \/ rp_voted_for (rr_state rt) = Some n) ->
  vote c t v m -> m = n \/ (t, n) ∈ cl_elected c.
Proof.
  intros Hi Hv Ht Hle Hfree Hm.
  destruct (inv_promised c Hi t v m rt Ht Hm Hv) as [[?|[-> Hp]] _]; [lia|].
  destruct (Hfree eq_refl) as [E|E]; rewrite E in Hp; destruct Hp as [?|(l & ? & ?)]; simplify_eq; auto.
Qed.

Lemma inv_cast c c' v n t rt rt' :
  election_inv c -> cl_nodes c !! v = Some rt -> follows V (cl_elected c) rt rt' ->
  (t < u64_max -> current_term rt <= t) ->
  (t < u64_max -> current_term rt = t ->
   rp_voted_for (rr_state rt) = None \/ rp_voted_for (rr_state rt) = Some n) ->
  current_term rt' = t -> rp_voted_for (rr_state rt') = Some n ->
  on_file rt' = Some (to_persist (rr_state rt')) ->
  cl_nodes c' = <[v := rt']> (cl_nodes c) -> cl_elected c' = cl_elected c ->
  cl_heartbeats c' = cl_heartbeats c -> cl_requests c' = cl_requests c ->
  (forall v request response, (v, request, response) ∈ cl_replies c' ->
   (v, request) ∈ cl_requests c /\ v ∈ V) ->
  (forall t v m, vote c t v m -> vote c' t v m) ->
  (forall t' v' m, vote c' t' v' m -> vote c t' v' m \/ t' = t /\ v' = v /\ m = n) ->
  map_Forall (round_inv c') (cl_rounds c') -> election_inv c'.
Proof.
  intros Hi Hv Hf Hle Hfree Ht' Hv' Hfile Hn He Hh Hrq Hrp Hmono Hnew Hrounds.
  assert (forall m, t < u64_max -> vote c t v m -> m = n \/ (t, n) ∈ cl_elected c) as Hvf
    by (intros m Ht; eapply vote_free; eauto).
  pose proof (inv_follows c v rt rt' Hi Hv Hf) as Hi1.
  split; rewrite ?Hn, ?He, ?Hh, ?Hrq; try exact Hrounds; try exact Hrp; try apply Hi1.
  - intros t0 v0 m rt0 Ht0 [Hold|(-> & -> & ->)]%Hnew Hl.
    + apply (inv_promised _ Hi1 t0 v0 m rt0 Ht0); done.
    + rewrite lookup_insert_eq in Hl. injection Hl as <-.
      split; [right; auto|]. exists (to_persist (rr_state rt')). split; [done|]. right. auto.
  - intros t0 v0 n1 n2 Ht0 [H1|(-> & -> & ->)]%Hnew [H2|(E1 & E2 & ->)]%Hnew.
    + by apply (inv_unique c Hi t0 v0).
    + subst. destruct (Hvf n1 Ht0 H1) as [->|?]; auto.
    + destruct (Hvf n2 Ht0 H2) as [->|?]; auto.
    + auto.
  - intros t0 n0 Ht0 Hel. destruct (inv_elected c Hi t0 n0 Ht0 Hel) as (Q & HQ & Hsz & HQv).
    exists Q. split_and!; [done|done|]. intros w Hw. destruct (HQv w Hw) as [Hvw Hu]. split; [auto|].
    intros n' [Hold|(-> & -> & ->)]%Hnew; [auto|].
    destruct (Hvf n0 Ht0 Hvw) as [->|Hel']; [done|].
    apply (wins_unique c t); by apply (inv_elected c Hi).
Qed.

(** ** The steps of an election *)

Lemma inv_begin c n rt rt' env addr probe :
  election_inv c -> cl_nodes c !! n = Some rt -> begin_election env rt = (rt', Ok probe) ->
  election_inv (c {{ cl_nodes ::= <[n := rt']>;
                     cl_rounds ::= <[n := start_round addr probe]>;
                     cl_started ::= cons (rn_term (start_round addr probe), n) }}).
Proof.
  intros Hi Hn Hx. destruct (inv_nodes c Hi n rt Hn) as (Hin & Hid & _ & Hmem & _).
  destruct (begin_election_spec V (cl_elected c) env rt rt' _ Hx) as (Hf & Ht & Hp).
  destruct (Hp probe eq_refl) as (Hterm & Hms & Hfile & Hvoted). rewrite Hid in Hvoted.
  destruct probe as [[[term ms] index] lt]. cbn in Hterm, Hms. subst term ms.
  match goal with |- election_inv ?x => set (c' := x) end.
  assert (forall t v m, vote c t v m -> vote c' t v m) as Hmono.
  { intros t v m [[? ->]|Hr]; [|by right]. left. split; [|done]. by right. }
  apply (inv_cast c _ n n (current_term rt') rt rt'); try done.
  - rewrite Ht. width_lia.
  - rewrite Ht. width_lia.
  - intros v request response. apply Hi.
  - intros t v m [[Hs ->]|Hr]; [|left; by right]. apply elem_of_cons in Hs as [[= -> ->]|Hs]; [auto|].
    left. left. auto.
  - apply map_Forall_insert_2.
    + split_and!; cbn; [done|left|..].
      * rewrite well_keyed_ids by apply Hmem. apply entries_in_order_NoDup.
      * fold (voters (rp_members (rr_state rt))). by rewrite (voters_length V).
      * exists ∅. rewrite size_empty. set_solver.
    + intros m r Hr. eapply round_inv_mono; [| |by apply (inv_rounds c Hi)]; [|done]. intros. by right.
Qed.

Lemma inv_vote c v rt rt' env request response :
  election_inv c -> (v, request) ∈ cl_requests c -> cl_nodes c !! v = Some rt ->
  handle_vote_request env request rt = (rt', Ok response) ->
  election_inv (c {{ cl_nodes ::= <[v := rt']>; cl_replies ::= cons (v, request, response) }}).
Proof.
  intros Hi Hrq Hv Hx. destruct (inv_nodes c Hi v rt Hv) as (Hin & Hid & _ & Hmem & _).
  destruct (inv_requests c Hi v request Hrq) as [Hpre _].
  destruct (handle_vote_request_spec V (cl_elected c) env request rt rt' _ Hmem Hpre Hx) as [Hf Hg].
  match goal with |- election_inv ?x => set (c' := x) end.
  assert (forall t u m, vote c t u m -> vote c' t u m) as Hmono.
  { intros t u m [?|(rq & rs & ? & ?)]; [by left|]. right. exists rq, rs. split; [by right|done]. }
  assert (forall u rq rs, (u, rq, rs) ∈ cl_replies c' -> (u, rq) ∈ cl_requests c /\ u ∈ V) as Hrp.
  { intros u rq rs [[= -> -> ->]|?]%elem_of_cons; [done|]. by eapply (inv_replies c Hi). }
  assert (map_Forall (round_inv c') (cl_rounds c)) as Hrounds.
  { intros m r Hr. eapply round_inv_mono; [|exact Hmono|by apply (inv_rounds c Hi)]. done. }
  destruct (vs_vote_granted response) eqn:Hgr.
  - destruct (Hg response eq_refl Hgr) as (Hle & Hfree & Ht' & Hv' & Hfile).
    eapply (inv_cast c c' v _ (vr_term request) rt rt'); eauto.
    intros t' v' m [?|(rq & rs & Hr & Hgr' & <- & <-)]; [left; by left|].
    apply elem_of_cons in Hr as [[= -> -> ->]|Hr]; [auto|]. left. right. eauto 10.
  - pose proof (inv_follows c v rt rt' Hi Hv Hf) as Hi1.
    assert (forall t u m, vote c' t u m -> vote c t u m) as Hback.
    { intros t u m [?|(rq & rs & Hr & Hgr' & ?)]; [by left|]. right. exists rq, rs.
      apply elem_of_cons in Hr as [[= -> -> ->]|Hr]; [congruence|done]. }
    split; try exact Hrounds; try exact Hrp; try apply Hi1.
    + intros t u m rt0 Ht Hvt. apply (inv_promised _ Hi1); [done|by apply Hback].
    + intros t u n1 n2 Ht H1 H2. apply (inv_unique c Hi t u); auto.
    + intros t m Ht Hel. destruct (inv_elected c Hi t m Ht Hel) as (Q & HQ & Hs & HQv).
      exists Q. split_and!; [done|done|]. intros w Hw. destruct (HQv w Hw). auto.
Qed.

(** Going on to the next member, with a vote that was cast or without one. *)
Lemma inv_advance c n r member granted :
  election_inv c -> cl_rounds c !! n = Some r -> head (rn_rest r) = Some member ->
  (granted = true -> cm_node_id member ∈ V /\ cm_node_id member <> n /\
                     vote c (rn_term r) (cm_node_id member) n) ->
  election_inv (c {{ cl_rounds ::= <[n := advance member granted r]> }}).
Proof.
  intros Hi Hn Hh Hg. apply inv_rounds_change; [done|]. apply map_Forall_insert_2; [|apply Hi].
  destruct (inv_rounds c Hi n r Hn) as (Hin & Hs & Hnd & Hcount & G & HG & Hself & Hsize & Hvotes & Hrest).
  unfold round_inv. destruct r as [rt ra ri rl rest rv rg rw]. cbn in *.
  destruct rest as [|m rest]; [done|]. cbn in *. injection Hh as ->.
  apply NoDup_cons in Hnd as [Hni Hnd]. split_and!; [done|done|done|destruct (cm_voter member); cbn in *; lia|].
  destruct granted.
  - destruct Hg as (Hmv & Hne & Hvote); [done|]. exists (G ∪ {[cm_node_id member]}).
    assert (cm_node_id member ∉ G) as Hnew by (apply Hrest; by left). split_and!.
    + set_solver.
    + set_solver.
    + rewrite size_union, size_singleton by set_solver. lia.
    + set_solver.
    + intros m' Hm' [Hin'|Heq%elem_of_singleton]%elem_of_union; [by apply (Hrest m'); [right|]|].
      apply Hni. rewrite <- Heq. apply list_elem_of_fmap. eauto.
  - exists G. split_and!; try done. intros m' Hm'. apply Hrest. by right.
Qed.

Lemma inv_ask c n r member :
  election_inv c -> cl_rounds c !! n = Some r -> skipped n member = false ->
  election_inv (c {{ cl_rounds ::= <[n := r {{ rn_waiting := true }}]>;
                     cl_requests ::= cons (cm_node_id member, round_request n r) }}).
Proof.
  intros Hi Hn [_ Hne%bool_decide_eq_false]%orb_false_iff. split; cbn; try apply Hi.
  - apply map_Forall_insert_2; [|apply Hi]. exact (inv_rounds c Hi n r Hn).
  - intros v request [[= -> ->]|Hr]%elem_of_cons; [done|]. by apply (inv_requests c Hi).
  - intros v request response Hr. destruct (inv_replies c Hi v request response Hr). split; [by right|done].
Qed.

(** A round that reached a quorum has elected its candidate and nobody else. *)
Lemma round_wins c n r :
  election_inv c -> cl_rounds c !! n = Some r -> rn_rest r = [] -> rn_term r < u64_max ->
  (quorum_size (Nat.max (rn_voters r) 1) <= rn_votes r)%nat -> wins c (rn_term r) n.
Proof.
  intros Hi Hn Hrest Ht Hq. destruct (decide ((rn_term r, n) ∈ cl_elected c)) as [?|Hnew];
    [by apply (inv_elected c Hi)|].
  destruct (inv_rounds c Hi n r Hn) as (Hin & Hs & _ & Hcount & G & HG & Hself & Hsize & Hvotes & _).
  rewrite Hrest in Hcount. cbn in Hcount. set (Q := G ∪ {[n]}).
  assert (forall v, v ∈ Q -> vote c (rn_term r) v n) as HQ.
  { intros v [?|Hv%elem_of_singleton]%elem_of_union; [by apply Hvotes|]. left. by subst v. }
  assert (Q ⊆ V) as HQV by set_solver.
  assert (quorum_size (size V) <= size Q)%nat as HQs.
  { unfold Q. rewrite size_union, size_singleton by set_solver.
    replace (size V) with (Nat.max (rn_voters r) 1) by lia. lia. }
  exists Q. split_and!; [done|done|]. intros v Hv. split; [by apply HQ|]. intros n' Hn'.
  destruct (inv_unique c Hi (rn_term r) v n' n Ht Hn' (HQ v Hv)) as [->|[Hel|?]]; [done| |done].
  destruct (inv_elected c Hi _ _ Ht Hel) as (Q' & HQ'V & HQ's & HQ').
  destruct (quorums_meet Q Q') as (w & Hw & Hw'); try done. symmetry. by apply (HQ' w Hw'), HQ.
Qed.

Lemma promised_mono elected elected' t n term voted :
  (forall x, x ∈ elected -> x ∈ elected') ->
  promised elected t n term voted -> promised elected' t n term voted.
Proof. intros Hm [?|[? [?|(l & ? & ?)]]]; [by left|right; auto|]. right. split; [done|]. right. eauto. Qed.

Lemma inv_finalize c n r rt rt' env res :
  election_inv c -> cl_rounds c !! n = Some r -> rn_rest r = [] -> cl_nodes c !! n = Some rt ->
  finalize_election env (rn_term r) (rn_votes r) (Nat.max (rn_voters r) 1) rt = (rt', res) ->
  election_inv (c {{ cl_nodes ::= <[n := rt']>;
                     cl_rounds ::= delete n;
                     cl_elected ::= if bool_decide (role rt' = RoleLeader)
                                    then cons (current_term rt', n) else id }}).
Proof.
  intros Hi Hr Hrest Hn Hx.
  set (E := (if bool_decide (role rt' = RoleLeader) then cons (current_term rt', n) else id) (cl_elected c)).
  destruct (finalize_election_spec V E _ _ _ _ _ _ _ Hx) as (Hf & Ht & Hl). clear Hx.
  assert (forall x, x ∈ cl_elected c -> x ∈ E) as Hmono.
  { intros x Hx. unfold E. case_bool_decide; [by right|done]. }
  assert (role rt' = RoleLeader -> (current_term rt, n) ∈ E) as HleadE.
  { intros Hlead. unfold E. rewrite bool_decide_true by done. rewrite Ht. by left. }
  set (rt0 := rt {{ rr_state ::= _ }}) in Hf.
  assert (election_inv (mkCluster (<[n := rt0]> (cl_nodes c)) (delete n (cl_rounds c)) (cl_requests c)
    (cl_replies c) (cl_heartbeats c) (cl_started c) E)) as Hi1.
  { split; cbn; try apply Hi.
    - apply map_Forall_insert_2; [exact (inv_nodes c Hi n rt Hn)|apply Hi].
    - intros t v m rt1 Ht1 Hv Hl1. assert (exists rt2, cl_nodes c !! v = Some rt2 /\
        rr_file rt1 = rr_file rt2 /\ current_term rt1 = current_term rt2 /\
        rp_voted_for (rr_state rt1) = rp_voted_for (rr_state rt2)) as (rt2 & Hl2 & Hfile & -> & ->).
      { destruct (decide (v = n)) as [->|Hne]; [rewrite lookup_insert_eq in Hl1; injection Hl1 as <-; eauto|].
        rewrite lookup_insert_ne in Hl1 by done. eauto. }
      destruct (inv_promised c Hi t v m rt2 Ht1 Hv Hl2) as [Hp (p & Hfp & Hpp)].
      split; [by eapply promised_mono|]. exists p. split; [unfold on_file in *; by rewrite Hfile|].
      by eapply promised_mono.
    - intros t v n1 n2 Ht1 H1 H2. destruct (inv_unique c Hi t v n1 n2 Ht1 H1 H2) as [?|[?|?]]; auto.
    - intros t m Ht1 Hel. assert ((t, m) ∈ cl_elected c \/ wins c t m) as [?|?]; [|by apply (inv_elected c Hi)|done].
      revert Hel. unfold E. case_bool_decide as Hlead; [|by left]. rewrite Ht.
      intros [[= -> ->]|?]%elem_of_cons; [|by left].
      destruct (Hl Hlead) as [?|[Hterm Hq]]; [left; by apply (inv_leaders c Hi)|right].
      rewrite Hterm in *. by apply round_wins.
    - intros request Hh. destruct (inv_heartbeats c Hi request Hh). auto.
    - intros m rt1 Hl1. destruct (decide (m = n)) as [->|Hne].
      + rewrite lookup_insert_eq in Hl1. injection Hl1 as <-. apply HleadE.
      + rewrite lookup_insert_ne in Hl1 by done. intros Hlead. by apply Hmono, (inv_leaders c Hi).
    - apply map_Forall_delete, Hi. }
  apply (inv_follows _ n rt0 rt') in Hi1; [|apply lookup_insert_eq|exact Hf].
  revert Hi1. cbn [cl_nodes apply_update]. by rewrite insert_insert_eq.
Qed.

(** ** Restarts *)

Lemma inv_restart c n rt rt' env :
  election_inv c -> cl_nodes c !! n = Some rt -> new env (rr_config rt) (Ok (rr_file rt)) = Ok rt' ->
  election_inv (c {{ cl_nodes ::= <[n := rt']>; cl_rounds ::= delete n }}).
Proof.
  intros Hi Hn Hx. destruct (inv_nodes c Hi n rt Hn) as (Hin & Hid & Hinit & Hmem & Hfile).
  assert (rr_file rt' = rr_file rt) as Hrf.
  { unfold new in Hx. apply result_bind_ok in Hx as (p & _ & Hx). by injection Hx as <-. }
  assert (on_file rt' = on_file rt) as Hof by (unfold on_file; by rewrite Hrf).
  destruct (new_spec V env (rr_config rt) (rr_file rt) rt') as (Hc & _ & Hrole & Hm & Hp);
    [done|by rewrite Hid|done|by rewrite Hof|done|].
  split; cbn; try apply Hi.
  - apply map_Forall_insert_2; [|apply Hi]. unfold node_inv. rewrite Hc, Hof. done.
  - intros t v m rt0 Ht Hv. destruct (decide (v = n)) as [->|Hne];
      [|rewrite lookup_insert_ne by done; by apply (inv_promised c Hi)].
    rewrite lookup_insert_eq. intros [= <-].
    destruct (inv_promised c Hi t n m rt Ht Hv Hn) as [_ (p & Hfp & Hpp)].
    rewrite <- Hof in Hfp. destruct (Hp p Hfp) as [-> ->]. split; [done|]. by exists p.
  - intros m rt0. destruct (decide (m = n)) as [->|Hne];
      [|rewrite lookup_insert_ne by done; by apply (inv_leaders c Hi)].
    rewrite lookup_insert_eq. by intros [= <-] ?.
  - apply map_Forall_delete, Hi.
Qed.

Lemma initial_inv c : initial V c -> election_inv c.
Proof.
  intros [Hnodes ->]. assert (forall t v n, ~ vote (mkCluster (cl_nodes c) ∅ [] [] [] [] []) t v n) as Hno.
  { intros t v n [[Hs _]|(rq & rs & Hr & _)]; by apply elem_of_nil in Hs || apply elem_of_nil in Hr. }
  assert (forall n rt, cl_nodes c !! n = Some rt -> node_inv n rt /\ role rt <> RoleLeader) as Hn.
  { intros n rt Hl. destruct (Hnodes n rt Hl) as (Hin & Hid & Hinit & env & Hx).
    assert (rr_file rt = None) as Hrf.
    { unfold new in Hx. apply result_bind_ok in Hx as (p & _ & Hx). by injection Hx as <-. }
    assert (on_file rt = None) as Hof by (unfold on_file; by rewrite Hrf).
    destruct (new_spec V env (rr_config rt) None rt) as (_ & _ & Hrole & Hm & _);
      [done|by rewrite Hid|done|by rewrite Hof|done|]. split; [|done]. split_and!; try done. by rewrite Hof. }
  split; cbn.
  - intros n rt Hl. by apply Hn.
  - intros t v n rt Ht []%Hno.
  - intros t v n1 n2 Ht []%Hno.
  - intros t n Ht []%elem_of_nil.
  - intros request []%elem_of_nil.
  - intros n rt Hl Hrole. by destruct (Hn n rt Hl).
  - apply map_Forall_empty.
  - intros v request []%elem_of_nil.
  - intros v request response []%elem_of_nil.
Qed.

(** ** Every step *)

Lemma step_inv c c' : election_inv c -> step V c c' -> election_inv c'.
Proof.
  intros Hi Hs. pose proof (inv_follows c) as Hfollow. destruct Hs as
    [c n rt rt' Hn Hl|c n rt rt' env addr r Hn Hx|c n rt rt' env term r Hn Hx|c n rt rt' env Hn Hx
    |c n rt rt' env addr probe Hn Hx|c n rt rt' env err Hn Hx|c n r member Hr Hh Hk|c n r member Hr Hh Hk
    |c v rt rt' env request response Hq Hv Hx|c v rt rt' env request err Hq Hv Hx
    |c n r member response Hr Hw Hh Hp Ht|c n r rt rt' env response res Hr Hn Ht Hx
    |c n r member Hr Hw Hh|c n r rt rt' env res Hr He Hn Hx|c n rt request members Hn Hp Hm
    |c n rt rt' env request res Hq Hn Hx|c n rt rt' env request addr res Hq Hn Hx].
  - by apply (Hfollow n rt rt' Hi Hn), follows_local.
  - by eapply (Hfollow n rt rt' Hi Hn), follows_address.
  - by eapply (Hfollow n rt rt' Hi Hn), follows_observe_term.
  - by eapply inv_restart.
  - by eapply inv_begin.
  - apply (Hfollow n rt rt' Hi Hn). by eapply begin_election_spec.
  - by apply inv_advance.
  - by eapply inv_ask.
  - by eapply inv_vote.
  - apply (Hfollow v rt rt' Hi Hv). eapply handle_vote_request_spec; [| |exact Hx].
    + by destruct (inv_nodes c Hi v rt Hv) as (_ & _ & _ & ? & _).
    + by apply (inv_requests c Hi v).
  - apply inv_advance; [done..|]. intros Hg. destruct (inv_replies c Hi _ _ _ Hp) as [Hq Hin].
    destruct (inv_requests c Hi _ _ Hq) as [_ Hne]. split_and!; [done|done|]. right. eauto 10.
  - apply (inv_rounds_change (c {{ cl_nodes ::= <[n := rt']> }})).
    + by eapply (Hfollow n rt rt' Hi Hn), follows_observe_term.
    + apply map_Forall_delete, Hi.
  - by apply inv_advance.
  - by eapply inv_finalize.
  - split; cbn; try apply Hi. intros rq [->|Hrq]%elem_of_cons; [|by apply (inv_heartbeats c Hi)].
    unfold leader_heartbeat_payload in Hp. case_bool_decide as Hl; [|done]. injection Hp as <-. cbn.
    split; [|done]. destruct (inv_nodes c Hi n rt Hn) as (_ & -> & _). by apply (inv_leaders c Hi).
  - destruct (inv_heartbeats c Hi request Hq). by eapply (Hfollow n rt rt' Hi Hn), follows_heartbeat.
  - destruct (inv_heartbeats c Hi request Hq). by eapply (Hfollow n rt rt' Hi Hn), follows_status.
Qed.

Lemma reachable_inv c : reachable V c -> election_inv c.
Proof. induction 1; eauto using initial_inv, step_inv. Qed.

Lemma elected_unique c t n1 n2 :
  reachable V c -> t < u64_max -> (t, n1) ∈ cl_elected c -> (t, n2) ∈ cl_elected c -> n1 = n2.
Proof. intros Hi%reachable_inv Ht H1 H2. apply (wins_unique c t); by apply (inv_elected c Hi). Qed.

End safety.

(** * What the commit position of a leader says

    [recompute_commit_sequence] sorts the positions of the voters and picks one of
    them by index.  Here that index is in range, and the position it picks is the
    highest one that enough voters have reached. *)

(** The position a leader knows of a member. *)
Definition known_position (config : ReplicationConfig) (st : ReplicationState)
    (member : ClusterMember) : Z :=
  if bool_decide (cm_node_id member = rc_node_id config) then rp_local_last_applied_sequence st
  else default 0 (fp_match_index <$> rp_followers st !! cm_node_id member).

(** The voters known to hold the log up to [s]. *)
Definition holders (config : ReplicationConfig) (st : ReplicationState) (s : Z)
    : list ClusterMember :=
  filter (fun member => s <= known_position config st member) (voters (rp_members st)).

Lemma filter_forall {A} (P : A -> Prop) `{forall x, Decision (P x)} l :
  Forall P l <-> (length l <= length (filter P l))%nat.
Proof.
  induction l as [|x l IH]; [by split; [cbn; lia|constructor]|].
  rewrite Forall_cons, IH. pose proof (length_filter P l) as Hl. destruct (decide (P x)) as [Hx|Hx].
  - rewrite filter_cons_True by done. cbn. split; [lia|]. split; [done|lia].
  - rewrite filter_cons_False by done. cbn. split; [naive_solver|lia].
Qed.

Lemma filter_fmap_length {A B} (f : A -> B) (P : B -> Prop) `{forall x, Decision (P x)} l :
  length (filter P (f <$> l)) = length (filter (fun x => P (f x)) l).
Proof.
  induction l as [|x l IH]; [done|]. rewrite fmap_cons, !filter_cons.
  destruct (decide (P (f x))), (decide (P (f x))); cbn; by rewrite ?IH.
Qed.

(** In a sorted list, the elements from the [i]-th on are those above it. *)
Lemma sorted_count l i x s :
  StronglySorted Z.le l -> l !! i = Some x ->
  s <= x <-> (length l - i <= length (filter (Z.le s) l))%nat.
Proof.
  intros Hl. revert i. induction Hl as [|a l Hl IH Ha]; intros i Hi; [by destruct i|].
  pose proof (length_filter (Z.le s) l) as Hle. destruct (decide (s <= a)) as [Hs|Hs].
  - assert (length l <= length (filter (Z.le s) l))%nat as Hall.
    { apply filter_forall. eapply Forall_impl; [exact Ha|]. cbn. lia. }
    rewrite filter_cons_True by done. cbn. split; [lia|intros _].
    destruct i as [|i]; cbn in Hi; [congruence|].
    apply list_elem_of_lookup_2 in Hi. rewrite Forall_forall in Ha. specialize (Ha x Hi). lia.
  - rewrite filter_cons_False by done. destruct i as [|i]; cbn in Hi.
    + injection Hi as ->. cbn. lia.
    + by rewrite (IH i Hi).
Qed.

Section facts.
Context (config : ReplicationConfig) (st : ReplicationState).

Lemma voter_match_known :
  voter_match_sequences config st = known_position config st <$> voters (rp_members st).
Proof. done. Qed.

Lemma holders_length s :
  length (holders config st s) = length (filter (Z.le s) (voter_match_sequences config st)).
Proof. rewrite voter_match_known, filter_fmap_length. done. Qed.

Lemma voters_pos : voters (rp_members st) <> [] -> (0 < length (voters (rp_members st)))%nat.
Proof. destruct (voters (rp_members st)); cbn; [done|lia]. Qed.

(** The index into the sorted positions is in range for every quorum but 0, and the
    position there is the highest one that [quorum] voters have reached. *)
Lemma nth_highest_in_range quorum :
  voters (rp_members st) <> [] -> (0 < quorum)%nat ->
  let matches := merge_sort Z.le (voter_match_sequences config st) in
  matches !! (length matches - quorum)%nat = Some (nth_highest_voter_match config st quorum).
Proof.
  intros Hv Hq matches.
  assert (0 < length matches)%nat as Hl.
  { unfold matches. rewrite merge_sort_Permutation, voter_match_known, length_fmap.
    by apply voters_pos. }
  assert (nth_highest_voter_match config st quorum
          = default 0 (matches !! (length matches - quorum)%nat)) as ->.
  { unfold nth_highest_voter_match, matches. by destruct (voter_match_sequences config st). }
  destruct (lookup_lt_is_Some_2 matches (length matches - quorum)) as [x Hx]; [lia|].
  by rewrite Hx.
Qed.

Lemma nth_highest_spec quorum s :
  (0 < quorum <= length (voters (rp_members st)))%nat ->
  s <= nth_highest_voter_match config st quorum <-> (quorum <= length (holders config st s))%nat.
Proof.
  intros Hq. assert (voters (rp_members st) <> []) as Hv by (intros E; rewrite E in Hq; cbn in Hq; lia).
  pose proof (nth_highest_in_range quorum Hv ltac:(lia)) as Hx. cbv zeta in Hx.
  rewrite (sorted_count _ _ _ s (StronglySorted_merge_sort Z.le _) Hx).
  rewrite merge_sort_Permutation, holders_length, voter_match_known, length_fmap.
  by replace (length (voters (rp_members st)) - (length (voters (rp_members st)) - quorum))%nat
    with quorum by lia.
Qed.

Lemma foldr_min_spec m ms s : s <= foldr Z.min m ms <-> Forall (Z.le s) (m :: ms).
Proof.
  rewrite Forall_cons. induction ms as [|x ms IH]; cbn; [rewrite Forall_nil; tauto|].
  rewrite Z.min_glb_iff, IH, Forall_cons. tauto.
Qed.

Lemma min_voter_match_spec s :
  voters (rp_members st) <> [] ->
  s <= min_voter_match config st <->
  (length (voters (rp_members st)) <= length (holders config st s))%nat.
Proof.
  intros Hv. rewrite holders_length. unfold min_voter_match.
  assert (length (voters (rp_members st)) = length (voter_match_sequences config st)) as Hl
    by by rewrite voter_match_known, length_fmap.
  destruct (voter_match_sequences config st) as [|m ms] eqn:E.
  { by destruct (voters (rp_members st)). }
  by rewrite foldr_min_spec, Hl, <- filter_forall.
Qed.

(** How many voters must hold an entry for it to be committed. *)
Definition needed_holders : nat :=
  match rc_write_ack_mode config with
  | AckLocal => 0
  | AckReplica => quorum_size (length (voters (rp_members st)))
  | AckAll => length (voters (rp_members st))
  end.

Lemma recompute_commit_spec s :
  voters (rp_members st) <> [] ->
  s <= rp_commit_sequence (recompute_commit_sequence config st) <->
  s <= rp_commit_sequence st \/
  (s <= rp_local_last_applied_sequence st /\
   (needed_holders <= length (holders config st s))%nat).
Proof.
  intros Hv. unfold recompute_commit_sequence, needed_holders.
  cbn -[Z.max Z.min nth_highest_voter_match min_voter_match quorum_size_from_members voters holders].
  rewrite Z.max_le_iff, Z.min_glb_iff.
  pose proof (voters_pos Hv).
  destruct (rc_write_ack_mode config).
  - split; intros [?|?]; auto; right; split; [|lia|..]; tauto.
  - unfold quorum_size_from_members, voter_count. rewrite Nat.max_l by lia.
    rewrite nth_highest_spec; [tauto|]. unfold quorum_size. split; [lia|].
    pose proof (Nat.div_lt (length (voters (rp_members st))) 2). lia.
  - rewrite min_voter_match_spec by done. tauto.
Qed.

End facts.

Import ReplicationRuntime.

(** C2: election safety.  In a cluster with a fixed set of at least two voters, with
    messages lost, repeated or late, nodes restarting from their state files and
    writes of these files failing, no two nodes ever win the election of one term,
    and every node that acts as leader has won the election of its term.  (A term
    that reached the largest 64-bit number cannot grow any more and is excluded.) *)
Theorem election_safety `{ReplicationJson} (V : gset string) c :
  (2 <= size V)%nat -> reachable V c ->
  (forall t n1 n2, t < u64_max -> (t, n1) ∈ cl_elected c -> (t, n2) ∈ cl_elected c -> n1 = n2) /\
  (forall n rt, cl_nodes c !! n = Some rt -> role rt = RoleLeader ->
     (current_term rt, n) ∈ cl_elected c).
Proof.
  intros HV Hc. split.
  - intros t n1 n2. by apply (elected_unique V HV).
  - intros n rt. apply (inv_leaders V c). by apply reachable_inv.
Qed.

Lemma election_safety_witness :
  reachable three_voters three_elected /\ cl_elected three_elected = [(1, "c"%string)] /\
  forall n, (1, n) ∈ cl_elected three_elected -> n = "c"%string.
Proof.
  assert (cl_elected three_elected = [(1, "c"%string)]) as He by (vm_compute; reflexivity).
  split; [exact three_elected_reachable|]. split; [exact He|]. intros n Hn.
  refine (proj1 (election_safety three_voters three_elected _ three_elected_reachable) 1 n "c"%string _ Hn _).
  - vm_compute. lia.
  - vm_compute. reflexivity.
  - rewrite He. by apply list_elem_of_singleton.
Defined.

(** C18: the commit position of a leader is exact.  After the positions of the voters
    are counted again, a position is committed exactly when it was committed before
    or the leader has it and enough voters are known to hold it: a majority, all of
    them, or none, as the acknowledgement mode asks. *)
Theorem commit_position_exact config st s :
  voters (rp_members st) <> [] ->
  s <= rp_commit_sequence (recompute_commit_sequence config st) <->
  s <= rp_commit_sequence st \/
  (s <= rp_local_last_applied_sequence st /\
   (needed_holders config st <= length (holders config st s))%nat).
Proof. apply recompute_commit_spec. Qed.

(** The leader [c] has five entries and [a] has acknowledged three of them. *)
Definition three_leader : option ReplicationRuntime :=
  rt ← cl_nodes three_elected !! "c"%string;
  Some (register_follower_ack (at_time 2) "a" 3 1 "c" (set_local_last_applied_state 5 (Some 1) None rt)).

Lemma commit_position_exact_witness :
  exists rt, three_leader = Some rt /\
    3 <= rp_commit_sequence (recompute_commit_sequence (rr_config rt) (rr_state rt)) /\
    ~ 4 <= rp_commit_sequence (recompute_commit_sequence (rr_config rt) (rr_state rt)).
Proof.
  destruct three_leader as [rt|] eqn:E; [|exfalso; vm_compute in E; discriminate].
  exists rt. split; [reflexivity|].
  assert (voters (rp_members (rr_state rt)) <> []) as Hv.
  { vm_compute in E. injection E as <-. vm_compute. discriminate. }
  split.
  - apply (commit_position_exact (rr_config rt) (rr_state rt) 3 Hv). right.
    vm_compute in E. injection E as <-. vm_compute. split; [discriminate|lia].
  - intros Hc. apply (commit_position_exact (rr_config rt) (rr_state rt) 4 Hv) in Hc.
    vm_compute in E. injection E as <-. vm_compute in Hc. destruct Hc as [Hc|[_ Hc]]; [by apply Hc|lia].
Defined.
