(* ===== verification/CommandTheorems.v ===== *)
(** * CommandTheorems: the command language is parsed completely and exactly

    First a printer of commands as tokens and as lines of text, then the theorems
    that compare the lexer and the parser with it. *)

From S2P Require Import Prelude Text Command Lexer Parser.

Definition arg (s : string) : Token := QuotedString s.
Definition num (z : Z) : Token := QuotedString (int_to_string z).
Definition text_arg (v : list byte) : Token := QuotedString (of_bytes v).

Definition print_expiration (e : Expiration) : list Token :=
  match e with
  | Ex seconds => [Word "ex"; num seconds]
  | Px millis => [Word "px"; num millis]
  end.

Definition print_set_options (o : SetOptions) : list Token :=
  match so_condition o with
  | Some Nx => [Word "nx"]
  | Some Xx => [Word "xx"]
  | None => []
  end ++
  match so_if_version o with
  | Some v => [Word "if"; Word "version"; num v]
  | None => []
  end ++
  match so_expiration o with Some e => print_expiration e | None => [] end ++
  (if so_keep_ttl o then [Word "keepttl"] else []) ++
  (if so_return_previous o then [Word "get"] else []).

Fixpoint print_entries (es : list (string * list byte)) : list Token :=
  match es with
  | [] => []
  | (k, v) :: es => arg k :: text_arg v :: print_entries es
  end.

Definition print_command (c : Command) : list Token :=
  match c with
  | CmdAuth u p => [Word "auth"; arg u; arg p]
  | CmdPing None => [Word "ping"]
  | CmdPing (Some m) => [Word "ping"; arg m]
  | CmdGet k => [Word "get"; arg k]
  | CmdSet k v o => Word "set" :: arg k :: text_arg v :: print_set_options o
  | CmdSetNx k v => [Word "setnx"; arg k; text_arg v]
  | CmdGetDel k => [Word "getdel"; arg k]
  | CmdGetEx k e p =>
      Word "getex" :: arg k ::
        match e with Some e => print_expiration e | None => [] end ++
        (if p then [Word "persist"] else [])
  | CmdMGet ks => Word "mget" :: (arg <$> ks)
  | CmdMSet es => Word "mset" :: print_entries es
  | CmdDelete ks => Word "del" :: (arg <$> ks)
  | CmdExists k => [Word "exists"; arg k]
  | CmdIncr k => [Word "incr"; arg k]
  | CmdDecr k => [Word "decr"; arg k]
  | CmdExpire k s => [Word "expire"; arg k; num s]
  | CmdTtl k => [Word "ttl"; arg k]
  | CmdPersist k => [Word "persist"; arg k]
  | CmdRename s d => [Word "rename"; arg s; arg d]
  | CmdRenameNx s d => [Word "renamenx"; arg s; arg d]
  | CmdScan c p n =>
      Word "scan" :: num c ::
        match p with Some p => [Word "match"; arg p] | None => [] end ++
        match n with Some n => [Word "count"; num n] | None => [] end
  | CmdDbSize => [Word "dbsize"]
  | CmdInfo => [Word "info"]
  | CmdMetrics => [Word "metrics"]
  | CmdMetricsProm => [Word "metrics"; Word "prom"]
  | CmdList => [Word "list"]
  | CmdClear => [Word "clear"]
  | CmdCount => [Word "count"]
  | CmdSave => [Word "save"]
  | CmdBackup => [Word "backup"]
  | CmdBackupTo p => [Word "backup"; Word "to"; arg p]
  | CmdBackupVerify d => [Word "backup"; Word "verify"; arg d]
  | CmdBackupVerifyFrom p => [Word "backup"; Word "verify"; Word "from"; arg p]
  | CmdRestore d => [Word "restore"; arg d]
  | CmdRestoreFrom p => [Word "restore"; Word "from"; arg p]
  | CmdRestoreCheck d => [Word "restore"; Word "check"; arg d]
  | CmdRestoreCheckFrom p => [Word "restore"; Word "check"; Word "from"; arg p]
  | CmdAlterUserPassword u p => [Word "alter"; Word "user"; arg u; Word "password"; arg p]
  | CmdCreateUser u p => [Word "create"; Word "user"; arg u; Word "password"; arg p]
  | CmdDropUser u => [Word "drop"; Word "user"; arg u]
  | CmdCreateRole r => [Word "create"; Word "role"; arg r]
  | CmdDropRole r => [Word "drop"; Word "role"; arg r]
  | CmdGrantRole r u => [Word "grant"; Word "role"; arg r; Word "to"; arg u]
  | CmdRevokeRole r u => [Word "revoke"; Word "role"; arg r; Word "from"; arg u]
  | CmdGrantPermission p a r =>
      [Word "grant"; Word "permission"; arg p; Word "on"; arg a; Word "to"; arg r]
  | CmdRevokePermission p a r =>
      [Word "revoke"; Word "permission"; arg p; Word "on"; arg a; Word "from"; arg r]
  | CmdShowUsers => [Word "show"; Word "users"]
  | CmdShowRoles => [Word "show"; Word "roles"]
  | CmdShowGrants => [Word "show"; Word "grants"]
  | CmdShowGrantsForUser u => [Word "show"; Word "grants"; Word "for"; Word "user"; arg u]
  | CmdShowGrantsForRole r => [Word "show"; Word "grants"; Word "for"; Word "role"; arg r]
  | CmdWhoAmI => [Word "whoami"]
  | CmdMulti => [Word "multi"]
  | CmdExec => [Word "exec"]
  | CmdDiscard => [Word "discard"]
  | CmdMaintenanceOn => [Word "maintenance"; Word "on"]
  | CmdMaintenanceOff => [Word "maintenance"; Word "off"]
  | CmdMaintenanceStatus => [Word "maintenance"; Word "status"]
  | CmdHealth => [Word "health"]
  | CmdShowCluster => [Word "show"; Word "cluster"]
  | CmdClusterJoin n a => [Word "cluster"; Word "join"; arg n; arg a]
  | CmdClusterRemove n => [Word "cluster"; Word "remove"; arg n]
  | CmdShowReplication => [Word "show"; Word "replication"]
  | CmdPromoteFollower => [Word "promote"; Word "follower"]
  | CmdPauseReplication => [Word "pause"; Word "replication"]
  | CmdResumeReplication => [Word "resume"; Word "replication"]
  | CmdHelp => [Word "help"]
  | CmdExit => [Word "exit"]
  | CmdSnapshot => [Word "snapshot"]
  end.

(** The command line carries text, so values must be UTF-8; an inline dump that
    reads [from] is taken for the [from <path>] form. *)
Definition printable (c : Command) : Prop :=
  match c with
  | CmdSet _ v _ | CmdSetNx _ v => utf8_valid v = true
  | CmdMSet es => Forall (fun e => utf8_valid e.2 = true) es
  | CmdBackupVerify d | CmdRestoreCheck d => eq_ignore_ascii_case d "from" = false
  | _ => True
  end.

Lemma parse_u64_num field z : is_u64 z -> parse_u64 field (num z) = Ok z.
Proof. intros H. unfold parse_u64, num. cbn. by rewrite parse_uint_to_string. Qed.

Lemma parse_u16_num field z : is_u16 z -> parse_u16 field (num z) = Ok z.
Proof. intros H. unfold parse_u16, num. cbn. by rewrite parse_uint_to_string. Qed.

Lemma parse_set_print o :
  set_options_wf o -> parse_set_options (print_set_options o) SetOptions_default = Ok o.
Proof.
  destruct o as [c v e k r]. intros [[Hv He] [Hc Hk]]. unfold print_set_options.
  cbn [so_condition so_if_version so_expiration so_keep_ttl so_return_previous] in *.
  assert (forall rest, parse_set_options
    (match c with Some Nx => [Word "nx"] | Some Xx => [Word "xx"] | None => [] end ++ rest)
    SetOptions_default = parse_set_options rest (mkSetOptions c None None false false)) as ->
    by (by destruct c as [[]|]).
  assert (forall rest, parse_set_options
    (match v with Some v => [Word "if"; Word "version"; num v] | None => [] end ++ rest)
    (mkSetOptions c None None false false) =
    parse_set_options rest (mkSetOptions c v None false false)) as ->.
  { destruct v as [v|]; [|done]. destruct c; [done|]. intros rest.
    change (parse_set_options ([Word "if"; Word "version"; num v] ++ rest) (mkSetOptions None None None false false))
      with (version ← parse_u64 "version" (num v); parse_set_options rest (mkSetOptions None (Some version) None false false)).
    by rewrite parse_u64_num. }
  assert (forall rest, parse_set_options
    (match e with Some e => print_expiration e | None => [] end ++ rest)
    (mkSetOptions c v None false false) =
    parse_set_options rest (mkSetOptions c v e false false)) as ->.
  { destruct e as [[n|n]|]; [..|done]; intros rest; unfold print_expiration.
    - change (parse_set_options ([Word "ex"; num n] ++ rest) (mkSetOptions c v None false false))
        with (z ← parse_u64 "seconds" (num n); parse_set_options rest (mkSetOptions c v (Some (Ex z)) false false)).
      by rewrite parse_u64_num.
    - change (parse_set_options ([Word "px"; num n] ++ rest) (mkSetOptions c v None false false))
        with (z ← parse_u64 "milliseconds" (num n); parse_set_options rest (mkSetOptions c v (Some (Px z)) false false)).
      by rewrite parse_u64_num. }
  by destruct k, r, e.
Qed.

Lemma parse_getex_print e p :
  option_ok expiration_typed e -> p && is_some e = false ->
  parse_getex_options (match e with Some e => print_expiration e | None => [] end ++
                       (if p then [Word "persist"] else [])) None false = Ok (e, p).
Proof.
  intros He Hp. destruct e as [[n|n]|], p; try done; cbn in He.
  - change ((z ← parse_u64 "seconds" (num n); Ok (Some (Ex z), false)) = Ok (Some (Ex n), false)).
    by rewrite parse_u64_num.
  - change ((z ← parse_u64 "milliseconds" (num n); Ok (Some (Px z), false)) = Ok (Some (Px n), false)).
    by rewrite parse_u64_num.
Qed.

Lemma parse_scan_print p n :
  option_ok is_u16 n ->
  parse_scan_options (match p with Some p => [Word "match"; arg p] | None => [] end ++
                      match n with Some n => [Word "count"; num n] | None => [] end) None None
  = Ok (p, n).
Proof.
  intros Hn. destruct n as [n|]; [|by destruct p]. cbn in Hn. destruct p as [p|].
  - change ((z ← parse_u16 "count" (num n); Ok (Some p, Some z)) = Ok (Some p, Some n)).
    by rewrite parse_u16_num.
  - change ((z ← parse_u16 "count" (num n); Ok (None, Some z)) = Ok (@None string, Some n)).
    by rewrite parse_u16_num.
Qed.

Lemma parse_mset_print es :
  parse_mset_entries (print_entries es) = Ok es.
Proof.
  induction es as [|[k v] es IH]; [done|]. cbn. rewrite IH. cbn.
  by rewrite as_bytes_of_bytes.
Qed.

Lemma text_arg_keys (ks : list string) : token_text <$> (arg <$> ks) = ks.
Proof. induction ks; cbn; [done|]. by f_equal. Qed.

Lemma mset_tokens_length es :
  length (print_entries es) = (2 * length es)%nat.
Proof. induction es as [|[k v] es IH]; [done|]. cbn. rewrite IH. lia. Qed.

Lemma parse_mset_print_ok es :
  es <> [] -> parse_mset (print_command (CmdMSet es)) = Ok (CmdMSet es).
Proof.
  intros Hne. unfold parse_mset, print_command.
  rewrite (proj2 (orb_false_iff _ _)).
  - rewrite skipn_cons, drop_0. by rewrite parse_mset_print.
  - cbn [length]. rewrite mset_tokens_length. destruct es; [done|].
    rewrite Nat.even_succ, Nat.odd_mul. split; [|done]. apply Nat.ltb_ge. cbn. lia.
Qed.

Lemma word_ok s : bool_decide (token_ok (Word s)) = true -> token_ok (Word s).
Proof. apply bool_decide_eq_true. Qed.

Lemma text_arg_ok v : utf8_valid v = true -> token_ok (text_arg v).
Proof. intros H. cbn. unfold str_ok. by rewrite as_bytes_of_bytes. Qed.

Lemma num_ok z : token_ok (num z).
Proof. apply int_to_string_ok. Qed.

Ltac tokens_ok :=
  repeat match goal with
  | |- Forall token_ok [] => apply Forall_nil_2
  | |- Forall token_ok (_ :: _) => apply Forall_cons_2
  | |- Forall token_ok (_ ++ _) => apply Forall_app_2
  | |- token_ok (num _) => apply num_ok
  | |- token_ok (arg _) => assumption
  | |- token_ok (text_arg _) => apply text_arg_ok; assumption
  | |- token_ok (Word _) => apply word_ok; vm_compute; reflexivity
  end.

Lemma print_set_options_ok o : Forall token_ok (print_set_options o).
Proof.
  unfold print_set_options, print_expiration.
  repeat apply Forall_app_2; repeat case_match; tokens_ok.
Qed.

Lemma arg_keys_ok (ks : list string) : Forall str_ok ks -> Forall token_ok (arg <$> ks).
Proof. intros H. by apply Forall_fmap. Qed.

Lemma mset_tokens_ok es :
  Forall str_ok (es.*1) -> Forall (fun e : string * list byte => utf8_valid e.2 = true) es ->
  Forall token_ok (print_entries es).
Proof.
  induction es as [|[k v] es IH]; [done|]. cbn. intros [Hk Hks]%Forall_cons [Hv Hvs]%Forall_cons.
  tokens_ok. by apply IH.
Qed.

Lemma print_command_ok c :
  command_wf c -> printable c -> Forall token_ok (print_command c).
Proof.
  intros [Ht Hc] Hp.
  destruct c; cbn in Ht, Hp; cbn [print_command]; destruct_and?;
    repeat match goal with
    | |- context [match ?o with Some _ => _ | None => _ end] => destruct o as [[]|] || destruct o
    | |- context [if ?b then _ else _] => destruct b
    end; unfold print_expiration;
    tokens_ok; auto using print_set_options_ok, arg_keys_ok, mset_tokens_ok.
Qed.

(** The tokens of a printed command parse to it. *)
Definition parse_all (ts : list Token) : outcome CommandError Command :=
  match ts with
  | [] => fail EmptyCommand
  | _ => command ← text_at ts 0; parse_tokens (to_ascii_lowercase command) ts
  end.

Lemma parse_all_set_print k v o :
  set_options_wf o -> parse_all (print_command (CmdSet k v o)) = Ok (CmdSet k v o).
Proof.
  intros Ho. etrans; [change (parse_all _) with
    (o ← parse_set_options (print_set_options o) SetOptions_default;
     Ok (E := fault CommandError) (CmdSet k (as_bytes (of_bytes v)) o)); reflexivity|].
  by rewrite as_bytes_of_bytes, parse_set_print.
Qed.

Lemma parse_all_getex_print k e p :
  option_ok expiration_typed e -> p && is_some e = false ->
  parse_all (print_command (CmdGetEx k e p)) = Ok (CmdGetEx k e p).
Proof.
  intros He Hp. transitivity (parse_getex (print_command (CmdGetEx k e p))); [done|].
  unfold parse_getex, print_command.
  replace (_ && _) with true by (by destruct e as [[]|], p).
  change (text_at _ 1) with (Ok (E := fault CommandError) k).
  rewrite !skipn_cons, drop_0. cbn [mbind result_bind]. by rewrite parse_getex_print.
Qed.

Lemma parse_all_scan_print c p n :
  is_u64 c -> option_ok is_u16 n ->
  parse_all (print_command (CmdScan c p n)) = Ok (CmdScan c p n).
Proof.
  intros Hc Hn. transitivity (parse_scan (print_command (CmdScan c p n))); [done|].
  unfold parse_scan, print_command. cbn [length Nat.ltb Nat.leb].
  change (index _ 1) with (Ok (E := fault CommandError) (num c)). cbn [mbind result_bind].
  by rewrite !skipn_cons, drop_0, parse_u64_num, parse_scan_print.
Qed.

Lemma parse_all_print c : command_wf c -> printable c -> parse_all (print_command c) = Ok c.
Proof.
  intros [Ht Hc] Hp. destruct c; try reflexivity; cbn in Ht, Hc, Hp.
  - by destruct message.
  - apply parse_all_set_print. split; naive_solver.
  - etrans; [by change (parse_all _) with
      (Ok (E := fault CommandError) (CmdSetNx key (as_bytes (of_bytes value))))|].
    by rewrite as_bytes_of_bytes.
  - apply parse_all_getex_print; naive_solver.
  - destruct keys as [|k ks]; [done|]. etrans; [by change (parse_all _) with
      (Ok (E := fault CommandError) (CmdMGet (token_text <$> (arg <$> k :: ks))))|].
    by rewrite text_arg_keys.
  - by apply (parse_mset_print_ok entries).
  - destruct keys as [|k ks]; [done|]. etrans; [by change (parse_all _) with
      (Ok (E := fault CommandError) (CmdDelete (token_text <$> (arg <$> k :: ks))))|].
    by rewrite text_arg_keys.
  - etrans; [by change (parse_all _) with
      (z ← parse_u64 "seconds" (num seconds); Ok (CmdExpire key z))|].
    rewrite parse_u64_num by naive_solver. done.
  - apply parse_all_scan_print; naive_solver.
  - etrans; [by change (parse_all _) with
      (if true && negb (eq_ignore_ascii_case dump "from") then Ok (CmdBackupVerify dump)
       else parse_backup [])|]. by rewrite Hp.
  - etrans; [by change (parse_all _) with
      (if true && negb (eq_ignore_ascii_case dump "from") then Ok (CmdRestoreCheck dump)
       else parse_restore [])|]. by rewrite Hp.
Qed.

Lemma parse_render ts : Forall token_ok ts -> parse (render ts) = parse_all ts.
Proof. intros H. unfold parse. rewrite tokenize_render by done. by destruct ts. Qed.

(** C38: parsing any input text terminates with a command or with one of the
    parser's own errors: no token access is out of range and no loop runs on. *)
Theorem parse_total (input : string) :
  (exists c, parse input = Ok c) \/ (exists e, parse input = Err (Raised e)).
Proof.
  pose proof (parse_returns input) as Hr. destruct (parse input) as [c|[e| |]]; cbn in Hr; eauto; done.
Qed.

(** C37: a parsed command respects the types of the source (UTF-8 strings, u64 and
    u16 arguments) and never carries contradictory modifiers: NX/XX with IF
    VERSION, KEEPTTL with EX/PX, PERSIST with EX/PX, or an empty list of keys. *)
Theorem parse_sound (input : string) (c : Command) :
  str_ok input -> parse input = Ok c -> command_typed c /\ command_consistent c.
Proof. apply parse_wf. Qed.

Lemma parse_sound_witness :
  command_typed (CmdSet "k" (as_bytes "v") (mkSetOptions None (Some 7) (Some (Px 50)) false true)) /\
  command_consistent (CmdSet "k" (as_bytes "v") (mkSetOptions None (Some 7) (Some (Px 50)) false true)).
Proof.
  apply (parse_sound "SET k v px 50 IF Version 7 GET"); vm_compute; reflexivity.
Defined.

(** C33: every well-formed command whose values are text has a command line, and
    parsing that line gives the command back. *)
Theorem parse_print_round_trip (c : Command) :
  command_typed c -> command_consistent c -> printable c ->
  parse (render (print_command c)) = Ok c.
Proof.
  intros Ht Hc Hp. rewrite parse_render by (by apply print_command_ok).
  by apply parse_all_print.
Qed.

Lemma parse_print_round_trip_witness :
  parse (render (print_command (CmdMSet [("a b"%string, as_bytes "1"); ("c"%string, as_bytes "\")]))) =
    Ok (CmdMSet [("a b"%string, as_bytes "1"); ("c"%string, as_bytes "\")]).
Proof.
  apply parse_print_round_trip.
  - repeat constructor.
  - discriminate.
  - repeat constructor.
Defined.

(** the tokens of any input can be written out again so that the lexer
    returns the same tokens: quoting and escaping lose nothing. *)
Theorem tokenize_stable (input : string) (ts : list Token) :
  str_ok input -> tokenize input = Ok ts -> tokenize (render ts) = Ok ts.
Proof. intros Hs Ht. by eapply tokenize_render, tokenize_ok. Qed.

Lemma tokenize_stable_witness :
  tokenize (render [Word "set"; Word "k"; QuotedString "a \ b"]) =
    Ok [Word "set"; Word "k"; QuotedString "a \ b"].
Proof.
  apply (tokenize_stable (of_bytes (as_bytes "set k " ++ [x22] ++ as_bytes "a \\ b" ++ [x22])));
    vm_compute; reflexivity.
Defined.
