(* ===== verification/BenchTheorems.v ===== *)
(** * BenchTheorems: the load generator

    What its reports and its pipelines can be relied on for. *)

From S2P Require Import Prelude Text Command Crypto Wire Opcode Request PayloadFacts Response.
From S2P Require Import Frame FrameFacts Negotiation ServerError Auth Access Dispatch Loops Process.
From S2P Require Import Samples Runs NodeRuns AccessRuns Bench.

(** ** A sample world *)

#[export] Instance sample_histogram : Histogram.
Proof.
  refine {| histogram := list Z; hist_new := []; hist_record v h := Some (v :: h); hist_add h k := Some (h ++ k);
            hist_len h := Z.of_nat (length h); hist_min := foldr Z.min 0; hist_max := foldr Z.max 0;
            hist_mean _ := F64.of_int 0; hist_value_at_quantile _ := foldr Z.max 0 |}.
  - done.
  - intros v h h' [= <-]. cbn. lia.
  - intros h k h' [= <-]. rewrite length_app. lia.
Defined.

#[export] Instance sample_rng : SmallRng.
Proof.
  refine {| rng := Z; seed_from_u64 n := n; random_range n r := (r * 5 + 1, r mod n);
            random_ratio n m r := (r * 5 + 1, r mod m <? n) |}.
  intros n r Hn. cbn. by apply Z.mod_pos_bound.
Defined.

#[export] Instance sample_tls_client : TlsClient := {|
  tls_client_config := unit;
  tls_client_build _ _ := Ok tt;
  valid_server_name _ := true;
  tls_message path := path;
|}.
#[export] Instance sample_tls : Tls := {|
  tls_config := unit;
  pem_certificates bytes := [Some bytes];
  pem_private_key := Some;
  is_trust_anchor _ := true;
  tls_build _ _ _ := Some tt;
  x509_not_after _ := None;
|}.

(** A standalone server whose connections belong to its administrator, and the
    programs that run. *)
Record World := mkWorld {
  bw_now : Z;
  bw_ids : Z;
  bw_server : Server;
  bw_incoming : gmap Z (list byte);
  bw_running : list Z;
}.

(** The answer to a request, or to the hello that opens a connection. *)
Definition answer (bytes : list byte) (server : Server) : Server * list byte :=
  match read_request_from_with_options CodecOptions_default bytes with
  | (_, Ok request) =>
      match into_command request with
      | Ok command =>
          let '(server, r) := process_command (fun _ => EmptyString) no_guards (call_at 5) None
                                (rq_request_id request) command server in
          let response := match r with
                          | Ok response => response
                          | Err _ => mkResponse (rq_request_id request) StatusError []
                          end in
          (server, ignore [] (encode_response_with_options response CodecOptions_default))
      | Err _ => (server, [])
      end
  | _ => (server, [])
  end.
Definition greeting : list byte :=
  ignore [] (written (write_server_hello_to
    (ServerHello.ok DEFAULT_CAPABILITIES CompressionNone MAX_FRAME_LEN (replicate UUID_LEN x00)))).

(** A socket answers the latest of the requests that wait first.  Reading a clock takes
    a fifth of a second; a third server cannot be started. *)
Definition sample_outside : Outside World := {|
  ow_now w := (mkWorld (bw_now w + 200000000) (bw_ids w) (bw_server w) (bw_incoming w) (bw_running w), bw_now w);
  ow_sleep ms w := mkWorld (bw_now w + ms * 1000000) (bw_ids w) (bw_server w) (bw_incoming w) (bw_running w);
  ow_uuid w := (mkWorld (bw_now w) (bw_ids w + 1) (bw_server w) (bw_incoming w) (bw_running w), to_be 16 (bw_ids w));
  ow_connect _ w := (w, Ok (Z.of_nat (size (bw_incoming w))));
  ow_tls _ _ _ w := (w, Ok tt);
  ow_write stream bytes w :=
    match bw_incoming w !! stream with
    | None => (mkWorld (bw_now w) (bw_ids w) (bw_server w) (<[stream := greeting]> (bw_incoming w)) (bw_running w), Ok tt)
    | Some waiting =>
        let '(server, frame) := answer bytes (bw_server w) in
        (mkWorld (bw_now w) (bw_ids w) server (<[stream := frame ++ waiting]> (bw_incoming w)) (bw_running w), Ok tt)
    end;
  ow_flush _ w := (w, Ok tt);
  ow_incoming stream w := default [] (bw_incoming w !! stream);
  ow_take stream rest w :=
    mkWorld (bw_now w) (bw_ids w) (bw_server w) (<[stream := rest]> (bw_incoming w)) (bw_running w);
  ow_joined _ := true;
  ow_panic_text _ := EmptyString;
  ow_files _ _ := Ok [];
  ow_temp_dir := "/tmp";
  ow_system_nanos w := (w, Some (bw_now w));
  ow_create_dir_all _ w := (w, Ok tt);
  ow_write_file _ _ w := (w, Ok tt);
  ow_free_port w := (w, Ok 40000);
  ow_spawn _ _ w :=
    let child := Z.of_nat (length (bw_running w)) in
    if 2 <=? child then (w, Err "no memory"%string)
    else (mkWorld (bw_now w) (bw_ids w) (bw_server w) (bw_incoming w) (bw_running w ++ [child]), Ok child);
  ow_kill child w :=
    mkWorld (bw_now w) (bw_ids w) (bw_server w) (bw_incoming w) (List.filter (fun c => negb (c =? child)) (bw_running w));
  ow_ca w := (w, Ok [x01]);
  ow_leaf _ _ w := (w, Ok ([x02], [x03]));
|}.
Definition sample_world : World := mkWorld 0 1 (lone_server (Some root)) ∅ [].
Definition sample_run : RunArgs :=
  mkRunArgs "127.0.0.1:9173" None None (mkTlsArgs false None None None) 2 (Some 3) 2 10 4 1 WorkloadMixed.

(** ** Samples of errors *)


Section accounts.
Context `{Zstd} `{Crc32} `{Tls} `{TlsClient} `{Histogram} `{SmallRng} {W : Type} (outside : Outside W).
Context (uuid_to_string : Uuid -> string).
Notation M := (fallible W (fault BenchError)).









Lemma in_order_ids requests : forall responses (w w' : W) ordered,
  in_order uuid_to_string requests responses w = (w', Ok ordered) ->
  Forall2 (fun request response => responses !! rq_request_id request = Some response) requests ordered.
Proof.
  induction requests as [|request requests IH]; intros responses w w' ordered Hi.
  { injection Hi as <- <-. constructor. }
  apply fallible_bind_ok in Hi as (w1 & response & [= _ Hl] & (w2 & rest & Hr%IH & [= <- <-])%fallible_bind_ok).
  destruct (responses !! rq_request_id request) as [r|] eqn:E; [|done]. injection Hl as ->.
  constructor; [done|]. eapply Forall2_impl; [exact Hr|]. intros x y Hx. by apply lookup_delete_Some in Hx as [_ ?].
Qed.


(** *** Turns *)








(** *** Totals *)








End accounts.







(** ** Pipelines *)

Section ordering.
Context {W : Type} (uuid_to_string : Uuid -> string).

Definition by_id (responses : list Response) : gmap (list byte) Response :=
  foldl (fun m response => <[rs_request_id response := response]> m) ∅ responses.

Lemma by_id_lookup responses response :
  NoDup (rs_request_id <$> responses) -> response ∈ responses -> by_id responses !! rs_request_id response = Some response.
Proof.
  unfold by_id. generalize (∅ : gmap (list byte) Response). intros m Hd Hin.
  induction responses as [|r responses IH] in m, Hd, Hin |- *; [by apply elem_of_nil in Hin|].
  apply NoDup_cons in Hd as [Hr Hd]. cbn [foldl]. apply elem_of_cons in Hin as [->|Hin]; [|by apply IH].
  clear IH Hd. assert (rs_request_id r ∉ (rs_request_id <$> responses)) as Hn by done.
  assert (<[rs_request_id r:=r]> m !! rs_request_id r = Some r) as Hm' by apply lookup_insert_eq.
  revert Hm'. generalize (<[rs_request_id r:=r]> m) as k. clear Hr. induction responses as [|x xs IH]; intros k Hk; [done|].
  cbn. apply IH; [set_solver|]. rewrite lookup_insert_ne; [done|set_solver].
Qed.

Lemma in_order_found requests : forall m (w : W),
  NoDup (rq_request_id <$> requests) -> Forall (fun request => is_Some (m !! rq_request_id request)) requests ->
  exists ordered, in_order uuid_to_string requests m w = (w, Ok ordered).
Proof.
  induction requests as [|request requests IH]; intros m w Hd Hs; [by exists []|].
  apply NoDup_cons in Hd as [Hr Hd]. apply Forall_cons in Hs as [[response Hm'] Hs].
  destruct (IH (delete (rq_request_id request) m) w Hd) as [ordered Ho].
  { apply Forall_forall. intros x Hx. rewrite lookup_delete_ne; [by eapply Forall_forall in Hs|].
    intros E. apply Hr. rewrite E. by apply list_elem_of_fmap_2. }
  exists (response :: ordered). cbn. unfold mbind, fallible_bind, mpure. by rewrite Hm', Ho.
Qed.

Lemma ordered_responses requests responses w :
  NoDup (rq_request_id <$> requests) -> (rs_request_id <$> responses) ≡ₚ (rq_request_id <$> requests) ->
  exists ordered, in_order uuid_to_string requests (by_id responses) w = (w : W, Ok ordered) /\
    ordered ≡ₚ responses /\ (rs_request_id <$> ordered) = (rq_request_id <$> requests).
Proof.
  intros Hd Hp. assert (NoDup (rs_request_id <$> responses)) as Hd' by by rewrite Hp.
  assert (forall request, request ∈ requests -> exists response, response ∈ responses /\
    rs_request_id response = rq_request_id request) as Hfind.
  { intros request Hin%(list_elem_of_fmap_2 rq_request_id). rewrite <- Hp in Hin.
    apply list_elem_of_fmap in Hin as (response & E & Hin). by exists response. }
  destruct (in_order_found requests (by_id responses) w Hd) as [ordered Ho].
  { apply Forall_forall. intros request (response & Hin & <-)%Hfind. eexists. by apply by_id_lookup. }
  exists ordered. split; [done|]. apply in_order_ids in Ho.
  assert (Forall2 (fun request response => rs_request_id response = rq_request_id request /\ response ∈ responses)
    requests ordered) as Hall.
  { eapply Forall2_same_length_lookup in Ho as [Hlen Ho]. apply Forall2_same_length_lookup. split; [done|].
    intros i request response Hr Hy. specialize (Ho i request response Hr Hy).
    destruct (Hfind request) as (found & Hin & E); [by eapply list_elem_of_lookup_2|].
    rewrite <- E, (by_id_lookup responses found Hd' Hin) in Ho. injection Ho as <-. by split. }
  assert ((rs_request_id <$> ordered) = (rq_request_id <$> requests)) as Hids.
  { clear -Hall. induction Hall as [|x y xs ys [E _] _ IH]; [done|]. cbn. by rewrite E, IH. }
  split; [|done]. assert (ordered ⊆ responses) as Hsub.
  { intros y (i & Hy)%list_elem_of_lookup. destruct (Forall2_lookup_r _ _ _ _ _ Hall Hy) as (x & _ & _ & Hin). done. }
  apply NoDup_submseteq in Hsub; [|apply (NoDup_fmap_1 rs_request_id); by rewrite Hids].
  apply submseteq_length_Permutation; [done|]. rewrite <- (length_fmap rs_request_id ordered), Hids.
  by rewrite <- (length_fmap rs_request_id responses), Hp.
Qed.

End ordering.

Section pipelines.
Context `{Zstd} `{Crc32} `{Tls} `{TlsClient} {W : Type} (outside : Outside W) (uuid_to_string : Uuid -> string).
Context (client : BenchmarkClient).

(** What is left on a stream is what was not read, and the runtime is not shutting down. *)
Record ordinary_stream : Prop := {
  os_take rest w : ow_incoming outside (bc_stream client) (ow_take outside (bc_stream client) rest w) = rest;
  os_joined w : ow_joined outside w = true;
}.

(** A response as a server with these options sends it. *)
Definition sent_as (o : CodecOptions) (response : Response) (frame : list byte) : Prop :=
  uuid_ok (rs_request_id response) /\ encode_response_with_options response o = Ok frame.

Context (o : CodecOptions) (Hstream : ordinary_stream) (Hm : co_max_frame_len o <= u32_max)
  (Hl : within_limits o (bc_transport client)).

Lemma read_response_sent response frame rest w :
  sent_as o response frame -> ow_incoming outside (bc_stream client) w = frame ++ rest ->
  read_response outside client w = (ow_take outside (bc_stream client) rest w, Ok response).
Proof.
  intros [Hid Hf] Hw. unfold read_response, mbind, fallible_bind, mget, read_stream. rewrite (os_joined Hstream), Hw.
  assert (read_response_from_async_with_options true (bc_transport client) (frame ++ rest) = (rest, Ok response)) as ->; [|done].
  destruct (response_body_round_trip response Hid) as (body & Hb & Hd).
  unfold encode_response_with_options in Hf. rewrite Hb in Hf. cbn in Hf.
  pose proof (frame_round_trip _ _ _ _ rest Hf Hm Hl) as Hr.
  unfold read_response_from_async_with_options, mbind, fallible_bind.
  assert (read_frame_from_async_with_options true (bc_transport client) (frame ++ rest) =
    read_frame_from_with_options (bc_transport client) (frame ++ rest)) as ->.
  { unfold read_frame_from_async_with_options, read_frame_from_with_options, decompress_frame_payload_maybe_blocking.
    unfold mbind, fallible_bind. destruct (read_exact_or_eof _ _) as [b [h|e]]; [|done]. cbn.
    destruct (read_from _ _) as [hd|e]; [|done]. destruct (read_payload _ _ _) as [b' [p|e]]; [|done].
    by destruct (_ =? _). }
  rewrite Hr. unfold mpure. by rewrite Hd.
Qed.

Lemma read_responses_sent responses frames :
  Forall2 (sent_as o) responses frames -> forall rest m w,
  ow_incoming outside (bc_stream client) w = mjoin frames ++ rest ->
  exists w', read_responses outside client (length responses) m w =
      (w', Ok (foldl (fun m response => <[rs_request_id response := response]> m) m responses)) /\
    ow_incoming outside (bc_stream client) w' = rest.
Proof.
  induction 1 as [|response frame responses frames Hs _ IH]; intros rest m w Hw; [by exists w|].
  cbn [mjoin list_join] in Hw. rewrite <- app_assoc in Hw.
  cbn [length read_responses]. unfold mbind at 1, fallible_bind at 1. rewrite (read_response_sent _ _ _ _ Hs Hw).
  apply IH. apply (os_take Hstream).
Qed.

End pipelines.

(** C40: Pipelined responses are matched by their ids.  Whatever the order in which a server
    answers the requests of a pipeline, as long as it answers each of them once, the
    answer to every command is returned in the place of the command, and what follows
    on the stream is left unread. *)
Theorem pipeline_in_order `{Zstd} `{Crc32} `{Tls} `{TlsClient} {W : Type} (outside : Outside W) uuid_to_string
    client o commands requests responses frames rest w w1 w2 w3 :
  ordinary_stream outside client -> co_max_frame_len o <= u32_max -> within_limits o (bc_transport client) ->
  commands <> [] ->
  pipeline_requests outside commands w = (w1, Ok requests) ->
  write_requests outside client requests w1 = (w2, Ok tt) ->
  ow_flush outside (bc_stream client) w2 = (w3, Ok tt) ->
  NoDup (rq_request_id <$> requests) ->
  Forall2 (sent_as o) responses frames ->
  (rs_request_id <$> responses) ≡ₚ (rq_request_id <$> requests) ->
  ow_incoming outside (bc_stream client) w3 = mjoin frames ++ rest ->
  exists w' ordered,
    send_pipeline outside uuid_to_string client commands w = (w', Ok ordered) /\
    ordered ≡ₚ responses /\ (rs_request_id <$> ordered) = (rq_request_id <$> requests) /\
    ow_incoming outside (bc_stream client) w' = rest.
Proof.
  intros Hs Hm Hl Hne Hreq Hw Hf Hd Hsent Hp Hin.
  destruct (read_responses_sent outside client o Hs Hm Hl _ _ Hsent rest ∅ w3 Hin) as (w4 & Hread & Hrest).
  destruct (ordered_responses uuid_to_string requests responses w4 Hd Hp) as (ordered & Ho & Hperm & Hids).
  exists w4, ordered. split; [|done]. unfold send_pipeline. destruct commands as [|c cs]; [done|].
  assert (length requests = length responses) as Hlen
    by (rewrite <- (length_fmap rq_request_id), <- Hp; apply length_fmap).
  unfold mbind, fallible_bind, outer_io. by rewrite Hreq, Hw, Hf, Hlen, Hread.
Qed.

(** A connection, and a pipeline on it that is answered backwards. *)
Definition opened : World :=
  (connect sample_outside "1" (fun _ => EmptyString) (rc_connection (run_config sample_run)) sample_world).1.
Definition sample_client : BenchmarkClient :=
  mkBenchmarkClient 0 (mkCodecOptions CompressionNone DEFAULT_COMPRESSION_THRESHOLD_BYTES MAX_FRAME_LEN MAX_FRAME_LEN).
Definition piped : list Command := [CmdGet "nothing"; CmdPing None].
Definition piped_requests : World * list Request :=
  let '(w, r) := pipeline_requests sample_outside piped opened in (w, ignore [] r).
Definition piped_world : World := (write_requests sample_outside sample_client piped_requests.2 piped_requests.1).1.
Definition piped_responses : list Response :=
  reverse (ignore [] (send_pipeline sample_outside (fun _ => EmptyString) sample_client piped opened).2).
Definition piped_frames : list (list byte) :=
  (fun response => ignore [] (encode_response_with_options response CodecOptions_default)) <$> piped_responses.

Lemma pipeline_in_order_witness :
  exists w' ordered,
    send_pipeline sample_outside (fun _ => EmptyString) sample_client piped opened = (w', Ok ordered) /\
    (rs_request_id <$> ordered) = reverse (rs_request_id <$> piped_responses) /\
    (rs_request_id <$> ordered) <> (rs_request_id <$> piped_responses).
Proof.
  destruct (pipeline_in_order sample_outside (fun _ => EmptyString) sample_client CodecOptions_default piped
    piped_requests.2 piped_responses piped_frames [] opened piped_requests.1 piped_world piped_world)
    as (w' & ordered & Hs & _ & Hids & _).
  - split; [|done]. intros rest w. cbn. by rewrite lookup_insert_eq.
  - vm_compute. discriminate.
  - split; [|split; [|split]]; vm_compute; congruence.
  - done.
  - vm_compute. reflexivity.
  - vm_compute. reflexivity.
  - reflexivity.
  - vm_compute. repeat constructor; set_solver.
  - apply Forall2_fmap_r, Forall_Forall2_diag, Forall_forall. intros response Hin.
    assert (forallb (fun r => bool_decide (length (rs_request_id r) = UUID_LEN) &&
              is_ok (encode_response_with_options r CodecOptions_default)) piped_responses = true) as Hall
      by (vm_compute; reflexivity).
    rewrite forallb_forall in Hall. apply list_elem_of_In, Hall, andb_prop in Hin as [Hid%bool_decide_eq_true Hok].
    split; [exact Hid|]. by destruct (encode_response_with_options response CodecOptions_default).
  - vm_compute. apply perm_swap.
  - vm_compute. reflexivity.
  - exists w', ordered. split; [exact Hs|]. rewrite Hids. split; [vm_compute; reflexivity|vm_compute; discriminate].
Defined.

(** ** What the program does instead *)

Section recorded.
Context `{SmallRng} (answers : Command -> list Command -> outcome BenchError Response).

(** Commands are noted and answered in any way. *)
Definition note (command : Command) : fallible (list Command) (fault BenchError) Response :=
  fun sent => (sent ++ [command], answers command sent).

Definition avoids (key : string) (sent : list Command) : Prop := Forall (fun c => key ∉ command_keys c) sent.
Definition avoiding {A} (key : string) (m : fallible (list Command * rng) (fault BenchError) A) : Prop :=
  forall sent r, avoids key sent -> avoids key (m (sent, r)).1.1.

Lemma avoiding_bind {A B} key (m : fallible (list Command * rng) (fault BenchError) A) (k : A -> fallible (list Command * rng) (fault BenchError) B) :
  avoiding key m -> (forall a, avoiding key (k a)) -> avoiding key (m ≫= k).
Proof.
  intros Hm Hk sent r Hs. unfold mbind, fallible_bind. specialize (Hm sent r Hs).
  destruct (m (sent, r)) as [[sent' r'] [a|e]]; [by apply Hk|done].
Qed.

Lemma avoiding_pure {A} key (a : outcome BenchError A) : avoiding key (mpure a).
Proof. by intros sent r Hs. Qed.

Lemma avoiding_ask key command : key ∉ command_keys command -> avoiding key (ask note command).
Proof. intros Hk sent r Hs. cbn. apply Forall_app. split; [done|by constructor]. Qed.

Lemma avoiding_accepting key command accepted :
  key ∉ command_keys command -> avoiding key (send_accepting note command accepted).
Proof.
  intros Hk. apply avoiding_bind; [by apply avoiding_ask|]. intros response.
  destruct (bool_decide _); [apply (avoiding_pure key (Ok tt))|].
  apply avoiding_bind; [apply avoiding_pure|]. intros message. apply (avoiding_pure key (Err _)).
Qed.

Lemma avoiding_value key command : key ∉ command_keys command -> avoiding key (send_value note command).
Proof.
  intros Hk. apply avoiding_bind; [by apply avoiding_ask|]. intros response. destruct (negb _).
  - apply avoiding_bind; [apply avoiding_pure|]. intros message. apply (avoiding_pure key (Err _)).
  - apply avoiding_pure.
Qed.

(** A command of a workload names no key that was seeded. *)
Lemma next_command_avoids idx workload keyspace value r :
  match (next_command workload keyspace value r).2 with
  | Ok command => seed_key idx ∉ command_keys command
  | Err _ => True
  end.
Proof.
  unfold next_command. run_fallible. unfold draw. destruct (_ <=? _); [done|].
  destruct (random_range keyspace r) as [r1 index]. unfold ratio.
  destruct workload; try done; cbn; try (destruct (random_ratio 7 10 r1) as [r2 []]); cbn;
    rewrite ?list_elem_of_singleton; set_solver.
Qed.

Lemma avoiding_next {A} idx workload keyspace value (k : Command -> fallible (list Command * rng) (fault BenchError) A) :
  (forall command, seed_key idx ∉ command_keys command -> avoiding (seed_key idx) (k command)) ->
  avoiding (seed_key idx) (command ← on_rng (next_command workload keyspace value); k command).
Proof.
  intros Hk sent r Hs. unfold mbind, fallible_bind, on_rng.
  pose proof (next_command_avoids idx workload keyspace value r) as Hc.
  destruct (next_command workload keyspace value r) as [r' [command|e]]; [by apply Hk|done].
Qed.

Lemma avoiding_other key command accepted :
  command_keys command = [] -> avoiding key (send_accepting note command accepted).
Proof. intros Hk. apply avoiding_accepting. rewrite Hk. apply not_elem_of_nil. Qed.

Lemma avoiding_item idx worker_id operation_index keyspace value item :
  avoiding (seed_key idx) (transaction_item note worker_id operation_index keyspace value item).
Proof.
  intros sent r Hs. unfold transaction_item, mbind, fallible_bind, on_rng.
  destruct (draw keyspace r) as [r' [key_index|e]]; [|done].
  apply avoiding_accepting; [|done]. cbn. by intros [=]%list_elem_of_singleton.
Qed.

Lemma avoiding_operation idx worker_id operation_index workload keyspace value :
  avoiding (seed_key idx) (run_operation note worker_id operation_index workload keyspace value).
Proof.
  destruct workload; cbn [run_operation];
    try (apply avoiding_next; intros command Hc; by apply avoiding_accepting).
  - unfold run_transaction_flow, send_ok.
    repeat first [apply avoiding_item | by apply avoiding_other | apply avoiding_bind; [|intros ?]].
  - unfold run_backup_restore, send_ok. apply avoiding_bind.
    { apply avoiding_accepting. cbn. by intros [=]%list_elem_of_singleton. }
    intros _. apply avoiding_bind; [apply avoiding_value, not_elem_of_nil|]. intros dump.
    apply avoiding_bind; [by apply avoiding_other|]. intros _. by apply avoiding_other.
  - unfold run_auth_rbac_churn, send_ok. cbv zeta.
    repeat first [by apply avoiding_other | apply avoiding_bind; [|intros ?]].
Qed.

End recorded.

(** The keys that are seeded are never used.  Whatever is answered, no operation of any
    workload names one of them: the keys of GET and SET begin with [bench-], while the
    seeded ones begin with [seed-].  So a run of GETs only meets keys that do not
    exist, which it accepts. *)
Theorem seeded_keys_unused `{SmallRng} answers idx worker_id operation_index workload keyspace value r :
  let '((sent, _), _) := run_operation (note answers) worker_id operation_index workload keyspace value ([], r) in
  Forall (fun command => seed_key idx ∉ command_keys command) sent.
Proof.
  pose proof (avoiding_operation answers idx worker_id operation_index workload keyspace value [] r) as Ha.
  destruct (run_operation _ _ _ _ _ _ _) as [[sent r'] a]. by apply Ha, Forall_nil.
Qed.

Definition sample_managed : ManagedArgs :=
  mkManagedArgs "vaylix" 1 "vaylix" "vaylix" false false None None None None None None None ManagedFlush ManagedMajority.

(** A cluster that is started half way is left running: the servers are killed when a
    [ManagedCluster] is dropped, and there is none before all of them were started. *)
Theorem failed_launch_leaves_servers :
  let '(w, r) := execute sample_outside "1" (fun _ => EmptyString) 5 [] (BenchManagedQuorum sample_managed) sample_world in
  r = Err (Raised (BenchIo "no memory")) /\ bw_running w = [0; 1].
Proof. vm_compute. split; reflexivity. Qed.
